(* ===== verification/_CoqProject ===== *)
-Q . S2P
Prelude.v
Entry.v
Header.v
Tree.v
Leaf.v
TreeWf.v
LeafLemmas.v
LeafRefine.v
Calls.v
CallRules.v
CallLemmas.v
CallSound.v
Runs.v
RunsProps.v
Verify.v
Omit.v
Digest.v
Settings.v
SettingsProps.v
Context.v
ContextProps.v
Hash.v
HashProps.v
OmitProps.v
Session.v
Compaction.v
SessionProps.v
Written.v
WrittenSound.v
Forks.v
Strconv.v
Utf8.v
Json.v
Jcs.v
Ijson.v
StrconvProps.v
Utf8Props.v
NumberProps.v
JsonProps.v
JcsSort.v
JcsProps.v
JsonTokens.v
IjsonProps.v
JsonPrint.v
JcsRoundtrip.v
Normalise.v
NormaliseText.v
NormaliseWalk.v
NormaliseProps.v
NormaliseRecord.v
Marshal.v
MarshalProps.v
HashCanonical.v
Jsonx.v
JsonxProps.v
Times.v
Codec.v
CodecLines.v
CodecProps.v
CodecRoundtrip.v
CodecScan.v
GoStrings.v
Refs.v
RefsProps.v
Blob.v
Store.v
StoreProps.v
OriginProps.v
SessionFor.v
SessionForProps.v
MemoryRefs.v
Wake.v
Follow.v
FollowProps.v
Instances.v
Examples.v
ExamplesContext.v
ExamplesJson.v
ExamplesCodec.v
ExamplesStore.v
