(* ===== verification/Prelude.v ===== *)
(** * A verified model of the agent session library

    The repository stores an agent's conversation as a session: a file of
    lines, the first a header, each other line an entry that hangs from the
    entry before it by the hash of its content, so that a session is a tree
    whose leaf is where the next entry goes.  The Go package at the root of
    [src/] is that format: it reads and writes lines, appends entries under the
    rules of the format, replays a path into the context of a model call,
    checks what a file records, and defines what a store of sessions is, with
    one in memory.  Its packages under [src/internal] are the canonical JSON and
    the I-JSON test the ids of entries rest on.  The other packages of the
    repository are stores on disk and over a network, exporters and commands.
    This development models the core package and its JSON, and proves what its
    operations promise.

    ** The parts, and where each is

    Data.  [Entry.v]: the envelope and the entry types ([entry.go],
    [lifecycle.go]); a Go pointer or interface that may be nil is an [option].
    [Header.v]: the header, its format string and the rule that a header is
    never raised past a minor that would give a member it holds a new meaning
    ([header.go]).

    The tree.  [Tree.v]: the [Session] record, [add], [path], the rules for a
    parent, a base and the references of a convergence ([session.go]).
    [Leaf.v]: where the leaf may rest, the durable mark of a leaf label,
    [resolveLeaf] as [Read] runs it over a whole file, the state [Extend] keeps
    instead, the head compare-and-swap and the labels a store of lines writes.
    [TreeWf.v] states the invariant of the tree ([wf]) and the lemmas of paths;
    [LeafLemmas.v] relates the kept state to a pass over the file;
    [LeafRefine.v] proves the leaf.

    Calls and runs.  [Calls.v]: the replay of a path into its function calls,
    with what was decided, dispatched and returned ([run.go]).  [CallRules.v]:
    what an append is refused for ([checkCallRules] of [session.go]).
    [CallLemmas.v] describes the replay as a map indexed by entry;
    [CallSound.v] proves that the rules keep a path free of every violation the
    replay reports.  [Runs.v]: the runs of a path, the reason a run ended, the
    inbox; [RunsProps.v] their properties.  [Verify.v]: [VerifyRecords],
    [VerifyLinks] and [VerifyCopies].

    Settings and context.  [Omit.v]: what a request leaves out ([entry.go],
    [context.go]), with [OmitProps.v].  [Settings.v]: [Apply] and the deltas a
    writer computes, with [SettingsProps.v].  [Context.v]: the context
    algorithm, with [ContextProps.v].  [Compaction.v]: what a compaction keeps.

    JSON.  [Strconv.v], [Utf8.v] and [Json.v] model the standard library as it
    is documented: numbers and doubles, UTF-8 and UTF-16, the decoder of
    encoding/json with its tokens.  [Jcs.v]: the canonical form of a document
    ([internal/jcs]), by the decoded value and by the walk over its bytes.
    [Ijson.v]: the I-JSON test ([internal/ijson]), by the tokens and by the
    bytes.  [Jsonx.v]: the helpers that slice an object apart and write a
    struct with members it does not declare ([internal/jsonx]).
    [StrconvProps.v], [Utf8Props.v], [NumberProps.v], [JsonProps.v],
    [JcsSort.v], [JsonTokens.v] and [JsonPrint.v] are the lemmas;
    [JcsProps.v], [JcsRoundtrip.v], [IjsonProps.v] and [JsonxProps.v] the
    properties.  [Normalise.v]: the
    rewriting of a document until it is I-JSON, and what a writer may record of it
    ([normalise.go]), over the tokens of the decoder; [NormaliseText.v] has the
    repair of a string and of a number,
    [NormaliseWalk.v] ties the token loop to the value of the document, and
    [NormaliseProps.v] and [NormaliseRecord.v] have the properties.  [Marshal.v] writes maps and strings as encoding/json does and
    instantiates the parameters of [Hash.v] by these definitions, and
    [MarshalProps.v] has its lemmas.

    Hashes.  [Digest.v], [Hash.v]: the id of an entry ([hash.go]), computed by
    decoding a line and by slicing it; [HashProps.v] has the grammar of compact
    JSON the slicing is proved against, and [HashCanonical.v] proves the two
    ways agree on the lines of a store.

    Operations.  [Session.v]: validation, [prepare], [Commit], [Append],
    [Extend], [commitHead], [Fork] and the compactions ([session.go]).
    [prepareEntry] writes through the entry it is given, and is a state and
    error monad over it, in the order of the source.  [SessionProps.v]: what
    each does to the tree.  [Written.v], [WrittenSound.v], [Forks.v]: the
    sessions any sequence of operations makes ([written]), by rule induction.

    Files.  [Times.v]: the one spelling of a time, over the calendar
    ([CanonicalTime], [ParseCanonicalTime] of [hash.go]), and that a time spelled
    is parsed back.  [Codec.v]: [Read], its loop over the lines with the
    header, the migration of a file of an early format and the last line cut
    short, and [Write] ([codec.go]); [verifyLine], [scanLine] and [Scan]
    ([scan.go]).  [CodecLines.v]: the laws asked of a decoder of lines, and what
    a line this library writes looks like; an object cut short is no
    document ([JsonTokens.v]).  [CodecProps.v]: what [Read] establishes of any bytes;
    [CodecRoundtrip.v]: what it returns of bytes [Write] made, whole or torn;
    [CodecScan.v]: [Scan] against [Read], in step line by line.

    Stores.  [GoStrings.v] has the string functions of the standard library.
    [Refs.v]: the names of sessions, their rules and the table the store in
    memory keeps ([refs.go]); [RefsProps.v] its invariant.  [Blob.v]: media
    types, the blobs a session names and the reads of a sidecar directory
    ([blob.go]).  [Store.v]: [MemoryStore], its state every map its locks
    guard, an operation a function of that state ([store.go]); what a store
    refuses ([redactedstore.go], [import.go]); the origins of forks
    ([internal/origin], [origin.go]).  [StoreProps.v]: the invariant of its
    runs; [OriginProps.v]: the origins.  [SessionFor.v]: the calls of
    [SessionFor], each a machine that makes one operation of a store a turn,
    interleaved on any store of the class [RefStore]; [SessionForProps.v]:
    their agreement and their return, from the laws [RefStoreLaws], which
    [MemoryRefs.v] proves of the store in memory.

    Following.  [Wake.v]: the hub that wakes followers, as a machine whose steps
    are the calls of any number of followers and writers, and the interval of
    their polls ([internal/wake]), with its invariant.  [Follow.v]:
    [MemoryStore.Follow] and its cursors ([follow.go]), an iterator whose caller,
    context and store are arguments; [FollowProps.v]: what it yields, by way of
    [Extend] and of [Read] of what [Write] makes.

    [Instances.v] gives the parameters small concrete functions, on which
    [Examples.v], [ExamplesContext.v], [ExamplesJson.v], [ExamplesCodec.v] and
    [ExamplesStore.v] evaluate the definitions and apply each property that has hypotheses.

    ** What is proved

    Of written sessions: every record rule an append enforces holds on every
    path ([written_verifies]); the session is a tree named by hashes
    ([written_tree]); a fork is its origin's path ([Fork_spec]); reader and
    writer agree on the base rule ([baseRule_agrees]).  Of one operation:
    [Commit_spec], [Extend_is_Read] (following a file is reading it again, where
    no label names an entry that comes after it),
    [commitHead_sound], [headLabel_cas].  Of the leaf: [resolveLeaf_spec],
    [resolveLeaf_mayRest], [LeafMarkNeeded_exact], [LeafMarkBefore_crash_safe].
    Of calls and runs: [targetCall_replay], [Runs_laid_out], [EndRun_verifies],
    [Queued_spec].  Of context: [CompactFrom_keeps], [CompactKeeping_keeps],
    [BuildContext_accounts], [replaceImages_keeps], [requestContextAt_output].
    Of deltas, as round trips: [OmittedDelta_resolves],
    [InstructionsDelta_applies], [OmitDelta_merges].  Of hashes:
    [canonical_line_hashes], [canonicalMembers_print], [memberHashes_commit].
    Of headers: [migrate_never_redefines].  Of JSON: [transformFast_agrees],
    [Transform_idempotent], [Transform_same], [FormatNumber_roundtrip],
    [Check_document], [checkFast_agrees], [checkFast_disagrees],
    [canonical_is_IJSON], [token_loop_ends], [Members_decodes],
    [unknown_kept].  Of normalisation: what [NormaliseJSON] returns is I-JSON
    and, where no exponent has more than five digits, has the canonical form it
    was given ([NormaliseJSON_canonical]), it takes every document whose names
    and numbers it can keep ([NormaliseJSON_succeeds]), does not change what it made
    ([NormaliseJSON_again]) and reports only what a writer may record
    ([NormaliseJSON_recorded]).  Of files: what [Read] returns of any bytes is a tree of
    entries, each under the hash of its line, that keeps every rule of a line
    ([Read_verifies]); reading what was written gives the session back, each
    entry as its line reads ([Read_Write]), and of a file torn in
    its last line all but that line ([Read_torn]); [Scan] and [Read] agree
    ([Scan_agrees]).  Of the store in memory: [store_run_ok] (what every run
    keeps), [SweepBlobs_keeps], [lockOrigin_finds], [OriginDispatches_walk].  Of
    refs: [updated_table], [UpdateRef_cas].  Of calls that race for a name:
    [SessionFor_agree], of the calls that return a session, and
    [SessionFor_returns], whose bound counts the moves of other writers.  Of
    followers: a patient caller is told each entry once and in order
    ([Follow_in_order]), a cursor resumes where it was given
    ([memoryStart_resumes]), no change is slept through ([Hub_wakes]), the hub does
    not panic and forgets no follower ([Hub_never_panics]), and the waits are
    bounded ([Poll_backs_off]).

    ** Conventions

    A Go [(value, error)] is a [result]; the error is its sentinel, or
    [ErrOther] for one made in place.  A Go [int] that the code never lets wrap
    is a [Z] or, for a length or an index, a [nat].  A map is a [gmap]; where
    the source ranges over a map and the order can be told, the order is an
    argument ([store_List]).  The operations of a session are modelled without
    their locks, each holding its mutex throughout, and so are those of the
    store in memory, but where it lets its lock go between a fork's pick and
    its use: there the store at each is an argument ([lockOrigin]).  The clock
    and the ids a header is filled with are arguments.  Recursion up a path has
    the number of entries plus one as fuel, which [wf_chain] shows is enough;
    the scanners of a line have its length, which [skipString_spec] and
    [skipValue_spec] show is; [OriginDispatches] has one turn more than its
    bound, and never runs out ([OriginDispatches_walk]).

    ** Parameters

    The payload types of the openresponses package ([OpenResponses],
    [ItemContent]), SHA-256 ([SHA256], of which only the form of a digest is
    assumed), decoded names and triggers ([NameDecoding], [TriggerEncoding]).
    The line encoder of [codec.go] and [normaliseEntry], which walks the
    strings of an entry by reflection ([EntryCodec]), of which the one law asked is that normalising a body
    leaves the parent alone ([EntryCodecLaws]).  The decoder of a line, with the
    remapping a migration makes ([LineCodec]), of which [CodecLines.v] asks that
    a line it decodes is JSON and that the canonical bytes, the parent and the
    parents it reports are those of the line ([LineCodecLaws]); the encoding of a
    header ([HeaderJSON]); two members a store reads as typed values
    ([StoreCodec]); a struct by its tags ([StructJSON], [StructLaws]).  The canonicaliser and the JSON
    functions hashing uses ([Canonicaliser], [JSONTools]) are arguments of
    [Hash.v], given by the definitions of [Jcs.v], [Ijson.v] and [Json.v] in
    [Marshal.v].

    ** Not modelled

    JSON decoding and encoding of entries and headers; [repairStrings] and
    [normaliseEntry] ([normalise.go]), which visit an entry by reflection; the errors of the reader
    and writer under a file; [Settings.Request] and the request hash; rewriting and
    remapping of sessions ([rewrite.go], [remap.go]); the loop
    that follows a session in files or a database ([internal/follow]); [Original] and [Redactions]
    ([redactedstore.go]); [ContinueRef] ([refs.go]); the stores [cas],
    [sqlite], [jsonl] and [remote], the exporters, telemetry and the command,
    which are files, locks, SQL and HTTP around the core. *)
From Stdlib Require Export ZArith Lia Ascii String ssreflect.
From stdpp Require Export base option strings gmap sets list.

#[global] Open Scope general_if_scope.
#[global] Set SsrOldRewriteGoalsOrder.

(** Scope of the development's own notations. *)
Declare Scope session_scope.
Delimit Scope session_scope with session.

(** ** Results: Go's [(value, error)] pairs *)

(** The sentinel errors of the package; [ErrOther] stands for an error made
    in place, with [errors.New] or [fmt.Errorf] and no sentinel. *)
Inductive error :=
  | ErrNoEntry | ErrBadConvergence | ErrBaseRule | ErrBadID | ErrReservedMember
  | ErrNoRaise | ErrUnsupportedFormat | ErrRedactedFrom | ErrSuperseded
  | ErrCalleeLink | ErrSpawnLink | ErrSpawnIDRepeated | ErrOmitOverlap
  | ErrBadCopiedFrom | ErrResultMismatch | ErrCallIDEmpty | ErrCallIDRepeated
  | ErrCopiedCall | ErrCallReturned | ErrCallAnswered | ErrCallRejected
  | ErrBadWithdrawal | ErrRejectDispatched | ErrCallCompleted
  | ErrAnswerNotDispatched | ErrBadResult | ErrBadTarget | ErrRecordMissing
  | ErrReasonMismatch | ErrSourceMismatch | ErrBadFromLink | ErrDrainMismatch
  | ErrHeadMoved | ErrHeadTarget | ErrMediaDiffers | ErrUnresolvedMigration
  | ErrLinkMismatch | ErrCopyMismatch | ErrNotIJSON | ErrHashMismatch
  | ErrNoHash | ErrOmitDivergence | ErrBadNormalisation
  | ErrNoSession | ErrSessionExists | ErrNotRedacted | ErrSyntheticMarker
  | ErrNoRef | ErrRefMoved | ErrRefName | ErrNoBlob | ErrBadMediaType | ErrOriginChain
  | ErrBlobMismatch | ErrNoBlobWriter | ErrNotExist | ErrScanMigrated
  | ErrOther.

#[export] Instance error_eq_dec : EqDecision error.
Proof. solve_decision. Defined.

Inductive result (A : Type) :=
  | Ok (a : A)
  | Err (e : error).
Arguments Ok {A} a.
Arguments Err {A} e.

#[export] Instance result_eq_dec `{EqDecision A} : EqDecision (result A).
Proof. solve_decision. Defined.

Definition rbind {A B} (r : result A) (f : A -> result B) : result B :=
  match r with Ok a => f a | Err e => Err e end.

Definition is_ok {A} (r : result A) : bool :=
  match r with Ok _ => true | Err _ => false end.

(** [if err != nil { return err }]. *)
Notation "'let!' x ':=' r 'in' k" := (rbind r (fun x => k))
  (at level 10, x pattern, r at level 100, k at level 200) : session_scope.
Notation "r ';!' k" := (rbind r (fun _ => k))
  (at level 199, right associativity) : session_scope.

(** [if bad { return err }]. *)
Definition refuse_if (bad : bool) (e : error) : result unit :=
  if bad then Err e else Ok tt.

Lemma rbind_Ok {A B} (r : result A) (f : A -> result B) b :
  rbind r f = Ok b <-> exists a, r = Ok a /\ f a = Ok b.
Proof. destruct r; simpl; naive_solver. Qed.

Lemma refuse_if_Ok b e u : refuse_if b e = Ok u <-> b = false.
Proof. by destruct b, u. Qed.

(** Split every bind and guard that ended in [Ok]. *)
Ltac inv_ok :=
  repeat match goal with
  | H : rbind _ _ = Ok _ |- _ =>
      let a := fresh "a" in apply rbind_Ok in H as (a & ? & H)
  | H : refuse_if _ _ = Ok _ |- _ => apply refuse_if_Ok in H
  | H : Ok _ = Ok _ |- _ => injection H as H; try subst
  | H : Err _ = Ok _ |- _ => discriminate H
  | a : unit |- _ => destruct a
  end.

(** Turn boolean tests in the hypotheses into the propositions they decide. *)
Ltac bool_prop :=
  repeat match goal with
  | H : @bool_decide _ _ = true |- _ => apply bool_decide_eq_true in H
  | H : @bool_decide _ _ = false |- _ => apply bool_decide_eq_false in H
  | H : andb _ _ = true |- _ => apply andb_true_iff in H as [? ?]
  | H : orb _ _ = false |- _ => apply orb_false_iff in H as [? ?]
  | H : andb _ _ = false |- _ => apply andb_false_iff in H as [?|?]
  | H : orb _ _ = true |- _ => apply orb_true_iff in H as [?|?]
  | H : negb _ = true |- _ => apply negb_true_iff in H
  | H : negb _ = false |- _ => apply negb_false_iff in H
  | H : ~ ~ ?P |- _ => apply (dec_stable (P := P)) in H
  end.

(** Replace the comparison [b] of integers by the value [v] it has. *)
Ltac decide_bool b v :=
  replace b with v;
    [|symmetry; first [apply Z.ltb_lt|apply Z.ltb_ge|apply Z.leb_le|apply Z.leb_gt|apply Z.eqb_eq|apply Z.eqb_neq]; lia].

(** ** Strings *)

(** Go's [<] on strings: bytes, lexicographically. *)
Definition str_ltb (a b : string) : bool :=
  match String.compare a b with Lt => true | _ => false end.

(** [slices.Sort] of strings: the order is total, so any sort gives its result. *)
Fixpoint insert_string (x : string) (l : list string) : list string :=
  match l with
  | [] => [x]
  | y :: l' => if str_ltb x y then x :: y :: l' else y :: insert_string x l'
  end.
Definition sort_strings (l : list string) : list string :=
  foldl (fun acc x => insert_string x acc) [] l.

Lemma insert_string_perm x l : insert_string x l ≡ₚ x :: l.
Proof.
  induction l as [|y l IH]; [done|]. simpl. destruct (str_ltb x y); [done|].
  by rewrite IH Permutation_swap.
Qed.

Lemma sort_strings_perm l : sort_strings l ≡ₚ l.
Proof.
  unfold sort_strings. induction l as [|x l IH] using rev_ind; [done|].
  rewrite foldl_app /= insert_string_perm IH. by rewrite Permutation_app_comm.
Qed.

(** ** Lists *)

(** Iterate [f] over [l] with the running index, as [for i, e := range l]. *)
Fixpoint foldl_idx {A B} (f : B -> nat -> A -> B) (i : nat) (acc : B) (l : list A) : B :=
  match l with
  | [] => acc
  | x :: l => foldl_idx f (S i) (f acc i x) l
  end.

Lemma foldl_idx_app {A B} (f : B -> nat -> A -> B) i acc l k :
  foldl_idx f i acc (l ++ k) = foldl_idx f (i + length l) (foldl_idx f i acc l) k.
Proof.
  revert i acc; induction l as [|x l IH]; intros i acc; simpl.
  - by rewrite Nat.add_0_r.
  - by rewrite IH Nat.add_succ_r.
Qed.

Lemma foldl_idx_snoc {A B} (f : B -> nat -> A -> B) i acc l x :
  foldl_idx f i acc (l ++ [x]) = f (foldl_idx f i acc l) (i + length l) x.
Proof. by rewrite foldl_idx_app. Qed.

Lemma foldl_idx_ext {A B} (f g : B -> nat -> A -> B) i acc l :
  (forall b j x, l !! j = Some x -> f b (i + j) x = g b (i + j) x) ->
  foldl_idx f i acc l = foldl_idx g i acc l.
Proof.
  revert i acc; induction l as [|x l IH]; intros i acc H; [done|]. simpl.
  rewrite -(Nat.add_0_r i) (H acc 0 x) // Nat.add_0_r. apply IH.
  intros b j y Hy. specialize (H b (S j) y Hy). by rewrite Nat.add_succ_r in H.
Qed.

Lemma foldl_ext_in {A B} (f g : B -> A -> B) acc l :
  (forall b x, x ∈ l -> f b x = g b x) -> foldl f acc l = foldl g acc l.
Proof.
  revert acc; induction l as [|x l IH]; intros acc H; [done|]. simpl.
  rewrite (H acc x); [|set_solver]. apply IH. set_solver.
Qed.

(** The last element, as [l[len(l)-1]] of a non-empty slice. *)
Lemma last_snoc_inv {A} (l : list A) x : last l = Some x -> exists l', l = l' ++ [x].
Proof.
  destruct l as [|l' y] using rev_ind; [done|]. rewrite last_snoc. intros [= ->]. eauto.
Qed.

Lemma filter_none {A} (P : A -> Prop) `{!forall x, Decision (P x)} (l : list A) :
  (forall x, x ∈ l -> ~ P x) -> filter P l = [].
Proof.
  induction l as [|x l IH]; intros Hno; [done|].
  rewrite filter_cons_False; [|apply Hno; set_solver]. apply IH. set_solver.
Qed.

Lemma drop_in {A} n (l : list A) x : x ∈ drop n l -> x ∈ l.
Proof. intros H. rewrite -(take_drop n l). set_solver. Qed.

Lemma drop_snoc_le {A} n (l : list A) x :
  drop n (l ++ [x]) = if decide (n <= length l) then drop n l ++ [x] else [].
Proof.
  destruct (decide (n <= length l)); [by rewrite drop_app_le|].
  apply drop_ge. rewrite length_app /=. lia.
Qed.

Lemma filter_every {A} (P : A -> Prop) `{!forall x, Decision (P x)} (l : list A) :
  (forall x, x ∈ l -> P x) -> filter P l = l.
Proof.
  induction l as [|x l IH]; intros Hall; [done|].
  rewrite filter_cons_True; [|apply Hall; set_solver]. f_equal. apply IH. set_solver.
Qed.

Lemma NoDup_fmap_filter {A B} (f : A -> B) (P : A -> Prop) `{!forall x, Decision (P x)} (l : list A) :
  NoDup (f <$> l) -> NoDup (f <$> filter P l).
Proof.
  induction l as [|x l IH]; [done|]. rewrite fmap_cons NoDup_cons. intros [Hn Hnd].
  rewrite filter_cons. destruct (decide (P x)); [|auto]. rewrite fmap_cons NoDup_cons. split; [|auto].
  intros Hin. apply Hn. apply list_elem_of_fmap in Hin as (y & -> & Hy).
  apply list_elem_of_filter in Hy as [_ Hy]. by apply list_elem_of_fmap_2.
Qed.
