(* ===== verification/Entry.v ===== *)
(** * Entries: the data model of a session file

    The line shapes of [entry.go], [lifecycle.go] and [context.go]: the
    envelope, the concrete entry types and the settings a compaction's
    checkpoint carries.  The payload types of the [openresponses] package,
    which is not under src/, are the parameters of [OpenResponses]. *)
From S2P Require Import Prelude.

(** A JSON value kept as its source text, [json.RawMessage]. *)
Notation RawMessage := string (only parsing).

(** ** The openresponses package *)

(** What a Go type switch on an [openresponses.Item] finds: one case per
    concrete type the library looks for, with the members it reads. *)
Inductive ItemCase :=
  | FunctionCall (CallID Arguments : string)
  | FunctionCallOutput (CallID : string)
  | ItemReference
  | ReasoningItem
  | Message
  | OtherItem.

#[export] Instance ItemCase_eq_dec : EqDecision ItemCase.
Proof. solve_decision. Defined.

(** What a type switch on an [openresponses.Tool] finds: a function tool has
    its name, an extension tool the bytes it was read from. *)
Inductive ToolCase :=
  | FunctionTool (Name : string)
  | UnknownTool (Raw : RawMessage)
  | OtherTool.

Class OpenResponses := {
  Item : Type;
  itemCase : Item -> ItemCase;
  (* json.Marshal of an item *)
  marshalItem : Item -> option RawMessage;
  Tool : Type;
  toolCase : Tool -> ToolCase;
  ReasoningConfig : Type;
  ReasoningConfig_zero : ReasoningConfig;
  TextConfig : Type;
  TextConfig_zero : TextConfig;
  Usage : Type;
  IncompleteDetails : Type;
  ErrorPayload : Type
}.

(** ** Constants *)

Definition TypeItem := "item".
Definition TypeResponse := "response".
Definition TypeConfig := "config".
Definition TypeCompaction := "compaction".
Definition TypeBranchSummary := "branch_summary".
Definition TypeLabel := "label".
Definition TypeInfo := "info".
Definition TypeEnv := "env".
Definition TypeOutcome := "outcome".
Definition TypeLink := "link".
Definition TypeCustom := "custom".
Definition TypeRun := "run".
Definition TypeDispatch := "dispatch".
Definition TypeDecision := "decision".
Definition TypeQueued := "queued".
Definition TypeResult := "result".

Definition RelSubsession := "subsession".
Definition RelForkOf := "fork_of".
Definition RelContinuedIn := "continued_in".
Definition RelJudgedBy := "judged_by".
Definition RelPeer := "peer".
Definition CancelSent := "sent".

Definition LeafLabel := "leaf".

Definition ModeSteer := "steer".
Definition ModeFollowUp := "followup".
Definition RunStart := "start".
Definition RunEnd := "end".
Definition SourceInput := "input".
Definition SourceResume := "resume".
Definition ReasonDone := "done".
Definition ReasonStopped := "stopped".
Definition ReasonInterrupted := "interrupted".
Definition ReasonInputRequired := "input_required".
Definition ReasonAborted := "aborted".
Definition ReasonError := "error".
Definition VerdictProceed := "proceed".
Definition VerdictReject := "reject".
Definition VerdictHold := "hold".
Definition VerdictAnswer := "answer".

Definition OmitOtherModels := "other_models".
Definition OmitItems := "items".
Definition OmitOutputsReason := "outputs".
Definition OmitImagesReason := "images".

Definition LayerProduct := "product".
Definition LayerAgentsMD := "agentsmd".
Definition LayerAgentSkill := "agentskill".
Definition LayerAgentMemory := "agentmemory".

Definition TrustUntrusted := "untrusted".
Definition TrustPrivate := "private".

(** ** The envelope *)

(** [time.Time]: the instant, in nanoseconds since Go's zero time, and the
    offset of its location from UTC in seconds. *)
Record Time := mkTime { t_nanos : Z; t_zone : Z }.

#[export] Instance Time_eq_dec : EqDecision Time.
Proof. solve_decision. Defined.

(** [t.IsZero()] asks of the instant alone; [t.UTC()] changes the location. *)
Definition IsZero_time (t : Time) : bool := bool_decide (t_nanos t = 0%Z).
Definition UTC (t : Time) : Time := mkTime (t_nanos t) 0.

Record EntryRef := mkEntryRef {
  ref_Session : string;
  ref_Entry : string;
  ref_extra : string
}.

#[export] Instance EntryRef_eq_dec : EqDecision EntryRef.
Proof. solve_decision. Defined.

Record Normalisation := mkNormalisation {
  norm_At : string;
  norm_Was : string;
  norm_Raw : string
}.

Record Span := mkSpan { span_From : Z; span_To : Z }.

(** [EntryBase], without the two encoder caches [kept] and [line], which only
    the encoder reads. *)
Record EntryBase := mkEntryBase {
  ID : string;
  Parent : string;
  Parents : list EntryRef;
  Timestamp : Time;
  LegacyID : string;
  Normalised : list Normalisation;
  redacted : list Span;
  isRedacted : bool;
  redactedRaw : option RawMessage;
  gated : bool;
  Unknown : gmap string RawMessage;
  content : string;
  tsRaw : string
}.

(** An envelope with every member unset, as a composite literal leaves it. *)
Definition zero_base : EntryBase :=
  mkEntryBase "" "" [] (mkTime 0 0) "" [] [] false None false ∅ "" "".

(** The envelope members [Session.Append] fills in or puts back. *)
Definition set_envelope (id parent : string) (parents : list EntryRef) (ts : Time)
    (b : EntryBase) : EntryBase :=
  mkEntryBase id parent parents ts (LegacyID b) (Normalised b) (redacted b)
    (isRedacted b) (redactedRaw b) (gated b) (Unknown b) (content b) (tsRaw b).

(** ** Members entries share *)

Record LayerRef := mkLayerRef { layer_ID : string; layer_Source : string }.

#[export] Instance LayerRef_eq_dec : EqDecision LayerRef.
Proof. solve_decision. Defined.

Record Trust := mkTrust { Reads : list string }.

#[export] Instance Trust_eq_dec : EqDecision Trust.
Proof. solve_decision. Defined.

Record CopiedFrom := mkCopiedFrom { cf_Session : string; cf_Entry : string }.

Record Trigger := mkTrigger {
  tr_Kind : string;
  tr_Ref : string;
  tr_Source : string;
  tr_Unknown : gmap string RawMessage
}.

(** An instruction part, on a delta or in force. *)
Record InstructionPart := mkInstructionPart {
  ip_ID : string;
  ip_Text : string;
  ip_Source : string;
  ip_Trust : option Trust;
  ip_Hash : string;
  ip_Keep : Z;
  ip_unresolved : bool
}.

#[export] Instance InstructionPart_eq_dec : EqDecision InstructionPart.
Proof. solve_decision. Defined.

Record OmittedPart := mkOmittedPart {
  op_ID : string;
  op_Reason : string;
  op_Size : Z;
  op_Source : string;
  op_Keep : Z;
  op_Of : string
}.

#[export] Instance OmittedPart_eq_dec : EqDecision OmittedPart.
Proof. solve_decision. Defined.

Record OmitOutputGroup := mkOmitOutputGroup { grp_Text : string; grp_Items : list string }.

#[export] Instance OmitOutputGroup_eq_dec : EqDecision OmitOutputGroup.
Proof. solve_decision. Defined.

Record OmitOutputs := mkOmitOutputs {
  oo_Text : string;
  oo_Items : list string;
  oo_Groups : list OmitOutputGroup;
  oo_textSet : bool
}.

#[export] Instance OmitOutputs_eq_dec : EqDecision OmitOutputs.
Proof. solve_decision. Defined.

Record OmitImages := mkOmitImages {
  oi_Keep : Z;
  oi_Before : string;
  oi_Placeholder : string
}.

#[export] Instance OmitImages_eq_dec : EqDecision OmitImages.
Proof. solve_decision. Defined.

Record Omit := mkOmit {
  om_Reasoning : string;
  om_Items : list string;
  om_Outputs : option OmitOutputs;
  om_Images : option OmitImages;
  om_undefined : bool
}.

#[export] Instance Omit_eq_dec : EqDecision Omit.
Proof. solve_decision. Defined.

(** [Omit{}]. *)
Definition Omit_zero : Omit := mkOmit "" [] None None false.

Record VCS := mkVCS {
  vcs_System : string;
  vcs_Revision : string;
  vcs_Dirty : bool;
  vcs_Unknown : gmap string RawMessage
}.

Record Workspace := mkWorkspace {
  ws_Kind : string;
  ws_Ref : string;
  ws_Host : string;
  ws_Instance : string;
  ws_Unknown : gmap string RawMessage
}.

Record FileHashes := mkFileHashes {
  fh_Read : gmap string string;
  fh_Written : gmap string string
}.

(** ** Trust *)

(** [UnionTrust] ([entry.go]): the union of the labels, sorted; nil when every
    trust is. *)
Definition union_labels (l : list string) (reads : list string) : list string :=
  foldl (fun l r => if decide (r ∈ l) then l else l ++ [r]) l reads.

Definition UnionTrust (ts : list (option Trust)) : option Trust :=
  (fun l => mkTrust (sort_strings l)) <$>
  foldl (fun out t =>
           match t with
           | None => out
           | Some t => Some (union_labels (default [] out) (Reads t))
           end) None ts.

(** [sameTrust]: the same labels, whatever their order and repeats. *)
Definition sameTrust (a b : option Trust) : bool :=
  match a, b with
  | Some _, Some _ => bool_decide (UnionTrust [a] = UnionTrust [b])
  | None, None => true
  | _, _ => false
  end.

(** [holdsTrust]: the copy holds every label of its source's. *)
Definition holdsTrust (copy source : option Trust) : bool :=
  match source with
  | None => true
  | Some t => match copy with
              | None => false
              | Some c => forallb (fun r => bool_decide (r ∈ Reads c)) (Reads t)
              end
  end.

(** The parts that left force, one node per config entry that moved any,
    newest first ([partHistory]), and the omitted lists config entries put in
    force, newest first ([omittedHistory]). *)
Definition partHistory : Type := list (gmap string (list InstructionPart)).
Definition omittedHistory : Type := list (string * list OmittedPart).

Section WithPayload.
Context {OR : OpenResponses}.

Record Settings := mkSettings {
  st_Model : string;
  st_Instructions : string;
  st_Reasoning : ReasoningConfig;
  st_Text : TextConfig;
  st_InstructionsParts : list InstructionPart;
  st_InstructionsOmitted : list OmittedPart;
  st_Omit : Omit;
  st_Tools : list Tool;
  st_Extra : gmap string RawMessage;
  st_left : partHistory;
  st_lists : omittedHistory
}.

(** [Settings{}]. *)
Definition Settings_zero : Settings :=
  mkSettings "" "" ReasoningConfig_zero TextConfig_zero [] [] Omit_zero [] ∅ [] [].

(** ** The concrete entry types *)

(** A nil pointer or interface value is [None]. *)
Record ItemEntry := mkItemEntry {
  ie_Base : EntryBase;
  ie_Item : option Item;
  ie_ResponseID : string;
  ie_Visible : option bool;
  ie_Source : option Trigger;
  ie_QueuedFrom : string;
  ie_Failed : bool;
  ie_FromLink : string;
  ie_CopiedFrom : option CopiedFrom;
  ie_Trust : option Trust;
  ie_InstructionsPart : option LayerRef;
  ie_InstructionsLayers : option (list LayerRef)
}.

Record ResponseEntry := mkResponseEntry {
  re_Base : EntryBase;
  re_ResponseID : string;
  re_Model : string;
  re_Status : string;
  re_Usage : option Usage;
  re_Incomplete : option IncompleteDetails;
  re_Error : option ErrorPayload;
  re_RequestHash : string;
  re_LatencyMS : Z;
  re_Attempts : Z
}.

(** [InstructionsOmitted] is nil when the entry does not carry the member, and
    an empty slice when it clears the list. *)
Record ConfigEntry := mkConfigEntry {
  ce_Base : EntryBase;
  ce_Model : string;
  ce_Instructions : option string;
  ce_Reasoning : option ReasoningConfig;
  ce_Text : option TextConfig;
  ce_InstructionsParts : list InstructionPart;
  ce_InstructionsOmitted : option (list OmittedPart);
  ce_ToolsAdded : list Tool;
  ce_ToolsRemoved : list string;
  ce_Extra : gmap string RawMessage;
  ce_Replace : bool;
  ce_Omit : option Omit
}.

Record CompactionEntry := mkCompactionEntry {
  co_Base : EntryBase;
  co_FirstKept : string;
  co_Summary : option Item;
  co_Pinned : list Item;
  co_Config : Settings;
  co_TokensBefore : Z;
  co_Usage : option Usage;
  co_Trust : option Trust;
  co_Requested : bool;
  co_Instructions : string
}.

Record BranchSummaryEntry := mkBranchSummaryEntry {
  bs_Base : EntryBase;
  bs_From : string;
  bs_Summary : option Item;
  bs_Usage : option Usage;
  bs_Trust : option Trust
}.

Record LabelEntry := mkLabelEntry {
  le_Base : EntryBase;
  le_Target : string;
  le_Label : option string
}.

Record InfoEntry := mkInfoEntry { inf_Base : EntryBase; inf_Name : string }.

Record EnvEntry := mkEnvEntry {
  env_Base : EntryBase;
  env_CWD : string;
  env_VCS : option VCS;
  env_Files : option FileHashes;
  env_Tools : gmap string string;
  env_Workspace : option Workspace
}.

Record OutcomeEntry := mkOutcomeEntry {
  oc_Base : EntryBase;
  oc_Kind : string;
  oc_Target : string;
  oc_Score : option RawMessage;
  oc_Pass : option bool;
  oc_Label : string;
  oc_Details : RawMessage
}.

Record LinkEntry := mkLinkEntry {
  ln_Base : EntryBase;
  ln_Rel : string;
  ln_Session : string;
  ln_CallID : string;
  ln_SpawnID : string;
  ln_Target : string;
  ln_URL : string;
  ln_Task : string;
  ln_Context : string;
  ln_Cancel : string
}.

Record CustomEntry := mkCustomEntry {
  cu_Base : EntryBase;
  cu_NS : string;
  cu_Data : RawMessage;
  cu_CallID : string
}.

Record RunEntry := mkRunEntry {
  run_Base : EntryBase;
  run_RunID : string;
  run_Phase : string;
  run_Source : string;
  run_Reason : string;
  run_Ref : string;
  run_Trigger : option Trigger;
  run_Pending : list string
}.

Record DispatchEntry := mkDispatchEntry {
  di_Base : EntryBase;
  di_CallID : string;
  di_Target : string;
  di_IdempotencyKey : string
}.

Record DecisionEntry := mkDecisionEntry {
  dc_Base : EntryBase;
  dc_CallID : string;
  dc_Target : string;
  dc_Verdict : string;
  dc_By : string;
  dc_Reason : string;
  dc_Args : RawMessage;
  dc_Withdrawn : bool
}.

Record ResultEntry := mkResultEntry {
  rs_Base : EntryBase;
  rs_CallID : string;
  rs_Target : string;
  rs_Item : option Item;
  rs_Failed : bool;
  rs_Trust : option Trust
}.

Record QueuedEntry := mkQueuedEntry {
  qu_Base : EntryBase;
  qu_Item : option Item;
  qu_Mode : string;
  qu_Trigger : option Trigger;
  qu_Ref : string;
  qu_Deliver : bool;
  qu_Visible : option bool;
  qu_Trust : option Trust;
  qu_InstructionsPart : option LayerRef;
  qu_InstructionsLayers : option (list LayerRef)
}.

Record UnknownEntry := mkUnknownEntry {
  un_Base : EntryBase;
  un_Type : string;
  un_Raw : RawMessage
}.

Inductive Entry :=
  | EItem (e : ItemEntry)
  | EResponse (e : ResponseEntry)
  | EConfig (e : ConfigEntry)
  | ECompaction (e : CompactionEntry)
  | EBranchSummary (e : BranchSummaryEntry)
  | ELabel (e : LabelEntry)
  | EInfo (e : InfoEntry)
  | EEnv (e : EnvEntry)
  | EOutcome (e : OutcomeEntry)
  | ELink (e : LinkEntry)
  | ECustom (e : CustomEntry)
  | ERun (e : RunEntry)
  | EDispatch (e : DispatchEntry)
  | EDecision (e : DecisionEntry)
  | EResult (e : ResultEntry)
  | EQueued (e : QueuedEntry)
  | EUnknown (e : UnknownEntry).

(** ** The [Entry] interface *)

(** [e.Base()]. *)
Definition Base (e : Entry) : EntryBase :=
  match e with
  | EItem v => ie_Base v | EResponse v => re_Base v | EConfig v => ce_Base v
  | ECompaction v => co_Base v | EBranchSummary v => bs_Base v
  | ELabel v => le_Base v | EInfo v => inf_Base v | EEnv v => env_Base v
  | EOutcome v => oc_Base v | ELink v => ln_Base v | ECustom v => cu_Base v
  | ERun v => run_Base v | EDispatch v => di_Base v | EDecision v => dc_Base v
  | EResult v => rs_Base v | EQueued v => qu_Base v | EUnknown v => un_Base v
  end.

(** [e.EntryType()]. *)
Definition EntryType (e : Entry) : string :=
  match e with
  | EItem _ => TypeItem | EResponse _ => TypeResponse | EConfig _ => TypeConfig
  | ECompaction _ => TypeCompaction | EBranchSummary _ => TypeBranchSummary
  | ELabel _ => TypeLabel | EInfo _ => TypeInfo | EEnv _ => TypeEnv
  | EOutcome _ => TypeOutcome | ELink _ => TypeLink | ECustom _ => TypeCustom
  | ERun _ => TypeRun | EDispatch _ => TypeDispatch | EDecision _ => TypeDecision
  | EResult _ => TypeResult | EQueued _ => TypeQueued | EUnknown v => un_Type v
  end.

(** Writing through the pointer [e.Base()] returns. *)
Definition set_Base (f : EntryBase -> EntryBase) (e : Entry) : Entry :=
  match e with
  | EItem (mkItemEntry b a1 a2 a3 a4 a5 a6 a7 a8 a9 a10 a11) =>
      EItem (mkItemEntry (f b) a1 a2 a3 a4 a5 a6 a7 a8 a9 a10 a11)
  | EResponse (mkResponseEntry b a1 a2 a3 a4 a5 a6 a7 a8 a9) =>
      EResponse (mkResponseEntry (f b) a1 a2 a3 a4 a5 a6 a7 a8 a9)
  | EConfig (mkConfigEntry b a1 a2 a3 a4 a5 a6 a7 a8 a9 a10 a11) =>
      EConfig (mkConfigEntry (f b) a1 a2 a3 a4 a5 a6 a7 a8 a9 a10 a11)
  | ECompaction (mkCompactionEntry b a1 a2 a3 a4 a5 a6 a7 a8 a9) =>
      ECompaction (mkCompactionEntry (f b) a1 a2 a3 a4 a5 a6 a7 a8 a9)
  | EBranchSummary (mkBranchSummaryEntry b a1 a2 a3 a4) =>
      EBranchSummary (mkBranchSummaryEntry (f b) a1 a2 a3 a4)
  | ELabel (mkLabelEntry b a1 a2) => ELabel (mkLabelEntry (f b) a1 a2)
  | EInfo (mkInfoEntry b a1) => EInfo (mkInfoEntry (f b) a1)
  | EEnv (mkEnvEntry b a1 a2 a3 a4 a5) => EEnv (mkEnvEntry (f b) a1 a2 a3 a4 a5)
  | EOutcome (mkOutcomeEntry b a1 a2 a3 a4 a5 a6) =>
      EOutcome (mkOutcomeEntry (f b) a1 a2 a3 a4 a5 a6)
  | ELink (mkLinkEntry b a1 a2 a3 a4 a5 a6 a7 a8 a9) =>
      ELink (mkLinkEntry (f b) a1 a2 a3 a4 a5 a6 a7 a8 a9)
  | ECustom (mkCustomEntry b a1 a2 a3) => ECustom (mkCustomEntry (f b) a1 a2 a3)
  | ERun (mkRunEntry b a1 a2 a3 a4 a5 a6 a7) =>
      ERun (mkRunEntry (f b) a1 a2 a3 a4 a5 a6 a7)
  | EDispatch (mkDispatchEntry b a1 a2 a3) => EDispatch (mkDispatchEntry (f b) a1 a2 a3)
  | EDecision (mkDecisionEntry b a1 a2 a3 a4 a5 a6 a7) =>
      EDecision (mkDecisionEntry (f b) a1 a2 a3 a4 a5 a6 a7)
  | EResult (mkResultEntry b a1 a2 a3 a4 a5) =>
      EResult (mkResultEntry (f b) a1 a2 a3 a4 a5)
  | EQueued (mkQueuedEntry b a1 a2 a3 a4 a5 a6 a7 a8 a9) =>
      EQueued (mkQueuedEntry (f b) a1 a2 a3 a4 a5 a6 a7 a8 a9)
  | EUnknown (mkUnknownEntry b a1 a2) => EUnknown (mkUnknownEntry (f b) a1 a2)
  end.

(** [e.Base().ID] and [e.Base().Parent], which most of the library asks for. *)
Definition eid (e : Entry) : string := ID (Base e).
Definition eparent (e : Entry) : string := Parent (Base e).

(** [l.Label != nil && *l.Label == LeafLabel] for a label entry. *)
Definition is_leaf_label (l : LabelEntry) : bool :=
  match le_Label l with Some s => bool_decide (s = LeafLabel) | None => false end.

(** The same for an entry, after the type assertion to a label entry. *)
Definition entry_is_leaf_label (e : Entry) : bool :=
  match e with ELabel l => is_leaf_label l | _ => false end.

(** A subsession or peer link: one that names a callee. *)
Definition callee (e : LinkEntry) : bool :=
  bool_decide (ln_Rel e = RelSubsession) || bool_decide (ln_Rel e = RelPeer).

Definition IsStart (e : RunEntry) : bool := bool_decide (run_Phase e = RunStart).
Definition IsEnd (e : RunEntry) : bool := bool_decide (run_Phase e = RunEnd).

(** The type switch on the item of an item entry, nil matching no case. *)
Definition item_case (i : option Item) : option ItemCase := itemCase <$> i.

(** The call ID of the function call, or function call output, an entry holds. *)
Definition function_call (e : ItemEntry) : option (string * string) :=
  match item_case (ie_Item e) with
  | Some (FunctionCall c a) => Some (c, a)
  | _ => None
  end.

Definition function_call_output (e : ItemEntry) : option string :=
  match item_case (ie_Item e) with Some (FunctionCallOutput c) => Some c | _ => None end.

Lemma Base_set_Base f e : Base (set_Base f e) = f (Base e).
Proof. by destruct e as [[]|[]|[]|[]|[]|[]|[]|[]|[]|[]|[]|[]|[]|[]|[]|[]|[]]. Qed.

Lemma EntryType_set_Base f e : EntryType (set_Base f e) = EntryType e.
Proof. by destruct e as [[]|[]|[]|[]|[]|[]|[]|[]|[]|[]|[]|[]|[]|[]|[]|[]|[]]. Qed.

Lemma entry_is_leaf_label_spec e :
  entry_is_leaf_label e = true <-> exists l, e = ELabel l /\ le_Label l = Some LeafLabel.
Proof.
  destruct e as [| | | | |l| | | | | | | | | | |]; simpl; try naive_solver.
  unfold is_leaf_label. destruct (le_Label l) eqn:Hl; [|naive_solver].
  rewrite bool_decide_eq_true. naive_solver.
Qed.

End WithPayload.

#[export] Hint Rewrite @Base_set_Base @EntryType_set_Base : entry.
