(* ===== verification/Header.v ===== *)
(** * Headers: the first line of a session file ([header.go])

    The header record, the format string and its versions, the checks
    [Validate] makes and the rule that a header holding [redacted_from] under
    a minor before 0.13 is never raised to one that defines the member. *)
From S2P Require Import Prelude Entry.
Open Scope session_scope.

Record Harness := mkHarness { hn_Name : string; hn_Version : string }.

Record RedactedFrom := mkRedactedFrom {
  rf_Session : string;
  rf_Profile : string;
  rf_Extra : gmap string RawMessage
}.

Record Header := mkHeader {
  h_Format : string;
  h_ID : string;
  h_CreatedAt : Time;
  h_Payload : string;
  h_Harness : option Harness;
  h_Records : list string;
  h_CWD : string;
  h_ParentSession : string;
  h_SpawnedBy : string;
  h_Base : string;
  h_Media : string;
  h_Redacted : bool;
  h_RedactedFrom : option RedactedFrom;
  h_Extra : gmap string RawMessage
}.

(** [Header.MarshalJSON] and [UnmarshalJSON]. *)
Class HeaderJSON := {
  MarshalHeader : Header -> result RawMessage;
  UnmarshalHeader : RawMessage -> result Header
}.

(** Assignment to the [Format] field. *)
Definition set_Format (f : string) (h : Header) : Header :=
  mkHeader f (h_ID h) (h_CreatedAt h) (h_Payload h) (h_Harness h) (h_Records h)
    (h_CWD h) (h_ParentSession h) (h_SpawnedBy h) (h_Base h) (h_Media h)
    (h_Redacted h) (h_RedactedFrom h) (h_Extra h).

Definition Format := "agentsession/0.21".
Definition FormatMajor : Z := 0.
Definition FormatMinor : Z := 21.
Definition hashedMinor : Z := 5.
Definition redactedFromMinor : Z := 13.
Definition MediaInline := "inline".
Definition MediaSidecar := "sidecar".

Definition mediaForm (m : string) : string :=
  if decide (m = "") then MediaInline else m.

Definition HasRecord (h : Header) (typ : string) : bool :=
  existsb (fun t => bool_decide (t = typ)) (h_Records h).

Definition AllRecords : list string := [TypeRun; TypeDispatch; TypeDecision].

(** ** The standard library's string functions [ParseFormat] calls *)

(** [strings.Cut(s, sep)] for a separator of one byte. *)
Fixpoint Cut (s : string) (sep : Ascii.ascii) : option (string * string) :=
  match s with
  | EmptyString => None
  | String c s' =>
      if decide (c = sep) then Some (EmptyString, s')
      else match Cut s' sep with
           | Some (before, after) => Some (String c before, after)
           | None => None
           end
  end.

Definition digit (c : Ascii.ascii) : option Z :=
  let n := Z.of_nat (Ascii.nat_of_ascii c) in
  if decide (48 <= n <= 57)%Z then Some (n - 48)%Z else None.

Fixpoint digits (acc : Z) (s : string) : option Z :=
  match s with
  | EmptyString => Some acc
  | String c s' => match digit c with
                   | Some d => digits (10 * acc + d) s'
                   | None => None
                   end
  end.

(** [strconv.Atoi]: an optional sign and at least one decimal digit, the value
    within a 64-bit int; anything else is an error. *)
Definition Atoi (s : string) : option Z :=
  let unsigned (t : string) := if decide (t = "") then None else digits 0 t in
  let v := match s with
           | String "-"%char t => Z.opp <$> unsigned t
           | String "+"%char t => unsigned t
           | _ => unsigned s
           end in
  match v with
  | Some n => if decide (- 2 ^ 63 <= n < 2 ^ 63)%Z then Some n else None
  | None => None
  end.

Definition ParseFormat (format : string) : result (Z * Z) :=
  match Cut format "/" with
  | None => Err ErrUnsupportedFormat
  | Some (name, version) =>
      if decide (name = "agentsession") then
        match Cut version "." with
        | None => Err ErrUnsupportedFormat
        | Some (maj, min) =>
            match Atoi maj with
            | None => Err ErrUnsupportedFormat
            | Some major =>
                match Atoi min with
                | None => Err ErrUnsupportedFormat
                | Some minor => Ok (major, minor)
                end
            end
        end
      else Err ErrUnsupportedFormat
  end.

Definition definesRedactedFrom (format : string) : bool :=
  match ParseFormat format with
  | Ok (major, minor) => bool_decide (major > 0)%Z || bool_decide (minor >= redactedFromMinor)%Z
  | Err _ => false
  end.

(** [strings.HasPrefix(s, p)]. *)
Definition HasPrefix (s p : string) : bool := String.prefix p s.

Definition Validate (h : Header) : result unit :=
  let! (major, minor) := ParseFormat (h_Format h) in
  refuse_if (bool_decide (major <> FormatMajor)) ErrUnsupportedFormat ;!
  refuse_if (bool_decide (major = 0%Z) && bool_decide (minor > FormatMinor)%Z) ErrUnsupportedFormat ;!
  refuse_if (bool_decide (h_ID h = "")) ErrOther ;!
  refuse_if (IsZero_time (h_CreatedAt h)) ErrOther ;!
  refuse_if (bool_decide (h_Payload h = "")) ErrOther ;!
  refuse_if (negb (HasPrefix (h_Payload h) "openresponses/")) ErrOther ;!
  match h_RedactedFrom h with
  | None => Ok tt
  | Some r =>
      refuse_if (negb (h_Redacted h)) ErrRedactedFrom ;!
      refuse_if (bool_decide (rf_Session r = "")) ErrRedactedFrom ;!
      refuse_if (bool_decide (rf_Session r = h_ID h)) ErrRedactedFrom
  end.

Definition lastBeforeRedactedFrom := "agentsession/0.12".

(** ParseFormat's error leaves the minor 0, which is what the blank identifier
    throws away here. *)
Definition minor_of (format : string) : Z :=
  match ParseFormat format with Ok (_, minor) => minor | Err _ => 0 end.

Definition heldFormat (format : string) : string :=
  if decide (minor_of format < hashedMinor)%Z then lastBeforeRedactedFrom else format.

(** The header holds a [redacted_from] member, typed or as written. *)
Definition holds_redacted_from (h : Header) : bool :=
  bool_decide (is_Some (h_Extra h !! "redacted_from")) || bool_decide (is_Some (h_RedactedFrom h)).

Definition header_raiseRefused (h : Header) (format : string) : result unit :=
  if definesRedactedFrom (h_Format h) || negb (definesRedactedFrom format) then Ok tt
  else refuse_if (holds_redacted_from h) ErrNoRaise.

Definition Raise (h : Header) (format : string) : result Header :=
  header_raiseRefused h format ;! Ok (set_Format format h).

Definition migrate (h : Header) : result Header :=
  let! (major, minor) := ParseFormat (h_Format h) in
  refuse_if (bool_decide (major <> FormatMajor)) ErrUnsupportedFormat ;!
  if decide (minor >= FormatMinor)%Z then Ok h
  else match Raise h Format with
       | Ok h' => Ok h'
       | Err _ => Ok (set_Format (heldFormat (h_Format h)) h)
       end.

(** [payload] is the openresponses package's [SpecVersion] behind
    "openresponses/", [id] the fresh UUIDv7 and [now] the clock. *)
Definition fill (payload id : string) (now : Time) (h : Header) : Header :=
  mkHeader
    (if decide (h_Format h = "") then Format else h_Format h)
    (if decide (h_ID h = "") then id else h_ID h)
    (if IsZero_time (h_CreatedAt h) then now else h_CreatedAt h)
    (if decide (h_Payload h = "") then payload else h_Payload h)
    (h_Harness h) (h_Records h) (h_CWD h) (h_ParentSession h) (h_SpawnedBy h)
    (h_Base h) (h_Media h) (h_Redacted h) (h_RedactedFrom h) (h_Extra h).

(** ** Properties *)

Lemma definesRedactedFrom_minor h major minor :
  ParseFormat h = Ok (major, minor) ->
  definesRedactedFrom h = true <-> (major > 0 \/ minor >= 13)%Z.
Proof.
  intros Hp. unfold definesRedactedFrom. rewrite Hp orb_true_iff !bool_decide_eq_true. done.
Qed.

Lemma definesRedactedFrom_Format : definesRedactedFrom Format = true.
Proof. reflexivity. Qed.

(** The format a refused raise leaves never defines [redacted_from]. *)
Lemma heldFormat_undefined f :
  definesRedactedFrom f = false -> definesRedactedFrom (heldFormat f) = false.
Proof. intros H. unfold heldFormat. by destruct (decide _). Qed.

Lemma migrate_cases h h' :
  migrate h = Ok h' ->
  h' = h \/ (h' = set_Format Format h /\ header_raiseRefused h Format = Ok tt) \/
  (h' = set_Format (heldFormat (h_Format h)) h /\ definesRedactedFrom (h_Format h) = false
   /\ holds_redacted_from h = true).
Proof.
  unfold migrate, Raise. intros H. inv_ok. destruct a as [major minor]. inv_ok.
  destruct (decide _); [by inv_ok; left|].
  destruct (header_raiseRefused h Format) as [[]|] eqn:Hr; simpl in H; inv_ok; [by auto|].
  right; right. unfold header_raiseRefused in Hr.
  destruct (definesRedactedFrom (h_Format h)); [done|].
  rewrite definesRedactedFrom_Format /= in Hr.
  by destruct (holds_redacted_from h).
Qed.

Lemma Validate_set_Format f major minor h :
  ParseFormat f = Ok (major, minor) -> major = 0%Z -> (minor <= 21)%Z ->
  Validate h = Ok tt -> Validate (set_Format f h) = Ok tt.
Proof.
  unfold Validate. intros Hf -> Hle H. destruct (ParseFormat (h_Format h)) as [[maj min]|]; [|done].
  cbn [h_Format set_Format h_ID h_CreatedAt h_Payload h_RedactedFrom h_Redacted] in *. rewrite Hf.
  cbn [rbind] in *. inv_ok.
  rewrite (bool_decide_eq_false_2 (0%Z <> FormatMajor)) /=; [|by intros []].
  rewrite (bool_decide_eq_false_2 (minor > FormatMinor)%Z); [|unfold FormatMinor; lia].
  simpl. by rewrite H2 H3 H4 H5.
Qed.

Lemma heldFormat_parses f major minor :
  ParseFormat f = Ok (major, minor) -> major = 0%Z -> (minor < 21)%Z ->
  exists m, ParseFormat (heldFormat f) = Ok (0%Z, m) /\ (m <= 21)%Z.
Proof.
  intros Hf -> Hm. unfold heldFormat, minor_of. rewrite Hf.
  destruct (decide _); [by exists 12%Z|]. eauto with lia.
Qed.

(** A header that validates always migrates, to one that validates: at
    this package's minor, unless it holds a [redacted_from] member a minor
    before 0.13 was free to hold; then its format in memory still defines no
    such member, so the member never gains a meaning it was not written with.
    Nothing but the format changes. *)
Lemma migrate_never_redefines h :
  Validate h = Ok tt ->
  exists h', migrate h = Ok h' /\ Validate h' = Ok tt /\ h' = set_Format (h_Format h') h /\
  (if negb (definesRedactedFrom (h_Format h)) && holds_redacted_from h
   then definesRedactedFrom (h_Format h') = false
   else minor_of (h_Format h') = FormatMinor).
Proof.
  intros HV. pose proof HV as HV0. unfold Validate in HV. inv_ok. destruct a as [major minor].
  rename H into Hp. cbn beta iota in HV. inv_ok.
  assert (major = 0%Z /\ minor <= 21)%Z as [-> Hminor]
    by (bool_prop; unfold FormatMajor, FormatMinor in *; lia).
  assert (Hself : h = set_Format (h_Format h) h) by by destruct h.
  unfold migrate. rewrite Hp /=. destruct (decide (minor >= FormatMinor)%Z) as [Hge|Hlt];
    unfold FormatMinor in *.
  - exists h. split_and!; [done..|].
    assert (definesRedactedFrom (h_Format h) = true) as ->
      by (eapply definesRedactedFrom_minor; [done|right; lia]).
    simpl. unfold minor_of. rewrite Hp. lia.
  - unfold Raise, header_raiseRefused. rewrite definesRedactedFrom_Format orb_false_r.
    destruct (definesRedactedFrom (h_Format h)) eqn:Hd; simpl.
    { eexists; split_and!; [done|by eapply Validate_set_Format|done|done]. }
    destruct (holds_redacted_from h); simpl.
    + destruct (heldFormat_parses _ _ _ Hp) as (m & Hm & Hle); [done|lia|].
      eexists; split_and!; [done|by eapply Validate_set_Format|done|by apply heldFormat_undefined].
    + eexists; split_and!; [done|by eapply Validate_set_Format|done|done].
Qed.
