(* ===== verification/Tree.v ===== *)
(** * The session in memory: its tree, its indexes and its leaf ([session.go])

    The [Session] record, [add] and the walks over it, the rules a parent, a
    convergence reference and the lines of a file with a base are held to, and
    where the leaf rests: the durable leaf mark, [resolveLeaf] as [Read] runs
    it and [readLeaf], the state [Extend] keeps of it. *)
From S2P Require Import Prelude Entry Header.
Open Scope session_scope.

(** [readLeaf]: the mark in force ("" for none), the line it sits on, the
    entries under it and the newest of those after that line. *)
Record readLeaf := mkReadLeaf {
  rl_n : nat;
  rl_marked : string;
  rl_at : Z;
  rl_under : gset string;
  rl_tip : string
}.

#[export] Instance readLeaf_eq_dec : EqDecision readLeaf.
Proof. solve_decision. Defined.

(** [isEnvelopeKey] ([hash.go]). *)
Definition isEnvelopeKey (k : string) : bool :=
  bool_decide (k ∈ ["id"; "type"; "parent"; "parents"; "ts"; "content"]).

Section Tree.
Context {OR : OpenResponses}.

(** The session, its mutex aside: every operation below runs under it.  A nil
    map reads as an empty one.  [s_now] of the source, the clock, is an
    argument of the operations that read it. *)
Record Session := mkSession {
  s_header : Header;
  s_entries : list Entry;
  s_byID : gmap string Entry;
  s_children : gmap string (list string);
  s_leaf : string;
  s_prefix : gset string;
  s_callIDs : gset string;
  s_spawnIDs : gset string;
  s_copied : gset string;
  s_results : gset string;
  s_dispatches : gmap string (list DispatchEntry);
  s_repeated : list string;
  s_unresolved : list string;
  s_migrated : bool;
  s_declared : string;
  s_heldRedacted : bool;
  s_read : option readLeaf
}.

(** Assignments to a field. *)
Definition set_leaf (l : string) (s : Session) : Session :=
  mkSession (s_header s) (s_entries s) (s_byID s) (s_children s) l (s_prefix s)
    (s_callIDs s) (s_spawnIDs s) (s_copied s) (s_results s) (s_dispatches s)
    (s_repeated s) (s_unresolved s) (s_migrated s) (s_declared s) (s_heldRedacted s) (s_read s).
Definition set_read (r : option readLeaf) (s : Session) : Session :=
  mkSession (s_header s) (s_entries s) (s_byID s) (s_children s) (s_leaf s) (s_prefix s)
    (s_callIDs s) (s_spawnIDs s) (s_copied s) (s_results s) (s_dispatches s)
    (s_repeated s) (s_unresolved s) (s_migrated s) (s_declared s) (s_heldRedacted s) r.
Definition set_prefix (p : gset string) (s : Session) : Session :=
  mkSession (s_header s) (s_entries s) (s_byID s) (s_children s) (s_leaf s) p
    (s_callIDs s) (s_spawnIDs s) (s_copied s) (s_results s) (s_dispatches s)
    (s_repeated s) (s_unresolved s) (s_migrated s) (s_declared s) (s_heldRedacted s) (s_read s).
Definition set_header (h : Header) (s : Session) : Session :=
  mkSession h (s_entries s) (s_byID s) (s_children s) (s_leaf s) (s_prefix s)
    (s_callIDs s) (s_spawnIDs s) (s_copied s) (s_results s) (s_dispatches s)
    (s_repeated s) (s_unresolved s) (s_migrated s) (s_declared s) (s_heldRedacted s) (s_read s).
Definition set_repeated (r : list string) (s : Session) : Session :=
  mkSession (s_header s) (s_entries s) (s_byID s) (s_children s) (s_leaf s) (s_prefix s)
    (s_callIDs s) (s_spawnIDs s) (s_copied s) (s_results s) (s_dispatches s)
    r (s_unresolved s) (s_migrated s) (s_declared s) (s_heldRedacted s) (s_read s).

(** [New] for a header [fill] has completed. *)
Definition New (h : Header) : Session :=
  mkSession h [] ∅ ∅ "" ∅ ∅ ∅ ∅ ∅ ∅ [] [] false (h_Format h) false None.

(** ** Reading the tree *)

Definition has_entry (s : Session) (id : string) : bool :=
  bool_decide (is_Some (s_byID s !! id)).

Definition Children (s : Session) (id : string) : list string :=
  default [] (s_children s !! id).

Definition Roots (s : Session) : list string := Children s "".

Definition Leaves (s : Session) : list string :=
  eid <$> filter (fun e => Children s (eid e) = []) (s_entries s).

(** [Resolve]: the id itself, or the entry whose [LegacyID] it is. *)
Definition Resolve (s : Session) (id : string) : option string :=
  if has_entry s id then Some id
  else if decide (id = "") then None
  else eid <$> find (fun e => bool_decide (LegacyID (Base e) = id)) (s_entries s).

(** The walk of [path], leaf first; [None] when a parent on the way is not in
    the session, or when the fuel runs out. *)
Fixpoint walk (s : Session) (fuel : nat) (id : string) : option (list Entry) :=
  if decide (id = "") then Some []
  else match fuel with
       | O => None
       | S fuel =>
           match s_byID s !! id with
           | None => None
           | Some e => (fun rev => e :: rev) <$> walk s fuel (eparent e)
           end
       end.

(** [path]: root first, empty when the walk meets an id the session does not
    hold.  A walk visits each entry once ([wf_chain] of TreeWf.v), so one step per entry
    and one for the root are enough fuel. *)
Definition path (s : Session) (id : string) : list Entry :=
  match walk s (S (length (s_entries s))) id with
  | Some rev => reverse rev
  | None => []
  end.

Definition Path := path.

(** ** The rules of a parent *)

(** [checkOwnParent]: the base rule for an entry after the base. *)
Definition checkOwnParent (base parent : string) (onPrefix : string -> bool) : result unit :=
  refuse_if (bool_decide (parent = "")) ErrBaseRule ;!
  refuse_if (bool_decide (parent <> base) && onPrefix parent) ErrBaseRule.

Definition checkParentRule (s : Session) (parent : string) : result unit :=
  refuse_if (bool_decide (parent <> "") && negb (has_entry s parent)) ErrNoEntry ;!
  if decide (h_Base (s_header s) <> "")
  then checkOwnParent (h_Base (s_header s)) parent (fun id => bool_decide (id ∈ s_prefix s))
  else Ok tt.

(** [baseRule]: the lines of a file with a base, in file order. *)
Record baseRule := mkBaseRule {
  br_base : string;
  br_prev : string;
  br_met : bool;
  br_prefix : gset string
}.

(** nil for a file that names no base. *)
Definition newBaseRule (base : string) : option baseRule :=
  if decide (base = "") then None else Some (mkBaseRule base "" false ∅).

Definition baseRule_line (r : option baseRule) (id parent : string) : result (option baseRule) :=
  match r with
  | None => Ok None
  | Some r =>
      if br_met r then
        checkOwnParent (br_base r) parent (fun p => bool_decide (p ∈ br_prefix r)) ;! Ok (Some r)
      else
        refuse_if (bool_decide (br_prev r = "") && bool_decide (parent <> "")) ErrBaseRule ;!
        refuse_if (bool_decide (br_prev r <> "") && bool_decide (parent = "")) ErrBaseRule ;!
        refuse_if (bool_decide (parent <> br_prev r)) ErrBaseRule ;!
        Ok (Some (mkBaseRule (br_base r) id (bool_decide (id = br_base r)) ({[id]} ∪ br_prefix r)))
  end.

(** ** The rules of convergence references *)

Definition ref_lt (a b : EntryRef) : bool :=
  if decide (ref_Session a <> ref_Session b) then str_ltb (ref_Session a) (ref_Session b)
  else str_ltb (ref_Entry a) (ref_Entry b).

(** [sortParents]: by session, then by entry. *)
Fixpoint insert_ref (r : EntryRef) (l : list EntryRef) : list EntryRef :=
  match l with
  | [] => [r]
  | x :: l' => if ref_lt r x then r :: x :: l' else x :: insert_ref r l'
  end.
Definition sortParents (refs : list EntryRef) : list EntryRef :=
  foldl (fun acc r => insert_ref r acc) [] refs.

(** A reference naming this session by its own id is one into this file. *)
Definition localise (session : string) (r : EntryRef) : EntryRef :=
  if decide (ref_Session r = session) then mkEntryRef "" (ref_Entry r) (ref_extra r) else r.

(** The loop of [checkRefs], [seen] being the references met. *)
Fixpoint checkRefs_go (parent session : string) (has : string -> bool)
    (seen : list EntryRef) (refs : list EntryRef) : result unit :=
  match refs with
  | [] => Ok tt
  | r :: refs =>
      refuse_if (bool_decide (ref_Entry r = "")) ErrBadConvergence ;!
      let r := localise session r in
      refuse_if (bool_decide (r ∈ seen)) ErrBadConvergence ;!
      (if decide (ref_Session r <> "") then Ok tt
       else refuse_if (bool_decide (ref_Entry r = parent)) ErrBadConvergence ;!
            refuse_if (negb (has (ref_Entry r))) ErrBadConvergence) ;!
      checkRefs_go parent session has (r :: seen) refs
  end.
Definition checkRefs (parent session : string) (refs : list EntryRef) (has : string -> bool)
    : result unit := checkRefs_go parent session has [] refs.

Definition checkParents (s : Session) (b : EntryBase) : result unit :=
  checkRefs (Parent b) (h_ID (s_header s)) (Parents b) (has_entry s).

(** ** Adding an entry *)

(** [s.children[b.Parent] = append(s.children[b.Parent], b.ID)]. *)
Definition add_child (m : gmap string (list string)) (e : Entry) : gmap string (list string) :=
  <[eparent e := default [] (m !! eparent e) ++ [eid e]]> m.

(** A subsession link that names a child the host started, no cancel notice. *)
Definition spawn_of (e : Entry) : option string :=
  match e with
  | ELink v =>
      if decide (ln_Rel v = RelSubsession /\ ln_SpawnID v <> "" /\ ln_Cancel v = "")
      then Some (ln_SpawnID v) else None
  | _ => None
  end.

(** The call ID of the function call an entry holds. *)
Definition call_of (e : Entry) : option string :=
  match e with EItem v => fst <$> function_call v | _ => None end.

(** The same for a copied item. *)
Definition copied_call_of (e : Entry) : option string :=
  match e with
  | EItem v => if decide (is_Some (ie_CopiedFrom v)) then fst <$> function_call v else None
  | _ => None
  end.

Definition result_of (e : Entry) : option string :=
  match e with EResult v => Some (rs_CallID v) | _ => None end.

Definition add_opt (o : option string) (m : gset string) : gset string :=
  match o with Some x => {[x]} ∪ m | None => m end.

(** A dispatch stands for the call its target holds, when that is a function
    call with its call ID. *)
Definition add_dispatch (byID : gmap string Entry) (e : Entry)
    (m : gmap string (list DispatchEntry)) : gmap string (list DispatchEntry) :=
  match e with
  | EDispatch v =>
      match byID !! di_Target v with
      | Some (EItem it) =>
          match function_call it with
          | Some (c, _) =>
              if decide (c = di_CallID v)
              then <[di_Target v := default [] (m !! di_Target v) ++ [v]]> m else m
          | None => m
          end
      | _ => m
      end
  | _ => m
  end.

Definition add (s : Session) (e : Entry) : Session :=
  let g := gated (Base e) in
  let h := if g && negb (definesRedactedFrom (s_declared s))
              && definesRedactedFrom (h_Format (s_header s))
           then set_Format (heldFormat (s_declared s)) (s_header s) else s_header s in
  let byID := <[eid e := e]> (s_byID s) in
  mkSession h (s_entries s ++ [e]) byID (add_child (s_children s) e) (s_leaf s) (s_prefix s)
    (add_opt (call_of e) (s_callIDs s)) (add_opt (spawn_of e) (s_spawnIDs s))
    (add_opt (copied_call_of e) (s_copied s)) (add_opt (result_of e) (s_results s))
    (add_dispatch byID e (s_dispatches s))
    (s_repeated s) (s_unresolved s) (s_migrated s) (s_declared s)
    (s_heldRedacted s || g) (s_read s).

End Tree.
