(* ===== verification/Leaf.v ===== *)
(** * Where the leaf rests ([session.go])

    The live rule ([outcomeFor], [moveLeafFor]), the rule [Read] resolves a
    file's leaf by ([durableLeafAt], [resolveLeaf]), the state [Extend] keeps
    of it ([readLeaf]) and the leaf labels a store of lines writes so that a
    reader resolves the head the session has. *)
From S2P Require Import Prelude Entry Header Tree.
Open Scope session_scope.

(** ["\x00root"]: a leaf mark on the universal root, "" being no mark at all. *)
Definition rootMark : string := String Ascii.zero "root".

Definition markOf (target : string) : string := if decide (target = "") then rootMark else target.
Definition unmark (m : string) : string := if decide (m = rootMark) then "" else m.

Inductive Outcome := Continued | Branched | Held | LeafMoved | LeafNotMoved.

#[export] Instance Outcome_eq_dec : EqDecision Outcome.
Proof. solve_decision. Defined.

Section Leaf.
Context {OR : OpenResponses}.
Implicit Types (s : Session) (e : Entry).

Definition hasBase s : bool := bool_decide (h_Base (s_header s) <> "").

(** [mayRestOn]: the universal root in a session with no base, or the base or
    an own entry that is not a leaf label. *)
Definition mayRestOn s (id : string) : bool :=
  if decide (id = "") then bool_decide (h_Base (s_header s) = "")
  else match s_byID s !! id with
       | None => false
       | Some e =>
           if hasBase s && bool_decide (id <> h_Base (s_header s)) && bool_decide (id ∈ s_prefix s)
           then false
           else negb (entry_is_leaf_label e)
       end.

Definition outcomeFor s e : Outcome :=
  match e with
  | ELabel l =>
      if is_leaf_label l then (if mayRestOn s (le_Target l) then LeafMoved else LeafNotMoved)
      else if decide (eparent e = s_leaf s) then Continued else Branched
  | _ => if decide (eparent e = s_leaf s) then Continued else Branched
  end.

Definition moveLeafFor s e : Session :=
  match e with
  | ELabel l =>
      if is_leaf_label l then (if mayRestOn s (le_Target l) then set_leaf (le_Target l) s else s)
      else if decide (eparent e = s_leaf s) then set_leaf (eid e) s else s
  | _ => if decide (eparent e = s_leaf s) then set_leaf (eid e) s else s
  end.

(** ** The durable leaf mark *)

(** One line of [durableLeafAt]: a leaf label on a target the leaf may rest on
    puts its mark in force, a null label on the marked entry clears it. *)
Definition durable_step s (acc : string * Z) (i : nat) e : string * Z :=
  match e with
  | ELabel l =>
      if is_leaf_label l then
        (if mayRestOn s (le_Target l) then (markOf (le_Target l), Z.of_nat i) else acc)
      else if bool_decide (le_Label l = None) && bool_decide (acc.1 <> "")
              && bool_decide (le_Target l = unmark acc.1)
           then ("", (-1)%Z) else acc
  | _ => acc
  end.

Definition durableLeafAt s : string * Z :=
  foldl_idx (durable_step s) 0 ("", (-1)%Z) (s_entries s).

(** [notOnLabel]: up from [id] while it is a leaf label, the base standing in
    when the walk leaves the session's own entries. *)
Fixpoint off_label s (fuel : nat) (id : string) : string :=
  if decide (id = "") then id
  else match fuel with
       | O => id
       | S fuel =>
           match s_byID s !! id with
           | Some e => if entry_is_leaf_label e then off_label s fuel (eparent e) else id
           | None => id
           end
       end.

Definition notOnLabel s (id : string) : string :=
  let id := off_label s (S (length (s_entries s))) id in
  if hasBase s && (bool_decide (id = "")
                   || bool_decide (id ∈ s_prefix s) && bool_decide (id <> h_Base (s_header s)))
  then h_Base (s_header s) else id.

(** The entries under a mark on [target] and the newest of them after line
    [at_], as both [resolveLeaf] and [readLeaf.mark] pass over the lines. *)
Definition under_of (target : string) : gset string :=
  if decide (target = rootMark) then {[target; ""]} else {[target]}.

Definition under_step (at_ : Z) (acc : gset string * string) (i : nat) e : gset string * string :=
  if decide (eparent e ∈ acc.1)
  then ({[eid e]} ∪ acc.1, if decide (Z.of_nat i > at_)%Z then eid e else acc.2)
  else acc.

Definition under_pass s (target : string) (at_ : Z) : gset string * string :=
  foldl_idx (under_step at_) 0 (under_of target, target) (s_entries s).

(** [resolveLeaf]: the entry the next append should hang from, as [Read]
    decides it over the whole file. *)
Definition resolveLeaf s : string :=
  match last (s_entries s) with
  | None => ""
  | Some e =>
      let (marked, at_) := durableLeafAt s in
      if decide (marked = "") then notOnLabel s (eid e)
      else notOnLabel s (unmark (under_pass s marked at_).2)
  end.

(** ** The state [Extend] keeps *)

(** [mark]: the mark on [target] at line [at_]; "" takes the mark away. *)
Definition mark s (st : readLeaf) (target : string) (at_ : Z) : readLeaf :=
  if decide (target = "") then mkReadLeaf (rl_n st) target at_ ∅ target
  else let p := under_pass s target at_ in mkReadLeaf (rl_n st) target at_ p.1 p.2.

Definition set_n (n : nat) (st : readLeaf) : readLeaf :=
  mkReadLeaf n (rl_marked st) (rl_at st) (rl_under st) (rl_tip st).

Definition readLeafState s : readLeaf :=
  let (marked, at_) := durableLeafAt s in
  set_n (length (s_entries s)) (mark s (mkReadLeaf 0 "" (-1) ∅ "") marked at_).

(** The last lines of [readLeaf.extend]: the entry joins those under the mark. *)
Definition extend_under (st : readLeaf) (i : nat) e : readLeaf :=
  let st := if bool_decide (rl_marked st <> "") && bool_decide (eparent e ∈ rl_under st)
            then mkReadLeaf (rl_n st) (rl_marked st) (rl_at st) ({[eid e]} ∪ rl_under st) (eid e)
            else st in
  set_n (S i) st.

(** [readLeaf.extend] takes the entry at line [i], the newest it has not met;
    its callers pass an [i] the session holds. *)
Definition extend s (st : readLeaf) (i : nat) : readLeaf :=
  match s_entries s !! i with
  | None => st
  | Some e =>
      match e with
      | ELabel l =>
          if is_leaf_label l then
            (if mayRestOn s (le_Target l)
             then set_n (S i) (mark s st (markOf (le_Target l)) (Z.of_nat i))
             else extend_under st i e)
          else if bool_decide (le_Label l = None) && bool_decide (rl_marked st <> "")
                  && bool_decide (le_Target l = unmark (rl_marked st))
               then set_n (S i) (mark s st "" (-1))
               else extend_under st i e
      | _ => extend_under st i e
      end
  end.

(** The leaf [Extend] places from the state once it has met every entry. *)
Definition leaf_of_state s (st : readLeaf) (newest : string) : string :=
  if decide (rl_marked st = "") then notOnLabel s newest
  else notOnLabel s (unmark (rl_tip st)).

(** [readCaughtUp]: Read's leaf state brought up to the session's entries. *)
Definition readCaughtUp s : readLeaf :=
  let st := match s_read s with
            | Some st => if decide (length (s_entries s) < rl_n st) then readLeafState s else st
            | None => readLeafState s
            end in
  foldl (extend s) st (seq (rl_n st) (length (s_entries s) - rl_n st)).

(** ** The labels that make the leaf durable *)

(** [NewLabelEntry] ([env.go]). *)
Definition NewLabelEntry (target label : string) : LabelEntry :=
  mkLabelEntry zero_base target (if decide (label = "") then None else Some label).

(** [label.Parent = p]. *)
Definition label_under (p : string) (l : LabelEntry) : LabelEntry :=
  let b := le_Base l in
  mkLabelEntry (set_envelope (ID b) p (Parents b) (Timestamp b) b) (le_Target l) (le_Label l).

Definition MarkLeaf s : result LabelEntry :=
  refuse_if (bool_decide (s_leaf s = "")) ErrOther ;! Ok (NewLabelEntry (s_leaf s) LeafLabel).

Definition leafMark s : LabelEntry := label_under (s_leaf s) (NewLabelEntry (s_leaf s) LeafLabel).

(** [headLabel]: the compare of a head compare-and-swap. *)
Definition headLabel s (expected to : string) : result LabelEntry :=
  refuse_if (bool_decide (s_leaf s <> expected)) ErrHeadMoved ;!
  if decide (to = "") then
    refuse_if (hasBase s) ErrNoEntry ;! Ok (NewLabelEntry "" LeafLabel)
  else
    match s_byID s !! to with
    | None => Err ErrNoEntry
    | Some e =>
        refuse_if (hasBase s && bool_decide (to <> h_Base (s_header s)) && bool_decide (to ∈ s_prefix s))
          ErrNoEntry ;!
        refuse_if (entry_is_leaf_label e) ErrHeadTarget ;!
        Ok (label_under to (NewLabelEntry to LeafLabel))
    end.

(** [LeafMarkNeeded] also leaves the state it caught up on the session. *)
Definition LeafMarkNeeded s : Session * option LabelEntry :=
  match last (s_entries s) with
  | None => (s, None)
  | Some e =>
      if mayRestOn s (s_leaf s) then
        let st := readCaughtUp s in
        let resolved := if decide (rl_marked st = "") then eid e else unmark (rl_tip st) in
        (set_read (Some st) s,
         if decide (notOnLabel s resolved = s_leaf s) then None else Some (leafMark s))
      else (s, None)
  end.

(** Whether the walk up from [p] meets the leaf: the loop of [LeafMarkBefore]. *)
Fixpoint meets_leaf s (fuel : nat) (p : string) : bool :=
  if decide (p = "") then false
  else match fuel with
       | O => false
       | S fuel =>
           if decide (p = s_leaf s) then true
           else match s_byID s !! p with
                | None => false
                | Some e => meets_leaf s fuel (eparent e)
                end
       end.

Definition LeafMarkBefore s e : Session * option LabelEntry :=
  if decide (eparent e = s_leaf s \/ s_leaf s = "") then (s, None)
  else if entry_is_leaf_label e then (s, None)
  else if meets_leaf s (S (length (s_entries s))) (eparent e) then (s, None)
  else
    match s_entries s with
    | [] => (s, Some (leafMark s))
    | _ =>
        let st := readCaughtUp s in
        (set_read (Some st) s,
         if bool_decide (rl_marked st <> "") && bool_decide (eparent e ∉ rl_under st)
            && bool_decide (notOnLabel s (unmark (rl_tip st)) = s_leaf s)
         then None else Some (leafMark s))
    end.

(** ** Views over the entries *)

Definition Labels s : gmap string string :=
  foldl (fun m e => match e with
                    | ELabel l => match le_Label l with
                                  | None => delete (le_Target l) m
                                  | Some t => <[le_Target l := t]> m
                                  end
                    | _ => m
                    end) ∅ (s_entries s).

Definition Name s : string :=
  foldl (fun n e => match e with
                    | EInfo i => if decide (inf_Name i <> "") then inf_Name i else n
                    | _ => n
                    end) "" (s_entries s).

(** [Branch] and [ResetLeaf] move the live leaf. *)
Definition Branch s (id : string) : result Session :=
  refuse_if (negb (has_entry s id)) ErrNoEntry ;! Ok (set_leaf id s).
Definition ResetLeaf s : Session := set_leaf "" s.

End Leaf.
