(* ===== verification/TreeWf.v ===== *)
(** * The invariant of the tree, and walks over it

    [wf]: the entries form a tree in file order (a parent is an entry before
    its child, or the universal root), no id repeats, and every index agrees
    with the entries.  [add] keeps it, a path exists for every entry and is
    the chain of its parents, and adding an entry leaves every other path as
    it was. *)
From S2P Require Import Prelude Entry Header Tree Leaf.
Open Scope session_scope.

(** An id the format can assign: a hash, so neither the spelling of the root
    nor the mark on it. *)
Definition goodID (id : string) : Prop := id <> "" /\ id <> rootMark.

Section Wf.
Context {OR : OpenResponses}.
Implicit Types (s : Session) (e : Entry) (es : list Entry).

Definition ids es : list string := eid <$> es.

(** The entries of a file, in file order. *)
Inductive tree : list Entry -> Prop :=
  | tree_nil : tree []
  | tree_snoc es e :
      tree es -> goodID (eid e) -> eid e ∉ ids es ->
      (eparent e = "" \/ eparent e ∈ ids es) -> tree (es ++ [e]).

(** Each index as a fold over the entries, what [add] maintains. *)
Definition index es : gmap string Entry := foldl (fun m e => <[eid e := e]> m) ∅ es.
Definition child_index es : gmap string (list string) := foldl add_child ∅ es.
Definition set_index (f : Entry -> option string) es : gset string :=
  foldl (fun m e => add_opt (f e) m) ∅ es.

Record wf s : Prop := {
  wf_tree : tree (s_entries s);
  wf_byID : s_byID s = index (s_entries s);
  wf_children : s_children s = child_index (s_entries s);
  wf_callIDs : s_callIDs s = set_index call_of (s_entries s);
  wf_spawnIDs : s_spawnIDs s = set_index spawn_of (s_entries s);
  wf_copied : s_copied s = set_index copied_call_of (s_entries s);
  wf_results : s_results s = set_index result_of (s_entries s)
}.

(** ** Indexes *)

Lemma ids_app es es' : ids (es ++ es') = ids es ++ ids es'.
Proof. apply fmap_app. Qed.

Lemma index_snoc es e : index (es ++ [e]) = <[eid e := e]> (index es).
Proof. unfold index. by rewrite foldl_app. Qed.

Lemma child_index_snoc es e : child_index (es ++ [e]) = add_child (child_index es) e.
Proof. unfold child_index. by rewrite foldl_app. Qed.

Lemma set_index_snoc f es e : set_index f (es ++ [e]) = add_opt (f e) (set_index f es).
Proof. unfold set_index. by rewrite foldl_app. Qed.

Lemma set_index_spec f es x : x ∈ set_index f es <-> exists e, e ∈ es /\ f e = Some x.
Proof.
  induction es as [|e es IH] using rev_ind; [set_solver|].
  rewrite set_index_snoc. destruct (f e) eqn:He; simpl; set_solver.
Qed.

Lemma index_lookup_None es id : index es !! id = None <-> id ∉ ids es.
Proof.
  induction es as [|e es IH] using rev_ind; [set_solver|].
  rewrite index_snoc ids_app lookup_insert_None IH. set_solver.
Qed.

Lemma index_is_Some es id : is_Some (index es !! id) <-> id ∈ ids es.
Proof.
  rewrite -not_eq_None_Some index_lookup_None. split; [apply dec_stable|tauto].
Qed.

Lemma index_lookup_Some_1 es id e : index es !! id = Some e -> e ∈ es /\ eid e = id.
Proof.
  induction es as [|x es IH] using rev_ind; [done|].
  rewrite index_snoc lookup_insert_Some. set_solver.
Qed.

Lemma tree_NoDup es : tree es -> NoDup (ids es).
Proof.
  induction 1 as [|es e _ IH _ Hn _]; [constructor|].
  rewrite ids_app. apply NoDup_app. set_solver by eauto using NoDup_singleton.
Qed.

Lemma tree_index es e : tree es -> e ∈ es -> index es !! eid e = Some e.
Proof.
  induction 1 as [|es x _ IH _ Hn _]; [set_solver|].
  rewrite index_snoc elem_of_app list_elem_of_singleton. intros [He| ->]; [|by rewrite lookup_insert_eq].
  rewrite lookup_insert_ne; [by apply IH|]. intros Heq. apply Hn. rewrite Heq. by apply list_elem_of_fmap_2.
Qed.

Lemma tree_goodID es e : tree es -> e ∈ es -> goodID (eid e).
Proof. induction 1; set_solver. Qed.

Lemma tree_parent es e : tree es -> e ∈ es -> eparent e = "" \/ eparent e ∈ ids es.
Proof. induction 1; rewrite ?ids_app; set_solver. Qed.

Lemma tree_app_inv es es' : tree (es ++ es') -> tree es.
Proof.
  induction es' as [|e es' IH] using rev_ind; [by rewrite app_nil_r|].
  rewrite app_assoc. intros H. inversion H as [Heq|?? Ht ??? Heq].
  - by destruct (es ++ es').
  - apply app_inj_tail in Heq as [-> ->]. auto.
Qed.

(** What the tree says of one of its lines. *)
Lemma tree_mid es e es' :
  tree (es ++ e :: es') ->
  goodID (eid e) /\ eid e ∉ ids es /\ (eparent e = "" \/ eparent e ∈ ids es) /\ tree es.
Proof.
  intros Ht. assert (tree (es ++ [e])) as Ht' by (apply (tree_app_inv _ es'); by rewrite -app_assoc).
  inversion Ht' as [Heq|es0 e0 Ht0 Hg Hn Hp Heq]; [by destruct es|].
  by apply app_inj_tail in Heq as [-> ->].
Qed.

Lemma wf_lookup s id e : wf s -> s_byID s !! id = Some e <-> e ∈ s_entries s /\ eid e = id.
Proof.
  intros Hw. rewrite (wf_byID _ Hw). split; [apply index_lookup_Some_1|].
  intros [He <-]. apply tree_index; [apply Hw|done].
Qed.

Lemma wf_has_entry s id : wf s -> has_entry s id = true <-> id ∈ ids (s_entries s).
Proof.
  intros Hw. unfold has_entry. by rewrite bool_decide_eq_true (wf_byID _ Hw) index_is_Some.
Qed.

Lemma wf_New h : wf (New h).
Proof. split; try done. constructor. Qed.

(** [add] keeps the invariant for a fresh entry under a parent the session
    holds. *)
Lemma wf_add s e :
  wf s -> goodID (eid e) -> eid e ∉ ids (s_entries s) ->
  (eparent e = "" \/ eparent e ∈ ids (s_entries s)) -> wf (add s e).
Proof.
  intros Hw Hg Hn Hp. destruct Hw as [Ht H1 H2 H3 H4 H5 H6]. split; simpl.
  - by constructor.
  - by rewrite index_snoc H1.
  - by rewrite child_index_snoc H2.
  - by rewrite set_index_snoc H3.
  - by rewrite set_index_snoc H4.
  - by rewrite set_index_snoc H5.
  - by rewrite set_index_snoc H6.
Qed.

Lemma wf_set_leaf s l : wf s -> wf (set_leaf l s).
Proof. by intros []. Qed.
Lemma wf_set_read s r : wf s -> wf (set_read r s).
Proof. by intros []. Qed.
Lemma wf_set_prefix s p : wf s -> wf (set_prefix p s).
Proof. by intros []. Qed.
Lemma wf_set_header s h : wf s -> wf (set_header h s).
Proof. by intros []. Qed.

(** [Children] lists the entries under a parent, in file order. *)
Lemma Children_spec s id :
  wf s -> Children s id = ids (filter (fun e => eparent e = id) (s_entries s)).
Proof.
  intros Hw. unfold Children. rewrite (wf_children _ Hw). clear Hw.
  induction (s_entries s) as [|e es IH] using rev_ind; [done|].
  rewrite child_index_snoc filter_app ids_app -IH. unfold add_child.
  rewrite lookup_insert filter_cons filter_nil.
  destruct (decide (eparent e = id)) as [<-|]; [done|]. simpl. by rewrite app_nil_r.
Qed.

(** ** Paths *)

(** The chain of parents from an entry up to the root, leaf first. *)
Inductive chain s : string -> list Entry -> Prop :=
  | chain_root : chain s "" []
  | chain_step e rev :
      eid e <> "" -> s_byID s !! eid e = Some e ->
      chain s (eparent e) rev -> chain s (eid e) (e :: rev).

Lemma chain_det s id l l' : chain s id l -> chain s id l' -> l = l'.
Proof.
  intros H. revert l'. induction H as [|e rev Hne He Hc IH]; intros l' H'.
  - by inversion H'.
  - inversion H' as [|e' rev' Hne' He' Hc' Heq]; [congruence|]. simplify_eq.
    assert (e' = e) as -> by congruence. f_equal. auto.
Qed.

(** A tree's entry has a chain no longer than the tree. *)
Lemma tree_chain es :
  tree es -> forall s, (forall e, e ∈ es -> s_byID s !! eid e = Some e) ->
  forall id, id ∈ ids es -> exists rev, chain s id rev /\ length rev <= length es.
Proof.
  induction 1 as [|es e Ht IH Hg Hn Hp]; intros s Hs id; [set_solver|].
  rewrite ids_app elem_of_app list_elem_of_singleton.
  assert (forall x, x ∈ es -> s_byID s !! eid x = Some x) as Hs' by set_solver.
  intros [Hid| ->].
  - destruct (IH s Hs' id Hid) as (rev & ? & ?). exists rev. rewrite length_app. eauto with lia.
  - assert (exists rev, chain s (eparent e) rev /\ length rev <= length es) as (rev & Hc & Hl).
    { destruct Hp as [Hp|Hp]; [rewrite Hp; exists []; split; [constructor|simpl; lia]|auto]. }
    exists (e :: rev). rewrite length_app /=. split; [|lia].
    constructor; [apply Hg|apply Hs; set_solver|done].
Qed.

Lemma walk_chain s id rev fuel :
  chain s id rev -> length rev < fuel -> walk s fuel id = Some rev.
Proof.
  intros H. revert fuel. induction H as [|e rev Hne He Hc IH]; intros fuel Hf.
  - by destruct fuel.
  - simpl in Hf. destruct fuel as [|fuel]; [lia|]. simpl.
    rewrite decide_False // He IH //. lia.
Qed.

Lemma wf_chain s id :
  wf s -> id ∈ ids (s_entries s) ->
  exists rev, chain s id rev /\ length rev <= length (s_entries s).
Proof.
  intros Hw Hid. eapply tree_chain; [apply Hw| |done].
  intros e He. by apply wf_lookup.
Qed.

Lemma path_chain s id rev :
  chain s id rev -> length rev <= length (s_entries s) -> path s id = reverse rev.
Proof. intros. unfold path. rewrite (walk_chain _ _ rev) //. lia. Qed.

Lemma path_nil s : path s "" = [].
Proof. reflexivity. Qed.

(** The path to an entry is the path to its parent and the entry. *)
Lemma path_step s e :
  wf s -> e ∈ s_entries s -> path s (eid e) = path s (eparent e) ++ [e].
Proof.
  intros Hw He. destruct (wf_chain s (eid e) Hw) as (rev & Hc & Hl); [by apply list_elem_of_fmap_2|].
  rewrite (path_chain _ _ _ Hc Hl). inversion Hc as [Heq|e' rev' Hne He' Hc' Heq].
  - apply tree_goodID in He as [? _]; [congruence|apply Hw].
  - subst. assert (e' = e) as ->.
    { apply (wf_lookup s _ e') in He' as [? ?]; [|done].
      assert (s_byID s !! eid e = Some e) by by apply wf_lookup.
      assert (s_byID s !! eid e' = Some e') by by apply wf_lookup. congruence. }
    rewrite reverse_cons. f_equal. symmetry. apply path_chain; [done|]. simpl in Hl. lia.
Qed.

(** Paths over a larger index: the entries already there keep theirs. *)
Lemma chain_mono s s' id rev :
  chain s id rev -> (forall e, e ∈ rev -> s_byID s !! eid e = Some e -> s_byID s' !! eid e = Some e) ->
  chain s' id rev.
Proof. induction 1; intros Hm; constructor; [done|set_solver|apply IHchain; set_solver]. Qed.

Lemma path_add_old s e id :
  wf s -> eid e ∉ ids (s_entries s) -> id = "" \/ id ∈ ids (s_entries s) ->
  path (add s e) id = path s id.
Proof.
  intros Hw Hn [->|Hid]; [done|].
  destruct (wf_chain s id Hw Hid) as (rev & Hc & Hl).
  rewrite (path_chain _ _ _ Hc Hl). apply path_chain.
  - eapply chain_mono; [done|]. intros x _ Hx. simpl. rewrite lookup_insert_ne; [done|].
    intros Heq. apply Hn. rewrite Heq. apply wf_lookup in Hx as [? _]; [|done]. by apply list_elem_of_fmap_2.
  - simpl. rewrite length_app. lia.
Qed.

Lemma path_add_new s e :
  wf s -> goodID (eid e) -> eid e ∉ ids (s_entries s) ->
  (eparent e = "" \/ eparent e ∈ ids (s_entries s)) ->
  path (add s e) (eid e) = path s (eparent e) ++ [e].
Proof.
  intros Hw Hg Hn Hp. rewrite path_step; [|by apply wf_add|simpl; set_solver].
  by rewrite path_add_old.
Qed.

(** Every entry of a path is in the session, with ids in the path's order. *)
Lemma chain_entries s id rev e : wf s -> chain s id rev -> e ∈ rev -> e ∈ s_entries s.
Proof.
  intros Hw. induction 1 as [|x rev Hne Hx Hc IH]; [set_solver|].
  rewrite elem_of_cons. intros [->|]; [|auto]. by apply wf_lookup in Hx as [].
Qed.

Lemma path_entries s id e : wf s -> e ∈ path s id -> e ∈ s_entries s.
Proof.
  intros Hw. destruct (decide (id = "")) as [->|Hne]; [set_solver|].
  destruct (decide (id ∈ ids (s_entries s))) as [Hid|Hid].
  - destruct (wf_chain s id Hw Hid) as (rev & Hc & Hl). rewrite (path_chain _ _ _ Hc Hl) elem_of_reverse.
    by eapply chain_entries.
  - unfold path. simpl. rewrite decide_False //.
    destruct (s_byID s !! id) eqn:He; [|set_solver].
    apply wf_lookup in He as [? <-]; [|done]. by apply (list_elem_of_fmap_2 eid) in H.
Qed.

(** A path stays within any prefix of the file that holds its end. *)
Lemma path_prefix s es es' x y :
  wf s -> s_entries s = es ++ es' -> x ∈ ids es -> y ∈ path s x -> y ∈ es.
Proof.
  intros Hw. revert x es'. induction es as [|z es IH] using rev_ind; intros x es' Hs Hx Hy; [set_solver|].
  rewrite -app_assoc /= in Hs. rewrite ids_app elem_of_app list_elem_of_singleton in Hx.
  destruct Hx as [Hx| ->]; [specialize (IH x _ Hs Hx Hy); set_solver|].
  rewrite (path_step s z Hw) in Hy; [|rewrite Hs; set_solver].
  rewrite elem_of_app list_elem_of_singleton in Hy. destruct Hy as [Hy| ->]; [|set_solver].
  pose proof (wf_tree _ Hw) as Ht. rewrite Hs in Ht.
  destruct (tree_mid _ _ _ Ht) as (_ & _ & [Hp|Hp] & _); [rewrite Hp path_nil in Hy; set_solver|].
  specialize (IH _ _ Hs Hp Hy). set_solver.
Qed.

Lemma path_unknown s id : wf s -> id ∉ ids (s_entries s) -> path s id = [].
Proof.
  intros Hw Hid. unfold path. simpl. destruct (decide (id = "")); [done|].
  destruct (s_byID s !! id) eqn:He; [|done]. apply wf_lookup in He as [? <-]; [|done].
  by apply (list_elem_of_fmap_2 eid) in H.
Qed.

(** An entry is not on its parent's path. *)
Lemma parent_path_fresh s e : wf s -> e ∈ s_entries s -> eid e ∉ ids (path s (eparent e)).
Proof.
  intros Hw He Hin. apply list_elem_of_fmap in Hin as (x & Hx & Hin).
  apply list_elem_of_lookup in He as [i Hi]. apply list_elem_of_split_length in Hi as (l1 & l2 & Hes & _).
  pose proof (wf_tree _ Hw) as Ht. rewrite Hes in Ht. destruct (tree_mid _ _ _ Ht) as (_ & Hfresh & [Hp|Hp] & _).
  - rewrite Hp path_nil in Hin. set_solver.
  - apply Hfresh. rewrite Hx. apply list_elem_of_fmap_2. by eapply path_prefix.
Qed.

(** No entry is on a path twice. *)
Lemma path_NoDup s id : wf s -> NoDup (ids (path s id)).
Proof.
  intros Hw. destruct (decide (id ∈ ids (s_entries s))) as [Hid|Hid]; [|rewrite path_unknown //; constructor].
  destruct (wf_chain s id Hw Hid) as (rev & Hch & _). clear Hid.
  induction Hch as [|e rev Hne He Hch IH]; [constructor|]. apply (wf_lookup s) in He as [He _]; [|done].
  rewrite path_step // ids_app. apply NoDup_app. split_and!; [done| |apply NoDup_singleton].
  intros x Hx ->%list_elem_of_singleton. by apply (parent_path_fresh s e).
Qed.

End Wf.
