(* ===== verification/LeafLemmas.v ===== *)
(** * Lemmas on the leaf rules

    The passes [resolveLeaf] and [readLeaf] make, as functions of the lines
    passed over; how they change when a line is added; and that the state
    [readCaughtUp] brings up to date, however far behind it is, is the one a
    pass over the whole session computes. *)
From S2P Require Import Prelude Entry Header Tree Leaf TreeWf.
Open Scope session_scope.

Section LeafLemmas.
Context {OR : OpenResponses}.
Implicit Types (s : Session) (e : Entry) (es : list Entry).

(** No leaf label names an entry of a later line, nor itself. *)
Definition settled es : Prop :=
  forall es1 e es2 l, es = es1 ++ e :: es2 -> ELabel l ∈ es1 ++ [e] ->
  is_leaf_label l = true -> le_Target l <> eid e.

Lemma settled_app_inv es es' : settled (es ++ es') -> settled es.
Proof. intros H es1 e es2 l -> . apply (H es1 e (es2 ++ es')). by rewrite -app_assoc. Qed.

Lemma settled_snoc es e l :
  settled (es ++ [e]) -> ELabel l ∈ es ++ [e] -> is_leaf_label l = true -> le_Target l <> eid e.
Proof. intros H. by apply (H es e []). Qed.

(** No leaf label of the entries names the id. *)
Definition unnamed es (id : string) : Prop :=
  forall l, ELabel l ∈ es -> is_leaf_label l = true -> le_Target l <> id.

Lemma settled_unnamed es e : settled (es ++ [e]) -> unnamed es (eid e).
Proof. intros H l Hl. apply (settled_snoc _ _ _ H). apply elem_of_app. by left. Qed.

(** ** The rest rule does not change when an entry is added elsewhere *)

Lemma h_Base_add s e : h_Base (s_header (add s e)) = h_Base (s_header s).
Proof. simpl. by destruct (_ && _). Qed.

Lemma mayRestOn_add s e t : t <> eid e -> mayRestOn (add s e) t = mayRestOn s t.
Proof.
  intros Hne. unfold mayRestOn, hasBase. rewrite !h_Base_add. simpl. by rewrite lookup_insert_ne.
Qed.

Lemma durable_step_add s e acc i x :
  (forall l, x = ELabel l -> is_leaf_label l = true -> le_Target l <> eid e) ->
  durable_step (add s e) acc i x = durable_step s acc i x.
Proof.
  intros H. destruct x as [| | | | |l| | | | | | | | | | |]; try done. simpl.
  destruct (is_leaf_label l) eqn:Hl; [|done]. rewrite mayRestOn_add //. by apply H.
Qed.

(** ** The passes over a list of lines *)

Definition durable_over s es : string * Z := foldl_idx (durable_step s) 0 ("", (-1)%Z) es.
Definition under_over es (target : string) (at_ : Z) : gset string * string :=
  foldl_idx (under_step at_) 0 (under_of target, target) es.

(** The state over the lines [es], as one full pass computes it. *)
Definition state_over s es : readLeaf :=
  let (m, at_) := durable_over s es in
  if decide (m = "") then mkReadLeaf (length es) m at_ ∅ m
  else mkReadLeaf (length es) m at_ (under_over es m at_).1 (under_over es m at_).2.

Lemma readLeafState_over s : readLeafState s = state_over s (s_entries s).
Proof.
  unfold readLeafState, state_over, durableLeafAt, durable_over, mark, under_pass, under_over.
  destruct (foldl_idx _ _ _ _) as [m at_]. by destruct (decide (m = "")).
Qed.

Lemma under_over_snoc es e t at_ :
  under_over (es ++ [e]) t at_ = under_step at_ (under_over es t at_) (length es) e.
Proof. unfold under_over. by rewrite foldl_idx_snoc. Qed.

Lemma durable_over_snoc s es e :
  durable_over s (es ++ [e]) = durable_step s (durable_over s es) (length es) e.
Proof. unfold durable_over. by rewrite foldl_idx_snoc. Qed.

Lemma durable_over_add s e es :
  unnamed es (eid e) ->
  durable_over (add s e) es = durable_over s es.
Proof.
  intros H. apply foldl_idx_ext. intros acc j x Hx. apply durable_step_add.
  intros l ->. apply H. by apply list_elem_of_lookup_2 in Hx.
Qed.

Lemma state_over_add s e es :
  unnamed es (eid e) ->
  state_over (add s e) es = state_over s es.
Proof. intros H. unfold state_over. by rewrite durable_over_add. Qed.

Lemma durable_over_bound s es : ((durable_over s es).2 < Z.of_nat (length es))%Z.
Proof.
  induction es as [|e es IH] using rev_ind; [simpl; lia|].
  rewrite durable_over_snoc length_app /=.
  destruct e as [| | | | |l| | | | | | | | | | |]; simpl; try lia.
  repeat case_match; simpl; lia.
Qed.

Lemma markOf_nonempty t : markOf t <> "".
Proof. unfold markOf. by destruct (decide (t = "")). Qed.

(** The tip of a pass none of whose lines lies after the mark's is the mark. *)
Lemma under_over_tip_before es t at_ : (Z.of_nat (length es) <= at_ + 1)%Z -> (under_over es t at_).2 = t.
Proof.
  induction es as [|e es IH] using rev_ind; [done|].
  rewrite length_app under_over_snoc /= => Hle. unfold under_step.
  destruct (decide _); [|apply IH; lia]. simpl. rewrite decide_False; [|lia]. apply IH. lia.
Qed.

(** A longer pass keeps what a shorter one found, and adds only later lines. *)
Lemma under_over_mono es es' t at_ : (under_over es t at_).1 ⊆ (under_over (es ++ es') t at_).1.
Proof.
  induction es' as [|e es' IH] using rev_ind; [by rewrite app_nil_r|].
  rewrite app_assoc under_over_snoc. unfold under_step. destruct (decide _); set_solver.
Qed.

Lemma under_over_new es es' t at_ x :
  x ∈ (under_over (es ++ es') t at_).1 -> x ∈ (under_over es t at_).1 \/ x ∈ ids es'.
Proof.
  induction es' as [|e es' IH] using rev_ind; [rewrite app_nil_r; auto|].
  rewrite app_assoc under_over_snoc ids_app. unfold under_step. destruct (decide _); set_solver.
Qed.

(** ** One line at a time *)

(** The state during a catch-up: exact on the mark; on what lies under it,
    between the lines passed so far and the whole session, since [mark] looks
    ahead. *)
Definition ahead es es' (st st' : readLeaf) : Prop :=
  rl_n st' = rl_n st /\ rl_marked st' = rl_marked st /\ rl_at st' = rl_at st /\
  (rl_marked st = "" -> st' = st) /\
  (rl_marked st <> "" ->
     rl_under st ⊆ rl_under st' /\ rl_under st' ⊆ (under_over (es ++ es') (rl_marked st) (rl_at st)).1 /\
     (rl_tip st' = rl_tip st \/
      rl_tip st = rl_marked st /\ rl_tip st' = (under_over (es ++ es') (rl_marked st) (rl_at st)).2)).

Lemma ahead_refl s es es' : ahead es es' (state_over s es) (state_over s es).
Proof.
  split_and!; try done. intros _. split_and!; [done| |by left].
  unfold state_over. destruct (durable_over s es) as [m at_]. destruct (decide (m = "")); simpl; [set_solver|].
  apply under_over_mono.
Qed.

Lemma extend_under_ahead s es e es' st' :
  tree (es ++ e :: es') ->
  durable_over s (es ++ [e]) = durable_over s es ->
  ahead es (e :: es') (state_over s es) st' ->
  ahead (es ++ [e]) es' (state_over s (es ++ [e])) (extend_under st' (length es) e).
Proof.
  intros Ht Hd (Hn & Hm & Ha & Hnone & Hsome).
  pose proof (durable_over_bound s es) as Hb.
  unfold state_over in *. rewrite Hd. destruct (durable_over s es) as [m at_]. simpl in Hb.
  unfold extend_under. rewrite length_app /=.
  destruct (decide (m = "")) as [->|Hne]; simpl in *.
  { rewrite (Hnone eq_refl) /=. split_and!; try done; simpl; try lia. by rewrite Nat.add_1_r. }
  destruct (Hsome Hne) as (Hsub & Hsup & Htip). clear Hsome Hnone.
  rewrite Hm (bool_decide_eq_true_2 (m <> "")) //= under_over_snoc.
  assert (eparent e ∈ rl_under st' <-> eparent e ∈ (under_over es m at_).1) as Hiff.
  { split; [intros Hin|by apply Hsub]. apply Hsup in Hin. apply under_over_new in Hin as [?|Hin]; [done|].
    exfalso. pose proof (tree_NoDup _ Ht) as Hnd. rewrite ids_app in Hnd. apply NoDup_app in Hnd as (_ & Hdis & _).
    assert (tree (es ++ [e])) as Ht' by (apply (tree_app_inv _ es'); by rewrite -app_assoc).
    inversion Ht' as [Heq|es0 e0 Ht0 Hg0 _ Hp Heq]; [by destruct es|].
    apply app_inj_tail in Heq as [-> ->].
    destruct Hp as [Hp|Hp]; [|by apply (Hdis _ Hp)].
    rewrite Hp in Hin. apply list_elem_of_fmap in Hin as (x & Hx & Hin).
    destruct (tree_goodID _ x Ht) as [Hg _]; [set_solver|]. by rewrite -Hx in Hg. }
  unfold under_step. destruct (decide (eparent e ∈ _)) as [Hin|Hin].
  - rewrite bool_decide_eq_true_2; [|by apply Hiff]. rewrite (decide_True (P := (_ > _)%Z)); [|lia].
    unfold ahead. rewrite -app_assoc /=. split_and!; try done; try lia.
    intros _. split_and!; [set_solver| |by left].
    assert (eid e ∈ (under_over (es ++ e :: es') m at_).1); [|set_solver].
    change (e :: es') with ([e] ++ es'). rewrite app_assoc.
    apply under_over_mono. rewrite under_over_snoc. unfold under_step. rewrite decide_True //. set_solver.
  - rewrite bool_decide_eq_false_2; [|by rewrite Hiff]. unfold ahead. rewrite -app_assoc /=. split_and!; try done; lia.
Qed.

Lemma extend_ahead s es e es' st' :
  tree (es ++ e :: es') -> s_entries s = es ++ e :: es' ->
  ahead es (e :: es') (state_over s es) st' ->
  ahead (es ++ [e]) es' (state_over s (es ++ [e])) (extend s st' (length es)).
Proof.
  intros Ht Hs Hah. unfold extend. rewrite Hs lookup_app_r // Nat.sub_diag /=.
  pose proof (durable_over_snoc s es e) as Hd.
  destruct e as [| | | | |l| | | | | | | | | | |]; try by apply extend_under_ahead.
  simpl in Hd. destruct (is_leaf_label l).
  - destruct (mayRestOn s (le_Target l)); [|by apply extend_under_ahead].
    unfold state_over. rewrite Hd. pose proof (markOf_nonempty (le_Target l)) as Hmk.
    unfold mark. rewrite !decide_False //. unfold ahead, under_pass. rewrite Hs length_app /=.
    split_and!; try done; [by rewrite Nat.add_1_r|]. intros _. rewrite -app_assoc /=. split_and!; try done.
    + change (ELabel l :: es') with ([ELabel l] ++ es'). rewrite app_assoc. apply under_over_mono.
    + right. split; [|done]. apply under_over_tip_before. rewrite length_app /=. lia.
  - assert (rl_marked st' = (durable_over s es).1) as Hm.
    { destruct Hah as (_ & -> & _). unfold state_over. destruct (durable_over s es) as [m a].
      by destruct (decide (m = "")). }
    rewrite Hm. destruct (_ && _ && _) eqn:Hc; [|by apply extend_under_ahead].
    unfold state_over. rewrite Hd /mark /= length_app /=.
    split_and!; simpl; try done; by rewrite Nat.add_1_r.
Qed.

(** Bringing the state of a prefix up to the session's entries line by line
    gives the state of one pass over all of them. *)
Lemma catch_up s es es' :
  tree (s_entries s) -> s_entries s = es ++ es' ->
  foldl (extend s) (state_over s es) (seq (length es) (length es')) = state_over s (s_entries s).
Proof.
  intros Ht Hs.
  cut (forall es es' st', s_entries s = es ++ es' -> ahead es es' (state_over s es) st' ->
       foldl (extend s) st' (seq (length es) (length es')) = state_over s (s_entries s)).
  { intros Hcut. apply (Hcut es es'); [done|]. apply ahead_refl. }
  clear Hs es es'. intros es es'. revert es.
  induction es' as [|e es' IH]; intros es st' Hs Hah; simpl.
  - rewrite app_nil_r in Hs. rewrite Hs. destruct Hah as (Hn & Hm & Ha & Hnone & Hsome).
    rewrite app_nil_r in Hsome. destruct st' as [n m a u t]. unfold state_over in *.
    destruct (durable_over s es) as [m0 a0].
    destruct (decide (m0 = "")) as [Hm0|Hm0]; simpl in *; [by apply Hnone|].
    destruct (Hsome Hm0) as (H1 & H2 & H3). subst. f_equal; [set_solver|]. by destruct H3 as [->|[_ ->]].
  - assert (S (length es) = length (es ++ [e])) as -> by (rewrite length_app /=; lia).
    apply IH; [by rewrite -app_assoc|]. apply extend_ahead; [by rewrite -Hs|done|done].
Qed.

(** The state a session keeps is that of its first [rl_n] lines. *)
Definition read_inv s : Prop :=
  forall st, s_read s = Some st ->
  rl_n st <= length (s_entries s) /\ st = state_over s (take (rl_n st) (s_entries s)).

Lemma readCaughtUp_correct s :
  wf s -> read_inv s -> readCaughtUp s = readLeafState s.
Proof.
  intros Hw Hr. unfold readCaughtUp. rewrite readLeafState_over.
  assert (forall n, rl_n (state_over s (take n (s_entries s))) = length (take n (s_entries s))) as Hn.
  { intros n. unfold state_over. destruct (durable_over _ _). by destruct (decide _). }
  destruct (s_read s) as [st|] eqn:Hst.
  - destruct (Hr _ Hst) as [Hle Heq]. rewrite decide_False; [|lia]. rewrite {1}Heq.
    rewrite -(catch_up s (take (rl_n st) (s_entries s)) (drop (rl_n st) (s_entries s)));
      [|apply Hw|by rewrite take_drop].
    f_equal. f_equal; [rewrite length_take; lia|by rewrite length_drop].
  - pose proof (Hn (length (s_entries s))) as Hl. rewrite firstn_all in Hl.
    by rewrite Hl Nat.sub_diag.
Qed.

Lemma read_inv_readCaughtUp s :
  wf s -> read_inv s -> read_inv (set_read (Some (readCaughtUp s)) s).
Proof.
  intros Hw Hr st [= <-]. rewrite readCaughtUp_correct // readLeafState_over. simpl.
  assert (rl_n (state_over s (s_entries s)) = length (s_entries s)) as ->.
  { unfold state_over. destruct (durable_over _ _). by destruct (decide _). }
  split; [done|]. by rewrite firstn_all.
Qed.

Lemma read_inv_add s e :
  unnamed (s_entries s) (eid e) -> read_inv s -> read_inv (add s e).
Proof.
  intros Hse Hr st Hst. simpl in Hst. destruct (Hr _ Hst) as [Hle Heq]. simpl. split.
  - rewrite length_app. lia.
  - rewrite take_app_le // state_over_add //. intros l Hl. apply Hse. eapply elem_of_take in Hl as (i & Hi & _). by eapply list_elem_of_lookup_2.
Qed.

End LeafLemmas.
