(* ===== verification/LeafRefine.v ===== *)
(** * What the leaf rules promise

    [resolveLeaf] against its specification (the newest entry in file order
    that descends from the mark and sits after it), the leaf labels a store of
    lines writes ([LeafMarkNeeded], [LeafMarkBefore]) against what a reader of
    the lines then resolves, and the head compare-and-swap ([headLabel]). *)
From S2P Require Import Prelude Entry Header Tree Leaf TreeWf LeafLemmas.
Open Scope session_scope.

Section LeafRefine.
Context {OR : OpenResponses}.
Implicit Types (s : Session) (e : Entry) (es : list Entry).

(** ** Specifications *)

(** [t] is the universal root or an entry on the path to [id]. *)
Definition on_path s (t id : string) : Prop := t = "" \/ t ∈ ids (path s id).

#[export] Instance on_path_dec s t id : Decision (on_path s t id).
Proof. unfold on_path. apply _. Defined.

(** The newest of the entries after line [at_] that descend from [t]. *)
Definition newest_after s (t : string) (at_ : Z) : option string :=
  last (filter (on_path s t) (ids (drop (Z.to_nat (at_ + 1)) (s_entries s)))).

(** ** Lemmas *)

Lemma mayRestOn_in s t : wf s -> mayRestOn s t = true -> t = "" \/ t ∈ ids (s_entries s).
Proof.
  intros Hw. unfold mayRestOn. destruct (decide (t = "")); [auto|].
  destruct (s_byID s !! t) eqn:He; [|done]. right.
  apply wf_lookup in He as [He <-]; [|done]. by apply list_elem_of_fmap_2.
Qed.

Lemma notOnLabel_rest s t : wf s -> mayRestOn s t = true -> notOnLabel s t = t.
Proof.
  intros Hw Hr. unfold notOnLabel.
  assert (off_label s (S (length (s_entries s))) t = t) as ->.
  { simpl. unfold mayRestOn in Hr. destruct (decide (t = "")); [done|].
    destruct (s_byID s !! t) as [x|]; [|done].
    destruct (_ && _ && _); [done|]. apply negb_true_iff in Hr. by rewrite Hr. }
  unfold mayRestOn, hasBase in *. destruct (decide (t = "")) as [->|Hne].
  { bool_prop. by rewrite Hr. }
  destruct (s_byID s !! t) as [x|]; [|done].
  rewrite (bool_decide_eq_false_2 (t = "")) //=.
  rewrite (andb_comm (bool_decide (t ∈ _))) andb_assoc.
  by destruct (_ && _ && _).
Qed.

Lemma unmark_markOf t : t <> rootMark -> unmark (markOf t) = t.
Proof.
  intros Ht. unfold unmark, markOf. destruct (decide (t = "")) as [->|]; [done|].
  by rewrite decide_False.
Qed.

(** The leaf [Extend] and [LeafMarkNeeded] read off the kept state is the one
    [resolveLeaf] computes. *)
Lemma leaf_of_readLeafState s e :
  last (s_entries s) = Some e -> leaf_of_state s (readLeafState s) (eid e) = resolveLeaf s.
Proof.
  intros He. unfold leaf_of_state, resolveLeaf, readLeafState. rewrite He.
  destruct (durableLeafAt s) as [m a]. unfold mark, set_n.
  by destruct (decide (m = "")); simpl; [rewrite decide_True|rewrite decide_False].
Qed.

Lemma under_of_unmark m x : m <> "" -> x ∈ under_of m -> goodID x -> x = unmark m.
Proof.
  unfold under_of, unmark. intros Hm. destruct (decide (m = rootMark)) as [->|]; unfold goodID; set_solver.
Qed.

Lemma under_of_self m : m <> "" -> m ∈ under_of m /\ unmark m ∈ under_of m.
Proof. unfold under_of, unmark. intros Hm. destruct (decide (m = rootMark)); set_solver. Qed.

(** What one pass finds: the descendants of the mark, and among those after
    its line the newest. *)
Lemma under_over_spec s es es' m at_ :
  wf s -> s_entries s = es ++ es' -> m <> "" -> m = rootMark \/ m ∈ ids (s_entries s) ->
  forall x, x ∈ ids es ->
    x ∈ (under_over es m at_).1 <-> on_path s (unmark m) x.
Proof.
  intros Hw Hs Hm Hin. revert es' Hs.
  induction es as [|e es IH] using rev_ind; intros es' Hs x; [set_solver|].
  rewrite -app_assoc /= in Hs. specialize (IH _ Hs).
  pose proof (wf_tree _ Hw) as Ht. rewrite Hs in Ht.
  apply tree_mid in Ht as (Hg & Hn & Hp & Ht0).
  assert (e ∈ s_entries s) as Hes by (rewrite Hs; set_solver).
  assert (forall y, y ∈ (under_over es m at_).1 -> y = eid e -> y = unmark m) as Hnew.
  { intros y Hy ->. apply (under_over_new [] es) in Hy as [Hy|Hy]; [|done].
    apply under_of_unmark; auto. }
  assert (eparent e ∈ (under_over es m at_).1 <-> on_path s (unmark m) (eparent e)) as HP.
  { destruct Hp as [Hp|Hp]; [|by apply IH]. rewrite Hp.
    unfold on_path. rewrite path_nil. simpl.
    destruct (decide (m = rootMark)) as [->|Hr].
    - split; [by left|]. intros _. apply (under_over_mono [] es). simpl. unfold under_of. set_solver.
    - unfold unmark. rewrite decide_False //. split; [|set_solver].
      intros Hy. apply (under_over_new [] es) in Hy as [Hy|Hy].
      + unfold under_over, under_of in Hy. simpl in Hy. rewrite decide_False // in Hy. left. set_solver.
      + apply list_elem_of_fmap in Hy as (y & Hy & Hyin).
        destruct (tree_goodID es y Ht0 Hyin) as [Hgy _]. congruence. }
  assert (eid e ∈ (under_over (es ++ [e]) m at_).1 <-> on_path s (unmark m) (eid e)) as Hee.
  { rewrite under_over_snoc. unfold under_step, on_path. rewrite path_step // ids_app.
    rewrite elem_of_app list_elem_of_singleton.
    assert (unmark m = eid e -> unmark m ∈ (under_over es m at_).1) as Hself.
    { intros _. apply (under_over_mono [] es). simpl. by apply under_of_self. }
    unfold on_path in HP. destruct (decide (eparent e ∈ _)) as [Hd|Hd]; simpl.
    - split; [tauto|set_solver].
    - split.
      + intros Hy. right. right. symmetry. by apply Hnew.
      + intros [?|[?|Hself']]; [tauto|tauto|]. rewrite -Hself'. auto. }
  rewrite ids_app elem_of_app list_elem_of_singleton. intros [Hx| ->]; [|done].
  rewrite -IH // under_over_snoc. unfold under_step. destruct (decide _); [|done]. simpl.
  assert (x <> eid e) by (intros ->; done). set_solver.
Qed.

(** The mark's own line, when it lies after the lines passed, is the first of
    those that descend from it. *)
Lemma none_before_mark s es e es' n :
  wf s -> s_entries s = es ++ e :: es' ->
  filter (on_path s (eid e)) (ids (drop n es)) = [].
Proof.
  intros Hw Hs. pose proof (wf_tree _ Hw) as Ht. rewrite Hs in Ht.
  apply tree_mid in Ht as (Hg & Hn & _ & _).
  apply filter_none. intros x Hx [Hox|Hox]; [by apply Hg in Hox|].
  apply list_elem_of_fmap in Hx as (z & -> & Hz). apply drop_in in Hz. apply Hn. apply list_elem_of_fmap in Hox as (y & -> & Hy).
  apply list_elem_of_fmap_2. eapply path_prefix; [done..| |done]. by apply list_elem_of_fmap_2.
Qed.

Lemma under_over_tip s es es' m at_ :
  wf s -> s_entries s = es ++ es' -> m <> "" -> m = rootMark \/ m ∈ ids (s_entries s) ->
  unmark (under_over es m at_).2 =
  default (unmark m) (last (filter (on_path s (unmark m)) (ids (drop (Z.to_nat (at_ + 1)) es)))).
Proof.
  intros Hw Hs Hm Hin. revert es' Hs.
  induction es as [|e es IH] using rev_ind; intros es' Hs; [by rewrite drop_nil|].
  pose proof (under_over_spec s _ es' m at_ Hw Hs Hm Hin (eid e)) as Hspec.
  rewrite -app_assoc /= in Hs. specialize (IH _ Hs).
  pose proof (wf_tree _ Hw) as Ht. rewrite Hs in Ht. apply tree_mid in Ht as (Hg & Hn & _ & _).
  rewrite ids_app elem_of_app list_elem_of_singleton in Hspec. specialize (Hspec (or_intror eq_refl)).
  rewrite under_over_snoc in Hspec |- *. rewrite drop_snoc_le. unfold under_step in *.
  destruct (decide (Z.to_nat (at_ + 1) <= length es)) as [Hle|Hgt].
  2:{ rewrite drop_ge in IH; last lia. destruct (decide (eparent e ∈ _)); [|done].
      simpl. rewrite decide_False //. lia. }
  rewrite ids_app filter_app. destruct (decide (eparent e ∈ (under_over es m at_).1)) as [Hd|Hd].
  - simpl in *. rewrite decide_True; last lia.
    rewrite filter_cons_True; last (apply Hspec; set_solver). rewrite last_snoc /=.
    unfold unmark. rewrite decide_False //. apply Hg.
  - destruct (decide (on_path s (unmark m) (eid e))) as [Ho|Ho].
    2:{ rewrite (filter_cons_False _ _ _ Ho). by rewrite app_nil_r. }
    assert (eid e = unmark m) as Heq.
    { apply Hspec in Ho. apply (under_over_new [] es) in Ho as [Ho|Ho]; [|done]. by apply under_of_unmark. }
    rewrite IH (filter_cons_True _ _ _ Ho) last_snoc -Heq /=. by rewrite (none_before_mark _ _ _ es').
Qed.

Lemma durable_over_mark s es :
  wf s -> (durable_over s es).1 <> "" ->
  (durable_over s es).1 = rootMark \/ (durable_over s es).1 ∈ ids (s_entries s).
Proof.
  intros Hw. induction es as [|e es IH] using rev_ind; [done|].
  rewrite durable_over_snoc. unfold durable_step.
  destruct e as [| | | | |l| | | | | | | | | | |]; try exact IH.
  destruct (is_leaf_label l).
  - destruct (mayRestOn s (le_Target l)) eqn:Hr; [|exact IH]. intros _. simpl. unfold markOf.
    destruct (decide (le_Target l = "")); [by left|right].
    by destruct (mayRestOn_in _ _ Hw Hr).
  - destruct (_ && _ && _); [done|exact IH].
Qed.

(** ** The leaf never rests on a leaf label *)

Lemma off_label_chain s id rev fuel :
  chain s id rev -> length rev <= fuel ->
  off_label s fuel id = "" \/
  exists e, s_byID s !! off_label s fuel id = Some e /\ entry_is_leaf_label e = false /\ off_label s fuel id <> "".
Proof.
  intros Hc. revert fuel. induction Hc as [|e rev Hne He Hc IH]; intros fuel Hl.
  { left. by destruct fuel. }
  simpl in Hl. destruct fuel as [|fuel]; [lia|]. simpl.
  rewrite decide_False // He. destruct (entry_is_leaf_label e) eqn:Hlab; [apply IH; lia|].
  right. eauto.
Qed.

Lemma mayRestOn_Some s id e :
  id <> "" -> s_byID s !! id = Some e ->
  mayRestOn s id =
    negb (hasBase s && bool_decide (id <> h_Base (s_header s)) && bool_decide (id ∈ s_prefix s))
    && negb (entry_is_leaf_label e).
Proof. intros Hne He. unfold mayRestOn. rewrite decide_False // He. by destruct (_ && _ && _). Qed.

Lemma mayRestOn_base s :
  hasBase s = true ->
  (exists b, s_byID s !! h_Base (s_header s) = Some b /\ entry_is_leaf_label b = false) ->
  mayRestOn s (h_Base (s_header s)) = true.
Proof.
  intros Hb (b & Hbb & Hbl). rewrite (mayRestOn_Some _ _ b) //; last by (unfold hasBase in Hb; bool_prop).
  rewrite Hbl (bool_decide_eq_false_2 (_ <> _)); [|naive_solver]. by rewrite andb_false_r.
Qed.

Lemma notOnLabel_mayRest s id :
  wf s -> id = "" \/ id ∈ ids (s_entries s) ->
  (hasBase s = true -> exists b, s_byID s !! h_Base (s_header s) = Some b /\ entry_is_leaf_label b = false) ->
  mayRestOn s (notOnLabel s id) = true.
Proof.
  intros Hw Hid Hb. unfold notOnLabel.
  assert (exists rev, chain s id rev /\ length rev <= length (s_entries s)) as (rev & Hc & Hl).
  { destruct Hid as [->|Hid]; [exists []; split; [constructor|simpl; lia]|by apply wf_chain]. }
  destruct (off_label_chain s id rev (S (length (s_entries s))) Hc) as [Ho|(e & He & Hlab & Hne)]; [lia|..].
  - rewrite Ho /=. destruct (hasBase s) eqn:Hbase; simpl; [apply mayRestOn_base; auto|].
    unfold mayRestOn, hasBase in *. bool_prop. simpl. by apply bool_decide_eq_true.
  - rewrite (bool_decide_eq_false_2 (_ = "")) //=.
    destruct (hasBase s && _) eqn:Hb'; [apply andb_true_iff in Hb' as [Hb' _]; apply mayRestOn_base; auto|].
    rewrite (mayRestOn_Some _ _ _ Hne He) Hlab. by rewrite -andb_assoc (andb_comm (bool_decide (_ <> _))) Hb'.
Qed.

(** The place a mark in force is read at, before [notOnLabel]. *)
Lemma under_tip_in s m a :
  wf s -> durableLeafAt s = (m, a) -> m <> "" ->
  unmark (under_pass s m a).2 = "" \/ unmark (under_pass s m a).2 ∈ ids (s_entries s).
Proof.
  intros Hw Hd Hm. pose proof (durable_over_mark s (s_entries s) Hw) as Hin.
  unfold durableLeafAt in Hd. unfold durable_over in Hin. rewrite Hd in Hin. specialize (Hin Hm).
  simpl in Hin. unfold under_pass. fold (under_over (s_entries s) m a).
  rewrite (under_over_tip s _ [] m a) // ?app_nil_r //.
  destruct (last (filter _ _)) as [x|] eqn:Hx; simpl.
  - right. apply last_snoc_inv in Hx as (l & Hx).
    assert (x ∈ l ++ [x]) as Hf by set_solver. rewrite -Hx in Hf.
    apply list_elem_of_filter in Hf as [_ Hf]. apply list_elem_of_fmap in Hf as (y & -> & Hy).
    apply list_elem_of_fmap_2. by eapply drop_in.
  - unfold unmark. destruct (decide (m = rootMark)); [by left|]. by destruct Hin; [|right].
Qed.

(** Where [resolveLeaf] starts looking up from. *)
Lemma resolveLeaf_shape s e :
  wf s -> last (s_entries s) = Some e ->
  exists id, resolveLeaf s = notOnLabel s id /\ (id = "" \/ id ∈ ids (s_entries s)).
Proof.
  intros Hw He. unfold resolveLeaf. rewrite He. destruct (durableLeafAt s) as [m a] eqn:Hd.
  destruct (decide (m = "")) as [->|Hm].
  - exists (eid e). split; [done|]. right. apply list_elem_of_fmap_2. apply last_snoc_inv in He as (l & ->). set_solver.
  - eexists. split; [done|]. by apply (under_tip_in s m a).
Qed.

(** C22: what [Read] resolves a session's leaf to is what the format says: with
    no mark in force, the last line; otherwise the newest entry in file order
    that descends from the mark and sits after the mark's line, the mark itself
    when there is none; and from there up off any leaf label. *)
Theorem resolveLeaf_spec s (m : string) (at_ : Z) :
  wf s -> durableLeafAt s = (m, at_) ->
  resolveLeaf s =
  match last (s_entries s) with
  | None => ""
  | Some e =>
      notOnLabel s (if decide (m = "") then eid e
                    else default (unmark m) (newest_after s (unmark m) at_))
  end.
Proof.
  intros Hw Hd. unfold resolveLeaf. destruct (last (s_entries s)) as [e|]; [|done].
  rewrite Hd. destruct (decide (m = "")) as [->|Hm]; [done|]. f_equal.
  pose proof (durable_over_mark s (s_entries s) Hw) as Hin.
  unfold durableLeafAt in Hd. unfold durable_over in Hin. rewrite Hd in Hin.
  unfold newest_after. rewrite -(under_over_tip s _ []) // ?app_nil_r //. by apply Hin.
Qed.

(** The leaf a file is read with never rests on a leaf label, nor above the
    base of a session that has one: [resolveLeaf] gives a place [mayRestOn]
    allows, for every session whose base, if it names one, is an entry it holds
    that is not a leaf label. *)
Lemma resolveLeaf_mayRest s :
  wf s -> s_entries s <> [] ->
  (hasBase s = true ->
   exists b, s_byID s !! h_Base (s_header s) = Some b /\ entry_is_leaf_label b = false) ->
  mayRestOn s (resolveLeaf s) = true.
Proof.
  intros Hw Hne Hb. destruct (last (s_entries s)) as [e|] eqn:He; [|by apply last_None in He].
  destruct (resolveLeaf_shape s e Hw He) as (id & -> & Hid). by apply notOnLabel_mayRest.
Qed.

(** ** After a leaf label *)

Lemma leaf_target_fresh s t e :
  wf s -> mayRestOn s t = true -> eid e ∉ ids (s_entries s) -> goodID (eid e) -> t <> eid e.
Proof. intros Hw Hr Hn [Hg _] ->. by destruct (mayRestOn_in _ _ Hw Hr). Qed.

Lemma leaf_target_good s t : wf s -> mayRestOn s t = true -> t <> rootMark.
Proof.
  intros Hw Hr ->. destruct (mayRestOn_in _ _ Hw Hr) as [?|Hin]; [done|].
  apply list_elem_of_fmap in Hin as (x & Hx & Hin). apply (tree_goodID _ _ (wf_tree _ Hw)) in Hin as [_ Hg]. done.
Qed.

(** A leaf label puts its mark in force at its own line. *)
Lemma durableLeafAt_label s l :
  wf s -> goodID (eid (ELabel l)) -> eid (ELabel l) ∉ ids (s_entries s) ->
  is_leaf_label l = true -> mayRestOn s (le_Target l) = true ->
  durableLeafAt (add s (ELabel l)) = (markOf (le_Target l), Z.of_nat (length (s_entries s))).
Proof.
  intros Hw Hg Hn Hl Hr. unfold durableLeafAt. simpl. rewrite foldl_idx_snoc /= Hl.
  rewrite mayRestOn_add; [by rewrite Hr|by apply (leaf_target_fresh s)].
Qed.

(** A session whose mark in force sits on its last line resolves to the mark,
    and still does when an entry that does not descend from it follows. *)
Lemma resolveLeaf_marked s m at_ t :
  wf s -> s_entries s <> [] -> durableLeafAt s = (m, at_) -> m <> "" -> unmark m = t ->
  mayRestOn s t = true ->
  (forall e, e ∈ drop (Z.to_nat (at_ + 1)) (s_entries s) -> ~ on_path s t (eid e)) ->
  resolveLeaf s = t.
Proof.
  intros Hw Hne Hd Hm Ht Hr Hafter. rewrite (resolveLeaf_spec s m at_) //.
  destruct (last (s_entries s)) eqn:He; [|by apply last_None in He].
  rewrite decide_False // Ht. unfold newest_after. rewrite filter_none; [by apply notOnLabel_rest|].
  intros x Hx. apply list_elem_of_fmap in Hx as (y & -> & Hy). auto.
Qed.

Lemma resolveLeaf_label s l :
  wf s -> goodID (eid (ELabel l)) -> eid (ELabel l) ∉ ids (s_entries s) ->
  (eparent (ELabel l) = "" \/ eparent (ELabel l) ∈ ids (s_entries s)) ->
  is_leaf_label l = true -> mayRestOn s (le_Target l) = true ->
  resolveLeaf (add s (ELabel l)) = le_Target l.
Proof.
  intros Hw Hg Hn Hp Hl Hr.
  eapply resolveLeaf_marked; [by apply wf_add| | |apply markOf_nonempty|apply unmark_markOf; by apply (leaf_target_good s)|..].
  - simpl. by destruct (s_entries s).
  - by apply durableLeafAt_label.
  - rewrite mayRestOn_add //. by apply (leaf_target_fresh s).
  - simpl. rewrite drop_ge; [set_solver|rewrite length_app /=; lia].
Qed.

(** [Extend]'s mark: the label [LeafMarkNeeded] and [LeafMarkBefore] return,
    once its envelope has been filled in. *)
Definition marks_leaf s (l : LabelEntry) : Prop :=
  le_Target l = s_leaf s /\ is_leaf_label l = true /\ eparent (ELabel l) = s_leaf s /\
  goodID (eid (ELabel l)) /\ eid (ELabel l) ∉ ids (s_entries s).

Lemma meets_leaf_chain s p rev fuel :
  s_leaf s <> "" -> chain s p rev -> length rev <= fuel ->
  meets_leaf s fuel p = bool_decide (s_leaf s ∈ ids rev).
Proof.
  intros Hl Hc. revert fuel. induction Hc as [|e rev Hne He Hc IH]; intros fuel Hlen.
  { by destruct fuel. }
  simpl in Hlen. destruct fuel as [|fuel]; [lia|]. simpl. rewrite decide_False // He.
  destruct (decide (eid e = s_leaf s)) as [->|Hn]; [rewrite bool_decide_eq_true_2; set_solver|].
  rewrite IH; [|lia]. apply bool_decide_ext. set_solver.
Qed.

Lemma meets_leaf_spec s p :
  wf s -> s_leaf s <> "" -> p = "" \/ p ∈ ids (s_entries s) ->
  meets_leaf s (S (length (s_entries s))) p = bool_decide (on_path s (s_leaf s) p).
Proof.
  intros Hw Hl Hp.
  assert (exists rev, chain s p rev /\ length rev <= length (s_entries s)) as (rev & Hc & Hlen).
  { destruct Hp as [->|Hp]; [exists []; split; [constructor|simpl; lia]|by apply wf_chain]. }
  rewrite (meets_leaf_chain _ _ rev) //; [|lia]. apply bool_decide_ext.
  unfold on_path. rewrite (path_chain _ _ _ Hc Hlen) /ids fmap_reverse elem_of_reverse. naive_solver.
Qed.

(** [LeafMarkNeeded] is exact.  When it asks for no label, a reader of the
    lines resolves the head the session has; when it returns one, the reader
    would not, and appending the label, under whatever id it gets, makes it so
    and leaves the live head where it is. *)
Lemma LeafMarkNeeded_exact s :
  wf s -> read_inv s -> s_entries s <> [] -> mayRestOn s (s_leaf s) = true ->
  match (LeafMarkNeeded s).2 with
  | None => resolveLeaf s = s_leaf s
  | Some label =>
      resolveLeaf s <> s_leaf s /\
      forall l, le_Target l = le_Target label -> le_Label l = le_Label label ->
        eparent (ELabel l) = eparent (ELabel label) ->
        goodID (eid (ELabel l)) -> eid (ELabel l) ∉ ids (s_entries s) ->
        resolveLeaf (add s (ELabel l)) = s_leaf s /\
        s_leaf (moveLeafFor (add s (ELabel l)) (ELabel l)) = s_leaf s
  end.
Proof.
  intros Hw Hread Hne Hr. unfold LeafMarkNeeded. rewrite Hr.
  destruct (last (s_entries s)) as [e|] eqn:He; [|by apply last_None in He].
  rewrite readCaughtUp_correct //. simpl.
  assert (notOnLabel s (if decide (rl_marked (readLeafState s) = "") then eid e
                        else unmark (rl_tip (readLeafState s))) = resolveLeaf s) as ->.
  { rewrite -(leaf_of_readLeafState s e He). unfold leaf_of_state. by destruct (decide _). }
  destruct (decide (resolveLeaf s = s_leaf s)) as [Heq|Hneq]; [done|]. split; [done|].
  simpl. intros l Ht Hlab Hp Hg Hn.
  assert (is_leaf_label l = true) as Hl by by rewrite /is_leaf_label Hlab.
  pose proof (mayRestOn_in _ _ Hw Hr) as Hin. split.
  - rewrite -Ht. apply resolveLeaf_label; try done; [by rewrite Hp|by rewrite Ht].
  - unfold moveLeafFor. rewrite Hl. destruct (mayRestOn (add s _) _); [exact Ht|done].
Qed.

Lemma not_clearing s e acc i :
  entry_is_leaf_label e = false -> (forall l, e = ELabel l -> le_Label l <> None) ->
  durable_step s acc i e = acc.
Proof.
  intros Hl Hn. destruct e as [| | | | |l| | | | | | | | | | |]; try done. simpl in *.
  rewrite Hl bool_decide_eq_false_2 //. by apply Hn.
Qed.

Lemma on_path_add s e t id :
  wf s -> eid e ∉ ids (s_entries s) -> id = "" \/ id ∈ ids (s_entries s) ->
  on_path (add s e) t id <-> on_path s t id.
Proof. intros. unfold on_path. by rewrite path_add_old. Qed.

Lemma on_path_new s e t :
  wf s -> goodID (eid e) -> eid e ∉ ids (s_entries s) -> t <> eid e ->
  eparent e = "" \/ eparent e ∈ ids (s_entries s) ->
  on_path (add s e) t (eid e) <-> on_path s t (eparent e).
Proof.
  intros. unfold on_path. rewrite path_add_new // ids_app elem_of_app list_elem_of_singleton. naive_solver.
Qed.

(** A leaf label on the head, then an entry off the head: both files read back
    with the head where it is. *)
Lemma resolveLeaf_label_then s l e :
  wf s -> marks_leaf s l -> mayRestOn s (s_leaf s) = true ->
  goodID (eid e) -> eid e ∉ ids (s_entries s) -> eid e <> eid (ELabel l) ->
  eparent e = "" \/ eparent e ∈ ids (s_entries s) ->
  entry_is_leaf_label e = false -> (forall l, e = ELabel l -> le_Label l <> None) ->
  ~ on_path s (s_leaf s) (eparent e) ->
  resolveLeaf (add (add s (ELabel l)) e) = s_leaf s.
Proof.
  intros Hw (Ht & Hl & Hpl & Hgl & Hnl) Hr Hg Hn Hne Hp Hlab Hnull Hoff.
  set (s1 := add s (ELabel l)).
  assert (wf s1) as Hw1 by (apply wf_add; try done; rewrite Hpl; by apply mayRestOn_in).
  assert (eid e ∉ ids (s_entries s1)) as Hn1 by (simpl; rewrite ids_app; set_solver).
  assert (eparent e = "" \/ eparent e ∈ ids (s_entries s1)) as Hp1 by (simpl; rewrite ids_app; set_solver).
  assert (mayRestOn s1 (s_leaf s) = true) as Hr1.
  { rewrite mayRestOn_add //. by apply (leaf_target_fresh s). }
  assert (s_leaf s <> eid e) as Hfe by by apply (leaf_target_fresh s).
  eapply (resolveLeaf_marked _ (markOf (s_leaf s)) (Z.of_nat (length (s_entries s)))).
  - by apply wf_add.
  - simpl. by destruct (s_entries s).
  - unfold durableLeafAt. simpl. rewrite !foldl_idx_snoc not_clearing //= Hl Ht.
    by rewrite mayRestOn_add // Hr1.
  - apply markOf_nonempty.
  - apply unmark_markOf. by apply (leaf_target_good s).
  - rewrite mayRestOn_add //.
  - simpl. rewrite -app_assoc drop_app_ge; [|lia].
    replace (_ - _) with 1 by lia. simpl. intros x. rewrite list_elem_of_singleton => ->.
    by rewrite on_path_new // on_path_add.
Qed.

Lemma on_path_self s t : wf s -> t ∈ ids (s_entries s) -> on_path s t t.
Proof.
  intros Hw Ht. apply list_elem_of_fmap in Ht as (x & -> & Hx). right.
  rewrite path_step // ids_app. set_solver.
Qed.

Lemma off_label_add s e id rev fuel fuel' :
  wf s -> eid e ∉ ids (s_entries s) -> chain s id rev -> length rev <= fuel -> length rev <= fuel' ->
  off_label (add s e) fuel' id = off_label s fuel id.
Proof.
  intros Hw Hn Hc. revert fuel fuel'. induction Hc as [|x rev Hne Hx Hc IH]; intros [|fuel] [|fuel'] Hl Hl'; try done.
  all: simpl in Hl, Hl'; try lia. cbn [off_label]. rewrite !(decide_False (P := _ = "")) // Hx.
  assert (eid x ∈ ids (s_entries s)) as Hin.
  { apply list_elem_of_fmap_2. by apply (wf_lookup s) in Hx as [? _]. }
  simpl. rewrite lookup_insert_ne ?Hx; [|intros Heq; by rewrite Heq in Hn]. destruct (entry_is_leaf_label x); [|done]. apply IH; lia.
Qed.

Lemma notOnLabel_add s e id :
  wf s -> eid e ∉ ids (s_entries s) -> id = "" \/ id ∈ ids (s_entries s) ->
  notOnLabel (add s e) id = notOnLabel s id.
Proof.
  intros Hw Hn Hid. unfold notOnLabel.
  assert (exists rev, chain s id rev /\ length rev <= length (s_entries s)) as (rev & Hc & Hl).
  { destruct Hid as [->|Hid]; [exists []; split; [constructor|simpl; lia]|by apply wf_chain]. }
  rewrite (off_label_add s e id rev (S (length (s_entries s)))) //; simpl; rewrite ?length_app; try lia.
  unfold hasBase. by rewrite h_Base_add.
Qed.

(** An entry off the marked branch that touches no mark changes nothing a
    reader resolves. *)
Lemma resolveLeaf_off_branch s e :
  wf s -> s_entries s <> [] -> eid e ∉ ids (s_entries s) -> unnamed (s_entries s) (eid e) ->
  entry_is_leaf_label e = false -> (forall l, e = ELabel l -> le_Label l <> None) ->
  (durableLeafAt s).1 <> "" ->
  eparent e ∉ (under_pass s (durableLeafAt s).1 (durableLeafAt s).2).1 ->
  resolveLeaf (add s e) = resolveLeaf s.
Proof.
  intros Hw Hne Hn Hset Hlab Hnull Hm Hoff.
  pose proof (under_tip_in s _ _ Hw (surjective_pairing (durableLeafAt s)) Hm) as Hin.
  assert (durableLeafAt (add s e) = durableLeafAt s) as Hd.
  { unfold durableLeafAt. simpl. rewrite foldl_idx_snoc not_clearing //.
    by apply durable_over_add. }
  unfold resolveLeaf at 1. rewrite Hd. simpl. rewrite last_snoc.
  unfold resolveLeaf. destruct (last (s_entries s)) eqn:He; [|by apply last_None in He].
  destruct (durableLeafAt s) as [m a]. simpl in *. rewrite !decide_False //.
  unfold under_pass at 1. simpl. rewrite foldl_idx_snoc. unfold under_step at 1.
  rewrite (decide_False (P := _ ∈ _)) //. by apply notOnLabel_add.
Qed.


(** The head compare-and-swap.  [headLabel] succeeds exactly when the leaf
    is the expected one and the head may rest on the target; the label it then
    returns, once appended, moves the live leaf to the target and is what a
    reader of the lines resolves.  A head that moved is [ErrHeadMoved] before
    any other refusal, and [ErrHeadTarget] is a leaf label and nothing else. *)
Lemma headLabel_cas s (expected to : string) :
  wf s ->
  match headLabel s expected to with
  | Ok label =>
      s_leaf s = expected /\ mayRestOn s to = true /\
      forall l, le_Target l = le_Target label -> le_Label l = le_Label label ->
        eparent (ELabel l) = "" \/ eparent (ELabel l) ∈ ids (s_entries s) ->
        goodID (eid (ELabel l)) -> eid (ELabel l) ∉ ids (s_entries s) ->
        outcomeFor s (ELabel l) = LeafMoved /\
        s_leaf (moveLeafFor (add s (ELabel l)) (ELabel l)) = to /\
        resolveLeaf (add s (ELabel l)) = to
  | Err e =>
      s_leaf s <> expected /\ e = ErrHeadMoved \/
      s_leaf s = expected /\ mayRestOn s to = false /\
      (e = ErrNoEntry \/
       e = ErrHeadTarget /\ exists x, s_byID s !! to = Some x /\ entry_is_leaf_label x = true)
  end.
Proof.
  intros Hw. unfold headLabel.
  destruct (decide (s_leaf s = expected)) as [Heq|Hneq].
  2:{ rewrite bool_decide_eq_true_2 //=. by left. }
  rewrite bool_decide_eq_false_2 //=; last naive_solver.
  assert (forall label, mayRestOn s to = true -> le_Target label = to -> le_Label label = Some LeafLabel ->
    s_leaf s = expected /\ mayRestOn s to = true /\
      forall l, le_Target l = le_Target label -> le_Label l = le_Label label ->
        eparent (ELabel l) = "" \/ eparent (ELabel l) ∈ ids (s_entries s) ->
        goodID (eid (ELabel l)) -> eid (ELabel l) ∉ ids (s_entries s) ->
        outcomeFor s (ELabel l) = LeafMoved /\
        s_leaf (moveLeafFor (add s (ELabel l)) (ELabel l)) = to /\
        resolveLeaf (add s (ELabel l)) = to) as Hok.
  { intros label Hr Ht Hl. split_and!; [done..|]. rewrite Ht Hl. intros l Hlt Hll Hp Hg Hn.
    assert (is_leaf_label l = true) as Hlab by by rewrite /is_leaf_label Hll.
    unfold outcomeFor, moveLeafFor. rewrite Hlab Hlt Hr mayRestOn_add ?Hr; last by apply (leaf_target_fresh s).
    split_and!; [done..|]. rewrite -Hlt. apply resolveLeaf_label; try done. by rewrite Hlt. }
  destruct (decide (to = "")) as [->|Hto].
  - assert (mayRestOn s "" = negb (hasBase s)) as Hroot.
    { unfold mayRestOn, hasBase. simpl. destruct (decide (h_Base (s_header s) = "")) as [->|]; [done|].
      by rewrite bool_decide_eq_false_2 // bool_decide_eq_true_2. }
    rewrite Hroot in Hok |- *.
    destruct (hasBase s); cbn [negb refuse_if rbind]; [by auto|]. by apply (Hok (NewLabelEntry "" LeafLabel)).
  - destruct (s_byID s !! to) as [x|] eqn:Hx.
    2:{ unfold mayRestOn. rewrite decide_False // Hx. auto. }
    rewrite (mayRestOn_Some _ _ _ Hto Hx) in Hok |- *.
    destruct (hasBase s && _ && _); cbn [negb refuse_if rbind andb] in *; [by auto|].
    destruct (entry_is_leaf_label x) eqn:Hlab; cbn [negb refuse_if rbind andb] in *.
    + right. split_and!; eauto.
    + by apply (Hok (label_under to (NewLabelEntry to LeafLabel))).
Qed.
End LeafRefine.
