(* ===== verification/Calls.v ===== *)
(** * The calls of a path and what happened to them ([run.go])

    [Calls] replays a root-first path and collects, for every function call,
    its decisions, dispatches, result and output, with a note of each thing
    the format forbids.  The source's [*Call] pointers, shared by the slice it
    returns and the two maps it binds through, are positions in that slice. *)
From S2P Require Import Prelude Entry Header.
Open Scope session_scope.

(** The canonical form of a JSON document ([jcs.Transform]), or an error. *)
Class Canonicaliser := { Transform : RawMessage -> option RawMessage }.

Section Calls.
Context {OR : OpenResponses} {CA : Canonicaliser}.

(** [sameItem]: equal member for member, in canonical form. *)
Definition sameItem (a b : Item) : bool :=
  match marshalItem a, marshalItem b with
  | Some ja, Some jb =>
      match Transform ja, Transform jb with
      | Some ca, Some cb => bool_decide (ca = cb)
      | _, _ => false
      end
  | _, _ => false
  end.

(** The same for the items entries hold; encoding a nil item gives null. *)
Definition sameItem_opt (a b : option Item) : bool :=
  match a, b with
  | Some a, Some b => sameItem a b
  | None, None => true
  | _, _ => false
  end.

(** What the replay notes of a call that the format forbids, [None] when it
    met no such thing. *)
Record Violations := mkViolations {
  v_ended : option DecisionEntry;
  v_endedBy : option DispatchEntry;
  v_afterAnswer : option DecisionEntry;
  v_afterReject : option DecisionEntry;
  v_endAfterOutput : option DecisionEntry;
  v_rejectAfterDispatch : option DecisionEntry;
  v_dispatchAfterOutput : option DispatchEntry;
  v_badResult : option ResultEntry;
  v_afterResult : option Entry;
  v_outputMismatch : option ItemEntry
}.

Definition no_violations : Violations :=
  mkViolations None None None None None None None None None None.

Record Call := mkCall {
  c_Entry : ItemEntry;
  c_CallID : string;
  c_Arguments : string;
  c_Decisions : list DecisionEntry;
  c_Dispatch : option DispatchEntry;
  c_Dispatches : list DispatchEntry;
  c_Output : option ItemEntry;
  c_Withdrawn : list (DispatchEntry * DecisionEntry);
  c_Result : option ResultEntry;
  c_inPrefix : bool;
  c_dispatchedElsewhere : bool;
  c_sinceDecision : bool;
  c_dispatchedArgs : string;
  c_lastIsDispatch : bool;
  c_beforeSince : bool;
  c_beforeArgs : string;
  c_resultAfterLast : bool;
  c_answeredSinceResult : bool;
  c_violations : Violations
}.

(** [&Call{Entry: v, Call: it}]. *)
Definition newCall (v : ItemEntry) (callID args : string) : Call :=
  mkCall v callID args [] None [] None [] None false false false "" false false "" false false
    no_violations.

(** ** What the path says of a call *)

Definition Failed (c : Call) : bool :=
  match c_Output c with Some o => ie_Failed o | None => false end.

Definition Pending (c : Call) : bool := bool_decide (c_Output c = None).

Definition Copied (c : Call) : bool := bool_decide (is_Some (ie_CopiedFrom (c_Entry c))).

(** The latest decision has the verdict and no dispatch follows it. *)
Definition latestIs (c : Call) (verdict : string) : bool :=
  negb (c_sinceDecision c) &&
  match last (c_Decisions c) with
  | Some d => bool_decide (dc_Verdict d = verdict)
  | None => false
  end.

Definition hasVerdict (c : Call) (verdict : string) : bool :=
  existsb (fun d => bool_decide (dc_Verdict d = verdict)) (c_Decisions c).

Definition CallHeldNow (c : Call) : bool := latestIs c VerdictHold.
Definition Rejected (c : Call) : bool := hasVerdict c VerdictReject.
Definition Answered (c : Call) : bool := hasVerdict c VerdictAnswer.

Definition Returned (c : Call) : bool :=
  Pending c && bool_decide (is_Some (c_Result c)) && c_resultAfterLast c.

Definition InFlight (c : Call) : bool :=
  Pending c && bool_decide (0 < length (c_Dispatches c)) && negb (latestIs c VerdictHold)
  && negb (latestIs c VerdictAnswer) && negb (Returned c).

Definition IdempotencyKey (c : Call) : string :=
  match last (c_Dispatches c) with Some d => di_IdempotencyKey d | None => "" end.

Definition DispatchedArgs (c : Call) : string :=
  if decide (length (c_Dispatches c) = 0) then "" else c_dispatchedArgs c.

Definition From (c : Call) : list EntryRef :=
  match c_Output c with Some o => Parents (ie_Base o) | None => [] end.

(** The arguments of the last decision that rewrote them, an answer's passed
    over, else the call's own. *)
Definition Args (c : Call) : string :=
  match find (fun d => bool_decide (dc_Args d <> "") && bool_decide (dc_Verdict d <> VerdictAnswer))
             (reverse (c_Decisions c)) with
  | Some d => dc_Args d
  | None => c_Arguments c
  end.

(** The first decision that ended the call, a reject or an answer. *)
Definition endingDecision (c : Call) : option DecisionEntry :=
  find (fun d => bool_decide (dc_Verdict d = VerdictReject)
                 || bool_decide (dc_Verdict d = VerdictAnswer)) (c_Decisions c).

(** The decision withdraws the call's last dispatch. *)
Definition withdraws (c : Call) (d : DecisionEntry) : bool :=
  bool_decide (dc_Verdict d = VerdictReject) && dc_Withdrawn d && c_lastIsDispatch c
  && Pending c && bool_decide (0 < length (c_Dispatches c)).

Inductive CallState :=
  | CallCompleted | CallHeld | CallInFlight | CallNeverStarted
  | CallUnknown | CallAnswered | CallRejected | CallReturned.

#[export] Instance CallState_eq_dec : EqDecision CallState.
Proof. solve_decision. Defined.

Definition State (c : Call) (h : Header) : CallState :=
  if negb (Pending c) then CallCompleted
  else if Answered c then CallAnswered
  else if Rejected c then CallRejected
  else if Returned c then CallReturned
  else if CallHeldNow c then CallHeld
  else if bool_decide (is_Some (c_Dispatch c)) then CallInFlight
  else if HasRecord h TypeDispatch && negb (c_inPrefix c) && negb (c_dispatchedElsewhere c)
          && negb (Copied c) then CallNeverStarted
  else CallUnknown.

(** ** The replay *)

(** [if c.x == nil && cond { c.x = v }]. *)
Definition note {A} (x : option A) (cond : bool) (v : A) : option A :=
  match x with Some _ => x | None => if cond then Some v else None end.

(** The call's output, met while it has none. *)
Definition on_output (c : Call) (v : ItemEntry) : Call :=
  let w := c_violations c in
  let mismatch := Returned c && negb (c_answeredSinceResult c)
                  && match c_Result c with
                     | Some r => negb (sameItem_opt (rs_Item r) (ie_Item v))
                     | None => false
                     end in
  mkCall (c_Entry c) (c_CallID c) (c_Arguments c) (c_Decisions c) (c_Dispatch c)
    (c_Dispatches c) (Some v) (c_Withdrawn c) (c_Result c) (c_inPrefix c)
    (c_dispatchedElsewhere c) (c_sinceDecision c) (c_dispatchedArgs c) false
    (c_beforeSince c) (c_beforeArgs c) (c_resultAfterLast c) (c_answeredSinceResult c)
    (mkViolations (v_ended w) (v_endedBy w) (v_afterAnswer w) (v_afterReject w)
       (v_endAfterOutput w) (v_rejectAfterDispatch w) (v_dispatchAfterOutput w)
       (v_badResult w) (v_afterResult w) (note (v_outputMismatch w) mismatch v)).

Definition on_result (c : Call) (v : ResultEntry) : Call :=
  let w := c_violations c in
  let bad := bool_decide (length (c_Dispatches c) = 0) || negb (Pending c)
             || c_resultAfterLast c || Answered c || Rejected c in
  mkCall (c_Entry c) (c_CallID c) (c_Arguments c) (c_Decisions c) (c_Dispatch c)
    (c_Dispatches c) (c_Output c) (c_Withdrawn c) (Some v) (c_inPrefix c)
    (c_dispatchedElsewhere c) (c_sinceDecision c) (c_dispatchedArgs c) false
    (c_beforeSince c) (c_beforeArgs c) (bool_decide (0 < length (c_Dispatches c))) false
    (mkViolations (v_ended w) (v_endedBy w) (v_afterAnswer w) (v_afterReject w)
       (v_endAfterOutput w) (v_rejectAfterDispatch w) (v_dispatchAfterOutput w)
       (note (v_badResult w) bad v) (v_afterResult w) (v_outputMismatch w)).

(** A withdrawal: the hand-off was never made, and the call is what it was
    before the dispatch. *)
Definition on_withdrawal (c : Call) (v : DecisionEntry) : Call :=
  match last (c_Dispatches c) with
  | None => c
  | Some d =>
      let rest := take (length (c_Dispatches c) - 1) (c_Dispatches c) in
      mkCall (c_Entry c) (c_CallID c) (c_Arguments c) (c_Decisions c)
        (if decide (length rest = 0) then None else c_Dispatch c)
        rest (c_Output c) (c_Withdrawn c ++ [(d, v)]) (c_Result c) (c_inPrefix c)
        (c_dispatchedElsewhere c) (c_beforeSince c) (c_beforeArgs c) false
        (c_beforeSince c) (c_beforeArgs c) (c_resultAfterLast c) (c_answeredSinceResult c)
        (c_violations c)
  end.

Definition on_decision (c : Call) (v : DecisionEntry) : Call :=
  if withdraws c v then on_withdrawal c v else
  let w := c_violations c in
  let answer := bool_decide (dc_Verdict v = VerdictAnswer) in
  let reject := bool_decide (dc_Verdict v = VerdictReject) in
  mkCall (c_Entry c) (c_CallID c) (c_Arguments c) (c_Decisions c ++ [v]) (c_Dispatch c)
    (c_Dispatches c) (c_Output c) (c_Withdrawn c) (c_Result c) (c_inPrefix c)
    (c_dispatchedElsewhere c) false (c_dispatchedArgs c) false
    (c_beforeSince c) (c_beforeArgs c) (c_resultAfterLast c)
    (c_answeredSinceResult c || Returned c && answer)
    (mkViolations (v_ended w) (v_endedBy w)
       (note (v_afterAnswer w) (Answered c) v) (note (v_afterReject w) (Rejected c) v)
       (note (v_endAfterOutput w) ((answer || reject) && negb (Pending c)) v)
       (note (v_rejectAfterDispatch w) (reject && bool_decide (is_Some (c_Dispatch c))) v)
       (v_dispatchAfterOutput w) (v_badResult w)
       (note (v_afterResult w) (Returned c && negb answer) (EDecision v)) (v_outputMismatch w)).

Definition on_dispatch (c : Call) (v : DispatchEntry) : Call :=
  let w := c_violations c in
  let ended := match v_ended w with Some _ => v_ended w | None => endingDecision c end in
  let endedBy := match v_ended w, endingDecision c with
                 | None, Some _ => Some v
                 | _, _ => v_endedBy w
                 end in
  mkCall (c_Entry c) (c_CallID c) (c_Arguments c) (c_Decisions c)
    (match c_Dispatch c with Some d => Some d | None => Some v end)
    (c_Dispatches c ++ [v]) (c_Output c) (c_Withdrawn c) (c_Result c) (c_inPrefix c)
    (c_dispatchedElsewhere c) true (Args c) (Pending c)
    (c_sinceDecision c) (c_dispatchedArgs c) false (c_answeredSinceResult c)
    (mkViolations ended endedBy (v_afterAnswer w) (v_afterReject w)
       (v_endAfterOutput w) (v_rejectAfterDispatch w)
       (note (v_dispatchAfterOutput w) (negb (Pending c)) v) (v_badResult w)
       (note (v_afterResult w) (Returned c) (EDispatch v)) (v_outputMismatch w)).

(** [out], and the positions in it of the latest call with each call ID and of
    the call each function call entry holds. *)
Record CallsAcc := mkCallsAcc {
  ca_out : list Call;
  ca_byID : gmap string nat;
  ca_byEntry : gmap string nat
}.

(** [bind]: by target, falling back to the call ID. *)
Definition bind (a : CallsAcc) (callID target : string) : option nat :=
  match ca_byEntry a !! target with
  | Some i => Some i
  | None => ca_byID a !! callID
  end.

(** Assignments through the pointer at a position. *)
Definition update (f : Call -> Call) (i : option nat) (a : CallsAcc) : CallsAcc :=
  match i with
  | Some i => mkCallsAcc (alter f i (ca_out a)) (ca_byID a) (ca_byEntry a)
  | None => a
  end.

Definition Calls_step (a : CallsAcc) (e : Entry) : CallsAcc :=
  match e with
  | EItem v =>
      match item_case (ie_Item v) with
      | Some (FunctionCall callID args) =>
          let i := length (ca_out a) in
          mkCallsAcc (ca_out a ++ [newCall v callID args])
            (<[callID := i]> (ca_byID a)) (<[eid e := i]> (ca_byEntry a))
      | Some (FunctionCallOutput callID) =>
          update (fun c => if Pending c then on_output c v else c) (ca_byID a !! callID) a
      | _ => a
      end
  | EResult v => update (fun c => on_result c v) (bind a (rs_CallID v) (rs_Target v)) a
  | EDecision v => update (fun c => on_decision c v) (bind a (dc_CallID v) (dc_Target v)) a
  | EDispatch v => update (fun c => on_dispatch c v) (bind a (di_CallID v) (di_Target v)) a
  | _ => a
  end.

Definition Calls_acc (path : list Entry) : CallsAcc :=
  foldl Calls_step (mkCallsAcc [] ∅ ∅) path.

Definition Calls (path : list Entry) : list Call := ca_out (Calls_acc path).

End Calls.
