(* ===== verification/CallLemmas.v ===== *)
(** * The replay as a map from function call entries to calls

    [Calls] keeps a slice of calls and two maps into it; here the same replay
    over a map keyed by the function call's entry id.  The two agree on every
    path whose ids are distinct ([repr_M]), and the map is what the theorems
    reason over.  [targetCall]'s filtered replay is the full one, seen from one
    call ([targetCall_call_at]). *)
From S2P Require Import Prelude Entry Header Tree Leaf TreeWf Calls CallRules.
Open Scope session_scope.

Section CallLemmas.
Context {OR : OpenResponses} {CA : Canonicaliser}.
Implicit Types (s : Session) (e : Entry) (c : Call) (P : list Entry).

Definition entry_of c : string := ID (ie_Base (c_Entry c)).

(** The replay's state: every call by its function call's entry, and the entry
    of the latest call with each call ID. *)
Record M := mkM { m_calls : gmap string Call; m_latest : gmap string string }.

Definition m_update (f : Call -> Call) (t : option string) (m : M) : M :=
  match t with
  | Some t => mkM (alter f t (m_calls m)) (m_latest m)
  | None => m
  end.

Definition m_bind (m : M) (callID target : string) : option string :=
  match m_calls m !! target with Some _ => Some target | None => m_latest m !! callID end.

(** What an entry about a call does to it. *)
Definition event_fn e (c : Call) : Call :=
  match e with
  | EDecision v => on_decision c v
  | EDispatch v => on_dispatch c v
  | EResult v => on_result c v
  | _ => c
  end.

Definition output_fn (v : ItemEntry) (c : Call) : Call := if Pending c then on_output c v else c.

Definition m_step (m : M) e : M :=
  match e with
  | EItem v =>
      match item_case (ie_Item v) with
      | Some (FunctionCall callID args) =>
          mkM (<[eid e := newCall v callID args]> (m_calls m)) (<[callID := eid e]> (m_latest m))
      | Some (FunctionCallOutput callID) => m_update (output_fn v) (m_latest m !! callID) m
      | _ => m
      end
  | _ =>
      match about_call e with
      | Some (callID, target) => m_update (event_fn e) (m_bind m callID target) m
      | None => m
      end
  end.

Definition m_of P : M := foldl m_step (mkM ∅ ∅) P.

(** The call a function call entry of the path holds, as the path left it. *)
Definition call_at P (target : string) : option Call := m_calls (m_of P) !! target.

Lemma m_of_snoc P e : m_of (P ++ [e]) = m_step (m_of P) e.
Proof. unfold m_of. by rewrite foldl_app. Qed.

(** ** Nothing an entry does to a call changes which call it is *)

Lemma withdrawal_keeps c v : entry_of (on_withdrawal c v) = entry_of c /\ c_CallID (on_withdrawal c v) = c_CallID c.
Proof. unfold on_withdrawal. by destruct (last _). Qed.

Lemma event_keeps e c : entry_of (event_fn e c) = entry_of c /\ c_CallID (event_fn e c) = c_CallID c.
Proof.
  destruct e; try done. simpl. unfold on_decision.
  destruct (withdraws _ _); [apply withdrawal_keeps|done].
Qed.

Lemma output_keeps v c : entry_of (output_fn v c) = entry_of c /\ c_CallID (output_fn v c) = c_CallID c.
Proof. unfold output_fn. by destruct (Pending c). Qed.

(** ** The slice and the map *)

Record repr (a : CallsAcc) (m : M) : Prop := {
  r_entry t i : ca_byEntry a !! t = Some i -> exists c, ca_out a !! i = Some c /\ entry_of c = t;
  r_out i c : ca_out a !! i = Some c -> ca_byEntry a !! entry_of c = Some i;
  r_calls t : m_calls m !! t = ca_byEntry a !! t ≫= (fun i => ca_out a !! i);
  r_id x i : ca_byID a !! x = Some i -> is_Some (ca_out a !! i);
  r_latest x : m_latest m !! x = ca_byID a !! x ≫= (fun i => entry_of <$> ca_out a !! i)
}.

(** A position and the entry of the call at it, or neither. *)
Definition linked (a : CallsAcc) (i : option nat) (t : option string) : Prop :=
  match i, t with
  | Some i, Some t => ca_byEntry a !! t = Some i
  | None, None => True
  | _, _ => False
  end.

Lemma repr_update a m f i t :
  repr a m -> (forall c, entry_of (f c) = entry_of c) ->
  linked a i t ->
  repr (update f i a) (m_update f t m).
Proof.
  intros [He Ho Hc Hi Hl] Hf Hit. destruct i as [i|], t as [t|]; try done. simpl.
  assert (forall j, entry_of <$> alter f i (ca_out a) !! j = entry_of <$> ca_out a !! j) as Hsame.
  { intros j. destruct (decide (i = j)) as [->|Hne]; [|by rewrite list_lookup_alter_ne].
    rewrite list_lookup_alter_eq. destruct (ca_out a !! j); simpl; [f_equal; apply Hf|done]. }
  split; simpl.
  - intros t' j Hj. destruct (He _ _ Hj) as (c & Hc' & Ht). specialize (Hsame j). rewrite Hc' /= in Hsame.
    destruct (alter f i (ca_out a) !! j) as [c'|]; [|done]. exists c'. split; [done|]. simpl in Hsame. congruence.
  - intros j c Hj. specialize (Hsame j). rewrite Hj in Hsame.
    destruct (ca_out a !! j) as [c'|] eqn:Hc'; [|done]. simpl in Hsame. injection Hsame as ->. by apply Ho.
  - intros t'. destruct (decide (t = t')) as [->|Hne].
    + rewrite lookup_alter_eq Hc Hit /= list_lookup_alter_eq. done.
    + rewrite lookup_alter_ne // Hc. destruct (ca_byEntry a !! t') as [j|] eqn:Hj; [|done]. simpl.
      rewrite list_lookup_alter_ne; [done|]. intros ->.
      destruct (He _ _ Hit) as (? & ? & ?), (He _ _ Hj) as (? & ? & ?). congruence.
  - intros x j Hj. specialize (Hsame j). destruct (Hi _ _ Hj) as [c Hcj]. rewrite Hcj in Hsame.
    by destruct (alter f i (ca_out a) !! j).
  - intros x. rewrite Hl. destruct (ca_byID a !! x) as [j|]; simpl; [by rewrite Hsame|done].
Qed.

Lemma repr_bind a m callID target :
  repr a m ->
  linked a (bind a callID target) (m_bind m callID target).
Proof.
  intros [He Ho Hc Hi Hl]. unfold linked, bind, m_bind. rewrite Hc Hl.
  destruct (ca_byEntry a !! target) as [i|] eqn:Ht; simpl.
  - by destruct (He _ _ Ht) as (c & -> & _).
  - destruct (ca_byID a !! callID) as [i|] eqn:Hx; simpl; [|done].
    destruct (Hi _ _ Hx) as [c Hci]. rewrite Hci /=. by apply Ho.
Qed.

Lemma repr_latest a m x :
  repr a m ->
  linked a (ca_byID a !! x) (m_latest m !! x).
Proof.
  intros [He Ho Hc Hi Hl]. unfold linked. rewrite Hl. destruct (ca_byID a !! x) as [i|] eqn:Hx; simpl; [|done].
  destruct (Hi _ _ Hx) as [c Hci]. rewrite Hci /=. by apply Ho.
Qed.

Lemma repr_new a m v callID args :
  repr a m -> ca_byEntry a !! ID (ie_Base v) = None ->
  repr (mkCallsAcc (ca_out a ++ [newCall v callID args])
          (<[callID := length (ca_out a)]> (ca_byID a)) (<[ID (ie_Base v) := length (ca_out a)]> (ca_byEntry a)))
       (mkM (<[ID (ie_Base v) := newCall v callID args]> (m_calls m)) (<[callID := ID (ie_Base v)]> (m_latest m))).
Proof.
  intros [He Ho Hc Hi Hl] Hn.
  assert (forall i c, ca_out a !! i = Some c -> (ca_out a ++ [newCall v callID args]) !! i = Some c) as Hold.
  { intros i c Hic. rewrite lookup_app_l //. by eapply lookup_lt_Some. }
  assert ((ca_out a ++ [newCall v callID args]) !! length (ca_out a) = Some (newCall v callID args)) as Hnew.
  { by rewrite list_lookup_middle. }
  split; simpl.
  - intros t i. destruct (decide (ID (ie_Base v) = t)) as [<-|Hne].
    + rewrite lookup_insert_eq. intros [= <-]. eauto.
    + rewrite lookup_insert_ne //. intros Hi'. destruct (He _ _ Hi') as (c & ? & ?). eauto.
  - intros i c Hic. destruct (decide (i < length (ca_out a))) as [Hlt|Hge].
    + rewrite lookup_app_l // in Hic. rewrite lookup_insert_ne; [by apply Ho|].
      intros Heq. apply Ho in Hic. by rewrite -Heq Hn in Hic.
    + assert (i = length (ca_out a)) as ->.
      { apply lookup_lt_Some in Hic. rewrite length_app /= in Hic. lia. }
      rewrite Hnew in Hic. injection Hic as <-. by rewrite lookup_insert_eq.
  - intros t. destruct (decide (ID (ie_Base v) = t)) as [<-|Hne].
    + by rewrite !lookup_insert_eq /= Hnew.
    + rewrite !lookup_insert_ne // Hc. destruct (ca_byEntry a !! t) as [i|] eqn:Ht; [|done]. simpl.
      destruct (He _ _ Ht) as (c & Hci & _). by rewrite Hci (Hold _ _ Hci).
  - intros x i. destruct (decide (callID = x)) as [<-|Hne].
    + rewrite lookup_insert_eq. intros [= <-]. eauto.
    + rewrite lookup_insert_ne //. intros Hx. destruct (Hi _ _ Hx) as [c Hci]. eauto.
  - intros x. destruct (decide (callID = x)) as [<-|Hne].
    + by rewrite !lookup_insert_eq /= Hnew.
    + rewrite !lookup_insert_ne // Hl. destruct (ca_byID a !! x) as [i|] eqn:Hx; [|done]. simpl.
      destruct (Hi _ _ Hx) as [c Hci]. by rewrite Hci (Hold _ _ Hci).
Qed.

Definition entry_ids P : gset string := list_to_set (ids P).

Lemma Calls_acc_snoc P e : Calls_acc (P ++ [e]) = Calls_step (Calls_acc P) e.
Proof. unfold Calls_acc. by rewrite foldl_app. Qed.

Lemma repr_step a m e :
  repr a m -> ca_byEntry a !! eid e = None -> repr (Calls_step a e) (m_step m e).
Proof.
  intros Hr Hn. destruct e as [v| | | | | | | | | | | |v|v|v| |]; simpl; try done.
  - destruct (item_case (ie_Item v)) as [[]|]; try done; [by apply repr_new|].
    apply repr_update; [done|apply output_keeps|by apply repr_latest].
  - apply (repr_update _ _ (event_fn (EDispatch v))); [done|apply event_keeps|by apply repr_bind].
  - apply (repr_update _ _ (event_fn (EDecision v))); [done|apply event_keeps|by apply repr_bind].
  - apply (repr_update _ _ (event_fn (EResult v))); [done|apply event_keeps|by apply repr_bind].
Qed.

Lemma ca_byEntry_update f i a : ca_byEntry (update f i a) = ca_byEntry a.
Proof. by destruct i. Qed.

Lemma ca_byEntry_ids P t : ca_byEntry (Calls_acc P) !! t <> None -> t ∈ ids P.
Proof.
  induction P as [|e P IH] using rev_ind; [done|].
  rewrite Calls_acc_snoc ids_app elem_of_app list_elem_of_singleton. intros Hn.
  destruct (decide (t = eid e)) as [->|Hne]; [by right|left]. apply IH. revert Hn.
  destruct e as [v| | | | | | | | | | | |v|v|v| |]; simpl; rewrite ?ca_byEntry_update //.
  destruct (item_case (ie_Item v)) as [[]|]; rewrite ?ca_byEntry_update //=.
  by rewrite lookup_insert_ne.
Qed.

(** [Calls] and the map agree on every path of distinct entries. *)
Lemma repr_M P : NoDup (ids P) -> repr (Calls_acc P) (m_of P).
Proof.
  induction P as [|e P IH] using rev_ind.
  { intros _. by split; unfold Calls_acc, m_of; simpl; intros *; rewrite ?lookup_empty ?lookup_nil. }
  rewrite ids_app => Hnd. apply NoDup_app in Hnd as (Hnd & Hdis & _).
  rewrite Calls_acc_snoc m_of_snoc. apply repr_step; [auto|].
  destruct (ca_byEntry (Calls_acc P) !! eid e) eqn:He; [|done]. exfalso.
  apply (Hdis (eid e)); [|set_solver]. apply ca_byEntry_ids. by rewrite He.
Qed.

Lemma find_call a m t :
  repr a m -> find (fun c => bool_decide (ID (ie_Base (c_Entry c)) = t)) (ca_out a) = m_calls m !! t.
Proof.
  intros [He Ho Hc Hi Hl]. rewrite Hc. destruct (find _ _) as [c|] eqn:Hf.
  - apply find_some in Hf as [Hin Ht]. bool_prop. apply list_elem_of_In in Hin.
    apply list_elem_of_lookup in Hin as [i Hi']. pose proof (Ho _ _ Hi') as Hb.
    unfold entry_of in Hb. by rewrite Ht in Hb; rewrite Hb /= Hi'.
  - destruct (ca_byEntry a !! t) as [i|] eqn:Hb; [|done]. simpl.
    destruct (He _ _ Hb) as (c & Hci & Ht). apply list_elem_of_lookup_2, list_elem_of_In in Hci.
    apply (find_none _ _ Hf) in Hci. bool_prop. done.
Qed.

(** ** The filtered replay of [targetCall] *)

(** What the replay of a path keeps of its calls. *)
Record m_inv (m : M) : Prop := {
  mi_entry t c : m_calls m !! t = Some c -> entry_of c = t;
  mi_latest x t : m_latest m !! x = Some t -> exists c, m_calls m !! t = Some c /\ c_CallID c = x
}.

Lemma m_update_inv f t m :
  (forall c, entry_of (f c) = entry_of c /\ c_CallID (f c) = c_CallID c) -> m_inv m -> m_inv (m_update f t m).
Proof.
  intros Hf [He Hl]. destruct t as [t|]; [|done]. split; simpl.
  - intros t' c. destruct (decide (t = t')) as [->|Hne]; [|rewrite lookup_alter_ne //; apply He].
    rewrite lookup_alter_eq. destruct (m_calls m !! t') eqn:Hc; [|done]. intros [= <-].
    rewrite (proj1 (Hf _)). by apply He.
  - intros x t' Hx. destruct (Hl _ _ Hx) as (c & Hc & Hid).
    destruct (decide (t = t')) as [->|Hne]; [|rewrite lookup_alter_ne; eauto].
    rewrite lookup_alter_eq Hc /=. eexists. split; [done|]. by rewrite (proj2 (Hf _)).
Qed.

Lemma m_step_inv m e : m_calls m !! eid e = None -> m_inv m -> m_inv (m_step m e).
Proof.
  intros Hn Hi. destruct e as [v| | | | | | | | | | | |v|v|v| |]; simpl; try done.
  2-4: apply m_update_inv; [intros c|done].
  2: apply (event_keeps (EDispatch v)).
  2: apply (event_keeps (EDecision v)).
  2: apply (event_keeps (EResult v)).
  destruct (item_case (ie_Item v)) as [[]|]; try done; [|by apply m_update_inv; [apply output_keeps|]].
  destruct Hi as [He Hl]. split; simpl.
  - intros t c. destruct (decide (eid (EItem v) = t)) as [<-|Hne]; [|rewrite lookup_insert_ne //; apply He].
    rewrite lookup_insert_eq. by intros [= <-].
  - intros x t. destruct (decide (CallID = x)) as [<-|Hne].
    + rewrite lookup_insert_eq. intros [= <-]. rewrite lookup_insert_eq. eauto.
    + rewrite lookup_insert_ne //. intros Hx. destruct (Hl _ _ Hx) as (c & Hc & ?). exists c.
      rewrite lookup_insert_ne //. intros Heq. by rewrite Heq Hc in Hn.
Qed.

Lemma m_dom P t : m_calls (m_of P) !! t <> None -> t ∈ ids P.
Proof.
  induction P as [|e P IH] using rev_ind; [done|].
  rewrite m_of_snoc ids_app elem_of_app list_elem_of_singleton. intros Hn.
  destruct (decide (t = eid e)) as [->|Hne]; [by right|left]. apply IH. intros Ht. apply Hn. clear -Ht Hne.
  assert (forall f o, m_calls (m_update f o (m_of P)) !! t = None) as Hu.
  { intros f [o|]; [|done]. simpl. by rewrite lookup_alter_None. }
  destruct e as [v| | | | | | | | | | | |v|v|v| |]; simpl; rewrite ?Hu //.
  destruct (item_case (ie_Item v)) as [[]|]; rewrite ?Hu //=. by rewrite lookup_insert_ne.
Qed.

Lemma m_fresh P e : eid e ∉ ids P -> m_calls (m_of P) !! eid e = None.
Proof. intros Hn. destruct (m_calls (m_of P) !! eid e) eqn:He; [|done]. exfalso. apply Hn, m_dom. by rewrite He. Qed.

Lemma m_of_inv P : NoDup (ids P) -> m_inv (m_of P).
Proof.
  induction P as [|e P IH] using rev_ind; [by split; unfold m_of; simpl; intros *; rewrite lookup_empty|].
  rewrite ids_app m_of_snoc => Hnd. apply NoDup_app in Hnd as (Hnd & Hdis & _).
  apply m_step_inv; [|auto]. apply m_fresh. intros Hin. apply (Hdis _ Hin). set_solver.
Qed.

(** The full replay [m], and the replay [b] of what [targetCall] keeps, having
    met the function calls [K]: they agree on the call at [target] when it has
    the call ID, and on which calls have that call ID. *)
Record kept (callID target : string) (m b : M) (K : gset string) : Prop := {
  k_K t : t ∈ K <-> m_calls m !! t <> None;
  k_latest : m_latest b !! callID = m_latest m !! callID;
  k_same c : m_calls m !! target = Some c -> c_CallID c = callID -> m_calls b !! target = Some c;
  k_have t c : m_calls m !! t = Some c -> c_CallID c = callID \/ t = target ->
    exists c', m_calls b !! t = Some c' /\ c_CallID c' = c_CallID c;
  k_only t c' : m_calls b !! t = Some c' ->
    (c_CallID c' = callID \/ t = target) /\ exists c, m_calls m !! t = Some c /\ c_CallID c = c_CallID c'
}.

Lemma alter_CallID f t0 t (m : gmap string Call) c :
  (forall c, c_CallID (f c) = c_CallID c) ->
  alter f t0 m !! t = Some c -> exists c0, m !! t = Some c0 /\ c_CallID c = c_CallID c0.
Proof.
  intros Hf. destruct (decide (t0 = t)) as [->|Hne]; [|rewrite lookup_alter_ne //; eauto].
  rewrite lookup_alter_eq. destruct (m !! t); [|done]. intros [= <-]. eauto.
Qed.

Lemma alter_CallID' f t0 t (m : gmap string Call) c0 :
  (forall c, c_CallID (f c) = c_CallID c) ->
  m !! t = Some c0 -> exists c, alter f t0 m !! t = Some c /\ c_CallID c = c_CallID c0.
Proof.
  intros Hf Ht. destruct (decide (t0 = t)) as [->|Hne]; [|rewrite lookup_alter_ne //; eauto].
  rewrite lookup_alter_eq Ht. eauto.
Qed.

Lemma alter_is_None f t0 t (m : gmap string Call) : alter f t0 m !! t <> None <-> m !! t <> None.
Proof.
  destruct (decide (t0 = t)) as [->|Hne]; [|by rewrite lookup_alter_ne].
  rewrite lookup_alter_eq. by destruct (m !! t).
Qed.

(** Both replays apply an entry to the same call. *)
Lemma kept_both callID target m b K f t0 :
  (forall c, c_CallID (f c) = c_CallID c) ->
  kept callID target m b K -> kept callID target (m_update f t0 m) (m_update f t0 b) K.
Proof.
  intros Hf Hk. destruct t0 as [t0|]; [|done]. destruct Hk as [HK HL Hs Hh Ho]. split; simpl; try done.
  - intros t. by rewrite alter_is_None.
  - intros c Hc Hid. destruct (decide (t0 = target)) as [->|Hne].
    + rewrite !lookup_alter_eq in Hc |- *. destruct (m_calls m !! target) as [c0|] eqn:H0; [|done].
      injection Hc as <-. rewrite Hf in Hid. by rewrite (Hs c0).
    + rewrite !lookup_alter_ne // in Hc |- *. auto.
  - intros t c Hc Hor. apply alter_CallID in Hc as (c0 & Hc0 & Hid); [|done].
    rewrite Hid in Hor |- *. destruct (Hh _ _ Hc0 Hor) as (c' & Hc' & <-). by apply alter_CallID'.
  - intros t c' Hc'. apply alter_CallID in Hc' as (c0 & Hc0 & Hid); [|done].
    destruct (Ho _ _ Hc0) as (Hor & c & Hc & Heq). rewrite Hid. split; [done|].
    rewrite -Heq. by apply alter_CallID'.
Qed.

(** An entry only the full replay has, for a call that is not the one asked
    for. *)
Lemma kept_drop callID target m b K f t0 :
  (forall c, c_CallID (f c) = c_CallID c) ->
  (forall t c, t0 = Some t -> m_calls m !! t = Some c -> t = target -> c_CallID c <> callID) ->
  kept callID target m b K -> kept callID target (m_update f t0 m) b K.
Proof.
  intros Hf Hno Hk. destruct t0 as [t0|]; [|done]. destruct Hk as [HK HL Hs Hh Ho]. split; simpl; try done.
  - intros t. by rewrite alter_is_None.
  - intros c Hc Hid. destruct (decide (t0 = target)) as [->|Hne]; [|rewrite lookup_alter_ne // in Hc; auto].
    apply alter_CallID in Hc as (c0 & Hc0 & Heq); [|done]. rewrite Heq in Hid. by destruct (Hno _ _ eq_refl Hc0).
  - intros t c Hc Hor. apply alter_CallID in Hc as (c0 & Hc0 & Hid); [|done]. rewrite Hid in Hor |- *. eauto.
  - intros t c' Hc'. destruct (Ho _ _ Hc') as (Hor & c & Hc & Heq). split; [done|].
    rewrite -Heq. by apply alter_CallID'.
Qed.

(** An entry about a call, as [targetCall] keeps or drops it. *)
Lemma kept_event callID target m b K e x t :
  m_inv m -> m_inv b -> kept callID target m b K -> about_call e = Some (x, t) ->
  kept callID target (m_step m e)
    (if bool_decide (t = target) || bool_decide (x = callID) && bool_decide (t ∉ K) then m_step b e else b) K.
Proof.
  intros Hm Hb Hk He.
  assert (forall m, m_step m e = m_update (event_fn e) (m_bind m x t) m) as Hstep.
  { intros m'. destruct e; try done; simpl in He |- *; by injection He as -> ->. }
  rewrite !Hstep. pose proof (fun c => proj2 (event_keeps e c)) as Hf.
  pose proof Hk as [HK HL Hs Hh Ho].
  destruct (decide (t ∈ K)) as [Ht|Ht].
  - rewrite (bool_decide_eq_false_2 (t ∉ K)); [|tauto]. rewrite andb_false_r orb_false_r.
    assert (m_bind m x t = Some t) as Hbm.
    { apply HK in Ht. unfold m_bind. by destruct (m_calls m !! t). }
    rewrite Hbm. destruct (decide (t = target)) as [->|Hne].
    + rewrite bool_decide_eq_true_2 //. apply HK in Ht.
      destruct (m_calls m !! target) as [c|] eqn:Hc; [|done].
      destruct (Hh _ _ Hc) as (c' & Hc' & _); [by right|].
      assert (m_bind b x target = Some target) as -> by by rewrite /m_bind Hc'. by apply kept_both.
    + rewrite bool_decide_eq_false_2 //. apply kept_drop; try done. by intros ? c [= <-].
  - rewrite (bool_decide_eq_true_2 (t ∉ K)) // andb_true_r.
    assert (m_calls m !! t = None) as Hmt.
    { destruct (m_calls m !! t) eqn:Hc; [|done]. exfalso. apply Ht, HK. by rewrite Hc. }
    assert (m_calls b !! t = None) as Hbt.
    { destruct (m_calls b !! t) eqn:Hc; [|done]. destruct (Ho _ _ Hc) as (_ & ? & ? & _). congruence. }
    assert (m_bind m x t = m_latest m !! x) as -> by by rewrite /m_bind Hmt.
    assert (m_bind b x t = m_latest b !! x) as -> by by rewrite /m_bind Hbt.
    destruct (decide (x = callID)) as [->|Hx].
    + rewrite (bool_decide_eq_true_2 (callID = callID)) // orb_true_r HL. by apply kept_both.
    + rewrite (bool_decide_eq_false_2 (x = callID)) // orb_false_r.
      assert (kept callID target (m_update (event_fn e) (m_latest m !! x) m) b K) as Hd.
      { apply kept_drop; try done. intros t' c Hl Hc ->.
        destruct (mi_latest _ Hm _ _ Hl) as (c0 & Hc0 & Hid). congruence. }
      destruct (decide (t = target)) as [->|Hne]; [|by rewrite bool_decide_eq_false_2].
      rewrite bool_decide_eq_true_2 //. destruct (m_latest b !! x) as [t'|] eqn:Hl; [|done].
      destruct (mi_latest _ Hb _ _ Hl) as (c0 & Hc0 & Hid).
      destruct (Ho _ _ Hc0) as ([?|?] & _); congruence.
Qed.

Lemma kept_call callID target m b K v (x : string) args :
  m_calls m !! ID (ie_Base v) = None ->
  kept callID target m b K ->
  let ins (m : M) := mkM (<[ID (ie_Base v) := newCall v x args]> (m_calls m)) (<[x := ID (ie_Base v)]> (m_latest m)) in
  kept callID target (ins m)
    (if bool_decide (ID (ie_Base v) = target) || bool_decide (x = callID) then ins b else b)
    ({[ID (ie_Base v)]} ∪ K).
Proof.
  intros Hn [HK HL Hs Hh Ho] ins. set (i := ID (ie_Base v)) in *.
  assert (m_calls b !! i = None) as Hbi.
  { destruct (m_calls b !! i) eqn:Hc; [|done]. destruct (Ho _ _ Hc) as (_ & ? & ? & _). congruence. }
  split.
  - intros t. rewrite elem_of_union elem_of_singleton HK. simpl.
    destruct (decide (i = t)) as [->|Hne]; [rewrite lookup_insert_eq; naive_solver|].
    rewrite lookup_insert_ne //. naive_solver.
  - simpl. destruct (decide (x = callID)) as [->|Hne].
    + by rewrite (bool_decide_eq_true_2 (callID = _)) // orb_true_r /= !lookup_insert_eq.
    + rewrite lookup_insert_ne //. case_match; [|done]. by rewrite /= lookup_insert_ne.
  - simpl. intros c0. destruct (decide (i = target)) as [->|Hne].
    + by rewrite bool_decide_eq_true_2 //= !lookup_insert_eq.
    + rewrite lookup_insert_ne // => Hc Hid. case_match; [rewrite /= lookup_insert_ne //|]; auto.
  - simpl. intros t c0. destruct (decide (i = t)) as [<-|Hne].
    + rewrite lookup_insert_eq. intros [= <-] Hor. simpl in Hor.
      assert (bool_decide (i = target) || bool_decide (x = callID) = true) as ->.
      { apply orb_true_iff. rewrite !bool_decide_eq_true. tauto. }
      simpl. rewrite lookup_insert_eq. eauto.
    + rewrite lookup_insert_ne // => Hc Hor. destruct (Hh _ _ Hc Hor) as (c' & ? & ?).
      exists c'. split; [|done]. case_match; [rewrite /= lookup_insert_ne //|done].
  - simpl. intros t c'. destruct (bool_decide _ || bool_decide _) eqn:Hor; simpl.
    + destruct (decide (i = t)) as [<-|Hne].
      * rewrite !lookup_insert_eq. intros [= <-]. split; [|eauto]. bool_prop; simpl; auto.
      * rewrite !lookup_insert_ne //. apply Ho.
    + intros Hc'. destruct (Ho _ _ Hc') as (? & c0 & Hc0 & ?). split; [done|]. exists c0.
      rewrite lookup_insert_ne //. intros Heq. by rewrite Heq Hc0 in Hn.
Qed.

Lemma target_about_snoc callID target P e :
  foldl (target_step callID target) (∅, []) (P ++ [e]) =
  target_step callID target (foldl (target_step callID target) (∅, []) P) e.
Proof. by rewrite foldl_app. Qed.

Lemma target_about_ids callID target P : ids (target_about callID target P) `sublist_of` ids P.
Proof.
  unfold target_about. induction P as [|e P IH] using rev_ind; [done|].
  rewrite target_about_snoc ids_app. destruct (foldl _ _ P) as [K about]. simpl in IH.
  assert (ids (about ++ [e]) `sublist_of` ids P ++ ids [e]) as Hin.
  { rewrite ids_app. by apply sublist_app. }
  assert (ids about `sublist_of` ids P ++ ids [e]) as Hout.
  { etrans; [done|]. by apply sublist_inserts_r. }
  unfold target_step. repeat case_match; simplify_eq; simpl; done.
Qed.

Lemma kept_target callID target P :
  NoDup (ids P) ->
  let acc := foldl (target_step callID target) (∅, []) P in
  kept callID target (m_of P) (m_of acc.2) acc.1.
Proof.
  induction P as [|e P IH] using rev_ind.
  { intros _. split; simpl; unfold m_of; simpl; intros *; rewrite ?lookup_empty //. }
  rewrite ids_app => Hnd. pose proof Hnd as Hnd0. apply NoDup_app in Hnd as (Hnd & Hdis & _).
  specialize (IH Hnd). simpl in *. rewrite target_about_snoc m_of_snoc.
  pose proof (target_about_ids callID target P) as Hsub. unfold target_about in Hsub.
  pose proof (m_of_inv P Hnd) as HmP.
  assert (m_inv (m_of (foldl (target_step callID target) (∅, []) P).2)) as HmA.
  { apply m_of_inv. exact (sublist_NoDup _ _ Hnd Hsub). }
  assert (eid e ∉ ids P) as Hfresh by (intros Hin; apply (Hdis _ Hin); set_solver).
  destruct (foldl _ _ P) as [K about]. simpl in *.
  assert (forall x t, about_call e = Some (x, t) -> kept callID target (m_step (m_of P) e)
    (m_of (if bool_decide (t = target) || bool_decide (x = callID) && bool_decide (t ∉ K) then about ++ [e] else about)) K) as Hev.
  { intros x t He. pose proof (kept_event _ _ _ _ _ _ _ _ HmP HmA IH He) as Hk.
    destruct (_ || _); [by rewrite m_of_snoc|done]. }
  destruct e as [v| | | | | | | | | | | |v|v|v| |]; simpl; try done.
  2-4: simpl in Hev; eauto.
  destruct (item_case (ie_Item v)) as [[c args|c| | | |]|] eqn:Hit; simpl; try done.
  - pose proof (kept_call callID target _ _ _ v c args (m_fresh _ _ Hfresh) IH) as Hk. simpl in Hk.
    destruct (_ || _); [rewrite m_of_snoc /= Hit|]; exact Hk.
  - destruct (decide (c = callID)) as [->|Hne].
    + rewrite m_of_snoc /= Hit (k_latest _ _ _ _ _ IH). apply kept_both; [apply output_keeps|done].
    + apply kept_drop; [apply output_keeps| |done]. intros t c0 Hl Hc ->.
      destruct (mi_latest _ HmP _ _ Hl) as (c1 & Hc1 & Hid). congruence.
Qed.

(** [targetCall], as the whole path's replay has it. *)
Lemma targetCall_call_at s parent callID target :
  NoDup (ids (path s parent)) ->
  targetCall s parent callID target =
  match call_at (path s parent) target with
  | Some c => if decide (c_CallID c = callID) then Ok c else Err ErrBadTarget
  | None => Err ErrBadTarget
  end.
Proof.
  intros Hnd. unfold targetCall, Calls.
  set (P := path s parent) in *. pose proof (target_about_ids callID target P) as Hsub.
  rewrite (find_call _ (m_of (target_about callID target P))); [|apply repr_M; exact (sublist_NoDup _ _ Hnd Hsub)].
  pose proof (kept_target callID target P Hnd) as Hk. simpl in Hk.
  fold (target_about callID target P) in Hk. destruct Hk as [_ _ Hs Hh Ho]. unfold call_at.
  destruct (m_calls (m_of P) !! target) as [c|] eqn:Hc.
  - destruct (Hh _ _ Hc) as (c' & Hc' & Hid); [by right|]. rewrite Hc'.
    destruct (decide (c_CallID c = callID)) as [Heq|Hne].
    + rewrite (Hs c) // in Hc'. injection Hc' as <-. rewrite decide_False //. tauto.
    + rewrite decide_True //. congruence.
  - destruct (m_calls (m_of (target_about callID target P)) !! target) as [c'|] eqn:Hc'; [|done].
    destruct (Ho _ _ Hc') as (_ & ? & ? & _). congruence.
Qed.
End CallLemmas.
