(* ===== verification/CallSound.v ===== *)
(** * What the writer's rules on calls keep

    A path whose record is clean (every decision, dispatch and result names its
    call, no call ID repeats, and the replay notes nothing the format forbids)
    stays clean under every entry [checkCallRules] accepts. *)
From S2P Require Import Prelude Entry Header Tree Leaf TreeWf Calls CallRules CallLemmas.
Open Scope session_scope.

Section CallSound.
Context {OR : OpenResponses} {CA : Canonicaliser}.
Implicit Types (s : Session) (e : Entry) (c : Call) (P : list Entry).

(** Every entry about a call names, by target, a function call before it on
    the path that has its call ID. *)
Inductive consistent : list Entry -> Prop :=
  | consistent_nil : consistent []
  | consistent_snoc P e :
      consistent P ->
      (forall x t, about_call e = Some (x, t) -> exists c, call_at P t = Some c /\ c_CallID c = x) ->
      consistent (P ++ [e]).

(** No call ID repeats: the latest call with a call's ID is the call. *)
Definition unique_ids P : Prop :=
  forall t c, call_at P t = Some c -> m_latest (m_of P) !! c_CallID c = Some t.

Definition clean_calls P : Prop :=
  forall t c, call_at P t = Some c -> c_violations c = no_violations.

Record good_path P : Prop := {
  gp_nodup : NoDup (ids P);
  gp_consistent : consistent P;
  gp_unique : unique_ids P;
  gp_clean : clean_calls P
}.

Lemma consistent_snoc_inv P e :
  consistent (P ++ [e]) ->
  consistent P /\
  (forall x t, about_call e = Some (x, t) -> exists c, call_at P t = Some c /\ c_CallID c = x).
Proof.
  inversion 1 as [Heq|P' e' Hc He Heq]; [by destruct P|]. by apply app_inj_tail in Heq as [-> ->].
Qed.

(** ** The step, once the entry is known to name its call *)

Lemma m_step_event m e x t c :
  about_call e = Some (x, t) -> m_calls m !! t = Some c ->
  m_step m e = m_update (event_fn e) (Some t) m.
Proof.
  intros He Hc. assert (m_bind m x t = Some t) as Hb by by rewrite /m_bind Hc.
  destruct e; try done; simpl in He; injection He as Hx Ht; subst; simpl; by rewrite Hb.
Qed.

Lemma m_step_call m v x args :
  item_case (ie_Item v) = Some (FunctionCall x args) ->
  m_step m (EItem v) =
  mkM (<[ID (ie_Base v) := newCall v x args]> (m_calls m)) (<[x := ID (ie_Base v)]> (m_latest m)).
Proof. intros Hv. simpl. by rewrite Hv. Qed.

Lemma m_step_output m v x :
  item_case (ie_Item v) = Some (FunctionCallOutput x) ->
  m_step m (EItem v) = m_update (output_fn v) (m_latest m !! x) m.
Proof. intros Hv. simpl. by rewrite Hv. Qed.

(** Any other entry leaves the replay alone. *)
Definition bears_on e : bool :=
  match e with
  | EItem v =>
      match item_case (ie_Item v) with
      | Some (FunctionCall _ _) | Some (FunctionCallOutput _) => true
      | _ => false
      end
  | _ => bool_decide (is_Some (about_call e))
  end.

Lemma m_step_other m e : bears_on e = false -> m_step m e = m.
Proof.
  destruct e; try done. simpl.
  by destruct (item_case _) as [[]|].
Qed.

(** Where a call on the path comes from. *)
Lemma call_at_entry P t c :
  NoDup (ids P) -> call_at P t = Some c ->
  c_Entry c ∈ omap (fun e => match e with EItem v => Some v | _ => None end) P /\
  ID (ie_Base (c_Entry c)) = t /\ fst <$> function_call (c_Entry c) = Some (c_CallID c).
Proof.
  unfold call_at. revert t c. induction P as [|e P IH] using rev_ind.
  { intros t c _. unfold m_of. simpl. by rewrite lookup_empty. }
  intros t c Hnd. rewrite ids_app in Hnd. apply NoDup_app in Hnd as (Hnd & _ & _).
  assert (forall f o, (forall c, c_Entry (f c) = c_Entry c /\ c_CallID (f c) = c_CallID c) ->
    m_calls (m_update f o (m_of P)) !! t = Some c ->
    c_Entry c ∈ omap (fun e => match e with EItem v => Some v | _ => None end) (P ++ [e]) /\
    ID (ie_Base (c_Entry c)) = t /\ fst <$> function_call (c_Entry c) = Some (c_CallID c)) as Hu.
  { intros f o Hf Hc. rewrite omap_app elem_of_app.
    assert (exists c0, m_calls (m_of P) !! t = Some c0 /\ c_Entry c = c_Entry c0 /\ c_CallID c = c_CallID c0)
      as (c0 & Hc0 & -> & ->).
    { destruct o as [o|]; [|eauto]. simpl in Hc. destruct (decide (o = t)) as [->|Hne].
      - rewrite lookup_alter_eq in Hc. destruct (m_calls (m_of P) !! t) as [c0|]; [|done].
        injection Hc as <-. destruct (Hf c0). eauto.
      - rewrite lookup_alter_ne // in Hc. eauto. }
    destruct (IH _ _ Hnd Hc0) as (? & ? & ?). auto. }
  rewrite m_of_snoc. destruct (bears_on e) eqn:Hb.
  2:{ rewrite m_step_other //. intros Hc. by apply (Hu (fun c => c) None). }
  destruct (about_call e) as [[x t']|] eqn:Hab.
  - assert (forall c, c_Entry (event_fn e c) = c_Entry c) as Hee.
    { intros c0. destruct e; try done. simpl. unfold on_decision. destruct (withdraws _ _); [|done].
      unfold on_withdrawal. by destruct (last _). }
    assert (m_step (m_of P) e = m_update (event_fn e) (m_bind (m_of P) x t') (m_of P)) as ->.
    { destruct e; try done; simpl in Hab |- *; by injection Hab as -> ->. }
    apply Hu. intros c0. split; [apply Hee|apply event_keeps].
  - destruct e as [v| | | | | | | | | | | | | | | |]; try done.
    simpl in Hb. destruct (item_case (ie_Item v)) as [[x args|x| | | |]|] eqn:Hv; try done.
    + rewrite (m_step_call _ _ _ _ Hv) /=. destruct (decide (ID (ie_Base v) = t)) as [Heq|Hne].
      * rewrite Heq lookup_insert_eq. intros [= <-]. simpl.
        rewrite omap_app elem_of_app /= list_elem_of_singleton /function_call Hv. auto.
      * rewrite lookup_insert_ne //. intros Hc. by apply (Hu (fun c => c) None).
    + rewrite (m_step_output _ _ _ Hv). apply Hu. intros c0. unfold output_fn. by destruct (Pending c0).
Qed.

(** ** [callFor] *)

Record for_kept (callID : string) (m b : M) : Prop := {
  f_latest : m_latest b !! callID = m_latest m !! callID;
  f_have t c : m_calls m !! t = Some c -> c_CallID c = callID -> m_calls b !! t = Some c;
  f_only t c : m_calls b !! t = Some c -> m_calls m !! t = Some c /\ c_CallID c = callID
}.

Lemma for_kept_both callID m b f t :
  (forall c, c_CallID (f c) = c_CallID c) ->
  (forall c, m_calls m !! t = Some c -> c_CallID c = callID) ->
  for_kept callID m b -> for_kept callID (m_update f (Some t) m) (m_update f (Some t) b).
Proof.
  intros Hf Ht [HL Hh Ho]. split; simpl; [done|..].
  - intros t' c. destruct (decide (t = t')) as [->|Hne]; [|rewrite !lookup_alter_ne //; apply Hh].
    rewrite !lookup_alter_eq. destruct (m_calls m !! t') as [c0|] eqn:Hc; [|done].
    intros [= <-] Hid. rewrite Hf in Hid. by rewrite (Hh _ _ Hc).
  - intros t' c. destruct (decide (t = t')) as [->|Hne]; [|rewrite !lookup_alter_ne //; apply Ho].
    rewrite !lookup_alter_eq. destruct (m_calls b !! t') as [c0|] eqn:Hc; [|done].
    intros [= <-]. destruct (Ho _ _ Hc) as [-> Hid]. by rewrite Hf.
Qed.

Lemma for_kept_drop callID m b f t :
  (forall c, c_CallID (f c) = c_CallID c) ->
  (forall c, m_calls m !! t = Some c -> c_CallID c <> callID) ->
  for_kept callID m b -> for_kept callID (m_update f (Some t) m) b.
Proof.
  intros Hf Ht [HL Hh Ho]. split; simpl; [done|..].
  - intros t' c. destruct (decide (t = t')) as [->|Hne]; [|rewrite !lookup_alter_ne //; apply Hh].
    rewrite lookup_alter_eq. destruct (m_calls m !! t') as [c0|] eqn:Hc; [|done].
    intros [= <-] Hid. rewrite Hf in Hid. by destruct (Ht c0).
  - intros t' c Hc. destruct (Ho _ _ Hc) as [Hc' Hid]. split; [|done].
    rewrite lookup_alter_ne //. intros ->. by destruct (Ht _ Hc').
Qed.

Lemma for_kept_path callID P :
  NoDup (ids P) -> consistent P ->
  for_kept callID (m_of P) (m_of (filter (fun e => names_call callID e = true) P)).
Proof.
  induction P as [|e P IH] using rev_ind.
  { intros _ _. split; unfold m_of; simpl; [done|..]; intros t c; by rewrite lookup_empty. }
  intros Hnd Hc. apply consistent_snoc_inv in Hc as [Hc He]. rewrite ids_app in Hnd.
  apply NoDup_app in Hnd as (Hnd & Hdis & _). specialize (IH Hnd Hc).
  assert (eid e ∉ ids P) as Hfresh by (intros Hin; apply (Hdis _ Hin); set_solver).
  rewrite m_of_snoc filter_app. set (b := filter _ P) in *.
  assert (m_of (b ++ filter (fun e => names_call callID e = true) [e]) =
          if names_call callID e then m_step (m_of b) e else m_of b) as ->.
  { destruct (names_call callID e) eqn:Hn; simpl.
    - rewrite filter_cons_True // filter_nil. by rewrite m_of_snoc.
    - rewrite filter_cons_False; [by rewrite filter_nil app_nil_r|]. by rewrite Hn. }
  destruct (bears_on e) eqn:Hb.
  2:{ rewrite !m_step_other //. by destruct (names_call callID e). }
  destruct (about_call e) as [[x t]|] eqn:Hab.
  - destruct (He _ _ eq_refl) as (c & Hct & Hid). unfold call_at in Hct.
    assert (names_call callID e = bool_decide (x = callID)) as ->.
    { destruct e; try done; simpl in Hab; injection Hab as <- <-; done. }
    rewrite (m_step_event _ _ _ _ _ Hab Hct).
    destruct (decide (x = callID)) as [->|Hne].
    + rewrite bool_decide_eq_true_2 //.
      rewrite (m_step_event _ _ _ _ _ Hab (f_have _ _ _ IH _ _ Hct Hid)).
      apply for_kept_both; [apply event_keeps| |done]. congruence.
    + rewrite bool_decide_eq_false_2 //. apply for_kept_drop; [apply event_keeps| |done]. congruence.
  - destruct e as [v| | | | | | | | | | | | | | | |]; try done. simpl in Hb.
    destruct (item_case (ie_Item v)) as [[x args|x| | | |]|] eqn:Hv; try done.
    + assert (names_call callID (EItem v) = bool_decide (x = callID)) as -> by by rewrite /= Hv.
      rewrite !(m_step_call _ _ _ _ Hv). pose proof (m_fresh P _ Hfresh) as Hm. unfold eid in Hm. simpl in Hm.
      destruct IH as [HL Hh Ho]. destruct (decide (x = callID)) as [->|Hne].
      * rewrite bool_decide_eq_true_2 //. split; simpl; [by rewrite !lookup_insert_eq|..].
        -- intros t c. destruct (decide (ID (ie_Base v) = t)) as [<-|?]; [by rewrite !lookup_insert_eq|].
           rewrite !lookup_insert_ne //. apply Hh.
        -- intros t c. destruct (decide (ID (ie_Base v) = t)) as [<-|?]; [rewrite !lookup_insert_eq|].
           { by intros [= <-]. } rewrite !lookup_insert_ne //. apply Ho.
      * rewrite bool_decide_eq_false_2 //. split; simpl; [by rewrite lookup_insert_ne|..].
        -- intros t c. destruct (decide (ID (ie_Base v) = t)) as [<-|?].
           { rewrite lookup_insert_eq. by intros [= <-]. } rewrite lookup_insert_ne //. apply Hh.
        -- intros t c Hct. destruct (Ho _ _ Hct) as [Hc' ?]. rewrite lookup_insert_ne //. intros <-. congruence.
    + assert (names_call callID (EItem v) = bool_decide (x = callID)) as -> by by rewrite /= Hv.
      rewrite !(m_step_output _ _ _ Hv). pose proof (m_of_inv P Hnd) as Hinv.
      destruct (decide (x = callID)) as [->|Hne].
      * rewrite bool_decide_eq_true_2 // (f_latest _ _ _ IH).
        destruct (m_latest (m_of P) !! callID) as [t|] eqn:Hl; [|done].
        apply for_kept_both; [apply output_keeps| |done]. intros c Hct.
        destruct (mi_latest _ Hinv _ _ Hl) as (c' & ? & ?). congruence.
      * rewrite bool_decide_eq_false_2 //.
        destruct (m_latest (m_of P) !! x) as [t|] eqn:Hl; [|done].
        apply for_kept_drop; [apply output_keeps| |done]. intros c Hct.
        destruct (mi_latest _ Hinv _ _ Hl) as (c' & ? & ?). congruence.
Qed.

Lemma singleton_of {A} (l : list A) (x : A) i :
  l !! i = Some x -> (forall j y, l !! j = Some y -> j = i) -> l = [x].
Proof.
  intros Hi Hall. destruct l as [|a [|b l]]; [done|..].
  - destruct i; [by injection Hi as ->|done].
  - pose proof (Hall 0 a eq_refl). pose proof (Hall 1 b eq_refl). lia.
Qed.

(** On a path that names its calls, with no call ID repeated, [callFor] finds
    the one call with the ID as the whole path's replay has it. *)
Lemma callFor_call_at s parent callID :
  NoDup (ids (path s parent)) -> consistent (path s parent) -> unique_ids (path s parent) ->
  callFor s parent callID = m_latest (m_of (path s parent)) !! callID ≫= call_at (path s parent).
Proof.
  intros Hnd Hc Hu. unfold callFor, Calls. set (P := path s parent) in *.
  pose proof (for_kept_path callID P Hnd Hc) as [HL Hh Ho].
  set (F := filter (fun e => names_call callID e = true) P) in *.
  assert (NoDup (ids F)) as HndF.
  { by apply NoDup_fmap_filter. }
  pose proof (repr_M F HndF) as [He Hout Hcalls _ _].
  assert (filter (fun c => c_CallID c = callID) (ca_out (Calls_acc F)) = ca_out (Calls_acc F)) as ->.
  { apply filter_every. intros c Hin. apply list_elem_of_lookup in Hin as [i Hic].
    destruct (Ho (entry_of c) c) as [_ ?]; [|done]. by rewrite Hcalls (Hout _ _ Hic) /= Hic. }
  destruct (m_latest (m_of P) !! callID) as [t|] eqn:Hl; simpl.
  - destruct (mi_latest _ (m_of_inv P Hnd) _ _ Hl) as (c & Hct & Hid). unfold call_at. rewrite Hct.
    pose proof (Hh _ _ Hct Hid) as Hb. rewrite Hcalls in Hb.
    destruct (ca_byEntry (Calls_acc F) !! t) as [i|] eqn:Hi; [|done]. simpl in Hb.
    rewrite (singleton_of _ _ _ Hb); [done|]. intros j c' Hj.
    assert (m_calls (m_of F) !! entry_of c' = Some c') as Hc' by by rewrite Hcalls (Hout _ _ Hj) /= Hj.
    destruct (Ho _ _ Hc') as [Hm' Hid']. apply Hu in Hm'. rewrite Hid' Hl in Hm'. injection Hm' as Hm'.
    pose proof (Hout _ _ Hj). congruence.
  - destruct (ca_out (Calls_acc F)) as [|c l] eqn:Hl'; [done|]. exfalso.
    assert (m_calls (m_of F) !! entry_of c = Some c) as Hc'.
    { assert (ca_out (Calls_acc F) !! 0 = Some c) as H0 by by rewrite Hl'. by rewrite Hcalls (Hout 0 c) // Hl'. }
    destruct (Ho _ _ Hc') as [Hm' Hid']. apply Hu in Hm'. congruence.
Qed.

(** ** What an accepted entry does to its call *)

Lemma decision_clean s v parent c :
  targetCall s parent (dc_CallID v) (dc_Target v) = Ok c ->
  checkDecision s v parent = Ok tt -> c_violations c = no_violations ->
  c_violations (on_decision c v) = no_violations.
Proof.
  unfold checkDecision. intros -> Hok Hv. cbn [rbind] in Hok. unfold on_decision.
  destruct (withdraws c v) eqn:Hw.
  { unfold on_withdrawal. by destruct (last _). }
  destruct (Copied c), (Returned c && _) eqn:Hret, (Answered c), (Rejected c); try done.
  rewrite Hv. simpl. rewrite ?Hret.
  destruct (bool_decide (dc_Verdict v = VerdictAnswer)) eqn:Ha, (bool_decide (dc_Verdict v = VerdictReject)) eqn:Hr;
    simpl in *; rewrite ?andb_false_r ?andb_true_r /= in Hok |- *; try done.
  - apply bool_decide_eq_true in Ha, Hr. rewrite Ha in Hr. discriminate Hr.
  - unfold Pending. by destruct (c_Output c).
  - destruct (dc_Withdrawn v); [done|]. destruct (c_Dispatch c); simpl in *; [done|].
    unfold Pending. by destruct (c_Output c).
Qed.

Lemma endingDecision_None c : Answered c = false -> Rejected c = false -> endingDecision c = None.
Proof.
  unfold Answered, Rejected, hasVerdict, endingDecision. intros Ha Hr.
  destruct (find _ _) as [d|] eqn:Hf; [|done]. apply find_some in Hf as [Hin Hd].
  assert (forall verdict, dc_Verdict d = verdict ->
    existsb (fun d => bool_decide (dc_Verdict d = verdict)) (c_Decisions c) = true) as He.
  { intros verdict Heq. apply existsb_exists. exists d. by rewrite bool_decide_eq_true_2. }
  bool_prop; [rewrite He in Hr|rewrite He in Ha]; done.
Qed.

Lemma dispatch_clean s v parent c :
  targetCall s parent (di_CallID v) (di_Target v) = Ok c ->
  checkDispatch s v parent = Ok tt -> c_violations c = no_violations ->
  c_violations (on_dispatch c v) = no_violations.
Proof.
  unfold checkDispatch. intros -> Hok Hv. cbn [rbind] in Hok.
  destruct (Copied c), (Returned c) eqn:Hret, (Rejected c) eqn:Hr, (Answered c) eqn:Ha; try done.
  unfold on_dispatch. rewrite Hv. simpl. rewrite endingDecision_None // Hret.
  unfold Pending. by destruct (c_Output c).
Qed.

Lemma result_clean s v parent c :
  targetCall s parent (rs_CallID v) (rs_Target v) = Ok c ->
  checkResult s v parent = Ok tt -> c_violations c = no_violations ->
  c_violations (on_result c v) = no_violations.
Proof.
  unfold checkResult. intros -> Hok Hv. cbn [rbind] in Hok.
  destruct (Copied c); [done|]. unfold on_result. rewrite Hv. simpl. unfold Pending.
  destruct (c_Output c); [done|]. simpl in Hok. rewrite (bool_decide_eq_true_2 (None = None)) //.
  rewrite orb_false_r. by destruct (_ || _).
Qed.

(** A result the replay has put on a call is on the path, with its call ID. *)
Lemma call_result P t c r :
  consistent P -> call_at P t = Some c -> c_Result c = Some r -> EResult r ∈ P /\ rs_CallID r = c_CallID c.
Proof.
  unfold call_at. intros Hc. revert t c. induction Hc as [|P e Hc IH He].
  { intros t c. unfold m_of. simpl. by rewrite lookup_empty. }
  intros t c. assert (forall t c, m_calls (m_of P) !! t = Some c -> c_Result c = Some r ->
    EResult r ∈ P ++ [e] /\ rs_CallID r = c_CallID c) as Hold.
  { intros t0 c0 Hc0 Hr0. destruct (IH _ _ Hc0 Hr0). split; [set_solver|done]. }
  assert (forall f o, (forall c, c_Result (f c) = c_Result c /\ c_CallID (f c) = c_CallID c) ->
    m_calls (m_update f o (m_of P)) !! t = Some c -> c_Result c = Some r ->
    EResult r ∈ P ++ [e] /\ rs_CallID r = c_CallID c) as Hu.
  { intros f [o|] Hf; [|apply Hold]. simpl. destruct (decide (o = t)) as [->|]; [|rewrite lookup_alter_ne //; apply Hold].
    rewrite lookup_alter_eq. destruct (m_calls (m_of P) !! t) as [c0|] eqn:Hc0; [|done].
    intros [= <-]. destruct (Hf c0) as [-> ->]. intros Hr. by apply (Hold t c0). }
  rewrite m_of_snoc. destruct (bears_on e) eqn:Hb; [|rewrite m_step_other //; apply Hold].
  destruct (about_call e) as [[x t']|] eqn:Hab.
  - destruct (He _ _ eq_refl) as (c0 & Hc0 & Hid). rewrite (m_step_event _ _ _ _ _ Hab Hc0).
    destruct e as [| | | | | | | | | | | |v|v|v| |]; try done.
    + by apply Hu.
    + apply Hu. intros c1. split; [|apply (event_keeps (EDecision v))]. simpl. unfold on_decision.
      destruct (withdraws _ _); [|done]. unfold on_withdrawal. by destruct (last _).
    + simpl. destruct (decide (t' = t)) as [->|]; [|rewrite lookup_alter_ne //; apply Hold].
      unfold call_at in Hc0. rewrite lookup_alter_eq Hc0 /=. intros [= <-]. simpl. intros [= ->].
      simpl in Hab. injection Hab as <- <-. split; [set_solver|done].
  - destruct e as [v| | | | | | | | | | | | | | | |]; try done. simpl in Hb.
    destruct (item_case (ie_Item v)) as [[x args|x| | | |]|] eqn:Hv; try done.
    + rewrite (m_step_call _ _ _ _ Hv) /=. destruct (decide (ID (ie_Base v) = t)) as [<-|].
      * rewrite lookup_insert_eq. by intros [= <-].
      * rewrite lookup_insert_ne //. apply Hold.
    + rewrite (m_step_output _ _ _ Hv). apply Hu. intros c0. unfold output_fn. by destruct (Pending c0).
Qed.

Lemma output_clean s v parent x c :
  wf s -> good_path (path s parent) ->
  item_case (ie_Item v) = Some (FunctionCallOutput x) -> checkItem s v parent = Ok tt ->
  m_latest (m_of (path s parent)) !! x ≫= call_at (path s parent) = Some c ->
  c_violations (output_fn v c) = no_violations.
Proof.
  intros Hw Hg Hv Hok Hc.
  assert (exists t, call_at (path s parent) t = Some c) as [t Ht].
  { destruct (m_latest _ !! x) as [t|]; [|done]. eauto. }
  pose proof (gp_clean _ Hg _ _ Ht) as Hcl. unfold output_fn. destruct (Pending c) eqn:Hp; [|done].
  unfold on_output. rewrite Hcl. simpl.
  assert (Returned c && negb (c_answeredSinceResult c) &&
    match c_Result c with Some r => negb (sameItem_opt (rs_Item r) (ie_Item v)) | None => false end = false) as ->; [|done].
  destruct (c_Result c) as [r|] eqn:Hr; [|by rewrite andb_false_r].
  destruct (call_result _ _ _ _ (gp_consistent _ Hg) Ht Hr) as [Hin Hid].
  unfold checkItem in Hok. rewrite Hv in Hok. inv_ok.
  rewrite (callFor_call_at s parent x (gp_nodup _ Hg) (gp_consistent _ Hg) (gp_unique _ Hg)) Hc Hr in Hok.
  apply andb_false_iff in Hok as [Hok|Hok]; [|done]. apply bool_decide_eq_false in Hok. exfalso. apply Hok.
  rewrite (wf_results _ Hw). apply set_index_spec. exists (EResult r).
  split; [by eapply path_entries|]. simpl. rewrite Hid.
  destruct (m_latest (m_of (path s parent)) !! x) as [t'|] eqn:Hl; [|done]. simpl in Hc.
  destruct (mi_latest _ (m_of_inv _ (gp_nodup _ Hg)) _ _ Hl) as (c' & Hc' & Hx). unfold call_at in Hc. congruence.
Qed.

(** ** The invariant of a path *)

Lemma call_in_session s parent t c :
  wf s -> NoDup (ids (path s parent)) -> call_at (path s parent) t = Some c -> c_CallID c ∈ s_callIDs s.
Proof.
  intros Hw Hnd Hc. destruct (call_at_entry _ _ _ Hnd Hc) as (Hin & _ & Hid).
  apply list_elem_of_omap in Hin as (e & Hin & He). rewrite (wf_callIDs _ Hw). apply set_index_spec.
  exists e. split; [by eapply path_entries|]. destruct e; try done. by injection He as ->.
Qed.

Lemma update_good P e f t c :
  good_path P -> eid e ∉ ids P ->
  (forall x t, about_call e = Some (x, t) -> exists c, call_at P t = Some c /\ c_CallID c = x) ->
  m_step (m_of P) e = m_update f (Some t) (m_of P) ->
  (forall c, c_CallID (f c) = c_CallID c) ->
  call_at P t = Some c -> c_violations (f c) = no_violations ->
  good_path (P ++ [e]).
Proof.
  intros [Hnd Hc Hu Hcl] Hn He Hstep Hf Hct Hfc. split.
  - rewrite ids_app. apply NoDup_app. split_and!; [done| |apply NoDup_singleton]. set_solver.
  - by constructor.
  - intros t' c'. unfold call_at. rewrite m_of_snoc Hstep /=. intros Hc'.
    apply alter_CallID in Hc' as (c0 & Hc0 & ->); [|done]. by apply Hu.
  - intros t' c'. unfold call_at in *. rewrite m_of_snoc Hstep /=.
    destruct (decide (t = t')) as [->|]; [|rewrite lookup_alter_ne //; apply Hcl].
    rewrite lookup_alter_eq Hct /=. by intros [= <-].
Qed.

Lemma same_good P e :
  good_path P -> eid e ∉ ids P ->
  (forall x t, about_call e = Some (x, t) -> exists c, call_at P t = Some c /\ c_CallID c = x) ->
  m_step (m_of P) e = m_of P -> good_path (P ++ [e]).
Proof.
  intros [Hnd Hc Hu Hcl] Hn He Hstep. split.
  - rewrite ids_app. apply NoDup_app. split_and!; [done| |apply NoDup_singleton]. set_solver.
  - by constructor.
  - intros t' c'. unfold call_at. rewrite m_of_snoc Hstep /=. by apply Hu.
  - intros t' c'. unfold call_at in *. rewrite m_of_snoc Hstep /=. by apply Hcl.
Qed.

Lemma targetCall_ok s parent x t c :
  NoDup (ids (path s parent)) -> targetCall s parent x t = Ok c ->
  call_at (path s parent) t = Some c /\ c_CallID c = x.
Proof.
  intros Hnd. rewrite targetCall_call_at //. destruct (call_at _ _) as [c'|]; [|done].
  destruct (decide _) as [Hid|]; [|done]. by intros [= ->].
Qed.

Lemma event_good s e parent x t c :
  good_path (path s parent) -> eid e ∉ ids (path s parent) ->
  about_call e = Some (x, t) -> targetCall s parent x t = Ok c ->
  c_violations (event_fn e c) = no_violations -> good_path (path s parent ++ [e]).
Proof.
  intros Hg Hn Hab Ht Hv. apply targetCall_ok in Ht as [Hc Hid]; [|apply Hg].
  eapply (update_good _ _ (event_fn e) t c); try done.
  - intros x' t' Hab'. rewrite Hab' in Hab. injection Hab as -> ->. eauto.
  - by eapply m_step_event.
  - apply event_keeps.
Qed.

Lemma item_good s v parent :
  wf s -> good_path (path s parent) -> eid (EItem v) ∉ ids (path s parent) ->
  checkItem s v parent = Ok tt -> good_path (path s parent ++ [EItem v]).
Proof.
  intros Hw Hg Hn Hok. destruct (bears_on (EItem v)) eqn:Hb.
  2:{ apply same_good; try done. by apply m_step_other. }
  simpl in Hb. destruct (item_case (ie_Item v)) as [[x args|x| | | |]|] eqn:Hv; try done.
  - assert (x ∉ s_callIDs s) as Hx.
    { unfold checkItem in Hok. rewrite Hv in Hok. inv_ok. by apply bool_decide_eq_false in Hok. }
    pose proof (m_fresh _ _ Hn) as Hf. unfold eid in Hf. simpl in Hf.
    pose proof Hg as [Hnd Hc Hu Hcl]. split.
    + rewrite ids_app. apply NoDup_app. split_and!; [done| |apply NoDup_singleton]. set_solver.
    + by constructor.
    + intros t c. unfold call_at. rewrite m_of_snoc (m_step_call _ _ _ _ Hv) /=.
      destruct (decide (ID (ie_Base v) = t)) as [<-|Hne].
      * rewrite lookup_insert_eq. intros [= <-]. by rewrite lookup_insert_eq.
      * rewrite lookup_insert_ne // => Hct. rewrite lookup_insert_ne; [by apply Hu|].
        intros ->. apply Hx. by eapply call_in_session.
    + intros t c. unfold call_at. rewrite m_of_snoc (m_step_call _ _ _ _ Hv) /=.
      destruct (decide (ID (ie_Base v) = t)) as [<-|Hne]; [rewrite lookup_insert_eq; by intros [= <-]|].
      rewrite lookup_insert_ne //. apply Hcl.
  - destruct (m_latest (m_of (path s parent)) !! x) as [t|] eqn:Hl.
    + destruct (mi_latest _ (m_of_inv _ (gp_nodup _ Hg)) _ _ Hl) as (c & Hc & _).
      apply (update_good _ _ (output_fn v) t c); try done.
      * by rewrite (m_step_output _ _ _ Hv) Hl.
      * apply output_keeps.
      * eapply (output_clean s v parent x); try done. by rewrite Hl.
    + apply same_good; try done. by rewrite (m_step_output _ _ _ Hv) Hl.
Qed.

(** An entry the rules accept leaves the record of its path clean. *)
Lemma accept_good s e parent :
  wf s -> good_path (path s parent) -> eid e ∉ ids (path s parent) ->
  checkCallRules s e parent = Ok tt -> good_path (path s parent ++ [e]).
Proof.
  intros Hw Hg Hn Hok. destruct (about_call e) as [[x t]|] eqn:Hab.
  - destruct e as [| | | | | | | | | | | |v|v|v| |]; try done; simpl in Hab; injection Hab as <- <-; simpl in Hok.
    all: pose proof Hok as Hok'; apply rbind_Ok in Hok' as (c & Ht & _).
    all: pose proof (targetCall_ok _ _ _ _ _ (gp_nodup _ Hg) Ht) as [Hc _].
    all: pose proof (gp_clean _ Hg _ _ Hc) as Hcl.
    all: eapply event_good; [done|done|reflexivity|exact Ht|].
    + by eapply dispatch_clean.
    + by eapply decision_clean.
    + by eapply result_clean.
  - destruct e as [v| | | | | | | | | | | | | | | |]; try done; try (by apply same_good).
    by apply item_good.
Qed.

Lemma good_nil : good_path [].
Proof.
  split; [constructor|constructor|..]; intros t c; unfold call_at, m_of; simpl; by rewrite lookup_empty.
Qed.

(** C25: [targetCall], which replays only the entries of the path that bear on
    one call, finds the call the replay of the whole path has at the target,
    with everything the path says of it. *)
Theorem targetCall_replay s (parent callID target : string) :
  wf s ->
  targetCall s parent callID target =
  match find (fun c => bool_decide (ID (ie_Base (c_Entry c)) = target)) (Calls (path s parent)) with
  | Some c => if decide (c_CallID c = callID) then Ok c else Err ErrBadTarget
  | None => Err ErrBadTarget
  end.
Proof.
  intros Hw. pose proof (path_NoDup s parent Hw) as Hnd. rewrite targetCall_call_at //.
  unfold Calls. rewrite (find_call _ (m_of (path s parent))); [done|by apply repr_M].
Qed.

End CallSound.
