(* ===== verification/Runs.v ===== *)
(** * Runs, the durable inbox and the verification of records ([run.go])

    The runs of a path and what a run end records, the queued inputs still
    waiting, and [VerifyRecords] with the checks it is made of. *)
From S2P Require Import Prelude Entry Header Tree Leaf TreeWf Calls CallRules.
Open Scope session_scope.

(** [bytes.Equal] of two triggers' canonical JSON ([Trigger.Equal]); the
    encoding of a trigger is [encoding/json]'s. *)
Class TriggerEncoding := { canonicalTrigger : Trigger -> option RawMessage }.

Section Runs.
Context {OR : OpenResponses} {CA : Canonicaliser} {TE : TriggerEncoding}.
Implicit Types (s : Session) (e : Entry) (c : Call).

(** ** The calls of a session *)

(** [Session.Calls]: the replay, with what the session knows of each call. *)
Definition with_session (inPrefix elsewhere : bool) (c : Call) : Call :=
  mkCall (c_Entry c) (c_CallID c) (c_Arguments c) (c_Decisions c) (c_Dispatch c) (c_Dispatches c)
    (c_Output c) (c_Withdrawn c) (c_Result c) inPrefix elsewhere (c_sinceDecision c)
    (c_dispatchedArgs c) (c_lastIsDispatch c) (c_beforeSince c) (c_beforeArgs c)
    (c_resultAfterLast c) (c_answeredSinceResult c) (c_violations c).

Definition Session_Calls s (leaf : string) : result (list Call) :=
  let path := path s leaf in
  refuse_if (bool_decide (path = [])) ErrNoEntry ;!
  Ok ((fun c => with_session (bool_decide (ID (ie_Base (c_Entry c)) ∈ s_prefix s))
                  (bool_decide (c_Dispatch c = None)
                   && dispatchedOff s (ID (ie_Base (c_Entry c))) (onPath path)) c) <$> Calls path).

Definition PendingCalls s (leaf : string) : result (list Call) :=
  let! calls := Session_Calls s leaf in
  Ok (filter (fun c => Pending c && negb (Copied c) = true) calls).

(** ** The durable inbox *)

Definition queued_step (acc : list QueuedEntry * gset string) e : list QueuedEntry * gset string :=
  match e with
  | EQueued v => (acc.1 ++ [v], acc.2)
  | EItem v => if decide (ie_QueuedFrom v <> "") then (acc.1, {[ie_QueuedFrom v]} ∪ acc.2) else acc
  | ERun v => if IsEnd v then ([], acc.2) else acc
  | _ => acc
  end.

Definition Queued (path : list Entry) : list QueuedEntry :=
  let '(open, drained) := foldl queued_step ([], ∅) path in
  filter (fun q => ID (qu_Base q) ∉ drained) open.

Definition PendingQueued s (leaf : string) : result (list QueuedEntry) :=
  refuse_if (bool_decide (path s leaf = [])) ErrNoEntry ;! Ok (Queued (path s leaf)).

(** ** Runs *)

(** [r_Path] is nil in a run built by hand. *)
Record Run := mkRun {
  r_Start : RunEntry;
  r_End : option RunEntry;
  r_Segment : list Entry;
  r_Path : option (list Entry)
}.

Definition RunID (r : Run) : string := run_RunID (r_Start r).

(** A nil path means the segment stands for the path. *)
Definition whole (path : option (list Entry)) (segment : list Entry) : list Entry :=
  default segment path.

(** The entries of a list by id, an entry with none passed over. *)
Definition entry_set (segment : list Entry) : gset string :=
  list_to_set (filter (fun id => id <> "") (ids segment)).

Definition takenUpIn (c : Call) (inn : gset string) : bool :=
  bool_decide (ID (ie_Base (c_Entry c)) ∈ inn)
  || match c_Output c with Some o => bool_decide (ID (ie_Base o) ∈ inn) | None => false end
  || existsb (fun d => bool_decide (ID (dc_Base d) ∈ inn)) (c_Decisions c)
  || existsb (fun d => bool_decide (ID (di_Base d) ∈ inn)) (c_Dispatches c)
  || existsb (fun w => bool_decide (ID (di_Base w.1) ∈ inn) || bool_decide (ID (dc_Base w.2) ∈ inn))
       (c_Withdrawn c)
  || match c_Result c with Some r => bool_decide (ID (rs_Base r) ∈ inn) | None => false end.

Definition runCalls (path : option (list Entry)) (segment : list Entry) : list Call :=
  filter (fun c => negb (Copied c) && takenUpIn c (entry_set segment) = true)
    (Calls (whole path segment)).

Definition Run_Calls (r : Run) : list Call := runCalls (r_Path r) (r_Segment r).

Definition Run_Pending (r : Run) : list string :=
  c_CallID <$> filter (fun c => Pending c = true) (Run_Calls r).

(** The call each output, decision, dispatch and result of the path is for;
    a later assignment to an id wins. *)
Definition part_step (m : gmap string Call) (c : Call) : gmap string Call :=
  if Copied c then m
  else
    let m := match c_Output c with Some o => <[ID (ie_Base o) := c]> m | None => m end in
    let m := foldl (fun m d => <[ID (dc_Base d) := c]> m) m (c_Decisions c) in
    let m := foldl (fun m d => <[ID (di_Base d) := c]> m) m (c_Dispatches c) in
    let m := foldl (fun m w => <[ID (dc_Base w.2) := c]> (<[ID (di_Base w.1) := c]> m)) m (c_Withdrawn c) in
    match c_Result c with Some r => <[ID (rs_Base r) := c]> m | None => m end.

Fixpoint source_of (before : gset string) (part : gmap string Call) (segment : list Entry) : string :=
  match segment with
  | [] => SourceInput
  | e :: segment =>
      match part !! eid e with
      | None =>
          match e with
          | EItem v =>
              match item_case (ie_Item v) with
              | Some (FunctionCallOutput _) => SourceInput
              | _ => source_of before part segment
              end
          | _ => source_of before part segment
          end
      | Some c =>
          if bool_decide (ID (ie_Base (c_Entry c)) ∈ before)
             && match c_Output c with Some o => bool_decide (ID (ie_Base o) ∉ before) | None => true end
          then SourceResume else SourceInput
      end
  end.

Definition ComputeSource (r : Run) : string :=
  let path := whole (r_Path r) (r_Segment r) in
  let before := list_to_set (ids (take (length path - length (r_Segment r)) path)) in
  source_of before (foldl part_step ∅ (Calls path)) (r_Segment r).

Definition Empty (r : Run) : bool :=
  forallb (fun e => match e with
                    | EItem _ | EConfig _ | ECompaction _ | EBranchSummary _ | EResponse _
                    | EDispatch _ | EDecision _ | EResult _ => false
                    | _ => true
                    end) (r_Segment r).

(** One entry of the partition: the runs so far, newest first, and whether the
    newest is still taking entries in ([cur]). *)
Definition end_matches (e : Entry) (start : RunEntry) : option RunEntry :=
  match e with
  | ERun v => if IsEnd v && bool_decide (run_RunID v = run_RunID start) then Some v else None
  | _ => None
  end.

Definition Runs_take (r : Run) e (upto : list Entry) : Run :=
  mkRun (r_Start r) (match end_matches e (r_Start r) with Some v => Some v | None => r_End r end)
    (r_Segment r ++ [e]) (Some upto).

Definition is_start e : option RunEntry :=
  match e with ERun v => if IsStart v then Some v else None | _ => None end.

Definition Runs_step (path : list Entry) (acc : list Run * option Run) (i : nat) e
    : list Run * option Run :=
  let '(closed, cur) :=
    match is_start e with
    | Some v => (acc.1 ++ option_list acc.2, Some (mkRun v None [] None))
    | None => acc
    end in
  match cur with
  | None => (closed, None)
  | Some r =>
      match r_End r with
      | Some _ => (closed ++ [r], None)
      | None => (closed, Some (Runs_take r e (take (S i) path)))
      end
  end.

Definition Runs (path : list Entry) : list Run :=
  let '(closed, cur) := foldl_idx (Runs_step path) 0 ([], None) path in
  closed ++ option_list cur.

Definition Session_Runs s (leaf : string) : result (list Run) :=
  refuse_if (bool_decide (path s leaf = [])) ErrNoEntry ;! Ok (Runs (path s leaf)).

Definition OpenRun s (leaf : string) : result (option Run) :=
  let! runs := Session_Runs s leaf in
  Ok (match last runs with
      | Some r => if decide (r_End r = None) then Some r else None
      | None => None
      end).

(** [NewRunEnd] ([lifecycle.go]). *)
Definition NewRunEnd (runID reason ref : string) (pending : list string) : RunEntry :=
  mkRunEntry zero_base runID RunEnd "" reason ref None pending.

Definition EndRun s (reason ref : string) : result RunEntry :=
  let! run := OpenRun s (s_leaf s) in
  match run with
  | None => Err ErrOther
  | Some run =>
      refuse_if (bool_decide (reason = "")) ErrOther ;!
      Ok (NewRunEnd (RunID run) reason ref (Run_Pending run))
  end.

(** ** The end reason *)

Definition lastResponse (entries : list Entry) : option ResponseEntry :=
  foldl (fun last e => match e with EResponse r => Some r | _ => last end) None entries.

Definition madeCalls (calls : list Call) (resp : ResponseEntry) : bool :=
  existsb (fun c => negb (Copied c) && bool_decide (ie_ResponseID (c_Entry c) = re_ResponseID resp)) calls.

Definition answersACall (segment : list Entry) : bool :=
  existsb (fun e => match e with
                    | EDecision _ => true
                    | EItem v => bool_decide (is_Some (function_call_output v))
                    | _ => false
                    end) segment.

Definition stoppedOnPath (calls : list Call) (path segment : list Entry) : bool :=
  match lastResponse path with
  | None => false
  | Some last =>
      madeCalls calls last && negb (existsb (fun c => Pending c && negb (Copied c)) calls)
      && answersACall segment
  end.

Definition ComputeReason (path : option (list Entry)) (segment : list Entry) : string :=
  let full := whole path segment in
  let last := lastResponse segment in
  if match last with Some r => bool_decide (is_Some (re_Error r)) | None => false end then ReasonError
  else
    let pend := filter (fun c => Pending c = true) (runCalls path segment) in
    let onPath := Calls full in
    if existsb CallHeldNow pend && negb (existsb InFlight pend) then ReasonInputRequired
    else if bool_decide (pend <> [])
            || match last with Some r => bool_decide (is_Some (re_Incomplete r)) | None => false end
    then ReasonAborted
    else if match last with Some r => negb (madeCalls onPath r) | None => false end then ReasonDone
    else if stoppedOnPath onPath full segment then ReasonStopped
    else ReasonAborted.

Definition Run_Verify (r : Run) : result unit :=
  match r_End r with
  | None => Ok tt
  | Some en =>
      refuse_if (bool_decide (run_Reason en <> ReasonError) && bool_decide (run_Reason en <> ReasonInterrupted)
                 && bool_decide (ComputeReason (r_Path r) (r_Segment r) <> run_Reason en)) ErrReasonMismatch ;!
      refuse_if (bool_decide (sort_strings (Run_Pending r) <> sort_strings (run_Pending en))) ErrReasonMismatch
  end.

End Runs.
