(* ===== verification/RunsProps.v ===== *)
(** * Runs and the inbox ([run.go])

    What the partition of a path into runs is, that the end [EndRun] builds
    closes the open run and verifies, and which inbox entries are pending. *)
From S2P Require Import Prelude Entry Header Tree Leaf TreeWf Calls CallRules CallLemmas Runs.
Open Scope session_scope.

Section RunsProps.
Context {OR : OpenResponses} {CA : Canonicaliser} {TE : TriggerEncoding}.
Implicit Types (s : Session) (e : Entry) (c : Call) (P : list Entry).

(** ** The inbox *)

Definition run_end e : bool := match e with ERun v => IsEnd v | _ => false end.

(** The item entry is the inbox entry taken in. *)
Definition drains (q : QueuedEntry) e : Prop :=
  match e with EItem v => ie_QueuedFrom v <> "" /\ ie_QueuedFrom v = ID (qu_Base q) | _ => False end.

Lemma queued_acc P :
  (forall q, q ∈ (foldl queued_step ([], ∅) P).1 <->
     exists P1 P2, P = P1 ++ EQueued q :: P2 /\ forall e, e ∈ P2 -> run_end e = false) /\
  (forall x, x ∈ (foldl queued_step ([], ∅) P).2 <->
     exists v, EItem v ∈ P /\ ie_QueuedFrom v <> "" /\ ie_QueuedFrom v = x).
Proof.
  induction P as [|e P [IH1 IH2]] using rev_ind.
  { split; intros x; simpl; [|set_solver]. split; [set_solver|]. intros (P1 & P2 & H & _). by destruct P1. }
  rewrite foldl_app /=. set (acc := foldl queued_step ([], ∅) P) in *.
  assert (forall q, (exists P1 P2, P ++ [e] = P1 ++ EQueued q :: P2 /\ forall e, e ∈ P2 -> run_end e = false) <->
    e = EQueued q \/ run_end e = false /\
      exists P1 P2, P = P1 ++ EQueued q :: P2 /\ forall e, e ∈ P2 -> run_end e = false) as Hq.
  { intros q. split.
    - intros (P1 & P2 & Heq & Hno). destruct P2 as [|y P2 _] using rev_ind.
      + apply app_inj_tail in Heq as [_ ->]. by left.
      + right. rewrite app_comm_cons app_assoc in Heq. apply app_inj_tail in Heq as [-> ->].
        split; [apply Hno; set_solver|]. exists P1, P2. split; [done|]. intros x Hx. apply Hno. set_solver.
    - intros [->|(He & P1 & P2 & -> & Hno)].
      + exists P, []. split; [done|set_solver].
      + exists P1, (P2 ++ [e]). split; [by rewrite -app_assoc|]. intros x. set_solver. }
  assert (forall x, (exists v, EItem v ∈ P ++ [e] /\ ie_QueuedFrom v <> "" /\ ie_QueuedFrom v = x) <->
    (exists v, e = EItem v /\ ie_QueuedFrom v <> "" /\ ie_QueuedFrom v = x) \/
    exists v, EItem v ∈ P /\ ie_QueuedFrom v <> "" /\ ie_QueuedFrom v = x) as Hd.
  { intros x. setoid_rewrite elem_of_app. setoid_rewrite list_elem_of_singleton. naive_solver. }
  split; intros x; [rewrite Hq|rewrite Hd]; rewrite -?IH1 -?IH2; clear IH1 IH2 Hq Hd.
  - assert ((queued_step acc e).1 = match e with
        | EQueued v => acc.1 ++ [v]
        | _ => if run_end e then [] else acc.1 end) as ->.
    { destruct e as [v| | | | | | | | | | |v| | | |v|]; try done; simpl; [by case_decide|by destruct (IsEnd v)]. }
    destruct e as [v| | | | | | | | | | |v| | | |v|]; simpl;
      try (split; [by intros ?; right|by intros [|[_ ?]]]).
    + destruct (IsEnd v); split; [set_solver|by intros [|[]]|by right|by intros [|[]]].
    + rewrite elem_of_app list_elem_of_singleton. split; [intros [?| ->]; auto|intros [[= ->]|[_ ?]]; auto].
  - assert ((queued_step acc e).2 = match e with
        | EItem v => if decide (ie_QueuedFrom v <> "") then {[ie_QueuedFrom v]} ∪ acc.2 else acc.2
        | _ => acc.2 end) as ->.
    { destruct e as [v| | | | | | | | | | |v| | | |v|]; try done; simpl; [by case_decide|by destruct (IsEnd v)]. }
    destruct e as [v| | | | | | | | | | |v| | | |v|];
      try (split; [by right|by intros [(? & ? & _)|?]]).
    case_decide as Hv.
    + rewrite elem_of_union elem_of_singleton. split.
      * intros [->|]; [left; by exists v|by right].
      * intros [(v' & [= <-] & _ & <-)|]; auto.
    + split; [by right|]. by intros [(v' & [= <-] & ? & _)|].
Qed.

(** The pending inbox of a path is exactly its queued entries with no run
    end after them that no item entry of the path says it is. *)
Lemma Queued_spec P q :
  q ∈ Queued P <->
  (exists P1 P2, P = P1 ++ EQueued q :: P2 /\ forall e, e ∈ P2 -> run_end e = false) /\
  (forall e, e ∈ P -> ~ drains q e).
Proof.
  unfold Queued. destruct (queued_acc P) as [H1 H2]. destruct (foldl queued_step _ _) as [op dr].
  simpl in H1, H2. rewrite list_elem_of_filter H1 H2. unfold drains. split.
  - intros [Hn Hq]. split; [done|]. intros e He Hd. apply Hn. destruct e as [v| | | | | | | | | | | | | | | |]; naive_solver.
  - intros [Hq Hn]. split; [|done]. intros (v & Hv & Hd). by apply (Hn _ Hv).
Qed.

(** ** The partition into runs *)

Definition no_start P : Prop := forall e, e ∈ P -> is_start e = None.

(** How runs lie on a path: entries before the first start belong to none; a
    run opens at its start and takes every entry up to the next start, or up to
    the end entry with its run id, after which entries belong to no run.  The
    last argument is the run still open. *)
Inductive laid_out : list Entry -> list Run -> option Run -> Prop :=
  | lo_none P : no_start P -> laid_out P [] None
  | lo_open P rs o v seg :
      laid_out P rs o -> IsStart v = true -> no_start seg ->
      (forall e, e ∈ seg -> end_matches e v = None) ->
      laid_out (P ++ ERun v :: seg) (rs ++ option_list o)
        (Some (mkRun v None (ERun v :: seg) (Some (P ++ ERun v :: seg))))
  | lo_closed P rs r en gap :
      laid_out P rs (Some r) -> end_matches (ERun en) (r_Start r) = Some en -> no_start gap ->
      laid_out (P ++ ERun en :: gap)
        (rs ++ [mkRun (r_Start r) (Some en) (r_Segment r ++ [ERun en]) (Some (P ++ [ERun en]))]) None.

Lemma start_not_end v : IsStart v = true -> IsEnd v = false.
Proof. unfold IsStart, IsEnd. rewrite bool_decide_eq_true. by intros ->. Qed.

Lemma no_start_snoc P e : no_start P -> is_start e = None -> no_start (P ++ [e]).
Proof. intros H He x. rewrite elem_of_app list_elem_of_singleton. intros [| ->]; auto. Qed.

Lemma laid_open P rs r : laid_out P rs (Some r) -> r_End r = None /\ r_Path r = Some P /\ exists l, P = l ++ r_Segment r.
Proof. inversion 1; subst. split_and!; [done..|]. by eexists. Qed.

Definition Runs_acc P : list Run * option Run := foldl_idx (Runs_step P) 0 ([], None) P.

Lemma Runs_acc_snoc P e : Runs_acc (P ++ [e]) = Runs_step (P ++ [e]) (Runs_acc P) (length P) e.
Proof.
  unfold Runs_acc. rewrite foldl_idx_snoc. f_equal. apply foldl_idx_ext. intros b j x Hx.
  unfold Runs_step. rewrite take_app_le //. apply lookup_lt_Some in Hx. simpl. lia.
Qed.

(** The loop's state: the open run is the one it is filling; a run just ended
    is still current until the next entry. *)
Definition holds_runs (acc : list Run * option Run) rs o : Prop :=
  match o with
  | Some r => acc = (rs, Some r)
  | None => acc = (rs, None) \/ exists rs' r en, rs = rs' ++ [r] /\ acc = (rs', Some r) /\ r_End r = Some en
  end.

Lemma holds_runs_list acc rs o : holds_runs acc rs o -> acc.1 ++ option_list acc.2 = rs ++ option_list o.
Proof.
  destruct o as [r|]; simpl; [by intros ->|]. intros [->|(rs' & r & en & -> & -> & _)]; [done|].
  by rewrite /= app_nil_r.
Qed.

Lemma Runs_step_start P acc v :
  IsStart v = true ->
  Runs_step (P ++ [ERun v]) acc (length P) (ERun v) =
  (acc.1 ++ option_list acc.2, Some (mkRun v None [ERun v] (Some (P ++ [ERun v])))).
Proof.
  intros Hv. unfold Runs_step, is_start. rewrite Hv /=. unfold Runs_take, end_matches.
  rewrite start_not_end //= take_ge //. rewrite length_app /=. lia.
Qed.

Lemma Runs_step_open P rs r e :
  is_start e = None -> r_End r = None ->
  Runs_step (P ++ [e]) (rs, Some r) (length P) e = (rs, Some (Runs_take r e (P ++ [e]))).
Proof.
  intros He Hr. unfold Runs_step. rewrite He Hr take_ge //. rewrite length_app /=. lia.
Qed.

Lemma laid_out_acc P : exists rs o, laid_out P rs o /\ holds_runs (Runs_acc P) rs o.
Proof.
  induction P as [|e P (rs & o & Hl & Hh)] using rev_ind.
  { exists [], None. split; [|by left]. constructor. intros e. set_solver. }
  rewrite Runs_acc_snoc. destruct (is_start e) as [v|] eqn:He.
  { destruct e as [| | | | | | | | | | |v'| | | | |]; try done. simpl in He.
    destruct (IsStart v') eqn:Hv; [|done]. injection He as ->.
    eexists _, _. split; [apply (lo_open P rs o v []); [done..|set_solver|set_solver]|].
    rewrite Runs_step_start //. simpl. by rewrite (holds_runs_list _ _ _ Hh). }
  destruct o as [r|].
  - simpl in Hh. rewrite Hh. destruct (laid_open _ _ _ Hl) as (Hend & _ & _).
    rewrite Runs_step_open //. unfold Runs_take. rewrite Hend.
    destruct (end_matches e (r_Start r)) as [en|] eqn:Hm.
    + assert (e = ERun en) as ->.
      { destruct e; try done. simpl in Hm. destruct (_ && _); [|done]. by injection Hm as ->. }
      eexists _, None. split; [apply (lo_closed P rs r en []); [done..|set_solver]|]. right. eauto 8.
    + inversion Hl as [|P0 rs0 o0 v seg Hl0 Hv Hns Hne| ]; subst. simpl in *.
      eexists _, _. split.
      * replace ((P0 ++ ERun v :: seg) ++ [e]) with (P0 ++ ERun v :: (seg ++ [e])) by by rewrite -app_assoc.
        apply lo_open; [done..|by apply no_start_snoc|].
        intros x. rewrite elem_of_app list_elem_of_singleton. intros [| ->]; auto.
      * simpl. by rewrite -app_assoc.
  - assert (holds_runs (Runs_step (P ++ [e]) (Runs_acc P) (length P) e) rs None) as Hs.
    { left. destruct Hh as [->|(rs' & r & en & -> & -> & Hen)]; unfold Runs_step; rewrite He ?Hen //. }
    exists rs, None. split; [|done]. inversion Hl as [P0 Hns| |P0 rs0 r en gap Hl0 Hm Hns]; subst.
    + constructor. by apply no_start_snoc.
    + rewrite -app_assoc /=. constructor; [done..|by apply no_start_snoc].
Qed.

Lemma Runs_acc_list P : Runs P = (Runs_acc P).1 ++ option_list (Runs_acc P).2.
Proof. unfold Runs. fold (Runs_acc P). by destruct (Runs_acc P). Qed.

(** [Runs] finds the runs as they lie on the path: each run's segment is
    the stretch of the path from its start to its end, or to the next start;
    its path ends where its segment does; and no entry is in two runs. *)
Lemma Runs_laid_out P : exists rs o, laid_out P rs o /\ Runs P = rs ++ option_list o.
Proof.
  destruct (laid_out_acc P) as (rs & o & Hl & Hh). exists rs, o. split; [done|].
  by rewrite Runs_acc_list (holds_runs_list _ _ _ Hh).
Qed.

(** ** The entries a call names *)

Definition mentions c : list string :=
  ID (ie_Base (c_Entry c)) :: ((fun o => ID (ie_Base o)) <$> option_list (c_Output c))
  ++ ((fun d => ID (dc_Base d)) <$> c_Decisions c) ++ ((fun d => ID (di_Base d)) <$> c_Dispatches c)
  ++ (c_Withdrawn c ≫= fun w => [ID (di_Base w.1); ID (dc_Base w.2)])
  ++ ((fun r => ID (rs_Base r)) <$> option_list (c_Result c)).

Lemma existsb_ext_in {A} (f g : A -> bool) l : (forall x, x ∈ l -> f x = g x) -> existsb f l = existsb g l.
Proof.
  induction l as [|x l IH]; intros H; [done|]. simpl. rewrite H; [|set_solver]. f_equal. apply IH. set_solver.
Qed.

Lemma takenUpIn_ext c (S S' : gset string) :
  (forall x, x ∈ mentions c -> x ∈ S <-> x ∈ S') -> takenUpIn c S = takenUpIn c S'.
Proof.
  intros H. unfold mentions in H. unfold takenUpIn.
  assert (forall x, x ∈ mentions c -> bool_decide (x ∈ S) = bool_decide (x ∈ S')) as Hb
    by (intros x Hx; by apply bool_decide_ext, H).
  unfold mentions in Hb. repeat apply (f_equal2 orb).
  - apply Hb. set_solver.
  - destruct (c_Output c) as [o|]; [|done]. apply Hb. simpl. set_solver.
  - apply existsb_ext_in. intros d Hd. apply Hb. rewrite elem_of_cons !elem_of_app. do 2 right. left.
    by apply (list_elem_of_fmap_2 (fun d => ID (dc_Base d))).
  - apply existsb_ext_in. intros d Hd. apply Hb. rewrite elem_of_cons !elem_of_app. do 3 right. left.
    by apply (list_elem_of_fmap_2 (fun d => ID (di_Base d))).
  - apply existsb_ext_in. intros w Hw.
    assert (forall x, x ∈ [ID (di_Base w.1); ID (dc_Base w.2)] -> bool_decide (x ∈ S) = bool_decide (x ∈ S')) as Hwb.
    { intros x Hx. apply Hb. rewrite elem_of_cons !elem_of_app. do 4 right. left.
      apply list_elem_of_bind. by exists w. }
    f_equal; apply Hwb; set_solver.
  - destruct (c_Result c) as [r|]; [|done]. apply Hb. rewrite elem_of_cons !elem_of_app. simpl. set_solver.
Qed.

Lemma mentions_withdrawal c v x : x ∈ mentions (on_withdrawal c v) -> x ∈ mentions c \/ x = ID (dc_Base v).
Proof.
  unfold on_withdrawal. destruct (last (c_Dispatches c)) as [d|] eqn:Hl; [|by left].
  apply last_Some in Hl as [l Hl]. unfold mentions. simpl. rewrite Hl length_app /= Nat.add_sub take_app_length.
  rewrite bind_app fmap_app !elem_of_cons !elem_of_app /=. set_solver.
Qed.

Lemma mentions_event e c x : x ∈ mentions (event_fn e c) -> x ∈ mentions c \/ x = eid e.
Proof.
  destruct e; simpl; try by left.
  - unfold mentions. simpl. rewrite fmap_app !elem_of_cons !elem_of_app /=. set_solver.
  - unfold on_decision. destruct (withdraws _ _); [apply mentions_withdrawal|].
    unfold mentions. simpl. rewrite fmap_app !elem_of_cons !elem_of_app /=. set_solver.
  - unfold mentions. simpl. rewrite !elem_of_cons !elem_of_app /=. set_solver.
Qed.

Lemma mentions_output v c x : x ∈ mentions (output_fn v c) -> x ∈ mentions c \/ x = ID (ie_Base v).
Proof.
  unfold output_fn. destruct (Pending c); [|by left]. unfold mentions. simpl.
  rewrite !elem_of_cons !elem_of_app /=. set_solver.
Qed.

Lemma elem_of_alter {A} (f : A -> A) i (l : list A) x : x ∈ alter f i l -> x ∈ l \/ exists y, y ∈ l /\ x = f y.
Proof.
  intros Hx. apply list_elem_of_lookup in Hx as [j Hj]. destruct (decide (i = j)) as [->|Hne].
  - rewrite list_lookup_alter_eq in Hj. apply fmap_Some in Hj as (y & Hy & ->). right. exists y.
    split; [by eapply list_elem_of_lookup_2|done].
  - rewrite list_lookup_alter_ne // in Hj. left. by eapply list_elem_of_lookup_2.
Qed.

Lemma calls_mention P c x : c ∈ Calls P -> x ∈ mentions c -> x ∈ ids P.
Proof.
  unfold Calls. revert c x. induction P as [|e P IH] using rev_ind; intros c x; [set_solver|].
  rewrite Calls_acc_snoc ids_app elem_of_app list_elem_of_singleton.
  assert (forall f i, (forall c x, x ∈ mentions (f c) -> x ∈ mentions c \/ x = eid e) ->
    c ∈ ca_out (update f i (Calls_acc P)) -> x ∈ mentions c -> x ∈ ids P \/ x = eid e) as Hu.
  { intros f [i|] Hf; simpl; [|naive_solver]. intros Hc Hx. apply elem_of_alter in Hc as [Hc|(y & Hy & ->)].
    - left. by eapply IH.
    - apply Hf in Hx as [Hx|]; [|by right]. left. by eapply IH. }
  assert (c ∈ ca_out (Calls_acc P) -> x ∈ mentions c -> x ∈ ids P \/ x = eid e) as Hold by naive_solver.
  destruct e as [v| | | | | | | | | | | |v|v|v| |]; simpl; try exact Hold.
  - destruct (item_case (ie_Item v)) as [[y args|y| | | |]|]; try exact Hold.
    + simpl. rewrite elem_of_app list_elem_of_singleton. intros [Hc| ->]; [by apply Hold|].
      unfold mentions. simpl. set_solver.
    + apply (Hu (output_fn v)). apply mentions_output.
  - apply (Hu (event_fn (EDispatch v))). apply mentions_event.
  - apply (Hu (event_fn (EDecision v))). apply mentions_event.
  - apply (Hu (event_fn (EResult v))). apply mentions_event.
Qed.

(** ** Ending a run *)

Lemma Calls_run P v : Calls (P ++ [ERun v]) = Calls P.
Proof. unfold Calls. by rewrite Calls_acc_snoc. Qed.

Lemma entry_set_snoc seg e x :
  x ∈ entry_set (seg ++ [e]) <-> x ∈ entry_set seg \/ x = eid e /\ eid e <> "".
Proof.
  unfold entry_set. rewrite !elem_of_list_to_set !list_elem_of_filter ids_app elem_of_app list_elem_of_singleton.
  naive_solver.
Qed.

Lemma filter_bool_ext {A} (f g : A -> bool) (l : list A) :
  (forall x, x ∈ l -> f x = g x) -> filter (fun x => f x = true) l = filter (fun x => g x = true) l.
Proof.
  induction l as [|x l IH]; intros H; [done|]. rewrite !filter_cons H; [|set_solver].
  rewrite IH; [done|set_solver].
Qed.

(** A run's end adds nothing to what the run did. *)
Lemma runCalls_end P seg v :
  eid (ERun v) ∉ ids P -> runCalls (Some (P ++ [ERun v])) (seg ++ [ERun v]) = runCalls (Some P) seg.
Proof.
  intros Hn. unfold runCalls, whole. simpl. rewrite Calls_run. apply filter_bool_ext. intros c Hc. f_equal.
  rewrite (takenUpIn_ext c (entry_set (seg ++ [ERun v])) (entry_set seg)) //.
  intros x Hx. rewrite entry_set_snoc. split; [|by left]. intros [|[-> _]]; [done|].
  exfalso. apply Hn. by eapply calls_mention.
Qed.

Lemma lastResponse_end seg v : lastResponse (seg ++ [ERun v]) = lastResponse seg.
Proof. unfold lastResponse. by rewrite foldl_app. Qed.

Lemma ComputeReason_end P seg v :
  eid (ERun v) ∉ ids P -> ComputeReason (Some (P ++ [ERun v])) (seg ++ [ERun v]) = ComputeReason (Some P) seg.
Proof.
  intros Hn. unfold ComputeReason. rewrite lastResponse_end runCalls_end // /whole /= Calls_run.
  unfold stoppedOnPath, answersACall. by rewrite lastResponse_end existsb_app /= orb_false_r.
Qed.

Lemma open_run_acc P rs o run :
  laid_out P rs o -> holds_runs (Runs_acc P) rs o -> last (rs ++ option_list o) = Some run -> r_End run = None ->
  o = Some run.
Proof.
  intros Hl Hh Hlast Hend. destruct o as [r|]; simpl in Hlast.
  - rewrite last_snoc in Hlast. congruence.
  - rewrite app_nil_r in Hlast. inversion Hl as [| |P0 rs0 r en gap Hl0 Hm Hns]; subst; [done|].
    rewrite last_snoc in Hlast. injection Hlast as <-. done.
Qed.

(** C26: The end entry [EndRun] builds, appended at the leaf, closes the run
    that is open there: it is that run's end, no run is open after it, and the
    run verifies when the reason is the one its segment has, or one a writer
    may give any segment. *)
Theorem EndRun_verifies s run (reason ref : string) en v :
  OpenRun s (s_leaf s) = Ok (Some run) -> EndRun s reason ref = Ok en ->
  run_RunID v = run_RunID en -> run_Phase v = run_Phase en -> run_Reason v = run_Reason en ->
  run_Pending v = run_Pending en -> eid (ERun v) ∉ ids (path s (s_leaf s)) ->
  reason ∈ [ComputeReason (r_Path run) (r_Segment run); ReasonError; ReasonInterrupted] ->
  exists closed, Runs (path s (s_leaf s) ++ [ERun v]) = closed ++
      [mkRun (r_Start run) (Some v) (r_Segment run ++ [ERun v]) (Some (path s (s_leaf s) ++ [ERun v]))] /\
    Run_Verify (mkRun (r_Start run) (Some v) (r_Segment run ++ [ERun v]) (Some (path s (s_leaf s) ++ [ERun v]))) = Ok tt.
Proof.
  intros Hopen Hend Hid Hph Hre Hpe Hn Hreason. unfold EndRun in Hend. rewrite Hopen /= in Hend. inv_ok.
  unfold OpenRun, Session_Runs in Hopen. inv_ok. set (P := path s (s_leaf s)) in *.
  destruct (last (Runs P)) as [r|] eqn:Hlast; [|done]. destruct (decide (r_End r = None)) as [Hr|]; [|done].
  injection Hopen as ->. destruct (laid_out_acc P) as (rs & o & Hl & Hh).
  pose proof (holds_runs_list _ _ _ Hh) as Hlist. rewrite Runs_acc_list Hlist in Hlast.
  pose proof (open_run_acc _ _ _ _ Hl Hh Hlast Hr) as ->. simpl in Hh.
  destruct (laid_open _ _ _ Hl) as (_ & Hpath & _). simpl in Hid, Hph, Hre, Hpe.
  assert (IsEnd v = true) as HE by (unfold IsEnd; rewrite Hph; done).
  assert (is_start (ERun v) = None) as HS by (simpl; unfold IsStart; rewrite Hph; done).
  exists rs. split.
  - rewrite Runs_acc_list Runs_acc_snoc Hh Runs_step_open //. unfold Runs_take, end_matches.
    rewrite HE Hid bool_decide_eq_true_2 //.
  - unfold Run_Verify. simpl. rewrite Hre Hpe ComputeReason_end // -Hpath.
    assert (Run_Pending (mkRun (r_Start run) (Some v) (r_Segment run ++ [ERun v]) (Some (P ++ [ERun v]))) =
            Run_Pending run) as ->.
    { unfold Run_Pending, Run_Calls. simpl. by rewrite runCalls_end // -Hpath. }
    rewrite (bool_decide_eq_false_2 (sort_strings _ <> sort_strings _)); [|tauto].
    rewrite !elem_of_cons in Hreason.
    destruct Hreason as [->|[->|[->|?%elem_of_nil]]]; [|done..].
    set (x := ComputeReason _ _). rewrite (bool_decide_eq_false_2 (x <> x)); [|tauto]. by rewrite andb_false_r.
Qed.

End RunsProps.
