(* ===== verification/Verify.v ===== *)
(** * The verification of a session's records ([run.go])

    [VerifyRecords], [VerifyLinks] and [VerifyCopies], with the checks each is
    made of, in the source's order. *)
From S2P Require Import Prelude Entry Header Tree Leaf TreeWf Calls CallRules Runs.
Open Scope session_scope.

Section Verify.
Context {OR : OpenResponses} {CA : Canonicaliser} {TE : TriggerEncoding}.
Implicit Types (s : Session) (e : Entry) (c : Call).

(** Run a check over the lines, threading what it has seen. *)
Fixpoint check_lines {A} (step : A -> Entry -> result A) (acc : A) (l : list Entry) : result A :=
  match l with
  | [] => Ok acc
  | e :: l => let! acc := step acc e in check_lines step acc l
  end.

Definition run_check {A} (step : A -> Entry -> result A) (acc : A) (l : list Entry) : result unit :=
  let! _ := check_lines step acc l in Ok tt.

Definition callID_step (seen : gset string) e : result (gset string) :=
  match call_of e with
  | None => Ok seen
  | Some id =>
      refuse_if (bool_decide (id = "")) ErrCallIDEmpty ;!
      refuse_if (bool_decide (id ∈ seen)) ErrCallIDRepeated ;!
      Ok ({[id]} ∪ seen)
  end.
Definition verifyCallIDs s : result unit := run_check callID_step ∅ (s_entries s).

Definition spawnID_step (seen : gset string) e : result (gset string) :=
  match e with
  | ELink l =>
      if decide (ln_Rel l <> RelSubsession \/ ln_SpawnID l = "") then Ok seen
      else
        refuse_if (bool_decide (ln_CallID l <> "")) ErrSpawnLink ;!
        if decide (ln_Cancel l <> "") then Ok seen
        else refuse_if (bool_decide (ln_SpawnID l ∈ seen)) ErrSpawnIDRepeated ;!
             Ok ({[ln_SpawnID l]} ∪ seen)
  | _ => Ok seen
  end.
Definition verifySpawnIDs s : result unit := run_check spawnID_step ∅ (s_entries s).

(** A decision or dispatch names, by target, a function call before it on the
    path with its call ID. *)
Definition target_check (calls : gmap string string) (callID target : string) : result unit :=
  match calls !! target with
  | None => Err ErrBadTarget
  | Some got => refuse_if (bool_decide (got <> callID)) ErrBadTarget
  end.
Definition verifyTargets_step (calls : gmap string string) e : result (gmap string string) :=
  match e with
  | EItem v => Ok (match function_call v with Some (c, _) => <[eid e := c]> calls | None => calls end)
  | EDecision v => target_check calls (dc_CallID v) (dc_Target v) ;! Ok calls
  | EDispatch v => target_check calls (di_CallID v) (di_Target v) ;! Ok calls
  | _ => Ok calls
  end.
Definition verifyTargets (path : list Entry) : result unit := run_check verifyTargets_step ∅ path.

(** [checkCallee]: [before] is the callee link an id names earlier. *)
Definition checkCallee (l : LinkEntry) (before : string -> option LinkEntry) : result unit :=
  if decide (ln_Cancel l <> "") then
    match before (ln_Target l) with
    | None => Err ErrCalleeLink
    | Some to =>
        refuse_if (bool_decide (ln_CallID to <> ln_CallID l) || bool_decide (ln_SpawnID to <> ln_SpawnID l)
                   || bool_decide (ln_Rel to <> ln_Rel l)) ErrCalleeLink
    end
  else refuse_if (bool_decide (ln_Rel l = RelPeer) && bool_decide (ln_URL l <> "")
                  && bool_decide (ln_CallID l = "")) ErrCalleeLink.

Definition verifyCallees_step (seen : gmap string LinkEntry) e : result (gmap string LinkEntry) :=
  match e with
  | ELink l =>
      if callee l then
        checkCallee l (fun id => seen !! id) ;!
        Ok (if decide (ln_Cancel l = "") then <[eid e := l]> seen else seen)
      else Ok seen
  | _ => Ok seen
  end.
Definition verifyCallees (path : list Entry) : result unit := run_check verifyCallees_step ∅ path.

Definition verifyFromLinks_step (peers : gset string) e : result (gset string) :=
  match e with
  | ELink v =>
      Ok (if decide (ln_Rel v = RelPeer /\ ln_Cancel v = "") then {[eid e]} ∪ peers else peers)
  | EItem v =>
      refuse_if (bool_decide (ie_FromLink v <> "") && bool_decide (ie_FromLink v ∉ peers)) ErrBadFromLink ;!
      Ok peers
  | _ => Ok peers
  end.
Definition verifyFromLinks (path : list Entry) : result unit := run_check verifyFromLinks_step ∅ path.

(** [copied]: by function call entry; [byCallID]: by the latest call with each
    call ID.  A key that is not there reads as not copied. *)
Definition copied_refs (self : string) (v : ItemEntry) : result unit :=
  refuse_if (match ie_CopiedFrom v with Some cf => bool_decide (cf_Session cf = self) | None => false end)
    ErrBadCopiedFrom ;!
  refuse_if (bool_decide (is_Some (ie_CopiedFrom v)) && bool_decide (ie_ResponseID v <> "")) ErrBadCopiedFrom.

Definition verifyCopied_step (self : string) (acc : gmap string bool * gmap string bool) e
    : result (gmap string bool * gmap string bool) :=
  let '(copied, byCallID) := acc in
  let named target := default false (copied !! target) in
  match e with
  | EItem v =>
      copied_refs self v ;!
      let isCopy := bool_decide (is_Some (ie_CopiedFrom v)) in
      match item_case (ie_Item v) with
      | Some (FunctionCall c _) => Ok (<[eid e := isCopy]> copied, <[c := isCopy]> byCallID)
      | Some (FunctionCallOutput c) =>
          refuse_if (default false (byCallID !! c) && negb isCopy) ErrBadCopiedFrom ;! Ok acc
      | _ => Ok acc
      end
  | EDecision v => refuse_if (named (dc_Target v)) ErrCopiedCall ;! Ok acc
  | EDispatch v => refuse_if (named (di_Target v)) ErrCopiedCall ;! Ok acc
  | EResult v => refuse_if (named (rs_Target v)) ErrCopiedCall ;! Ok acc
  | _ => Ok acc
  end.
Definition verifyCopied (self : string) (path : list Entry) : result unit :=
  run_check (verifyCopied_step self) (∅, ∅) path.

(** [Layers]: the list, or the single layer as a list of one, nil for neither. *)
Definition layers_of (part : option LayerRef) (layers : option (list LayerRef)) : option (list LayerRef) :=
  match part with Some p => Some [p] | None => layers end.
Definition item_Layers (e : ItemEntry) := layers_of (ie_InstructionsPart e) (ie_InstructionsLayers e).
Definition queued_Layers (e : QueuedEntry) := layers_of (qu_InstructionsPart e) (qu_InstructionsLayers e).

Definition Trigger_Equal (t u : option Trigger) : bool :=
  match t, u with
  | Some t, Some u =>
      match canonicalTrigger t, canonicalTrigger u with
      | Some ct, Some cu => bool_decide (ct = cu)
      | _, _ => false
      end
  | None, None => true
  | _, _ => false
  end.

Definition drain_mismatch (q : QueuedEntry) (v : ItemEntry) : bool :=
  match qu_Visible q with Some b => bool_decide (ie_Visible v <> Some b) | None => false end
  || bool_decide (is_Some (qu_Trust q)) && negb (sameTrust (qu_Trust q) (ie_Trust v))
  || match queued_Layers q with
     | Some l => bool_decide (l <> default [] (item_Layers v))
     | None => false
     end
  || bool_decide (is_Some (qu_Trigger q)) && bool_decide (is_Some (ie_Source v))
     && negb (Trigger_Equal (qu_Trigger q) (ie_Source v))
  || bool_decide (is_Some (qu_Trigger q)) && negb (bool_decide (is_Some (ie_Source v)))
     && (bool_decide (is_Some (qu_Visible q)) || bool_decide (is_Some (qu_Trust q))
         || bool_decide (is_Some (queued_Layers q))).

Definition verifyDrains_step (queued : gmap string QueuedEntry) e : result (gmap string QueuedEntry) :=
  match e with
  | EQueued v => Ok (<[eid e := v]> queued)
  | EItem v =>
      match queued !! ie_QueuedFrom v with
      | None => Ok queued
      | Some q => refuse_if (drain_mismatch q v) ErrDrainMismatch ;! Ok queued
      end
  | _ => Ok queued
  end.
Definition verifyDrains (path : list Entry) : result unit := run_check verifyDrains_step ∅ path.

(** The loop over the runs. *)
Definition verifyRun (r : Run) : result unit :=
  Run_Verify r ;!
  let src := run_Source (r_Start r) in
  refuse_if ((bool_decide (src = SourceInput) || bool_decide (src = SourceResume))
             && bool_decide (src <> ComputeSource r)
             && negb (bool_decide (src = SourceResume) && Empty r)) ErrSourceMismatch.

(** The loop over the calls: what the replay noted, then what the header's
    promise of dispatch records covers. *)
Definition verifyViolations (w : Violations) : result unit :=
  match v_ended w with
  | Some d => Err (if decide (dc_Verdict d = VerdictAnswer) then ErrCallAnswered else ErrCallRejected)
  | None =>
      refuse_if (bool_decide (is_Some (v_afterAnswer w))) ErrCallAnswered ;!
      refuse_if (bool_decide (is_Some (v_afterReject w))) ErrCallRejected ;!
      refuse_if (bool_decide (is_Some (v_badResult w))) ErrBadResult ;!
      refuse_if (bool_decide (is_Some (v_afterResult w))) ErrCallReturned ;!
      refuse_if (bool_decide (is_Some (v_outputMismatch w))) ErrResultMismatch ;!
      refuse_if (bool_decide (is_Some (v_rejectAfterDispatch w))) ErrRejectDispatched ;!
      refuse_if (bool_decide (is_Some (v_dispatchAfterOutput w))) ErrCallCompleted ;!
      refuse_if (bool_decide (is_Some (v_endAfterOutput w))) ErrCallCompleted
  end.

(** The header's records promise covers an entry the session wrote, after its
    base. *)
Definition promised s (id : string) : bool :=
  HasRecord (s_header s) TypeDispatch && negb (bool_decide (id ∈ s_prefix s)).

Definition verifyCall s (on : string -> bool) (c : Call) : result unit :=
  if Copied c then Ok tt
  else
    verifyViolations (c_violations c) ;!
    refuse_if (Answered c && bool_decide (c_Dispatch c = None)
               && promised s (ID (ie_Base (c_Entry c)))
               && negb (dispatchedOff s (ID (ie_Base (c_Entry c))) on)) ErrAnswerNotDispatched ;!
    refuse_if (match c_Output c with
               | Some o => bool_decide (c_Dispatch c = None) && negb (Rejected c) && negb (Answered c)
                           && promised s (ID (ie_Base o))
               | None => false
               end) ErrRecordMissing.

Fixpoint check_all {A} (f : A -> result unit) (l : list A) : result unit :=
  match l with [] => Ok tt | x :: l => f x ;! check_all f l end.

Definition VerifyRecords s (leaf : string) : result unit :=
  let path := path s leaf in
  refuse_if (bool_decide (path = [])) ErrNoEntry ;!
  verifyCallIDs s ;!
  verifySpawnIDs s ;!
  verifyTargets path ;!
  verifyCallees path ;!
  verifyFromLinks path ;!
  verifyCopied (h_ID (s_header s)) path ;!
  verifyDrains path ;!
  check_all verifyRun (Runs path) ;!
  check_all (verifyCall s (onPath path)) (Calls path).

(** ** Checks against other sessions *)

(** [VerifyLinks], [resolve] giving the session an id names, [None] for one
    that is not found. *)
Definition verifyLink s (resolve : string -> result (option Session)) e : result unit :=
  match e with
  | ELink l =>
      if decide (ln_Rel l <> RelSubsession \/ eid e ∈ s_prefix s) then Ok tt
      else if decide (ln_Cancel l <> "" \/ ln_URL l <> "") then Ok tt
      else
        let! target := resolve (ln_Session l) in
        match target with
        | None => Ok tt
        | Some t =>
            let anchor := if decide (ln_SpawnID l <> "") then ln_SpawnID l else ln_CallID l in
            refuse_if (bool_decide (h_ParentSession (s_header t) <> h_ID (s_header s))
                       || bool_decide (h_SpawnedBy (s_header t) <> anchor)) ErrLinkMismatch
        end
  | _ => Ok tt
  end.
Definition VerifyLinks s (resolve : string -> result (option Session)) : result unit :=
  check_all (verifyLink s resolve) (s_entries s).

(** [VerifyCopies]: each session is resolved once, which changes nothing that
    is returned when [resolve] is a function. *)
Definition verifyCopy (resolve : string -> result (option Session)) e : result unit :=
  match e with
  | EItem it =>
      match ie_CopiedFrom it with
      | None => Ok tt
      | Some cf =>
          if decide (cf_Entry cf = "") then Ok tt
          else
            let! src := resolve (cf_Session cf) in
            match src with
            | None => Ok tt
            | Some src =>
                match s_byID src !! cf_Entry cf with
                | Some (EItem from) =>
                    refuse_if (negb (sameItem_opt (ie_Item from) (ie_Item it))) ErrCopyMismatch ;!
                    refuse_if (negb (holdsTrust (ie_Trust it) (ie_Trust from))) ErrCopyMismatch
                | _ => Err ErrCopyMismatch
                end
            end
      end
  | _ => Ok tt
  end.
Definition VerifyCopies s (resolve : string -> result (option Session)) : result unit :=
  check_all (verifyCopy resolve) (s_entries s).

End Verify.
