(* ===== verification/Omit.v ===== *)
(** * Items left out and placeholders in force ([entry.go])

    The [omit] member: its zero test, the groups of its outputs, how a delta
    merges into the object in force ([merged]) and the delta a writer computes
    ([OmitDelta], [outputsDelta] in [context.go]). *)
From S2P Require Import Prelude Entry.
Open Scope session_scope.

(** [hasDefault]: the member writes the default group. *)
Definition hasDefault (o : OmitOutputs) : bool :=
  oo_textSet o || bool_decide (oo_Text o <> "") || bool_decide (oo_Items o <> [])
  || bool_decide (oo_Groups o = []).

(** [TextFor]: the text the output of an entry is sent with. *)
Definition TextFor (o : OmitOutputs) (id : string) : option string :=
  match find (fun g => bool_decide (id ∈ grp_Items g)) (oo_Groups o) with
  | Some g => Some (grp_Text g)
  | None => if hasDefault o && bool_decide (id ∈ oo_Items o) then Some (oo_Text o) else None
  end.

(** [owners]'s [add]: an id in a second group makes the member ill formed. *)
Definition own_add (own : gmap string string) (id key : string) : option (gmap string string) :=
  if decide (id = "") then Some own
  else match own !! id with
       | Some k => if decide (k = key) then Some (<[id := key]> own) else None
       | None => Some (<[id := key]> own)
       end.

Fixpoint own_all (own : gmap string string) (ids : list string) (key : string)
    : option (gmap string string) :=
  match ids with
  | [] => Some own
  | id :: ids => match own_add own id key with Some own => own_all own ids key | None => None end
  end.

(** The loop over the groups: two groups of one text are ill formed too. *)
Fixpoint own_groups (own : gmap string string) (texts : gset string) (gs : list OmitOutputGroup)
    : option (gmap string string) :=
  match gs with
  | [] => Some own
  | g :: gs =>
      if decide (grp_Text g ∈ texts) then None
      else match own_all own (grp_Items g) ("g" ++ grp_Text g)%string with
           | Some own => own_groups own ({[grp_Text g]} ∪ texts) gs
           | None => None
           end
  end.

(** [owners]: the group listing each id, or [None] for an ill-formed member;
    the default group's ids have one key, so adding them cannot fail. *)
Definition owners (o : option OmitOutputs) : option (gmap string string) :=
  match o with
  | None => Some ∅
  | Some o =>
      let own := if hasDefault o then default ∅ (own_all ∅ (oo_Items o) "d") else ∅ in
      own_groups own ∅ (oo_Groups o)
  end.

Definition outputsWellFormed (o : OmitOutputs) : bool := bool_decide (is_Some (owners (Some o))).

(** [outputsOverlap]: the delta would put an entry in two groups.  The owners
    of a held member that is ill formed are none. *)
Definition outputsOverlap (held d : option OmitOutputs) : bool :=
  match owners d with
  | None => true
  | Some dOwn =>
      let hOwn := default ∅ (owners held) in
      existsb (fun x => match hOwn !! x.1 with Some hk => bool_decide (hk <> x.2) | None => false end)
        (map_to_list dOwn)
  end.

(** [union]: the ids of both, each once, empty ones left out, in first order. *)
Definition union_step (out : list string) (id : string) : list string :=
  if decide (id <> "" /\ id ∉ out) then out ++ [id] else out.
Definition union (a b : list string) : list string := foldl union_step [] (a ++ b).

(** The merge of one group into the groups in force. *)
Fixpoint merge_group (g : OmitOutputGroup) (gs : list OmitOutputGroup) : list OmitOutputGroup :=
  match gs with
  | [] => [mkOmitOutputGroup (grp_Text g) (union [] (grp_Items g))]
  | h :: gs =>
      if decide (grp_Text h = grp_Text g)
      then mkOmitOutputGroup (grp_Text h) (union (grp_Items h) (grp_Items g)) :: gs
      else h :: merge_group g gs
  end.

Definition OmitOutputs_zero : OmitOutputs := mkOmitOutputs "" [] [] false.

Definition mergedOutputs (held : option OmitOutputs) (d : OmitOutputs) : OmitOutputs :=
  let out := default OmitOutputs_zero held in
  let out := if hasDefault d
             then mkOmitOutputs (oo_Text d) (union (oo_Items out) (oo_Items d)) (oo_Groups out) true
             else out in
  mkOmitOutputs (oo_Text out) (oo_Items out)
    (foldl (fun gs g => merge_group g gs) (oo_Groups out) (oo_Groups d)) (oo_textSet out).

(** [Omit.IsZero]. *)
Definition Omit_IsZero (o : Omit) : bool :=
  negb (bool_decide (om_Reasoning o <> "") || bool_decide (is_Some (om_Outputs o))
        || bool_decide (is_Some (om_Images o)) || om_undefined o)
  && forallb (fun id => bool_decide (id = "")) (om_Items o).

(** [clone] leaves [undefined] behind. *)
Definition Omit_clone (o : Omit) : Omit :=
  mkOmit (om_Reasoning o) (om_Items o) (om_Outputs o) (om_Images o) false.

Definition merged (o d : Omit) : Omit :=
  if Omit_IsZero d then Omit_zero
  else
    mkOmit
      (if decide (om_Reasoning d = OmitOtherModels) then om_Reasoning d else om_Reasoning o)
      (union (om_Items o) (om_Items d))
      (match om_Outputs d with
       | Some out => if outputsOverlap (om_Outputs o) (om_Outputs d) then om_Outputs o
                     else Some (mergedOutputs (om_Outputs o) out)
       | None => om_Outputs o
       end)
      (match om_Images d with Some i => Some i | None => om_Images o end)
      false.

(** ** The delta a writer computes ([context.go]) *)

Definition idSet (ids : list string) : gset string := list_to_set (filter (fun id => id <> "") ids).

Definition group_of (text : string) (gs : list OmitOutputGroup) : option OmitOutputGroup :=
  find (fun h => bool_decide (grp_Text h = text)) gs.

(** [sameOutputsInForce]. *)
Definition sameOutputsInForce (a b : option OmitOutputs) : bool :=
  match a, b with
  | Some a, Some b =>
      bool_decide (hasDefault a = hasDefault b)
      && negb (hasDefault a && (bool_decide (oo_Text a <> oo_Text b)
                                || bool_decide (idSet (oo_Items a) <> idSet (oo_Items b))))
      && bool_decide (length (oo_Groups a) = length (oo_Groups b))
      && forallb (fun g => match group_of (grp_Text g) (oo_Groups b) with
                           | Some h => bool_decide (idSet (grp_Items g) = idSet (grp_Items h))
                           | None => false
                           end) (oo_Groups a)
  | None, None => true
  | _, _ => false
  end.

(** The ids of [items] not yet in [listed], each once. *)
Definition new_step (acc : gset string * list string) (id : string) : gset string * list string :=
  if decide (id <> "" /\ id ∉ acc.1) then ({[id]} ∪ acc.1, acc.2 ++ [id]) else acc.
Definition new_ids (listed : gset string) (items : list string) : list string :=
  (foldl new_step (listed, []) items).2.

(** The groups a delta writes: each wanted group's new ids, when the group is
    new or gained any. *)
Definition delta_groups (have want : list OmitOutputGroup) : list OmitOutputGroup :=
  omap (fun g =>
          let held := group_of (grp_Text g) have in
          let added := new_ids (match held with Some h => idSet (grp_Items h) | None => ∅ end) (grp_Items g) in
          if decide (held = None \/ added <> []) then Some (mkOmitOutputGroup (grp_Text g) added)
          else None) want.

(** The default group a delta writes, [None] when want would drop an item of
    the one in force. *)
Definition delta_default (have : option OmitOutputs) (want : OmitOutputs)
    : option (string * list string * bool) :=
  let haveDefault := match have with Some h => if hasDefault h then oo_Items h else [] | None => [] end in
  let listed := idSet haveDefault in
  if hasDefault want then
    if decide (listed ⊆ idSet (oo_Items want)) then
      let items := new_ids listed (oo_Items want) in
      if match have with
         | None => true
         | Some h => negb (hasDefault h) || bool_decide (oo_Text h <> oo_Text want)
         end || bool_decide (items <> [])
      then Some (oo_Text want, items, true)
      else Some ("", [], false)
    else None
  else if decide (listed = ∅) then Some ("", [], false) else None.

(** The groups in force all stay, with what they list. *)
Definition keeps_groups (have want : list OmitOutputGroup) : bool :=
  forallb (fun g => match group_of (grp_Text g) want with
                    | Some h => bool_decide (idSet (grp_Items g) ⊆ idSet (grp_Items h))
                    | None => false
                    end) have.

(** [outputsDelta]: the outer [None] when no delta puts [want] in force, the
    inner one for a delta that writes no outputs. *)
Definition outputsDelta (have want : option OmitOutputs) : option (option OmitOutputs) :=
  match want with
  | None => if decide (have = None) then Some None else None
  | Some want =>
      if negb (outputsWellFormed want) then None
      else
        let haveGroups := match have with Some h => oo_Groups h | None => [] end in
        match delta_default have want with
        | None => None
        | Some (text, items, set) =>
            if negb (keeps_groups haveGroups (oo_Groups want)) then None
            else
              let d := mkOmitOutputs text items (delta_groups haveGroups (oo_Groups want)) set in
              if outputsOverlap have (Some d) then None else Some (Some d)
        end
  end.

(** [OmitDelta]: [None] when no single member puts [want] in force, [Some None]
    when it is in force already. *)
Definition OmitDelta (have want : Omit) : option (option Omit) :=
  let listed := idSet (om_Items have) in
  let wanted := idSet (om_Items want) in
  let sameOutputs := sameOutputsInForce (om_Outputs have) (om_Outputs want) in
  let sameImages := bool_decide (om_Images have = om_Images want) in
  if bool_decide (om_Reasoning have = om_Reasoning want) && bool_decide (listed = wanted)
     && sameOutputs && sameImages then Some None
  else if Omit_IsZero want then Some (Some Omit_zero)
  else if bool_decide (om_Reasoning want <> "") && bool_decide (om_Reasoning want <> OmitOtherModels)
          || bool_decide (om_Reasoning have <> "") && bool_decide (om_Reasoning want = "") then None
  else
    match outputsDelta (om_Outputs have) (om_Outputs want) with
    | None => None
    | Some outputs =>
        if decide (~ listed ⊆ wanted \/ (om_Images have <> None /\ om_Images want = None)) then None
        else
          Some (Some (mkOmit
            (if decide (om_Reasoning want <> om_Reasoning have) then om_Reasoning want else "")
            (new_ids listed (om_Items want))
            (if sameOutputs then None else outputs)
            (if sameImages then None else om_Images want)
            false))
    end.
