(* ===== verification/Digest.v ===== *)
(** * Hashes in the format's notation ([hash.go], [env.go])

    SHA-256 is the standard library's, an argument of everything that hashes;
    what the library relies on is that a digest is 64 lowercase hexadecimal
    characters. *)
From S2P Require Import Prelude.

Definition HashPrefix := "sha256:".

(** One character of a lowercase hexadecimal digest. *)
Definition hex_char (c : ascii) : bool :=
  let n := Ascii.N_of_ascii c in
  ((48 <=? n) && (n <=? 57) || (97 <=? n) && (n <=? 102))%N.

(** Every character of a string. *)
Fixpoint str_forall (f : ascii -> bool) (s : string) : bool :=
  match s with
  | EmptyString => true
  | String c s => f c && str_forall f s
  end.

Class SHA256 := {
  (* hex.EncodeToString of the digest *)
  sha256hex : string -> string;
  sha256hex_form s : String.length (sha256hex s) = 64 /\ str_forall hex_char (sha256hex s) = true
}.

(** [HashBytes] and [HashText]. *)
Definition HashBytes `{SHA256} (s : string) : string := (HashPrefix ++ sha256hex s)%string.
Definition HashText `{SHA256} (s : string) : string := HashBytes s.

(** [ValidHash]: the prefix, then exactly 64 lowercase hexadecimal characters. *)
Definition ValidHash (s : string) : bool :=
  bool_decide (String.length s = String.length HashPrefix + 64)
  && bool_decide (substring 0 (String.length HashPrefix) s = HashPrefix)
  && str_forall hex_char (substring (String.length HashPrefix) 64 s).

Lemma str_length_app a b : String.length (a ++ b)%string = String.length a + String.length b.
Proof. induction a as [|c a IH]; simpl; [done|]. by rewrite IH. Qed.

Lemma substring_prefix a b : substring 0 (String.length a) (a ++ b)%string = a.
Proof. induction a as [|c a IH]; simpl; [by destruct b|]. by rewrite IH. Qed.

Lemma substring_suffix a b : substring (String.length a) (String.length b) (a ++ b)%string = b.
Proof.
  induction a as [|c a IH]; simpl; [|done].
  induction b as [|c b IH]; simpl; [done|]. by rewrite IH.
Qed.

(** Every hash the library computes is in the notation. *)
Lemma HashBytes_valid `{SHA256} s : ValidHash (HashBytes s) = true.
Proof.
  destruct (sha256hex_form s) as [Hl Hf]. unfold ValidHash, HashBytes.
  rewrite !andb_true_iff !bool_decide_eq_true. split_and!.
  - by rewrite str_length_app Hl.
  - apply substring_prefix.
  - by rewrite -Hl substring_suffix.
Qed.

(** Two texts with one hash are a collision. *)
Lemma HashText_inj `{SHA256} a b : HashText a = HashText b -> sha256hex a = sha256hex b.
Proof.
  unfold HashText, HashBytes. intros Heq.
  assert (forall p x y : string, (p ++ x)%string = (p ++ y)%string -> x = y) as Hinj.
  { intros p. induction p as [|c p IH]; simpl; [done|]. intros x y [= Hxy]. auto. }
  by apply Hinj in Heq.
Qed.
