(* ===== verification/Settings.v ===== *)
(** * The settings in force on a path ([context.go])

    [Settings.Apply] and the replay of a config delta: the instruction parts
    named by text, hash or keep, the omitted parts with their keeps over the
    list in force or an earlier one, and the deltas a writer computes
    ([InstructionsDelta], [OmittedDelta]). *)
From S2P Require Import Prelude Entry Digest Omit.
Open Scope session_scope.

(** ** Instruction parts *)

(** [InstructionPart.Unresolved]. *)
Definition Unresolved (p : InstructionPart) : bool :=
  bool_decide (ip_Text p = "") && bool_decide (ip_Hash p <> "")
  || bool_decide (ip_ID p = "") && bool_decide (0 < ip_Keep p)%Z
  || ip_unresolved p.

Definition unresolvedParts (parts : list InstructionPart) : bool := existsb Unresolved parts.

Definition PartSeparator : string := String "010" (String "010" "").

(** [JoinInstructions]. *)
Definition JoinInstructions (parts : list InstructionPart) : string :=
  String.concat PartSeparator (ip_Text <$> parts).

(** The part with an id, and its place: a later part of the same id wins. *)
Definition last_index {A} (f : A -> string) (l : list A) : gmap string nat :=
  foldl_idx (fun m i x => <[f x := i]> m) 0 ∅ l.

(** [InstructionPart{Keep: n}], one named by its hash, and one written out. *)
Definition keep_part (n : Z) : InstructionPart := mkInstructionPart "" "" "" None "" n false.
Definition hash_part (id h : string) : InstructionPart := mkInstructionPart id "" "" None h 0 false.
Definition text_part (p : InstructionPart) : InstructionPart :=
  mkInstructionPart (ip_ID p) (ip_Text p) (ip_Source p) (ip_Trust p) "" 0 false.

Section Parts.
Context {SH : SHA256}.

(** [partHistory.find]: the part that most recently left force under [id] with
    the text the hash names. *)
Fixpoint left_find (h : partHistory) (id hash : string) : option InstructionPart :=
  match h with
  | [] => None
  | node :: h =>
      match find (fun p => bool_decide (HashText (ip_Text p) = hash)) (default [] (node !! id)) with
      | Some p => Some p
      | None => left_find h id hash
      end
  end.

(** [partHistory.has]. *)
Definition left_has (h : partHistory) (p : InstructionPart) : bool :=
  match left_find h (ip_ID p) (HashText (ip_Text p)) with
  | Some q => bool_decide (ip_Source q = ip_Source p) && sameTrust (ip_Trust q) (ip_Trust p)
  | None => false
  end.

(** [partHistory.leave]: a new node with each part of [prev] that [now] does
    not hold as it was.  A part's trust is a pointer in the source, so a part
    with trust stays only when [now] holds that very value, carried over by a
    keep: the flag beside it. *)
Definition stays (now : list (InstructionPart * bool)) (p : InstructionPart) : bool :=
  existsb (fun q => bool_decide (q.1 = p) && (bool_decide (ip_Trust p = None) || q.2)) now.

Definition leaving (now : list (InstructionPart * bool)) (p : InstructionPart) : bool :=
  bool_decide (ip_ID p <> "") && negb (Unresolved p) && negb (stays now p).

Definition leave (h : partHistory) (prev : list InstructionPart) (now : list (InstructionPart * bool))
    : partHistory :=
  let gone := filter (fun p => leaving now p = true) prev in
  match gone with
  | [] => h
  | _ => foldl (fun m p => <[ip_ID p := default [] (m !! ip_ID p) ++ [p]]> m) ∅ gone :: h
  end.

(** The text a part named by its hash alone takes: the part in force when it
    has that text or none the path knows, else one that left force. *)
Definition part_for (prev : list InstructionPart) (left : partHistory) (p : InstructionPart)
    : option InstructionPart :=
  match last_index ip_ID prev !! ip_ID p ≫= (fun i => prev !! i) with
  | Some old =>
      if negb (Unresolved old) && bool_decide (HashText (ip_Text old) <> ip_Hash p)
      then left_find left (ip_ID p) (ip_Hash p) else Some old
  | None => left_find left (ip_ID p) (ip_Hash p)
  end.

(** An element that names a part. *)
Definition named_part (prev : list InstructionPart) (left : partHistory) (p : InstructionPart)
    : InstructionPart :=
  if decide (ip_Text p = "" /\ ip_Hash p <> "") then
    match part_for prev left p with
    | Some old =>
        if Unresolved old then
          mkInstructionPart (ip_ID p) (ip_Text p) (ip_Source p) (ip_Trust p) (ip_Hash p) 0 false
        else
          mkInstructionPart (ip_ID p) (ip_Text old)
            (if decide (ip_Source p = "") then ip_Source old else ip_Source p)
            (match ip_Trust p with None => ip_Trust old | Some t => Some t end) "" 0 false
    | None => mkInstructionPart (ip_ID p) (ip_Text p) (ip_Source p) (ip_Trust p) (ip_Hash p) 0 false
    end
  else mkInstructionPart (ip_ID p) (ip_Text p) (ip_Source p) (ip_Trust p) "" 0 false.

(** One element of [applyInstructionParts]: the cursor into the parts in force
    and the parts so far, flagged when a keep carried them over. *)
Definition parts_step (prev : list InstructionPart) (left : partHistory) (named : gset string)
    (acc : nat * list (InstructionPart * bool)) (p : InstructionPart) : nat * list (InstructionPart * bool) :=
  let '(cursor, out) := acc in
  if bool_decide (ip_ID p = "") && bool_decide (0 < ip_Keep p)%Z then
    let n := Z.to_nat (ip_Keep p) in
    let run := take n (drop cursor prev) in
    (cursor + n,
     if bool_decide (length run = n) && forallb (fun q => bool_decide (ip_ID q ∉ named)) run
     then out ++ ((fun q => (q, true)) <$> run) else out ++ [(keep_part (ip_Keep p), false)])
  else if decide (ip_ID p = "") then
    (cursor, out ++ [(mkInstructionPart "" "" "" None "" (ip_Keep p) true, false)])
  else
    (match last_index ip_ID prev !! ip_ID p with Some i => S i | None => cursor end,
     out ++ [(named_part prev left p, false)]).

(** The ids a delta names. *)
Definition part_ids (delta : list InstructionPart) : gset string :=
  list_to_set (filter (fun id => id <> "") (ip_ID <$> delta)).

Definition applyInstructionParts (prev delta : list InstructionPart) (left : partHistory)
    : list (InstructionPart * bool) :=
  (foldl (parts_step prev left (part_ids delta)) (0, []) delta).2.

End Parts.

(** ** Omitted parts *)

Definition keep_omitted (n : Z) (of_ : string) : OmittedPart := mkOmittedPart "" "" 0 "" n of_.

(** [omittedHistory.find]. *)
Definition lists_find (h : omittedHistory) (entry : string) : option (list OmittedPart) :=
  snd <$> find (fun x => bool_decide (x.1 = entry)) h.

(** A cursor of [resolveOmitted]: the list counted over, where its next keep
    starts, and each id's first place. *)
Record cursor := mkCursor { cur_list : list OmittedPart; cur_next : nat }.

Definition first_index (id : string) (l : list OmittedPart) : option nat :=
  if decide (id = "") then None else fst <$> list_find (fun p => op_ID p = id) l.

(** The lists a delta counts over, by the entry an [of] names, "" for the list
    in force. *)
Definition cursors_of (prev delta : list OmittedPart) (lists : omittedHistory) : gmap string cursor :=
  foldl (fun m p =>
           if bool_decide (op_ID p = "") && bool_decide (0 < op_Keep p)%Z && bool_decide (op_Of p <> "")
              && bool_decide (m !! op_Of p = None)
           then match lists_find lists (op_Of p) with
                | Some l => <[op_Of p := mkCursor l 0]> m
                | None => m
                end
           else m)
    {[ "" := mkCursor prev 0 ]} delta.

Definition omitted_ids (delta : list OmittedPart) : gset string :=
  list_to_set (filter (fun id => id <> "") (op_ID <$> delta)).

(** An element naming a part moves the cursor of every list that names it. *)
Definition move_past (id : string) (cur : cursor) : cursor :=
  match first_index id (cur_list cur) with
  | Some i => mkCursor (cur_list cur) (S i)
  | None => cur
  end.

(** The cursors, the list so far and whether a keep with [of] was kept as
    written. *)
Definition omitted_step (named : gset string) (acc : gmap string cursor * list OmittedPart * bool)
    (p : OmittedPart) : gmap string cursor * list OmittedPart * bool :=
  let '(cursors, out, bad) := acc in
  if bool_decide (op_ID p = "") && bool_decide (0 < op_Keep p)%Z then
    match cursors !! op_Of p with
    | None => (cursors, out ++ [keep_omitted (op_Keep p) (op_Of p)], true)
    | Some cur =>
        let n := Z.to_nat (op_Keep p) in
        let run := take n (drop (cur_next cur) (cur_list cur)) in
        let cursors := <[op_Of p := mkCursor (cur_list cur) (cur_next cur + n)]> cursors in
        if bool_decide (length run = n) && forallb (fun q => bool_decide (op_ID q ∉ named)) run
        then (cursors, out ++ run, bad)
        else (cursors, out ++ [keep_omitted (op_Keep p) (op_Of p)], bad || bool_decide (op_Of p <> ""))
    end
  else if decide (op_ID p = "") then (cursors, out ++ [p], bad)
  else
    (move_past (op_ID p) <$> cursors,
     out ++ [mkOmittedPart (op_ID p) (op_Reason p) (op_Size p) (op_Source p) 0 ""], bad).

Definition resolveOmitted (prev delta : list OmittedPart) (lists : omittedHistory)
    : list OmittedPart * bool :=
  let '(_, out, bad) := foldl (omitted_step (omitted_ids delta)) (cursors_of prev delta lists, [], false) delta in
  (out, bad).

Definition applyOmitted (prev delta : list OmittedPart) (lists : omittedHistory) : list OmittedPart :=
  (resolveOmitted prev delta lists).1.

(** [omittedRuns]: each run of parts the list holds, in its order, as a keep;
    [None] when the list cannot be counted over. *)
Definition flush_run (of_ : string) (run : nat) : list OmittedPart :=
  if decide (0 < run) then [keep_omitted (Z.of_nat run) of_] else [].

Fixpoint omittedRuns_go (l : list OmittedPart) (of_ : string) (cursor run : nat)
    (omitted : list OmittedPart) : list OmittedPart :=
  match omitted with
  | [] => flush_run of_ run
  | p :: omitted =>
      match first_index (op_ID p) l with
      | Some j =>
          if bool_decide (l !! j = Some p) && bool_decide (j = cursor + run)
          then omittedRuns_go l of_ cursor (S run) omitted
          else flush_run of_ run ++ p :: omittedRuns_go l of_ (S j) 0 omitted
      | None => flush_run of_ run ++ p :: omittedRuns_go l of_ (cursor + run) 0 omitted
      end
  end.

Definition named_ids (l : list OmittedPart) : list string := filter (fun id => id <> "") (op_ID <$> l).

Definition omittedRuns (l : list OmittedPart) (of_ : string) (omitted : list OmittedPart)
    : option (list OmittedPart) :=
  if decide (NoDup (named_ids l) /\ named_ids l <> [])
  then Some (omittedRuns_go l of_ 0 0 omitted) else None.

Definition maxOmittedLists : nat := 16.

(** The search over the earlier lists, newest first. *)
Fixpoint try_lists (size : list OmittedPart -> nat) (omitted : list OmittedPart) (tried : nat)
    (best : list OmittedPart) (h : omittedHistory) : list OmittedPart :=
  match tried with
  | O => best
  | S tried =>
      match h with
      | [] => best
      | (entry, l) :: h =>
          let best := match omittedRuns l entry omitted with
                      | Some d => if decide (size d < size best) then d else best
                      | None => best
                      end in
          try_lists size omitted tried best h
      end
  end.

(** [OmittedDelta]: nil is [None].  [size] is [encodedSize], the length of the
    JSON [encoding/json] gives a list. *)
Definition OmittedDelta_of (size : list OmittedPart -> nat) (prev : list OmittedPart)
    (lists : omittedHistory) (omitted : list OmittedPart) : option (list OmittedPart) :=
  if decide (prev = omitted) then None
  else if decide (omitted = []) then Some []
  else if decide (~ (NoDup (op_ID <$> omitted)
                     /\ Forall (fun p => op_ID p <> "" /\ op_Keep p = 0%Z /\ op_Of p = "") omitted))
  then Some omitted
  else
    let best := default omitted (omittedRuns prev "" omitted) in
    let best := if decide (size omitted < size best) then omitted else best in
    let rest := match lists with
                | (e, l) :: rest => if decide (l = prev) then rest else lists
                | [] => []
                end in
    Some (try_lists size omitted maxOmittedLists best rest).

(** ** Applying a delta *)

(** [bytes.TrimSpace], over the white space JSON text can hold. *)
Definition is_space (c : ascii) : bool :=
  let n := Ascii.N_of_ascii c in ((n =? 32) || (9 <=? n) && (n <=? 13))%N.
Fixpoint trim_left (s : string) : string :=
  match s with
  | String c s' => if is_space c then trim_left s' else s
  | EmptyString => s
  end.
Fixpoint trim_right (s : string) : string :=
  match s with
  | EmptyString => EmptyString
  | String c s => match trim_right s with
                  | EmptyString => if is_space c then EmptyString else String c EmptyString
                  | s' => String c s'
                  end
  end.

(** [isNull]. *)
Definition isNull (raw : RawMessage) : bool :=
  let t := trim_right (trim_left raw) in bool_decide (t = "") || bool_decide (t = "null").

(** [json.Unmarshal] of a JSON object's string member "name", "" for none. *)
Class NameDecoding := { nameMember : RawMessage -> string }.

Section Apply.
Context {OR : OpenResponses} {SH : SHA256} {ND : NameDecoding}.

(** [ToolName]. *)
Definition ToolName (t : Tool) : string :=
  match toolCase t with
  | FunctionTool name => name
  | UnknownTool raw => nameMember raw
  | OtherTool => ""
  end.

Definition removeTool (tools : list Tool) (name : string) : list Tool :=
  filter (fun t => ToolName t <> name) tools.

Definition addTool (tools : list Tool) (t : Tool) : list Tool :=
  (if decide (ToolName t <> "") then removeTool tools (ToolName t) else tools) ++ [t].

(** The passthrough members: null takes one away. *)
Definition merge_extra (extra c : gmap string RawMessage) : gmap string RawMessage :=
  filter (fun kv => isNull (kv.2) = false) c
  ∪ filter (fun kv => c !! kv.1 = None) extra.

(** What a delta does to the instructions, their parts and the parts that left
    force. *)
Definition apply_instructions (s : Settings) (c : ConfigEntry)
    : string * list InstructionPart * partHistory :=
  let prev := if ce_Replace c then [] else st_InstructionsParts s in
  let left := if ce_Replace c then [] else st_left s in
  let instructions := if ce_Replace c then "" else st_Instructions s in
  if decide (ce_InstructionsParts c <> []) then
    let now := applyInstructionParts prev (ce_InstructionsParts c) left in
    let parts := fst <$> now in
    (match ce_Instructions c with
     | Some i => if unresolvedParts parts then i else JoinInstructions parts
     | None => JoinInstructions parts
     end, parts, leave left prev now)
  else
    match ce_Instructions c with
    | Some i => (i, [], leave left prev [])
    | None => (instructions, prev, left)
    end.

(** What it does to the omitted parts and the lists a keep may name. *)
Definition apply_omitted (s : Settings) (c : ConfigEntry) : list OmittedPart * omittedHistory :=
  let prev := if ce_Replace c then [] else st_InstructionsOmitted s in
  let lists := if ce_Replace c then [] else st_lists s in
  match ce_InstructionsOmitted c with
  | None => (prev, lists)
  | Some delta =>
      let now := applyOmitted prev delta lists in
      (now, if decide (ID (ce_Base c) <> "") then (ID (ce_Base c), now) :: lists else lists)
  end.

(** [Settings.Apply]. *)
Definition Apply (s : Settings) (c : ConfigEntry) : Settings :=
  let base := if ce_Replace c then Settings_zero else s in
  let '(instructions, parts, gone) := apply_instructions s c in
  let '(omitted, lists) := apply_omitted s c in
  mkSettings
    (if decide (ce_Model c <> "") then ce_Model c else st_Model base)
    instructions
    (default (st_Reasoning base) (ce_Reasoning c))
    (default (st_Text base) (ce_Text c))
    parts omitted
    (let om := Omit_clone (st_Omit base) in
     match ce_Omit c with Some d => merged om d | None => om end)
    (foldl addTool (foldl removeTool (st_Tools base) (ce_ToolsRemoved c)) (ce_ToolsAdded c))
    (merge_extra (st_Extra base) (ce_Extra c))
    gone lists.

(** [checkpointSettings] ([context.go]) and [checkpoint] ([session.go]). *)
Definition checkpointSettings (c : CompactionEntry) : Settings :=
  let s := co_Config c in
  mkSettings (st_Model s) (st_Instructions s) (st_Reasoning s) (st_Text s) (st_InstructionsParts s)
    (st_InstructionsOmitted s) (Omit_clone (st_Omit s)) (st_Tools s) (st_Extra s) [] [].

Definition checkpoint (s : Settings) : Settings :=
  mkSettings (st_Model s) (st_Instructions s) (st_Reasoning s) (st_Text s)
    (if unresolvedParts (st_InstructionsParts s) then [] else st_InstructionsParts s)
    (st_InstructionsOmitted s) (st_Omit s) (st_Tools s) (st_Extra s) [] [].

(** [OmittedDelta], over the settings. *)
Definition OmittedDelta (size : list OmittedPart -> nat) (s : Settings) (omitted : list OmittedPart)
    : option (list OmittedPart) :=
  OmittedDelta_of size (st_InstructionsOmitted s) (st_lists s) omitted.

(** [InstructionsDelta]: the elements written for [parts], over the parts in
    force. *)
Definition flush_keep (run : nat) : list InstructionPart :=
  if decide (0 < run) then [keep_part (Z.of_nat run)] else [].

Definition written (s : Settings) (old : option InstructionPart) (p : InstructionPart) : InstructionPart :=
  if match old with
     | None => true
     | Some q => negb (Unresolved q) && bool_decide (ip_Text q <> ip_Text p)
     end && left_has (st_left s) p
  then hash_part (ip_ID p) (HashText (ip_Text p)) else text_part p.

Definition unchanged (q p : InstructionPart) : bool :=
  negb (Unresolved q) && bool_decide (ip_Text q = ip_Text p) && bool_decide (ip_Source q = ip_Source p)
  && sameTrust (ip_Trust q) (ip_Trust p).

Fixpoint delta_go (s : Settings) (cursor run : nat) (parts : list InstructionPart) : list InstructionPart :=
  match parts with
  | [] => flush_keep run
  | p :: parts =>
      let j := last_index ip_ID (st_InstructionsParts s) !! ip_ID p in
      let old := j ≫= (fun j => st_InstructionsParts s !! j) in
      match j, old with
      | Some j, Some q =>
          if unchanged q p then
            if decide (j = cursor + run) then delta_go s cursor (S run) parts
            else flush_keep run ++ hash_part (ip_ID p) (HashText (ip_Text p)) :: delta_go s (S j) 0 parts
          else flush_keep run ++ written s old p :: delta_go s (S j) 0 parts
      | _, _ => flush_keep run ++ written s None p :: delta_go s (cursor + run) 0 parts
      end
  end.

(** Nothing moved: every part in force is unchanged and in its place. *)
Definition same_parts (s : Settings) (parts : list InstructionPart) : bool :=
  bool_decide (length parts = length (st_InstructionsParts s))
  && forallb (fun '(i, p) =>
       match last_index ip_ID (st_InstructionsParts s) !! ip_ID p with
       | Some j => bool_decide (j = i)
                   && match st_InstructionsParts s !! j with Some q => unchanged q p | None => false end
       | None => false
       end) (imap (fun i p => (i, p)) parts).

Definition config_delta (instructions : option string) (parts : list InstructionPart) : ConfigEntry :=
  mkConfigEntry zero_base "" instructions None None parts None [] [] ∅ false None.

Definition InstructionsDelta (s : Settings) (parts : list InstructionPart) : option ConfigEntry :=
  match parts with
  | [] => if decide (st_InstructionsParts s = [] /\ st_Instructions s = "") then None
          else Some (config_delta (Some "") [])
  | _ => if same_parts s parts then None else Some (config_delta None (delta_go s 0 0 parts))
  end.

End Apply.
