(* ===== verification/SettingsProps.v ===== *)
(** * Deltas a writer computes put in force what was asked

    [OmittedDelta] and [InstructionsDelta] against [resolveOmitted] and
    [Apply], and the history invariant the second rests on. *)
From S2P Require Import Prelude Entry Digest Omit Settings.
Open Scope session_scope.

(** ** Omitted parts *)

(** What a caller passes: parts that name one id each, and are no keeps. *)
Definition plain_omitted (p : OmittedPart) : Prop := op_ID p <> "" /\ op_Keep p = 0%Z /\ op_Of p = "".

Definition omitted_ok (omitted : list OmittedPart) : Prop :=
  NoDup (op_ID <$> omitted) /\ Forall plain_omitted omitted.

#[export] Instance plain_omitted_dec p : Decision (plain_omitted p).
Proof. unfold plain_omitted. apply _. Defined.

Lemma plain_step named cursors out bad p :
  plain_omitted p ->
  omitted_step named (cursors, out, bad) p =
  (move_past (op_ID p) <$> cursors, out ++ [p], bad).
Proof.
  intros (Hid & Hk & Ho). unfold omitted_step. rewrite bool_decide_eq_false_2 //= decide_False //.
  destruct p; simpl in *; by subst.
Qed.

Lemma plain_fold named cursors out bad l :
  Forall plain_omitted l ->
  exists cursors', foldl (omitted_step named) (cursors, out, bad) l = (cursors', out ++ l, bad).
Proof.
  intros Hl. revert cursors out. induction Hl as [|p l Hp Hl IH]; intros cursors out; cbn [foldl].
  - exists cursors. by rewrite app_nil_r.
  - rewrite plain_step //. set (cursors2 := _ <$> cursors).
    destruct (IH cursors2 (out ++ [p])) as [c Hc]. exists c. by rewrite Hc -app_assoc.
Qed.

Lemma resolveOmitted_plain prev l lists : Forall plain_omitted l -> resolveOmitted prev l lists = (l, false).
Proof.
  intros Hl. unfold resolveOmitted.
  by destruct (plain_fold (omitted_ids l) (cursors_of prev l lists) [] false l Hl) as [c ->].
Qed.

(** The ids the elements written for [m] name are ids of [m]. *)
Lemma go_ids l of_ cur run m x :
  x ∈ op_ID <$> omittedRuns_go l of_ cur run m -> x <> "" -> x ∈ op_ID <$> m.
Proof.
  assert (forall n, x ∈ op_ID <$> flush_run of_ n -> x = "") as Hf.
  { intros n. unfold flush_run. destruct (decide _); set_solver. }
  revert cur run. induction m as [|p m IH]; intros cur run Hx Hne; simpl in *; [by apply Hf in Hx|].
  destruct (first_index (op_ID p) l) as [j|].
  - destruct (_ && _); [apply IH in Hx; set_solver|].
    rewrite fmap_app elem_of_app fmap_cons elem_of_cons in Hx.
    destruct Hx as [Hx|[->|Hx]]; [by apply Hf in Hx|set_solver|apply IH in Hx; set_solver].
  - rewrite fmap_app elem_of_app fmap_cons elem_of_cons in Hx.
    destruct Hx as [Hx|[->|Hx]]; [by apply Hf in Hx|set_solver|apply IH in Hx; set_solver].
Qed.

(** The first keep of a list is found in the lists counted over. *)
Lemma keep_step named cursors out bad l of_ cur run :
  cursors !! of_ = Some (mkCursor l cur) -> length (take run (drop cur l)) = run ->
  (forall q, q ∈ take run (drop cur l) -> op_ID q ∉ named) ->
  foldl (omitted_step named) (cursors, out, bad) (flush_run of_ run) =
  (<[of_ := mkCursor l (cur + run)]> cursors, out ++ take run (drop cur l), bad).
Proof.
  intros Hc Hlen Hnamed. unfold flush_run. destruct (decide (0 < run)) as [Hr|Hr].
  - cbn [foldl]. unfold omitted_step. cbn [op_ID op_Keep op_Of keep_omitted].
    rewrite bool_decide_eq_true_2 // bool_decide_eq_true_2; [|lia]. cbn [andb]. rewrite Hc. cbn [cur_next cur_list].
    rewrite Nat2Z.id Hlen bool_decide_eq_true_2 //.
    assert (forallb (fun q => bool_decide (op_ID q ∉ named)) (take run (drop cur l)) = true) as ->; [|done].
    apply forallb_forall. intros q Hq. apply list_elem_of_In in Hq. by apply bool_decide_eq_true, Hnamed.
  - assert (run = 0) as -> by lia. simpl. rewrite app_nil_r Nat.add_0_r. by rewrite insert_id.
Qed.

Lemma take_S_drop {A} (l : list A) cur run x :
  l !! (cur + run) = Some x -> length (take run (drop cur l)) = run ->
  take (S run) (drop cur l) = take run (drop cur l) ++ [x].
Proof. intros Hx Hl. apply take_S_r. by rewrite lookup_drop. Qed.

(** What a list [d] of elements written for the parts [m], after the run [r] of
    parts in force not yet written, must say of the ids named in all. *)
Definition names_rest {A} (f : A -> string) (named : gset string) (r m d : list A) : Prop :=
  forall x, x ∈ named -> x ∈ f <$> (r ++ m) -> x ∈ f <$> d /\ x <> "".

(** Writing the run as [fl], whose elements name nothing, and then a part. *)
Lemma names_run {A} (f : A -> string) named r p m (fl o : list A) w :
  NoDup (f <$> (r ++ p :: m)) -> f w = f p ->
  (forall x, x ∈ f <$> fl -> x = "") -> (forall x, x ∈ f <$> o -> x <> "" -> x ∈ f <$> m) ->
  names_rest f named r (p :: m) (fl ++ w :: o) ->
  names_rest f named [] m o /\ (forall q, q ∈ r -> f q ∉ named).
Proof.
  rewrite fmap_app fmap_cons NoDup_app. intros (_ & Hdis & Hnd) Hw Hfl Ho Hn.
  apply NoDup_cons in Hnd as [Hpm Hnd].
  assert (forall x, x ∈ named -> x ∈ f <$> (r ++ p :: m) -> x <> f p -> x ∈ f <$> o /\ x <> "") as Hrest.
  { intros x Hin Hx Hxp. destruct (Hn _ Hin Hx) as [Hout Hne]. split; [|done].
    rewrite fmap_app elem_of_app fmap_cons elem_of_cons Hw in Hout.
    destruct Hout as [Hout|[?|?]]; [|done|done]. by apply Hfl in Hout. }
  split.
  - intros x Hin Hx. apply Hrest; [done|rewrite fmap_app; set_solver|]. intros ->. by simpl in Hx.
  - intros q Hq Hin. assert (f q ∈ f <$> r) as Hqr by by apply list_elem_of_fmap_2.
    specialize (Hdis _ Hqr). rewrite elem_of_cons in Hdis.
    destruct (Hrest _ Hin) as [Hout Hne]; [rewrite fmap_app; set_solver|naive_solver|].
    apply Ho in Hout; naive_solver.
Qed.

Lemma flush_run_ids of_ n x : x ∈ op_ID <$> flush_run of_ n -> x = "".
Proof. unfold flush_run. destruct (decide _); set_solver. Qed.

(** The elements written for [m] after the run [r] of [run] parts in force from
    [cur] on, resolved from cursors that count [l] from [cur]. *)
Definition resolves (l : list OmittedPart) (of_ : string) (named : gset string) (m : list OmittedPart) : Prop :=
  forall cursors out cur run,
    cursors !! of_ = Some (mkCursor l cur) ->
    length (take run (drop cur l)) = run ->
    NoDup (op_ID <$> (take run (drop cur l) ++ m)) -> Forall plain_omitted m ->
    names_rest op_ID named (take run (drop cur l)) m (omittedRuns_go l of_ cur run m) ->
    exists cursors',
      foldl (omitted_step named) (cursors, out, false) (omittedRuns_go l of_ cur run m) =
      (cursors', out ++ take run (drop cur l) ++ m, false).

(** The run written as a keep, then a part written whole. *)
Lemma write_resolves l of_ named p m cursors out cur run cur' :
  resolves l of_ named m ->
  cursors !! of_ = Some (mkCursor l cur) -> length (take run (drop cur l)) = run ->
  NoDup (op_ID <$> (take run (drop cur l) ++ p :: m)) -> Forall plain_omitted (p :: m) ->
  move_past (op_ID p) (mkCursor l (cur + run)) = mkCursor l cur' ->
  names_rest op_ID named (take run (drop cur l)) (p :: m)
    (flush_run of_ run ++ p :: omittedRuns_go l of_ cur' 0 m) ->
  exists cursors',
    foldl (omitted_step named) (cursors, out, false) (flush_run of_ run ++ p :: omittedRuns_go l of_ cur' 0 m) =
    (cursors', out ++ take run (drop cur l) ++ p :: m, false).
Proof.
  intros IH Hc Hlen Hnd Hpl Hmove Hn. apply Forall_cons in Hpl as [Hp Hpl].
  destruct (names_run op_ID _ _ _ _ _ _ _ Hnd eq_refl (flush_run_ids _ _)
              (fun x => go_ids _ _ _ _ _ _) Hn) as [Hrest Hrun].
  rewrite foldl_app (keep_step _ _ _ _ l of_ cur run) //. cbn [foldl]. rewrite plain_step //.
  set (cursors2 := move_past (op_ID p) <$> _).
  destruct (IH cursors2 ((out ++ take run (drop cur l)) ++ [p]) cur' 0) as [c Hfold]; try done.
  - unfold cursors2. by rewrite lookup_fmap lookup_insert_eq /= Hmove.
  - rewrite fmap_app fmap_cons NoDup_app in Hnd. by destruct Hnd as (_ & _ & [_ Hnd]%NoDup_cons).
  - exists c. rewrite Hfold /=. by rewrite -!app_assoc.
Qed.

(** Resolving what [omittedRuns_go] writes gives back what it was written
    for. *)
Lemma go_resolves l of_ named m : resolves l of_ named m.
Proof.
  induction m as [|p m IH]; intros cursors out cur run Hc Hlen Hnd Hpl Hn.
  - simpl in *. eexists. rewrite (keep_step _ _ _ _ l of_ cur run) //; [by rewrite app_nil_r|].
    intros q Hq Hin. destruct (Hn _ Hin) as [Hx Hne]; [rewrite app_nil_r; by apply list_elem_of_fmap_2|].
    unfold flush_run in Hx. destruct (decide _); set_solver.
  - simpl in Hn |- *. destruct (first_index (op_ID p) l) as [j|] eqn:Hj.
    + destruct (bool_decide (l !! j = Some p) && bool_decide (j = cur + run)) eqn:Hm.
      * apply andb_true_iff in Hm as [Hm1 Hm2]. apply bool_decide_eq_true in Hm1, Hm2. subst j.
        pose proof (take_S_drop _ _ _ _ Hm1 Hlen) as Ht.
        assert (take run (drop cur l) ++ p :: m = take (S run) (drop cur l) ++ m) as Happ
          by by rewrite Ht -app_assoc.
        rewrite Happ in Hnd |- *. apply Forall_cons in Hpl as [_ Hpl].
        apply IH; try done; [rewrite Ht length_app Hlen /=; lia|].
        intros x Hin Hx. apply Hn; [done|]. by rewrite Happ.
      * apply write_resolves; try done. by rewrite /move_past /= Hj.
    + apply write_resolves; try done. by rewrite /move_past /= Hj.
Qed.

(** ** The lists a delta counts over *)

Lemma cursors_of_spec prev d lists :
  cursors_of prev d lists !! "" = Some (mkCursor prev 0) /\
  (forall of_ l, of_ <> "" -> lists_find lists of_ = Some l ->
     (exists p, p ∈ d /\ op_ID p = "" /\ (0 < op_Keep p)%Z /\ op_Of p = of_) ->
     cursors_of prev d lists !! of_ = Some (mkCursor l 0)).
Proof.
  unfold cursors_of. set (step := fun m p => _).
  assert (forall d, foldl step {[ "" := mkCursor prev 0 ]} d !! "" = Some (mkCursor prev 0) /\
    (forall of_ x, of_ <> "" -> foldl step {[ "" := mkCursor prev 0 ]} d !! of_ = Some x ->
       exists l, lists_find lists of_ = Some l /\ x = mkCursor l 0) /\
    (forall of_ l, of_ <> "" -> lists_find lists of_ = Some l ->
       (exists p, p ∈ d /\ op_ID p = "" /\ (0 < op_Keep p)%Z /\ op_Of p = of_) ->
       foldl step {[ "" := mkCursor prev 0 ]} d !! of_ = Some (mkCursor l 0))) as H; [|destruct (H d) as (? & _ & ?); by split].
  clear d. intros d. induction d as [|p d (H1 & H2 & H3)] using rev_ind.
  { simpl. split_and!; [by rewrite lookup_singleton_eq| |set_solver].
    intros of_ x Hne. by rewrite lookup_singleton_ne. }
  rewrite foldl_app /=. set (m := foldl step _ d) in *. unfold step.
  destruct (bool_decide (op_ID p = "") && bool_decide (0 < op_Keep p)%Z && bool_decide (op_Of p <> "")
              && bool_decide (m !! op_Of p = None)) eqn:Hc.
  - repeat (apply andb_true_iff in Hc as [Hc ?]). bool_prop.
    destruct (lists_find lists (op_Of p)) as [l|] eqn:Hl.
    + split_and!.
      * by rewrite lookup_insert_ne.
      * intros of_ x Hne. destruct (decide (op_Of p = of_)) as [<-|]; [|rewrite lookup_insert_ne //; by apply H2].
        rewrite lookup_insert_eq. intros [= <-]. eauto.
      * intros of_ l' Hne Hl' (q & Hq & Hq').
        destruct (decide (op_Of p = of_)) as [<-|]; [rewrite lookup_insert_eq; congruence|].
        rewrite lookup_insert_ne //. apply H3; [done..|]. exists q. set_solver.
    + split_and!; [done..|]. intros of_ l' Hne Hl' (q & Hq & Hid & Hk & Ho). apply H3; [done..|]. exists q.
      split; [|done]. apply elem_of_app in Hq as [?|Hq]; [done|]. apply list_elem_of_singleton in Hq as ->. congruence.
  - split_and!; [done..|]. intros of_ l' Hne Hl' (q & Hq & Hid & Hk & Ho).
    apply elem_of_app in Hq as [Hq|Hq]; [apply H3; eauto|]. apply list_elem_of_singleton in Hq as ->.
    rewrite bool_decide_eq_true_2 // bool_decide_eq_true_2 // bool_decide_eq_true_2 /= in Hc; [|congruence].
    apply bool_decide_eq_false in Hc. rewrite Ho in Hc.
    destruct (m !! of_) as [x|] eqn:Hx; [|done]. destruct (H2 _ _ Hne Hx) as (l & ? & ->). congruence.
Qed.

Lemma go_run_keeps l of_ cur run m :
  0 < run -> exists q, q ∈ omittedRuns_go l of_ cur run m /\ op_ID q = "" /\ (0 < op_Keep q)%Z /\ op_Of q = of_.
Proof.
  assert (forall n r, 0 < n -> exists q, q ∈ flush_run of_ n ++ r /\ op_ID q = "" /\ (0 < op_Keep q)%Z /\ op_Of q = of_) as Hf.
  { intros n r Hn. unfold flush_run. rewrite decide_True //. exists (keep_omitted (Z.of_nat n) of_).
    split_and!; [set_solver|done|simpl; lia|done]. }
  revert cur run. induction m as [|p m IH]; intros cur run Hr; simpl.
  { destruct (Hf run [] Hr) as (q & Hq & ?). exists q. by rewrite app_nil_r in Hq. }
  destruct (first_index (op_ID p) l) as [j|]; [|by apply Hf].
  destruct (_ && _); [apply IH; lia|by apply Hf].
Qed.

Lemma go_keeps_or_whole l of_ cur m :
  (exists q, q ∈ omittedRuns_go l of_ cur 0 m /\ op_ID q = "" /\ (0 < op_Keep q)%Z /\ op_Of q = of_) \/
  omittedRuns_go l of_ cur 0 m = m.
Proof.
  revert cur. induction m as [|p m IH]; intros cur; [by right|]. simpl.
  destruct (first_index (op_ID p) l) as [j|].
  - destruct (_ && _); [left; apply go_run_keeps; lia|].
    destruct (IH (S j)) as [(q & ? & ?)|Heq]; [left; exists q; set_solver|right; by rewrite /flush_run /= Heq].
  - destruct (IH (cur + 0)) as [(q & ? & ?)|Heq]; [left; exists q; set_solver|right; by rewrite /flush_run /= Heq].
Qed.

(** A delta over the list in force, or over one the history holds. *)
Lemma omittedRuns_resolves prev lists l of_ omitted d :
  omitted_ok omitted -> (of_ = "" /\ l = prev) \/ (of_ <> "" /\ lists_find lists of_ = Some l) ->
  omittedRuns l of_ omitted = Some d -> resolveOmitted prev d lists = (omitted, false).
Proof.
  intros [Hnd Hpl] Hl. unfold omittedRuns. destruct (decide _); [|done]. intros [= <-].
  destruct (go_keeps_or_whole l of_ 0 omitted) as [Hk|Heq]; [|rewrite Heq; by apply resolveOmitted_plain].
  set (d := omittedRuns_go l of_ 0 0 omitted) in *.
  assert (cursors_of prev d lists !! of_ = Some (mkCursor l 0)) as Hc.
  { destruct (cursors_of_spec prev d lists) as [Hc1 Hc2]. destruct Hl as [[-> ->]|[Hne Hl]]; [done|]. by apply Hc2. }
  destruct (go_resolves l of_ (omitted_ids d) omitted _ [] 0 0 Hc) as [c Hf]; try done.
  - intros x Hx _. unfold omitted_ids in Hx. rewrite elem_of_list_to_set list_elem_of_filter in Hx. naive_solver.
  - unfold resolveOmitted. fold d in Hf. by rewrite Hf.
Qed.

(** The history of lists has one list per config entry. *)
Definition lists_ok (lists : omittedHistory) : Prop := NoDup (fst <$> lists) /\ "" ∉ fst <$> lists.

Lemma lists_find_in lists e l : lists_ok lists -> (e, l) ∈ lists -> e <> "" /\ lists_find lists e = Some l.
Proof.
  intros [Hnd Hne] Hin. split; [intros ->; apply Hne; by apply (list_elem_of_fmap_2 fst) in Hin|].
  unfold lists_find. clear Hne. induction lists as [|[e' l'] lists IH]; [set_solver|].
  rewrite fmap_cons NoDup_cons in Hnd. destruct Hnd as [Hn Hnd].
  apply elem_of_cons in Hin as [[= -> ->]|Hin]; simpl; [by rewrite bool_decide_eq_true_2|].
  rewrite bool_decide_eq_false_2; [by apply IH|].
  intros ->. apply Hn. by apply (list_elem_of_fmap_2 fst) in Hin.
Qed.

Lemma try_lists_resolves size prev lists omitted tried best rest :
  omitted_ok omitted -> lists_ok lists -> rest ⊆ lists ->
  resolveOmitted prev best lists = (omitted, false) ->
  resolveOmitted prev (try_lists size omitted tried best rest) lists = (omitted, false).
Proof.
  intros Ho Hlists. revert best rest. induction tried as [|tried IH]; intros best rest Hsub Hb; [done|].
  simpl. destruct rest as [|[e l] rest]; [done|]. apply IH; [set_solver|].
  destruct (omittedRuns l e omitted) as [d|] eqn:Hd; [|done]. destruct (decide _); [|done].
  eapply omittedRuns_resolves; [done| |done]. right. apply lists_find_in; [done|set_solver].
Qed.

(** The omitted parts a writer asks for are the ones its delta puts in
    force.  Whatever of the three forms [OmittedDelta] picks as the shortest
    (the list whole, keeps over the list in force, or keeps over one of the
    sixteen lists put in force before it), replaying the delta gives exactly
    the list asked for, with no keep left unresolved; nil is returned only when
    the list is in force already. *)
Lemma OmittedDelta_resolves (size : list OmittedPart -> nat) (prev : list OmittedPart)
    (lists : omittedHistory) (omitted : list OmittedPart) :
  omitted_ok omitted -> lists_ok lists ->
  match OmittedDelta_of size prev lists omitted with
  | None => prev = omitted
  | Some d => resolveOmitted prev d lists = (omitted, false)
  end.
Proof.
  intros Ho Hl. unfold OmittedDelta_of. destruct (decide (prev = omitted)); [done|].
  destruct (decide (omitted = [])) as [->|]; [by apply resolveOmitted_plain|].
  rewrite decide_False; [|intros Hbad; by apply Hbad].
  apply try_lists_resolves; try done.
  - destruct lists as [|[e l] rest]; [done|]. destruct (decide (l = prev)); [|done]. set_solver.
  - destruct (decide (size omitted < _)); [apply resolveOmitted_plain, Ho|].
    destruct (omittedRuns prev "" omitted) as [d|] eqn:Hd; simpl; [|apply resolveOmitted_plain, Ho].
    eapply omittedRuns_resolves; [done|by left|done].
Qed.

(** ** Instruction parts *)

Section Instructions.
Context {OR : OpenResponses} {SH : SHA256} {ND : NameDecoding}.

(** A part in force as a part asked for: the same id, text and source, the same
    trust labels, and a text the path knows. *)
Definition agrees (q p : InstructionPart) : Prop := ip_ID q = ip_ID p /\ unchanged q p = true.

(** What a caller passes: parts with their text, each of its own id. *)
Definition plain_part (p : InstructionPart) : Prop :=
  ip_ID p <> "" /\ ip_Hash p = "" /\ ip_Keep p = 0%Z /\ ip_unresolved p = false.

(** The parts that left force have their text, under their own id. *)
Definition left_ok (h : partHistory) : Prop :=
  forall node id ps p, node ∈ h -> node !! id = Some ps -> p ∈ ps -> ip_ID p = id /\ Unresolved p = false.

(** The parts the path knows a text of. *)
Definition known (prev : list InstructionPart) (h : partHistory) (q : InstructionPart) : Prop :=
  q ∈ prev \/ exists node id ps, node ∈ h /\ node !! id = Some ps /\ q ∈ ps.

(** No two of the texts at hand collide. *)
Definition no_collision (prev : list InstructionPart) (h : partHistory) (parts : list InstructionPart) : Prop :=
  forall q p, known prev h q -> p ∈ parts -> HashText (ip_Text q) = HashText (ip_Text p) -> ip_Text q = ip_Text p.

Lemma sameTrust_refl t : sameTrust t t = true.
Proof. destruct t; [|done]. by apply bool_decide_eq_true. Qed.

Lemma unchanged_spec q p :
  unchanged q p = true <->
  Unresolved q = false /\ ip_Text q = ip_Text p /\ ip_Source q = ip_Source p /\ sameTrust (ip_Trust q) (ip_Trust p) = true.
Proof. unfold unchanged. rewrite !andb_true_iff !bool_decide_eq_true negb_true_iff. tauto. Qed.

Lemma last_index_snoc {A} (f : A -> string) l x :
  last_index f (l ++ [x]) = <[f x := length l]> (last_index f l).
Proof. unfold last_index. by rewrite foldl_idx_snoc. Qed.

Lemma last_index_Some {A} (f : A -> string) l k i :
  last_index f l !! k = Some i -> exists x, l !! i = Some x /\ f x = k.
Proof.
  induction l as [|x l IH] using rev_ind; [done|]. rewrite last_index_snoc.
  destruct (decide (f x = k)) as [<-|Hne].
  - rewrite lookup_insert_eq. intros [= <-]. exists x. by rewrite list_lookup_middle.
  - rewrite lookup_insert_ne //. intros Hi. destruct (IH Hi) as (y & Hy & Hk). exists y.
    split; [|done]. rewrite lookup_app_l //. by eapply lookup_lt_Some.
Qed.

Lemma HashText_nonempty t : HashText t <> "".
Proof. done. Qed.

Lemma left_find_known h id hash q :
  left_find h id hash = Some q ->
  HashText (ip_Text q) = hash /\ exists node ps, node ∈ h /\ node !! id = Some ps /\ q ∈ ps.
Proof.
  induction h as [|node h IH]; [done|]. simpl.
  destruct (find _ _) as [p|] eqn:Hf.
  - intros [= <-]. apply find_some in Hf as [Hin Hh]. bool_prop. split; [done|].
    apply list_elem_of_In in Hin. destruct (node !! id) as [ps|] eqn:Hn; [|set_solver].
    exists node, ps. set_solver.
  - intros Hq. destruct (IH Hq) as (Hh & n & ps & ? & ? & ?). split; [done|]. exists n, ps. set_solver.
Qed.

(** Each form the delta writes a part in resolves to the part. *)
Lemma text_part_agrees prev h p : plain_part p -> agrees (named_part prev h (text_part p)) p.
Proof.
  intros (Hid & Hh & Hk & Hu). unfold named_part. simpl. rewrite decide_False; [|tauto]. split; [done|].
  apply unchanged_spec. simpl. split_and!; [|done..|apply sameTrust_refl].
  unfold Unresolved. simpl. by rewrite andb_false_r (bool_decide_eq_false_2 (ip_ID p = "")).
Qed.

Lemma hash_part_agrees prev h p old :
  plain_part p ->
  part_for prev h (hash_part (ip_ID p) (HashText (ip_Text p))) = Some old -> unchanged old p = true ->
  agrees (named_part prev h (hash_part (ip_ID p) (HashText (ip_Text p)))) p.
Proof.
  intros (Hid & _) Hold Hun. apply unchanged_spec in Hun as (Hu & Ht & Hs & Htr).
  unfold named_part. destruct (decide _) as [_|Hn]; [|by destruct Hn]. rewrite Hold Hu.
  split; [done|]. apply unchanged_spec. simpl. split_and!; try done.
  unfold Unresolved. simpl. by rewrite andb_false_r (bool_decide_eq_false_2 (ip_ID p = "")).
Qed.


Lemma written_agrees (s : Settings) p :
  plain_part p -> left_ok (st_left s) -> no_collision (st_InstructionsParts s) (st_left s) [p] ->
  let old := last_index ip_ID (st_InstructionsParts s) !! ip_ID p ≫= (fun j => st_InstructionsParts s !! j) in
  ip_ID (written s old p) = ip_ID p /\
  agrees (named_part (st_InstructionsParts s) (st_left s) (written s old p)) p.
Proof.
  intros Hp Hleft Hcol old. unfold written.
  destruct (_ && left_has _ _) eqn:Hc; [|split; [done|by apply text_part_agrees]].
  apply andb_true_iff in Hc as [Hold Hhas]. split; [done|]. unfold left_has in Hhas.
  destruct (left_find _ _ _) as [q|] eqn:Hq; [|done]. apply andb_true_iff in Hhas as [Hs Ht]. bool_prop.
  destruct (left_find_known _ _ _ _ Hq) as (Hh & node & ps & Hn & Hps & Hin).
  destruct (Hleft _ _ _ _ Hn Hps Hin) as [Hid Hu].
  assert (ip_Text q = ip_Text p) as Htext by (apply Hcol; [right; naive_solver|set_solver|done]).
  apply (hash_part_agrees _ _ _ q); [done| |by apply unchanged_spec].
  unfold part_for. cbn [hash_part ip_ID ip_Hash]. fold old. destruct old as [o|] eqn:Ho; [|done].
  apply andb_true_iff in Hold as [Hou Hot]. bool_prop.
  rewrite Hou bool_decide_eq_true_2 //=. intros Heq. apply Hot, Hcol; [|set_solver|done].
  left. unfold old in Ho. destruct (last_index _ _ !! _) as [j|]; [|done]. simpl in Ho. by eapply list_elem_of_lookup_2.
Qed.

Lemma unchanged_hash_agrees (s : Settings) p j q :
  plain_part p -> last_index ip_ID (st_InstructionsParts s) !! ip_ID p = Some j ->
  st_InstructionsParts s !! j = Some q -> unchanged q p = true ->
  agrees (named_part (st_InstructionsParts s) (st_left s) (hash_part (ip_ID p) (HashText (ip_Text p)))) p.
Proof.
  intros Hp Hj Hq Hun. apply (hash_part_agrees _ _ _ q); try done.
  apply unchanged_spec in Hun as (Hu & Ht & _). unfold part_for. cbn [hash_part ip_ID ip_Hash].
  rewrite Hj /= Hq Hu Ht bool_decide_eq_false_2 //=. tauto.
Qed.

(** What the delta writes for the next part: nothing yet, the part being one
    more of the run kept; or the run, and an element that resolves to it. *)
Lemma delta_go_cons (s : Settings) cur run p m :
  plain_part p -> left_ok (st_left s) -> no_collision (st_InstructionsParts s) (st_left s) [p] ->
  (exists q, st_InstructionsParts s !! (cur + run) = Some q /\ agrees q p /\
     delta_go s cur run (p :: m) = delta_go s cur (S run) m) \/
  (exists w, ip_ID w = ip_ID p /\ agrees (named_part (st_InstructionsParts s) (st_left s) w) p /\
     delta_go s cur run (p :: m) =
     flush_keep run ++ w :: delta_go s (match last_index ip_ID (st_InstructionsParts s) !! ip_ID p with
                                        | Some i => S i | None => cur + run end) 0 m).
Proof.
  intros Hp Hleft Hcol. pose proof (written_agrees s p Hp Hleft Hcol) as [Hwid Hw]. cbn zeta in Hwid, Hw.
  simpl. destruct (last_index ip_ID (st_InstructionsParts s) !! ip_ID p) as [j|] eqn:Hj; simpl in *.
  2:{ right. by exists (written s None p). }
  destruct (last_index_Some _ _ _ _ Hj) as (q & Hq & Hid). rewrite Hq in Hw, Hwid |- *.
  destruct (unchanged q p) eqn:Hun.
  - destruct (decide (j = cur + run)) as [->|Hne].
    + left. by exists q.
    + right. eexists. split_and!; [|by eapply unchanged_hash_agrees|done]. done.
  - right. by exists (written s (Some q) p).
Qed.

Lemma flush_keep_ids n x : x ∈ ip_ID <$> flush_keep n -> x = "".
Proof. unfold flush_keep. destruct (decide _); set_solver. Qed.

Lemma delta_ids (s : Settings) cur run m x :
  Forall plain_part m -> left_ok (st_left s) -> no_collision (st_InstructionsParts s) (st_left s) m ->
  x ∈ ip_ID <$> delta_go s cur run m -> x <> "" -> x ∈ ip_ID <$> m.
Proof.
  intros Hpl Hleft. revert cur run. induction Hpl as [|p m Hp Hpl IH]; intros cur run Hcol Hx Hne.
  { by apply flush_keep_ids in Hx. }
  assert (no_collision (st_InstructionsParts s) (st_left s) m) as Hcol' by (intros q y Hq Hy; apply Hcol; set_solver).
  assert (no_collision (st_InstructionsParts s) (st_left s) [p]) as Hcol1 by (intros q y Hq Hy; apply Hcol; set_solver).
  destruct (delta_go_cons s cur run p m Hp Hleft Hcol1) as [(q & _ & _ & Heq)|(w & Hid & _ & Heq)]; rewrite Heq in Hx.
  - apply IH in Hx; set_solver.
  - rewrite fmap_app elem_of_app fmap_cons elem_of_cons in Hx. destruct Hx as [Hx|[->|Hx]].
    + by apply flush_keep_ids in Hx.
    + rewrite Hid. set_solver.
    + apply IH in Hx; set_solver.
Qed.

Lemma keep_parts_step prev h named cur out run :
  length (take run (drop cur prev)) = run ->
  (forall q, q ∈ take run (drop cur prev) -> ip_ID q ∉ named) ->
  foldl (parts_step prev h named) (cur, out) (flush_keep run) =
  (cur + run, out ++ ((fun q => (q, true)) <$> take run (drop cur prev))).
Proof.
  intros Hlen Hn. unfold flush_keep. destruct (decide (0 < run)) as [Hr|Hr].
  - cbn [foldl]. unfold parts_step. cbn [ip_ID ip_Keep keep_part].
    rewrite bool_decide_eq_true_2 // bool_decide_eq_true_2; [|lia]. cbn [andb].
    rewrite Nat2Z.id Hlen bool_decide_eq_true_2 //.
    assert (forallb (fun q => bool_decide (ip_ID q ∉ named)) (take run (drop cur prev)) = true) as ->; [|done].
    apply forallb_forall. intros q Hq. apply list_elem_of_In in Hq. by apply bool_decide_eq_true, Hn.
  - assert (run = 0) as -> by lia. simpl. by rewrite app_nil_r Nat.add_0_r.
Qed.

Lemma named_parts_step prev h named cur out w :
  ip_ID w <> "" ->
  parts_step prev h named (cur, out) w =
  (match last_index ip_ID prev !! ip_ID w with Some i => S i | None => cur end,
   out ++ [(named_part prev h w, false)]).
Proof. intros Hw. unfold parts_step. rewrite bool_decide_eq_false_2 //= decide_False //. Qed.

(** Applying what [delta_go] writes puts in force the run kept so far, as it
    is, and parts that agree with the rest. *)
Lemma delta_go_applies (s : Settings) named m : forall cur run out,
  let prev := st_InstructionsParts s in
  left_ok (st_left s) -> Forall plain_part m -> no_collision prev (st_left s) m ->
  length (take run (drop cur prev)) = run ->
  NoDup (ip_ID <$> (take run (drop cur prev) ++ m)) ->
  names_rest ip_ID named (take run (drop cur prev)) m (delta_go s cur run m) ->
  exists cur' res,
    foldl (parts_step prev (st_left s) named) (cur, out) (delta_go s cur run m) =
      (cur', out ++ ((fun q => (q, true)) <$> take run (drop cur prev)) ++ res) /\
    Forall2 agrees (fst <$> res) m.
Proof.
  induction m as [|p m IH]; intros cur run out prev Hleft Hpl Hcol Hlen Hnd Hn.
  { exists (cur + run), []. rewrite app_nil_r. split; [|constructor]. apply keep_parts_step; [done|].
    intros q Hq Hin. destruct (Hn _ Hin) as [Hx Hne]; [rewrite app_nil_r; by apply list_elem_of_fmap_2|].
    by apply flush_keep_ids in Hx. }
  apply Forall_cons in Hpl as [Hp Hpl].
  assert (no_collision prev (st_left s) m) as Hcol' by (intros q y Hq Hy; apply Hcol; set_solver).
  assert (no_collision prev (st_left s) [p]) as Hcol1 by (intros q y Hq Hy; apply Hcol; set_solver).
  destruct (delta_go_cons s cur run p m Hp Hleft Hcol1) as [(q & Hq & Ha & Heq)|(w & Hid & Ha & Heq)]; rewrite Heq in Hn |- *.
  - pose proof (take_S_drop _ _ _ _ Hq Hlen) as Ht. fold prev in Ht.
    destruct (IH cur (S run) out) as (cur' & res & Hf & Hres); try done.
    + fold prev. rewrite Ht length_app Hlen /=. lia.
    + fold prev. rewrite Ht -app_assoc /=. rewrite fmap_app fmap_cons in Hnd. rewrite fmap_app fmap_cons. by rewrite (proj1 Ha).
    + fold prev. intros x Hin Hx. apply Hn; [done|]. rewrite Ht -app_assoc in Hx.
      rewrite fmap_app fmap_cons in Hx. rewrite fmap_app fmap_cons. by rewrite -(proj1 Ha).
    + exists cur', ((q, true) :: res). fold prev in Hf. rewrite Ht fmap_app -app_assoc in Hf.
      split; [exact Hf|]. by constructor.
  - destruct (names_run ip_ID named _ p m (flush_keep run) _ w Hnd Hid (flush_keep_ids run)
                (fun x => delta_ids s _ _ m x Hpl Hleft Hcol') Hn) as [Hrest Hrun].
    rewrite foldl_app keep_parts_step //. cbn [foldl]. rewrite named_parts_step; [|rewrite Hid; apply Hp].
    rewrite Hid. set (cur2 := match _ with Some i => S i | None => _ end) in *.
    destruct (IH cur2 0 ((out ++ ((fun q => (q, true)) <$> take run (drop cur prev))) ++ [(named_part prev (st_left s) w, false)]))
      as (cur' & res & Hf & Hres); try done.
    + simpl. rewrite fmap_app fmap_cons NoDup_app in Hnd. by destruct Hnd as (_ & _ & [_ Hnd]%NoDup_cons).
    + exists cur', ((named_part prev (st_left s) w, false) :: res). rewrite Hf /=. rewrite -!app_assoc.
      split; [done|]. by constructor.
Qed.

Lemma same_parts_agree (s : Settings) parts :
  same_parts s parts = true -> Forall2 agrees (st_InstructionsParts s) parts.
Proof.
  unfold same_parts. rewrite andb_true_iff bool_decide_eq_true. intros [Hlen Hall].
  apply Forall2_same_length_lookup_2; [done|]. intros i q p Hq Hp.
  rewrite forallb_forall in Hall. specialize (Hall (i, p)). cbn beta iota in Hall.
  destruct (last_index ip_ID (st_InstructionsParts s) !! ip_ID p) as [j|] eqn:Hj.
  - assert (bool_decide (j = i) && match st_InstructionsParts s !! j with Some q => unchanged q p | None => false end = true)
      as Hc.
    { apply Hall, list_elem_of_In. apply list_elem_of_lookup. exists i. by rewrite list_lookup_imap Hp. }
    apply andb_true_iff in Hc as [Hji Hun]. bool_prop. subst j. rewrite Hq in Hun.
    destruct (last_index_Some _ _ _ _ Hj) as (q' & Hq' & Hid). split; [congruence|done].
  - assert (false = true); [|done]. apply Hall, list_elem_of_In. apply list_elem_of_lookup. exists i.
    by rewrite list_lookup_imap Hp.
Qed.

Lemma agrees_texts qs parts : Forall2 agrees qs parts -> JoinInstructions qs = JoinInstructions parts.
Proof.
  intros Ha. unfold JoinInstructions. f_equal. induction Ha as [|q p qs parts [_ Hun] _ IH]; [done|].
  apply unchanged_spec in Hun as (_ & Ht & _). rewrite !fmap_cons. by rewrite Ht IH.
Qed.

(** The instructions a writer asks for are the ones its delta puts in
    force.  Applying the entry [InstructionsDelta] builds (text, hash or keep
    for each part, whichever says it) leaves in force exactly the parts asked
    for, in order, each with its id, text, source and trust labels, and the
    instructions string their join; nil is returned only when the parts in
    force are the ones asked for.  The texts the path knows are assumed not to
    collide under SHA-256 with those asked for. *)
Lemma InstructionsDelta_applies (s : Settings) (parts : list InstructionPart) :
  Forall plain_part parts -> NoDup (ip_ID <$> parts) ->
  left_ok (st_left s) -> no_collision (st_InstructionsParts s) (st_left s) parts ->
  match InstructionsDelta s parts with
  | None => Forall2 agrees (st_InstructionsParts s) parts
  | Some c =>
      Forall2 agrees (st_InstructionsParts (Apply s c)) parts /\
      st_Instructions (Apply s c) = JoinInstructions parts
  end.
Proof.
  intros Hpl Hnd Hleft Hcol. unfold InstructionsDelta. destruct parts as [|p0 m0].
  { destruct (decide _) as [[-> _]|]; [constructor|]. unfold Apply. cbn. split; [constructor|done]. }
  set (parts := p0 :: m0) in *. destruct (same_parts s parts) eqn:Hsame; [by apply same_parts_agree|].
  destruct (delta_go_applies s (part_ids (delta_go s 0 0 parts)) parts 0 0 []) as (cur & res & Hf & Hres); try done.
  { intros x Hx _. unfold part_ids in Hx. rewrite elem_of_list_to_set list_elem_of_filter in Hx. naive_solver. }
  assert (delta_go s 0 0 parts <> []) as Hne.
  { intros Hnil. rewrite Hnil in Hf. simpl in Hf. injection Hf as _ <-. by inversion Hres. }
  assert (apply_instructions s (config_delta None (delta_go s 0 0 parts)) =
    (JoinInstructions (fst <$> res), fst <$> res,
     leave (st_left s) (st_InstructionsParts s) res)) as Happ.
  { unfold apply_instructions. cbn [ce_Replace ce_InstructionsParts ce_Instructions config_delta].
    rewrite decide_True //. unfold applyInstructionParts. by rewrite Hf /=. }
  unfold Apply. rewrite Happ. cbn -[JoinInstructions]. split; [done|]. by apply agrees_texts.
Qed.

(** ** The parts that left force *)

Lemma leave_ok h prev now : left_ok h -> left_ok (leave h prev now).
Proof.
  intros Hh. unfold leave. set (gone := filter _ prev).
  assert (forall p, p ∈ gone -> Unresolved p = false) as Hg.
  { intros p Hp. apply list_elem_of_filter in Hp as [Hp _]. unfold leaving in Hp.
    destruct (Unresolved p); [|done]. by rewrite andb_false_r in Hp. }
  destruct gone as [|g gone'] eqn:Hgone; [done|]. rewrite -Hgone in Hg |- *. clear Hgone.
  intros node id ps p Hn Hps Hp. apply elem_of_cons in Hn as [->|Hn]; [|by eapply Hh].
  revert id ps p Hps Hp. induction gone as [|x l IH] using rev_ind; [done|].
  intros id ps p. rewrite foldl_app /=. destruct (decide (ip_ID x = id)) as [<-|Hne].
  - rewrite lookup_insert_eq. intros [= <-]. rewrite elem_of_app list_elem_of_singleton.
    intros [Hp| ->]; [|split; [done|apply Hg; set_solver]].
    destruct (foldl _ ∅ l !! ip_ID x) as [ps|] eqn:Hps; [|set_solver]. eapply IH; [set_solver|done|done].
  - rewrite lookup_insert_ne //. apply IH. set_solver.
Qed.

Lemma Apply_left_ok s c : left_ok (st_left s) -> left_ok (st_left (Apply s c)).
Proof.
  intros Hh. unfold Apply. destruct (apply_omitted s c) as [omitted lists] eqn:Ho.
  destruct (apply_instructions s c) as [[i ps] h] eqn:Hi. simpl.
  assert (left_ok []) as Hnil by (intros ? ? ? ?; set_solver).
  unfold apply_instructions in Hi. destruct (decide _); [|destruct (ce_Instructions c)]; injection Hi as <- <- <-.
  all: destruct (ce_Replace c); try done; by apply leave_ok.
Qed.

End Instructions.
