(* ===== verification/Context.v ===== *)
(** * The context algorithm ([context.go])

    What a model call at a point on a path receives: [buildContext] with the
    last compaction applied, the items left out and the placeholders sent, and
    the request context of a response, its own output removed. *)
From S2P Require Import Prelude Entry Header Tree Digest Omit Settings.
Open Scope session_scope.

(** The contents of the openresponses items: what the library reads and copies
    of them. *)
Class ItemContent `{OpenResponses} := {
  Content : Type;
  isInputImage : Content -> bool;
  InputText : string -> Content;
  (* a message's content, an output's list of parts, nothing for others *)
  contentOf : Item -> list Content;
  (* a copy of a message or an output with those parts *)
  with_parts : Item -> list Content -> Item;
  (* a copy of an output with that text *)
  with_text : Item -> string -> Item;
  InputText_no_image t : isInputImage (InputText t) = false;
  with_parts_content it ps : contentOf it <> [] -> contentOf (with_parts it ps) = ps;
  with_parts_case it ps : itemCase (with_parts it ps) = itemCase it;
  with_text_case it t : itemCase (with_text it t) = itemCase it
}.

Section Context.
Context {OR : OpenResponses} {IC : ItemContent} {SH : SHA256} {ND : NameDecoding}.
Implicit Types (e : Entry) (path : list Entry).

(** [ReplacedItem]. *)
Record ReplacedItem := mkReplacedItem { ri_Entry : ItemEntry; ri_Reason : string; ri_Parts : nat }.

(** [Context].  [cx_pairs] is [Items] and [ItemEntries], which the source keeps
    aligned slot by slot; an item may be a nil interface. *)
Record Ctx := mkCtx {
  cx_Settings : Settings;
  cx_pairs : list (option Item * Entry);
  cx_Entries : list Entry;
  cx_OmittedItems : list (ItemEntry * string);
  cx_ReplacedItems : list ReplacedItem;
  cx_Trust : option Trust
}.

Definition Items (c : Ctx) : list (option Item) := fst <$> cx_pairs c.
Definition ItemEntries (c : Ctx) : list Entry := snd <$> cx_pairs c.

(** [Context{}]. *)
Definition Ctx_zero : Ctx := mkCtx Settings_zero [] [] [] [] None.

(** [PathTrust] ([entry.go]). *)
Definition trusts_of e : list (option Trust) :=
  match e with
  | EItem v => [ie_Trust v]
  | EConfig v => ip_Trust <$> ce_InstructionsParts v
  | ECompaction v => co_Trust v :: (ip_Trust <$> st_InstructionsParts (co_Config v))
  | EBranchSummary v => [bs_Trust v]
  | _ => []
  end.
Definition PathTrust path : option Trust := UnionTrust (path ≫= trusts_of).

(** [contextItem]. *)
Definition contextItem e : option Item :=
  match e with EItem v => ie_Item v | EBranchSummary v => bs_Summary v | _ => None end.

(** The slots an entry of the path fills. *)
Definition slots_of e : list (option Item * Entry) :=
  match contextItem e with Some it => [(Some it, e)] | None => [] end.

(** The last compaction of the path and the entries after it. *)
Fixpoint last_compaction path : option (list Entry * CompactionEntry * list Entry) :=
  match path with
  | [] => None
  | e :: path =>
      match last_compaction path with
      | Some (before, c, after) => Some (e :: before, c, after)
      | None => match e with ECompaction c => Some ([], c, path) | _ => None end
      end
  end.

(** The path from the first entry with the id on. *)
Fixpoint from_entry (id : string) path : option (list Entry) :=
  match path with
  | [] => None
  | e :: path' => if decide (eid e = id) then Some path else from_entry id path'
  end.

Definition replay (s : Settings) path : Settings :=
  foldl (fun s e => match e with EConfig c => Apply s c | _ => s end) s path.

(** [modelsOfOutput]. *)
Definition models_step (acc : string * gmap string string) e : string * gmap string string :=
  let '(model, models) := acc in
  match e with
  | EConfig v =>
      (if decide (ce_Model v <> "") then ce_Model v else if ce_Replace v then "" else model, models)
  | ECompaction v => (st_Model (co_Config v), models)
  | EItem v =>
      (model, match item_case (ie_Item v) with
              | Some ReasoningItem =>
                  if decide (ie_ResponseID v <> "" /\ model <> "") then <[eid e := model]> models else models
              | _ => models
              end)
  | _ => acc
  end.
Definition modelsOfOutput path : gmap string string := (foldl models_step ("", ∅) path).2.

(** Why the omit in force leaves an item entry out, [None] when it does not. *)
Definition omit_reason (s : Settings) path (ie : ItemEntry) : option string :=
  if decide (ID (ie_Base ie) ∈ om_Items (st_Omit s)) then Some OmitItems
  else if decide (om_Reasoning (st_Omit s) = OmitOtherModels) then
    match modelsOfOutput path !! ID (ie_Base ie) with
    | Some m => if decide (st_Model s <> "" /\ m <> st_Model s) then Some OmitOtherModels else None
    | None => None
    end
  else None.

Definition slot_reason (s : Settings) path (x : option Item * Entry) : option (ItemEntry * string) :=
  match x.2 with EItem ie => (fun r => (ie, r)) <$> omit_reason s path ie | _ => None end.

(** [leaveOut]. *)
Definition leaveOut path (c : Ctx) : Ctx :=
  let s := cx_Settings c in
  mkCtx s (filter (fun x => slot_reason s path x = None) (cx_pairs c)) (cx_Entries c)
    (omap (slot_reason s path) (cx_pairs c)) (cx_ReplacedItems c) (cx_Trust c).

(** [imageParts]: how many input_image parts an item holds, and
    [withPlaceholders]: those the predicate asks for, by their number among the
    image parts of the request, sent as text. *)
Definition images_in (it : option Item) : nat :=
  match it with Some it => length (filter (fun p => isInputImage p = true) (contentOf it)) | None => 0 end.

Fixpoint placeholders (reached : nat -> bool) (text : string) (n : nat) (ps : list Content) : list Content :=
  match ps with
  | [] => []
  | p :: ps =>
      if isInputImage p
      then (if reached n then InputText text else p) :: placeholders reached text (S n) ps
      else p :: placeholders reached text n ps
  end.

(** The first half of [replaceParts]: the outputs the omit in force lists. *)
Definition output_slot (o : OmitOutputs) (x : option Item * Entry)
    : (option Item * Entry) * option ReplacedItem :=
  match x with
  | (Some it, EItem ie) =>
      match TextFor o (ID (ie_Base ie)), itemCase it with
      | Some text, FunctionCallOutput _ =>
          ((Some (with_text it text), EItem ie), Some (mkReplacedItem ie OmitOutputsReason 0))
      | _, _ => (x, None)
      end
  | _ => (x, None)
  end.

(** The second half, at one slot: [n] image parts lie before it. *)
Definition image_slot (reached : Entry -> nat -> bool) (text : string) (n : nat) (x : option Item * Entry)
    : (option Item * Entry) * option ReplacedItem * nat :=
  match x with
  | (Some it, EItem ie) =>
      let k := images_in (Some it) in
      let hit := length (filter (fun i => reached (EItem ie) i = true) (seq n k)) in
      (if decide (hit = 0) then (x, None)
       else ((Some (with_parts it (placeholders (reached (EItem ie)) text n (contentOf it))), EItem ie),
             Some (mkReplacedItem ie OmitImagesReason hit)), n + k)
  | _ => (x, None, n)
  end.

Fixpoint image_slots (reached : Entry -> nat -> bool) (text : string) (n : nat)
    (l : list (option Item * Entry)) : list (option Item * Entry) * list ReplacedItem :=
  match l with
  | [] => ([], [])
  | x :: l =>
      let '(y, r, n) := image_slot reached text n x in
      let '(ys, rs) := image_slots reached text n l in
      (y :: ys, option_list r ++ rs)
  end.

(** Which image parts [Images] reaches: [None] when its [before] names
    nothing. *)
Definition image_total (l : list (option Item * Entry)) : nat :=
  sum_list ((fun x => match x.2 with EItem _ => images_in x.1 | _ => 0 end) <$> l).

Definition image_reached path (im : OmitImages) (l : list (option Item * Entry)) : option (Entry -> nat -> bool) :=
  if decide (oi_Before im <> "") then
    match last_index eid path !! oi_Before im with
    | None => None
    | Some before =>
        Some (fun e _ => match last_index eid path !! eid e with
                         | Some pos => bool_decide (pos < before)
                         | None => false
                         end)
    end
  else Some (fun _ n => bool_decide (Z.of_nat n < Z.of_nat (image_total l) - oi_Keep im)%Z).

(** [replaceParts]: the outputs first, then the image parts over what remains. *)
Definition replaceOutputs (o : option OmitOutputs) (l : list (option Item * Entry))
    : list (option Item * Entry) * list ReplacedItem :=
  match o with
  | Some o => (fst <$> (output_slot o <$> l), omap (fun x => x.2) (output_slot o <$> l))
  | None => (l, [])
  end.

Definition replaceImages path (im : option OmitImages) (l : list (option Item * Entry))
    : list (option Item * Entry) * list ReplacedItem :=
  match im with
  | None => (l, [])
  | Some im =>
      match image_reached path im l with
      | None => (l, [])
      | Some reached => image_slots reached (oi_Placeholder im) 0 l
      end
  end.

Definition replaceParts path (c : Ctx) : Ctx :=
  let om := st_Omit (cx_Settings c) in
  let '(pairs, outputs) := replaceOutputs (om_Outputs om) (cx_pairs c) in
  let '(pairs, images) := replaceImages path (om_Images om) pairs in
  mkCtx (cx_Settings c) pairs (cx_Entries c) (cx_OmittedItems c)
    (cx_ReplacedItems c ++ outputs ++ images) (cx_Trust c).

(** What the path selects, before anything is left out. *)
Definition compaction_slots (c : CompactionEntry) : list (option Item * Entry) :=
  (co_Summary c, ECompaction c) :: ((fun it => (Some it, ECompaction c)) <$> co_Pinned c).

Definition selected path : result Ctx :=
  match last_compaction path with
  | None => Ok (mkCtx (replay Settings_zero path) (path ≫= slots_of) path [] [] None)
  | Some (before, comp, after) =>
      match from_entry (co_FirstKept comp) before with
      | None => Err ErrOther
      | Some kept =>
          Ok (mkCtx (replay (checkpointSettings comp) after)
                (compaction_slots comp ++ (kept ≫= slots_of) ++ (after ≫= slots_of))
                (ECompaction comp :: kept ++ after) [] [] None)
      end
  end.

Definition set_trust (t : option Trust) (c : Ctx) : Ctx :=
  mkCtx (cx_Settings c) (cx_pairs c) (cx_Entries c) (cx_OmittedItems c) (cx_ReplacedItems c) t.

(** [buildContext] and [BuildContext]. *)
Definition buildContext path (omit : bool) : result Ctx :=
  let! c := selected path in
  let c := if omit && negb (Omit_IsZero (st_Omit (cx_Settings c)))
           then replaceParts path (leaveOut path c) else c in
  Ok (set_trust (PathTrust path) c).

Definition BuildContext path : result Ctx := buildContext path true.

(** [ContextAt]. *)
Definition ContextAt (s : Session) (id : string) : result Ctx :=
  if decide (id = "") then Ok Ctx_zero
  else refuse_if (bool_decide (Tree.path s id = [])) ErrNoEntry ;! BuildContext (Tree.path s id).

(** ** The context of a response's request *)

(** The walk of [OutputEntries] back from the end: the output items it meets,
    newest first, and what is left of the path without them, leaf first. *)
Fixpoint output_walk (resp : string) (rev : list Entry) : list ItemEntry * list Entry :=
  match rev with
  | [] => ([], [])
  | e :: rev' =>
      match e with
      | EItem v =>
          if decide (ie_ResponseID v = "" \/ ie_ResponseID v <> resp) then ([], rev)
          else let '(out, rest) := output_walk resp rev' in (v :: out, rest)
      | _ => let '(out, rest) := output_walk resp rev' in (out, e :: rest)
      end
  end.

Definition OutputEntries path (resp : ResponseEntry) : list ItemEntry :=
  if decide (re_ResponseID resp = "") then []
  else reverse (output_walk (re_ResponseID resp) (reverse path)).1.

(** [requestContextAt]: the output entries are dropped by identity, so exactly
    the ones the walk met. *)
Definition requestContextAt path (resp : ResponseEntry) (omit : bool) : result Ctx :=
  if decide (OutputEntries path resp = []) then buildContext path omit
  else buildContext (reverse (output_walk (re_ResponseID resp) (reverse path)).2) omit.

Definition PathRequestContext path : result Ctx :=
  match last path with
  | Some (EResponse resp) => requestContextAt (take (length path - 1) path) resp true
  | _ => Err ErrOther
  end.

Definition requestContext (s : Session) (id : string) (omit : bool) : result Ctx :=
  match s_byID s !! id with
  | Some (EResponse resp) =>
      let path := Tree.path s id in requestContextAt (take (length path - 1) path) resp omit
  | Some _ => Err ErrOther
  | None => Err ErrNoEntry
  end.

(** [UnresolvedOf]. *)
Definition unresolvedOf_step (acc : Settings * list ConfigEntry) e : Settings * list ConfigEntry :=
  let '(s, out) := acc in
  match e with
  | ECompaction v =>
      let c := co_Config v in
      (mkSettings (st_Model c) (st_Instructions c) (st_Reasoning c) (st_Text c) (st_InstructionsParts c)
         (st_InstructionsOmitted c) (st_Omit c) (st_Tools c) (st_Extra c) [] [], out)
  | EConfig v =>
      let prev := if ce_Replace v then [] else st_InstructionsOmitted s in
      let lists := if ce_Replace v then [] else st_lists s in
      (Apply s v, match ce_InstructionsOmitted v with
                  | Some d => if (resolveOmitted prev d lists).2 then out ++ [v] else out
                  | None => out
                  end)
  | _ => acc
  end.
Definition UnresolvedOf path : list ConfigEntry := (foldl unresolvedOf_step (Settings_zero, []) path).2.

End Context.
