(* ===== verification/ContextProps.v ===== *)
(** * What the context algorithm promises

    Every item the path selects is sent, sent with a placeholder and reported,
    or left out and reported; the images rule sends no more than it keeps; and
    a response's request is rebuilt without its own output. *)
From S2P Require Import Prelude Entry Header Tree Digest Omit Settings Context.
Open Scope session_scope.

Section ContextProps.
Context {OR : OpenResponses} {IC : ItemContent} {SH : SHA256} {ND : NameDecoding}.
Implicit Types (e : Entry) (path : list Entry).

(** ** Leaving out *)

Lemma leave_out_perm s path (l : list (option Item * Entry)) :
  (snd <$> filter (fun x => slot_reason s path x = None) l)
    ++ ((fun o => EItem o.1) <$> omap (slot_reason s path) l) ≡ₚ snd <$> l.
Proof.
  induction l as [|x l IH]; [done|]. rewrite filter_cons. simpl.
  destruct (slot_reason s path x) as [[ie r]|] eqn:Hr; simpl.
  - rewrite -Permutation_middle. apply Permutation_cons; [|exact IH].
    unfold slot_reason in Hr. destruct x as [it e]. simpl in *. destruct e; try done.
    destruct (omit_reason _ _ _); [|done]. by injection Hr as -> ->.
  - by apply Permutation_cons.
Qed.

(** ** Replacing *)

Lemma output_slot_entry o x : (output_slot o x).1.2 = x.2.
Proof. unfold output_slot. by repeat case_match. Qed.

Lemma output_slot_item o it e :
  (output_slot o (it, e)).1 = (it, e) \/
  exists r, (output_slot o (it, e)).2 = Some r /\ e = EItem (ri_Entry r).
Proof. unfold output_slot. repeat case_match; try (by left); right; eexists; split; done. Qed.

Lemma image_slot_entry reached text n x : (image_slot reached text n x).1.1.2 = x.2.
Proof. unfold image_slot. by repeat case_match; simplify_eq/=. Qed.

Lemma image_slot_item reached text n it e :
  (image_slot reached text n (it, e)).1.1 = (it, e) \/
  exists r, (image_slot reached text n (it, e)).1.2 = Some r /\ e = EItem (ri_Entry r).
Proof.
  unfold image_slot. destruct it as [it|], e; try (by left).
  destruct (decide _); [by left|right]. eexists. split; done.
Qed.

Lemma image_slots_entries reached text n l : snd <$> (image_slots reached text n l).1 = snd <$> l.
Proof.
  revert n. induction l as [|x l IH]; intros n; [done|]. simpl.
  pose proof (image_slot_entry reached text n x) as Hx.
  destruct (image_slot reached text n x) as [[y r] n']. specialize (IH n').
  destruct (image_slots reached text n' l) as [ys rs]. simpl in Hx, IH. cbn [fst]. by rewrite fmap_cons Hx IH.
Qed.

Lemma image_slots_items reached text n l it e :
  (it, e) ∈ (image_slots reached text n l).1 ->
  (it, e) ∈ l \/ exists r, r ∈ (image_slots reached text n l).2 /\ e = EItem (ri_Entry r).
Proof.
  revert n. induction l as [|[it0 e0] l IH]; intros n; [set_solver|]. cbn [image_slots].
  pose proof (image_slot_item reached text n it0 e0) as Hx.
  pose proof (image_slot_entry reached text n (it0, e0)) as He.
  destruct (image_slot reached text n (it0, e0)) as [[y r] n']. specialize (IH n').
  destruct (image_slots reached text n' l) as [ys rs]. cbn [fst snd] in *. rewrite !elem_of_cons. intros [Hy|Hin].
  - subst y. cbn [snd] in He. subst e0. destruct Hx as [->|(r0 & -> & ->)]; [left; by left|].
    right. exists r0. set_solver.
  - destruct (IH Hin) as [?|(r0 & ? & ?)]; [left; by right|right; exists r0; set_solver].
Qed.

(** The slots of a context after placeholders: the same entries, and each item
    as recorded unless its entry is reported. *)
Definition replaced_from (l : list (option Item * Entry)) (l' : list (option Item * Entry))
    (rs : list ReplacedItem) : Prop :=
  snd <$> l' = snd <$> l /\
  forall it e, (it, e) ∈ l' -> (it, e) ∈ l \/ exists r, r ∈ rs /\ e = EItem (ri_Entry r).

Lemma replaceOutputs_from o l : replaced_from l (replaceOutputs o l).1 (replaceOutputs o l).2.
Proof.
  unfold replaceOutputs. destruct o as [o|]; [|split; [done|auto]]. split; cbn [fst snd].
  - rewrite -!list_fmap_compose. apply list_fmap_ext. intros _ x _. apply output_slot_entry.
  - intros it e Hin. rewrite -list_fmap_compose in Hin.
    apply list_elem_of_fmap in Hin as ([it0 e0] & Hx & Hin). unfold compose in Hx.
    pose proof (output_slot_entry o (it0, e0)) as He. rewrite -Hx in He. cbn [snd] in He. subst e0.
    destruct (output_slot_item o it0 e) as [Heq|(r & Hr & ->)].
    + left. by rewrite Hx Heq.
    + right. exists r. split; [|done]. apply list_elem_of_omap. eexists. split; [|exact Hr].
      by apply list_elem_of_fmap_2.
Qed.

Lemma replaceImages_from path im l : replaced_from l (replaceImages path im l).1 (replaceImages path im l).2.
Proof.
  unfold replaceImages. destruct im as [im|]; [|split; [done|auto]].
  destruct (image_reached _ _ _) as [reached|]; [|split; [done|auto]].
  split; [apply image_slots_entries|apply image_slots_items].
Qed.

Lemma replaceParts_from path c :
  exists rs, cx_ReplacedItems (replaceParts path c) = cx_ReplacedItems c ++ rs /\
    replaced_from (cx_pairs c) (cx_pairs (replaceParts path c)) rs.
Proof.
  unfold replaceParts. destruct (replaceOutputs_from (om_Outputs (st_Omit (cx_Settings c))) (cx_pairs c)) as [He1 Hi1].
  destruct (replaceOutputs _ _) as [pairs rs1]. cbn [fst snd] in *.
  destruct (replaceImages_from path (om_Images (st_Omit (cx_Settings c))) pairs) as [He2 Hi2].
  destruct (replaceImages _ _ _) as [ys rs2]. cbn [fst snd] in *. exists (rs1 ++ rs2). split; [done|]. cbn [cx_pairs].
  split; [by rewrite He2|]. intros it e Hin.
  destruct (Hi2 _ _ Hin) as [Hin'|(r & ? & ?)]; [|right; exists r; set_solver].
  destruct (Hi1 _ _ Hin') as [?|(r & ? & ?)]; [by left|right; exists r; set_solver].
Qed.

(** C28: the context algorithm accounts for every item.  The entries that
    contributed an item, those left out among them, are exactly the ones the
    path selects (after the last compaction: its summary, its pins, the kept
    entries and those after it); what is left out is reported in OmittedItems
    and keeps no slot; and an item not as recorded belongs to an entry that
    ReplacedItems reports. *)
Theorem BuildContext_accounts path c :
  BuildContext path = Ok c ->
  exists c0, selected path = Ok c0 /\
    cx_Settings c = cx_Settings c0 /\ cx_Entries c = cx_Entries c0 /\
    ItemEntries c ++ ((fun o => EItem o.1) <$> cx_OmittedItems c) ≡ₚ ItemEntries c0 /\
    ItemEntries c `sublist_of` ItemEntries c0 /\
    (forall it e, (it, e) ∈ cx_pairs c ->
       (it, e) ∈ cx_pairs c0 \/ exists r, r ∈ cx_ReplacedItems c /\ e = EItem (ri_Entry r)).
Proof.
  unfold BuildContext, buildContext. intros Hb. inv_ok. rename a into c0.
  match goal with H : selected path = Ok _ |- _ => rename H into Hsel end.
  assert (cx_OmittedItems c0 = [] /\ cx_ReplacedItems c0 = []) as [Ho Hr].
  { unfold selected in Hsel. destruct (last_compaction path) as [[[b k] a]|]; [|by injection Hsel as <-].
    destruct (from_entry _ _); [by injection Hsel as <-|done]. }
  exists c0. split; [done|]. cbn [andb]. destruct (Omit_IsZero _); cbn [negb].
  { simpl. unfold ItemEntries. simpl. rewrite Ho app_nil_r. split_and!; auto. }
  destruct (replaceParts_from path (leaveOut path c0)) as (rs & Hrs & He & Hi).
  assert (cx_Settings (replaceParts path (leaveOut path c0)) = cx_Settings c0 /\
          cx_Entries (replaceParts path (leaveOut path c0)) = cx_Entries c0 /\
          cx_OmittedItems (replaceParts path (leaveOut path c0)) = cx_OmittedItems (leaveOut path c0)) as (H1 & H2 & H3).
  { unfold replaceParts. by repeat case_match. }
  unfold ItemEntries. simpl. rewrite H1 H2 H3 He Hrs. simpl. split_and!; try done.
  - apply leave_out_perm.
  - apply fmap_sublist, sublist_filter.
  - intros it e Hin. destruct (Hi _ _ Hin) as [Hl|Hl].
    + left. simpl in Hl. by apply list_elem_of_filter in Hl as [_ ?].
    + right. by rewrite Hr.
Qed.

(** ** The images rule *)

Lemma filter_seq_S (P : nat -> bool) n k :
  length (filter (fun i => P i = true) (seq n (S k))) =
  (if P n then 1 else 0) + length (filter (fun i => P i = true) (seq (S n) k)).
Proof. simpl. rewrite filter_cons. by destruct (P n). Qed.

(** The image parts left of a content, those reached being sent as text. *)
Lemma placeholders_count reached text n ps :
  let k := length (filter (fun p => isInputImage p = true) ps) in
  length (filter (fun p => isInputImage p = true) (placeholders reached text n ps))
    + length (filter (fun i => reached i = true) (seq n k)) = k.
Proof.
  revert n. induction ps as [|p ps IH]; intros n; [done|]. cbn [placeholders].
  destruct (isInputImage p) eqn:Hp.
  - rewrite (filter_cons_True (fun p => isInputImage p = true) p ps Hp). cbn [length]. cbn zeta. rewrite filter_seq_S.
    specialize (IH (S n)). cbn zeta in IH. destruct (reached n).
    + rewrite filter_cons_False; [lia|]. by rewrite InputText_no_image.
    + rewrite (filter_cons_True _ p) //. cbn [length]. lia.
  - rewrite !(filter_cons_False _ p) ?Hp //.
Qed.

Definition slot_images (x : option Item * Entry) : nat :=
  match x.2 with EItem _ => images_in x.1 | _ => 0 end.

Lemma image_slot_count reached text n x :
  (image_slot reached text n x).2 = n + slot_images x /\
  slot_images (image_slot reached text n x).1.1
    + length (filter (fun i => reached x.2 i = true) (seq n (slot_images x))) = slot_images x.
Proof.
  destruct x as [it e]. unfold image_slot, slot_images. cbn [fst snd].
  destruct it as [it|]; [|destruct e; cbn; split; done || lia].
  destruct e as [ie| | | | | | | | | | | | | | | |]; try (cbn; split; [lia|done]).
  cbn [fst snd]. split; [done|]. destruct (decide _) as [Hz|Hz]; cbn [fst snd]; [rewrite Hz; lia|].
  cbn [images_in]. rewrite with_parts_content.
  - apply placeholders_count.
  - intros Hnil. apply Hz. cbn [images_in]. by rewrite Hnil.
Qed.

(** Over all the slots, the number reached is that of the requests' image parts
    the predicate, asked of their number alone, holds of. *)
Lemma image_slots_count (P : nat -> bool) text n l :
  image_total (image_slots (fun _ => P) text n l).1
    + length (filter (fun i => P i = true) (seq n (image_total l))) = image_total l.
Proof.
  revert n. induction l as [|x l IH]; intros n; [done|]. cbn [image_slots].
  destruct (image_slot_count (fun _ => P) text n x) as [Hn Hc].
  destruct (image_slot (fun _ => P) text n x) as [[y r] n']. cbn [fst snd] in *. subst n'.
  specialize (IH (n + slot_images x)). destruct (image_slots _ _ _ _) as [ys rs]. cbn [fst] in *.
  assert (forall z l, image_total (z :: l) = slot_images z + image_total l) as Hcons by done.
  rewrite !Hcons seq_app filter_app length_app. lia.
Qed.

Lemma count_below n k : length (filter (fun i => bool_decide (Z.of_nat i < k)%Z = true) (seq 0 n)) = Nat.min n (Z.to_nat k).
Proof.
  induction n as [|n IH]; [done|]. rewrite seq_S filter_app length_app IH filter_cons filter_nil Nat.add_0_l.
  destruct (decide (_ = true)) as [Hd|Hd]; cbn [length].
  - apply bool_decide_eq_true in Hd. lia.
  - apply not_true_is_false, bool_decide_eq_false in Hd. lia.
Qed.

(** The images rule keeps the last parts and no more.  With a keep in
    force, the request's item entries hold the smaller of [Keep] and the number
    of image parts there were, counted after the items left out and the outputs
    sent as placeholders; every other one is sent as the placeholder text. *)
Lemma replaceImages_keeps path (im : OmitImages) (l : list (option Item * Entry)) :
  oi_Before im = "" -> (0 <= oi_Keep im)%Z ->
  image_total (replaceImages path (Some im) l).1 = Nat.min (image_total l) (Z.to_nat (oi_Keep im)).
Proof.
  intros Hb Hk. unfold replaceImages, image_reached. rewrite decide_False; [|by intros Hne; apply Hne].
  pose proof (image_slots_count (fun n => bool_decide (Z.of_nat n < Z.of_nat (image_total l) - oi_Keep im)%Z)
                (oi_Placeholder im) 0 l) as Hc.
  rewrite count_below in Hc. lia.
Qed.

(** ** The request of a response *)

Definition is_item e : bool := match e with EItem _ => true | _ => false end.

(** An output item of the response, or an entry that is no item. *)
Definition output_or_other (id : string) e : bool :=
  match e with EItem v => bool_decide (ie_ResponseID v = id) | _ => true end.

Lemma output_walk_app id l rest :
  id <> "" -> Forall (fun e => output_or_other id e = true) l ->
  output_walk id (l ++ rest) =
  (omap (fun e => match e with EItem v => Some v | _ => None end) l ++ (output_walk id rest).1,
   filter (fun e => is_item e = false) l ++ (output_walk id rest).2).
Proof.
  intros Hid Hl. induction Hl as [|e l He Hl IH]; [cbn; by destruct (output_walk id rest)|].
  destruct e as [v| | | | | | | | | | | | | | | |].
  2-17: cbn [app output_walk]; by rewrite IH.
  cbn [output_or_other] in He. bool_prop. cbn [app output_walk]. rewrite decide_False; [|naive_solver].
  by rewrite IH.
Qed.

(** The entry before which the response's request ends: nothing, or an item
    entry of another response or none, entries that are no items after it. *)
Definition request_end (id : string) path : Prop :=
  forall before v after, path = before ++ EItem v :: after -> Forall (fun e => is_item e = false) after ->
  ie_ResponseID v <> id.

Lemma output_walk_end id rev :
  id <> "" -> request_end id (reverse rev) -> output_walk id rev = ([], rev).
Proof.
  intros Hid. induction rev as [|e rev IH]; intros Hend; [done|]. rewrite reverse_cons in Hend.
  destruct e as [v| | | | | | | | | | | | | | | |]; cbn [output_walk].
  1: { rewrite decide_True //. right. by apply (Hend (reverse rev) v []). }
  all: rewrite IH //; intros b v a Ha Hf; eapply (Hend b v); [rewrite Ha -app_assoc; reflexivity|].
  all: apply Forall_app; split; [done|by apply Forall_singleton].
Qed.

(** A response's request is rebuilt without its own output, and with
    everything else.  When the path to the response is the path its request
    ended, followed by the response's output items with entries that are no
    items written anywhere between or after them, [OutputEntries] finds exactly
    those items, in order, and the request context is that of the path with
    them, and nothing else, taken out. *)
Lemma requestContextAt_output path tail_ (resp : ResponseEntry) (omit : bool) :
  re_ResponseID resp <> "" -> request_end (re_ResponseID resp) path ->
  Forall (fun e => output_or_other (re_ResponseID resp) e = true) tail_ ->
  OutputEntries (path ++ tail_) resp = omap (fun e => match e with EItem v => Some v | _ => None end) tail_ /\
  requestContextAt (path ++ tail_) resp omit =
  buildContext (path ++ filter (fun e => is_item e = false) tail_) omit.
Proof.
  intros Hid Hend Htail.
  assert (output_walk (re_ResponseID resp) (reverse (path ++ tail_)) =
    (reverse (omap (fun e => match e with EItem v => Some v | _ => None end) tail_),
     reverse (path ++ filter (fun e => is_item e = false) tail_))) as Hw.
  { rewrite reverse_app output_walk_app //; [|by apply Forall_reverse].
    rewrite output_walk_end //; [|by rewrite reverse_involutive]. rewrite app_nil_r reverse_app.
    f_equal; [|f_equal; by rewrite filter_reverse].
    clear. induction tail_ as [|e l IH]; [done|]. rewrite reverse_cons omap_app IH.
    destruct e; cbn [omap list_omap]; rewrite ?app_nil_r //. by rewrite reverse_cons. }
  assert (OutputEntries (path ++ tail_) resp =
    omap (fun e => match e with EItem v => Some v | _ => None end) tail_) as Hout.
  { unfold OutputEntries. rewrite decide_False // Hw /=. apply reverse_involutive. }
  split; [done|]. unfold requestContextAt. rewrite Hout Hw.
  destruct (decide _) as [Hnil|_]; [|by rewrite /= reverse_involutive]. f_equal. f_equal.
  clear -Hnil. induction tail_ as [|e l IH]; [done|].
  destruct e; try done; rewrite filter_cons_True //; f_equal; by apply IH.
Qed.

End ContextProps.
