(* ===== verification/Hash.v ===== *)
(** * The hashes of an entry ([hash.go])

    [EntryHashes], which decodes an entry's line and canonicalises its body
    and its envelope again, and [memberHashes], which slices both out of a
    line already in canonical form. *)
From S2P Require Import Prelude Entry Tree Calls Digest.
Open Scope session_scope.

(** What [hash.go] asks of [encoding/json] and of the I-JSON check. *)
Class JSONTools := {
  (* ijson.Check *)
  ijson_Check : RawMessage -> result unit;
  (* json.Unmarshal into a map[string]json.RawMessage, a []json.RawMessage,
     a string *)
  UnmarshalMembers : RawMessage -> option (gmap string RawMessage);
  UnmarshalList : RawMessage -> option (list RawMessage);
  UnmarshalString : RawMessage -> option string;
  (* json.Marshal of a map[string]json.RawMessage *)
  MarshalMembers : gmap string RawMessage -> result RawMessage
}.

(** [strconv.Quote] of a hash, which holds nothing to escape. *)
Definition dquote : string := String "034"%char "".
Definition Quote (s : string) : string := (dquote ++ s ++ dquote)%string.

Section Hash.
Context {CA : Canonicaliser} {SH : SHA256} {JT : JSONTools}.

Definition HashRequestJSON (data : RawMessage) : result string :=
  match Transform data with None => Err ErrOther | Some c => Ok (HashBytes c) end.

(** [all["parents"]] when it decodes to a list that is not empty. *)
Definition parents_member (p : option RawMessage) : option RawMessage :=
  match p with
  | Some p => match UnmarshalList p with Some (_ :: _) => Some p | _ => None end
  | None => None
  end.

(** A nil [json.RawMessage] is written as null. *)
Definition orNull (v : option RawMessage) : RawMessage := default "null" v.

Definition body_of (all : gmap string RawMessage) : gmap string RawMessage :=
  filter (fun kv => isEnvelopeKey kv.1 = false) all.

Definition envelope_of (all : gmap string RawMessage) (content : string) : gmap string RawMessage :=
  let env := <["type" := orNull (all !! "type")]> (<["parent" := orNull (all !! "parent")]>
    (<["ts" := orNull (all !! "ts")]> {["content" := Quote content]})) in
  match parents_member (all !! "parents") with Some p => <["parents" := p]> env | None => env end.

(** [EntryHashes]: the id and the content hash. *)
Definition EntryHashes (data : RawMessage) : result (string * string) :=
  ijson_Check data ;!
  match UnmarshalMembers data with
  | None => Err ErrOther
  | Some all =>
      let! bodyJSON := MarshalMembers (body_of all) in
      ijson_Check bodyJSON ;!
      let! content := HashRequestJSON bodyJSON in
      let! envJSON := MarshalMembers (envelope_of all content) in
      let! id := HashRequestJSON envJSON in
      Ok (id, content)
  end.

(** ** Slicing a compact object *)

(** [skipString]: the index just past the string starting at [c[i]]; a byte
    after a backslash is never its end.  One step a byte is enough fuel. *)
Fixpoint skipString_go (c : list ascii) (fuel j : nat) : option nat :=
  match fuel with
  | O => None
  | S fuel =>
      match c !! j with
      | None => None
      | Some "\"%char => skipString_go c fuel (S (S j))
      | Some "034"%char => Some (S j)
      | Some _ => skipString_go c fuel (S j)
      end
  end.
Definition skipString (c : list ascii) (i : nat) : option nat := skipString_go c (length c) (S i).

(** [skipValue]: the index just past the compact value starting at [c[i]]. *)
Fixpoint skipNested (c : list ascii) (fuel depth j : nat) : option nat :=
  match fuel with
  | O => None
  | S fuel =>
      match c !! j with
      | None => None
      | Some "034"%char =>
          match skipString c j with Some k => skipNested c fuel depth k | None => None end
      | Some "{"%char | Some "["%char => skipNested c fuel (S depth) (S j)
      | Some "}"%char | Some "]"%char =>
          if decide (depth = 1) then Some (S j) else skipNested c fuel (depth - 1) (S j)
      | Some _ => skipNested c fuel depth (S j)
      end
  end.

Fixpoint skipScalar (c : list ascii) (fuel j : nat) : nat :=
  match fuel with
  | O => j
  | S fuel =>
      match c !! j with
      | None | Some ","%char | Some "}"%char | Some "]"%char => j
      | Some _ => skipScalar c fuel (S j)
      end
  end.

Definition skipValue (c : list ascii) (i : nat) : option nat :=
  match c !! i with
  | None => None
  | Some "034"%char => skipString c i
  | Some "{"%char | Some "["%char => skipNested c (S (length c)) 0 i
  | Some _ => Some (skipScalar c (length c) i)
  end.

(** One member: its key, the whole ["key":value] span and the value's span. *)
Record canonicalMember := mkMember { cm_key : string; cm_raw : string; cm_val : string }.

(** [c[i:j]]. *)
Definition slice (c : list ascii) (i j : nat) : list ascii := take (j - i) (drop i c).
Definition slice_string (c : list ascii) (i j : nat) : string := string_of_list_ascii (slice c i j).

(** The key between its quotes, decoded when it holds an escape. *)
Definition member_key (c : list ascii) (i keyEnd : nat) : option string :=
  if decide ("\"%char ∈ slice c i keyEnd) then UnmarshalString (slice_string c i keyEnd)
  else Some (slice_string c (S i) (keyEnd - 1)).

(** The loop of [canonicalMembers], the member starting at [i]. *)
Fixpoint members_go (c : list ascii) (fuel i : nat) (out : list canonicalMember)
    : option (list canonicalMember) :=
  match fuel with
  | O => None
  | S fuel =>
      if decide (c !! i = Some "034"%char) then
        match skipString c i with
        | None => None
        | Some keyEnd =>
            if decide (c !! keyEnd = Some ":"%char) then
              match member_key c i keyEnd, skipValue c (S keyEnd) with
              | Some key, Some end_ =>
                  let out := out ++ [mkMember key (slice_string c i end_) (slice_string c (S keyEnd) end_)] in
                  match c !! end_ with
                  | Some ","%char => members_go c fuel (S end_) out
                  | Some "}"%char => if decide (end_ = length c - 1) then Some out else None
                  | _ => None
                  end
              | _, _ => None
              end
            else None
        end
      else None
  end.

Definition canonicalMembers (s : string) : option (list canonicalMember) :=
  let c := list_ascii_of_string s in
  if decide (2 <= length c /\ c !! 0 = Some "{"%char /\ c !! (length c - 1) = Some "}"%char) then
    if decide (c !! 1 = Some "}"%char) then (if decide (1 = length c - 1) then Some [] else None)
    else members_go c (length c) 1 []
  else None.

(** The envelope's members by key, the last of a key; the body's members'
    spans, joined by commas. *)
Definition member_lookup (k : string) (ms : list canonicalMember) : option RawMessage :=
  cm_val <$> last (filter (fun m => cm_key m = k /\ isEnvelopeKey (cm_key m) = true) ms).

Definition memberHashes (ms : list canonicalMember) : string * string :=
  let body := filter (fun m => isEnvelopeKey (cm_key m) = false) ms in
  let content := HashBytes ("{" ++ String.concat "," (cm_raw <$> body) ++ "}")%string in
  let member k v := (dquote ++ k ++ dquote ++ ":" ++ v)%string in
  let envJSON :=
    ("{" ++ member "content" (Quote content) ++ "," ++
     member "parent" (orNull (member_lookup "parent" ms)) ++
     match parents_member (member_lookup "parents" ms) with
     | Some p => "," ++ member "parents" p
     | None => ""
     end ++ "," ++
     member "ts" (orNull (member_lookup "ts" ms)) ++ "," ++
     member "type" (orNull (member_lookup "type" ms)) ++ "}")%string in
  (HashBytes envJSON, content).

(** [entryHashesCanonical]. *)
Definition entryHashesCanonical (c : RawMessage) : result (string * string) :=
  match canonicalMembers c with
  | Some ms => Ok (memberHashes ms)
  | None => EntryHashes c
  end.

(** ** What the format says the hashes are

    Read off the format and not off [EntryHashes]: the members of the envelope
    by name, each with what it holds in the object the id is the hash of. *)
Definition envelope_says (all : gmap string RawMessage) (content k : string) : option RawMessage :=
  if decide (k = "content") then Some (Quote content)
  else if decide (k ∈ ["type"; "parent"; "ts"]) then Some (default "null" (all !! k))
  else if decide (k = "parents") then
    match all !! k with
    | Some p => match UnmarshalList p with Some (_ :: _) => Some p | _ => None end
    | None => None
    end
  else None.

(** The hash of the canonical form of the object with the members [f] says. *)
Definition object_hash (f : string -> option RawMessage) (hash : string) : Prop :=
  exists m data c, (forall k, m !! k = f k) /\ MarshalMembers m = Ok data /\ Transform data = Some c /\
    hash = HashBytes c.

(** The two hashes of a line: that of the members outside the envelope, and
    that of the envelope with the first in it. *)
Definition line_hashes (line : RawMessage) (id content : string) : Prop :=
  exists all, UnmarshalMembers line = Some all /\
    object_hash (fun k => if decide (k ∈ ["id"; "type"; "parent"; "parents"; "ts"; "content"]) then None
                          else all !! k) content /\
    object_hash (envelope_says all content) id.

Lemma HashRequestJSON_Ok data h :
  HashRequestJSON data = Ok h -> exists c, Transform data = Some c /\ h = HashBytes c.
Proof. unfold HashRequestJSON. destruct (Transform data) as [c|]; [|done]. intros [= <-]. eauto. Qed.

Lemma envelope_says_parents all content :
  envelope_says all content "parents" = parents_member (all !! "parents").
Proof. unfold envelope_says, parents_member. by destruct (all !! "parents"). Qed.

Lemma envelope_of_says all content k : envelope_of all content !! k = envelope_says all content k.
Proof.
  unfold envelope_of. set (m := <["type" := _]> _).
  assert (m !! "parents" = None /\ forall k, k <> "parents" -> m !! k = envelope_says all content k) as [Hn Hm].
  { split; [done|]. intros j Hj. unfold m, envelope_says. clear m k.
    destruct (decide (j = "type")) as [->|Hty]; [by rewrite lookup_insert_eq|rewrite lookup_insert_ne //].
    destruct (decide (j = "parent")) as [->|Hpa]; [by rewrite lookup_insert_eq|rewrite lookup_insert_ne //].
    destruct (decide (j = "ts")) as [->|Hts]; [by rewrite lookup_insert_eq|rewrite lookup_insert_ne //].
    destruct (decide (j = "content")) as [->|Hco]; [by rewrite lookup_singleton_eq|].
    rewrite lookup_singleton_ne // decide_False; [|set_solver]. by rewrite decide_False. }
  destruct (decide (k = "parents")) as [->|Hne].
  - rewrite envelope_says_parents. destruct (parents_member _) as [p|]; [by rewrite lookup_insert_eq|done].
  - rewrite -Hm //. destruct (parents_member _) as [p|]; [by rewrite lookup_insert_ne|done].
Qed.

(** [EntryHashes] computes them. *)
Lemma EntryHashes_line data id content :
  EntryHashes data = Ok (id, content) -> line_hashes data id content.
Proof.
  unfold EntryHashes. intros Hok. inv_ok. destruct (UnmarshalMembers data) as [all|] eqn:Hall; [|done]. inv_ok. simplify_eq.
  repeat match goal with H : HashRequestJSON _ = Ok _ |- _ => apply HashRequestJSON_Ok in H as (? & ? & ->) end.
  exists all. split; [done|]. split.
  - exists (body_of all). do 2 eexists. split_and!; [|done..]. intros k. unfold body_of. rewrite map_lookup_filter.
    unfold isEnvelopeKey. destruct (decide (k ∈ _)) as [Hk|Hk].
    + destruct (all !! k); [|done]. cbn. rewrite bool_decide_eq_true_2 //.
    + destruct (all !! k); [|done]. cbn. rewrite bool_decide_eq_false_2 //.
  - eexists (envelope_of all _). do 2 eexists. split_and!; [|done..]. intros k. apply envelope_of_says.
Qed.

(** Each is a hash in the format's notation. *)
Lemma object_hash_valid f hash : object_hash f hash -> ValidHash hash = true.
Proof. intros (m & data & c & _ & _ & _ & ->). apply HashBytes_valid. Qed.

Lemma line_hashes_valid line id content : line_hashes line id content -> ValidHash id = true.
Proof. intros (all & _ & _ & H). by eapply object_hash_valid. Qed.

End Hash.
