(* ===== verification/HashProps.v ===== *)
(** * The slicing of a canonical line ([hash.go])

    [canonicalMembers] takes a compact object apart into exactly the members it
    was printed from; so the hashes sliced out of a canonical line are those
    [EntryHashes] computes, and an entry's id commits to its envelope and, by
    the content hash, to its body. *)
From S2P Require Import Prelude Entry Tree Calls Digest Hash.
Open Scope session_scope.

(** ** Compact JSON, as bytes *)

Abbreviation quote := "034"%char.
Abbreviation backslash := "\"%char.

(** What a string literal holds between its quotes. *)
Inductive strbody : list ascii -> Prop :=
  | sb_nil : strbody []
  | sb_plain c s : c <> quote -> c <> backslash -> strbody s -> strbody (c :: s)
  | sb_escape c s : strbody s -> strbody (backslash :: c :: s).

Definition opener (c : ascii) : Prop := c = "{"%char \/ c = "["%char.
Definition closer (c : ascii) : Prop := c = "}"%char \/ c = "]"%char.

(** What an object or an array holds: brackets balance outside strings. *)
Inductive nested : list ascii -> Prop :=
  | ne_nil : nested []
  | ne_char c s : c <> quote -> ~ opener c -> ~ closer c -> nested s -> nested (c :: s)
  | ne_string b s : strbody b -> nested s -> nested (quote :: b ++ quote :: s)
  | ne_brackets o c s s' : opener o -> closer c -> nested s -> nested s' -> nested (o :: s ++ c :: s').

Definition stops (c : ascii) : Prop := c = ","%char \/ closer c.

(** A compact value. *)
Inductive value : list ascii -> Prop :=
  | va_string b : strbody b -> value (quote :: b ++ [quote])
  | va_brackets o c s : opener o -> closer c -> nested s -> value (o :: s ++ [c])
  | va_scalar c s : c <> quote -> ~ opener c -> (forall x, x ∈ c :: s -> ~ stops x) -> value (c :: s).

Notation la := list_ascii_of_string.
Notation al := string_of_list_ascii.

Lemma la_app a b : la (a ++ b)%string = la a ++ la b.
Proof. induction a as [|c a IH]; simpl; [done|]. by rewrite IH. Qed.

Lemma al_la a : al (la a) = a.
Proof. apply string_of_list_ascii_of_string. Qed.

Lemma la_inj a b : la a = la b -> a = b.
Proof. intros H. by rewrite -(al_la a) H al_la. Qed.

(** Two ways to cut the same bytes. *)
Ltac app_eq := repeat (progress simpl || rewrite -!app_assoc); reflexivity.

Ltac len := repeat (progress simpl || rewrite !length_app); lia.

(** ** The scanners *)

Lemma lookup_mid {A} (l l' : list A) x : (l ++ x :: l') !! length l = Some x.
Proof. by rewrite lookup_app_r // Nat.sub_diag. Qed.

Lemma lookup_mid2 {A} (a b l : list A) x : (a ++ b ++ x :: l) !! (length a + length b) = Some x.
Proof. by rewrite !lookup_app_r ?length_app //; [|lia..]; replace (_ - _ - _) with 0 by lia. Qed.

Lemma skipString_go_spec b pre post fuel :
  strbody b -> length b < fuel ->
  skipString_go (pre ++ b ++ quote :: post) fuel (length pre) = Some (S (length pre + length b)).
Proof.
  intros Hb. revert pre fuel. induction Hb as [|c s Hq Hs Hb IH|c s Hb IH]; intros pre [|fuel] Hf;
    simpl in Hf; try lia; cbn [skipString_go].
  - rewrite /= lookup_mid. f_equal. simpl. lia.
  - rewrite /= lookup_mid.
    assert (skipString_go (pre ++ c :: s ++ quote :: post) fuel (S (length pre)) = Some (S (length pre + S (length s))))
      as Hgo.
    { replace (pre ++ c :: s ++ quote :: post) with ((pre ++ [c]) ++ s ++ quote :: post) by app_eq.
      replace (S (length pre)) with (length (pre ++ [c])) by (len).
      rewrite IH; [|lia]. f_equal. len. }
    destruct c as [[] [] [] [] [] [] [] []]; try exact Hgo; by exfalso.
  - rewrite /= lookup_mid.
    replace (pre ++ backslash :: c :: s ++ quote :: post) with ((pre ++ [backslash; c]) ++ s ++ quote :: post)
      by app_eq.
    replace (S (S (length pre))) with (length (pre ++ [backslash; c])) by (len).
    rewrite IH; [|lia]. f_equal. len.
Qed.

Lemma skipString_spec b pre post :
  strbody b -> skipString (pre ++ quote :: b ++ quote :: post) (length pre) = Some (length pre + length b + 2).
Proof.
  intros Hb. unfold skipString.
  replace (pre ++ quote :: b ++ quote :: post) with ((pre ++ [quote]) ++ b ++ quote :: post) by app_eq.
  replace (S (length pre)) with (length (pre ++ [quote])) by (len).
  rewrite skipString_go_spec //; [|len]. f_equal. len.
Qed.


(** One byte that is neither a quote nor a bracket moves the scan on. *)
Lemma skipNested_char c fuel depth j x :
  c !! j = Some x -> x <> quote -> ~ opener x -> ~ closer x ->
  skipNested c (S fuel) depth j = skipNested c fuel depth (S j).
Proof.
  intros Hx Hq Ho Hc. cbn [skipNested]. rewrite Hx. unfold opener, closer in *.
  destruct x as [[] [] [] [] [] [] [] []]; try done; exfalso; auto.
Qed.

Lemma skipNested_open c fuel depth j x :
  c !! j = Some x -> opener x -> skipNested c (S fuel) depth j = skipNested c fuel (S depth) (S j).
Proof. intros Hx [-> | ->]; cbn [skipNested]; by rewrite Hx. Qed.

Lemma skipNested_close c fuel depth j x :
  c !! j = Some x -> closer x ->
  skipNested c (S fuel) depth j = if decide (depth = 1) then Some (S j) else skipNested c fuel (depth - 1) (S j).
Proof. intros Hx [-> | ->]; cbn [skipNested]; by rewrite Hx. Qed.

Lemma skipNested_spec s :
  nested s -> forall pre post fuel depth, 1 <= depth -> length s <= fuel ->
  exists fuel', fuel - length s <= fuel' /\
    skipNested (pre ++ s ++ post) fuel depth (length pre) =
    skipNested (pre ++ s ++ post) fuel' depth (length pre + length s).
Proof.
  induction 1 as [|x s Hq Ho Hc Hs IH|b s Hb Hs IH|o x s s' Ho Hc Hs IH Hs' IH'];
    intros pre post fuel depth Hd Hf; simpl in Hf.
  - exists fuel. rewrite Nat.add_0_r. split; [simpl; lia|done].
  - destruct fuel as [|fuel]; [lia|].
    rewrite (skipNested_char _ _ _ _ x) //; [|by rewrite /= lookup_mid].
    replace (pre ++ (x :: s) ++ post) with ((pre ++ [x]) ++ s ++ post) by app_eq.
    replace (S (length pre)) with (length (pre ++ [x])) by (len).
    destruct (IH (pre ++ [x]) post fuel depth) as (f' & Hf' & ->); [lia..|].
    exists f'. split; [simpl; lia|]. f_equal. len.
  - destruct fuel as [|fuel]; [lia|]. cbn [skipNested]. rewrite /= lookup_mid.
    replace (pre ++ quote :: (b ++ quote :: s) ++ post) with (pre ++ quote :: b ++ quote :: (s ++ post))
      by app_eq.
    rewrite skipString_spec //.
    replace (pre ++ quote :: b ++ quote :: (s ++ post)) with ((pre ++ quote :: b ++ [quote]) ++ s ++ post)
      by app_eq.
    rewrite length_app /= in Hf.
    replace (length pre + length b + 2) with (length (pre ++ quote :: b ++ [quote]))
      by (len).
    destruct (IH (pre ++ quote :: b ++ [quote]) post fuel depth) as (f' & Hf' & ->); [lia..|].
    exists f'. split; [len|]. f_equal. len.
  - destruct fuel as [|fuel]; [lia|]. rewrite length_app /= in Hf.
    rewrite (skipNested_open _ _ _ _ o) //; [|by rewrite /= lookup_mid].
    replace (pre ++ (o :: s ++ x :: s') ++ post) with ((pre ++ [o]) ++ s ++ (x :: s' ++ post))
      by app_eq.
    replace (S (length pre)) with (length (pre ++ [o])) by (len).
    destruct (IH (pre ++ [o]) (x :: s' ++ post) fuel (S depth)) as (f1 & Hf1 & ->); [lia..|].
    destruct f1 as [|f1]; [lia|].
    rewrite (skipNested_close _ _ _ _ x) //.
    2:{ apply lookup_mid2. }
    rewrite decide_False; [|lia].
    replace ((pre ++ [o]) ++ s ++ x :: s' ++ post) with ((pre ++ [o] ++ s ++ [x]) ++ s' ++ post)
      by app_eq.
    replace (S (length (pre ++ [o]) + length s)) with (length (pre ++ [o] ++ s ++ [x]))
      by (len).
    replace (S depth - 1) with depth by lia.
    destruct (IH' (pre ++ [o] ++ s ++ [x]) post f1 depth) as (f' & Hf' & ->); [lia..|].
    exists f'. split; [len|]. f_equal. len.
Qed.

Lemma skipScalar_spec s : forall pre d post fuel,
  (forall x, x ∈ s -> ~ stops x) -> stops d -> length s < fuel ->
  skipScalar (pre ++ s ++ d :: post) fuel (length pre) = length pre + length s.
Proof.
  induction s as [|x s IH]; intros pre d post fuel Hs Hd Hf; (destruct fuel as [|fuel]; [simpl in Hf; lia|]).
  - cbn [skipScalar]. rewrite /= lookup_mid Nat.add_0_r. by destruct Hd as [->|[->| ->]].
  - cbn [skipScalar]. rewrite /= lookup_mid.
    assert (skipScalar (pre ++ x :: s ++ d :: post) fuel (S (length pre)) = length pre + S (length s)) as Hgo.
    { replace (pre ++ x :: s ++ d :: post) with ((pre ++ [x]) ++ s ++ d :: post) by app_eq.
      replace (S (length pre)) with (length (pre ++ [x])) by (len).
      rewrite IH //; [len|set_solver|simpl in Hf; lia]. }
    assert (~ stops x) as Hx by (apply Hs; set_solver). unfold stops, closer in Hx.
    destruct x as [[] [] [] [] [] [] [] []]; try exact Hgo; exfalso; auto.
Qed.

(** The scan of a value ends where the value does. *)
Lemma skipValue_spec v pre d post :
  value v -> stops d -> skipValue (pre ++ v ++ d :: post) (length pre) = Some (length pre + length v).
Proof.
  intros Hv Hd. destruct Hv as [b Hb|o c s Ho Hc Hs|c s Hq Ho Hs]; unfold skipValue.
  - rewrite /= lookup_mid. rewrite -app_assoc /= skipString_spec // length_app /=. f_equal. lia.
  - assert (skipNested (pre ++ (o :: s ++ [c]) ++ d :: post) (S (length (pre ++ (o :: s ++ [c]) ++ d :: post))) 0
      (length pre) = Some (length pre + length (o :: s ++ [c]))) as Hgo.
    { rewrite (skipNested_open _ _ _ _ o) //; [|by rewrite /= lookup_mid].
      replace (pre ++ (o :: s ++ [c]) ++ d :: post) with ((pre ++ [o]) ++ s ++ (c :: d :: post))
        by app_eq.
      replace (S (length pre)) with (length (pre ++ [o])) by (len).
      edestruct (skipNested_spec s Hs (pre ++ [o]) (c :: d :: post)) as (f1 & Hf1 & ->); [|len|].
      { done. }
      rewrite !length_app /= in Hf1. destruct f1 as [|f1]; [lia|].
      rewrite (skipNested_close _ _ _ _ c) //; [|apply lookup_mid2].
      simpl. f_equal. len. }
    assert ((pre ++ (o :: s ++ [c]) ++ d :: post) !! length pre = Some o) as -> by apply lookup_mid.
    by destruct Ho as [-> | ->].
  - assert (Some (skipScalar (pre ++ (c :: s) ++ d :: post) (length (pre ++ (c :: s) ++ d :: post)) (length pre)) =
      Some (length pre + length (c :: s))) as Hgo.
    { f_equal. apply skipScalar_spec; [done..|]. len. }
    assert ((pre ++ (c :: s) ++ d :: post) !! length pre = Some c) as -> by apply lookup_mid. unfold opener in Ho.
    destruct c as [[] [] [] [] [] [] [] []]; try exact Hgo; exfalso; auto.
Qed.

(** ** The members *)

Section Members.
Context {CA : Canonicaliser} {SH : SHA256} {JT : JSONTools}.

(** A member as it is written: a key's literal, a colon and a compact value. *)
Definition well_formed (m : canonicalMember) : Prop :=
  exists kb v, strbody kb /\ value v /\
    cm_raw m = al (quote :: kb ++ quote :: ":"%char :: v) /\ cm_val m = al v /\
    (if decide (backslash ∈ kb) then UnmarshalString (al (quote :: kb ++ [quote])) = Some (cm_key m)
     else cm_key m = al kb).

(** An object as it is written. *)
Definition print (ms : list canonicalMember) : string := ("{" ++ String.concat "," (cm_raw <$> ms) ++ "}")%string.

Lemma la_al l : la (al l) = l.
Proof. apply list_ascii_of_string_of_list_ascii. Qed.

Lemma slice_mid pre x post : slice (pre ++ x ++ post) (length pre) (length pre + length x) = x.
Proof. unfold slice. rewrite drop_app_length Nat.add_comm Nat.add_sub. apply take_app_length. Qed.

Lemma slice_at pre x post i j : i = length pre -> j = length pre + length x -> slice (pre ++ x ++ post) i j = x.
Proof. intros -> ->. apply slice_mid. Qed.

(** One turn of the loop. *)
Lemma members_step m pre d post fuel out :
  well_formed m -> d = ","%char \/ d = "}"%char ->
  let c := pre ++ la (cm_raw m) ++ d :: post in
  let end_ := length pre + length (la (cm_raw m)) in
  members_go c (S fuel) (length pre) out =
  if decide (d = ","%char) then members_go c fuel (S end_) (out ++ [m])
  else if decide (end_ = length c - 1) then Some (out ++ [m]) else None.
Proof.
  intros (kb & v & Hkb & Hv & Hraw & Hval & Hkey) Hd c end_.
  assert (la (cm_raw m) = quote :: kb ++ quote :: ":"%char :: v) as Hla by by rewrite Hraw la_al.
  assert (c = pre ++ quote :: kb ++ quote :: (":"%char :: v ++ d :: post)) as Hc1 by (unfold c; rewrite Hla; app_eq).
  assert (c = (pre ++ quote :: kb ++ [quote]) ++ ":"%char :: (v ++ d :: post)) as Hc2 by (rewrite Hc1; app_eq).
  assert (c = (pre ++ quote :: kb ++ [quote; ":"%char]) ++ v ++ d :: post) as Hc3 by (rewrite Hc1; app_eq).
  set (keyEnd := length pre + length kb + 2).
  assert (length (pre ++ quote :: kb ++ [quote]) = keyEnd) as Hl2 by (unfold keyEnd; len).
  assert (length (pre ++ quote :: kb ++ [quote; ":"%char]) = S keyEnd) as Hl3 by (unfold keyEnd; len).
  assert (end_ = S keyEnd + length v) as Hend by (unfold end_, keyEnd; rewrite Hla; len).
  assert (skipString c (length pre) = Some keyEnd) as Hs by (rewrite Hc1; by apply skipString_spec).
  assert (skipValue c (S keyEnd) = Some end_) as Hsv.
  { rewrite Hc3 -Hl3 Hend -Hl3. apply skipValue_spec; [done|]. unfold stops, closer. naive_solver. }
  assert (member_key c (length pre) keyEnd = Some (cm_key m)) as Hmk.
  { unfold member_key, slice_string.
    assert (slice c (length pre) keyEnd = quote :: kb ++ [quote]) as ->.
    { replace c with (pre ++ (quote :: kb ++ [quote]) ++ ":"%char :: v ++ d :: post) by (rewrite Hc1; app_eq).
      apply slice_at; [done|unfold keyEnd; len]. }
    assert (slice c (S (length pre)) (keyEnd - 1) = kb) as ->.
    { replace c with ((pre ++ [quote]) ++ kb ++ quote :: ":"%char :: v ++ d :: post) by (rewrite Hc1; app_eq).
      apply slice_at; [len|unfold keyEnd; len]. }
    destruct (decide (backslash ∈ kb)) as [Hb|Hb].
    - rewrite decide_True //. set_solver.
    - rewrite decide_False; [by rewrite Hkey|]. rewrite elem_of_cons elem_of_app list_elem_of_singleton. naive_solver. }
  assert (slice_string c (length pre) end_ = cm_raw m) as Hsr.
  { unfold slice_string. rewrite -(al_la (cm_raw m)). f_equal. by apply slice_at. }
  assert (slice_string c (S keyEnd) end_ = cm_val m) as Hsl.
  { unfold slice_string. rewrite Hval. f_equal. rewrite Hc3. apply slice_at; [done|by rewrite Hl3]. }
  cbn [members_go]. rewrite decide_True; [|rewrite Hc1; apply lookup_mid].
  rewrite Hs decide_True; [|rewrite Hc2 -Hl2; apply lookup_mid].
  rewrite Hmk Hsv Hsr Hsl.
  assert (c !! end_ = Some d) as ->.
  { unfold c, end_. apply lookup_mid2. }
  assert (mkMember (cm_key m) (cm_raw m) (cm_val m) = m) as -> by by destruct m.
  by destruct Hd as [-> | ->].
Qed.

Lemma members_go_print ms m pre fuel out :
  well_formed m -> Forall well_formed ms -> length ms < fuel ->
  members_go (pre ++ la (String.concat "," (cm_raw <$> m :: ms)) ++ ["}"%char]) fuel (length pre) out =
  Some (out ++ m :: ms).
Proof.
  revert m pre fuel out. induction ms as [|m' ms IH]; intros m pre [|fuel] out Hm Hms Hf; try (simpl in Hf; lia).
  - cbn [fmap list_fmap String.concat]. rewrite members_step //; [|by right].
    case_decide; [done|]. case_decide as Hn; [done|]. exfalso. apply Hn. len.
  - apply Forall_cons in Hms as [Hm' Hms].
    assert (String.concat "," (cm_raw <$> m :: m' :: ms) =
            (cm_raw m ++ "," ++ String.concat "," (cm_raw <$> m' :: ms))%string) as -> by done.
    rewrite !la_app. set (rest := la (String.concat "," (cm_raw <$> m' :: ms))).
    replace (pre ++ (la (cm_raw m) ++ la "," ++ rest) ++ ["}"%char])
      with (pre ++ la (cm_raw m) ++ ","%char :: (rest ++ ["}"%char])) by app_eq.
    rewrite members_step //; [|by left]. case_decide; [|done].
    replace (pre ++ la (cm_raw m) ++ ","%char :: (rest ++ ["}"%char]))
      with ((pre ++ la (cm_raw m) ++ [","%char]) ++ rest ++ ["}"%char]) by app_eq.
    replace (S (length pre + length (la (cm_raw m)))) with (length (pre ++ la (cm_raw m) ++ [","%char])) by len.
    rewrite IH //; [|simpl in Hf; lia]. by rewrite -app_assoc.
Qed.

Lemma canonicalMembers_ok ms : Forall well_formed ms -> canonicalMembers (print ms) = Some ms.
Proof.
  intros Hms. unfold canonicalMembers, print. rewrite !la_app.
  destruct ms as [|m ms]; [done|]. apply Forall_cons in Hms as [Hm Hms].
  pose proof Hm as (kb & v & _ & _ & Hraw & _).
  set (body := la (String.concat "," (cm_raw <$> m :: ms))).
  assert (exists b, body = quote :: b) as [b Hb].
  { unfold body. destruct ms as [|m' ms]; cbn [fmap list_fmap String.concat]; rewrite ?la_app Hraw; by eexists. }
  assert (la "{" ++ body ++ la "}" = ["{"%char] ++ body ++ ["}"%char]) as -> by done.
  rewrite decide_True.
  2:{ split_and!; [len|done|]. rewrite app_assoc. 
      replace (length ((["{"%char] ++ body) ++ ["}"%char]) - 1) with (length (["{"%char] ++ body)) by len.
      apply lookup_mid. }
  rewrite decide_False; [|by rewrite Hb].
  apply (members_go_print ms m ["{"%char]); [done..|]. unfold body. rewrite !length_app /=.
  assert (forall l, length l <= length (la (String.concat "," l))  + 1) as Hlen.
  { intros l. induction l as [|x l IH]; [simpl; lia|]. destruct l; [simpl; lia|].
    change (String.concat "," (x :: s :: l)) with (x ++ "," ++ String.concat "," (s :: l))%string.
    rewrite !la_app !length_app. simpl in *. lia. }
  specialize (Hlen (cm_raw <$> m :: ms)). rewrite length_fmap in Hlen. simpl in Hlen |- *. lia.
Qed.

(** Slicing takes any compact object apart into the members it was
    written from, whatever strings and nested values they hold, so two objects
    written the same have the same members. *)
Lemma canonicalMembers_print ms ms' :
  Forall well_formed ms -> Forall well_formed ms' ->
  canonicalMembers (print ms) = Some ms /\ (print ms = print ms' -> ms = ms').
Proof.
  intros Hms Hms'. pose proof (canonicalMembers_ok _ Hms) as H. split; [done|]. intros Heq.
  rewrite Heq canonicalMembers_ok // in H. by injection H as ->.
Qed.

(** ** The hashes *)

(** A member as the encoder writes one whose key needs no escape. *)
Definition member (k v : string) : canonicalMember :=
  mkMember k (dquote ++ k ++ dquote ++ ":" ++ v)%string v.

Definition body_members (ms : list canonicalMember) : list canonicalMember :=
  filter (fun m => isEnvelopeKey (cm_key m) = false) ms.

(** The envelope the id is the hash of, in canonical order. *)
Definition envelope_members (ms : list canonicalMember) (content : string) : list canonicalMember :=
  [member "content" (Quote content); member "parent" (orNull (member_lookup "parent" ms))]
  ++ (member "parents" <$> option_list (parents_member (member_lookup "parents" ms)))
  ++ [member "ts" (orNull (member_lookup "ts" ms)); member "type" (orNull (member_lookup "type" ms))].

Lemma str_app_assoc (a b c : string) : ((a ++ b) ++ c)%string = (a ++ b ++ c)%string.
Proof. apply la_inj. by rewrite !la_app app_assoc. Qed.

(** Both hashes are of an object's canonical form. *)
Lemma memberHashes_print ms :
  memberHashes ms =
  let content := HashBytes (print (body_members ms)) in
  (HashBytes (print (envelope_members ms content)), content).
Proof.
  unfold memberHashes, body_members, print. cbn zeta.
  set (content := HashBytes _). f_equal. f_equal. unfold envelope_members.
  destruct (parents_member _) as [p|]; cbn [option_list fmap list_fmap option_fmap app String.concat cm_raw member];
    by rewrite !str_app_assoc.
Qed.

Definition map_of (ms : list canonicalMember) : gmap string RawMessage :=
  list_to_map ((fun m => (cm_key m, cm_val m)) <$> ms).

(** What [encoding/json] and the canonicaliser do with some members: encoded as
    a map they pass the I-JSON test, and canonicalised they are written in
    order. *)
Definition encodes (ms : list canonicalMember) : Prop :=
  exists d, MarshalMembers (map_of ms) = Ok d /\ ijson_Check d = Ok tt /\ Transform d = Some (print ms).

(** What reading and hashing a line relies on of them. *)
Record line_encoding (ms : list canonicalMember) : Prop := {
  le_check : ijson_Check (print ms) = Ok tt;
  le_decode : UnmarshalMembers (print ms) = Some (map_of ms);
  le_body : encodes (body_members ms);
  le_envelope : encodes (envelope_members ms (HashBytes (print (body_members ms))))
}.

Lemma lookup_map_of k ms : NoDup (cm_key <$> ms) -> map_of ms !! k = cm_val <$> find (fun m => bool_decide (cm_key m = k)) ms.
Proof.
  unfold map_of. induction ms as [|m ms IH]; intros Hnd; [by rewrite lookup_empty|].
  apply NoDup_cons in Hnd as [_ Hnd]. cbn [fmap list_fmap list_to_map]. simpl.
  destruct (decide (cm_key m = k)) as [<-|Hne].
  - by rewrite lookup_insert_eq bool_decide_eq_true_2.
  - rewrite lookup_insert_ne // bool_decide_eq_false_2 //. by apply IH.
Qed.

(** With no key repeated, the last of a key is the one. *)
Lemma member_lookup_map k ms :
  NoDup (cm_key <$> ms) -> isEnvelopeKey k = true -> member_lookup k ms = map_of ms !! k.
Proof.
  intros Hnd Hk. rewrite lookup_map_of //. unfold member_lookup. f_equal.
  induction ms as [|m ms IH]; [done|]. apply NoDup_cons in Hnd as [Hn Hnd]. simpl. rewrite filter_cons.
  destruct (decide (cm_key m = k)) as [<-|Hne].
  - rewrite decide_True // bool_decide_eq_true_2 //.
    assert (filter (fun x => cm_key x = cm_key m /\ isEnvelopeKey (cm_key x) = true) ms = []) as ->; [|done].
    apply filter_none. intros x Hx [Heq _]. apply Hn. rewrite -Heq. by apply list_elem_of_fmap_2.
  - rewrite decide_False; [|naive_solver]. rewrite bool_decide_eq_false_2 //. by apply IH.
Qed.

Lemma body_of_map ms : NoDup (cm_key <$> ms) -> body_of (map_of ms) = map_of (body_members ms).
Proof.
  unfold body_of, body_members, map_of. induction ms as [|m ms IH]; intros Hnd; [by rewrite map_filter_empty|].
  apply NoDup_cons in Hnd as [Hn Hnd]. rewrite filter_cons fmap_cons.
  assert ((list_to_map ((fun m => (cm_key m, cm_val m)) <$> ms) : gmap string string) !! cm_key m = None) as Hm.
  { apply not_elem_of_list_to_map_1. rewrite -list_fmap_compose. done. }
  destruct (decide (isEnvelopeKey (cm_key m) = false)) as [He|He].
  - rewrite fmap_cons !list_to_map_cons map_filter_insert_True //. f_equal. by apply IH.
  - rewrite list_to_map_cons map_filter_insert_not //. by apply IH.
Qed.

Lemma envelope_of_map ms content :
  NoDup (cm_key <$> ms) -> envelope_of (map_of ms) content = map_of (envelope_members ms content).
Proof.
  intros Hnd. unfold envelope_of, envelope_members. rewrite !member_lookup_map //.
  unfold map_of at 5. destruct (parents_member _) as [p|]; simpl; apply map_eq; intros k;
    repeat (rewrite lookup_insert; case_decide; subst; try done).
Qed.

(** The hashes sliced out of an object's canonical form are those [EntryHashes]
    computes by decoding it and canonicalising its body and its envelope again. *)
Lemma sliced_hashes ms :
  Forall well_formed ms -> NoDup (cm_key <$> ms) -> line_encoding ms ->
  entryHashesCanonical (print ms) = EntryHashes (print ms).
Proof.
  intros Hms Hnd [Hc Hd (d & Hm & Hcb & Ht) (d' & Hm' & _ & Ht')].
  unfold entryHashesCanonical. rewrite canonicalMembers_ok // memberHashes_print.
  unfold EntryHashes. rewrite Hc Hd /= body_of_map // Hm /= Hcb /=. unfold HashRequestJSON. rewrite Ht /=.
  by rewrite envelope_of_map // Hm' /= Ht'.
Qed.

(** The envelope's members are well formed when the line's are. *)
Lemma member_wf k v : strbody (la k) -> backslash ∉ la k -> value (la v) -> well_formed (member k v).
Proof.
  intros Hk Hb Hv. exists (la k), (la v). split_and!; [done..| |by rewrite /= al_la|].
  - rewrite -(al_la (cm_raw (member k v))). f_equal. unfold member, dquote. cbn [cm_raw]. by rewrite !la_app.
  - rewrite decide_False //. by rewrite /= al_la.
Qed.

Lemma strbody_app a b : strbody a -> strbody b -> strbody (a ++ b).
Proof. induction 1; intros Hb; [done|by constructor; auto|simpl; by apply sb_escape; auto]. Qed.

Lemma hex_strbody s : str_forall hex_char s = true -> strbody (la s).
Proof.
  induction s as [|c s IH]; [by constructor|]. simpl. rewrite andb_true_iff. intros [Hc Hs].
  constructor; [by intros -> ..|auto].
Qed.

Lemma Quote_hash_value x : value (la (Quote (HashBytes x))).
Proof.
  unfold Quote, dquote. rewrite !la_app. apply (va_string (la (HashBytes x))). unfold HashBytes. rewrite la_app.
  apply strbody_app; [repeat (constructor; [done..|]); constructor|]. apply hex_strbody, sha256hex_form.
Qed.

Lemma null_value : value (la "null").
Proof. apply va_scalar; [done|by intros [|]|]. intros x Hx [->|[->| ->]]; revert Hx; set_solver. Qed.

Lemma member_lookup_value k ms v : Forall well_formed ms -> member_lookup k ms = Some v -> value (la v).
Proof.
  rewrite Forall_forall. intros Hms Hl. apply fmap_Some in Hl as (m & Hm & ->).
  apply last_Some_elem_of, list_elem_of_filter in Hm as [_ Hm].
  destruct (Hms _ Hm) as (kb & v & _ & Hv & _ & -> & _). by rewrite la_al.
Qed.

Lemma envelope_wf ms x : Forall well_formed ms -> Forall well_formed (envelope_members ms (HashBytes x)).
Proof.
  intros Hms.
  assert (forall k, value (la (orNull (member_lookup k ms)))) as Hv.
  { intros k. unfold orNull. destruct (member_lookup k ms) eqn:Hl; [by eapply member_lookup_value|apply null_value]. }
  assert (forall k v, k ∈ ["content"; "parent"; "parents"; "ts"; "type"] -> value (la v) -> well_formed (member k v)) as Hm.
  { intros k v Hk Hval. apply member_wf; [| |done]; rewrite !elem_of_cons in Hk;
      destruct Hk as [->|[->|[->|[->|[->|Hk]]]]]; try (by apply elem_of_nil in Hk);
      try (repeat (constructor; [done..|]); constructor); simpl; set_solver. }
  unfold envelope_members. rewrite !Forall_app !Forall_cons. split_and!; try (by constructor);
    try (apply Hm; [set_solver|first [apply Quote_hash_value|apply Hv]]).
  destruct (parents_member _) as [p|] eqn:Hp; simpl; [|constructor]. constructor; [|constructor].
  apply Hm; [set_solver|]. unfold parents_member in Hp. destruct (member_lookup "parents" ms) as [q|] eqn:Hl; [|done].
  destruct (UnmarshalList q) as [[]|]; try done. injection Hp as <-. by eapply member_lookup_value.
Qed.

(** An entry's id commits to what it says: two lines with one id have the
    same parent, parents, timestamp and type and the same body, or exhibit two
    different texts with one SHA-256 digest. *)
Lemma memberHashes_commit ms ms' content content' id :
  Forall well_formed ms -> Forall well_formed ms' ->
  memberHashes ms = (id, content) -> memberHashes ms' = (id, content') ->
  body_members ms = body_members ms' /\
    envelope_members ms content = envelope_members ms' content' \/
  exists x y, x <> y /\ sha256hex x = sha256hex y.
Proof.
  intros Hms Hms'. pose proof (envelope_wf ms (print (body_members ms)) Hms) as He.
  pose proof (envelope_wf ms' (print (body_members ms')) Hms') as He'. rewrite !memberHashes_print. cbn zeta. intros [= Hid Hcon] [= Hid' Hcon'].
  rewrite Hcon in Hid He. rewrite Hcon' in Hid' He'.
  destruct (decide (print (envelope_members ms content) = print (envelope_members ms' content'))) as [Heq|Hne].
  2:{ right. eexists _, _. split; [done|]. apply HashText_inj. unfold HashText. congruence. }
  assert (envelope_members ms content = envelope_members ms' content') as Henv.
  { pose proof (canonicalMembers_ok _ He) as H. rewrite Heq canonicalMembers_ok // in H. by apply (inj Some) in H. }
  destruct (decide (print (body_members ms) = print (body_members ms'))) as [Hbeq|Hbne].
  - left. split; [|done]. assert (forall l, Forall well_formed l -> Forall well_formed (body_members l)) as Hf.
    { intros l. rewrite !Forall_forall. intros Hl x Hx. apply list_elem_of_filter in Hx as [_ Hx]. auto. }
    pose proof (canonicalMembers_ok _ (Hf _ Hms)) as H. rewrite Hbeq canonicalMembers_ok in H; [|by apply Hf].
    by apply (inj Some) in H.
  - right. eexists _, _. split; [done|]. apply HashText_inj. unfold HashText. rewrite Hcon Hcon'.
    apply (f_equal (fun l => cm_val <$> head l)) in Henv. simpl in Henv. injection Henv as Hq.
    unfold Quote, dquote in Hq. apply (f_equal la) in Hq. rewrite !la_app in Hq. simpl in Hq.
    apply app_inj_tail in Hq as [Hq _]. by apply la_inj.
Qed.

End Members.
