(* ===== verification/OmitProps.v ===== *)
(** * The omit delta round trip ([entry.go], [context.go])

    The member [OmitDelta] computes puts in force exactly what is wanted, once
    merged into what is held, and where it computes none nothing has to change. *)
From S2P Require Import Prelude Entry Omit.
Open Scope session_scope.

Implicit Types (o : OmitOutputs) (g : OmitOutputGroup) (gs : list OmitOutputGroup) (id t : string).

(** ** What a member lists *)

Definition lists gs t id : Prop := exists g, g ∈ gs /\ grp_Text g = t /\ id ∈ grp_Items g.

Definition default_lists o t id : Prop := hasDefault o = true /\ oo_Text o = t /\ id ∈ oo_Items o.

(** No id but the empty one is in groups of two texts. *)
Definition one_group gs : Prop :=
  forall id t t', id <> "" -> lists gs t id -> lists gs t' id -> t = t'.

Lemma own_add_Some own id key own' :
  own_add own id key = Some own' -> own ⊆ own' /\ (id <> "" -> own' !! id = Some key).
Proof.
  unfold own_add. destruct (decide (id = "")) as [->|Hne]; [intros [= <-]; done|].
  destruct (own !! id) as [k|] eqn:Hid.
  - destruct (decide (k = key)) as [->|]; [|done]. intros [= <-]. rewrite insert_id //.
  - intros [= <-]. split; [by apply insert_subseteq|]. by rewrite lookup_insert_eq.
Qed.

Lemma own_all_Some own l key own' :
  own_all own l key = Some own' -> own ⊆ own' /\ forall id, id ∈ l -> id <> "" -> own' !! id = Some key.
Proof.
  revert own. induction l as [|x l IH]; intros own; simpl; [intros [= <-]; split; [done|set_solver]|].
  destruct (own_add own x key) as [own1|] eqn:Ha; [|done]. intros Hl.
  apply own_add_Some in Ha as [Hs Hx]. apply IH in Hl as [Hs' Hl]. split; [by etrans|].
  intros id. rewrite elem_of_cons. intros [->|Hid] Hne; [|by apply Hl].
  eapply lookup_weaken; [by apply Hx|done].
Qed.

Lemma own_groups_Some own texts gs own' :
  own_groups own texts gs = Some own' ->
  own ⊆ own' /\ (forall t id, lists gs t id -> id <> "" -> own' !! id = Some ("g" ++ t)%string) /\
  NoDup (grp_Text <$> gs) /\ (forall t, t ∈ texts -> t ∉ grp_Text <$> gs).
Proof.
  revert own texts. induction gs as [|g gs IH]; intros own texts; simpl.
  { intros [= <-]. split_and!; [done| |constructor|set_solver]. intros t id (g & Hg & _). set_solver. }
  destruct (decide (grp_Text g ∈ texts)) as [|Ht]; [done|].
  destruct (own_all _ _ _) as [own1|] eqn:Ha; [|done]. intros H. apply own_all_Some in Ha as [Hs Hl].
  apply IH in H as (Hs' & Hgs & Hnd & Htx). split_and!.
  - by etrans.
  - intros t id (h & Hh & <- & Hid) Hne. apply elem_of_cons in Hh as [->|Hh].
    + eapply lookup_weaken; [by apply Hl|done].
    + apply Hgs; [|done]. by exists h.
  - constructor; [apply Htx; set_solver|done].
  - intros t Hin Hc. apply elem_of_cons in Hc as [->|Hc]; [done|]. eapply Htx; [|exact Hc]. set_solver.
Qed.

Lemma well_formed_groups o :
  outputsWellFormed o = true -> NoDup (grp_Text <$> oo_Groups o) /\ one_group (oo_Groups o).
Proof.
  unfold outputsWellFormed. rewrite bool_decide_eq_true. intros [own Hown]. simpl in Hown.
  apply own_groups_Some in Hown as (_ & Hl & Hnd & _). split; [done|].
  intros id t t' Hne Ht Ht'. apply Hl in Ht; [|done]. apply Hl in Ht'; [|done].
  rewrite Ht in Ht'. by injection Ht'.
Qed.

(** ** The text of an output *)

(** What [TextFor] answers is settled by what the members list. *)
Lemma TextFor_same o o' id :
  one_group (oo_Groups o') -> id <> "" ->
  (forall t, lists (oo_Groups o) t id <-> lists (oo_Groups o') t id) ->
  (forall t, default_lists o t id <-> default_lists o' t id) ->
  TextFor o id = TextFor o' id.
Proof.
  intros Hone Hne Hg Hd.
  assert (forall gs, grp_Text <$> find (fun g => bool_decide (id ∈ grp_Items g)) gs = None <->
                     forall t, ~ lists gs t id) as Hnone.
  { intros gs. destruct (find _ gs) as [g|] eqn:Hf; simpl; split; try done.
    - apply find_some in Hf as [Hin Hb]. bool_prop. intros H. exfalso. apply (H (grp_Text g)).
      exists g. split; [by apply list_elem_of_In|done].
    - intros _ t (g & Hin & _ & Hid). apply list_elem_of_In in Hin.
      apply (find_none _ _ Hf) in Hin. by bool_prop. }
  assert (forall gs t, grp_Text <$> find (fun g => bool_decide (id ∈ grp_Items g)) gs = Some t -> lists gs t id)
    as Hsome.
  { intros gs t Hf. apply fmap_Some in Hf as (g & Hf & ->). apply find_some in Hf as [Hin Hb]. bool_prop.
    exists g. split; [by apply list_elem_of_In|done]. }
  assert (forall o, TextFor o id = match grp_Text <$> find (fun g => bool_decide (id ∈ grp_Items g)) (oo_Groups o) with
                                   | Some t => Some t
                                   | None => if hasDefault o && bool_decide (id ∈ oo_Items o) then Some (oo_Text o)
                                             else None end) as HT.
  { intros p. unfold TextFor. by destruct (find _ _). }
  rewrite !HT. destruct (grp_Text <$> find _ (oo_Groups o)) as [t|] eqn:H1.
  - apply Hsome in H1. destruct (grp_Text <$> find _ (oo_Groups o')) as [t'|] eqn:H2.
    + apply Hsome in H2. f_equal. apply (Hone id); [done| |done]. by apply Hg.
    + exfalso. rewrite Hnone in H2. apply (H2 t). by apply Hg.
  - rewrite Hnone in H1. destruct (grp_Text <$> find _ (oo_Groups o')) as [t'|] eqn:H2.
    + exfalso. apply Hsome in H2. apply (H1 t'). by apply Hg.
    + unfold default_lists in Hd.
      destruct (hasDefault o && bool_decide (id ∈ oo_Items o)) eqn:E1.
      * bool_prop. destruct (proj1 (Hd (oo_Text o))) as (-> & -> & Hin); [done|]. by rewrite bool_decide_eq_true_2.
      * destruct (hasDefault o' && bool_decide (id ∈ oo_Items o')) eqn:E2; [|done]. exfalso.
        apply andb_true_iff in E2 as [E2 Hin]. apply bool_decide_eq_true in Hin.
        destruct (proj2 (Hd (oo_Text o'))) as (H & _ & Hin'); [done|].
        by rewrite H bool_decide_eq_true_2 in E1.
Qed.

(** ** What the merge lists *)

Lemma elem_of_idSet l id : id ∈ idSet l <-> id <> "" /\ id ∈ l.
Proof. unfold idSet. rewrite elem_of_list_to_set list_elem_of_filter. done. Qed.

Lemma elem_of_union_ids a b id : id ∈ union a b <-> id <> "" /\ (id ∈ a \/ id ∈ b).
Proof.
  unfold union. rewrite -elem_of_app.
  assert (forall l out, id ∈ foldl union_step out l <-> id ∈ out \/ (id <> "" /\ id ∈ l)) as H.
  { induction l as [|x l IH]; intros out; simpl; [set_solver|]. rewrite IH elem_of_cons. unfold union_step.
    assert (x = "" \/ x ∈ out \/ (x <> "" /\ x ∉ out)) as Hx.
    { destruct (decide (x = "")), (decide (x ∈ out)); tauto. }
    destruct (decide (x <> "" /\ x ∉ out)) as [[Hxe Hxo]|Hn].
    - rewrite elem_of_app list_elem_of_singleton. naive_solver.
    - naive_solver. }
  rewrite H elem_of_nil. tauto.
Qed.

Lemma elem_of_new_ids listed items id : id ∈ new_ids listed items <-> id <> "" /\ id ∉ listed /\ id ∈ items.
Proof.
  unfold new_ids.
  assert (forall l acc, id ∈ (foldl new_step acc l).2 <-> id ∈ acc.2 \/ (id <> "" /\ id ∉ acc.1 /\ id ∈ l)) as H.
  { induction l as [|x l IH]; intros [a o]; simpl; [set_solver|]. rewrite IH elem_of_cons. unfold new_step. simpl.
    destruct (decide (x <> "" /\ x ∉ a)) as [[Hxe Hxo]|Hn]; simpl.
    - rewrite elem_of_app list_elem_of_singleton base.elem_of_union elem_of_singleton.
      destruct (decide (id = x)) as [->|]; tauto.
    - destruct (decide (id = x)) as [->|]; tauto. }
  rewrite H /= elem_of_nil. tauto.
Qed.

Lemma new_ids_nil listed items : new_ids listed items = [] -> idSet items ⊆ listed.
Proof.
  intros H id Hid. apply elem_of_idSet in Hid as [Hne Hin]. destruct (decide (id ∈ listed)) as [|Hn]; [done|].
  assert (id ∈ new_ids listed items) as Hc by (by apply elem_of_new_ids). rewrite H in Hc. set_solver.
Qed.

Lemma lists_nil t id : ~ lists [] t id.
Proof. intros (g & H & _). set_solver. Qed.

Lemma lists_cons g gs t id : lists (g :: gs) t id <-> (grp_Text g = t /\ id ∈ grp_Items g) \/ lists gs t id.
Proof.
  unfold lists. split.
  - intros (h & Hin & Ht & Hid). apply elem_of_cons in Hin as [->|Hin]; [by left|right; eauto].
  - intros [[Ht Hid]|(h & Hin & Ht & Hid)]; [exists g|exists h]; set_solver.
Qed.

Lemma lists_merge_group g gs t id : id <> "" ->
  lists (merge_group g gs) t id <-> lists gs t id \/ (grp_Text g = t /\ id ∈ grp_Items g).
Proof.
  intros Hne. induction gs as [|h gs IH]; simpl.
  - rewrite lists_cons /= elem_of_union_ids. set_solver.
  - destruct (decide (grp_Text h = grp_Text g)) as [E|].
    + rewrite !lists_cons /= elem_of_union_ids E. set_solver.
    + rewrite !lists_cons IH. tauto.
Qed.

Lemma lists_merged ds gs t id : id <> "" ->
  lists (foldl (fun gs g => merge_group g gs) gs ds) t id <-> lists gs t id \/ lists ds t id.
Proof.
  intros Hne. revert gs. induction ds as [|d ds IH]; intros gs; simpl.
  - split; [by left|]. intros [|H]; [done|]. by apply lists_nil in H.
  - rewrite IH lists_merge_group // lists_cons. tauto.
Qed.

Lemma group_of_Some t gs g : group_of t gs = Some g -> g ∈ gs /\ grp_Text g = t.
Proof. intros H. apply find_some in H as [Hin H]. bool_prop. by rewrite list_elem_of_In. Qed.

Lemma group_of_text t gs : t ∈ grp_Text <$> gs -> is_Some (group_of t gs).
Proof.
  rewrite list_elem_of_fmap. intros (g & -> & Hin). destruct (group_of _ gs) as [h|] eqn:H; [done|].
  apply list_elem_of_In in Hin. apply (find_none _ _ H) in Hin. by bool_prop.
Qed.

Lemma keyed_unique gs g h : NoDup (grp_Text <$> gs) -> g ∈ gs -> h ∈ gs -> grp_Text g = grp_Text h -> g = h.
Proof.
  intros Hnd Hg Hh E. apply list_elem_of_lookup in Hg as [i Hi]. apply list_elem_of_lookup in Hh as [j Hj].
  assert (i = j) as ->; [|congruence]. eapply NoDup_lookup; [exact Hnd| |]; rewrite list_lookup_fmap.
  - by rewrite Hi.
  - by rewrite Hj /= E.
Qed.

(** ** Equal as far as the wire goes *)

(** What [sameOutputsInForce] compares, of two members. *)
Lemma same_groups hs ws :
  NoDup (grp_Text <$> hs) -> length hs = length ws ->
  (forall g, g ∈ hs -> exists w, group_of (grp_Text g) ws = Some w /\ idSet (grp_Items g) = idSet (grp_Items w)) ->
  forall t id, id <> "" -> lists hs t id <-> lists ws t id.
Proof.
  intros Hnd Hlen Hall t id Hne.
  assert (grp_Text <$> hs ⊆ grp_Text <$> ws) as Hsub.
  { intros x Hx. apply list_elem_of_fmap in Hx as (g & -> & Hg). destruct (Hall g Hg) as (w & Hw & _).
    apply group_of_Some in Hw as [Hw <-]. by apply list_elem_of_fmap_2. }
  assert (grp_Text <$> hs ≡ₚ grp_Text <$> ws) as Hp.
  { apply NoDup_submseteq in Hsub; [|done]. apply submseteq_length_Permutation; [done|].
    rewrite !length_fmap. lia. }
  split.
  - intros (g & Hg & <- & Hid). destruct (Hall g Hg) as (w & Hw & E). apply group_of_Some in Hw as [Hw Ht].
    exists w. split_and!; [done|done|]. assert (id ∈ idSet (grp_Items w)) as H; [|by apply elem_of_idSet in H as [_ H]].
    rewrite -E. by apply elem_of_idSet.
  - intros (w & Hw & <- & Hid). assert (grp_Text w ∈ grp_Text <$> hs) as Hin.
    { rewrite Hp. by apply list_elem_of_fmap_2. }
    apply list_elem_of_fmap in Hin as (g & Hgt & Hg). destruct (Hall g Hg) as (w' & Hw' & E).
    apply group_of_Some in Hw' as [Hw' Ht]. assert (w' = w) as ->.
    { apply (keyed_unique ws); [by rewrite -Hp|done|done|congruence]. }
    exists g. split_and!; [done|done|]. assert (id ∈ idSet (grp_Items g)) as H; [|by apply elem_of_idSet in H as [_ H]].
    rewrite E. by apply elem_of_idSet.
Qed.

(** Two members send every output with the same text. *)
Definition same_texts (a b : option OmitOutputs) : Prop :=
  match a, b with
  | None, None => True
  | Some a, Some b => forall id, id <> "" -> TextFor a id = TextFor b id
  | _, _ => False
  end.

Lemma sameOutputsInForce_texts a b :
  (forall o, a = Some o -> outputsWellFormed o = true) -> sameOutputsInForce a b = true -> same_texts a b.
Proof.
  intros Hwf H. destruct a as [h|], b as [w|]; try done. simpl in *. specialize (Hwf h eq_refl).
  apply well_formed_groups in Hwf as [Hnd Hone].
  apply andb_true_iff in H as [H Hg]. apply andb_true_iff in H as [H Hlen]. apply andb_true_iff in H as [Hd Hdef].
  apply bool_decide_eq_true in Hlen, Hd. intros id Hne. symmetry. apply TextFor_same; [done|done| |].
  - intros t. symmetry. apply same_groups; [done|done| |done]. intros g Hin. rewrite forallb_forall in Hg.
    apply list_elem_of_In in Hin. specialize (Hg g Hin). destruct (group_of _ (oo_Groups w)) as [k|]; [|done].
    exists k. by apply bool_decide_eq_true in Hg.
  - intros t. unfold default_lists. rewrite -Hd. destruct (hasDefault h); [|naive_solver]. simpl in Hdef. bool_prop.
    assert (forall x, x ∈ idSet (oo_Items h) <-> x ∈ idSet (oo_Items w)) as E by (intros x; by rewrite H0).
    specialize (E id). rewrite !elem_of_idSet in E. rewrite H. tauto.
Qed.

(** ** The delta of the outputs *)

Lemma lists_delta_groups hs ws t id : id <> "" -> keeps_groups hs ws = true ->
  (lists hs t id \/ lists (delta_groups hs ws) t id) <-> lists ws t id.
Proof.
  intros Hne Hk. unfold keeps_groups in Hk. rewrite forallb_forall in Hk. split; [intros [H|H]|].
  - destruct H as (g & Hg & <- & Hid). apply list_elem_of_In in Hg. specialize (Hk g Hg).
    destruct (group_of _ ws) as [w|] eqn:Hw; [|done]. apply group_of_Some in Hw as [Hw Ht]. bool_prop.
    exists w. split_and!; [done|done|]. assert (id ∈ idSet (grp_Items w)) as H; [|by apply elem_of_idSet in H as [_ H]].
    apply Hk. by apply elem_of_idSet.
  - destruct H as (g & Hg & <- & Hid). apply list_elem_of_omap in Hg as (w & Hw & Hd). simpl in Hd.
    case_decide; [|done]. injection Hd as <-. simpl in *. apply elem_of_new_ids in Hid as (_ & _ & Hid). by exists w.
  - intros (w & Hw & <- & Hid).
    destruct (group_of (grp_Text w) hs) as [g|] eqn:Hgo.
    + destruct (decide (id ∈ idSet (grp_Items g))) as [Hin|Hn].
      * left. apply group_of_Some in Hgo as [Hg Ht]. exists g. apply elem_of_idSet in Hin as [_ Hin]. done.
      * right. assert (id ∈ new_ids (idSet (grp_Items g)) (grp_Items w)) as Hin by (by apply elem_of_new_ids).
        exists (mkOmitOutputGroup (grp_Text w) (new_ids (idSet (grp_Items g)) (grp_Items w))).
        split; [|done]. apply list_elem_of_omap. exists w. split; [done|].
        cbv zeta. rewrite Hgo. case_decide as Hc; [done|]. exfalso. apply Hc. right. intros E. rewrite E in Hin. set_solver.
    + right. assert (id ∈ new_ids ∅ (grp_Items w)) as Hin by (apply elem_of_new_ids; set_solver).
      exists (mkOmitOutputGroup (grp_Text w) (new_ids ∅ (grp_Items w))).
      split; [|done]. apply list_elem_of_omap. exists w. split; [done|].
      cbv zeta. rewrite Hgo. case_decide as Hc; [done|]. exfalso. apply Hc. by left.
Qed.

(** No delta group to write means the groups are the same. *)
Lemma delta_groups_nil hs ws :
  keeps_groups hs ws = true -> delta_groups hs ws = [] -> NoDup (grp_Text <$> hs) -> NoDup (grp_Text <$> ws) ->
  length hs = length ws /\
  forallb (fun g => match group_of (grp_Text g) ws with
                    | Some h => bool_decide (idSet (grp_Items g) = idSet (grp_Items h))
                    | None => false
                    end) hs = true.
Proof.
  unfold keeps_groups. rewrite forallb_forall. intros Hk Hd Hnd Hndw.
  assert (forall x, x ∉ delta_groups hs ws) as Hno by (intros x; rewrite Hd; apply not_elem_of_nil).
  assert (forall w, w ∈ ws -> exists g, g ∈ hs /\ grp_Text g = grp_Text w /\ idSet (grp_Items w) ⊆ idSet (grp_Items g)) as Hback.
  { intros w Hw. destruct (group_of (grp_Text w) hs) as [g|] eqn:Hg.
    - apply group_of_Some in Hg as Hgs. destruct Hgs. exists g. split_and!; [done|done|]. apply new_ids_nil.
      destruct (new_ids _ _) as [|x l] eqn:Hn; [done|]. exfalso. eapply Hno.
      apply list_elem_of_omap. exists w. split; [done|]. cbv zeta. rewrite Hg Hn. case_decide as Hc; [done|].
      exfalso. apply Hc. by right.
    - exfalso. eapply Hno. apply list_elem_of_omap. exists w. split; [done|].
      cbv zeta. rewrite Hg. case_decide as Hc; [done|].
      exfalso. apply Hc. by left. }
  assert (forall g, g ∈ hs -> exists w, group_of (grp_Text g) ws = Some w /\ idSet (grp_Items g) ⊆ idSet (grp_Items w)) as Hfwd.
  { intros g Hg. apply list_elem_of_In in Hg. specialize (Hk g Hg). destruct (group_of _ ws) as [w|]; [|done].
    bool_prop. by exists w. }
  split.
  - rewrite -(length_fmap grp_Text hs) -(length_fmap grp_Text ws). apply Permutation_length, NoDup_Permutation; [done|done|].
    intros t. rewrite !list_elem_of_fmap. split.
    + intros (g & -> & Hg). destruct (Hfwd g Hg) as (w & Hw & _). apply group_of_Some in Hw as [Hw Ht]. by exists w.
    + intros (w & -> & Hw). destruct (Hback w Hw) as (g & Hg & Ht & _). by exists g.
  - apply forallb_forall. intros g Hin. apply list_elem_of_In in Hin. destruct (Hfwd g Hin) as (w & Hw & Hs).
    rewrite Hw. apply bool_decide_eq_true. apply (anti_symm (⊆)); [done|]. apply group_of_Some in Hw as [Hw Ht].
    destruct (Hback w Hw) as (g' & Hg' & Ht' & Hs'). by rewrite (keyed_unique hs g g') //; congruence.
Qed.

Definition held_groups (have : option OmitOutputs) : list OmitOutputGroup :=
  match have with Some h => oo_Groups h | None => [] end.

Lemma mergedOutputs_groups have d :
  oo_Groups (mergedOutputs have d) = foldl (fun gs g => merge_group g gs) (held_groups have) (oo_Groups d).
Proof. unfold mergedOutputs. by destruct have, (hasDefault d). Qed.

(** A default group lists something only when the member writes it. *)
Lemma default_lists_items o t id :
  default_lists o t id <-> oo_Text o = t /\ id ∈ oo_Items o.
Proof.
  unfold default_lists, hasDefault. split; [tauto|]. intros [Ht Hid]. split; [|done].
  rewrite (bool_decide_eq_true_2 (oo_Items o <> [])); [by rewrite orb_true_r|]. intros E. rewrite E in Hid. set_solver.
Qed.

(** The merge writes the wanted default group, or leaves it as it is. *)
Lemma mergedOutputs_default have w text items set gs t id :
  id <> "" -> delta_default have w = Some (text, items, set) ->
  (gs = [] -> hasDefault w = true -> set = true) ->
  default_lists (mergedOutputs have (mkOmitOutputs text items gs set)) t id <-> default_lists w t id.
Proof.
  intros Hne Hd Hset. rewrite default_lists_items. unfold delta_default in Hd.
  assert (forall d, oo_Items (mergedOutputs have d) =
                    if hasDefault d then union (oo_Items (default OmitOutputs_zero have)) (oo_Items d)
                    else oo_Items (default OmitOutputs_zero have)) as Hitems.
  { intros d. unfold mergedOutputs. by destruct (hasDefault d). }
  assert (forall d, oo_Text (mergedOutputs have d) =
                    if hasDefault d then oo_Text d else oo_Text (default OmitOutputs_zero have)) as Htext.
  { intros d. unfold mergedOutputs. by destruct (hasDefault d). }
  assert (match have with Some h => if hasDefault h then oo_Items h else [] | None => [] end
          = oo_Items (default OmitOutputs_zero have)) as Hhd.
  { destruct have as [h|]; [|done]. simpl. destruct (hasDefault h) eqn:E; [done|]. unfold hasDefault in E. by bool_prop. }
  rewrite Hitems Htext. clear Hitems Htext. cbv zeta in Hd. rewrite Hhd in Hd.
  set (hi := oo_Items (default OmitOutputs_zero have)) in *.
  assert (forall l, hasDefault (mkOmitOutputs text l gs true) = true) as Hdt by done.
  destruct (hasDefault w) eqn:Hw.
  - case_decide as Hsub; [|done]. rewrite default_lists_items. assert (id ∈ hi -> id ∈ oo_Items w) as Hin.
    { intros H. assert (id ∈ idSet (oo_Items w)) as H'; [|by apply elem_of_idSet in H' as [_ H']].
      apply Hsub. by apply elem_of_idSet. }
    case_match eqn:Hwr; injection Hd as <- <- <-.
    + simpl. rewrite elem_of_union_ids elem_of_new_ids elem_of_idSet. destruct (decide (id ∈ hi)); tauto.
    + apply orb_false_iff in Hwr as [Hh Hn]. apply bool_decide_eq_false in Hn. apply dec_stable in Hn.
      apply new_ids_nil in Hn. assert (gs <> []) as Hgs by (intros E; by specialize (Hset E eq_refl)).
      assert (hasDefault (mkOmitOutputs "" [] gs false) = false) as -> by (unfold hasDefault; simpl; by apply bool_decide_eq_false_2).
      destruct have as [h|]; [|done]. apply orb_false_iff in Hh as [_ Hh]. bool_prop. simpl. rewrite Hh.
      assert (id ∈ oo_Items w -> id ∈ hi) as Hback; [|tauto]. intros H.
      assert (id ∈ idSet hi) as H'; [|by apply elem_of_idSet in H' as [_ H']]. apply Hn. by apply elem_of_idSet.
  - case_decide as Hemp; [|done]. injection Hd as <- <- <-. assert (id ∉ hi) as Hno.
    { intros H. eapply (not_elem_of_empty (C := gset string)). rewrite -Hemp. by apply elem_of_idSet. }
    unfold default_lists. rewrite Hw. split; [|by intros [??]]. intros [_ H].
    destruct (hasDefault _) in H; [|done]. simpl in H. apply elem_of_union_ids in H as [_ [H|H]]; [done|set_solver].
Qed.

Lemma outputsDelta_merged have w d :
  (forall o, have = Some o -> outputsWellFormed o = true) ->
  outputsDelta have (Some w) = Some (Some d) -> sameOutputsInForce have (Some w) = false ->
  outputsOverlap have (Some d) = false /\ same_texts (Some (mergedOutputs have d)) (Some w).
Proof.
  intros Hwf H Hdiff. unfold outputsDelta in H. destruct (outputsWellFormed w) eqn:Hw; [|done]. simpl in H.
  destruct (delta_default have w) as [[[text items] set]|] eqn:Hd; [|done].
  change (match have with Some h => oo_Groups h | None => [] end) with (held_groups have) in H.
  destruct (keeps_groups _ _) eqn:Hk; [|done]. simpl in H. destruct (outputsOverlap _ _) eqn:Ho; [done|].
  injection H as <-. split; [done|]. apply well_formed_groups in Hw as [Hndw Hone]. intros id Hne.
  apply TextFor_same; [done|done| |].
  - intros t. rewrite mergedOutputs_groups lists_merged // lists_delta_groups //.
  - intros t. apply mergedOutputs_default; [done|done|]. intros Hg Hdw. destruct set; [done|]. exfalso.
    destruct have as [h|]; [|unfold delta_default in Hd; rewrite Hdw in Hd; simpl in Hd; by case_decide].
    specialize (Hwf h eq_refl). apply well_formed_groups in Hwf as [Hndh _].
    destruct (delta_groups_nil _ _ Hk Hg Hndh Hndw) as [Hlen Hall]. simpl in Hlen, Hall.
    unfold delta_default in Hd. rewrite Hdw in Hd. case_decide as Hsub; [|done]. case_match eqn:Hwr; [done|].
    apply orb_false_iff in Hwr as [Hh Hn]. apply orb_false_iff in Hh as [Hh Ht]. bool_prop.
    rewrite Hh in Hsub, Hn. apply new_ids_nil in Hn.
    assert (idSet (oo_Items h) = idSet (oo_Items w)) as Hi by (apply (anti_symm (⊆)); done).
    unfold sameOutputsInForce in Hdiff. rewrite Hall Hh Hdw Ht Hi Hlen in Hdiff.
    repeat case_bool_decide; done.
Qed.

(** ** The delta puts in force what is wanted *)

(** [r] has the effect of [w]: the same reasoning, items, images and texts. *)
Definition in_force (r w : Omit) : Prop :=
  om_Reasoning r = om_Reasoning w /\ idSet (om_Items r) = idSet (om_Items w) /\
  om_Images r = om_Images w /\ same_texts (om_Outputs r) (om_Outputs w).

(** A delta with an effect is not read as the member that resets everything. *)
Lemma Omit_IsZero_parts (o : Omit) :
  Omit_IsZero o = true -> om_Reasoning o = "" /\ idSet (om_Items o) = ∅ /\ om_Outputs o = None /\ om_Images o = None.
Proof.
  unfold Omit_IsZero. intros H. bool_prop. rewrite forallb_forall in H0.
  split_and!; [done| |by apply eq_None_not_Some|by apply eq_None_not_Some].
  apply (anti_symm (⊆)); [|set_solver]. intros id Hid. apply elem_of_idSet in Hid as [Hne Hin].
  apply list_elem_of_In in Hin. specialize (H0 id Hin). by bool_prop.
Qed.

Lemma idSet_union a b : idSet (union a b) = idSet a ∪ idSet b.
Proof. apply set_eq. intros id. rewrite base.elem_of_union !elem_of_idSet elem_of_union_ids. tauto. Qed.

Lemma idSet_new_ids listed items : idSet (new_ids listed items) = idSet items ∖ listed.
Proof. apply set_eq. intros id. rewrite elem_of_difference !elem_of_idSet elem_of_new_ids. tauto. Qed.

(** C29: [OmitDelta] is exact: the member it computes, merged
    into the one in force, leaves out and replaces exactly what is wanted --
    also where it has to reset everything -- and it computes none only where
    nothing has to change. *)
Theorem OmitDelta_merges have want d :
  (forall o, om_Outputs have = Some o -> outputsWellFormed o = true) ->
  OmitDelta have want = Some d ->
  in_force (match d with Some d => merged have d | None => have end) want.
Proof.
  intros Hwf. unfold OmitDelta. cbv zeta. case_match eqn:Hsame.
  { intros [= <-]. apply andb_true_iff in Hsame as [Hsame ?]. apply andb_true_iff in Hsame as [Hsame ?].
    bool_prop. split_and!; [done|done|done|]. by apply sameOutputsInForce_texts. }
  case_match eqn:Hzero.
  { intros [= <-]. apply Omit_IsZero_parts in Hzero as (Hr & Hi & Ho & Him).
    rewrite /merged /=. unfold in_force. rewrite Hr Hi Ho Him. by split_and!. }
  case_match eqn:Hreas; [done|]. destruct (outputsDelta _ _) as [outs|] eqn:Hod; [|done].
  destruct (decide (_ \/ _)) as [Hk|Hk]; [done|]. intros [= <-].
  assert (idSet (om_Items have) ⊆ idSet (om_Items want)) as Hsub by (apply dec_stable; tauto).
  assert (om_Images want = None -> om_Images have = None) as Him.
  { intros E. apply dec_stable. intros Hn. apply Hk. by right. }
  apply orb_false_iff in Hreas as [Hr1 Hr2].
  set (d := mkOmit _ _ _ _ _).
  destruct (Omit_IsZero d) eqn:Hdz.
  - exfalso. apply Omit_IsZero_parts in Hdz as (Hr & Hi & Ho & Hg). simpl in *.
    rewrite idSet_new_ids in Hi. apply andb_false_iff in Hsame. rewrite !andb_false_iff in Hsame.
    destruct Hsame as [[[Hs|Hs]|Hs]|Hs].
    + apply bool_decide_eq_false in Hs. case_decide; [|naive_solver]. rewrite Hr in Hr2 Hs. simpl in Hr2. by bool_prop.
    + apply bool_decide_eq_false in Hs. apply Hs. apply (anti_symm (⊆)); [done|]. set_solver.
    + rewrite Hs in Ho. subst outs. unfold outputsDelta in Hod.
      destruct (om_Outputs want) as [w|]; [|by destruct (om_Outputs have)].
      repeat (case_match; try done).
    + rewrite Hs in Hg. apply bool_decide_eq_false in Hs. apply Hs. by rewrite Hg (Him Hg).
  - unfold merged. rewrite Hdz. unfold in_force. subst d. simpl. split_and!.
    + destruct (decide (om_Reasoning want <> om_Reasoning have)) as [Hr|Hr].
      * destruct (decide (om_Reasoning want = OmitOtherModels)); [done|]. clear Hsame; apply andb_false_iff in Hr1 as [Hr1|Hr1]; apply bool_decide_eq_false, dec_stable in Hr1; [|done].
        rewrite Hr1 andb_comm /= in Hr2. apply bool_decide_eq_false, dec_stable in Hr2. congruence.
      * apply dec_stable in Hr. by case_decide.
    + rewrite idSet_union idSet_new_ids. apply set_eq. intros id. rewrite base.elem_of_union elem_of_difference.
      destruct (decide (id ∈ idSet (om_Items have))); set_solver.
    + case_bool_decide as E; [done|]. destruct (om_Images want); [done|]. by apply Him.
    + destruct (sameOutputsInForce _ _) eqn:Hs; [by apply sameOutputsInForce_texts|].
      destruct (om_Outputs want) as [w|] eqn:Hw.
      * destruct outs as [o|]; [|unfold outputsDelta in Hod; repeat (case_match; try done)].
        destruct (outputsDelta_merged _ _ _ Hwf Hod Hs) as [-> Ht]. done.
      * unfold outputsDelta in Hod. by destruct (om_Outputs have).
Qed.
