(* ===== verification/Session.v ===== *)
(** * Writing to a session ([session.go], [lifecycle.go], [redacted.go])

    The checks a writer's entry passes ([validateEntry], [checkNew]), the fill
    and the hash of its envelope ([prepare]), and the operations that change a
    session: [Commit], [Append], [Extend], the head compare-and-swap and
    [Fork]; then the entries [Compact] and [SummarizeBranch] build. *)
From stdpp Require Import pretty.
From S2P Require Import Prelude Entry Header Tree Leaf TreeWf Calls CallRules Runs Verify Omit Digest.
From S2P Require Import Settings Context Hash.
Open Scope session_scope.

(** The encoder and decoder of entries, [codec.go] and [normalise.go]. *)
Class EntryCodec `{OpenResponses} := {
  MarshalEntry : Entry -> result RawMessage;
  (* the entry as it is left, and its line, nil when it was rewritten *)
  normaliseEntry : Entry -> Entry * result (option RawMessage);
  (* the type it leaves on the entry, and the raw line rewritten *)
  rewriteEnvelope : UnknownEntry -> string * result RawMessage;
  splitMembers : RawMessage -> option (gmap string RawMessage)
}.

(** ** Well-formedness of one entry *)

Section Validate.
Context {OR : OpenResponses}.

(** [LayerRef.valid] and [validLayers] ([entry.go]). *)
Definition LayerRef_valid (r : LayerRef) : bool :=
  bool_decide (layer_Source r <> "")
  && (bool_decide (layer_ID r <> "") || bool_decide (layer_Source r <> LayerAgentsMD)).

Fixpoint layers_distinct (ids sources : gset string) (refs : list LayerRef) : bool :=
  match refs with
  | [] => true
  | r :: refs =>
      LayerRef_valid r &&
      (if decide (layer_ID r = "")
       then negb (bool_decide (layer_Source r ∈ sources)) && layers_distinct ids ({[layer_Source r]} ∪ sources) refs
       else negb (bool_decide (layer_ID r ∈ ids)) && layers_distinct ({[layer_ID r]} ∪ ids) sources refs)
  end.
Definition validLayers (refs : list LayerRef) : bool :=
  negb (bool_decide (refs = [])) && layers_distinct ∅ ∅ refs.

(** [validSpawnID] ([env.go]). *)
Definition spawn_char (c : ascii) : bool :=
  let n := Ascii.N_of_ascii c in
  ((97 <=? n) && (n <=? 122) || (65 <=? n) && (n <=? 90) || (48 <=? n) && (n <=? 57)
   || (n =? 95) || (n =? 45))%N.
Definition validSpawnID (id : string) : bool :=
  negb (bool_decide (id = "")) && str_forall spawn_char id.

Definition item_is_message (it : option Item) : bool :=
  match item_case it with Some Message => true | _ => false end.

(** [validateLifecycle], per entry type. *)
Definition validateRun (v : RunEntry) : result unit :=
  refuse_if (bool_decide (run_RunID v = "")) ErrOther ;!
  if decide (run_Phase v = RunStart) then refuse_if (bool_decide (run_Source v = "")) ErrOther
  else if decide (run_Phase v = RunEnd) then refuse_if (bool_decide (run_Reason v = "")) ErrOther
  else Err ErrOther.

Definition validateDecision (v : DecisionEntry) : result unit :=
  refuse_if (bool_decide (dc_CallID v = "") || bool_decide (dc_Target v = "") || bool_decide (dc_Verdict v = ""))
    ErrOther ;!
  refuse_if (bool_decide (dc_Verdict v = VerdictReject) && bool_decide (dc_Reason v = "")) ErrOther ;!
  refuse_if (dc_Withdrawn v && bool_decide (dc_Verdict v <> VerdictReject)) ErrOther.

Definition validateResult (v : ResultEntry) : result unit :=
  refuse_if (bool_decide (rs_CallID v = "") || bool_decide (rs_Target v = "")) ErrOther ;!
  match item_case (rs_Item v) with
  | Some (FunctionCallOutput c) => refuse_if (bool_decide (c <> rs_CallID v)) ErrOther
  | _ => Err ErrOther
  end.

Definition validateQueued (v : QueuedEntry) : result unit :=
  refuse_if (bool_decide (qu_Item v = None)) ErrOther ;!
  refuse_if (bool_decide (qu_Mode v = "")) ErrOther ;!
  refuse_if (qu_Deliver v && bool_decide (qu_Mode v <> ModeSteer)) ErrOther ;!
  refuse_if ((bool_decide (is_Some (qu_InstructionsPart v)) || bool_decide (is_Some (qu_InstructionsLayers v)))
             && negb (item_is_message (qu_Item v))) ErrOther ;!
  refuse_if (match qu_InstructionsPart v with Some p => negb (LayerRef_valid p) | None => false end) ErrOther ;!
  match qu_InstructionsLayers v with
  | None => Ok tt
  | Some l =>
      refuse_if (bool_decide (is_Some (qu_InstructionsPart v))) ErrOther ;!
      refuse_if (negb (validLayers l)) ErrOther
  end.

Definition validateLifecycle (e : Entry) : result unit :=
  match e with
  | ERun v => validateRun v
  | EDispatch v => refuse_if (bool_decide (di_CallID v = "") || bool_decide (di_Target v = "")) ErrOther
  | EDecision v => validateDecision v
  | EResult v => validateResult v
  | EQueued v => validateQueued v
  | _ => Ok tt
  end.

(** [validateOmitted]: the loop over the parts, reporting a keep, then the
    loop over the names beside one. *)
Fixpoint omitted_parts_ok (keeps : bool) (ps : list OmittedPart) : result bool :=
  match ps with
  | [] => Ok keeps
  | o :: ps =>
      refuse_if (bool_decide (op_Keep o < 0)%Z) ErrOther ;!
      if decide (op_Keep o > 0)%Z then
        refuse_if (bool_decide (op_ID o <> "") || bool_decide (op_Reason o <> "") || bool_decide (op_Size o <> 0%Z)
                   || bool_decide (op_Source o <> "")) ErrOther ;!
        omitted_parts_ok true ps
      else
        refuse_if (bool_decide (op_Of o <> "")) ErrOther ;!
        refuse_if (bool_decide (op_ID o = "")) ErrOther ;!
        omitted_parts_ok keeps ps
  end.

Fixpoint named_once (seen : gset string) (l : list string) : bool :=
  match l with
  | [] => true
  | x :: l => negb (bool_decide (x ∈ seen)) && named_once ({[x]} ∪ seen) l
  end.

Definition validateOmitted (c : ConfigEntry) : result unit :=
  let ps := default [] (ce_InstructionsOmitted c) in
  let! keeps := omitted_parts_ok false ps in
  if keeps then
    refuse_if (ce_Replace c) ErrOther ;!
    refuse_if (negb (named_once ∅ (filter (fun id => id <> "") (op_ID <$> ps)))) ErrOther
  else Ok tt.

(** [validateConfig]: the omit object, then the parts, [full] saying that every
    part so far carries its text. *)
Definition validateOmit (o : Omit) : result unit :=
  refuse_if (bool_decide ("" ∈ om_Items o)) ErrOther ;!
  match om_Outputs o with
  | None => Ok tt
  | Some oo =>
      refuse_if (bool_decide ("" ∈ oo_Items oo) || existsb (fun g => bool_decide ("" ∈ grp_Items g)) (oo_Groups oo))
        ErrOther ;!
      refuse_if (negb (outputsWellFormed oo)) ErrOmitOverlap
  end ;!
  refuse_if (match om_Images o with Some i => bool_decide (oi_Keep i < 0)%Z | None => false end) ErrOther.

Fixpoint instruction_parts_ok (seen : gset string) (full : bool) (ps : list InstructionPart) : result bool :=
  match ps with
  | [] => Ok full
  | p :: ps =>
      refuse_if (bool_decide (ip_Keep p < 0)%Z) ErrOther ;!
      if decide (ip_Keep p > 0)%Z then
        refuse_if (bool_decide (ip_ID p <> "") || bool_decide (ip_Text p <> "") || bool_decide (ip_Source p <> "")
                   || bool_decide (ip_Hash p <> "")) ErrOther ;!
        instruction_parts_ok seen false ps
      else
        refuse_if (bool_decide (ip_ID p = "")) ErrOther ;!
        refuse_if (bool_decide (ip_ID p ∈ seen)) ErrOther ;!
        instruction_parts_ok ({[ip_ID p]} ∪ seen)
          (full && negb (bool_decide (ip_Text p = "") && bool_decide (ip_Hash p <> ""))) ps
  end.

Definition validateConfig (c : ConfigEntry) : result unit :=
  match ce_Omit c with Some o => validateOmit o | None => Ok tt end ;!
  let! full := instruction_parts_ok ∅ true (ce_InstructionsParts c) in
  refuse_if (full && negb (bool_decide (ce_InstructionsParts c = []))
             && match ce_Instructions c with
                | Some i => bool_decide (i <> JoinInstructions (ce_InstructionsParts c))
                | None => false
                end) ErrOther ;!
  refuse_if (negb full && ce_Replace c && bool_decide (ce_Instructions c = None)) ErrOther ;!
  validateOmitted c.

Definition validateLink (v : LinkEntry) : result unit :=
  refuse_if (bool_decide (ln_SpawnID v <> "")
             && (bool_decide (ln_Rel v <> RelSubsession) || negb (validSpawnID (ln_SpawnID v)))) ErrOther ;!
  refuse_if (bool_decide (ln_Target v <> "") && bool_decide (ln_Rel v <> RelJudgedBy)
             && (negb (callee v) || bool_decide (ln_Cancel v = ""))) ErrOther ;!
  refuse_if ((bool_decide (ln_URL v <> "") || bool_decide (ln_Task v <> "") || bool_decide (ln_Context v <> "")
              || bool_decide (ln_Cancel v <> "")) && negb (callee v)) ErrOther ;!
  refuse_if (bool_decide (ln_Cancel v <> "") && bool_decide (ln_Cancel v <> CancelSent)) ErrOther ;!
  refuse_if (bool_decide (ln_Cancel v <> "") && bool_decide (ln_Target v = "")) ErrOther ;!
  refuse_if ((bool_decide (ln_Task v <> "") || bool_decide (ln_Context v <> "")) && bool_decide (ln_URL v = ""))
    ErrOther.

(** [validateEntry]; a nil entry is [None]. *)
Definition validateEntry (e : option Entry) : result unit :=
  match e with
  | None => Err ErrOther
  | Some (EResponse v) => refuse_if (bool_decide (re_Attempts v < 0)%Z) ErrOther
  | Some (EItem v) =>
      match item_case (ie_Item v) with
      | None | Some ItemReference => Err ErrOther
      | Some _ => Ok tt
      end
  | Some (ECompaction v) => refuse_if (bool_decide (co_Summary v = None)) ErrOther
  | Some (EBranchSummary v) => refuse_if (bool_decide (bs_Summary v = None)) ErrOther
  | Some (EConfig v) => validateConfig v
  | Some (ELink v) => validateLink v
  | Some (EUnknown v) => refuse_if (bool_decide (un_Raw v = "")) ErrOther
  | Some e => validateLifecycle e
  end.

End Validate.

(** ** Redacted members and the raise they forbid *)

Section Writing.
Context {OR : OpenResponses} {IC : ItemContent} {ND : NameDecoding} {CA : Canonicaliser} {SH : SHA256}
  {JT : JSONTools} {EC : EntryCodec}.
Implicit Types (s : Session) (e : Entry).

(** [Span.MarshalJSON] and [redactedJSON] ([redacted.go]). *)
Definition span_json (sp : Span) : string :=
  if decide (span_From sp = span_To sp) then pretty (span_From sp)
  else ("[" ++ pretty (span_From sp) ++ "," ++ pretty (span_To sp) ++ "]")%string.
Definition redactedJSON (b : EntryBase) : RawMessage :=
  match redactedRaw b with
  | Some raw => raw
  | None => ("[" ++ String.concat "," (span_json <$> redacted b) ++ "]")%string
  end.

(** [RedactedOf]. *)
Definition RedactedOf e : option (list Span) :=
  if isRedacted (Base e) then Some (redacted (Base e)) else None.

Definition holdsRedactedMember e : bool :=
  bool_decide (is_Some (Unknown (Base e) !! "redacted")) ||
  match e with
  | EUnknown u =>
      match splitMembers (un_Raw u) with
      | Some all => bool_decide (is_Some (all !! "redacted"))
      | None => false
      end
  | _ => false
  end.

(** [b.redacted, b.isRedacted, b.redactedRaw = nil, false, nil], with [unknown]
    for the members kept as written. *)
Definition clear_typed (unknown : gmap string RawMessage) (b : EntryBase) : EntryBase :=
  mkEntryBase (ID b) (Parent b) (Parents b) (Timestamp b) (LegacyID b) (Normalised b) [] false None
    (gated b) unknown (content b) (tsRaw b).

(** [b.gated = held]. *)
Definition set_gated (held : bool) (b : EntryBase) : EntryBase :=
  mkEntryBase (ID b) (Parent b) (Parents b) (Timestamp b) (LegacyID b) (Normalised b) (redacted b)
    (isRedacted b) (redactedRaw b) held (Unknown b) (content b) (tsRaw b).

Definition is_unknown_entry e : bool := match e with EUnknown _ => true | _ => false end.

(** [demoteRedacted]: the entry, and whether it holds a redacted member in any
    form. *)
Definition demoteRedacted e : Entry * bool :=
  let b := Base e in
  if isRedacted b then
    (set_Base (clear_typed (if is_unknown_entry e then Unknown b
                            else <["redacted" := redactedJSON b]> (Unknown b))) e, true)
  else (e, holdsRedactedMember e).

(** [gateRedacted], which [GateEntry] is for an entry that is not nil. *)
Definition gateRedacted e (format : string) : Entry :=
  if definesRedactedFrom format then e
  else let (e', held) := demoteRedacted e in set_Base (set_gated held) e'.

(** [Session.raiseRefused] and [raiseHeader]. *)
Definition raiseRefused s (format : string) : result unit :=
  header_raiseRefused (s_header s) format ;!
  refuse_if (s_heldRedacted s && definesRedactedFrom format) ErrNoRaise.
Definition RaiseRefused := raiseRefused.

Definition raiseHeader s (format : string) : result Session :=
  match ParseFormat (h_Format (s_header s)), ParseFormat format with
  | Ok (_, have), Ok (_, want) =>
      if decide (have >= want)%Z then Ok s
      else raiseRefused s format ;! let! h := Raise (s_header s) format in Ok (set_header h s)
  | _, _ => Ok s
  end.

(** ** The rules for an entry a writer adds *)

(** [SupersededBy] ([continue.go]). *)
Definition SupersededBy s : string :=
  foldl (fun next e => match e with
                       | ELink l => if decide (ln_Rel l = RelContinuedIn /\ ln_Session l <> "")
                                    then ln_Session l else next
                       | _ => next
                       end) "" (s_entries s).

Definition parent_or_leaf s (parent : string) : string := if decide (parent = "") then s_leaf s else parent.

Definition checkOutputs s (c : ConfigEntry) (want : OmitOutputs) : result unit :=
  let parent := parent_or_leaf s (Parent (ce_Base c)) in
  if decide (parent <> "" /\ ce_Replace c = false) then
    match ContextAt s parent with
    | Err _ => Ok tt
    | Ok ctx => refuse_if (outputsOverlap (om_Outputs (st_Omit (cx_Settings ctx))) (Some want)) ErrOmitOverlap
    end
  else refuse_if (outputsOverlap None (Some want)) ErrOmitOverlap.

(** The callee link a cancel notice's target names on a path. *)
Definition callee_on (path : list Entry) (id : string) : option LinkEntry :=
  match find (fun e => match e with
                       | ELink to => bool_decide (eid e = id) && callee to && bool_decide (ln_Cancel to = "")
                       | _ => false
                       end) path with
  | Some (ELink to) => Some to
  | _ => None
  end.

(** The checks of a link. *)
Definition checkNewLink s (l : LinkEntry) : result unit :=
  if decide (ln_Rel l = RelContinuedIn) then
    let next := SupersededBy s in
    refuse_if (bool_decide (next <> "") && bool_decide (next <> ln_Session l)) ErrSuperseded
  else if negb (callee l) then Ok tt
  else
    refuse_if (bool_decide (ln_Rel l = RelPeer) && bool_decide (ln_Cancel l = "")
               && (bool_decide (ln_CallID l = "")
                   || bool_decide (ln_URL l = "") && bool_decide (ln_Session l = ""))) ErrCalleeLink ;!
    refuse_if (bool_decide (ln_Rel l = RelSubsession)
               && bool_decide (ln_CallID l <> "") && bool_decide (ln_SpawnID l <> "")) ErrSpawnLink ;!
    refuse_if (bool_decide (ln_Rel l = RelSubsession)
               && bool_decide (ln_CallID l = "") && bool_decide (ln_SpawnID l = "")) ErrSpawnLink ;!
    if decide (ln_Cancel l = "") then Ok tt
    else checkCallee l (callee_on (path s (parent_or_leaf s (Parent (ln_Base l))))).

(** [checkNew]; [commitHead] passes it a nil entry. *)
Definition checkNew s (e : option Entry) : result unit :=
  raiseRefused s Format ;!
  match e with
  | None => Ok tt
  | Some e =>
      refuse_if (gated (Base e)) ErrNoRaise ;!
      match e with
      | EConfig c =>
          match ce_Omit c ≫= om_Outputs with
          | Some want => checkOutputs s c want
          | None => Ok tt
          end
      | ELink l => checkNewLink s l
      | _ => Ok tt
      end
  end.

(** ** [prepare] *)

(** What an append did ([Result]), the outcome of the entry with the id. *)
Record Result := mkResult { res_ID : string; res_Outcome : Outcome }.

(** [prepareEntry] writes through the entry it is given: a state and error
    monad over it. *)
Definition M (A : Type) := Entry -> Entry * result A.
Definition mret {A} (a : A) : M A := fun e => (e, Ok a).
Definition mbind {A B} (m : M A) (f : A -> M B) : M B :=
  fun e => let (e, r) := m e in match r with Ok a => f a e | Err err => (e, Err err) end.
Definition lift {A} (r : result A) : M A := fun e => (e, r).
Definition get {A} (f : Entry -> A) : M A := fun e => (e, Ok (f e)).
Definition modify (f : EntryBase -> EntryBase) : M unit := fun e => (set_Base f e, Ok tt).
Notation "'do' x '<-' m ';' k" := (mbind m (fun x => k))
  (at level 199, x pattern, m at level 100, k at level 200) : session_scope.
Notation "'run' m ';' k" := (mbind m (fun _ => k))
  (at level 199, m at level 100, k at level 200) : session_scope.

Definition set_ID (id : string) (b : EntryBase) : EntryBase :=
  set_envelope id (Parent b) (Parents b) (Timestamp b) b.

(** An entry left incomplete hangs from the leaf; one whose ID is set says its
    parent is null. *)
Definition fill_parent s (b : EntryBase) : EntryBase :=
  if decide (Parent b = "" /\ ID b = "") then set_envelope (ID b) (s_leaf s) (Parents b) (Timestamp b) b else b.

Definition fill_timestamp (now : Time) (b : EntryBase) : EntryBase :=
  set_envelope (ID b) (Parent b) (Parents b)
    (UTC (if IsZero_time (Timestamp b) && bool_decide (tsRaw b = "") then now else Timestamp b)) b.

Definition order_parents (b : EntryBase) : EntryBase :=
  if decide (tsRaw b = "") then set_envelope (ID b) (Parent b) (sortParents (Parents b)) (Timestamp b) b else b.

(** [if u, ok := e.( *UnknownEntry ); ok { ... u.Raw = raw }]. *)
Definition rewrite_raw : M unit := fun e =>
  match e with
  | EUnknown u =>
      let (t, r) := rewriteEnvelope u in
      match r with
      | Ok raw => (EUnknown (mkUnknownEntry (un_Base u) t raw), Ok tt)
      | Err err => (EUnknown (mkUnknownEntry (un_Base u) t (un_Raw u)), Err err)
      end
  | _ => (e, Ok tt)
  end.

(** [hashEntry]. *)
Definition set_hashes (id content : string) (b : EntryBase) : EntryBase :=
  mkEntryBase id (Parent b) (Parents b) (Timestamp b) (LegacyID b) (Normalised b) (redacted b)
    (isRedacted b) (redactedRaw b) (gated b) (Unknown b) content (tsRaw b).
Definition hashEntry (data : option RawMessage) : M unit := fun e =>
  match (let! line := match data with Some d => Ok d | None => MarshalEntry e end in EntryHashes line) with
  | Ok (id, content) => (set_Base (set_hashes id content) e, Ok tt)
  | Err err => (e, Err err)
  end.

Definition has_reserved e : bool :=
  negb (bool_decide (filter (fun kv => isEnvelopeKey kv.1 = true) (Unknown (Base e)) = ∅)).

Definition prepareEntry s (now : Time) : M Result :=
  do reserved <- get has_reserved;
  run lift (refuse_if reserved ErrReservedMember);
  run modify (fill_parent s);
  do parent <- get eparent;
  run lift (checkParentRule s parent);
  run modify (fill_timestamp now);
  run modify order_parents;
  do b <- get Base;
  run lift (checkParents s b);
  run modify (set_ID "");
  run rewrite_raw;
  do line <- normaliseEntry;
  run hashEntry line;
  do id <- get eid;
  run lift (refuse_if (bool_decide (ID b <> "") && bool_decide (ID b <> id)) ErrBadID);
  run rewrite_raw;
  do e <- get (fun e => e);
  if has_entry s id then mret (mkResult id Held)
  else run lift (checkCallRules s e (eparent e)); mret (mkResult id (outcomeFor s e)).

(** [prepare] puts back the envelope, and an unknown entry's raw line, of an
    entry that is refused. *)
Definition restore (old e : Entry) : Entry :=
  let b := Base old in
  let e := set_Base (set_envelope (ID b) (Parent b) (Parents b) (Timestamp b)) e in
  match old, e with
  | EUnknown u0, EUnknown u => EUnknown (mkUnknownEntry (un_Base u) (un_Type u) (un_Raw u0))
  | _, _ => e
  end.

Definition prepare s (now : Time) : M Result := fun e =>
  let (e', r) := prepareEntry s now e in
  match r with
  | Ok r => (e', Ok r)
  | Err err => (restore e e', Err err)
  end.

Definition Prepare s (now : Time) e : Entry * result Result :=
  match (validateEntry (Some e) ;! checkNew s (Some e)) with
  | Err err => (e, Err err)
  | Ok _ => prepare s now e
  end.

(** ** Operations *)

(** The session, the entry the caller holds, and what the call returns. *)
Definition Commit s (now : Time) e : Session * Entry * result Result :=
  match validateEntry (Some e) with
  | Err err => (s, e, Err err)
  | Ok _ =>
      let (e, r) := prepare s now e in
      match r with
      | Ok r => if decide (res_Outcome r = Held) then (s, e, Ok r)
                else (moveLeafFor (add s e) e, e, Ok r)
      | Err err => (s, e, Err err)
      end
  end.

Definition Append s (now : Time) e : Session * Entry * result string :=
  match checkNew s (Some e) with
  | Err err => (s, e, Err err)
  | Ok _ => let '(s, e, r) := Commit s now e in
            (s, e, let! r := r in Ok (res_ID r))
  end.

(** The state [Extend] brings up to the lines before the entry it adds. *)
Definition extend_state s : readLeaf :=
  match s_read s with
  | Some st => if decide (rl_n st = length (s_entries s)) then st else readLeafState s
  | None => readLeafState s
  end.

Definition Extend s (now : Time) e : Session * Entry * result Result :=
  match validateEntry (Some e) with
  | Err err => (s, e, Err err)
  | Ok _ =>
      let (e, r) := prepare s now (gateRedacted e (s_declared s)) in
      match r with
      | Err err => (s, e, Err err)
      | Ok r =>
          if decide (res_Outcome r = Held) then (s, e, Ok r)
          else
            let st := extend_state s in
            let s := add s e in
            let st := extend s st (length (s_entries s) - 1) in
            (set_leaf (leaf_of_state s st (eid e)) (set_read (Some st) s), e, Ok r)
      end
  end.

(** [commitHead]: the compare-and-swap of the head; the outcome [prepare]
    reports is dropped. *)
Definition commitHead s (now : Time) (expected to : string) : result (Session * Entry) :=
  checkNew s None ;!
  let! label := headLabel s expected to in
  let (e, r) := prepare s now (ELabel label) in
  let! _ := r in
  Ok (moveLeafFor (add s e) e, e).

(** ** [Fork] *)

Definition prefixStandsAlone s (path : list Entry) : result unit :=
  let unresolved := if s_migrated s then s_unresolved s else [] in
  check_all (fun e =>
      refuse_if (existsb (fun r => bool_decide (ref_Session r = "") && negb (onPath path (ref_Entry r)))
                   (Parents (Base e))) ErrBadConvergence ;!
      refuse_if (bool_decide (LegacyID (Base e) <> "") && bool_decide (LegacyID (Base e) ∈ unresolved))
        ErrUnresolvedMigration) path.

(** The members of the fork's header its origin gives it. *)
Definition fork_header (origin : Header) (at_ : string) (h : Header) : Header :=
  mkHeader (h_Format h) (h_ID h) (h_CreatedAt h)
    (if decide (h_Payload h = "") then h_Payload origin else h_Payload h)
    (h_Harness h) (h_Records h) (h_CWD h)
    (if decide (h_ParentSession h = "") then h_ID origin else h_ParentSession h)
    (h_SpawnedBy h) at_
    (if decide (h_Media h = "") then h_Media origin else h_Media h)
    (h_Redacted h) (h_RedactedFrom h) (h_Extra h).

Definition adopt s e : Session :=
  let s := add s e in set_prefix ({[eid e]} ∪ s_prefix s) s.

(** [payload], [id] and [now] are what [New] fills a header with. *)
Definition Fork (payload id : string) (now : Time) (origin : Session) (at_ : string) (h : Header)
    : result Session :=
  let path := path origin at_ in
  refuse_if (bool_decide (path = [])) ErrNoEntry ;!
  refuse_if (match last path with Some e => entry_is_leaf_label e | None => false end) ErrNoEntry ;!
  prefixStandsAlone origin path ;!
  refuse_if (bool_decide (h_Media h <> "")
             && bool_decide (mediaForm (h_Media h) <> mediaForm (h_Media (s_header origin)))) ErrMediaDiffers ;!
  let s := foldl adopt (New (fill payload id now (fork_header (s_header origin) at_ h))) path in
  raiseRefused s (h_Format (s_header s)) ;!
  refuse_if (negb (definesRedactedFrom (h_Format (s_header s)))
             && existsb (fun e => isRedacted (Base e)) path) ErrUnsupportedFormat ;!
  Ok (set_leaf at_ s).

(** ** Compaction *)

Definition new_compaction (firstKept : string) (summary : Item) (config : Settings) : CompactionEntry :=
  mkCompactionEntry zero_base firstKept (Some summary) [] config 0 None None false "".

(** [compactionContext]; a nil summary is [None]. *)
Definition compactionContext s (summary : option Item) : result (Item * Ctx) :=
  match summary with
  | None => Err ErrOther
  | Some summary =>
      refuse_if (bool_decide (s_leaf s = "")) ErrOther ;!
      let! ctx := ContextAt s (s_leaf s) in
      Ok (summary, ctx)
  end.

Definition Compact s (firstKept : string) (summary : option Item) : result CompactionEntry :=
  let! (summary, ctx) := compactionContext s summary in
  refuse_if (negb (onPath (path s (s_leaf s)) firstKept)) ErrNoEntry ;!
  Ok (new_compaction firstKept summary (checkpoint (cx_Settings ctx))).

Definition compactionFrom (ctx : Ctx) (first : nat) (summary : Item) : result CompactionEntry :=
  match ItemEntries ctx !! first with
  | None => Err ErrOther
  | Some (ECompaction _) => Err ErrOther
  | Some e => Ok (new_compaction (eid e) summary (checkpoint (cx_Settings ctx)))
  end.

Definition CompactFrom s (first : Z) (summary : option Item) : result CompactionEntry :=
  let! (summary, ctx) := compactionContext s summary in
  refuse_if (bool_decide (first < 0)%Z || bool_decide (first >= Z.of_nat (length (Items ctx)))%Z) ErrOther ;!
  compactionFrom ctx (Z.to_nat first) summary.

Definition CompactKeeping s (kept : Z) (summary : option Item) : result CompactionEntry :=
  let! (summary, ctx) := compactionContext s summary in
  refuse_if (bool_decide (kept < 1)%Z || bool_decide (kept > Z.of_nat (length (Items ctx)))%Z) ErrOther ;!
  compactionFrom ctx (length (Items ctx) - Z.to_nat kept) summary.

Definition SummarizeBranch s (from : string) (summary : option Item) : result BranchSummaryEntry :=
  match summary with
  | None => Err ErrOther
  | Some it =>
      refuse_if (negb (has_entry s from)) ErrNoEntry ;!
      refuse_if (bool_decide (s_leaf s = "")) ErrOther ;!
      Ok (mkBranchSummaryEntry zero_base from (Some it) None None)
  end.

End Writing.
