(* ===== verification/Compaction.v ===== *)
(** * Compaction ([session.go])

    [CompactFrom] and [CompactKeeping] name the kept entry by an index into the
    items of the context; appended at the leaf, the entry they build makes the
    context the summary followed by exactly the items kept. *)
From S2P Require Import Prelude Entry Header Tree Leaf TreeWf Calls CallRules Runs Verify Omit Digest.
From S2P Require Import Settings SettingsProps Context ContextProps Hash Session.
Open Scope session_scope.

Section Compaction.
Context {OR : OpenResponses} {IC : ItemContent} {ND : NameDecoding} {CA : Canonicaliser} {SH : SHA256}
  {JT : JSONTools} {EC : EntryCodec}.
Implicit Types (s : Session) (e : Entry) (path : list Entry).

(** The slot at an index of a walk is one entry's, and the slots from it on are
    those of the path from that entry. *)
Lemma slots_at path i it e :
  (path ≫= slots_of) !! i = Some (it, e) ->
  exists l1 l2, path = l1 ++ e :: l2 /\ drop i (path ≫= slots_of) = (e :: l2) ≫= slots_of.
Proof.
  revert i. induction path as [|x path IH]; intros i; [done|]. rewrite bind_cons.
  destruct (slots_of x) as [|y ys] eqn:Hx.
  - intros Hi. destruct (IH _ Hi) as (l1 & l2 & -> & Hd). exists (x :: l1), l2. by split.
  - assert (ys = [] /\ y.2 = x) as [-> Hy].
    { unfold slots_of in Hx. destruct (contextItem x); [|done]. by injection Hx as <- <-. }
    destruct i as [|i]; simpl.
    + intros [= ->]. simpl in Hy. subst x. exists [], path. split; [done|]. by rewrite Hx.
    + intros Hi. destruct (IH _ Hi) as (l1 & l2 & -> & Hd). exists (x :: l1), l2. by split.
Qed.

Lemma from_entry_split l1 e l2 :
  NoDup (ids (l1 ++ e :: l2)) -> from_entry (eid e) (l1 ++ e :: l2) = Some (e :: l2).
Proof.
  induction l1 as [|x l1 IH]; simpl; [by rewrite decide_True|]. intros Hnd.
  apply NoDup_cons in Hnd as [Hn Hnd]. rewrite decide_False; [by apply IH|].
  intros Heq. apply Hn. rewrite Heq ids_app. set_solver.
Qed.

Lemma from_entry_suffix id path kept :
  from_entry id path = Some kept -> exists l, path = l ++ kept.
Proof.
  revert kept. induction path as [|e path IH]; intros kept; [done|]. simpl.
  destruct (decide _); [intros [= <-]; by exists []|]. intros H. destruct (IH _ H) as [l ->]. by exists (e :: l).
Qed.

Lemma last_compaction_split path before c after :
  last_compaction path = Some (before, c, after) -> path = before ++ ECompaction c :: after.
Proof.
  revert before. induction path as [|e path IH]; intros before; [done|]. simpl.
  destruct (last_compaction path) as [[[b c'] a]|].
  - intros [= <- -> ->]. by rewrite (IH b).
  - destruct e; try done. by intros [= <- <- <-].
Qed.

Lemma last_compaction_snoc path c : last_compaction (path ++ [ECompaction c]) = Some (path, c, []).
Proof. induction path as [|e path IH]; [done|]. simpl. by rewrite IH. Qed.

Lemma slots_of_compaction c : slots_of (ECompaction c) = [].
Proof. done. Qed.

(** Whatever compaction the path holds, the slots from an index on that is not
    one of its own are those of the path from an entry. *)
Lemma selected_from path c i it e :
  NoDup (ids path) -> selected path = Ok c -> cx_pairs c !! i = Some (it, e) ->
  (forall v, e <> ECompaction v) ->
  exists kept, from_entry (eid e) path = Some kept /\ drop i (cx_pairs c) = kept ≫= slots_of.
Proof.
  intros Hnd. unfold selected. destruct (last_compaction path) as [[[before comp] after]|] eqn:Hl.
  - apply last_compaction_split in Hl as ->.
    destruct (from_entry (co_FirstKept comp) before) as [kept0|] eqn:Hk; [|done].
    remember (compaction_slots comp) as own eqn:Heqown.
    intros [= <-] Hi Hne. cbn [cx_pairs] in *. apply from_entry_suffix in Hk as [pre ->].
    assert (length own <= i) as Hown.
    { destruct (decide (length own <= i)) as [|Hlt]; [done|]. exfalso.
      rewrite lookup_app_l in Hi; [|lia]. apply list_elem_of_lookup_2 in Hi.
      rewrite Heqown in Hi. apply elem_of_cons in Hi as [[= _ ->]|Hi]; [by eapply Hne|].
      apply list_elem_of_fmap in Hi as (p & [= _ ->] & _). by eapply Hne. }
    rewrite lookup_app_r // in Hi. rewrite drop_app_ge //.
    assert ((kept0 ≫= slots_of) ++ (after ≫= slots_of) = (kept0 ++ ECompaction comp :: after) ≫= slots_of) as Hs.
    { by rewrite bind_app bind_cons slots_of_compaction. }
    rewrite Hs in Hi |- *. apply slots_at in Hi as (l1 & l2 & Heq & ->). exists (e :: l2). split; [|done].
    rewrite -app_assoc Heq app_assoc. apply from_entry_split. by rewrite -app_assoc -Heq app_assoc.
  - intros [= <-] Hi _. cbn [cx_pairs] in *. apply slots_at in Hi as (l1 & l2 & -> & ->).
    exists (e :: l2). split; [by apply from_entry_split|done].
Qed.

(** ** Leaving out and placeholders, over a part of the slots *)

Lemma filter_all {A} (P : A -> Prop) `{forall x, Decision (P x)} (l : list A) : (forall x, x ∈ l -> P x) -> filter P l = l.
Proof.
  induction l as [|x l IH]; [done|]. intros Hl. rewrite filter_cons_True; [by rewrite IH; [|intros; apply Hl; by right]|apply Hl; by left].
Qed.

Lemma filter_drop {A} (P : A -> Prop) `{forall x, Decision (P x)} (l : list A) i x : filter P l !! i = Some x ->
  exists j, l !! j = Some x /\ drop i (filter P l) = filter P (drop j l).
Proof.
  revert i. induction l as [|y l IH]; intros i; [done|]. destruct (decide (P y)) as [Hy|Hy].
  - rewrite filter_cons_True //. destruct i as [|i]; cbn [lookup list_lookup].
    + intros [= ->]. exists 0. by rewrite /= filter_cons_True.
    + intros (j & Hj & Hd)%IH. by exists (S j).
  - rewrite filter_cons_False //. intros (j & Hj & Hd)%IH. by exists (S j).
Qed.

Lemma placeholders_shift (r r' : nat -> bool) text k ps : (forall n, r' n = r (n + k)) ->
  forall n, placeholders r' text n ps = placeholders r text (n + k) ps.
Proof.
  intros Hr. induction ps as [|p ps IH]; intros n; [done|]. cbn [placeholders]. rewrite Hr (IH n). specialize (IH (S n)). cbn in IH. by rewrite IH.
Qed.

Lemma hits_shift (r r' : nat -> bool) k m : (forall n, r' n = r (n + k)) ->
  forall n, length (filter (fun i => r' i = true) (seq n m)) = length (filter (fun i => r i = true) (seq (n + k) m)).
Proof.
  intros Hr. induction m as [|m IH]; intros n; [done|]. cbn [seq]. rewrite !filter_cons Hr. specialize (IH (S n)). cbn in IH.
  destruct (decide _); cbn [length]; by rewrite IH.
Qed.

(** The slots' image parts numbered from elsewhere, and reached alike. *)
Lemma image_slots_shift (r r' : Entry -> nat -> bool) text k l :
  (forall x n, x ∈ l -> r' x.2 n = r x.2 (n + k)) ->
  forall n, (image_slots r' text n l).1 = (image_slots r text (n + k) l).1.
Proof.
  induction l as [|[it e] l IH]; intros Hr n; [done|]. cbn [image_slots].
  assert ((image_slot r' text n (it, e)).1.1 = (image_slot r text (n + k) (it, e)).1.1) as Hs.
  { unfold image_slot. destruct it as [it|], e; try done. pose proof (fun n => Hr (Some it, EItem e) n (list_elem_of_here _ _)) as Hr0. cbn in Hr0.
    rewrite (hits_shift (r (EItem e)) _ k) // (placeholders_shift (r (EItem e)) _ _ k) //. }
  assert ((image_slot r text (n + k) (it, e)).2 = (image_slot r' text n (it, e)).2 + k) as Hn.
  { rewrite (proj1 (image_slot_count _ _ _ _)) (proj1 (image_slot_count _ _ _ _)). lia. }
  destruct (image_slot r' text n (it, e)) as [[y o] m]. destruct (image_slot r text (n + k) (it, e)) as [[y' o'] m']. cbn in Hs, Hn. subst y' m'.
  specialize (IH (fun x n Hx => Hr x n (list_elem_of_further _ _ _ Hx)) m). destruct (image_slots r' text m l), (image_slots r text (m + k) l). cbn in *. by rewrite IH.
Qed.

Lemma image_slots_drop r text l : forall n i,
  drop i (image_slots r text n l).1 = (image_slots r text (n + image_total (take i l)) (drop i l)).1.
Proof.
  induction l as [|x l IH]; intros n i; [by destruct i|]. cbn [image_slots]. destruct i as [|i].
  { rewrite /= Nat.add_0_r. by destruct (image_slot r text n x) as [[? ?] ?]. }
  pose proof (proj1 (image_slot_count r text n x)) as Hn. destruct (image_slot r text n x) as [[y o] m]. cbn in Hn. subst m.
  specialize (IH (n + slot_images x) i). destruct (image_slots r text (n + slot_images x) l) as [ys rs]. cbn [fst drop take] in *. rewrite IH.
  f_equal. f_equal. unfold image_total, slot_images. rewrite fmap_cons. cbn. lia.
Qed.

Lemma image_total_app l l' : image_total (l ++ l') = image_total l + image_total l'.
Proof. unfold image_total. rewrite fmap_app. apply sum_list_with_app. Qed.

Lemma output_slots_drop o i l : drop i (replaceOutputs o l).1 = (replaceOutputs o (drop i l)).1.
Proof. unfold replaceOutputs. destruct o; [|done]. cbn [fst]. by rewrite -!fmap_drop. Qed.

(** A slot of a compaction is sent as it is. *)
Lemma output_slots_compaction o it c l :
  (replaceOutputs o ((it, ECompaction c) :: l)).1 = (it, ECompaction c) :: (replaceOutputs o l).1.
Proof. unfold replaceOutputs. destruct o; [|done]. cbn [fst]. by destruct it. Qed.

Lemma image_slots_compaction r text n it c l :
  (image_slots r text n ((it, ECompaction c) :: l)).1 = (it, ECompaction c) :: (image_slots r text n l).1.
Proof.
  cbn [image_slots]. assert (image_slot r text n (it, ECompaction c) = ((it, ECompaction c), None, n)) as -> by (by destruct it).
  by destruct (image_slots r text n l).
Qed.

(** The images rule over the slots a compaction keeps, the compaction after the path. *)
Lemma replaceImages_compaction path (im : option OmitImages) it c l i :
  eid (ECompaction c) ∉ ids path -> (forall im', im = Some im' -> oi_Before im' <> eid (ECompaction c)) ->
  (forall x, x ∈ drop i l -> x.2 ∈ path) ->
  (replaceImages (path ++ [ECompaction c]) im ((it, ECompaction c) :: drop i l)).1 =
    (it, ECompaction c) :: drop i (replaceImages path im l).1.
Proof.
  intros Hid Hb Hin. unfold replaceImages. destruct im as [im|]; [|done]. specialize (Hb im eq_refl).
  assert (forall x, last_index eid (path ++ [ECompaction c]) !! x = if decide (x = eid (ECompaction c)) then Some (length path) else last_index eid path !! x) as Hli.
  { intros x. rewrite last_index_snoc. destruct (decide _) as [->|]; [by rewrite lookup_insert_eq|by rewrite lookup_insert_ne]. }
  unfold image_reached. destruct (decide (oi_Before im <> "")) as [Hne|Hz].
  - rewrite Hli decide_False //. destruct (last_index eid path !! oi_Before im) as [before|]; [|done].
    rewrite image_slots_compaction image_slots_drop. f_equal. apply (image_slots_shift _ _ _ (image_total (take i l)) _) with (n := 0).
    intros x n Hx. rewrite Hli decide_False //. intros Heq. apply Hid. rewrite -Heq. by apply list_elem_of_fmap_2, Hin.
  - rewrite image_slots_compaction image_slots_drop. f_equal. apply (image_slots_shift _ _ _ (image_total (take i l)) _) with (n := 0).
    intros x n _. assert (image_total ((it, ECompaction c) :: drop i l) = image_total (drop i l)) as -> by done.
    pose proof (image_total_app (take i l) (drop i l)) as Ht. rewrite take_drop in Ht. apply bool_decide_ext. lia.
Qed.

(** What is sent of the slots a path selects, under the settings they are sent with. *)
Definition sent path (s : Settings) (l : list (option Item * Entry)) : list (option Item * Entry) :=
  (replaceImages path (om_Images (st_Omit s))
    (replaceOutputs (om_Outputs (st_Omit s)) (filter (fun x => slot_reason s path x = None) l)).1).1.

Lemma BuildContext_sent path c0 : selected path = Ok c0 -> (forall x ie, x ∈ cx_pairs c0 -> x.2 = EItem ie -> eid x.2 <> "") ->
  exists c, BuildContext path = Ok c /\ cx_Settings c = cx_Settings c0 /\ cx_pairs c = sent path (cx_Settings c0) (cx_pairs c0).
Proof.
  intros Hsel Hid. unfold BuildContext, buildContext. rewrite Hsel. cbn [rbind andb]. eexists. split; [done|].
  set (s := cx_Settings c0). destruct (Omit_IsZero (st_Omit s)) eqn:Hz; cbn [negb].
  - split; [done|]. cbn [cx_pairs set_trust]. unfold Omit_IsZero in Hz. apply andb_true_iff in Hz as [Hz Hitems].
    apply negb_true_iff in Hz. rewrite !orb_false_iff in Hz. destruct Hz as [[[Hr Ho] Hi] _].
    apply bool_decide_eq_false in Hr, Ho, Hi. apply eq_None_not_Some in Ho, Hi.
    assert (filter (fun x => slot_reason s path x = None) (cx_pairs c0) = cx_pairs c0) as Hf.
    { apply filter_all. intros x Hx. unfold slot_reason. destruct x.2 eqn:Hxe; try done. specialize (Hid _ _ Hx Hxe). rewrite Hxe in Hid.
      unfold omit_reason. rewrite decide_False; [rewrite decide_False //|]; [intros Hr'; apply Hr; by rewrite Hr'|].
      intros Hin. rewrite forallb_forall in Hitems. apply list_elem_of_In, Hitems, bool_decide_eq_true in Hin. done. }
    unfold sent. by rewrite Ho Hi Hf.
  - unfold replaceParts, leaveOut, sent. cbn [cx_Settings cx_pairs]. fold s. destruct (replaceOutputs _ _) as [p o]. cbn [fst].
    destruct (replaceImages _ _ p) as [p' im]. done.
Qed.

Lemma sent_entries path (st : Settings) l : snd <$> sent path st l = snd <$> filter (fun x => slot_reason st path x = None) l.
Proof. unfold sent. by rewrite (proj1 (replaceImages_from _ _ _)) (proj1 (replaceOutputs_from _ _)). Qed.

Lemma selected_entries path c x : selected path = Ok c -> x ∈ cx_pairs c -> x.2 ∈ path.
Proof.
  assert (forall l, x ∈ l ≫= slots_of -> x.2 ∈ l) as Hb.
  { intros l (e & Hx & He)%list_elem_of_bind. unfold slots_of in Hx. destruct (contextItem e); [|by apply elem_of_nil in Hx].
    by apply list_elem_of_singleton in Hx as ->. }
  unfold selected. destruct (last_compaction path) as [[[before comp] after]|] eqn:Hl; [|intros [= <-]; apply Hb].
  apply last_compaction_split in Hl as ->. destruct (from_entry _ _) as [kept|] eqn:Hk; [|done]. remember (compaction_slots comp) as own eqn:Heqown.
  intros [= <-]. cbn [cx_pairs]. apply from_entry_suffix in Hk as [pre ->]. rewrite -app_assoc. intros [Hx|[Hx%Hb|Hx%Hb]%elem_of_app]%elem_of_app;
    [|repeat (rewrite ?elem_of_app ?elem_of_cons; tauto)..].
  apply elem_of_app. right. apply elem_of_app. right. apply elem_of_cons. left.
  rewrite Heqown in Hx. apply elem_of_cons in Hx as [->|Hx]; [done|]. by apply list_elem_of_fmap in Hx as (? & -> & _).
Qed.

Lemma slot_reason_compaction (s s' : Settings) path c x :
  st_Model s' = st_Model s -> om_Items (st_Omit s') = om_Items (st_Omit s) -> om_Reasoning (st_Omit s') = om_Reasoning (st_Omit s) ->
  slot_reason s' (path ++ [ECompaction c]) x = slot_reason s path x.
Proof.
  intros Hm Hi Hr. unfold slot_reason, omit_reason. rewrite Hm Hi Hr.
  assert (modelsOfOutput (path ++ [ECompaction c]) = modelsOfOutput path) as ->; [|done].
  unfold modelsOfOutput. rewrite foldl_app. cbn [foldl]. by destruct (foldl models_step _ path).
Qed.

(** The settings a checkpoint of some puts in force. *)
Definition checked (s : Settings) : Settings :=
  let c := checkpoint s in
  mkSettings (st_Model c) (st_Instructions c) (st_Reasoning c) (st_Text c) (st_InstructionsParts c)
    (st_InstructionsOmitted c) (Omit_clone (st_Omit s)) (st_Tools c) (st_Extra c) [] [].

(** [compactionFrom] over the context of a path, once its entry is appended: what is
    sent then is the summary, and what was sent from the index on. *)
Lemma compactionFrom_context path ctx i summary comp c' :
  NoDup (ids path) -> "" ∉ ids path -> BuildContext path = Ok ctx ->
  compactionFrom ctx i summary = Ok comp ->
  co_FirstKept c' = co_FirstKept comp -> co_Summary c' = co_Summary comp -> co_Pinned c' = co_Pinned comp ->
  co_Config c' = co_Config comp ->
  eid (ECompaction c') ∉ ids path ->
  (forall im, om_Images (st_Omit (cx_Settings ctx)) = Some im -> oi_Before im <> eid (ECompaction c')) ->
  exists ctx', BuildContext (path ++ [ECompaction c']) = Ok ctx' /\
    Items ctx' = Some summary :: drop i (Items ctx) /\ cx_Settings ctx' = checked (cx_Settings ctx).
Proof.
  intros Hnd Hne Hctx Hcomp Hf Hsum Hpin Hcfg Hid Hbefore.
  assert (exists c0, selected path = Ok c0) as [c0 Hsel].
  { unfold BuildContext, buildContext in Hctx. apply rbind_Ok in Hctx as (c0 & Hsel & _). by exists c0. }
  assert (forall x, x ∈ cx_pairs c0 -> x.2 ∈ path) as Hon by (intros x; by apply selected_entries).
  assert (forall x : option Item * Entry, x.2 ∈ path -> eid x.2 <> "") as Hid0.
  { intros x Hx Heq. apply Hne. rewrite -Heq. by apply list_elem_of_fmap_2. }
  destruct (BuildContext_sent path c0 Hsel) as (c & Hc & Hs & Hp); [by auto|]. rewrite Hctx in Hc. injection Hc as <-.
  set (s := cx_Settings c0) in *. set (l := cx_pairs c0) in *. set (F := filter (fun x => slot_reason s path x = None) l) in *.
  unfold compactionFrom, ItemEntries in Hcomp. rewrite Hp sent_entries list_lookup_fmap in Hcomp. fold F in Hcomp.
  destruct (F !! i) as [[it e]|] eqn:Hi; [|done]. cbn in Hcomp.
  assert ((forall v, e <> ECompaction v) /\ comp = new_compaction (eid e) summary (checkpoint (cx_Settings ctx)))
    as [Hnc ->] by (destruct e; try done; by injection Hcomp as <-).
  destruct (filter_drop _ _ _ _ Hi) as (j & Hj & HF). fold F in HF.
  destruct (selected_from _ _ _ _ _ Hnd Hsel Hj Hnc) as (kept & Hk & Hd). fold l in Hd.
  assert (selected (path ++ [ECompaction c']) =
    Ok (mkCtx (checkpointSettings c') ((Some summary, ECompaction c') :: drop j l) (ECompaction c' :: kept ++ []) [] [] None)) as Hsel'.
  { unfold selected. rewrite last_compaction_snoc Hf /= Hk /=. unfold compaction_slots. by rewrite Hsum Hpin /= Hd app_nil_r. }
  destruct (BuildContext_sent _ _ Hsel') as (ctx' & Hb & Hs' & Hp').
  { cbn [cx_pairs]. intros x ie [->|Hx]%elem_of_cons Hxe; [done|]. by eapply Hid0, Hon, drop_in. }
  cbn [cx_Settings cx_pairs] in *. exists ctx'. split; [done|].
  assert (st_Omit (checkpointSettings c') = Omit_clone (st_Omit s)) as Hom by (unfold checkpointSettings; by rewrite Hcfg /= Hs).
  assert (st_Model (checkpointSettings c') = st_Model s) as Hmod by (unfold checkpointSettings; by rewrite Hcfg /= Hs).
  split; [|rewrite Hs'; unfold checkpointSettings, checked; by rewrite Hcfg].
  unfold Items. rewrite Hp' Hp. unfold sent. rewrite Hom. cbn [Omit_clone om_Images om_Outputs].
  assert (filter (fun x => slot_reason (checkpointSettings c') (path ++ [ECompaction c']) x = None) ((Some summary, ECompaction c') :: drop j l)
    = (Some summary, ECompaction c') :: drop i F) as ->.
  { rewrite filter_cons_True // HF. f_equal. apply list_filter_iff. intros x. rewrite (slot_reason_compaction s) //; by rewrite Hom. }
  rewrite output_slots_compaction -output_slots_drop replaceImages_compaction //; [by rewrite fmap_cons fmap_drop|by rewrite -Hs|].
  intros x Hx%drop_in. assert (x.2 ∈ (@snd (option Item) Entry) <$> F) as Hx2.
  { rewrite -(proj1 (replaceOutputs_from (om_Outputs (st_Omit s)) F)). by apply list_elem_of_fmap_2. }
  apply list_elem_of_fmap in Hx2 as (y & -> & Hy). apply Hon. by apply list_elem_of_filter in Hy as [_ ?].
Qed.

Lemma compactionContext_Ok s summary ctx p :
  ContextAt s (s_leaf s) = Ok ctx -> compactionContext s (Some summary) = Ok p ->
  p = (summary, ctx) /\ BuildContext (path s (s_leaf s)) = Ok ctx.
Proof.
  unfold compactionContext. intros Hctx H. inv_ok. bool_prop. split; [congruence|].
  unfold ContextAt in Hctx. rewrite decide_False // in Hctx. by inv_ok.
Qed.

Lemma path_named s id : wf s -> "" ∉ ids (path s id).
Proof.
  intros Hw (e & Heq & He)%list_elem_of_fmap. destruct (tree_goodID _ e (wf_tree _ Hw)) as [Hne _]; [by eapply path_entries|]. by apply Hne.
Qed.

(** C27: Appending under the leaf the compaction [CompactFrom] built makes the
    context there the summary and then exactly the items from the index on, as they
    were sent, whatever the omit in force left out or sent placeholders for, an
    earlier compaction's own items never among them; the settings are those that
    were in force, as a checkpoint carries them; and it always resolves.  The entry
    appended has an id of its own, which an images rule in force does not name. *)
Theorem CompactFrom_keeps s ctx (first : Z) summary comp c' :
  wf s ->
  ContextAt s (s_leaf s) = Ok ctx ->
  CompactFrom s first (Some summary) = Ok comp ->
  co_FirstKept c' = co_FirstKept comp -> co_Summary c' = co_Summary comp -> co_Pinned c' = co_Pinned comp ->
  co_Config c' = co_Config comp ->
  eid (ECompaction c') ∉ ids (path s (s_leaf s)) ->
  (forall im, om_Images (st_Omit (cx_Settings ctx)) = Some im -> oi_Before im <> eid (ECompaction c')) ->
  exists ctx', BuildContext (path s (s_leaf s) ++ [ECompaction c']) = Ok ctx' /\
    Items ctx' = Some summary :: drop (Z.to_nat first) (Items ctx) /\
    cx_Settings ctx' = checked (cx_Settings ctx).
Proof.
  intros Hw Hctx Hcomp. pose proof (path_NoDup s (s_leaf s) Hw). pose proof (path_named s (s_leaf s) Hw).
  unfold CompactFrom in Hcomp. apply rbind_Ok in Hcomp as (p & Hp & Hcomp).
  destruct (compactionContext_Ok _ _ _ _ Hctx Hp) as [-> Hb]. inv_ok. by eapply compactionFrom_context.
Qed.

(** [CompactKeeping] keeps the last items it was asked to keep and
    replaces the rest with the summary. *)
Lemma CompactKeeping_keeps s ctx (kept : Z) summary comp c' :
  wf s ->
  ContextAt s (s_leaf s) = Ok ctx ->
  CompactKeeping s kept (Some summary) = Ok comp ->
  co_FirstKept c' = co_FirstKept comp -> co_Summary c' = co_Summary comp -> co_Pinned c' = co_Pinned comp ->
  co_Config c' = co_Config comp ->
  eid (ECompaction c') ∉ ids (path s (s_leaf s)) ->
  (forall im, om_Images (st_Omit (cx_Settings ctx)) = Some im -> oi_Before im <> eid (ECompaction c')) ->
  exists ctx' dropped last_items, BuildContext (path s (s_leaf s) ++ [ECompaction c']) = Ok ctx' /\
    Items ctx = dropped ++ last_items /\ length last_items = Z.to_nat kept /\
    Items ctx' = Some summary :: last_items.
Proof.
  intros Hw Hctx Hcomp Hf Hs Hp Hc Hid Hbe. pose proof (path_NoDup s (s_leaf s) Hw) as Hnd. pose proof (path_named s (s_leaf s) Hw) as Hne.
  unfold CompactKeeping in Hcomp. apply rbind_Ok in Hcomp as (p & Hpc & Hcomp).
  destruct (compactionContext_Ok _ _ _ _ Hctx Hpc) as [-> Hbc].
  inv_ok. set (n := length (Items ctx) - Z.to_nat kept) in *.
  destruct (compactionFrom_context _ _ _ _ _ c' Hnd Hne Hbc Hcomp Hf Hs Hp Hc Hid Hbe) as (ctx' & Hb & Hi & _).
  exists ctx', (take n (Items ctx)), (drop n (Items ctx)). rewrite take_drop length_drop. split_and!; try done.
  bool_prop. unfold n. lia.
Qed.

End Compaction.
