(* ===== verification/SessionProps.v ===== *)
(** * What an append does ([session.go])

    [prepare] accepts an entry only under a parent the tree admits and gives it
    the id of its hash; [Commit], [Extend] and [Fork] keep the tree well formed
    and report what they did; and [Extend] places the leaf where [Read] would. *)
From S2P Require Import Prelude Entry Header Tree Leaf TreeWf LeafLemmas LeafRefine Calls CallRules Runs.
From S2P Require Import Verify Omit Digest Settings Context Hash Session.
Open Scope session_scope.

(** What the operations rely on of the encoder: normalising a body leaves alone
    a parent that is null or a hash. *)
Class EntryCodecLaws `{EntryCodec} := {
  normalise_Parent e :
    Parent (Base e) = "" \/ ValidHash (Parent (Base e)) = true ->
    Parent (Base (fst (normaliseEntry e))) = Parent (Base e)
}.

Lemma ValidHash_goodID id : ValidHash id = true -> goodID id.
Proof.
  unfold ValidHash. rewrite !andb_true_iff !bool_decide_eq_true. intros [[Hl _] _].
  split; intros ->; discriminate Hl.
Qed.

Section Props.
Context {OR : OpenResponses} {IC : ItemContent} {ND : NameDecoding} {CA : Canonicaliser} {SH : SHA256}
  {JT : JSONTools} {EC : EntryCodec} {ECL : EntryCodecLaws}.
Implicit Types (s : Session) (e : Entry).

(** ** The id of an entry is the hash of its line *)

(** The line an entry is hashed over: the encoder's, or the one normalising the
    entry wrote. *)
Definition line_of e (line : RawMessage) : Prop :=
  MarshalEntry e = Ok line \/ exists e0, normaliseEntry e0 = (e, Ok (Some line)).

(** An entry a writer built: that of its line, with the hashes the format says
    the line has, and the raw line of an unknown entry in step with them. *)
Definition built e : Prop :=
  exists e0 line, line_of e0 line /\ line_hashes line (eid e) (content (Base e)) /\
    rewrite_raw (set_Base (set_hashes (eid e) (content (Base e))) e0) = (e, Ok tt).

(** One that was read has the hashes sliced out of its line. *)
Definition sliced e : Prop :=
  exists c ms, canonicalMembers c = Some ms /\ memberHashes ms = (eid e, content (Base e)).

Definition hash_named e : Prop := built e \/ sliced e.

Lemma built_valid e : built e -> ValidHash (eid e) = true.
Proof. intros (e0 & line & _ & H & _). by eapply line_hashes_valid. Qed.

Lemma named_valid e : hash_named e -> ValidHash (eid e) = true.
Proof.
  intros [H|(c & ms & _ & H)]; [by apply built_valid|]. unfold memberHashes in H. injection H as <- _. apply HashBytes_valid.
Qed.

(** A session whose indexes are those of its entries, each named by its hash,
    its prefix among them. *)
Record sound s : Prop := {
  so_wf : wf s;
  so_named e : e ∈ s_entries s -> hash_named e;
  so_prefix id : id ∈ s_prefix s -> id ∈ ids (s_entries s)
}.

Lemma so_hashed s : sound s -> forall e, e ∈ s_entries s -> ValidHash (eid e) = true.
Proof. intros Hs e He. by eapply named_valid, so_named. Qed.

Lemma mbind_Ok {A B} (m : M A) (f : A -> M B) e e' b :
  mbind m f e = (e', Ok b) <-> exists e1 a, m e = (e1, Ok a) /\ f a e1 = (e', Ok b).
Proof.
  unfold mbind. destruct (m e) as [e1 [a|err]]; naive_solver.
Qed.

Lemma lift_Ok {A} (r : result A) e e' a : lift r e = (e', Ok a) <-> e' = e /\ r = Ok a.
Proof. unfold lift. naive_solver. Qed.

Lemma rewrite_raw_Ok e e' : rewrite_raw e = (e', Ok tt) -> Base e' = Base e.
Proof.
  destruct e; simpl; try (by intros [= <-]). destruct (rewriteEnvelope _) as [t [raw|]]; [|done].
  by intros [= <-].
Qed.

(** [hashEntry] of an entry and the line [normaliseEntry] gave, if it gave one. *)
Lemma hashEntry_Ok line e e' :
  (forall d, line = Some d -> line_of e d) -> hashEntry line e = (e', Ok tt) ->
  exists d, line_of e d /\ line_hashes d (eid e') (content (Base e')) /\
    e' = set_Base (set_hashes (eid e') (content (Base e'))) e.
Proof.
  intros Hline. unfold hashEntry. destruct (rbind _ _) as [[id c]|] eqn:Hr; [|done]. intros [= <-].
  apply rbind_Ok in Hr as (d & Hd & Hh). exists d. unfold eid. rewrite !Base_set_Base. split_and!; [|by apply EntryHashes_line|done].
  destruct line as [d'|]; [injection Hd as ->; by apply Hline|by left].
Qed.

Lemma hashed_parent e id c : eparent (set_Base (set_hashes id c) e) = eparent e.
Proof. unfold eparent. by rewrite Base_set_Base. Qed.

Lemma checkParentRule_Ok s p :
  wf s -> checkParentRule s p = Ok tt -> p = "" \/ p ∈ ids (s_entries s).
Proof.
  intros Hw. unfold checkParentRule. intros H. inv_ok.
  destruct (decide (p = "")) as [|Hne]; [by left|right]. rewrite bool_decide_eq_true_2 //= in H0.
  apply negb_false_iff in H0. by apply wf_has_entry.
Qed.

(** What an entry [prepare] has accepted is. *)
Record accepted s e (r : Result) : Prop := {
  ac_id : res_ID r = eid e;
  ac_built : built e;
  ac_parent : checkParentRule s (eparent e) = Ok tt;
  ac_held : has_entry s (eid e) = true <-> res_Outcome r = Held;
  ac_rules : res_Outcome r <> Held -> checkCallRules s e (eparent e) = Ok tt;
  ac_outcome : res_Outcome r <> Held -> res_Outcome r = outcomeFor s e
}.

Lemma outcomeFor_not_Held s e : outcomeFor s e <> Held.
Proof. unfold outcomeFor. repeat case_match; done. Qed.

Lemma prepareEntry_accepted s now e e' r :
  sound s -> prepareEntry s now e = (e', Ok r) -> accepted s e' r.
Proof.
  intros Hsd. pose proof (so_wf _ Hsd) as Hw. pose proof (so_hashed _ Hsd) as Hh. unfold prepareEntry. rewrite mbind_Ok. intros (e1 & res & _ & H).
  apply mbind_Ok in H as (? & ? & [-> _]%lift_Ok & H).
  apply mbind_Ok in H as (e2 & [] & _ & H).
  apply mbind_Ok in H as (? & p & Hp & H). injection Hp as <- <-.
  apply mbind_Ok in H as (? & [] & [-> Hrule]%lift_Ok & H).
  apply mbind_Ok in H as (e3 & [] & He3 & H). injection He3 as <-.
  apply mbind_Ok in H as (e4 & [] & He4 & H). injection He4 as <-.
  apply mbind_Ok in H as (? & b & Hb & H). injection Hb as <- Hb.
  apply mbind_Ok in H as (? & [] & [-> _]%lift_Ok & H).
  apply mbind_Ok in H as (e5 & [] & He5 & H). injection He5 as <-.
  apply mbind_Ok in H as (e6 & [] & Hraw & H). apply rewrite_raw_Ok in Hraw.
  apply mbind_Ok in H as (e7 & line & Hnorm & H).
  apply mbind_Ok in H as (e8 & [] & Hhash & H). apply hashEntry_Ok in Hhash as (d & Hline & Hhashes & He8).
  2:{ intros d ->. right. by exists e6. }
  assert (eparent e8 = eparent e7) as Hpar8 by (rewrite He8; apply hashed_parent).
  apply mbind_Ok in H as (? & id & Hid & H). injection Hid as <- <-.
  apply mbind_Ok in H as (? & [] & [-> _]%lift_Ok & H).
  apply mbind_Ok in H as (e9 & [] & Hraw9' & H). pose proof (rewrite_raw_Ok _ _ Hraw9') as Hraw9.
  apply mbind_Ok in H as (? & e10 & He10 & H). injection He10 as <- <-.
  assert (eid e9 = eid e8 /\ eparent e9 = eparent e8) as [Hi9 Hp9] by by rewrite /eid /eparent Hraw9.
  assert (eparent e6 = eparent e2) as Hp6.
  { rewrite /eparent Hraw !Base_set_Base. unfold order_parents, fill_timestamp, set_ID.
    by destruct (decide _). }
  assert (eparent e7 = eparent e2) as Hp7.
  { rewrite -Hp6. unfold eparent. replace e7 with (normaliseEntry e6).1 by by rewrite Hnorm.
    apply normalise_Parent. fold (eparent e6). rewrite Hp6.
    destruct (checkParentRule_Ok s _ Hw Hrule) as [|Hin]; [by left|right].
    apply list_elem_of_fmap in Hin as (x & -> & Hx). by apply Hh. }
  assert (Hpar : eparent e9 = eparent e2) by congruence.
  assert (built e9) as Hb9.
  { exists e7, d. rewrite /eid !Hraw9 -/(eid e8). split_and!; [done..|]. by rewrite -He8. }
  rewrite -Hi9 in H. rewrite -Hpar in Hrule.
  destruct (has_entry s (eid e9)) eqn:Hheld.
  - injection H as <- <-. by split.
  - apply mbind_Ok in H as (? & [] & [-> Hok]%lift_Ok & H). injection H as <- <-.
    split; try done. rewrite Hheld. split; [done|]. intros Ho. by apply outcomeFor_not_Held in Ho.
Qed.

Lemma prepare_accepted s now e e' r :
  sound s -> prepare s now e = (e', Ok r) -> accepted s e' r.
Proof.
  unfold prepare. destruct (prepareEntry s now e) as [e1 [r1|]] eqn:Hp; [|done].
  intros Hs [= <- <-]. by eapply prepareEntry_accepted.
Qed.

(** A fresh accepted entry joins the tree. *)
Lemma accepted_fresh s e r :
  sound s -> accepted s e r -> res_Outcome r <> Held ->
  goodID (eid e) /\ eid e ∉ ids (s_entries s) /\ (eparent e = "" \/ eparent e ∈ ids (s_entries s)).
Proof.
  intros [Hw _ _] [_ Hh Hp Hheld _ _] Hn. split_and!.
  - by apply ValidHash_goodID, built_valid.
  - rewrite -wf_has_entry // Hheld. done.
  - by apply checkParentRule_Ok.
Qed.

Lemma sound_add s e r :
  sound s -> accepted s e r -> res_Outcome r <> Held -> sound (add s e).
Proof.
  intros Hs Ha Hn. destruct (accepted_fresh _ _ _ Hs Ha Hn) as (Hg & Hf & Hp). split.
  - apply wf_add; [apply Hs|done..].
  - intros x. simpl. rewrite elem_of_app list_elem_of_singleton. intros [Hx| ->]; [by apply (so_named s)|left; apply Ha].
  - intros id Hid. simpl. rewrite ids_app elem_of_app. left. by apply (so_prefix s).
Qed.

Lemma sound_set_leaf s l : sound s -> sound (set_leaf l s).
Proof. intros [Hw Hh Hp]. split; [by apply wf_set_leaf|done..]. Qed.

Lemma sound_moveLeafFor s e : sound s -> sound (moveLeafFor s e).
Proof. intros Hs. unfold moveLeafFor. repeat case_match; try done; by apply sound_set_leaf. Qed.

Lemma sound_New h : sound (New h).
Proof. split; [apply wf_New|set_solver|set_solver]. Qed.

(** A fresh entry that is not a leaf label is one the leaf may rest on. *)
Lemma mayRestOn_new s e :
  sound s -> goodID (eid e) -> eid e ∉ ids (s_entries s) -> entry_is_leaf_label e = false ->
  mayRestOn (add s e) (eid e) = true.
Proof.
  intros Hs [Hg _] Hn Hl. unfold mayRestOn. rewrite decide_False //. simpl. rewrite lookup_insert_eq Hl.
  rewrite (bool_decide_eq_false_2 (eid e ∈ _)); [by rewrite andb_false_r|].
  intros Hp. apply Hn. by apply (so_prefix s).
Qed.

(** What moving the leaf for an entry does, by the outcome reported. *)
Lemma moveLeafFor_outcome s e :
  sound s -> goodID (eid e) -> eid e ∉ ids (s_entries s) ->
  s_leaf (moveLeafFor (add s e) e) =
  match outcomeFor s e with
  | Continued => eid e
  | LeafMoved => match e with ELabel l => le_Target l | _ => s_leaf s end
  | _ => s_leaf s
  end.
Proof.
  intros Hs Hg Hn. unfold moveLeafFor, outcomeFor.
  assert (s_leaf (add s e) = s_leaf s) as Hl by done.
  destruct e as [| | | | |l| | | | | | | | | | |];
    try (rewrite Hl; by destruct (decide _)).
  destruct (is_leaf_label l) eqn:Hlab; [|rewrite Hl; by destruct (decide _)].
  destruct (decide (le_Target l = eid (ELabel l))) as [Heq|Hne].
  - assert (mayRestOn (add s (ELabel l)) (le_Target l) = false) as ->.
    { unfold mayRestOn. rewrite Heq decide_False; [|apply Hg]. simpl. rewrite lookup_insert_eq.
      cbn [entry_is_leaf_label]; rewrite Hlab. by destruct (_ && _). }
    assert (mayRestOn s (le_Target l) = false) as ->; [|done].
    apply not_true_iff_false. intros Hr. destruct (mayRestOn_in s _ (so_wf s Hs) Hr) as [Ht|Ht].
    + destruct Hg as [Hg _]. congruence.
    + congruence.
  - rewrite mayRestOn_add //. by destruct (mayRestOn s (le_Target l)).
Qed.

Lemma mayRestOn_set_leaf s l id : mayRestOn (set_leaf l s) id = mayRestOn s id.
Proof. done. Qed.

Lemma mayRestOn_moveLeafFor s e id : mayRestOn (moveLeafFor s e) id = mayRestOn s id.
Proof. unfold moveLeafFor. repeat case_match; done. Qed.

Lemma entries_moveLeafFor s e : s_entries (moveLeafFor s e) = s_entries s.
Proof. unfold moveLeafFor. repeat case_match; done. Qed.

Lemma path_ext s s' id :
  s_byID s' = s_byID s -> s_entries s' = s_entries s -> path s' id = path s id.
Proof.
  intros Hb He. unfold path. rewrite He. generalize (S (length (s_entries s))). intros fuel.
  assert (walk s' fuel id = walk s fuel id) as ->; [|done].
  revert id. induction fuel as [|fuel IH]; intros id; simpl; [done|]. rewrite Hb.
  destruct (decide _); [done|]. destruct (s_byID s !! id); [by rewrite IH|done].
Qed.

Lemma path_set_leaf s l id : path (set_leaf l s) id = path s id.
Proof. by apply path_ext. Qed.

Lemma path_moveLeafFor s e id : path (moveLeafFor s e) id = path s id.
Proof. unfold moveLeafFor. repeat case_match; try done; apply path_set_leaf. Qed.

(** An append keeps the leaf where it may rest. *)
Lemma moveLeafFor_rests s e :
  sound s -> goodID (eid e) -> eid e ∉ ids (s_entries s) ->
  mayRestOn s (s_leaf s) = true ->
  mayRestOn (moveLeafFor (add s e) e) (s_leaf (moveLeafFor (add s e) e)) = true.
Proof.
  intros Hs Hg Hn Hr. rewrite mayRestOn_moveLeafFor moveLeafFor_outcome //.
  assert (forall t, mayRestOn s t = true -> mayRestOn (add s e) t = true) as Hold.
  { intros t Ht. rewrite mayRestOn_add //. by apply (leaf_target_fresh s); [apply Hs|..]. }
  unfold outcomeFor. destruct e as [| | | | |l| | | | | | | | | | |];
    try (destruct (decide _); [by apply mayRestOn_new|by apply Hold]).
  destruct (is_leaf_label l) eqn:Hl; [|destruct (decide _); [by apply mayRestOn_new|by apply Hold]].
  destruct (mayRestOn s (le_Target l)) eqn:Ht; by apply Hold.
Qed.

(** ** Commit *)

(** What a refusal puts back of the entry: its envelope, and the raw line of
    an unknown entry. *)
Record put_back e e' : Prop := {
  pb_id : eid e' = eid e;
  pb_parent : eparent e' = eparent e;
  pb_parents : Parents (Base e') = Parents (Base e);
  pb_timestamp : Timestamp (Base e') = Timestamp (Base e);
  pb_raw u u' : e = EUnknown u -> e' = EUnknown u' -> un_Raw u' = un_Raw u
}.

Lemma restore_put_back e e1 : put_back e (restore e e1).
Proof.
  assert (Base (restore e e1) = set_envelope (ID (Base e)) (Parent (Base e)) (Parents (Base e))
            (Timestamp (Base e)) (Base e1)) as Hb.
  { rewrite -Base_set_Base. unfold restore. by destruct e, e1 as [[]|[]|[]|[]|[]|[]|[]|[]|[]|[]|[]|[]|[]|[]|[]|[]|[]]. }
  split; rewrite ?/eid ?/eparent ?Hb //. intros u u' ->. unfold restore. by destruct e1 as [[]|[]|[]|[]|[]|[]|[]|[]|[]|[]|[]|[]|[]|[]|[]|[]|[]]; intros [= <-].
Qed.

(** C2: [Commit] either refuses, leaving the session as it was and putting back
    the entry's id, parent, parents and timestamp and an unknown entry's raw line
    (its body may be left normalised); or finds the entry held, under an id the
    session has, and changes nothing; or adds exactly that entry, under a parent
    the tree holds and under the id that is the hash of its line: what the format
    says of the type, the parent, the parents, the timestamp and the content hash
    of the line the encoder gives for it ([built], [line_hashes]).  It then moves
    the leaf as the outcome it reports says, and leaves a well-formed session
    whose leaf rests where a leaf may, if it did before. *)
Theorem Commit_spec s now e :
  sound s ->
  match Commit s now e with
  | (s', e', Err _) => s' = s /\ put_back e e'
  | (s', e', Ok (mkResult id Held)) => s' = s /\ id = eid e' /\ id ∈ ids (s_entries s)
  | (s', e', Ok (mkResult id o)) =>
      id = eid e' /\ id ∉ ids (s_entries s) /\ built e' /\
      checkParentRule s (eparent e') = Ok tt /\ checkCallRules s e' (eparent e') = Ok tt /\
      s_entries s' = s_entries s ++ [e'] /\ path s' id = path s (eparent e') ++ [e'] /\ sound s' /\
      s_leaf s' = match o, e' with
                  | Continued, _ => id
                  | LeafMoved, ELabel l => le_Target l
                  | _, _ => s_leaf s
                  end /\
      (mayRestOn s (s_leaf s) = true -> mayRestOn s' (s_leaf s') = true)
  end.
Proof.
  intros Hs. unfold Commit. destruct (validateEntry (Some e)) as [u|err]; [|split; [done|]; split; try done; by intros u u' -> [= <-]].
  destruct (prepare s now e) as [e' [r|err]] eqn:Hp.
  - pose proof (prepare_accepted _ _ _ _ _ Hs Hp) as Ha. destruct (decide (res_Outcome r = Held)) as [Ho|Ho].
    + destruct r as [id o]. simpl in Ho. subst o. pose proof (ac_held _ _ _ Ha) as Hh.
      pose proof (ac_id _ _ _ Ha) as Hid. simpl in *. subst id.
      split_and!; [done..|]. apply wf_has_entry; [apply Hs|]. by apply Hh.
    + destruct (accepted_fresh _ _ _ Hs Ha Ho) as (Hg & Hn & Hpar).
      pose proof (sound_add _ _ _ Hs Ha Ho) as Hs'. destruct Ha as [Hid Hh Hpr _ Hr Hout].
      destruct r as [id o]. simpl in *. subst id. rewrite Hout //.
      assert (path (moveLeafFor (add s e') e') (eid e') = path s (eparent e') ++ [e']) as Hpath.
      { rewrite -(path_add_new s e'); [|by apply Hs|done..].
        apply path_moveLeafFor. }
      destruct (outcomeFor s e') eqn:Ho'; try (exfalso; by eapply outcomeFor_not_Held);
        (split_and!; [done|done|done|done|by apply Hr|by rewrite entries_moveLeafFor|done|
           by apply sound_moveLeafFor|rewrite moveLeafFor_outcome // Ho'; by destruct e'|by apply moveLeafFor_rests]).
  - unfold prepare in Hp. destruct (prepareEntry s now e) as [e1 [|]]; [done|]. injection Hp as <- <-.
    split; [done|apply restore_put_back].
Qed.

(** ** Extend *)

Lemma extend_state_correct s : wf s -> read_inv s -> extend_state s = state_over s (s_entries s).
Proof.
  intros Hw Hr. unfold extend_state. destruct (s_read s) as [st|] eqn:Hst; [|apply readLeafState_over].
  destruct (decide _) as [Hn|]; [|apply readLeafState_over]. destruct (Hr _ Hst) as [_ ->].
  rewrite Hn firstn_all //.
Qed.

Lemma extend_state_add s e :
  wf (add s e) -> unnamed (s_entries s) (eid e) ->
  extend (add s e) (state_over s (s_entries s)) (length (s_entries s)) = readLeafState (add s e).
Proof.
  intros Hw Hset. rewrite readLeafState_over.
  rewrite -(catch_up (add s e) (s_entries s) [e]); [|apply Hw|done].
  by rewrite state_over_add.
Qed.

(** Neither the leaf nor the kept state bears on where [Read] places it. *)
Lemma resolveLeaf_ext s s' :
  s_header s' = s_header s -> s_entries s' = s_entries s -> s_byID s' = s_byID s -> s_prefix s' = s_prefix s ->
  resolveLeaf s' = resolveLeaf s.
Proof.
  intros Hh He Hb Hp.
  assert (forall id, notOnLabel s' id = notOnLabel s id) as Hn.
  { intros id. unfold notOnLabel, hasBase. rewrite Hh He Hp.
    assert (forall fuel id, off_label s' fuel id = off_label s fuel id) as ->; [|done].
    induction fuel as [|fuel IH]; intros id0; [done|]. cbn [off_label]. rewrite Hb.
    destruct (decide _); [done|]. destruct (s_byID s !! id0) as [x|]; [|done].
    by destruct (entry_is_leaf_label x). }
  assert (durableLeafAt s' = durableLeafAt s) as Hd.
  { unfold durableLeafAt. rewrite He. apply foldl_idx_ext. intros acc j x _. unfold durable_step, mayRestOn, hasBase. by rewrite Hb Hh Hp. }
  unfold resolveLeaf, under_pass. rewrite He Hd. destruct (last _); [|done]. destruct (durableLeafAt s) as [m a]. by rewrite !Hn.
Qed.

Lemma resolveLeaf_set s l r : resolveLeaf (set_leaf l (set_read r s)) = resolveLeaf s.
Proof. by apply resolveLeaf_ext. Qed.

Lemma Extend_reads s now e s' e' r :
  sound s -> read_inv s -> Extend s now e = (s', e', Ok r) -> res_Outcome r <> Held ->
  unnamed (s_entries s) (eid e') ->
  s_entries s' = s_entries s ++ [e'] /\ s_leaf s' = resolveLeaf s' /\ sound s' /\ read_inv s'.
Proof.
  intros Hs Hr. unfold Extend. destruct (validateEntry (Some e)) as [|]; [|done].
  destruct (prepare s now _) as [e1 [r1|]] eqn:Hp; [|done]. apply prepare_accepted in Hp; [|done].
  destruct (decide _) as [|Ho]; [by intros [= <- <- <-]|]. intros [= <- <- <-] _ Hset.
  pose proof (sound_add _ _ _ Hs Hp Ho) as Hs'.
  set (st := extend _ _ _). assert (st = readLeafState (add s e1)) as Hst.
  { unfold st. rewrite extend_state_correct; [|apply Hs|done]. rewrite -extend_state_add //; [|apply Hs'].
    simpl. by rewrite length_app Nat.add_sub. }
  rewrite Hst. clear st Hst. split_and!; [done| | |].
  - rewrite resolveLeaf_set. simpl. apply leaf_of_readLeafState. simpl. by rewrite last_snoc.
  - apply sound_set_leaf. destruct Hs'. split; [by apply wf_set_read|done..].
  - intros st [= <-]. rewrite readLeafState_over. simpl.
    assert (forall es, rl_n (state_over (add s e1) es) = length es) as ->.
    { intros es. unfold state_over. destruct (durable_over _ _). by destruct (decide _). }
    split; [done|]. by rewrite firstn_all.
Qed.

(** C3: [Extend] leaves the leaf where [Read] would have placed it had the
    entry been in what it read, from the state it keeps and without passing
    over the file again, and keeps that state correct for the next; but where a
    leaf label already in the file names the very entry added, which [Read] then
    takes for a mark and [Extend] does not. *)
Theorem Extend_is_Read s now e s' e' r :
  sound s -> read_inv s -> Extend s now e = (s', e', Ok r) -> res_Outcome r <> Held ->
  unnamed (s_entries s) (eid e') ->
  s_entries s' = s_entries s ++ [e'] /\ s_leaf s' = resolveLeaf s' /\ sound s' /\ read_inv s'.
Proof. apply Extend_reads. Qed.

(** ** The head compare-and-swap *)

(** One that succeeds adds a label that passed the checks of an append. *)
Lemma commitHead_adds s now expected to s' e :
  sound s -> commitHead s now expected to = Ok (s', e) ->
  exists label r, headLabel s expected to = Ok label /\ accepted s e r /\ s' = moveLeafFor (add s e) e.
Proof.
  intros Hs. unfold commitHead. intros H. apply rbind_Ok in H as (_ & _ & H).
  apply rbind_Ok in H as (label & Hl & H). destruct (prepare s now (ELabel label)) as [e1 r] eqn:Hp.
  apply rbind_Ok in H as (r1 & -> & H). injection H as <- <-. apply prepare_accepted in Hp; [|done]. by exists label, r1.
Qed.

Lemma commitHead_keeps_sound s now expected to s' e :
  sound s -> commitHead s now expected to = Ok (s', e) -> eid e ∉ ids (s_entries s) -> sound s'.
Proof.
  intros Hs Hc Hn. destruct (commitHead_adds _ _ _ _ _ _ Hs Hc) as (label & r & _ & Hp & ->).
  apply sound_moveLeafFor, (sound_add _ _ _ Hs Hp). intros Ho. apply Hn. apply wf_has_entry; [apply Hs|]. by apply (ac_held _ _ _ Hp).
Qed.

(** C24: A head compare-and-swap that succeeds found the head where it was
    expected and appended one label to a session otherwise as it was; the
    session stays sound exactly when the label is new to it, since the outcome
    that reports the entry already held is dropped: one held is appended
    again, and its id repeats. *)
Theorem commitHead_sound s now expected to s' e :
  sound s -> commitHead s now expected to = Ok (s', e) ->
  s_leaf s = expected /\ s_entries s' = s_entries s ++ [e] /\
  (sound s' <-> eid e ∉ ids (s_entries s)).
Proof.
  intros Hs Hc. destruct (commitHead_adds _ _ _ _ _ _ Hs Hc) as (label & r & Hl & Hp & Heq). rewrite Heq entries_moveLeafFor -Heq.
  split_and!; [|done|split].
  - unfold headLabel in Hl. inv_ok. apply bool_decide_eq_false in H. by apply dec_stable in H.
  - intros [Hw _ _]. apply wf_tree, tree_NoDup in Hw. rewrite Heq entries_moveLeafFor /= ids_app in Hw.
    apply NoDup_app in Hw as (_ & Hd & _). intros Hin. apply (Hd _ Hin). set_solver.
  - by eapply commitHead_keeps_sound.
Qed.

End Props.
