(* ===== verification/Written.v ===== *)
(** * The records of a session this library wrote ([session.go], [run.go])

    Every path of a session grown by appends keeps the rules [VerifyRecords]
    holds a record to, save those an append does not check: the invariant, and
    that [Commit], [Extend] and [Fork] keep it. *)
From S2P Require Import Prelude Entry Header Tree Leaf TreeWf LeafLemmas LeafRefine Calls CallRules.
From S2P Require Import CallLemmas CallSound Runs Verify Omit Digest Settings Context Hash Session.
From S2P Require Import SessionProps.
Open Scope session_scope.

Section Written.
Context {OR : OpenResponses} {IC : ItemContent} {ND : NameDecoding} {CA : Canonicaliser} {SH : SHA256}
  {JT : JSONTools} {EC : EntryCodec} {ECL : EntryCodecLaws} {TE : TriggerEncoding}.
Implicit Types (s : Session) (e : Entry) (c : Call) (P : list Entry).

(** ** One step of the replay, seen from a call *)

Lemma call_at_snoc P e t c' :
  (forall x t, about_call e = Some (x, t) -> exists c, call_at P t = Some c /\ c_CallID c = x) ->
  call_at (P ++ [e]) t = Some c' ->
  call_at P t = Some c' \/
  (exists v x args, e = EItem v /\ item_case (ie_Item v) = Some (FunctionCall x args) /\
                    t = eid e /\ c' = newCall v x args) \/
  (exists c x, call_at P t = Some c /\ about_call e = Some (x, t) /\ c' = event_fn e c) \/
  (exists c v x, e = EItem v /\ item_case (ie_Item v) = Some (FunctionCallOutput x) /\
                 m_latest (m_of P) !! x = Some t /\ call_at P t = Some c /\ c' = output_fn v c).
Proof.
  intros He. unfold call_at. rewrite m_of_snoc.
  destruct (bears_on e) eqn:Hb; [|rewrite m_step_other //; auto].
  destruct (about_call e) as [[x t0]|] eqn:Hab.
  - destruct (He _ _ eq_refl) as (c0 & Hc0 & Hid). rewrite (m_step_event _ _ _ _ _ Hab Hc0) /=.
    destruct (decide (t0 = t)) as [->|Hne]; [|rewrite lookup_alter_ne //; auto].
    unfold call_at in Hc0. rewrite lookup_alter_eq Hc0. intros [= <-]. right; right; left. eauto.
  - destruct e as [v| | | | | | | | | | | | | | | |]; try done. simpl in Hb.
    destruct (item_case (ie_Item v)) as [[x args|x| | | |]|] eqn:Hv; try done.
    + rewrite (m_step_call _ _ _ _ Hv) /=. destruct (decide (ID (ie_Base v) = t)) as [<-|Hne].
      * rewrite lookup_insert_eq. intros [= <-]. right; left. eauto 8.
      * rewrite lookup_insert_ne //. auto.
    + rewrite (m_step_output _ _ _ Hv). destruct (m_latest (m_of P) !! x) as [t0|] eqn:Hl; simpl; [|auto].
      destruct (decide (t0 = t)) as [->|Hne]; [|rewrite lookup_alter_ne //; auto].
      rewrite lookup_alter_eq. destruct (m_calls (m_of P) !! t) as [c|] eqn:Hc; [|done].
      intros [= <-]. right; right; right. eauto 10.
Qed.

Lemma event_Entry e c : c_Entry (event_fn e c) = c_Entry c.
Proof.
  destruct e; try done. simpl. unfold on_decision. destruct (withdraws _ _); [|done].
  unfold on_withdrawal. by destruct (last _).
Qed.

Lemma output_Entry v c : c_Entry (output_fn v c) = c_Entry c.
Proof. unfold output_fn. by destruct (Pending c). Qed.

(** ** The checks over the lines *)

Lemma check_lines_app {A} (step : A -> Entry -> result A) acc l l' :
  check_lines step acc (l ++ l') = let! acc := check_lines step acc l in check_lines step acc l'.
Proof.
  revert acc. induction l as [|e l IH]; intros acc; [done|]. simpl.
  destruct (step acc e); simpl; [apply IH|done].
Qed.

Lemma run_check_Ok {A} (step : A -> Entry -> result A) acc l :
  run_check step acc l = Ok tt <-> exists a, check_lines step acc l = Ok a.
Proof. unfold run_check. rewrite rbind_Ok. naive_solver. Qed.

(** [verifyTargets] knows each function call before by its entry. *)
Lemma targets_ok P :
  NoDup (ids P) -> consistent P ->
  exists m, check_lines verifyTargets_step ∅ P = Ok m /\
            forall t, m !! t = c_CallID <$> call_at P t.
Proof.
  induction P as [|e P IH] using rev_ind.
  { intros _ _. exists ∅. split; [done|]. intros t. unfold call_at, m_of. by rewrite /= !lookup_empty. }
  intros Hnd Hc. apply consistent_snoc_inv in Hc as [Hc He]. rewrite ids_app in Hnd.
  apply NoDup_app in Hnd as (Hnd & Hdis & _).
  destruct (IH Hnd Hc) as (m & Hm & Hsame). rewrite check_lines_app Hm /=.
  assert (forall x t, about_call e = Some (x, t) -> target_check m x t = Ok tt) as Htc.
  { intros x t Hab. destruct (He _ _ Hab) as (c & Hct & <-). unfold target_check. rewrite Hsame Hct /=.
    rewrite bool_decide_eq_false_2 //. tauto. }
  assert (forall f o, (forall c, c_CallID (f c) = c_CallID c) ->
    forall t, c_CallID <$> m_calls (m_update f o (m_of P)) !! t = c_CallID <$> call_at P t) as Hu.
  { intros f [o|] Hf t; [|done]. simpl. unfold call_at. destruct (decide (o = t)) as [->|]; [|by rewrite lookup_alter_ne].
    rewrite lookup_alter_eq. destruct (m_calls (m_of P) !! t); simpl; [by rewrite Hf|done]. }
  destruct (about_call e) as [[x t0]|] eqn:Hab.
  - destruct (He _ _ eq_refl) as (c & Hct & _).
    exists m. split.
    + destruct e as [| | | | | | | | | | | |v|v|v| |]; try done; simpl in Hab |- *;
        injection Hab as -> ->; by rewrite ?(Htc _ _ eq_refl).
    + intros t. unfold call_at. rewrite m_of_snoc (m_step_event _ _ _ _ _ Hab Hct) Hu; [apply Hsame|].
      intros c0. apply event_keeps.
  - destruct (bears_on e) eqn:Hb.
    2:{ exists m. split; [|intros t; unfold call_at; by rewrite m_of_snoc m_step_other].
        destruct e as [v| | | | | | | | | | | | | | | |]; try done. simpl in Hb |- *.
        unfold function_call. by destruct (item_case (ie_Item v)) as [[]|]. }
    destruct e as [v| | | | | | | | | | | | | | | |]; try done. simpl in Hb.
    destruct (item_case (ie_Item v)) as [[x args|x| | | |]|] eqn:Hv; try done.
    + eexists. split; [simpl; by rewrite /function_call Hv|]. intros t. unfold call_at.
      rewrite m_of_snoc (m_step_call _ _ _ _ Hv) /=. unfold eid; simpl.
      destruct (decide (ID (ie_Base v) = t)) as [<-|]; [by rewrite !lookup_insert_eq|].
      rewrite !lookup_insert_ne //.
    + exists m. split; [simpl; by rewrite /function_call Hv|]. intros t. unfold call_at.
      rewrite m_of_snoc (m_step_output _ _ _ Hv) Hu; [apply Hsame|]. intros c. apply output_keeps.
Qed.

(** Each call ID, and each host-started child, is one entry's. *)
Definition names_one (f : Entry -> option string) (es : list Entry) : Prop :=
  forall e1 e2 x, e1 ∈ es -> e2 ∈ es -> f e1 = Some x -> f e2 = Some x -> eid e1 = eid e2.

Lemma names_one_fresh f es e x :
  NoDup (ids (es ++ [e])) -> names_one f (es ++ [e]) -> f e = Some x -> x ∉ set_index f es.
Proof.
  intros Hnd Hone Hx Hin. apply set_index_spec in Hin as (e' & Hin & Hx').
  rewrite ids_app in Hnd. apply NoDup_app in Hnd as (_ & Hdis & _).
  apply (Hdis (eid e')); [by apply list_elem_of_fmap_2|].
  rewrite (Hone e' e x) //; set_solver.
Qed.

Lemma names_one_app f es es' : names_one f (es ++ es') -> names_one f es.
Proof. intros H e1 e2 x H1 H2. apply H; set_solver. Qed.

Lemma callIDs_ok es :
  NoDup (ids es) -> names_one call_of es -> (forall e, e ∈ es -> call_of e <> Some "") ->
  check_lines callID_step ∅ es = Ok (set_index call_of es).
Proof.
  induction es as [|e es IH] using rev_ind; [done|]. intros Hnd Hone Hne.
  rewrite check_lines_app IH; [|by rewrite ids_app in Hnd; apply NoDup_app in Hnd as (? & _)|
    by eapply names_one_app|set_solver].
  simpl. unfold callID_step. rewrite set_index_snoc. destruct (call_of e) as [x|] eqn:Hx; [|done].
  pose proof (names_one_fresh _ _ _ _ Hnd Hone Hx). simpl.
  rewrite !bool_decide_eq_false_2 //. intros ->. apply (Hne e); [set_solver|done].
Qed.

Lemma spawnIDs_ok es :
  NoDup (ids es) -> names_one spawn_of es ->
  check_lines spawnID_step ∅ es = Ok (set_index spawn_of es) \/
  check_lines spawnID_step ∅ es = Err ErrSpawnLink.
Proof.
  induction es as [|e es IH] using rev_ind; [by left|]. intros Hnd Hone.
  rewrite check_lines_app. destruct IH as [->| ->];
    [by rewrite ids_app in Hnd; apply NoDup_app in Hnd as (? & _)|by eapply names_one_app| |by right].
  simpl. rewrite set_index_snoc. destruct (spawn_of e) as [x|] eqn:Hx.
  - pose proof (names_one_fresh _ _ _ _ Hnd Hone Hx) as Hf. destruct e as [| | | | | | | | |l| | | | | | |]; try done.
    simpl in Hx |- *. destruct (decide (_ /\ _)) as [(Hr & Hs & Hc)|]; [|done]. injection Hx as <-.
    rewrite decide_False; [|naive_solver]. rewrite (decide_False (P := ln_Cancel l <> "")); [|naive_solver].
    rewrite (bool_decide_eq_false_2 _ Hf). destruct (bool_decide (ln_CallID l <> "")); simpl; auto.
  - destruct e as [| | | | | | | | |l| | | | | | |]; try by left. simpl in Hx |- *.
    destruct (decide (_ /\ _)) as [|Hn]; [done|]. destruct (decide (_ \/ _)) as [|Hn']; [by left|].
    destruct (bool_decide (ln_CallID l <> "")); simpl; [by right|].
    rewrite decide_True; [by left|]. intros Hc. apply Hn. split_and!; [|naive_solver|done].
    destruct (decide (ln_Rel l = RelSubsession)); [done|]. naive_solver.
Qed.

(** [verifyCopied] knows whether each call before was copied, and whether the
    latest with a call ID was. *)
Lemma update_Copied f o P t :
  (forall c, c_Entry (f c) = c_Entry c) ->
  Copied <$> m_calls (m_update f o (m_of P)) !! t = Copied <$> call_at P t.
Proof.
  intros Hf. unfold call_at. destruct o as [o|]; [|done]. simpl.
  destruct (decide (o = t)) as [->|]; [|by rewrite lookup_alter_ne].
  rewrite lookup_alter_eq. destruct (m_calls (m_of P) !! t) as [c|]; simpl; [|done].
  unfold Copied. by rewrite Hf.
Qed.

Lemma m_latest_update f o m : m_latest (m_update f o m) = m_latest m.
Proof. by destruct o. Qed.

Definition latest_copied P (x : string) : option bool :=
  m_latest (m_of P) !! x ≫= fun t => Copied <$> call_at P t.

Definition copied_view P (acc : gmap string bool * gmap string bool) : Prop :=
  (forall t, acc.1 !! t = Copied <$> call_at P t) /\ (forall x, acc.2 !! x = latest_copied P x).

Lemma copied_view_event P e acc :
  (forall v, e = EItem v -> ~ exists x args, item_case (ie_Item v) = Some (FunctionCall x args)) ->
  copied_view P acc -> copied_view (P ++ [e]) acc.
Proof.
  intros Hcall [H1 H2].
  assert (exists f o, m_step (m_of P) e = m_update f o (m_of P) /\ forall c, c_Entry (f c) = c_Entry c)
    as (f & o & Hstep & Hf).
  { destruct (bears_on e) eqn:Hb; [|exists (fun c => c), None; by rewrite m_step_other].
    destruct (about_call e) as [[x t]|] eqn:Hab.
    - exists (event_fn e), (m_bind (m_of P) x t). split; [|apply event_Entry].
      destruct e; try done; simpl in Hab |- *; by injection Hab as -> ->.
    - destruct e as [v| | | | | | | | | | | | | | | |]; try done. simpl in Hb.
      destruct (item_case (ie_Item v)) as [[x args|x| | | |]|] eqn:Hv; try done.
      + exfalso. apply (Hcall v); eauto.
      + exists (output_fn v), (m_latest (m_of P) !! x). split; [by apply m_step_output|apply output_Entry]. }
  split; intros t.
  - rewrite H1. unfold call_at at 2. by rewrite m_of_snoc Hstep update_Copied.
  - rewrite H2. unfold latest_copied. rewrite m_of_snoc Hstep m_latest_update.
    destruct (m_latest (m_of P) !! t) as [t0|]; simpl; [|done].
    unfold call_at at 2. by rewrite m_of_snoc Hstep update_Copied.
Qed.

Lemma copied_view_call P v x args acc :
  NoDup (ids P) -> eid (EItem v) ∉ ids P -> item_case (ie_Item v) = Some (FunctionCall x args) ->
  copied_view P acc ->
  let b := bool_decide (is_Some (ie_CopiedFrom v)) in
  copied_view (P ++ [EItem v]) (<[eid (EItem v) := b]> acc.1, <[x := b]> acc.2).
Proof.
  intros Hnd Hn Hv [H1 H2] b.
  assert (forall t, Copied <$> call_at (P ++ [EItem v]) t =
                    <[eid (EItem v) := b]> acc.1 !! t) as Hcall.
  { intros t. unfold call_at. rewrite m_of_snoc (m_step_call _ _ _ _ Hv) /=. unfold eid; simpl.
    destruct (decide (ID (ie_Base v) = t)) as [<-|]; [by rewrite !lookup_insert_eq|].
    by rewrite !lookup_insert_ne // H1. }
  split; simpl; [by intros t|]. intros y. unfold latest_copied.
  rewrite m_of_snoc (m_step_call _ _ _ _ Hv) /=. destruct (decide (x = y)) as [<-|Hxy].
  - rewrite !lookup_insert_eq /= Hcall. by rewrite /eid /= lookup_insert_eq.
  - rewrite !lookup_insert_ne // H2. unfold latest_copied.
    destruct (m_latest (m_of P) !! y) as [t|] eqn:Hl; simpl; [|done].
    rewrite Hcall lookup_insert_ne; [by rewrite H1|]. intros <-.
    destruct (mi_latest _ (m_of_inv P Hnd) _ _ Hl) as (c & Hc & _). by rewrite (m_fresh _ _ Hn) in Hc.
Qed.

Lemma copied_state self P acc :
  NoDup (ids P) -> check_lines (verifyCopied_step self) (∅, ∅) P = Ok acc -> copied_view P acc.
Proof.
  revert acc. induction P as [|e P IH] using rev_ind; intros acc.
  { intros _ [= <-]. split; intros t; unfold latest_copied, call_at, m_of; by rewrite /= !lookup_empty. }
  intros Hnd. rewrite check_lines_app => H. apply rbind_Ok in H as ([cp by_] & Hacc & H).
  rewrite ids_app in Hnd. apply NoDup_app in Hnd as (Hnd & Hdis & _). specialize (IH _ Hnd Hacc).
  assert (eid e ∉ ids P) as Hn by (intros Hin; apply (Hdis _ Hin); set_solver).
  simpl in H. apply rbind_Ok in H as (acc' & Hstep & [= <-]).
  assert (forall acc, (forall v, e = EItem v -> ~ exists x args, item_case (ie_Item v) = Some (FunctionCall x args)) ->
    (cp, by_) = acc -> copied_view (P ++ [e]) acc) as Hev by (intros ? ? <-; by apply copied_view_event).
  destruct e as [v| | | | | | | | | | | | | | | |]; simpl in Hstep; inv_ok;
    try (injection Hstep as <-; by apply Hev); try (by apply Hev).
  destruct (item_case (ie_Item v)) as [[x args|x| | | |]|] eqn:Hv; simpl in Hstep; inv_ok;
    try (apply Hev; [|done]; intros v' [= <-] (? & ? & ?); congruence).
  by apply (copied_view_call P v x args (cp, by_)).
Qed.

End Written.
