(* ===== verification/WrittenSound.v ===== *)
(** * What the verification of a written session's records can report

    The invariant of a session grown by appends, kept by every operation that
    writes one, and the theorem it gives: [VerifyRecords] on any leaf reports
    nothing an append is checked for. *)
From S2P Require Import Prelude Entry Header Tree Leaf TreeWf LeafLemmas LeafRefine Calls CallRules.
From S2P Require Import CallLemmas CallSound Runs Verify Omit Digest Settings Context Hash Session.
From S2P Require Import SessionProps Written.
Open Scope session_scope.

Section WrittenSound.
Context {OR : OpenResponses} {IC : ItemContent} {ND : NameDecoding} {CA : Canonicaliser} {SH : SHA256}
  {JT : JSONTools} {EC : EntryCodec} {ECL : EntryCodecLaws} {TE : TriggerEncoding}.
Implicit Types (s : Session) (e : Entry) (c : Call) (P : list Entry).

(** An answer with no dispatch on the path has one off it, where the header
    promises dispatch records. *)
Definition answers_ok s P : Prop :=
  forall t c, call_at P t = Some c -> Answered c = true -> c_Dispatch c = None -> promised s t = true ->
  dispatchedOff s t (onPath P) = true.

(** No item of the path was copied from the session [self]. *)
Definition copies_none (self : string) P : Prop :=
  forall v cf, EItem v ∈ P -> ie_CopiedFrom v = Some cf -> cf_Session cf <> self.

(** The copies on a path are in order, for a session none of them is from. *)
Definition copied_ok P : Prop := forall self, copies_none self P -> verifyCopied self P = Ok tt.

Record clean s : Prop := {
  cl_sound : sound s;
  cl_good id : good_path (path s id);
  cl_calls : names_one call_of (s_entries s);
  cl_named e : e ∈ s_entries s -> call_of e <> Some "";
  cl_spawns : names_one spawn_of (s_entries s);
  cl_copied id : copied_ok (path s id);
  cl_dispatches t d : d ∈ Dispatches s t -> ID (di_Base d) ∈ ids (s_entries s);
  cl_answers id : answers_ok s (path s id)
}.

(** ** What an added entry leaves alone *)

Lemma header_add s e :
  h_ID (s_header (add s e)) = h_ID (s_header s) /\ h_Records (s_header (add s e)) = h_Records (s_header s).
Proof. simpl. by destruct (_ && _). Qed.

Lemma promised_add s e t : promised (add s e) t = promised s t.
Proof. unfold promised, HasRecord. by rewrite (proj2 (header_add s e)). Qed.

Lemma Dispatches_add s e t :
  Dispatches (add s e) t = Dispatches s t \/
  exists v, e = EDispatch v /\ Dispatches (add s e) t = Dispatches s t ++ [v].
Proof.
  unfold Dispatches. simpl. destruct e as [| | | | | | | | | | | |v| | | |]; try by left. simpl.
  destruct (_ !! di_Target v) as [[it| | | | | | | | | | | | | | | |]|]; try by left.
  destruct (function_call it) as [[c a]|]; [|by left]. destruct (decide _); [|by left].
  destruct (decide (di_Target v = t)) as [->|]; [|left; by rewrite lookup_insert_ne].
  right. exists v. by rewrite lookup_insert_eq.
Qed.

(** A dispatch off the path stays off it, and off the path with the new entry. *)
Lemma dispatchedOff_add s e t P P' :
  (forall d, d ∈ Dispatches s t -> ID (di_Base d) ∈ ids P' -> ID (di_Base d) ∈ ids P) ->
  dispatchedOff s t (onPath P) = true -> dispatchedOff (add s e) t (onPath P') = true.
Proof.
  unfold dispatchedOff. rewrite !existsb_exists. intros Hd (d & Hin & Hoff). exists d. split.
  - apply list_elem_of_In. apply list_elem_of_In in Hin.
    destruct (Dispatches_add s e t) as [->|(v & _ & ->)]; set_solver.
  - unfold onPath in *. apply list_elem_of_In in Hin. bool_prop.
    apply negb_true_iff, bool_decide_eq_false. auto.
Qed.

(** The entry that joins a clean session: what is asked of it and its path. *)
Record joins s e : Prop := {
  jo_named : hash_named e;
  jo_fresh : eid e ∉ ids (s_entries s);
  jo_parent : eparent e = "" \/ eparent e ∈ ids (s_entries s);
  jo_good : good_path (path s (eparent e) ++ [e]);
  jo_call x : call_of e = Some x -> x <> "" /\ x ∉ s_callIDs s;
  jo_spawn x : spawn_of e = Some x -> x ∉ s_spawnIDs s;
  jo_copied : copied_ok (path s (eparent e) ++ [e]);
  jo_answers : answers_ok (add s e) (path s (eparent e) ++ [e])
}.

Lemma names_one_snoc f es e :
  names_one f es -> (forall x, f e = Some x -> x ∉ set_index f es) -> names_one f (es ++ [e]).
Proof.
  intros Hone Hf e1 e2 x. rewrite !elem_of_app !list_elem_of_singleton.
  intros [H1| ->] [H2| ->] Hx1 Hx2; [by apply (Hone e1 e2 x)|..|done].
  - exfalso. apply (Hf x Hx2), set_index_spec. eauto.
  - exfalso. apply (Hf x Hx1), set_index_spec. eauto.
Qed.

Lemma clean_add s e : clean s -> joins s e -> clean (add s e).
Proof.
  intros [Hs Hgood Hcalls Hnamed Hspawns Hcop Hdis Hans] [Hh Hn Hp Hg Hc Hsp Hco Ha].
  pose proof (so_wf _ Hs) as Hw. pose proof (ValidHash_goodID _ (named_valid _ Hh)) as Hgid.
  assert (forall id, path (add s e) id = path s id \/ path (add s e) id = path s (eparent e) ++ [e]) as Hpath.
  { intros id. destruct (decide (id = eid e)) as [->|Hne]; [right; by apply path_add_new|].
    destruct (decide (id = "" \/ id ∈ ids (s_entries s))) as [Hid|Hid]; [left; by apply path_add_old|].
    left. rewrite !path_unknown //; [naive_solver|by apply wf_add|].
    simpl. rewrite ids_app. set_solver. }
  split.
  - destruct Hs as [_ Hhash Hpre]. split.
    + by apply wf_add.
    + intros x. simpl. rewrite elem_of_app list_elem_of_singleton. intros [| ->]; auto.
    + intros id Hid. simpl. rewrite ids_app elem_of_app. left. by apply Hpre.
  - intros id. by destruct (Hpath id) as [->| ->].
  - apply names_one_snoc; [done|]. rewrite -(wf_callIDs _ Hw). intros x Hx. by apply Hc.
  - intros x. simpl. rewrite elem_of_app list_elem_of_singleton. intros [Hx| ->]; [by apply Hnamed|].
    intros Hx. by destruct (Hc _ Hx).
  - apply names_one_snoc; [done|]. by rewrite -(wf_spawnIDs _ Hw).
  - intros id. by destruct (Hpath id) as [->| ->].
  - intros t d. simpl. rewrite ids_app elem_of_app.
    destruct (Dispatches_add s e t) as [->|(v & -> & ->)]; [eauto|].
    rewrite elem_of_app list_elem_of_singleton. intros [| ->]; [eauto|right; set_solver].
  - intros id. destruct (Hpath id) as [->| ->]; [|done].
    intros t c Hct HA HD. rewrite promised_add => Hpr.
    eapply dispatchedOff_add; [|by eapply Hans]. auto.
Qed.

(** ** What the checks of an append give *)

Lemma call_is_copied s P t c :
  wf s -> (forall e, e ∈ P -> e ∈ s_entries s) -> NoDup (ids P) -> call_at P t = Some c -> Copied c = true ->
  c_CallID c ∈ s_copied s.
Proof.
  intros Hw HP Hnd Hc Hcop. destruct (call_at_entry _ _ _ Hnd Hc) as (Hin & _ & Hid).
  apply list_elem_of_omap in Hin as (e & Hin & He). destruct e; try done. injection He as ->.
  rewrite (wf_copied _ Hw). apply set_index_spec. eexists. split; [by apply HP|]. simpl.
  unfold Copied in Hcop. bool_prop. by rewrite decide_True.
Qed.

Lemma accept_copied s e :
  clean s -> (eparent e = "" \/ eparent e ∈ ids (s_entries s)) ->
  checkCallRules s e (eparent e) = Ok tt ->
  copied_ok (path s (eparent e) ++ [e]).
Proof.
  intros Hcl Hp Hok self Hself. pose proof (cl_good _ Hcl (eparent e)) as Hg. pose proof (gp_nodup _ Hg) as Hnd.
  pose proof (so_wf _ (cl_sound _ Hcl)) as Hw. set (P := path s (eparent e)) in *.
  assert (verifyCopied self P = Ok tt) as Hc by (apply (cl_copied _ Hcl); intros v cf Hv; apply Hself; set_solver).
  apply run_check_Ok in Hc as [[cp by_] Hacc]. apply run_check_Ok.
  rewrite check_lines_app Hacc /=. destruct (copied_state _ _ _ Hnd Hacc) as [Hv1 Hv2]. simpl in Hv1, Hv2.
  assert (forall x t c, targetCall s (eparent e) x t = Ok c -> Copied c = false ->
    refuse_if (default false (cp !! t)) ErrCopiedCall = Ok tt) as Hnc.
  { intros x t c Ht Hcf. apply targetCall_ok in Ht as [Hct _]; [|done]. fold P in Hct. by rewrite Hv1 Hct /= Hcf. }
  destruct e as [v| | | | | | | | | | | |v|v|v| |]; simpl in Hok |- *; eauto.
  - unfold checkItem in Hok. inv_ok.
    assert (copied_refs self v = Ok tt) as ->.
    { unfold copied_refs. rewrite H0. destruct (ie_CopiedFrom v) as [cf|] eqn:Hcf; [|done].
      rewrite bool_decide_eq_false_2 //. apply (Hself v); [set_solver|done]. }
    simpl. destruct (item_case (ie_Item v)) as [[x args|x| | | |]|] eqn:Hitem; eauto. inv_ok.
    assert (default false (by_ !! x) && negb (bool_decide (is_Some (ie_CopiedFrom v))) = false) as ->; [|eauto].
    destruct (by_ !! x) as [[]|] eqn:Hb; try done. simpl.
    rewrite Hv2 in Hb. unfold latest_copied in Hb. apply bind_Some in Hb as (t & Hl & Hb).
    apply fmap_Some in Hb as (c & Hct & Hcop). 
    assert (c_CallID c = x) as <-.
    { destruct (mi_latest _ (m_of_inv P Hnd) _ _ Hl) as (c' & Hc' & Hid). unfold call_at in Hct. congruence. }
    rewrite (bool_decide_eq_true_2 (c_CallID c ∈ s_copied s)) in H1; [by rewrite andb_true_r in H1|].
    eapply call_is_copied; [done| |done|done|done]. intros e' He'. by eapply path_entries.
  - unfold checkDispatch in Hok. apply rbind_Ok in Hok as (c & Ht & Hok). inv_ok. rewrite (Hnc _ _ _ Ht) //. eauto.
  - unfold checkDecision in Hok. apply rbind_Ok in Hok as (c & Ht & Hok).
    destruct (Copied c) eqn:Hcop; [done|]. rewrite (Hnc _ _ _ Ht) //. eauto.
  - unfold checkResult in Hok. apply rbind_Ok in Hok as (c & Ht & Hok).
    destruct (Copied c) eqn:Hcop; [done|]. rewrite (Hnc _ _ _ Ht) //. eauto.
Qed.

(** The accepted entry keeps the rule on answers: what gives a call its answer,
    and what comes after one, is checked. *)
Lemma decision_answers s v parent c :
  targetCall s parent (dc_CallID v) (dc_Target v) = Ok c -> checkDecision s v parent = Ok tt ->
  Answered (on_decision c v) = true -> c_Dispatch (on_decision c v) = None ->
  promised s (ID (ie_Base (c_Entry c))) = true ->
  dispatchedOff s (ID (ie_Base (c_Entry c))) (onPath (path s parent)) = true.
Proof.
  unfold checkDecision. intros -> Hok HA HD Hpr. cbn [rbind] in Hok.
  destruct (Copied c); [done|]. destruct (Returned c && _); [done|].
  destruct (Answered c) eqn:HAc; [done|]. destruct (Rejected c); [done|].
  assert (withdraws c v = true -> Answered (on_decision c v) = Answered c) as Hwd.
  { intros Hw. unfold on_decision. rewrite Hw. unfold on_withdrawal. by destruct (last _). }
  destruct (withdraws c v) eqn:Hw; [rewrite Hwd // HAc in HA; done|].
  assert (Answered (on_decision c v) = bool_decide (dc_Verdict v = VerdictAnswer)) as Ha.
  { unfold on_decision. rewrite Hw. unfold Answered, hasVerdict in *. simpl.
    by rewrite existsb_app HAc /= orb_false_r. }
  assert (c_Dispatch (on_decision c v) = c_Dispatch c) as Hd by (unfold on_decision; by rewrite Hw).
  rewrite Ha in HA. rewrite Hd in HD. rewrite HA in Hok.
  rewrite (bool_decide_eq_false_2 (dc_Verdict v = VerdictReject)) in Hok.
  2:{ bool_prop. rewrite HA. done. }
  rewrite andb_false_r /= in Hok. destruct (bool_decide (is_Some (c_Output c))); [done|]. inv_ok.
  rewrite (bool_decide_eq_true_2 _ HD) /= in Hok. unfold promised in Hpr. rewrite Hpr /= in Hok.
  by apply negb_false_iff in Hok.
Qed.

Lemma accept_answers s e :
  clean s -> eid e ∉ ids (s_entries s) -> (eparent e = "" \/ eparent e ∈ ids (s_entries s)) ->
  checkCallRules s e (eparent e) = Ok tt -> answers_ok (add s e) (path s (eparent e) ++ [e]).
Proof.
  intros Hcl Hn Hp Hok t c' Hc' HA HD. rewrite promised_add => Hpr.
  pose proof (cl_good _ Hcl (eparent e)) as Hg. pose proof (gp_nodup _ Hg) as Hnd.
  pose proof (so_wf _ (cl_sound _ Hcl)) as Hw. pose proof (cl_answers _ Hcl (eparent e)) as Hans.
  assert (good_path (path s (eparent e) ++ [e])) as Hg'.
  { apply accept_good; try done. intros Hin. apply Hn. apply list_elem_of_fmap in Hin as (x & -> & Hx).
    apply list_elem_of_fmap_2. by eapply path_entries. }
  apply (dispatchedOff_add s e t (path s (eparent e))).
  { intros d Hd. rewrite ids_app elem_of_app. intros [|Hin]; [done|]. exfalso. apply Hn.
    apply list_elem_of_singleton in Hin as <-. by eapply cl_dispatches. }
  destruct (consistent_snoc_inv _ _ (gp_consistent _ Hg')) as [_ Hab].
  destruct (call_at_snoc _ _ _ _ Hab Hc') as [Hc|[(v & x & args & _ & _ & _ & ->)|[(c & x & Hc & He & ->)|(c & v & x & _ & _ & _ & Hc & ->)]]].
  - by apply (Hans t c').
  - done.
  - pose proof (Hab _ _ He) as (c0 & Hc0 & Hid). rewrite Hc in Hc0. injection Hc0 as <-.
    assert (ID (ie_Base (c_Entry c)) = t) as Ht by by apply (call_at_entry _ _ _ Hnd Hc).
    assert (targetCall s (eparent e) x t = Ok c) as Htc.
    { rewrite targetCall_call_at // Hc. by rewrite decide_True. }
    destruct e as [| | | | | | | | | | | |v|v|v| |]; try done; simpl in He; injection He as <- <-; simpl in Hok, HA, HD.
    + pose proof Hok as Hok'. unfold checkDispatch in Hok'. rewrite Htc /= in Hok'. inv_ok.
      unfold Answered, hasVerdict in *. simpl in HA. congruence.
    + rewrite -Ht. eapply decision_answers; try done. by rewrite Ht.
    + unfold checkResult in Hok. rewrite Htc /= in Hok. destruct (Copied c); [done|].
      destruct (bool_decide _); [done|]. inv_ok. unfold Answered, hasVerdict in *. simpl in HA.
      bool_prop. congruence.
  - apply (Hans t c); [done|..|done].
    + revert HA. unfold output_fn. by destruct (Pending c).
    + revert HD. unfold output_fn. by destruct (Pending c).
Qed.

Lemma accepted_joins s e r :
  clean s -> accepted s e r -> res_Outcome r <> Held -> joins s e.
Proof.
  intros Hcl Ha Hn. pose proof (cl_sound _ Hcl) as Hs.
  destruct (accepted_fresh _ _ _ Hs Ha Hn) as (Hg & Hf & Hp). destruct Ha as [_ Hh _ _ Hr _].
  specialize (Hr Hn). split; try done.
  - by left.
  - apply accept_good; [apply Hs|apply Hcl| |done]. intros Hin. apply Hf.
    apply list_elem_of_fmap in Hin as (x & -> & Hx). apply list_elem_of_fmap_2. eapply path_entries; [apply Hs|done].
  - intros x Hx. destruct e as [v| | | | | | | | | | | | | | | |]; try done. simpl in Hx, Hr.
    unfold function_call in Hx. unfold checkItem in Hr. inv_ok.
    destruct (item_case (ie_Item v)) as [[y args|y| | | |]|]; try done. injection Hx as ->. inv_ok.
    by bool_prop.
  - intros x Hx. destruct e as [| | | | | | | | |l| | | | | | |]; try done. simpl in Hx, Hr.
    destruct (decide _) as [(H1 & H2 & H3)|]; [|done]. injection Hx as <-. unfold checkLink in Hr. inv_ok.
    rewrite (bool_decide_eq_true_2 _ H1) (bool_decide_eq_true_2 _ H2) (bool_decide_eq_true_2 _ H3) /= in Hr.
    by bool_prop.
  - by apply accept_copied.
  - by apply accept_answers.
Qed.

(** ** The operations *)

Lemma clean_New h : clean (New h).
Proof.
  assert (forall id, path (New h) id = []) as Hp.
  { intros id. unfold path. simpl. by destruct (decide (id = "")). }
  split; try (intros ? * ; set_solver).
  - apply sound_New.
  - intros id. rewrite Hp. apply good_nil.
  - intros id. by rewrite Hp.
  - intros id t c. rewrite Hp. unfold call_at, m_of. by rewrite /= lookup_empty.
Qed.

Lemma clean_set_leaf s l : clean s -> clean (set_leaf l s).
Proof.
  intros [H1 H2 H3 H4 H5 H6 H7 H8]. split; try done; try (intros id; rewrite path_set_leaf; try done).
  - by apply sound_set_leaf.
  - intros t c Hc. by apply (H8 id t c).
Qed.

Lemma clean_set_read s r : clean s -> clean (set_read r s).
Proof.
  assert (forall id, path (set_read r s) id = path s id) as Hp by (intros id; by apply path_ext).
  intros [H1 H2 H3 H4 H5 H6 H7 H8]. split; try done; try (intros id; rewrite Hp; try done).
  - destruct H1. split; [by apply wf_set_read|done..].
  - intros t c Hc. by apply (H8 id t c).
Qed.

Lemma clean_moveLeafFor s e : clean s -> clean (moveLeafFor s e).
Proof. intros Hs. unfold moveLeafFor. repeat case_match; try done; by apply clean_set_leaf. Qed.

Lemma clean_Commit s now e s' e' r : clean s -> Commit s now e = (s', e', r) -> clean s'.
Proof.
  intros Hc. unfold Commit. destruct (validateEntry (Some e)); [|by intros [= <- <- <-]].
  destruct (prepare s now e) as [e1 [r1|]] eqn:Hp; [|by intros [= <- <- <-]].
  apply prepare_accepted in Hp; [|apply Hc]. destruct (decide _) as [|Ho]; [by intros [= <- <- <-]|].
  intros [= <- <- <-]. apply clean_moveLeafFor, clean_add; [done|]. by eapply accepted_joins.
Qed.

Lemma clean_Extend s now e s' e' r : clean s -> Extend s now e = (s', e', r) -> clean s'.
Proof.
  intros Hc. unfold Extend. destruct (validateEntry (Some e)); [|by intros [= <- <- <-]].
  destruct (prepare s now _) as [e1 [r1|]] eqn:Hp; [|by intros [= <- <- <-]].
  apply prepare_accepted in Hp; [|apply Hc]. destruct (decide _) as [|Ho]; [by intros [= <- <- <-]|].
  intros [= <- <- <-]. apply clean_set_leaf, clean_set_read, clean_add; [done|]. by eapply accepted_joins.
Qed.

Lemma clean_Append s now e s' e' r : clean s -> Append s now e = (s', e', r) -> clean s'.
Proof.
  intros Hc. unfold Append. destruct (checkNew s (Some e)); [|by intros [= <- <- <-]].
  destruct (Commit s now e) as [[s1 e1] r1] eqn:Hcm. intros [= <- <- _]. by eapply clean_Commit.
Qed.

(** ** [VerifyRecords] *)

Lemma check_all_Err {A} (f : A -> result unit) l err :
  check_all f l = Err err -> exists x, x ∈ l /\ f x = Err err.
Proof.
  induction l as [|x l IH]; [done|]. simpl. destruct (f x) as [[]|] eqn:Hx; simpl.
  - intros H. destruct (IH H) as (y & ? & ?). exists y. split; [set_solver|done].
  - intros [= <-]. exists x. split; [set_solver|done].
Qed.

Lemma Calls_call_at P c :
  NoDup (ids P) -> c ∈ Calls P -> call_at P (ID (ie_Base (c_Entry c))) = Some c.
Proof.
  intros Hnd Hin. apply list_elem_of_lookup in Hin as [i Hi]. destruct (repr_M P Hnd) as [_ Hout Hcalls _ _].
  unfold call_at. rewrite Hcalls. pose proof (Hout _ _ Hi) as Hb. unfold entry_of in Hb. by rewrite Hb.
Qed.

Lemma verifyCall_clean s leaf c err :
  clean s -> c ∈ Calls (path s leaf) -> verifyCall s (onPath (path s leaf)) c = Err err ->
  err = ErrRecordMissing.
Proof.
  intros Hcl Hin. pose proof (cl_good _ Hcl leaf) as Hg.
  apply Calls_call_at in Hin; [|apply Hg]. unfold verifyCall. destruct (Copied c); [done|].
  rewrite (gp_clean _ Hg _ _ Hin) /=.
  destruct (Answered c && _ && _ && _) eqn:Hans; simpl.
  - bool_prop. rewrite (cl_answers _ Hcl leaf _ c) // in H0.
  - destruct (match c_Output c with Some _ => _ | None => false end); simpl; congruence.
Qed.

Lemma refuse_if_Err b err err' : refuse_if b err = Err err' -> err' = err.
Proof. destruct b; simpl; congruence. Qed.

Lemma Run_Verify_Err r err : Run_Verify r = Err err -> err = ErrReasonMismatch.
Proof.
  unfold Run_Verify. destruct (r_End r); [|done].
  destruct (refuse_if _ _) eqn:H; simpl; [|intros [= <-]]; intros; by eapply refuse_if_Err.
Qed.

Lemma run_check_Err {A} (step : A -> Entry -> result A) acc l err errs :
  (forall acc e err, step acc e = Err err -> err ∈ errs) -> run_check step acc l = Err err -> err ∈ (errs : list error).
Proof.
  intros Hstep. unfold run_check. revert acc. induction l as [|e l IH]; intros acc; [done|]. simpl.
  destruct (step acc e) eqn:He; simpl; [apply IH|]. intros [= <-]. by eapply Hstep.
Qed.

Lemma verifyCallees_Err P err : verifyCallees P = Err err -> err ∈ [ErrCalleeLink].
Proof.
  apply run_check_Err. intros seen e err'. destruct e; try done. simpl.
  destruct (callee _); [|done]. destruct (checkCallee _ _) eqn:Hc; simpl; [done|]. intros [= <-].
  apply list_elem_of_singleton. unfold checkCallee in Hc. destruct (decide _).
  - destruct (seen !! _); [by eapply refuse_if_Err|congruence].
  - by eapply refuse_if_Err.
Qed.

Lemma verifyFromLinks_Err P err : verifyFromLinks P = Err err -> err ∈ [ErrBadFromLink].
Proof.
  apply run_check_Err. intros seen e err'. destruct e; try done. simpl.
  destruct (refuse_if _ _) eqn:Hc; simpl; [done|]. intros [= <-].
  apply list_elem_of_singleton. by eapply refuse_if_Err.
Qed.

Lemma verifyDrains_Err P err : verifyDrains P = Err err -> err ∈ [ErrDrainMismatch].
Proof.
  apply run_check_Err. intros seen e err'. destruct e; try done. simpl. destruct (seen !! _); [|done].
  destruct (refuse_if _ _) eqn:Hc; simpl; [done|]. intros [= <-].
  apply list_elem_of_singleton. by eapply refuse_if_Err.
Qed.

Lemma verifyRun_Err r err : verifyRun r = Err err -> err ∈ [ErrReasonMismatch; ErrSourceMismatch].
Proof.
  unfold verifyRun. destruct (Run_Verify r) eqn:Hr; simpl.
  - intros H. apply refuse_if_Err in H as ->. set_solver.
  - intros [= <-]. apply Run_Verify_Err in Hr as ->. set_solver.
Qed.

(** Of a session some of them are from, that is what is reported. *)
Lemma verifyCopied_Err self P err :
  copied_ok P -> verifyCopied self P = Err err -> err = ErrBadCopiedFrom /\ ~ copies_none self P.
Proof.
  intros Hok Herr. split; [|intros Hn; by rewrite Hok in Herr].
  assert (exists other, copies_none other P) as [other Hother].
  { set (froms := list_to_set (omap (fun e => match e with EItem v => cf_Session <$> ie_CopiedFrom v | _ => None end) P) : gset string).
    exists (fresh froms). intros v cf Hv Hcf Heq. apply (is_fresh froms). rewrite -Heq.
    apply elem_of_list_to_set, list_elem_of_omap. exists (EItem v). split; [done|]. by rewrite Hcf. }
  specialize (Hok other Hother). apply run_check_Ok in Hok as [acc Hacc]. clear Hother.
  unfold verifyCopied, run_check in Herr. revert Hacc Herr. generalize (∅ : gmap string bool, ∅ : gmap string bool) as st.
  induction P as [|e P IH]; [done|]. intros st. cbn [check_lines].
  destruct (verifyCopied_step other st e) as [st'|] eqn:He; [|done]. cbn [rbind]. intros Hacc Herr.
  assert (verifyCopied_step self st e = Ok st' \/ verifyCopied_step self st e = Err ErrBadCopiedFrom) as [Hs|Hs].
  { destruct st as [cp by_], e as [v| | | | | | | | | | | | | | | |]; try by left. cbn in He |- *.
    destruct (copied_refs other v) as [[]|] eqn:Ho; [|done]. cbn [rbind] in He.
    unfold copied_refs in Ho |- *. apply rbind_Ok in Ho as ([] & _ & ->).
    destruct (match ie_CopiedFrom v with Some cf => bool_decide (cf_Session cf = self) | None => false end); [by right|by left]. }
  - rewrite Hs in Herr. by eapply IH.
  - rewrite Hs in Herr. by injection Herr as <-.
Qed.

Lemma copies_some self P :
  ~ copies_none self P -> exists v cf, EItem v ∈ P /\ ie_CopiedFrom v = Some cf /\ cf_Session cf = self.
Proof.
  induction P as [|e P IH]; intros Hn; [exfalso; apply Hn; intros ? ?; set_solver|].
  assert ((exists v cf, e = EItem v /\ ie_CopiedFrom v = Some cf /\ cf_Session cf = self) \/
    forall v cf, e = EItem v -> ie_CopiedFrom v = Some cf -> cf_Session cf <> self) as [(v & cf & -> & ? & ?)|He].
  { destruct e as [v| | | | | | | | | | | | | | | |]; try by right.
    destruct (ie_CopiedFrom v) as [cf|] eqn:Hcf; [|right; naive_solver].
    destruct (decide (cf_Session cf = self)); [left; naive_solver|right; naive_solver]. }
  - exists v, cf. set_solver.
  - destruct IH as (v & cf & ? & ?); [|exists v, cf; set_solver]. intros HP. apply Hn. intros v cf.
    rewrite elem_of_cons. intros [Hv|Hv]; [by apply He|by apply HP].
Qed.

(** What [VerifyRecords] may still report of a clean session. *)
Definition unchecked : list error :=
  [ErrSpawnLink; ErrCalleeLink; ErrBadFromLink; ErrDrainMismatch; ErrReasonMismatch; ErrSourceMismatch;
   ErrRecordMissing].

Lemma VerifyRecords_clean s leaf err :
  clean s -> path s leaf <> [] -> VerifyRecords s leaf = Err err ->
  err ∈ unchecked \/ err = ErrBadCopiedFrom /\ ~ copies_none (h_ID (s_header s)) (path s leaf).
Proof.
  intros Hcl Hne. unfold VerifyRecords. rewrite bool_decide_eq_false_2 //=.
  pose proof (cl_good _ Hcl leaf) as Hg. pose proof (tree_NoDup _ (wf_tree _ (so_wf _ (cl_sound _ Hcl)))) as Hnd.
  unfold verifyCallIDs, run_check at 1. rewrite callIDs_ok //=; [|apply Hcl|apply Hcl].
  unfold verifySpawnIDs, run_check at 1.
  destruct (spawnIDs_ok _ Hnd (cl_spawns _ Hcl)) as [->| ->]; simpl; [|intros [= <-]; left; set_solver].
  destruct (targets_ok _ (gp_nodup _ Hg) (gp_consistent _ Hg)) as (m & Hm & _).
  unfold verifyTargets, run_check at 1. rewrite Hm /=.
  destruct (verifyCallees _) as [[]|] eqn:H1; simpl; [|intros [= <-]; apply verifyCallees_Err in H1; left; set_solver].
  destruct (verifyFromLinks _) as [[]|] eqn:H2; simpl; [|intros [= <-]; apply verifyFromLinks_Err in H2; left; set_solver].
  destruct (verifyCopied _ _) as [[]|] eqn:Hcop; simpl; [|intros [= <-]; right; by eapply verifyCopied_Err; [apply Hcl|]].
  destruct (verifyDrains _) as [[]|] eqn:H3; simpl; [|intros [= <-]; apply verifyDrains_Err in H3; left; set_solver].
  destruct (check_all verifyRun _) as [[]|] eqn:H4; simpl.
  - intros H. apply check_all_Err in H as (c & Hin & Hc). apply verifyCall_clean in Hc; [|done..]. subst. left. set_solver.
  - intros [= <-]. apply check_all_Err in H4 as (r & _ & Hr). apply verifyRun_Err in Hr. left. set_solver.
Qed.

End WrittenSound.
