(* ===== verification/Forks.v ===== *)
(** * Forks ([session.go])

    A fork opens with its origin's path to the base, and is a session whose
    records are as clean as its origin's; and [written], the sessions this
    library's operations grow, with what [VerifyRecords] can report of them. *)
From S2P Require Import Prelude Entry Header Tree Leaf TreeWf LeafLemmas LeafRefine Calls CallRules.
From S2P Require Import CallLemmas CallSound Runs Verify Omit Digest Settings Context Hash Session.
From S2P Require Import SessionProps Written WrittenSound.
Open Scope session_scope.

Section Forks.
Context {OR : OpenResponses} {IC : ItemContent} {ND : NameDecoding} {CA : Canonicaliser} {SH : SHA256}
  {JT : JSONTools} {EC : EntryCodec} {ECL : EntryCodecLaws} {TE : TriggerEncoding}.
Implicit Types (s : Session) (e : Entry) (c : Call) (P : list Entry).

(** Widening the prefix within the entries. *)
Lemma clean_set_prefix s (p : gset string) :
  clean s -> s_prefix s ⊆ p -> (forall id, id ∈ p -> id ∈ ids (s_entries s)) -> clean (set_prefix p s).
Proof.
  intros [H1 H2 H3 H4 H5 H6 H7 H8] Hsub Hp.
  assert (forall id, path (set_prefix p s) id = path s id) as Hpath by (intros id; by apply path_ext).
  split; try done; try (intros id; rewrite Hpath; try done).
  - destruct H1. split; [by apply wf_set_prefix|done..].
  - intros t c Hc HA HD Hpr. apply (H8 id t c); try done. unfold promised in *. simpl in Hpr. bool_prop.
    rewrite H. simpl. apply negb_true_iff, bool_decide_eq_false. set_solver.
Qed.

Lemma path_last s e : wf s -> e ∈ s_entries s -> last (path s (eid e)) = Some e.
Proof. intros Hw He. by rewrite path_step // last_snoc. Qed.

Lemma path_nonempty s id : wf s -> id ∈ ids (s_entries s) -> exists e, e ∈ s_entries s /\ eid e = id.
Proof. intros Hw Hid. apply list_elem_of_fmap in Hid as (e & -> & He). eauto. Qed.

(** ** Adopting a prefix *)

(** What the loop of [Fork] has built once it has taken the path to [id]. *)
Record adopted (origin s0 s : Session) (id : string) : Prop := {
  ad_entries : s_entries s = path origin id;
  ad_path e : e ∈ path origin id -> path s (eid e) = path origin (eid e);
  ad_prefix x : x ∈ s_prefix s <-> x ∈ ids (path origin id);
  ad_header : h_ID (s_header s) = h_ID (s_header s0) /\ h_Base (s_header s) = h_Base (s_header s0);
  ad_clean : clean s
}.

Lemma adopt_joins origin s0 s e :
  clean origin -> e ∈ s_entries origin -> adopted origin s0 s (eparent e) ->
  joins s e /\ path s (eparent e) = path origin (eparent e) /\
  (eparent e = "" \/ eparent e ∈ ids (s_entries s)).
Proof.
  intros Ho He [Hent Hpath Hpre _ Hcl]. pose proof (so_wf _ (cl_sound _ Ho)) as Hw.
  pose proof (path_step origin e Hw He) as Hstep. pose proof (cl_good _ Ho (eid e)) as Hg. rewrite Hstep in Hg.
  assert (eid e ∉ ids (path origin (eparent e))) as Hn.
  { pose proof (gp_nodup _ Hg) as Hnd. rewrite ids_app in Hnd. apply NoDup_app in Hnd as (_ & Hd & _).
    intros Hin. apply (Hd _ Hin). set_solver. }
  assert ((eparent e = "" \/ eparent e ∈ ids (s_entries s)) /\ path s (eparent e) = path origin (eparent e))
    as [Hp Hpp].
  { destruct (tree_parent _ _ (wf_tree _ Hw) He) as [Hp|Hp]; [rewrite Hp; auto|].
    apply list_elem_of_fmap in Hp as (x & Hx & Hin). rewrite Hx in Hent Hpath *.
    assert (x ∈ path origin (eid x)) as Hxp by (rewrite path_step //; set_solver).
    split; [right; rewrite Hent; by apply list_elem_of_fmap_2|by apply Hpath]. }
  assert (forall x, x ∈ path origin (eparent e) ++ [e] -> x ∈ s_entries origin) as Hsub.
  { intros x. rewrite -Hstep. by apply path_entries. }
  split; [|done]. split; rewrite ?Hpp ?Hent.
  - by apply (so_named _ (cl_sound _ Ho)).
  - done.
  - by rewrite -Hent.
  - done.
  - intros x Hx. split; [intros ->; by apply (cl_named _ Ho e)|].
    rewrite (wf_callIDs _ (so_wf _ (cl_sound _ Hcl))) Hent. eapply names_one_fresh; [apply (gp_nodup _ Hg)| |done].
    intros e1 e2 y H1 H2. apply (cl_calls _ Ho); auto.
  - intros x Hx. rewrite (wf_spawnIDs _ (so_wf _ (cl_sound _ Hcl))) Hent.
    eapply names_one_fresh; [apply (gp_nodup _ Hg)| |done].
    intros e1 e2 y H1 H2. apply (cl_spawns _ Ho); auto.
  - rewrite -Hstep. apply (cl_copied _ Ho).
  - intros t c Hc HA _. rewrite promised_add => Hpr. exfalso.
    destruct (decide (t ∈ ids (path origin (eparent e)))) as [Ht|Ht].
    + unfold promised in Hpr. rewrite (bool_decide_eq_true_2 (t ∈ s_prefix s)) ?andb_false_r // in Hpr.
      by apply Hpre.
    + assert (call_at (path origin (eparent e)) t = None) as Hnone.
      { unfold call_at. destruct (m_calls _ !! t) eqn:Hm; [|done]. exfalso. apply Ht, m_dom. by rewrite Hm. }
      destruct (consistent_snoc_inv _ _ (gp_consistent _ Hg)) as [_ Hab].
      destruct (call_at_snoc _ _ _ _ Hab Hc) as [Hc'|[(v & x & args & _ & _ & _ & ->)|[(c0 & x & Hc' & _)|(c0 & v & x & _ & _ & _ & Hc' & _)]]];
        try done; congruence.
Qed.

Lemma adopt_step origin s0 s e :
  clean origin -> e ∈ s_entries origin -> adopted origin s0 s (eparent e) ->
  adopted origin s0 (adopt s e) (eid e).
Proof.
  intros Ho He Had. destruct (adopt_joins _ _ _ _ Ho He Had) as (Hj & Hpp & Hp).
  destruct Had as [Hent Hpath Hpre [HID HB] Hcl]. pose proof (so_wf _ (cl_sound _ Ho)) as Hw.
  pose proof (path_step origin e Hw He) as Hstep. pose proof (clean_add _ _ Hcl Hj) as Hadd.
  pose proof (so_wf _ (cl_sound _ Hcl)) as Hws.
  assert (forall x, path (adopt s e) x = path (add s e) x) as Hpa by (intros x; by apply path_ext).
  split.
  - by rewrite /= Hent Hstep.
  - intros x. rewrite Hpa Hstep elem_of_app list_elem_of_singleton. intros [Hx| ->].
    + rewrite path_add_old //; [by apply Hpath|apply Hj|]. right. rewrite Hent. by apply list_elem_of_fmap_2.
    + rewrite path_add_new //; [by rewrite Hpp Hstep|apply ValidHash_goodID, named_valid, Hj|apply Hj].
  - intros x. rewrite /= Hstep ids_app !elem_of_app elem_of_union Hpre. set_solver.
  - unfold adopt. cbn [s_header set_prefix]. by rewrite (proj1 (header_add s e)) h_Base_add.
  - apply clean_set_prefix; [done|set_solver|]. intros x. simpl. rewrite ids_app elem_of_union elem_of_app Hent Hpre.
    set_solver.
Qed.

Lemma adopt_path origin s0 id :
  clean origin -> s_entries s0 = [] -> clean s0 -> s_prefix s0 = ∅ ->
  id = "" \/ id ∈ ids (s_entries origin) ->
  adopted origin s0 (foldl adopt s0 (path origin id)) id.
Proof.
  intros Ho He0 Hc0 Hp0 Hid. pose proof (so_wf _ (cl_sound _ Ho)) as Hw.
  assert (exists rev, chain origin id rev) as [rev Hch].
  { destruct Hid as [->|Hid]; [exists []; constructor|]. destruct (wf_chain _ _ Hw Hid) as (rev & ? & _). eauto. }
  clear Hid. induction Hch as [|e rev Hne He Hch IH].
  - rewrite path_nil. split; simpl; rewrite ?path_nil //; set_solver.
  - apply (wf_lookup origin) in He as [He _]; [|done].
    rewrite (path_step origin e) // foldl_app /=. by apply adopt_step.
Qed.

(** The header a fork is made under. *)
Definition forked_header payload id now origin at_ h : Header :=
  fill payload id now (fork_header (s_header origin) at_ h).

Lemma Fork_adopted payload id now origin at_ h s :
  clean origin -> Fork payload id now origin at_ h = Ok s ->
  exists s1, s = set_leaf at_ s1 /\ adopted origin (New (forked_header payload id now origin at_ h)) s1 at_ /\
             at_ ∈ ids (s_entries origin) /\
             match last (path origin at_) with Some e => entry_is_leaf_label e = false | None => False end.
Proof.
  intros Ho. unfold Fork. fold (forked_header payload id now origin at_ h). intros H. inv_ok.
  assert (at_ ∈ ids (s_entries origin)) as Hat.
  { destruct (decide (at_ ∈ ids (s_entries origin))) as [|Hn]; [done|].
    apply path_unknown in Hn; [|apply Ho]. by apply bool_decide_eq_false in H0. }
  eexists. split; [done|]. split_and!; [|done|].
  - apply adopt_path; try done; [apply clean_New|by right].
  - apply list_elem_of_fmap in Hat as (e & -> & He). rewrite path_last in H1 |- *; [done|apply Ho|done..].
Qed.

(** ** The sessions this library's operations make *)

(** Reading apart: from [New], by every operation that adds an entry, moves the
    leaf, raises the header or forks; the head compare-and-swap of a session in
    memory, which may add an entry twice, is left out. *)
Inductive written : Session -> Prop :=
  | w_New h : written (New h)
  | w_Append s now e s' e' r : written s -> Append s now e = (s', e', r) -> written s'
  | w_Commit s now e s' e' r : written s -> Commit s now e = (s', e', r) -> written s'
  | w_Extend s now e s' e' r : written s -> Extend s now e = (s', e', r) -> written s'
  | w_Branch s id s' : written s -> Branch s id = Ok s' -> written s'
  | w_ResetLeaf s : written s -> written (ResetLeaf s)
  | w_LeafMarkNeeded s : written s -> written (LeafMarkNeeded s).1
  | w_LeafMarkBefore s e : written s -> written (LeafMarkBefore s e).1
  | w_raiseHeader s f s' : written s -> raiseHeader s f = Ok s' -> written s'
  | w_Fork payload id now origin at_ h s :
      written origin -> Fork payload id now origin at_ h = Ok s -> written s.

Lemma clean_raiseHeader s f s' : clean s -> raiseHeader s f = Ok s' -> clean s'.
Proof.
  intros [H1 H2 H3 H4 H5 H6 H7 H8]. unfold raiseHeader.
  destruct (ParseFormat (h_Format _)) as [[? ?]|], (ParseFormat f) as [[? ?]|]; try (by intros [= <-]).
  destruct (decide _); [by intros [= <-]|]. intros H. inv_ok. unfold Raise in *. inv_ok.
  assert (forall id, path (set_header (set_Format f (s_header s)) s) id = path s id) as Hp
    by (intros id; by apply path_ext).
  split; try done; try (intros id; rewrite Hp; try done).
  - destruct H1. split; [by apply wf_set_header|done..].
  - intros t c Hc. by apply (H8 id t c).
Qed.

Lemma written_clean s : written s -> clean s.
Proof.
  induction 1 as [| | | | | |s _ IH|s e _ IH| |payload id now origin at_ h s Ho IH HF].
  - apply clean_New.
  - by eapply clean_Append.
  - by eapply clean_Commit.
  - by eapply clean_Extend.
  - unfold Branch in *. inv_ok. by apply clean_set_leaf.
  - by apply clean_set_leaf.
  - unfold LeafMarkNeeded. destruct (last _); [|done]. destruct (mayRestOn _ _); [|done]. by apply clean_set_read.
  - unfold LeafMarkBefore. repeat (destruct (decide _) || destruct (entry_is_leaf_label _)
      || destruct (meets_leaf _ _ _)); try done.
    destruct (s_entries s); [done|]. by apply clean_set_read.
  - by eapply clean_raiseHeader.
  - apply Fork_adopted in HF as (s1 & -> & Had & _); [|done..]. by apply clean_set_leaf, Had.
Qed.

(** What an operation that took an entry left of the session. *)
Definition grows s s' : Prop :=
  s_entries s' = s_entries s /\ h_Base (s_header s') = h_Base (s_header s) /\ s_prefix s' = s_prefix s /\
    h_ID (s_header s') = h_ID (s_header s) \/
  exists e, checkParentRule s (eparent e) = Ok tt /\ checkCallRules s e (eparent e) = Ok tt /\ built e /\
            s_entries s' = s_entries (add s e) /\ h_Base (s_header s') = h_Base (s_header (add s e)) /\
            s_prefix s' = s_prefix s /\ h_ID (s_header s') = h_ID (s_header s).

Lemma grows_prefix s s' : grows s s' -> (h_Base (s_header s) = "" -> s_prefix s = ∅) ->
  h_Base (s_header s') = "" -> s_prefix s' = ∅.
Proof. intros [(_ & Hb & Hp & _)|(e & _ & _ & _ & _ & Hb & Hp & _)] H; rewrite Hb Hp ?h_Base_add; done. Qed.

Lemma grows_refl s : grows s s.
Proof. by left. Qed.

Lemma moveLeafFor_same s e :
  s_header (moveLeafFor s e) = s_header s /\ s_prefix (moveLeafFor s e) = s_prefix s.
Proof. unfold moveLeafFor. repeat case_match; done. Qed.

Lemma added_grows s e r s' :
  accepted s e r -> res_Outcome r <> Held -> s_entries s' = s_entries (add s e) ->
  s_header s' = s_header (add s e) -> s_prefix s' = s_prefix s -> grows s s'.
Proof.
  intros [_ Hb Hp _ Hr _] Ho He Hh Hpre. right. exists e. rewrite Hh (proj1 (header_add s e)). split_and!; auto.
Qed.

Lemma Commit_grows s now e s' e' r : sound s -> Commit s now e = (s', e', r) -> grows s s'.
Proof.
  intros Hs. unfold Commit. destruct (validateEntry _); [|intros [= <- <- <-]; apply grows_refl].
  destruct (prepare s now e) as [e1 [r1|]] eqn:Hp; [|intros [= <- <- <-]; apply grows_refl].
  apply prepare_accepted in Hp; [|done]. destruct (decide _); [intros [= <- <- <-]; apply grows_refl|].
  intros [= <- <- <-]. destruct (moveLeafFor_same (add s e1) e1) as [Hh Hpre].
  by eapply added_grows; [exact Hp| |rewrite entries_moveLeafFor| |rewrite Hpre].
Qed.

Lemma Extend_grows s now e s' e' r : sound s -> Extend s now e = (s', e', r) -> grows s s'.
Proof.
  intros Hs. unfold Extend. destruct (validateEntry _); [|intros [= <- <- <-]; apply grows_refl].
  destruct (prepare s now _) as [e1 [r1|]] eqn:Hp; [|intros [= <- <- <-]; apply grows_refl].
  apply prepare_accepted in Hp; [|done]. destruct (decide _); [intros [= <- <- <-]; apply grows_refl|].
  intros [= <- <- <-]. by eapply added_grows; [exact Hp|..].
Qed.

Lemma raiseHeader_grows s f s' : raiseHeader s f = Ok s' -> grows s s'.
Proof.
  unfold raiseHeader.
  destruct (ParseFormat (h_Format _)) as [[? ?]|], (ParseFormat f) as [[? ?]|]; try (intros [= <-]; apply grows_refl).
  destruct (decide _); [intros [= <-]; apply grows_refl|]. intros H. inv_ok. unfold Raise in *. inv_ok. by left.
Qed.

(** Induction over the operations: what a session begins with, what an
    operation on it keeps, and what a fork takes over. *)
Lemma written_grows (Q : Session -> Prop) :
  (forall h, Q (New h)) -> (forall s s', written s -> grows s s' -> Q s -> Q s') ->
  (forall origin s at_, written origin -> s_entries s = path origin at_ ->
     h_Base (s_header s) = at_ -> (forall x, x ∈ s_prefix s <-> x ∈ ids (path origin at_)) ->
     at_ ∈ ids (s_entries origin) -> (forall e, e ∈ path origin at_ -> e ∈ s_entries origin) -> Q origin -> Q s) ->
  forall s, written s -> Q s.
Proof.
  intros HN HG HF s. induction 1 as [h|s now e s' e' r Hw IH HA|s now e s' e' r Hw IH HA|s now e s' e' r Hw IH HA|s id s' Hw IH HA
    |s Hw IH|s Hw IH|s e Hw IH|s f s' Hw IH HA|payload id now origin at_ h s Ho IH HFk];
    try pose proof (cl_sound _ (written_clean _ Hw)) as Hs; [by apply HN|apply (HG s); try done..|].
  - unfold Append in HA. destruct (checkNew _ _); [|injection HA as <- <- <-; apply grows_refl].
    destruct (Commit s now e) as [[s1 e1] r1] eqn:Hcm. injection HA as <- <- _. by eapply Commit_grows.
  - by eapply Commit_grows.
  - by eapply Extend_grows.
  - unfold Branch in HA. inv_ok. by left.
  - by left.
  - unfold LeafMarkNeeded. destruct (last _); [|apply grows_refl]. destruct (mayRestOn _ _); by left.
  - unfold LeafMarkBefore. repeat (destruct (decide _) || destruct (entry_is_leaf_label _)
      || destruct (meets_leaf _ _ _)); try apply grows_refl. destruct (s_entries s); by left.
  - by eapply raiseHeader_grows.
  - pose proof (written_clean _ Ho) as Hclo. pose proof (so_wf _ (cl_sound _ Hclo)) as Hwo.
    apply Fork_adopted in HFk as (s1 & -> & [Hent _ Hpre [_ HB] _] & Hat & _); [|done..].
    apply (HF origin _ at_); try done. intros e. by apply path_entries.
Qed.

(** An item copied from the session itself is one the session began with, as a
    fork: an append refuses such an item, and [Fork] does not look. *)
Definition own_copies s : Prop :=
  forall v cf, EItem v ∈ s_entries s -> ie_CopiedFrom v = Some cf -> cf_Session cf = h_ID (s_header s) ->
    eid (EItem v) ∈ s_prefix s.

(** Every entry was built by a writer. *)
Definition all_built s : Prop := forall e, e ∈ s_entries s -> built e.

Lemma grows_own s s' : grows s s' -> own_copies s -> own_copies s'.
Proof.
  intros [(He & _ & Hp & HID)|(e & _ & Hrules & _ & He & _ & Hp & HID)] Hown v cf; rewrite He Hp HID; [apply Hown|].
  cbn [s_entries add]. rewrite elem_of_app list_elem_of_singleton. intros [Hv|<-]; [by apply Hown|]. intros Hcf Hid.
  exfalso. cbn in Hrules. unfold checkItem in Hrules. inv_ok. rewrite Hcf in H. by bool_prop.
Qed.

Lemma grows_built s s' : grows s s' -> all_built s -> all_built s'.
Proof.
  intros [(He & _)|(e & _ & _ & Hb & He & _)] Hall x; rewrite He; [apply Hall|].
  cbn [s_entries add]. rewrite elem_of_app list_elem_of_singleton. intros [Hx| ->]; [by apply Hall|done].
Qed.

Lemma written_grown s : written s -> own_copies s /\ all_built s.
Proof.
  apply (written_grows (fun s => own_copies s /\ all_built s)).
  - intros h. split; intros ?; set_solver.
  - intros s0 s' _ Hg [Ho Hb]. split; [by eapply grows_own|by eapply grows_built].
  - intros origin s' at_ _ Hent _ Hpre _ Hsub [_ Hb]. split.
    + intros v cf Hv _ _. apply Hpre. rewrite -Hent. by apply (list_elem_of_fmap_2 eid).
    + intros e He. apply Hb, Hsub. by rewrite -Hent.
Qed.

(** C1: The records of a session this library wrote verify, on the path to
    any leaf, save for the rules no append checks: whatever was appended,
    extended, branched and forked, in whatever order, no call ID is empty or
    repeated, no decision or dispatch names a call not before it on its path,
    nothing answers, rejects, dispatches or returns a call that may no longer
    be, an answer without a dispatch is of a call never handed off, and no
    copied call is acted on.  What is left is a link's form, a drained item's,
    a run's reason and source, a dispatch record the header promised, and, of a
    fork made under the ID of a session an item it begins with was copied from,
    that copy: no item appended to a session is copied from it. *)
Theorem written_verifies s leaf err :
  written s -> path s leaf <> [] -> VerifyRecords s leaf = Err err ->
  err ∈ [ErrSpawnLink; ErrCalleeLink; ErrBadFromLink; ErrDrainMismatch; ErrReasonMismatch;
         ErrSourceMismatch; ErrRecordMissing] \/
  err = ErrBadCopiedFrom /\ exists v cf, EItem v ∈ path s leaf /\ ie_CopiedFrom v = Some cf /\
    cf_Session cf = h_ID (s_header s) /\ eid (EItem v) ∈ s_prefix s.
Proof.
  intros Hw Hne Herr. pose proof (written_clean _ Hw) as Hcl.
  destruct (VerifyRecords_clean _ _ _ Hcl Hne Herr) as [|[-> Hc]]; [by left|right]. split; [done|].
  destruct (copies_some _ _ Hc) as (v & cf & Hv & Hcf & Hid). exists v, cf. split_and!; [done..|].
  eapply (written_grown s Hw); [|done..]. eapply path_entries; [apply Hcl|done].
Qed.

(** C4: A session this library wrote is a tree whose every entry is named by
    its hash, what the format says of the type, parent, parents, timestamp and
    content hash of the line the encoder gives for it, and found by it; it is
    among its parent's children and ends the path to it, on which no id repeats,
    as none does among the entries. *)
Theorem written_tree s e :
  written s -> e ∈ s_entries s ->
  built e /\ s_byID s !! eid e = Some e /\
  path s (eid e) = path s (eparent e) ++ [e] /\ NoDup (ids (path s (eid e))) /\
  eid e ∈ Children s (eparent e) /\ NoDup (ids (s_entries s)).
Proof.
  intros Hwr He. apply written_clean in Hwr as Hcl. pose proof (cl_sound _ Hcl) as Hs.
  pose proof (so_wf _ Hs) as Hw. split_and!.
  - by apply (written_grown s Hwr).
  - by apply wf_lookup.
  - by apply path_step.
  - by apply (cl_good _ Hcl).
  - rewrite Children_spec //. apply list_elem_of_fmap_2, list_elem_of_filter. done.
  - by apply tree_NoDup, wf_tree.
Qed.

(** C5: A fork holds exactly its origin's path to the base, each entry with
    the path it has there; its leaf is the base, on which it may rest, and the
    base is the one parent it admits before it appends an entry of its own. *)
Theorem Fork_spec payload id now origin at_ h s :
  written origin -> Fork payload id now origin at_ h = Ok s ->
  s_entries s = path origin at_ /\
  (forall e, e ∈ path origin at_ -> path s (eid e) = path origin (eid e)) /\
  s_leaf s = at_ /\ mayRestOn s at_ = true /\
  (forall p, checkParentRule s p = Ok tt <-> p = at_).
Proof.
  intros Ho HF. apply written_clean in Ho. pose proof (so_wf _ (cl_sound _ Ho)) as Hw.
  apply Fork_adopted in HF as (s1 & -> & [Hent Hpath Hpre [HID HB] Hcl] & Hat & Hl); [|done..].
  apply list_elem_of_fmap in Hat as (b & -> & Hb). rewrite path_last // in Hl.
  pose proof (wf_lookup s1 (eid b) b (so_wf _ (cl_sound _ Hcl))) as Hlook.
  assert (b ∈ path origin (eid b)) as Hbp by (rewrite path_step //; set_solver).
  assert (s_byID s1 !! eid b = Some b) as Hb1 by (apply Hlook; by rewrite Hent).
  destruct (tree_goodID _ _ (wf_tree _ Hw) Hb) as [Hbne _].
  assert (h_Base (s_header s1) = eid b) as HB' by done.
  split_and!; [done| |done|..].
  - intros e He. rewrite path_set_leaf. by apply Hpath.
  - unfold mayRestOn. rewrite decide_False //. cbn [s_byID set_leaf]. rewrite Hb1 Hl.
    cbn [s_header set_leaf]. rewrite HB'. rewrite (bool_decide_eq_false_2 (eid b <> eid b)); [|tauto].
    by rewrite andb_false_r.
  - intros p. unfold checkParentRule, has_entry, checkOwnParent. cbn [s_byID s_header s_prefix set_leaf].
    rewrite HB' decide_True //. split.
    + intros H. inv_ok. destruct (decide (p = eid b)) as [|Hpb]; [done|]. exfalso.
      apply bool_decide_eq_false in H1. rewrite (bool_decide_eq_true_2 _ H1) /= in H0.
      rewrite (bool_decide_eq_true_2 _ Hpb) /= in H. apply negb_false_iff in H0.
      apply bool_decide_eq_false in H. apply H, Hpre. rewrite -Hent. by apply wf_has_entry; [apply Hcl|].
    + intros ->. rewrite Hb1 (bool_decide_eq_true_2 (is_Some _)); [|by eexists].
      rewrite andb_false_r /= bool_decide_eq_false_2 //=.
      rewrite (bool_decide_eq_false_2 (eid b <> eid b)); [done|tauto].
Qed.

(** ** The base rule, for a reader of the file *)

(** The lines of a file held to the rule in file order, as [Read] and [Scan]
    meet them. *)
Definition base_lines (base : string) (es : list Entry) : result (option baseRule) :=
  check_lines (fun r e => baseRule_line r (eid e) (eparent e)) (newBaseRule base) es.

Lemma base_lines_path s b id :
  wf s -> b <> "" -> id = "" \/ id ∈ ids (s_entries s) ->
  (forall e, e ∈ path s id -> eid e <> id -> eid e <> b) ->
  base_lines b (path s id) = Ok (Some (mkBaseRule b id (bool_decide (id = b)) (list_to_set (ids (path s id))))).
Proof.
  intros Hw Hb Hid. unfold base_lines, newBaseRule. rewrite decide_False //.
  assert (exists rev, chain s id rev) as [rev Hch].
  { destruct Hid as [->|Hid]; [exists []; constructor|]. destruct (wf_chain _ _ Hw Hid) as (rev & ? & _). eauto. }
  clear Hid. induction Hch as [|e rev Hne He Hch IH]; intros Hbefore.
  - rewrite path_nil /= bool_decide_eq_false_2 //.
  - apply (wf_lookup s) in He as [He _]; [|done]. pose proof (path_step s e Hw He) as Hstep.
    pose proof (parent_path_fresh s e Hw He) as Hn.
    rewrite Hstep check_lines_app IH /=.
    2:{ intros x Hx _. apply Hbefore; [rewrite Hstep; set_solver|]. intros Heq. apply Hn. rewrite -Heq.
        by apply list_elem_of_fmap_2. }
    rewrite (bool_decide_eq_false_2 (eparent e = b)).
    2:{ intros Hpb. destruct (tree_parent _ _ (wf_tree _ Hw) He) as [Hp|Hp]; [congruence|].
        apply list_elem_of_fmap in Hp as (x & Hx & Hin). apply (Hbefore x).
        - rewrite Hstep Hx path_step //. set_solver.
        - intros Heq. apply Hn. rewrite Hx path_step // ids_app -Heq. set_solver.
        - congruence. }
    simpl. rewrite (bool_decide_eq_false_2 (eparent e <> eparent e)); [|tauto].
    assert (forall p : string, bool_decide (p = "") && bool_decide (p <> "") = false) as Hpn
      by (intros p; by repeat case_bool_decide).
    rewrite Hpn andb_comm Hpn.
    simpl. do 3 f_equal. rewrite ids_app. set_solver.
Qed.

(** Where the reader's rule stands once it has met a session's lines. *)
Definition based s : Prop :=
  let b := h_Base (s_header s) in
  b = "" \/ s_entries s = [] \/
  exists r, base_lines b (s_entries s) = Ok (Some r) /\ br_met r = true /\ br_base r = b /\ br_prefix r = s_prefix s.

Lemma based_add s e :
  wf s -> checkParentRule s (eparent e) = Ok tt -> based s -> based (add s e).
Proof.
  intros Hw Hp. unfold based. rewrite h_Base_add. intros [Hb|[He|(r & Hr & Hm & Hb & Hpre)]]; [by left|..].
  - left. destruct (checkParentRule_Ok s _ Hw Hp) as [Hn|Hn]; [|rewrite He in Hn; set_solver].
    rewrite Hn in Hp. unfold checkParentRule in Hp. inv_ok. destruct (decide _) as [|Hb]; [done|].
    by apply dec_stable in Hb.
  - destruct (decide (h_Base (s_header s) = "")) as [|Hne]; [by left|]. right; right. exists r.
    split_and!; try done. unfold base_lines in *. simpl. rewrite check_lines_app Hr /= Hm Hb Hpre.
    unfold checkParentRule in Hp. inv_ok. by rewrite decide_True // in Hp; rewrite Hp.
Qed.

Lemma grows_based s s' : wf s -> grows s s' -> based s -> based s'.
Proof.
  intros Hw [(He & Hb & Hp & _)|(e & Hpar & _ & _ & He & Hb & Hp & _)] Hbs; unfold based.
  - by rewrite He Hb Hp.
  - rewrite He Hb Hp. by apply (based_add s e).
Qed.

Lemma written_based s : written s -> based s.
Proof.
  apply written_grows.
  - intros h. right. by left.
  - intros s0 s' Hw Hg. apply grows_based; [|done]. apply written_clean in Hw. apply Hw.
  - intros origin s' at_ Ho Hent HB Hpre Hat _ _. pose proof (so_wf _ (cl_sound _ (written_clean _ Ho))) as Hwo.
    right; right. rewrite HB Hent.
    assert (at_ <> "") as Hne.
    { intros ->. apply list_elem_of_fmap in Hat as (x & Hx & Hin).
      destruct (tree_goodID _ _ (wf_tree _ Hwo) Hin) as [Hg _]. congruence. }
    eexists. split_and!; [apply base_lines_path; auto| | |]; simpl.
    + by rewrite bool_decide_eq_true_2.
    + done.
    + apply set_eq. intros x. rewrite Hpre. set_solver.
Qed.

Lemma based_agrees s :
  wf s -> based s ->
  exists r, base_lines (h_Base (s_header s)) (s_entries s) = Ok r /\
  (s_entries s <> [] -> forall id p, p = "" \/ p ∈ ids (s_entries s) ->
     is_ok (baseRule_line r id p) = is_ok (checkParentRule s p)).
Proof.
  intros Hwf Hbs.
  assert (forall p, p = "" \/ p ∈ ids (s_entries s) ->
    refuse_if (bool_decide (p <> "") && negb (has_entry s p)) ErrNoEntry = Ok tt) as Hhas.
  { intros p [->|Hp]; [done|]. apply wf_has_entry in Hp as ->; [|done]. by rewrite andb_false_r. }
  destruct (decide (h_Base (s_header s) = "")) as [Hb|Hne].
  { exists None. rewrite Hb. split.
    - generalize (s_entries s). clear. intros es. induction es as [|e es IH]; [done|exact IH].
    - intros _ id p Hp. unfold checkParentRule. by rewrite Hhas // Hb. }
  destruct Hbs as [Hb|[He|(r & Hr & Hm & Hb & Hpre)]].
  - done.
  - eexists. rewrite He. by split.
  - exists (Some r). split; [done|]. intros _ id p Hp. unfold checkParentRule. rewrite Hhas //= Hm Hb Hpre.
    rewrite decide_True //. by destruct (checkOwnParent _ _ _).
Qed.


End Forks.
