(* ===== verification/Strconv.v ===== *)
(** * Numbers in text ([strconv], [math/big])

    What the canonical form and the I-JSON test use of the standard library's
    number routines: a decimal literal read into a binary64 value
    ([strconv.ParseFloat]) or into a rational ([big.Rat.SetString]), a rational
    rounded to binary64 ([big.Rat.Float64]), and the shortest digits that read
    back as a value ([strconv.FormatFloat] with verb [e] and precision -1).
    Every value is exact: a finite double is [m * 2^e] over [Z], a literal a
    fraction [p / q].  Literals are JSON's: the other spellings those functions
    admit (a plus sign, hexadecimal, underscores, infinities) never reach them. *)
From S2P Require Import Prelude.
Open Scope session_scope.
Local Open Scope Z_scope.

(** ** Digits *)

Definition byte_of (c : ascii) : Z := Z.of_N (N_of_ascii c).
Definition ascii_of (z : Z) : ascii := ascii_of_N (Z.to_N z).

Definition is_digit (c : ascii) : bool := (48 <=? byte_of c) && (byte_of c <=? 57).
Definition digit_val (c : ascii) : Z := byte_of c - 48.
Definition digit_char (d : Z) : ascii := ascii_of (d + 48).

(** The number a run of digits spells. *)
Definition digits_val (l : list ascii) : Z := foldl (fun acc c => acc * 10 + digit_val c) 0 l.

(** The decimal digits of [n], most significant first; [0] has the one digit. *)
Fixpoint digits_go (fuel : nat) (n : Z) (acc : list ascii) : list ascii :=
  match fuel with
  | O => acc
  | S fuel =>
      if n <? 10 then digit_char n :: acc else digits_go fuel (n / 10) (digit_char (n mod 10) :: acc)
  end.
Definition digits_of (n : Z) : list ascii := digits_go (S (Z.to_nat (Z.log2 n))) n [].

(** [strconv.Itoa]. *)
Definition Itoa (z : Z) : list ascii := if z <? 0 then "-"%char :: digits_of (- z) else digits_of z.

(** The longest prefix of digits, and the rest. *)
Fixpoint span_digits (l : list ascii) : list ascii * list ascii :=
  match l with
  | c :: l' => if is_digit c then let '(ds, r) := span_digits l' in (c :: ds, r) else ([], l)
  | [] => ([], [])
  end.

(** ** Doubles *)

Inductive float64 :=
  | Finite (neg : bool) (m e : Z)
  | Infinite (neg : bool)
  | NaN.

#[export] Instance float64_eq_dec : EqDecision float64.
Proof. solve_decision. Defined.

(** The exponents of a double [m * 2^e] with [m < 2^53]. *)
Definition emin : Z := -1074.
Definition emax : Z := 971.

(** [b^k] and [1] for [k] not negative, [1] and [b^-k] for [k] negative: the
    two sides [b^k] multiplies. *)
Definition up (b k : Z) : Z := b ^ Z.max 0 k.

(** The largest [k] with [2^k <= p / q]. *)
Definition ilog2 (p q : Z) : Z :=
  let k := Z.log2 p - Z.log2 q in
  if q * up 2 k <=? p * up 2 (- k) then k else k - 1.

(** The multiple of [2^e] nearest [p / q], ties to even. *)
Definition round_at (e p q : Z) : Z :=
  let num := p * up 2 (- e) in
  let den := q * up 2 e in
  let m := num / den in
  let r := num mod den in
  if (den <? 2 * r) || (2 * r =? den) && Z.odd m then m + 1 else m.

(** The double nearest a positive [p / q], the exponent not bounded above. *)
Definition round_pos (p q : Z) : Z * Z :=
  let e := Z.max emin (ilog2 p q - 52) in
  let m := round_at e p q in
  if m =? 2 ^ 53 then (2 ^ 52, e + 1) else (m, e).

Definition round64 (neg : bool) (p q : Z) : float64 :=
  if p =? 0 then Finite neg 0 emin
  else let '(m, e) := round_pos p q in
       if emax <? e then Infinite neg else Finite neg m e.

(** The fraction [c * 10^x]. *)
Definition dec_num (c x : Z) : Z := c * up 10 x.
Definition dec_den (x : Z) : Z := up 10 (- x).

(** ** Literals *)

(** A literal's sign, its digits before and after the point, and its
    exponent's sign and digits. *)
Record Literal := mkLiteral {
  l_neg : bool;
  l_int : list ascii;
  l_frac : list ascii;
  l_expneg : bool;
  l_exp : list ascii
}.

Definition is_e (c : ascii) : bool := bool_decide (c = "e"%char) || bool_decide (c = "E"%char).

(** The exponent part, [None] when it has no digits or something follows it. *)
Definition read_exponent (l : list ascii) : option (bool * list ascii) :=
  match l with
  | [] => Some (false, [])
  | c :: l =>
      if is_e c then
        let '(neg, l) := match l with
                         | s :: l' => if bool_decide (s = "-"%char) then (true, l')
                                      else if bool_decide (s = "+"%char) then (false, l') else (false, l)
                         | [] => (false, [])
                         end in
        match span_digits l with
        | ([], _) => None
        | (ds, []) => Some (neg, ds)
        | _ => None
        end
      else None
  end.

Definition read_literal (l : list ascii) : option Literal :=
  let '(neg, l) := match l with
                   | c :: l' => if bool_decide (c = "-"%char) then (true, l') else (false, l)
                   | [] => (false, [])
                   end in
  let '(i, l) := span_digits l in
  let '(f, l) := match l with
                 | c :: l' => if bool_decide (c = "."%char) then span_digits l' else ([], l)
                 | [] => ([], [])
                 end in
  if bool_decide (i ++ f = []) then None
  else match read_exponent l with
       | Some (eneg, e) => Some (mkLiteral neg i f eneg e)
       | None => None
       end.

(** The digits of a literal as one number. *)
Definition l_digits (x : Literal) : Z := digits_val (l_int x ++ l_frac x).

(** [strconv] stops reading exponent digits at 10000. *)
Definition capped_exp (x : Literal) : Z :=
  let e := foldl (fun e c => if e <? 10000 then e * 10 + digit_val c else e) 0 (l_exp x) in
  if l_expneg x then - e else e.

(** [strconv.ParseFloat(s, 64)], [None] for an error: a literal it does not
    read, or one out of range. *)
Definition ParseFloat (s : list ascii) : option float64 :=
  match read_literal s with
  | None => None
  | Some x =>
      let d := l_digits x in
      let k := capped_exp x - Z.of_nat (length (l_frac x)) in
      let dp := Z.of_nat (length (digits_of d)) + k in
      if d =? 0 then Some (Finite (l_neg x) 0 emin)
      else if 310 <? dp then None
      else if dp <? -330 then Some (Finite (l_neg x) 0 emin)
      else match round64 (l_neg x) (dec_num d k) (dec_den k) with
           | Finite neg m e => Some (Finite neg m e)
           | _ => None
           end
  end.

(** ** Rationals *)

(** A [big.Rat]: a sign, and a magnitude [p / q]. *)
Record Rat := mkRat { r_neg : bool; r_num : Z; r_den : Z }.

Definition exact_exp (x : Literal) : Z :=
  let e := digits_val (l_exp x) in if l_expneg x then - e else e.

(** [Rat.SetString]: the exponent must fit an int64, and then the power of ten
    that remains has at most six digits, unless the digits are all zero. *)
Definition SetString (s : list ascii) : option Rat :=
  match read_literal s with
  | None => None
  | Some x =>
      let d := l_digits x in
      let e := exact_exp x in
      let k := e - Z.of_nat (length (l_frac x)) in
      if (e <? - 2 ^ 63) || (2 ^ 63 <=? e) then None
      else if d =? 0 then Some (mkRat false 0 1)
      else if 10 ^ 6 <? Z.abs k then None
      else Some (mkRat (l_neg x) (dec_num d k) (dec_den k))
  end.

(** [Rat.IsInt], [Rat.Cmp(x) == 0]. *)
Definition IsInt (r : Rat) : bool := r_num r mod r_den r =? 0.
Definition Rat_eqb (r s : Rat) : bool :=
  (r_num r * r_den s =? r_num s * r_den r) && ((r_num r =? 0) || bool_decide (r_neg r = r_neg s)).

(** [Rat.Float64]: the nearest double, and whether it is the value exactly. *)
Definition Float64 (r : Rat) : float64 * bool :=
  let f := round64 (r_neg r) (r_num r) (r_den r) in
  (f, match f with
      | Finite _ m e => m * up 2 e * r_den r =? r_num r * up 2 (- e)
      | _ => false
      end).

(** ** Shortest digits *)

(** The [n] with [10^(n-1) <= p / q < 10^n]. *)
Definition point (p q : Z) : Z :=
  if q <=? p then Z.of_nat (length (digits_of (p / q)))
  else 1 - Z.of_nat (length (digits_of ((q - 1) / p))).

Definition reads_as (c x m e : Z) : bool := bool_decide (round_pos (dec_num c x) (dec_den x) = (m, e)).

(** The [k]-digit decimal that reads as [m * 2^e], the nearer where the one
    below and the one above it both do, the even one between two as near. *)
Definition at_digits (m e n k : Z) : option Z :=
  let x := n - k in
  let num := m * up 2 e * up 10 (- x) in
  let den := up 2 (- e) * up 10 x in
  let lo := num / den in
  let r := num mod den in
  match reads_as lo x m e, reads_as (lo + 1) x m e with
  | false, false => None
  | true, false => Some lo
  | false, true => Some (lo + 1)
  | true, true => Some (if (den <? 2 * r) || (2 * r =? den) && Z.odd lo then lo + 1 else lo)
  end.

(** The first [k] from [k] on with such a decimal [c]: [c] and its exponent.
    No double needs more than 17 digits. *)
Fixpoint shortest_go (fuel : nat) (m e n k : Z) : option (Z * Z) :=
  match fuel with
  | O => None
  | S fuel =>
      match at_digits m e n k with
      | Some c => Some (c, n - k)
      | None => shortest_go fuel m e n (k + 1)
      end
  end.
Definition shortest (m e : Z) : option (Z * Z) :=
  shortest_go 17 m e (point (m * up 2 e) (up 2 (- e))) 1.

(** Without the zeros at its end. *)
Fixpoint strip_zeros (fuel : nat) (c x : Z) : Z * Z :=
  match fuel with
  | O => (c, x)
  | S fuel => if c mod 10 =? 0 then strip_zeros fuel (c / 10) (x + 1) else (c, x)
  end.

(** The digits [d.ddd] and the exponent [xx] of [FormatFloat(f, 'e', -1, 64)]
    for a finite [f = m * 2^e > 0], as its text [d.ddde±xx] gives them. *)
Definition FormatFloat_e (m e : Z) : option (list ascii * Z) :=
  match shortest m e with
  | None => None
  | Some (c, x) =>
      let '(c, x) := strip_zeros 17 c x in
      let digits := digits_of c in
      Some (digits, Z.of_nat (length digits) + x - 1)
  end.
