(* ===== verification/Utf8.v ===== *)
(** * Runes ([unicode/utf8], [unicode/utf16])

    UTF-8 decoding as [utf8.DecodeRune] and a range over a string do it, an
    invalid byte giving U+FFFD; encoding, as [utf8.AppendRune]; and the UTF-16
    code units of a text. *)
From S2P Require Import Prelude Strconv.
Open Scope session_scope.
Local Open Scope Z_scope.

Definition RuneError : Z := 65533.

Definition in_range (lo hi : Z) (c : ascii) : bool := (lo <=? byte_of c) && (byte_of c <=? hi).

(** A continuation byte. *)
Definition cont : ascii -> bool := in_range 128 191.

(** The range the second byte of a three- or four-byte sequence is in, by its
    first: it leaves out overlong forms, surrogates and what is past U+10FFFF. *)
Definition second3 (b0 : Z) : ascii -> bool :=
  if b0 =? 224 then in_range 160 191 else if b0 =? 237 then in_range 128 159 else cont.
Definition second4 (b0 : Z) : ascii -> bool :=
  if b0 =? 240 then in_range 144 191 else if b0 =? 244 then in_range 128 143 else cont.

Definition rune2 (a b : ascii) : Z := (byte_of a - 192) * 64 + (byte_of b - 128).
Definition rune3 (a b c : ascii) : Z := (byte_of a - 224) * 4096 + (byte_of b - 128) * 64 + (byte_of c - 128).
Definition rune4 (a b c d : ascii) : Z :=
  (byte_of a - 240) * 262144 + (byte_of b - 128) * 4096 + (byte_of c - 128) * 64 + (byte_of d - 128).

(** The runes of a text, [None] for a byte that starts no sequence. *)
Fixpoint runes (l : list ascii) : list (option Z) :=
  match l with
  | [] => []
  | a :: l1 =>
      let b0 := byte_of a in
      if b0 <? 128 then Some b0 :: runes l1
      else if (194 <=? b0) && (b0 <=? 223) then
        match l1 with
        | b :: l2 => if cont b then Some (rune2 a b) :: runes l2 else None :: runes l1
        | _ => None :: runes l1
        end
      else if (224 <=? b0) && (b0 <=? 239) then
        match l1 with
        | b :: (c :: l3) =>
            if second3 b0 b && cont c then Some (rune3 a b c) :: runes l3 else None :: runes l1
        | _ => None :: runes l1
        end
      else if (240 <=? b0) && (b0 <=? 244) then
        match l1 with
        | b :: (c :: (d :: l4)) =>
            if second4 b0 b && cont c && cont d then Some (rune4 a b c d) :: runes l4 else None :: runes l1
        | _ => None :: runes l1
        end
      else None :: runes l1
  end.

(** [utf8.Valid]. *)
Definition Valid (l : list ascii) : bool := forallb (fun r => bool_decide (is_Some r)) (runes l).

(** [for _, r := range s], [[]rune(s)]. *)
Definition range_runes (l : list ascii) : list Z := default RuneError <$> runes l.

(** [utf8.AppendRune], [utf8.EncodeRune]: a surrogate or a rune out of range
    is written as U+FFFD. *)
Definition is_surrogate (r : Z) : bool := (55296 <=? r) && (r <=? 57343).
Definition EncodeRune (r : Z) : list ascii :=
  let three r := [ascii_of (224 + r / 4096); ascii_of (128 + r / 64 mod 64); ascii_of (128 + r mod 64)] in
  if r <? 0 then three RuneError
  else if r <? 128 then [ascii_of r]
  else if r <? 2048 then [ascii_of (192 + r / 64); ascii_of (128 + r mod 64)]
  else if is_surrogate r || (1114111 <? r) then three RuneError
  else if r <? 65536 then three r
  else [ascii_of (240 + r / 262144); ascii_of (128 + r / 4096 mod 64);
        ascii_of (128 + r / 64 mod 64); ascii_of (128 + r mod 64)].

(** [utf16.Encode]: two code units for a rune past the basic plane. *)
Definition units_of (r : Z) : list Z :=
  if (65536 <=? r) && (r <=? 1114111) then [55296 + (r - 65536) / 1024; 56320 + (r - 65536) mod 1024]
  else if (r <? 0) || is_surrogate r || (1114111 <? r) then [RuneError] else [r].
Definition utf16_Encode (l : list Z) : list Z := mjoin (units_of <$> l).

(** [utf16.DecodeRune], of a pair of halves. *)
Definition DecodeRune (hi lo : Z) : Z :=
  if (55296 <=? hi) && (hi <? 56320) && (56320 <=? lo) && (lo <? 57344)
  then (hi - 55296) * 1024 + (lo - 56320) + 65536 else RuneError.
