(* ===== verification/Json.v ===== *)
(** * JSON as [encoding/json] reads it

    The grammar its scanner accepts, as a parser that returns a value as it is
    spelled with the bytes after it; the value a decoder makes of that, with
    escapes resolved and a repeated member taking its last value; and the
    token stream of [Decoder.Token], a state machine that holds a document to
    no more than it has read.  Two calls of the parser for every byte, and two
    more, are enough fuel ([scan_value_enough]). *)
From S2P Require Import Prelude Strconv Utf8.
Open Scope session_scope.
Local Open Scope Z_scope.

Definition quote : ascii := "034"%char.
Definition backslash : ascii := "\"%char.

(** ** White space, literals, numbers *)

Definition isSpace (c : ascii) : bool :=
  bool_decide (c = " "%char) || (byte_of c =? 9) || (byte_of c =? 10) || (byte_of c =? 13).

Fixpoint skipWS (l : list ascii) : list ascii :=
  match l with
  | c :: l' => if isSpace c then skipWS l' else l
  | [] => []
  end.

(** What follows [word] at the start of a text. *)
Fixpoint strip_word (word l : list ascii) : option (list ascii) :=
  match word, l with
  | [], _ => Some l
  | w :: word, c :: l => if bool_decide (w = c) then strip_word word l else None
  | _ :: _, [] => None
  end.

Definition la : string -> list ascii := list_ascii_of_string.

(** A number's parts: its sign, its whole digits, and its fraction and exponent
    with the characters that introduce them. *)
Record parts := mkParts { n_sign : list ascii; n_int : list ascii; n_frac : list ascii; n_exp : list ascii }.

Definition number_text (x : parts) : list ascii := n_sign x ++ n_int x ++ n_frac x ++ n_exp x.

Definition scan_sign (l : list ascii) : list ascii * list ascii :=
  match l with
  | c :: l' => if bool_decide (c = "-"%char) then ([c], l') else ([], l)
  | [] => ([], [])
  end.

Definition scan_int (l : list ascii) : option (list ascii * list ascii) :=
  match l with
  | c :: l' => if bool_decide (c = "0"%char) then Some ([c], l')
               else if is_digit c then Some (span_digits l) else None
  | [] => None
  end.

Definition scan_frac (l : list ascii) : option (list ascii * list ascii) :=
  match l with
  | c :: l' =>
      if bool_decide (c = "."%char) then
        match span_digits l' with
        | ([], _) => None
        | (ds, r) => Some (c :: ds, r)
        end
      else Some ([], l)
  | [] => Some ([], [])
  end.

Definition scan_exp (l : list ascii) : option (list ascii * list ascii) :=
  match l with
  | c :: l' =>
      if is_e c then
        let '(s, l') := match l' with
                        | s :: l'' => if bool_decide (s = "+"%char) || bool_decide (s = "-"%char)
                                      then ([s], l'') else ([], l')
                        | [] => ([], [])
                        end in
        match span_digits l' with
        | ([], _) => None
        | (ds, r) => Some (c :: s ++ ds, r)
        end
      else Some ([], l)
  | [] => Some ([], [])
  end.

Definition scan_number (l : list ascii) : option (parts * list ascii) :=
  let '(s, l) := scan_sign l in
  match scan_int l with
  | None => None
  | Some (i, l) =>
      match scan_frac l with
      | None => None
      | Some (f, l) =>
          match scan_exp l with
          | None => None
          | Some (e, l) => Some (mkParts s i f e, l)
          end
      end
  end.

(** ** Strings *)

Definition hex_val (c : ascii) : option Z :=
  let b := byte_of c in
  if (48 <=? b) && (b <=? 57) then Some (b - 48)
  else if (97 <=? b) && (b <=? 102) then Some (b - 97 + 10)
  else if (65 <=? b) && (b <=? 70) then Some (b - 65 + 10)
  else None.

(** Four hexadecimal digits and what follows them. *)
Definition hex4 (l : list ascii) : option (Z * list ascii) :=
  match l with
  | a :: (b :: (c :: (d :: l4))) =>
      match hex_val a, hex_val b, hex_val c, hex_val d with
      | Some a, Some b, Some c, Some d => Some (a * 4096 + b * 256 + c * 16 + d, l4)
      | _, _, _, _ => None
      end
  | _ => None
  end.

Definition is_hex (c : ascii) : bool := bool_decide (is_Some (hex_val c)).

(** The byte a one-character escape stands for. *)
Definition escape_val (e : ascii) : option ascii :=
  if bool_decide (e = quote) || bool_decide (e = backslash) || bool_decide (e = "/"%char) then Some e
  else if bool_decide (e = "b"%char) then Some "008"%char
  else if bool_decide (e = "f"%char) then Some "012"%char
  else if bool_decide (e = "n"%char) then Some "010"%char
  else if bool_decide (e = "r"%char) then Some "013"%char
  else if bool_decide (e = "t"%char) then Some "009"%char
  else None.

(** The body of a string whose opening quote has been read, as it is spelled,
    and what follows its closing quote. *)
Fixpoint scan_string (l : list ascii) : option (list ascii * list ascii) :=
  match l with
  | [] => None
  | c :: l1 =>
      if bool_decide (c = quote) then Some ([], l1)
      else if bool_decide (c = backslash) then
        match l1 with
        | e :: l2 =>
            if bool_decide (e = "u"%char) then
              match l2 with
              | h1 :: (h2 :: (h3 :: (h4 :: l6))) =>
                  if is_hex h1 && is_hex h2 && is_hex h3 && is_hex h4 then
                    match scan_string l6 with
                    | Some (b, r) => Some (c :: e :: h1 :: h2 :: h3 :: h4 :: b, r)
                    | None => None
                    end
                  else None
              | _ => None
              end
            else if bool_decide (is_Some (escape_val e)) then
              match scan_string l2 with Some (b, r) => Some (c :: e :: b, r) | None => None end
            else None
        | [] => None
        end
      else if byte_of c <? 32 then None
      else match scan_string l1 with Some (b, r) => Some (c :: b, r) | None => None end
  end.

(** A body with its escapes resolved; half a surrogate pair is U+FFFD. *)
Fixpoint unescape (l : list ascii) : list ascii :=
  match l with
  | [] => []
  | c :: l1 =>
      if bool_decide (c = backslash) then
        match l1 with
        | e :: l2 =>
            if bool_decide (e = "u"%char) then
              match l2 with
              | h1 :: (h2 :: (h3 :: (h4 :: l6))) =>
                  let r := default 0 (fst <$> hex4 [h1; h2; h3; h4]) in
                  if is_surrogate r then
                    match l6 with
                    | b :: (u :: (k1 :: (k2 :: (k3 :: (k4 :: l12))))) =>
                        let lo := default (-1) (fst <$> hex4 [k1; k2; k3; k4]) in
                        if bool_decide (b = backslash) && bool_decide (u = "u"%char)
                           && negb (DecodeRune r lo =? RuneError)
                        then EncodeRune (DecodeRune r lo) ++ unescape l12
                        else EncodeRune RuneError ++ unescape l6
                    | _ => EncodeRune RuneError ++ unescape l6
                    end
                  else EncodeRune r ++ unescape l6
              | _ => []
              end
            else default e (escape_val e) :: unescape l2
        | [] => []
        end
      else c :: unescape l1
  end.

(** Invalid UTF-8 replaced, rune by rune. *)
Definition to_valid (l : list ascii) : list ascii := mjoin (EncodeRune <$> range_runes l).

(** [unquote].  Every escape gives whole sequences, so resolving them first and
    replacing invalid bytes after is doing both in one pass. *)
Definition unquote (body : list ascii) : list ascii := to_valid (unescape body).

(** ** Values as they are spelled *)

Inductive raw :=
  | RNull
  | RBool (b : bool)
  | RNumber (n : parts)
  | RString (body : list ascii)
  | RArray (l : list raw)
  | RObject (ms : list (list ascii * raw)).

(** [maxNestingDepth]. *)
Definition maxNestingDepth : Z := 10000.

Fixpoint scan_value (fuel : nat) (depth : Z) (l : list ascii) {struct fuel} : option (raw * list ascii) :=
  match fuel with
  | O => None
  | S fuel =>
      match l with
      | [] => None
      | c :: l1 =>
          if bool_decide (c = "{"%char) then
            if maxNestingDepth <=? depth then None
            else match skipWS l1 with
                 | [] => None
                 | d :: r =>
                     if bool_decide (d = "}"%char) then Some (RObject [], r)
                     else match scan_members fuel (depth + 1) (d :: r) with
                          | Some (ms, r) => Some (RObject ms, r)
                          | None => None
                          end
                 end
          else if bool_decide (c = "["%char) then
            if maxNestingDepth <=? depth then None
            else match skipWS l1 with
                 | [] => None
                 | d :: r =>
                     if bool_decide (d = "]"%char) then Some (RArray [], r)
                     else match scan_elements fuel (depth + 1) (d :: r) with
                          | Some (es, r) => Some (RArray es, r)
                          | None => None
                          end
                 end
          else if bool_decide (c = quote) then
            match scan_string l1 with Some (b, r) => Some (RString b, r) | None => None end
          else if bool_decide (c = "-"%char) || is_digit c then
            match scan_number l with Some (n, r) => Some (RNumber n, r) | None => None end
          else if bool_decide (c = "t"%char) then
            match strip_word (la "true") l with Some r => Some (RBool true, r) | None => None end
          else if bool_decide (c = "f"%char) then
            match strip_word (la "false") l with Some r => Some (RBool false, r) | None => None end
          else if bool_decide (c = "n"%char) then
            match strip_word (la "null") l with Some r => Some (RNull, r) | None => None end
          else None
      end
  end
with scan_members (fuel : nat) (depth : Z) (l : list ascii) {struct fuel}
    : option (list (list ascii * raw) * list ascii) :=
  match fuel with
  | O => None
  | S fuel =>
      match l with
      | [] => None
      | q :: l1 =>
          if bool_decide (q = quote) then
            match scan_string l1 with
            | None => None
            | Some (k, l2) =>
                match skipWS l2 with
                | [] => None
                | colon :: l3 =>
                    if bool_decide (colon = ":"%char) then
                      match scan_value fuel depth (skipWS l3) with
                      | None => None
                      | Some (v, l4) =>
                          match skipWS l4 with
                          | [] => None
                          | d :: l5 =>
                              if bool_decide (d = ","%char) then
                                match scan_members fuel depth (skipWS l5) with
                                | Some (ms, r) => Some ((k, v) :: ms, r)
                                | None => None
                                end
                              else if bool_decide (d = "}"%char) then Some ([(k, v)], l5)
                              else None
                          end
                      end
                    else None
                end
            end
          else None
      end
  end
with scan_elements (fuel : nat) (depth : Z) (l : list ascii) {struct fuel} : option (list raw * list ascii) :=
  match fuel with
  | O => None
  | S fuel =>
      match scan_value fuel depth l with
      | None => None
      | Some (v, l1) =>
          match skipWS l1 with
          | [] => None
          | d :: l2 =>
              if bool_decide (d = ","%char) then
                match scan_elements fuel depth (skipWS l2) with
                | Some (es, r) => Some (v :: es, r)
                | None => None
                end
              else if bool_decide (d = "]"%char) then Some ([v], l2)
              else None
          end
      end
  end.

Definition fuel_for (l : list ascii) : nat := (2 * length l + 2)%nat.

(** One value after white space, and what follows it: a call of
    [Decoder.Decode], or the value [json.Valid] and [json.Unmarshal] take up. *)
Definition scan_document (l : list ascii) : option (raw * list ascii) :=
  scan_value (fuel_for (skipWS l)) 0 (skipWS l).

(** [json.Valid]: one document and nothing more. *)
Definition json_Valid (l : list ascii) : bool :=
  match scan_document l with Some (_, r) => bool_decide (skipWS r = []) | None => false end.

(** ** Decoded values *)

(** What a decoder with [UseNumber] makes of a document: an object is a Go map,
    here its members with no name twice, in the order the names came up. *)
Inductive json :=
  | JNull
  | JBool (b : bool)
  | JNumber (lit : list ascii)
  | JString (s : list ascii)
  | JArray (l : list json)
  | JObject (ms : list (list ascii * json)).

(** [m[k] = v]. *)
Fixpoint set_member {A} (k : list ascii) (v : A) (m : list (list ascii * A)) : list (list ascii * A) :=
  match m with
  | [] => [(k, v)]
  | (k', v') :: m' => if bool_decide (k = k') then (k, v) :: m' else (k', v') :: set_member k v m'
  end.
Definition set_members {A} (ms : list (list ascii * A)) : list (list ascii * A) :=
  foldl (fun m kv => set_member kv.1 kv.2 m) [] ms.

Fixpoint interp (r : raw) : json :=
  match r with
  | RNull => JNull
  | RBool b => JBool b
  | RNumber n => JNumber (number_text n)
  | RString b => JString (unquote b)
  | RArray l => JArray (map interp l)
  | RObject ms => JObject (set_members (map (fun kv => (unquote kv.1, interp kv.2)) ms))
  end.

(** [Decoder.Decode] into an [any]. *)
Definition Decode (l : list ascii) : option (json * list ascii) :=
  match scan_document l with Some (r, rest) => Some (interp r, rest) | None => None end.

(** [Decoder.More] at the top of a stream: something other than a closing
    bracket follows. *)
Definition More (l : list ascii) : bool :=
  match skipWS l with
  | [] => false
  | c :: _ => negb (bool_decide (c = "]"%char) || bool_decide (c = "}"%char))
  end.

(** ** Tokens *)

Inductive token_state :=
  | TopValue | ArrayStart | ArrayValue | ArrayComma
  | ObjectStart | ObjectKey | ObjectColon | ObjectValue | ObjectComma.

#[export] Instance token_state_eq_dec : EqDecision token_state.
Proof. solve_decision. Defined.

Inductive token :=
  | Delim (c : ascii)
  | TString (s : list ascii)
  | TNumber (n : parts)
  | TBool (b : bool)
  | TNull.

Record decoder := mkDecoder {
  d_in : list ascii;
  d_state : token_state;
  d_stack : list token_state
}.

Inductive token_result :=
  | TokenEOF
  | TokenError
  | Token (t : token) (d : decoder).

Definition tokenValueAllowed (s : token_state) : bool :=
  match s with TopValue | ArrayStart | ArrayValue | ObjectValue => true | _ => false end.

Definition tokenValueEnd (s : token_state) : token_state :=
  match s with
  | ArrayStart | ArrayValue => ArrayComma
  | ObjectValue => ObjectComma
  | s => s
  end.

(** The token of a value that is no array or object. *)
Definition scalar_token (r : raw) : token :=
  match r with
  | RString b => TString (unquote b)
  | RNumber n => TNumber n
  | RBool b => TBool b
  | _ => TNull
  end.

(** A scalar by way of [Decode]. *)
Definition value_token (d : decoder) (l : list ascii) : token_result :=
  if tokenValueAllowed (d_state d) then
    match scan_value 1 0 l with
    | Some (r, l') => Token (scalar_token r) (mkDecoder l' (tokenValueEnd (d_state d)) (d_stack d))
    | None => TokenError
    end
  else TokenError.

(** [Decoder.Token].  A colon or a comma is read past, at most one of each. *)
Fixpoint next_token (fuel : nat) (d : decoder) : token_result :=
  match fuel with
  | O => TokenError
  | S fuel =>
      match skipWS (d_in d) with
      | [] => TokenEOF
      | c :: l =>
          if bool_decide (c = "["%char) then
            if tokenValueAllowed (d_state d) then Token (Delim c) (mkDecoder l ArrayStart (d_state d :: d_stack d))
            else TokenError
          else if bool_decide (c = "]"%char) then
            if bool_decide (d_state d = ArrayStart) || bool_decide (d_state d = ArrayComma) then
              match d_stack d with
              | s :: st => Token (Delim c) (mkDecoder l (tokenValueEnd s) st)
              | [] => TokenError
              end
            else TokenError
          else if bool_decide (c = "{"%char) then
            if tokenValueAllowed (d_state d) then Token (Delim c) (mkDecoder l ObjectStart (d_state d :: d_stack d))
            else TokenError
          else if bool_decide (c = "}"%char) then
            if bool_decide (d_state d = ObjectStart) || bool_decide (d_state d = ObjectComma) then
              match d_stack d with
              | s :: st => Token (Delim c) (mkDecoder l (tokenValueEnd s) st)
              | [] => TokenError
              end
            else TokenError
          else if bool_decide (c = ":"%char) then
            if bool_decide (d_state d = ObjectColon) then next_token fuel (mkDecoder l ObjectValue (d_stack d))
            else TokenError
          else if bool_decide (c = ","%char) then
            if bool_decide (d_state d = ArrayComma) then next_token fuel (mkDecoder l ArrayValue (d_stack d))
            else if bool_decide (d_state d = ObjectComma) then next_token fuel (mkDecoder l ObjectKey (d_stack d))
            else TokenError
          else if bool_decide (c = quote)
                  && (bool_decide (d_state d = ObjectStart) || bool_decide (d_state d = ObjectKey)) then
            match scan_string l with
            | Some (b, l') => Token (TString (unquote b)) (mkDecoder l' ObjectColon (d_stack d))
            | None => TokenError
            end
          else value_token d (c :: l)
      end
  end.
