(* ===== verification/Jcs.v ===== *)
(** * Canonical JSON ([internal/jcs])

    [jcs.go]: [Transform] by way of a decoded value, the reference.  [fast.go]:
    the walk over the bytes that [Transform] tries first.  A position in the
    input is the bytes from there on, and a pair [(int, bool)] an [option] of
    them; the output is the bytes written so far, into which members are
    recorded as spans and reordered, as the source does. *)
From S2P Require Import Prelude Strconv Utf8 Json.
Open Scope session_scope.
Local Open Scope Z_scope.

(** ** Numbers *)

Definition zeros (n : Z) : list ascii := replicate (Z.to_nat n) "0"%char.

(** The four layouts of [k] digits with the decimal point after the [n]th. *)
Definition layout (digits : list ascii) (n : Z) : list ascii :=
  let k := Z.of_nat (length digits) in
  if (k <=? n) && (n <=? 21) then digits ++ zeros (n - k)
  else if (0 <? n) && (n <=? 21) then take (Z.to_nat n) digits ++ "."%char :: drop (Z.to_nat n) digits
  else if (-6 <? n) && (n <=? 0) then la "0." ++ zeros (- n) ++ digits
  else take 1 digits ++ (if 1 <? k then "."%char :: drop 1 digits else [])
       ++ "e"%char :: (if 0 <=? n - 1 then ["+"%char] else []) ++ Itoa (n - 1).

Definition FormatNumber (f : float64) : option (list ascii) :=
  match f with
  | NaN | Infinite _ => None
  | Finite neg m e =>
      if m =? 0 then Some ["0"%char]
      else match FormatFloat_e m e with
           | None => None
           | Some (digits, exp) => Some ((if neg then ["-"%char] else []) ++ layout digits (exp + 1))
           end
  end.

(** ** Strings *)

Definition hex_digit (n : Z) : ascii := ascii_of (if n <? 10 then 48 + n else 87 + n).

(** One rune of [writeString]. *)
Definition write_rune (r : Z) : list ascii :=
  if r =? 8 then la "\b"
  else if r =? 9 then la "\t"
  else if r =? 10 then la "\n"
  else if r =? 12 then la "\f"
  else if r =? 13 then la "\r"
  else if r =? 34 then [backslash; quote]
  else if r =? 92 then [backslash; backslash]
  else if r <? 32 then la "\u00" ++ [hex_digit (r / 16); hex_digit (r mod 16)]
  else EncodeRune r.

Definition writeString (s : list ascii) : list ascii :=
  quote :: mjoin (write_rune <$> range_runes s) ++ [quote].

(** ** Order *)

Fixpoint less_units (a b : list Z) : bool :=
  match a, b with
  | x :: a, y :: b => if x =? y then less_units a b else x <? y
  | [], _ :: _ => true
  | _, [] => false
  end.

Definition LessUTF16 (a b : list ascii) : bool :=
  less_units (utf16_Encode (range_runes a)) (utf16_Encode (range_runes b)).

(** [sort.Slice] of names that differ: their order is total, so any sort gives
    its result. *)
Fixpoint insert_by {A} (less : A -> A -> bool) (x : A) (l : list A) : list A :=
  match l with
  | [] => [x]
  | y :: l' => if less x y then x :: l else y :: insert_by less x l'
  end.
Definition sort_by {A} (less : A -> A -> bool) (l : list A) : list A := foldr (insert_by less) [] l.

(** ** The reference *)

(** Items joined by commas. *)
Fixpoint commas (l : list (list ascii)) : list ascii :=
  match l with
  | [] => []
  | [x] => x
  | x :: l => x ++ ","%char :: commas l
  end.

Definition member_text (kv : list ascii * list ascii) : list ascii := writeString kv.1 ++ ":"%char :: kv.2.

Definition less_member {A} (a b : list ascii * A) : bool := LessUTF16 a.1 b.1.

(** [write].  A member's value is written before the members are sorted rather
    than after. *)
Fixpoint write (v : json) : option (list ascii) :=
  match v with
  | JNull => Some (la "null")
  | JBool true => Some (la "true")
  | JBool false => Some (la "false")
  | JNumber lit => match ParseFloat lit with Some f => FormatNumber f | None => None end
  | JString s => Some (writeString s)
  | JArray l =>
      match (fix write_all (l : list json) : option (list (list ascii)) :=
               match l with
               | [] => Some []
               | x :: l => match write x, write_all l with
                           | Some w, Some ws => Some (w :: ws)
                           | _, _ => None
                           end
               end) l with
      | Some ws => Some ("["%char :: commas ws ++ ["]"%char])
      | None => None
      end
  | JObject ms =>
      match (fix write_members (ms : list (list ascii * json)) : option (list (list ascii * list ascii)) :=
               match ms with
               | [] => Some []
               | (k, x) :: ms => match write x, write_members ms with
                                 | Some w, Some ws => Some ((k, w) :: ws)
                                 | _, _ => None
                                 end
               end) ms with
      | Some ws => Some ("{"%char :: commas (member_text <$> sort_by less_member ws) ++ ["}"%char])
      | None => None
      end
  end.

Definition transformDecoded (data : list ascii) : option (list ascii) :=
  match Decode data with
  | Some (v, rest) => if More rest then None else write v
  | None => None
  end.

(** ** The walk over the bytes *)

Definition maxDepth : Z := 1000.

(** [numberEnd]: the number's text, whether it has neither fraction nor
    exponent, and what follows. *)
Definition numberEnd (l : list ascii) : option (list ascii * bool * list ascii) :=
  match scan_number l with
  | None => None
  | Some (n, r) => Some (number_text n, bool_decide (n_frac n = []) && bool_decide (n_exp n = []), r)
  end.

(** [fastT.number]: the canonical text. *)
Definition fast_number (l : list ascii) : option (list ascii * list ascii) :=
  match numberEnd l with
  | None => None
  | Some (lit, integer, r) =>
      let neg := bool_decide (head lit = Some "-"%char) in
      let digits := (if neg then length lit - 1 else length lit)%nat in
      if integer && bool_decide (digits <= 15)%nat && negb (neg && bool_decide (lit !! 1%nat = Some "0"%char))
      then Some (lit, r)
      else match ParseFloat lit with
           | None => None
           | Some f => match FormatNumber f with Some s => Some (s, r) | None => None end
           end
  end.

(** [strEscaped]: the value of a string and what follows it; the bytes before
    the first escape go through it unchanged. *)
Fixpoint strEscaped (l : list ascii) : option (list ascii * list ascii) :=
  match l with
  | [] => None
  | c :: l1 =>
      let keep c r := match r with Some (s, r) => Some (c ++ s, r) | None => None end in
      if bool_decide (c = quote) then Some ([], l1)
      else if byte_of c <? 32 then None
      else if negb (bool_decide (c = backslash)) then keep [c] (strEscaped l1)
      else match l1 with
           | [] => None
           | e :: l2 =>
               if bool_decide (e = "u"%char) then
                 match l2 with
                 | h1 :: (h2 :: (h3 :: (h4 :: l6))) =>
                     match hex4 [h1; h2; h3; h4] with
                     | None => None
                     | Some (r, _) =>
                         if is_surrogate r then
                           match l6 with
                           | b :: (u :: (k1 :: (k2 :: (k3 :: (k4 :: l12))))) =>
                               if (56320 <=? r) || negb (bool_decide (b = backslash))
                                  || negb (bool_decide (u = "u"%char)) then None
                               else match hex4 [k1; k2; k3; k4] with
                                    | None => None
                                    | Some (lo, _) =>
                                        if (lo <? 56320) || (57343 <? lo) then None
                                        else keep (EncodeRune (DecodeRune r lo)) (strEscaped l12)
                                    end
                           | _ => None
                           end
                         else keep (EncodeRune r) (strEscaped l6)
                     end
                 | _ => None
                 end
               else match escape_val e with
                    | Some v => keep [v] (strEscaped l2)
                    | None => None
                    end
           end
  end.

(** [fastT.str]: at the first escape the string is read again from its start. *)
Fixpoint str_plain (start l : list ascii) : option (list ascii * list ascii) :=
  match l with
  | [] => None
  | c :: l1 =>
      if bool_decide (c = quote) then Some (take (length start - length l) start, l1)
      else if bool_decide (c = backslash) then strEscaped start
      else if byte_of c <? 32 then None
      else str_plain start l1
  end.
Definition fast_str (l : list ascii) : option (list ascii * list ascii) := str_plain l l.

(** One byte of [appendString]. *)
Definition append_byte (c : ascii) : list ascii :=
  let b := byte_of c in
  if b =? 8 then la "\b"
  else if b =? 9 then la "\t"
  else if b =? 10 then la "\n"
  else if b =? 12 then la "\f"
  else if b =? 13 then la "\r"
  else if b =? 34 then [backslash; quote]
  else if b =? 92 then [backslash; backslash]
  else if b <? 32 then la "\u00" ++ [hex_digit (b / 16); hex_digit (b mod 16)]
  else [c].
Definition appendString (s : list ascii) : list ascii := quote :: mjoin (append_byte <$> s) ++ [quote].

(** *** Member order *)

Definition hasSupplementary (s : list ascii) : bool := existsb (fun c => 240 <=? byte_of c) s.

(** [bytes.Compare(a, b) < 0]. *)
Definition less_bytes (a b : list ascii) : bool := less_units (byte_of <$> a) (byte_of <$> b).

Definition lessKey (a b : list ascii) : bool :=
  if negb (hasSupplementary a) && negb (hasSupplementary b) then less_bytes a b else LessUTF16 a b.

(** A member's name and its span of the output. *)
Record member := mkMember { m_key : list ascii; m_start : nat; m_end : nat }.

(** The insertion sort: the element at [i] swapped down while it is less than
    the one before it; the sorted part is held last element first. *)
Fixpoint sift (x : member) (sorted : list member) : list member :=
  match sorted with
  | y :: l => if lessKey (m_key x) (m_key y) then y :: sift x l else x :: y :: l
  | [] => [x]
  end.
Definition insertion (m : list member) : list member := rev (foldl (fun acc x => sift x acc) [] m).

(** The merge of the two sorted halves. *)
Fixpoint merge (a : list member) : list member -> list member :=
  fix merge_b (b : list member) : list member :=
    match a, b with
    | x :: a', y :: b' => if lessKey (m_key y) (m_key x) then y :: merge_b b' else x :: merge a' b
    | [], b => b
    | a, [] => a
    end.

Fixpoint mergeSort (fuel : nat) (m : list member) : list member :=
  match fuel with
  | O => m
  | S fuel =>
      if bool_decide (length m <= 32)%nat then insertion m
      else let mid := (length m / 2)%nat in
           merge (mergeSort fuel (take mid m)) (mergeSort fuel (drop mid m))
  end.

(** Each half is shorter, so the length is enough fuel. *)
Definition sortMembers (m : list member) : list member :=
  if bool_decide (32 < length m)%nat then mergeSort (length m) m else insertion m.

(** Some name is the one before it. *)
Fixpoint adjacent_equal (m : list member) : bool :=
  match m with
  | x :: (y :: _) as m' => bool_decide (m_key x = m_key y) || adjacent_equal m'
  | _ => false
  end.

(** [b[i:j]]. *)
Definition slice {A} (b : list A) (i j : nat) : list A := take (j - i) (drop i b).

(** The end of [object]: the members written from [base] on put in order. *)
Definition reorder (base : nat) (members : list member) (out : list ascii) : option (list ascii) :=
  let members := sortMembers members in
  if adjacent_equal members then None
  else
    let body := drop (S base) out in
    Some (take (S base) out ++ commas ((fun m => slice body (m_start m - base - 1) (m_end m - base - 1)) <$> members)).

(** [fastT.value], [fastT.object] and [fastT.array], with the output so far;
    the loops of the last two are [fast_members] and [fast_elements]. *)
Fixpoint fast_value (fuel : nat) (depth : Z) (l out : list ascii) {struct fuel} : option (list ascii * list ascii) :=
  match fuel with
  | O => None
  | S fuel =>
      match l with
      | [] => None
      | c :: l1 =>
          if bool_decide (c = "{"%char) then
            if maxDepth <=? depth then None
            else
              let base := length out in
              let out := out ++ ["{"%char] in
              match skipWS l1 with
              | [] => None
              | d :: r =>
                  if bool_decide (d = "}"%char) then Some (r, out ++ ["}"%char])
                  else
                    match fast_members fuel (depth + 1) (d :: r) out [] true with
                    | None => None
                    | Some (r, out, members, sorted) =>
                        if sorted : bool then Some (r, out ++ ["}"%char])
                        else match reorder base members out with
                             | Some out => Some (r, out ++ ["}"%char])
                             | None => None
                             end
                    end
              end
          else if bool_decide (c = "["%char) then
            if maxDepth <=? depth then None
            else
              let out := out ++ ["["%char] in
              match skipWS l1 with
              | [] => None
              | d :: r =>
                  if bool_decide (d = "]"%char) then Some (r, out ++ ["]"%char])
                  else fast_elements fuel (depth + 1) (d :: r) out
              end
          else if bool_decide (c = quote) then
            match fast_str l1 with Some (s, r) => Some (r, out ++ appendString s) | None => None end
          else if bool_decide (c = "-"%char) || is_digit c then
            match fast_number l with Some (s, r) => Some (r, out ++ s) | None => None end
          else if bool_decide (c = "t"%char) then
            match strip_word (la "true") l with Some r => Some (r, out ++ la "true") | None => None end
          else if bool_decide (c = "f"%char) then
            match strip_word (la "false") l with Some r => Some (r, out ++ la "false") | None => None end
          else if bool_decide (c = "n"%char) then
            match strip_word (la "null") l with Some r => Some (r, out ++ la "null") | None => None end
          else None
      end
  end
with fast_members (fuel : nat) (depth : Z) (l out : list ascii) (members : list member) (sorted : bool) {struct fuel}
    : option (list ascii * list ascii * list member * bool) :=
  match fuel with
  | O => None
  | S fuel =>
      match l with
      | [] => None
      | q :: l1 =>
          if bool_decide (q = quote) then
            match fast_str l1 with
            | None => None
            | Some (key, l2) =>
                match skipWS l2 with
                | [] => None
                | colon :: l3 =>
                    if bool_decide (colon = ":"%char) then
                      let out := if bool_decide (members = []) then out else out ++ [","%char] in
                      let start := length out in
                      match fast_value fuel depth (skipWS l3) (out ++ appendString key ++ [":"%char]) with
                      | None => None
                      | Some (l4, out) =>
                          let m := mkMember key start (length out) in
                          match (match last members with
                                 | None => Some sorted
                                 | Some prev =>
                                     if bool_decide (m_key prev = key) then None
                                     else Some (sorted && lessKey (m_key prev) key)
                                 end) with
                          | None => None
                          | Some sorted =>
                              let members := members ++ [m] in
                              match skipWS l4 with
                              | [] => None
                              | d :: l5 =>
                                  if bool_decide (d = ","%char) then
                                    fast_members fuel depth (skipWS l5) out members sorted
                                  else if bool_decide (d = "}"%char) then Some (l5, out, members, sorted)
                                  else None
                              end
                          end
                      end
                    else None
                end
            end
          else None
      end
  end
with fast_elements (fuel : nat) (depth : Z) (l out : list ascii) {struct fuel} : option (list ascii * list ascii) :=
  match fuel with
  | O => None
  | S fuel =>
      match fast_value fuel depth l out with
      | None => None
      | Some (l1, out) =>
          match skipWS l1 with
          | [] => None
          | d :: l2 =>
              if bool_decide (d = ","%char) then fast_elements fuel depth (skipWS l2) (out ++ [","%char])
              else if bool_decide (d = "]"%char) then Some (l2, out ++ ["]"%char])
              else None
          end
      end
  end.

Definition transformFast (data : list ascii) : option (list ascii) :=
  if Valid data then
    match fast_value (fuel_for (skipWS data)) 0 (skipWS data) [] with
    | Some (r, out) => if bool_decide (skipWS r = []) then Some out else None
    | None => None
    end
  else None.

(** [Transform]. *)
Definition Transform_bytes (data : list ascii) : option (list ascii) :=
  match transformFast data with Some out => Some out | None => transformDecoded data end.
