(* ===== verification/Ijson.v ===== *)
(** * The I-JSON test ([internal/ijson])

    [ijson.go]: [Check] by way of the decoder's tokens, the reference, with the
    number rule.  [fast.go]: the walk over the bytes tried first, which answers
    only yes.  A position in the input is the bytes from there on. *)
From S2P Require Import Prelude Strconv Utf8 Json Jcs.
Open Scope session_scope.
Local Open Scope Z_scope.

(** ** Numbers *)

Definition CheckNumber (lit : list ascii) : result unit :=
  match SetString lit with
  | None => Err ErrNotIJSON
  | Some r =>
      let '(f, exact) := Float64 r in
      match f with
      | Finite _ _ _ =>
          if IsInt r && negb exact then
            match FormatNumber f with
            | Some c =>
                match SetString c with
                | Some cr => if Rat_eqb cr r then Ok tt else Err ErrNotIJSON
                | None => Err ErrNotIJSON
                end
            | None => Err ErrNotIJSON
            end
          else Ok tt
      | _ => Err ErrNotIJSON
      end
  end.

(** ** Surrogates *)

Definition is_low (r : Z) : bool := (56320 <=? r) && (r <=? 57343).
Definition is_high (r : Z) : bool := (55296 <=? r) && (r <=? 56319).

(** [checkSurrogates]: outside a string, and inside one. *)
Fixpoint surrogates (inString : bool) (l : list ascii) : result unit :=
  match l with
  | [] => Ok tt
  | c :: l1 =>
      if negb inString then surrogates (bool_decide (c = quote)) l1
      else if bool_decide (c = quote) then surrogates false l1
      else if bool_decide (c = backslash) then
        match l1 with
        | [] => Ok tt
        | e :: l2 =>
            if negb (bool_decide (e = "u"%char)) then surrogates true l2
            else match l2 with
                 | h1 :: (h2 :: (h3 :: (h4 :: l6))) =>
                     match hex4 [h1; h2; h3; h4] with
                     | None => surrogates true l2
                     | Some (hi, _) =>
                         if is_low hi then Err ErrNotIJSON
                         else if is_high hi then
                           match l6 with
                           | b :: (u :: (k1 :: (k2 :: (k3 :: (k4 :: l12))))) =>
                               if bool_decide (b = backslash) && bool_decide (u = "u"%char) then
                                 match hex4 [k1; k2; k3; k4] with
                                 | Some (lo, _) => if is_low lo then surrogates true l12 else Err ErrNotIJSON
                                 | None => Err ErrNotIJSON
                                 end
                               else Err ErrNotIJSON
                           | _ => Err ErrNotIJSON
                           end
                         else surrogates true l6
                     end
                 | _ => surrogates true l2
                 end
        end
      else surrogates true l1
  end.
Definition checkSurrogates (l : list ascii) : result unit := surrogates false l.

(** ** Tokens *)

(** A [frame] of the stack: its kind, the names it has seen, and whether a name
    comes next. *)
Record frame := mkFrame { f_object : bool; f_keys : list (list ascii); f_expectKey : bool }.

Definition valueDone (stack : list frame) : list frame :=
  match stack with
  | f :: st => if f_object f then mkFrame true (f_keys f) true :: st else stack
  | [] => []
  end.

(** The body of the loop for one token: the stack after it. *)
Definition check_token (stack : list frame) (t : token) : result (list frame) :=
  match t with
  | Delim c =>
      if bool_decide (c = "{"%char) then Ok (mkFrame true [] true :: stack)
      else if bool_decide (c = "["%char) then Ok (mkFrame false [] false :: stack)
      else Ok (valueDone (tail stack))
  | TString s =>
      match stack with
      | f :: st =>
          if f_object f && f_expectKey f then
            if bool_decide (s ∈ f_keys f) then Err ErrNotIJSON
            else Ok (mkFrame true (s :: f_keys f) false :: st)
          else Ok (valueDone stack)
      | [] => Ok (valueDone stack)
      end
  | TNumber n => CheckNumber (number_text n) ;! Ok (valueDone stack)
  | _ => Ok (valueDone stack)
  end.

(** The loop, to the end of the input.  A token takes a byte at least. *)
Fixpoint token_loop (fuel : nat) (d : decoder) (stack : list frame) : result unit :=
  match fuel with
  | O => Err ErrNotIJSON
  | S fuel =>
      match next_token 3 d with
      | TokenEOF => Ok tt
      | TokenError => Err ErrNotIJSON
      | Token t d => let! stack := check_token stack t in token_loop fuel d stack
      end
  end.

Definition checkTokens (data : list ascii) : result unit :=
  refuse_if (negb (Valid data)) ErrNotIJSON ;!
  checkSurrogates data ;!
  token_loop (S (length data)) (mkDecoder data TopValue []) [].

(** ** The walk over the bytes *)

(** [fastString]: the string's bytes, whether it holds an escape, and what
    follows. *)
Fixpoint fastString (l : list ascii) (escaped : bool) : option (list ascii * bool * list ascii) :=
  match l with
  | [] => None
  | c :: l1 =>
      let keep b r := match r with Some (s, esc, r) => Some (b ++ s, esc, r) | None => None end in
      if bool_decide (c = quote) then Some ([], escaped, l1)
      else if byte_of c <? 32 then None
      else if bool_decide (c = backslash) then
        match l1 with
        | [] => None
        | e :: l2 =>
            if bool_decide (is_Some (escape_val e)) then keep [c; e] (fastString l2 true)
            else if bool_decide (e = "u"%char) then
              match l2 with
              | h1 :: (h2 :: (h3 :: (h4 :: l6))) =>
                  match hex4 [h1; h2; h3; h4] with
                  | None => None
                  | Some (v, _) =>
                      if is_surrogate v then None else keep [c; e; h1; h2; h3; h4] (fastString l6 true)
                  end
              | _ => None
              end
            else None
        end
      else keep [c] (fastString l1 escaped)
  end.

(** [fastNumber]. *)
Definition fastNumber (l : list ascii) : option (list ascii) :=
  match scan_number l with
  | None => None
  | Some (n, r) =>
      let plain := bool_decide (length (n_int n) <= 15)%nat
                   && (bool_decide (n_frac n = []) || existsb (fun c => negb (bool_decide (c = "0"%char))) (tail (n_frac n)))
                   && bool_decide (n_exp n = []) in
      if negb plain && negb (is_ok (CheckNumber (number_text n))) then None else Some r
  end.

(** [fastValue], [fastObject] and [fastArray], the loops of the last two
    [fastMembers] and [fastElements].  The names seen are held in one list, of
    which the source keeps the first sixteen in a slice and all in a map once
    there are more. *)
Fixpoint fastValue (fuel : nat) (depth : Z) (l : list ascii) {struct fuel} : option (list ascii) :=
  match fuel with
  | O => None
  | S fuel =>
      match l with
      | [] => None
      | c :: l1 =>
          if bool_decide (c = "{"%char) then
            if maxDepth <=? depth then None
            else match skipWS l1 with
                 | [] => None
                 | d :: r =>
                     if bool_decide (d = "}"%char) then Some r
                     else fastMembers fuel (depth + 1) (d :: r) []
                 end
          else if bool_decide (c = "["%char) then
            if maxDepth <=? depth then None
            else match skipWS l1 with
                 | [] => None
                 | d :: r =>
                     if bool_decide (d = "]"%char) then Some r
                     else fastElements fuel (depth + 1) (d :: r)
                 end
          else if bool_decide (c = quote) then
            match fastString l1 false with Some (_, _, r) => Some r | None => None end
          else if bool_decide (c = "-"%char) || is_digit c then fastNumber l
          else if bool_decide (c = "t"%char) then strip_word (la "true") l
          else if bool_decide (c = "f"%char) then strip_word (la "false") l
          else if bool_decide (c = "n"%char) then strip_word (la "null") l
          else None
      end
  end
with fastMembers (fuel : nat) (depth : Z) (l : list ascii) (keys : list (list ascii)) {struct fuel}
    : option (list ascii) :=
  match fuel with
  | O => None
  | S fuel =>
      match l with
      | [] => None
      | q :: l1 =>
          if bool_decide (q = quote) then
            match fastString l1 false with
            | None => None
            | Some (key, escaped, l2) =>
                if escaped : bool then None
                else if bool_decide (key ∈ keys) then None
                else
                  match skipWS l2 with
                  | [] => None
                  | colon :: l3 =>
                      if bool_decide (colon = ":"%char) then
                        match fastValue fuel depth (skipWS l3) with
                        | None => None
                        | Some l4 =>
                            match skipWS l4 with
                            | [] => None
                            | d :: l5 =>
                                if bool_decide (d = ","%char) then fastMembers fuel depth (skipWS l5) (keys ++ [key])
                                else if bool_decide (d = "}"%char) then Some l5
                                else None
                            end
                        end
                      else None
                  end
            end
          else None
      end
  end
with fastElements (fuel : nat) (depth : Z) (l : list ascii) {struct fuel} : option (list ascii) :=
  match fuel with
  | O => None
  | S fuel =>
      match fastValue fuel depth l with
      | None => None
      | Some l1 =>
          match skipWS l1 with
          | [] => None
          | d :: l2 =>
              if bool_decide (d = ","%char) then fastElements fuel depth (skipWS l2)
              else if bool_decide (d = "]"%char) then Some l2
              else None
          end
      end
  end.

Definition checkFast (data : list ascii) : bool :=
  Valid data &&
  match fastValue (fuel_for (skipWS data)) 0 (skipWS data) with
  | Some r => bool_decide (skipWS r = [])
  | None => false
  end.

(** [Check]. *)
Definition Check (data : list ascii) : result unit :=
  if checkFast data then Ok tt else checkTokens data.
