(* ===== verification/StrconvProps.v ===== *)
(** * Rounding and shortest digits

    A decimal close enough to a double rounds to it ([round_near]), rounding
    depends on the value alone ([round_pos_ratio]), 17 digits are always enough
    ([shortest_Some]), and a whole number of at most 15 digits is exact and is
    its own shortest form ([FormatFloat_short]). *)
From S2P Require Import Prelude Strconv.
Open Scope session_scope.
Local Open Scope Z_scope.

(** ** Digits *)

Lemma digit_char_val d : 0 <= d < 10 -> digit_val (digit_char d) = d /\ is_digit (digit_char d) = true.
Proof.
  intros Hd. assert (d = 0 \/ d = 1 \/ d = 2 \/ d = 3 \/ d = 4 \/ d = 5 \/ d = 6 \/ d = 7 \/ d = 8 \/ d = 9) as Hc by lia.
  by repeat (destruct Hc as [->|Hc]; [done|]); subst.
Qed.

Lemma digits_val_acc l a : foldl (fun acc c => acc * 10 + digit_val c) a l = a * 10 ^ Z.of_nat (length l) + digits_val l.
Proof.
  revert a. induction l as [|c l IH]; intros a; [by rewrite /= Z.mul_1_r Z.add_0_r|].
  unfold digits_val. cbn [foldl length]. rewrite !IH Nat2Z.inj_succ Z.pow_succ_r; [|lia]. lia.
Qed.

Lemma digits_val_app a b : digits_val (a ++ b) = digits_val a * 10 ^ Z.of_nat (length b) + digits_val b.
Proof. unfold digits_val. by rewrite foldl_app digits_val_acc. Qed.

Lemma digits_val_cons c l : digits_val (c :: l) = digit_val c * 10 ^ Z.of_nat (length l) + digits_val l.
Proof. change (c :: l) with ([c] ++ l). by rewrite digits_val_app /digits_val /=. Qed.

Lemma digits_val_zeros k : digits_val (replicate k "0"%char) = 0.
Proof. induction k as [|k IH]; [done|]. rewrite replicate_S digits_val_cons IH. by change (digit_val "0") with 0. Qed.

Lemma is_digit_val c : is_digit c = true -> 0 <= digit_val c <= 9.
Proof. unfold is_digit, digit_val. rewrite andb_true_iff !Z.leb_le. lia. Qed.

Lemma digits_val_bound l : forallb is_digit l = true -> 0 <= digits_val l < 10 ^ Z.of_nat (length l).
Proof.
  induction l as [|c l IH]; [done|]. cbn [forallb length]. rewrite andb_true_iff. intros [Hc Hl].
  apply is_digit_val in Hc. specialize (IH Hl). rewrite digits_val_cons Nat2Z.inj_succ Z.pow_succ_r; [|lia]. nia.
Qed.

(** [digits_go] writes [n] before [acc]. *)
Lemma digits_go_spec fuel n acc :
  0 <= n -> (Z.to_nat (Z.log2 n) < fuel)%nat ->
  exists l, digits_go fuel n acc = l ++ acc /\ digits_val l = n /\ forallb is_digit l = true /\
    l <> [] /\ (0 < n -> 10 ^ (Z.of_nat (length l) - 1) <= n).
Proof.
  revert n acc. induction fuel as [|fuel IH]; intros n acc Hn Hf; [lia|]. cbn [digits_go].
  destruct (Z.ltb_spec n 10).
  - destruct (digit_char_val n ltac:(lia)) as [Hv Hd]. exists [digit_char n]. split_and!; try done.
    + cbn [forallb]. by rewrite Hd.
    + intros Hp. simpl. lia.
  - assert (0 < n / 10) as Hq by (apply Z.div_str_pos; lia).
    pose proof (Z.mod_pos_bound n 10 ltac:(lia)) as Hm. pose proof (Z.div_mod n 10 ltac:(lia)) as Hdm.
    assert (Z.log2 (n / 10) < Z.log2 n) as Hlog.
    { pose proof (Z.log2_spec (n / 10) Hq). apply Z.log2_lt_pow2; [done|].
      pose proof (Z.log2_spec n ltac:(lia)). pose proof (Z.log2_nonneg n). rewrite Z.pow_succ_r in H1; lia. }
    pose proof (Z.log2_nonneg (n / 10)).
    destruct (IH (n / 10) (digit_char (n mod 10) :: acc) ltac:(lia) ltac:(lia)) as (l & He & Hv & Hd & Hne & Hb).
    destruct (digit_char_val (n mod 10) Hm) as [Hv' Hd']. exists (l ++ [digit_char (n mod 10)]). split_and!.
    + rewrite He. by rewrite -app_assoc.
    + rewrite digits_val_app Hv digits_val_cons Hv'. cbn [length]. change (digits_val []) with 0. lia.
    + rewrite forallb_app Hd. cbn [forallb]. by rewrite Hd'.
    + by destruct l.
    + intros _. rewrite length_app /= Nat2Z.inj_add. specialize (Hb Hq).
      replace (Z.of_nat (length l) + Z.of_nat 1 - 1) with (Z.succ (Z.of_nat (length l) - 1)) by lia.
      assert (0 <= Z.of_nat (length l) - 1) by (destruct l; [done|simpl; lia]).
      rewrite Z.pow_succ_r; [|done]. lia.
Qed.

Lemma digits_of_spec n :
  0 <= n -> digits_val (digits_of n) = n /\ forallb is_digit (digits_of n) = true /\ digits_of n <> [] /\
    n < 10 ^ Z.of_nat (length (digits_of n)) /\ (0 < n -> 10 ^ (Z.of_nat (length (digits_of n)) - 1) <= n).
Proof.
  intros Hn. destruct (digits_go_spec (S (Z.to_nat (Z.log2 n))) n [] Hn ltac:(lia)) as (l & He & Hv & Hd & Hne & Hb).
  rewrite app_nil_r in He. unfold digits_of. rewrite He. split_and!; try done.
  rewrite -{1}Hv. by apply digits_val_bound.
Qed.

Lemma digits_of_length n k : 10 ^ (Z.of_nat k - 1) <= n < 10 ^ Z.of_nat k -> 0 < n -> length (digits_of n) = k.
Proof.
  intros Hb Hn. destruct (digits_of_spec n ltac:(lia)) as (_ & _ & Hne & Hu & Hl). specialize (Hl Hn).
  set (j := length (digits_of n)) in *. destruct (Nat.lt_trichotomy j k) as [Hj|[Hj|Hj]]; [|done|].
  - assert (10 ^ Z.of_nat j <= 10 ^ (Z.of_nat k - 1)) by (apply Z.pow_le_mono_r; lia). lia.
  - assert (10 ^ Z.of_nat k <= 10 ^ (Z.of_nat j - 1)) by (apply Z.pow_le_mono_r; lia). lia.
Qed.

Lemma digits_inj a b :
  forallb is_digit a = true -> forallb is_digit b = true -> length a = length b -> digits_val a = digits_val b -> a = b.
Proof.
  revert b. induction a as [|x a IH]; intros [|y b] Ha Hb Hl Hv; try done.
  cbn [forallb] in Ha, Hb. apply andb_true_iff in Ha as [Hx Ha], Hb as [Hy Hb]. injection Hl as Hl.
  rewrite !digits_val_cons Hl in Hv. pose proof (digits_val_bound a Ha) as Ba. rewrite Hl in Ba.
  pose proof (digits_val_bound b Hb) as Bb. set (t := 10 ^ Z.of_nat (length b)) in *.
  assert (digit_val x = digit_val y) as Hxy by nia. f_equal; [|apply IH; try done; nia].
  unfold digit_val, byte_of in Hxy. rewrite -(ascii_N_embedding x) -(ascii_N_embedding y). f_equal. lia.
Qed.

(** ** Powers *)

Lemma up_pos b k : 0 < b -> 0 < up b k.
Proof. intros Hb. apply Z.pow_pos_nonneg; lia. Qed.

Lemma up_nonneg b k : 0 <= k -> up b k = b ^ k.
Proof. intros Hk. unfold up. by rewrite Z.max_r. Qed.

Lemma up_nonpos b k : k <= 0 -> up b k = 1.
Proof. intros Hk. unfold up. by rewrite Z.max_l. Qed.

(** [b^e * b^j = b^(e+j)], across the two sides. *)
Lemma up_add b e j : 0 < b -> 0 <= j -> up b e * b ^ j * up b (- (e + j)) = up b (e + j) * up b (- e).
Proof.
  intros Hb Hj. destruct (Z.le_gt_cases 0 e).
  - rewrite (up_nonneg b e) // (up_nonneg b (e + j)); [|lia]. rewrite !(up_nonpos b (- _)); [|lia..].
    rewrite Z.pow_add_r; lia.
  - rewrite (up_nonpos b e); [|lia]. rewrite (up_nonneg b (- e)); [|lia].
    destruct (Z.le_gt_cases 0 (e + j)).
    + rewrite (up_nonpos b (- (e + j))); [|lia]. rewrite (up_nonneg b (e + j)); [|lia].
      rewrite Z.mul_1_l Z.mul_1_r -Z.pow_add_r; [f_equal; lia|lia..].
    + rewrite (up_nonpos b (e + j)); [|lia]. rewrite (up_nonneg b (- (e + j))); [|lia].
      rewrite !Z.mul_1_l -Z.pow_add_r; [f_equal; lia|lia..].
Qed.

(** [b^(e+j) <= p / q] in terms of [p / q] scaled by [b^e]. *)
Lemma cmp_shift b e j p q : 0 < b -> 0 <= j ->
  (b ^ j * (q * up b e) <= p * up b (- e) <-> q * up b (e + j) <= p * up b (- (e + j))).
Proof.
  intros Hb Hj. pose proof (up_add b e j Hb Hj) as H.
  pose proof (up_pos b e Hb). pose proof (up_pos b (- e) Hb). pose proof (up_pos b (e + j) Hb).
  pose proof (up_pos b (- (e + j)) Hb). pose proof (Z.pow_pos_nonneg b j Hb Hj).
  set (A := up b e) in *. set (A' := up b (- e)) in *. set (B := up b (e + j)) in *. set (B' := up b (- (e + j))) in *.
  set (J := b ^ j) in *. split; intros Hle.
  - apply (Z.mul_le_mono_pos_r _ _ A'); [done|]. replace (q * B * A') with (q * (A * J * B')) by (rewrite H; lia). nia.
  - apply (Z.mul_le_mono_pos_r _ _ B'); [done|]. replace (J * (q * A) * B') with (q * (A * J * B')) by lia. rewrite H. nia.
Qed.

Lemma cmp_shift_lt b e j p q : 0 < b -> 0 <= j ->
  (p * up b (- e) < b ^ j * (q * up b e) <-> p * up b (- (e + j)) < q * up b (e + j)).
Proof. intros Hb Hj. pose proof (cmp_shift b e j p q Hb Hj). lia. Qed.

(** ** Binary exponents *)

Lemma ilog2_spec p q : 0 < p -> 0 < q ->
  q * up 2 (ilog2 p q) <= p * up 2 (- ilog2 p q) /\
  p * up 2 (- (ilog2 p q + 1)) < q * up 2 (ilog2 p q + 1).
Proof.
  intros Hp Hq. pose proof (Z.log2_spec p Hp) as [P1 P2]. pose proof (Z.log2_spec q Hq) as [Q1 Q2].
  pose proof (Z.log2_nonneg p). pose proof (Z.log2_nonneg q).
  rewrite Z.pow_succ_r in P2; [|lia]. rewrite Z.pow_succ_r in Q2; [|lia]. unfold ilog2.
  set (a := Z.log2 p) in *. set (b := Z.log2 q) in *.
  assert (2 ^ b * up 2 (a - b) = 2 ^ a * up 2 (- (a - b))) as Hk.
  { destruct (Z.le_gt_cases b a).
    - rewrite up_nonneg; [|lia]. rewrite up_nonpos; [|lia]. rewrite -Z.pow_add_r; [|lia..]. rewrite Z.mul_1_r. f_equal. lia.
    - rewrite (up_nonpos _ (a - b)); [|lia]. rewrite up_nonneg; [|lia]. rewrite -Z.pow_add_r; [|lia..]. rewrite Z.mul_1_r. f_equal. lia. }
  pose proof (up_pos 2 (a - b) ltac:(lia)). pose proof (up_pos 2 (- (a - b)) ltac:(lia)).
  assert (p * up 2 (- (a - b)) < 2 * 2 ^ a * up 2 (- (a - b))) as Hu by (apply Z.mul_lt_mono_pos_r; lia).
  assert (2 ^ b * up 2 (a - b) <= q * up 2 (a - b)) as Hv by (apply Z.mul_le_mono_nonneg_r; lia).
  assert (q * up 2 (a - b) < 2 * 2 ^ b * up 2 (a - b)) as Hw by (apply Z.mul_lt_mono_pos_r; lia).
  assert (2 ^ a * up 2 (- (a - b)) <= p * up 2 (- (a - b))) as Hx by (apply Z.mul_le_mono_nonneg_r; lia).
  destruct (Z.leb_spec (q * up 2 (a - b)) (p * up 2 (- (a - b)))) as [Hc|Hc].
  - split; [done|]. apply (cmp_shift_lt 2 (a - b) 1 p q); [lia..|]. rewrite Z.pow_1_r. lia.
  - replace (a - b - 1 + 1) with (a - b) by lia. split; [|lia].
    destruct (Z.le_gt_cases (q * up 2 (a - b - 1)) (p * up 2 (- (a - b - 1)))) as [|Hn]; [done|]. exfalso.
    pose proof (cmp_shift_lt 2 (a - b - 1) 1 (2 * p) q ltac:(lia) ltac:(lia)) as Hs.
    replace (a - b - 1 + 1) with (a - b) in Hs by lia. rewrite Z.pow_1_r in Hs. apply proj1 in Hs. specialize (Hs ltac:(lia)). lia.
Qed.

Lemma ilog2_unique p q k : 0 < p -> 0 < q ->
  q * up 2 k <= p * up 2 (- k) -> p * up 2 (- (k + 1)) < q * up 2 (k + 1) -> ilog2 p q = k.
Proof.
  intros Hp Hq H1 H2. destruct (ilog2_spec p q Hp Hq) as [I1 I2]. set (i := ilog2 p q) in *.
  assert (forall a b, a + 1 <= b -> q * up 2 b <= p * up 2 (- b) -> p * up 2 (- (a + 1)) < q * up 2 (a + 1) -> False) as Hno.
  { intros a b Hab Hb Ha.
    pose proof (cmp_shift 2 (a + 1) (b - (a + 1)) p q ltac:(lia) ltac:(lia)) as Hs.
    replace (a + 1 + (b - (a + 1))) with b in Hs by lia. apply proj2 in Hs. specialize (Hs Hb).
    pose proof (Z.pow_pos_nonneg 2 (b - (a + 1)) ltac:(lia) ltac:(lia)). pose proof (up_pos 2 (a + 1) ltac:(lia)). nia. }
  destruct (Z.lt_trichotomy i k) as [Hi|[Hi|Hi]]; [|done|]; exfalso; eauto using Hno with lia.
  - apply (Hno i k); [lia|done..].
  - apply (Hno k i); [lia|done..].
Qed.

(** ** Rounding *)

(** What half-to-even rounding of [num / den] is decided by. *)
Definition nearest (num den : Z) : Z :=
  let m := num / den in
  let r := num mod den in
  if (den <? 2 * r) || (2 * r =? den) && Z.odd m then m + 1 else m.

Lemma round_at_nearest e p q : round_at e p q = nearest (p * up 2 (- e)) (q * up 2 e).
Proof. done. Qed.

Lemma nearest_scale t num den : 0 < t -> 0 < den -> nearest (t * num) (t * den) = nearest num den.
Proof.
  intros Ht Hd. unfold nearest. rewrite Z.div_mul_cancel_l; [|lia..]. rewrite Z.mul_mod_distr_l; [|lia..].
  set (r := num mod den). replace (t * den <? 2 * (t * r)) with (den <? 2 * r); [|].
  2: { destruct (Z.ltb_spec den (2 * r)), (Z.ltb_spec (t * den) (2 * (t * r))); try done; nia. }
  replace (2 * (t * r) =? t * den) with (2 * r =? den); [done|].
  destruct (Z.eqb_spec (2 * r) den), (Z.eqb_spec (2 * (t * r)) (t * den)); try done; nia.
Qed.

Lemma nearest_near num den : 0 < den -> 2 * Z.abs (nearest num den * den - num) <= den.
Proof.
  intros Hd. unfold nearest. pose proof (Z.div_mod num den ltac:(lia)) as H. pose proof (Z.mod_pos_bound num den Hd).
  set (m := num / den) in *. set (r := num mod den) in *.
  destruct (Z.ltb_spec den (2 * r)); simpl; [nia|]. destruct (Z.eqb_spec (2 * r) den); simpl; [|nia].
  destruct (Z.odd m); nia.
Qed.

(** Strictly within half a unit there is one choice. *)
Lemma nearest_unique num den m : 0 < den -> 2 * Z.abs (m * den - num) < den -> nearest num den = m.
Proof. intros Hd Hm. pose proof (nearest_near num den Hd). nia. Qed.

Lemma nearest_mono num den b : 0 < den -> b * den <= num -> b <= nearest num den.
Proof. intros Hd Hb. pose proof (nearest_near num den Hd). nia. Qed.

Lemma nearest_mono' num den b : 0 < den -> num <= b * den -> nearest num den <= b.
Proof. intros Hd Hb. pose proof (nearest_near num den Hd). nia. Qed.

Lemma ilog2_scale t p q : 0 < t -> 0 < p -> 0 < q -> ilog2 (t * p) (t * q) = ilog2 p q.
Proof.
  intros Ht Hp Hq. destruct (ilog2_spec p q Hp Hq). apply ilog2_unique; nia.
Qed.

Lemma round_pos_scale t p q : 0 < t -> 0 < p -> 0 < q -> round_pos (t * p) (t * q) = round_pos p q.
Proof.
  intros Ht Hp Hq. unfold round_pos. rewrite ilog2_scale //. rewrite !round_at_nearest.
  set (e := Z.max emin (ilog2 p q - 52)).
  replace (t * p * up 2 (- e)) with (t * (p * up 2 (- e))) by lia. replace (t * q * up 2 e) with (t * (q * up 2 e)) by lia.
  rewrite nearest_scale //. pose proof (up_pos 2 e ltac:(lia)). nia.
Qed.

(** Rounding depends on the value of a fraction alone. *)
Lemma round_pos_ratio p q p' q' : 0 < p -> 0 < q -> 0 < p' -> 0 < q' -> p * q' = p' * q -> round_pos p q = round_pos p' q'.
Proof.
  intros Hp Hq Hp' Hq' H. rewrite -(round_pos_scale q' p q) // -(round_pos_scale q p' q') //. f_equal; lia.
Qed.

Lemma round64_ratio neg p q p' q' :
  0 <= p -> 0 < q -> 0 <= p' -> 0 < q' -> p * q' = p' * q -> round64 neg p q = round64 neg p' q'.
Proof.
  intros Hp Hq Hp' Hq' H. unfold round64. destruct (Z.eqb_spec p 0), (Z.eqb_spec p' 0); [done|nia..|].
  rewrite (round_pos_ratio p q p' q'); [done|lia..].
Qed.

(** The doubles: a full mantissa, or the smallest exponent. *)
Definition canonical (m e : Z) : Prop :=
  emin <= e /\ 0 < m < 2 ^ 53 /\ (2 ^ 52 <= m \/ e = emin).

(** [p / q] nearer [m * 2^e] than half the gap to the next double, a quarter
    below a power of two, where the gap halves. *)
Definition near (p q m e : Z) : Prop :=
  let num := p * up 2 (- e) in let den := q * up 2 e in
  2 * Z.abs (m * den - num) < den /\ (m = 2 ^ 52 -> 4 * Z.abs (m * den - num) < den).

Lemma le_ilog2 p q k : 0 < p -> 0 < q -> q * up 2 k <= p * up 2 (- k) -> k <= ilog2 p q.
Proof.
  intros Hp Hq Hk. destruct (Z.le_gt_cases k (ilog2 p q)) as [|Hlt]; [done|]. exfalso.
  destruct (ilog2_spec p q Hp Hq) as [_ Hu]. set (i := ilog2 p q) in *.
  pose proof (cmp_shift 2 (i + 1) (k - (i + 1)) p q ltac:(lia) ltac:(lia)) as Hs.
  replace (i + 1 + (k - (i + 1))) with k in Hs by lia. apply proj2 in Hs. specialize (Hs Hk).
  pose proof (Z.pow_pos_nonneg 2 (k - (i + 1)) ltac:(lia) ltac:(lia)). pose proof (up_pos 2 (i + 1) ltac:(lia)). nia.
Qed.

Lemma ilog2_lt p q k : 0 < p -> 0 < q -> p * up 2 (- k) < q * up 2 k -> ilog2 p q < k.
Proof.
  intros Hp Hq Hk. destruct (Z.lt_ge_cases (ilog2 p q) k) as [|Hge]; [done|]. exfalso.
  destruct (ilog2_spec p q Hp Hq) as [Hl _]. set (i := ilog2 p q) in *.
  pose proof (cmp_shift 2 k (i - k) p q ltac:(lia) ltac:(lia)) as Hs.
  replace (k + (i - k)) with i in Hs by lia. apply proj2 in Hs. specialize (Hs Hl).
  pose proof (Z.pow_pos_nonneg 2 (i - k) ltac:(lia) ltac:(lia)). pose proof (up_pos 2 k ltac:(lia)). nia.
Qed.

(** A fraction near a double rounds to it. *)
Lemma round_near p q m e : 0 < p -> 0 < q -> canonical m e -> near p q m e -> round_pos p q = (m, e).
Proof.
  intros Hp Hq (He & Hm & Hc) [Hn Hb]. unfold round_pos. rewrite !round_at_nearest.
  set (num := p * up 2 (- e)) in *. set (den := q * up 2 e) in *.
  assert (0 < den) as Hden by (pose proof (up_pos 2 e ltac:(lia)); unfold den; nia).
  assert (ilog2 p q < e + 53) as Hup.
  { apply ilog2_lt; [done..|]. apply (cmp_shift_lt 2 e 53 p q); [lia..|]. fold num den. nia. }
  destruct (Z.le_gt_cases (2 ^ 52 * den) num) as [Hge|Hlt].
  - assert (e + 52 <= ilog2 p q) as Hlo.
    { apply le_ilog2; [done..|]. apply (cmp_shift 2 e 52 p q); [lia..|]. done. }
    replace (Z.max emin (ilog2 p q - 52)) with e by lia. fold num den.
    rewrite (nearest_unique num den m Hden Hn). destruct (Z.eqb_spec m (2 ^ 53)); [lia|done].
  - assert (ilog2 p q < e + 52) as Hlo.
    { apply ilog2_lt; [done..|]. apply (cmp_shift_lt 2 e 52 p q); [lia..|]. done. }
    destruct (decide (e = emin)) as [->|Hne].
    + replace (Z.max emin (ilog2 p q - 52)) with emin by lia. fold num den.
      rewrite (nearest_unique num den m Hden Hn). destruct (Z.eqb_spec m (2 ^ 53)); [lia|done].
    + destruct Hc as [Hc|]; [|done]. assert (m = 2 ^ 52) as Hm52 by nia. specialize (Hb Hm52).
      pose proof (up_add 2 (e - 1) 1 ltac:(lia) ltac:(lia)) as Hhalf.
      replace (e - 1 + 1) with e in Hhalf by lia. rewrite Z.pow_1_r in Hhalf.
      set (num' := p * up 2 (- (e - 1))). set (den' := q * up 2 (e - 1)).
      assert (num' * den = 2 * num * den') as Hscale.
      { unfold num', den, num, den'. transitivity (p * q * (up 2 e * up 2 (- (e - 1)))); [lia|]. rewrite -Hhalf. lia. }
      assert (0 < den') as Hden' by (pose proof (up_pos 2 (e - 1) ltac:(lia)); unfold den'; nia).
      assert (0 < 2 ^ 53 * den' - num' /\ 2 * (2 ^ 53 * den' - num') < den') as [Hlow Hnear] by (clear Hhalf; nia).
      assert (e - 1 + 52 <= ilog2 p q) as Hlo'.
      { apply le_ilog2; [done..|]. apply (cmp_shift 2 (e - 1) 52 p q); [lia..|]. fold num' den'. nia. }
      replace (Z.max emin (ilog2 p q - 52)) with (e - 1) by lia. fold num' den'.
      rewrite (nearest_unique num' den' (2 ^ 53) Hden' ltac:(nia)) Z.eqb_refl. by rewrite Hm52 Z.sub_add.
Qed.

Lemma round_exact p q m e : 0 < p -> 0 < q -> canonical m e -> p * up 2 (- e) = m * (q * up 2 e) -> round_pos p q = (m, e).
Proof.
  intros Hp Hq Hc Heq. apply round_near; [done..|]. unfold near. rewrite Heq Z.sub_diag.
  pose proof (up_pos 2 e ltac:(lia)). split; [|intros _]; simpl; nia.
Qed.

(** What [round_pos] gives is a double, save that its exponent may be too big. *)
Lemma round_pos_form p q m e : 0 < p -> 0 < q -> round_pos p q = (m, e) ->
  emin <= e /\ 0 <= m < 2 ^ 53 /\ (2 ^ 52 <= m \/ e = emin).
Proof.
  intros Hp Hq. unfold round_pos. rewrite round_at_nearest. set (e' := Z.max emin (ilog2 p q - 52)).
  set (num := p * up 2 (- e')). set (den := q * up 2 e').
  assert (0 < den) as Hden by (pose proof (up_pos 2 e' ltac:(lia)); unfold den; nia).
  assert (0 <= num) as Hnum by (pose proof (up_pos 2 (- e') ltac:(lia)); unfold num; nia).
  assert (nearest num den <= 2 ^ 53) as Hu.
  { apply nearest_mono'; [done|]. apply Z.lt_le_incl. apply (cmp_shift_lt 2 e' 53 p q); [lia..|].
    destruct (ilog2_spec p q Hp Hq) as [_ Hi].
    pose proof (cmp_shift_lt 2 (ilog2 p q + 1) (e' + 53 - (ilog2 p q + 1)) p q ltac:(lia) ltac:(lia)) as Hs.
    replace (ilog2 p q + 1 + (e' + 53 - (ilog2 p q + 1))) with (e' + 53) in Hs by lia. apply Hs.
    pose proof (Z.pow_pos_nonneg 2 (e' + 53 - (ilog2 p q + 1)) ltac:(lia) ltac:(lia)). pose proof (up_pos 2 (ilog2 p q + 1) ltac:(lia)). nia. }
  assert (0 <= nearest num den) as Hl by (apply nearest_mono; lia).
  assert (2 ^ 52 <= nearest num den \/ e' = emin) as Hc.
  { destruct (decide (e' = emin)); [by right|left]. apply nearest_mono; [done|].
    apply (cmp_shift 2 e' 52 p q); [lia..|]. replace (e' + 52) with (ilog2 p q) by lia. by apply ilog2_spec. }
  destruct (Z.eqb_spec (nearest num den) (2 ^ 53)); intros [= <- <-]; lia.
Qed.

(** Whole numbers below [2^53] are doubles. *)
Lemma round_whole p : 0 < p < 2 ^ 53 ->
  exists m e, round_pos p 1 = (m, e) /\ canonical m e /\ e <= 0 /\ m = p * 2 ^ (- e).
Proof.
  intros Hp. pose proof (Z.log2_spec p ltac:(lia)) as [H1 H2]. pose proof (Z.log2_nonneg p).
  assert (Z.log2 p < 53) by (apply Z.log2_lt_pow2; lia). set (e := Z.log2 p - 52).
  assert (2 ^ Z.log2 p * 2 ^ (- e) = 2 ^ 52) as Hpow by (rewrite -Z.pow_add_r; [f_equal|..]; lia).
  assert (canonical (p * 2 ^ (- e)) e) as Hc.
  { rewrite Z.pow_succ_r in H2; [|done]. pose proof (Z.pow_pos_nonneg 2 (- e) ltac:(lia) ltac:(lia)).
    unfold canonical, emin. split_and!; [lia|nia|nia|left; nia]. }
  exists (p * 2 ^ (- e)), e. split_and!; [|done|lia|done].
  apply round_exact; [lia..|done|]. rewrite up_nonneg; [|lia]. rewrite up_nonpos; lia.
Qed.

Lemma round_whole_inj p p' : 0 < p < 2 ^ 53 -> 0 < p' < 2 ^ 53 -> round_pos p 1 = round_pos p' 1 -> p = p'.
Proof.
  intros Hp Hp' H. destruct (round_whole p Hp) as (m & e & Hr & _ & He & Hm).
  destruct (round_whole p' Hp') as (m' & e' & Hr' & _ & He' & Hm'). rewrite Hr Hr' in H. injection H as <- <-.
  pose proof (Z.pow_pos_nonneg 2 (- e) ltac:(lia) ltac:(lia)). nia.
Qed.

(** ** Decimal exponents *)

Lemma digits_length n k : 0 <= k -> 0 < n -> (10 ^ k <= n <-> k < Z.of_nat (length (digits_of n))).
Proof.
  intros Hk Hn. destruct (digits_of_spec n ltac:(lia)) as (_ & _ & _ & Hu & Hl). specialize (Hl Hn).
  set (j := Z.of_nat (length (digits_of n))) in *. split; intros H.
  - apply Z.lt_nge. intros Hj. assert (10 ^ j <= 10 ^ k) by (apply Z.pow_le_mono_r; lia). lia.
  - assert (10 ^ k <= 10 ^ (j - 1)) by (apply Z.pow_le_mono_r; lia). lia.
Qed.

Lemma digits_length_pos n : 0 < Z.of_nat (length (digits_of n)) \/ n < 0.
Proof.
  destruct (Z.lt_ge_cases n 0); [by right|left]. destruct (digits_of_spec n ltac:(lia)) as (_ & _ & Hne & _).
  destruct (digits_of n); [done|simpl; lia].
Qed.

Lemma point_spec p q : 0 < p -> 0 < q ->
  q * up 10 (point p q - 1) <= p * up 10 (- (point p q - 1)) /\ p * up 10 (- point p q) < q * up 10 (point p q).
Proof.
  intros Hp Hq. unfold point. destruct (Z.leb_spec q p) as [Hle|Hlt].
  - assert (0 < p / q) as Hd by (apply Z.div_str_pos; lia).
    pose proof (digits_length (p / q)) as Hlen. destruct (digits_length_pos (p / q)) as [Hpos|]; [|lia].
    set (n := Z.of_nat (length (digits_of (p / q)))) in *.
    pose proof (Z.div_mod p q ltac:(lia)). pose proof (Z.mod_pos_bound p q Hq).
    rewrite (up_nonneg 10 (n - 1)); [|lia]. rewrite (up_nonneg 10 n); [|lia].
    rewrite !(up_nonpos 10 (- _)); [|lia..]. split.
    + assert (10 ^ (n - 1) <= p / q) by (apply Hlen; lia). nia.
    + assert (p / q < 10 ^ n) by (apply Z.nle_gt; rewrite Hlen; lia). nia.
  - set (t := (q - 1) / p). assert (0 < t) as Ht by (apply Z.div_str_pos; lia).
    pose proof (digits_length t) as Hlen. destruct (digits_length_pos t) as [Hpos|]; [|lia].
    set (n := Z.of_nat (length (digits_of t))) in *.
    pose proof (Z.div_mod (q - 1) p ltac:(lia)) as Hdm. pose proof (Z.mod_pos_bound (q - 1) p Hp). fold t in Hdm.
    rewrite !(up_nonpos 10 (1 - n - 1)); [|lia..]. rewrite (up_nonneg 10 (- (1 - n - 1))); [|lia].
    rewrite !(up_nonpos 10 (1 - n)); [|lia..]. rewrite (up_nonneg 10 (- (1 - n))); [|lia].
    replace (- (1 - n - 1)) with n by lia. replace (- (1 - n)) with (n - 1) by lia. split.
    + assert (t < 10 ^ n) by (apply Z.nle_gt; rewrite Hlen; lia). nia.
    + assert (10 ^ (n - 1) <= t) by (apply Hlen; lia). nia.
Qed.

Lemma point_unique p q n : 0 < p -> 0 < q ->
  q * up 10 (n - 1) <= p * up 10 (- (n - 1)) -> p * up 10 (- n) < q * up 10 n -> point p q = n.
Proof.
  intros Hp Hq H1 H2. destruct (point_spec p q Hp Hq) as [P1 P2]. set (i := point p q) in *.
  assert (forall a b, a <= b - 1 -> q * up 10 (b - 1) <= p * up 10 (- (b - 1)) -> p * up 10 (- a) < q * up 10 a -> False) as Hno.
  { intros a b Hab Hb Ha.
    pose proof (cmp_shift 10 a (b - 1 - a) p q ltac:(lia) ltac:(lia)) as Hs.
    replace (a + (b - 1 - a)) with (b - 1) in Hs by lia. apply proj2 in Hs. specialize (Hs Hb).
    pose proof (Z.pow_pos_nonneg 10 (b - 1 - a) ltac:(lia) ltac:(lia)). pose proof (up_pos 10 a ltac:(lia)). nia. }
  destruct (Z.lt_trichotomy i n) as [Hi|[Hi|Hi]]; [|done|]; exfalso.
  - apply (Hno i n); [lia|done..].
  - apply (Hno n i); [lia|done..].
Qed.

(** ** Shortest digits *)

Definition dec_round (c x : Z) : Z * Z := round_pos (dec_num c x) (dec_den x).

Lemma reads_as_spec c x m e : reads_as c x m e = true <-> dec_round c x = (m, e).
Proof. apply bool_decide_eq_true. Qed.

Lemma dec_den_pos x : 0 < dec_den x.
Proof. by apply up_pos. Qed.

Lemma dec_num_pos c x : 0 < c -> 0 < dec_num c x.
Proof. intros Hc. pose proof (up_pos 10 x ltac:(lia)). unfold dec_num. nia. Qed.

(** Zeros move between the digits and the exponent. *)
Lemma dec_ratio c j x : 0 <= j -> dec_num (c * 10 ^ j) x * dec_den (x + j) = dec_num c (x + j) * dec_den x.
Proof.
  intros Hj. unfold dec_num, dec_den.
  transitivity (c * (up 10 x * 10 ^ j * up 10 (- (x + j)))); [lia|]. rewrite up_add; lia.
Qed.

Lemma dec_round_shift c j x : 0 < c -> 0 <= j -> dec_round (c * 10 ^ j) x = dec_round c (x + j).
Proof.
  intros Hc Hj. pose proof (Z.pow_pos_nonneg 10 j ltac:(lia) Hj).
  apply round_pos_ratio; [apply dec_num_pos; nia|apply dec_den_pos|by apply dec_num_pos|apply dec_den_pos|].
  by apply dec_ratio.
Qed.

(** The fraction whose digits are taken: [m * 2^e / 10^x]. *)
Definition cut_num (m e x : Z) : Z := m * up 2 e * up 10 (- x).
Definition cut_den (e x : Z) : Z := up 2 (- e) * up 10 x.

Lemma cut_den_pos e x : 0 < cut_den e x.
Proof. unfold cut_den. pose proof (up_pos 2 (- e) ltac:(lia)). pose proof (up_pos 10 x ltac:(lia)). nia. Qed.

Lemma at_digits_Some m e n k c : at_digits m e n k = Some c ->
  dec_round c (n - k) = (m, e) /\
  (c = cut_num m e (n - k) / cut_den e (n - k) \/ c = cut_num m e (n - k) / cut_den e (n - k) + 1).
Proof.
  unfold at_digits. fold (cut_num m e (n - k)) (cut_den e (n - k)). set (lo := cut_num m e (n - k) / cut_den e (n - k)).
  destruct (reads_as lo _ _ _) eqn:Hlo, (reads_as (lo + 1) _ _ _) eqn:Hup; try apply reads_as_spec in Hlo;
    try apply reads_as_spec in Hup; intros [= <-]; try (split; [done|auto]; done).
  destruct (_ || _); split; auto.
Qed.

Lemma double_pos m e : canonical m e -> 0 < m * up 2 e.
Proof. intros (_ & Hm & _). pose proof (up_pos 2 e ltac:(lia)). nia. Qed.

Definition double_point (m e : Z) : Z := point (m * up 2 e) (up 2 (- e)).

(** At [k] digits the quotient has [k] digits. *)
Lemma cut_bounds m e k : canonical m e -> 1 <= k ->
  let x := double_point m e - k in
  10 ^ (k - 1) * cut_den e x <= cut_num m e x /\ cut_num m e x < 10 ^ k * cut_den e x.
Proof.
  intros Hc Hk x. destruct (point_spec (m * up 2 e) (up 2 (- e)) (double_pos m e Hc) (up_pos 2 (- e) ltac:(lia))) as [H1 H2].
  fold (double_point m e) in H1, H2. unfold cut_num, cut_den, x. set (n := double_point m e) in *. split.
  - apply (cmp_shift 10 (n - k) (k - 1)); [lia..|]. by replace (n - k + (k - 1)) with (n - 1) by lia.
  - apply (cmp_shift_lt 10 (n - k) k); [lia..|]. by replace (n - k + k) with n by lia.
Qed.

Lemma at_digits_bounds m e k c : canonical m e -> 1 <= k -> at_digits m e (double_point m e) k = Some c ->
  10 ^ (k - 1) <= c <= 10 ^ k.
Proof.
  intros Hc Hk Ha. destruct (at_digits_Some _ _ _ _ _ Ha) as [_ Hlo].
  destruct (cut_bounds m e k Hc Hk) as [H1 H2]. set (x := double_point m e - k) in *. pose proof (cut_den_pos e x) as Hd.
  assert (10 ^ (k - 1) <= cut_num m e x / cut_den e x) by (apply Z.div_le_lower_bound; lia).
  assert (cut_num m e x / cut_den e x < 10 ^ k) by (apply Z.div_lt_upper_bound; lia). lia.
Qed.

(** The nearest 17-digit decimal of a double reads as it. *)
Lemma at_digits_17 m e : canonical m e -> exists c, at_digits m e (double_point m e) 17 = Some c.
Proof.
  intros Hc. pose proof Hc as (He & Hm & Hc'). destruct (cut_bounds m e 17 Hc ltac:(lia)) as [H1 _].
  set (x := double_point m e - 17) in *. pose proof (cut_den_pos e x) as Hd. set (num := cut_num m e x) in *. set (den := cut_den e x) in *.
  set (c := nearest num den).
  assert (10 ^ 16 <= c) as Hc16 by (apply nearest_mono; [done|]; exact H1).
  assert (c = num / den \/ c = num / den + 1) as Hlo.
  { unfold c, nearest. destruct (_ || _); auto. }
  assert (reads_as c x m e = true) as Hr.
  { apply reads_as_spec, round_near; [apply dec_num_pos; lia|apply dec_den_pos|done|].
    pose proof (nearest_near num den Hd) as Hn. fold c in Hn. unfold near.
    replace (dec_num c x * up 2 (- e)) with (c * den) by (unfold dec_num, den, cut_den; lia).
    set (denE := dec_den x * up 2 e).
    assert (num = m * denE) as Hnum by (unfold num, cut_num, denE, dec_den; lia).
    assert (0 < denE) by (pose proof (dec_den_pos x); pose proof (up_pos 2 e ltac:(lia)); unfold denE; nia).
    clearbody c den denE. subst num. split; [nia|]. intros ->. nia. }
  unfold at_digits. fold (double_point m e). change (double_point m e - 17) with x. fold (cut_num m e x) (cut_den e x). fold num den.
  destruct Hlo as [Hlo|Hlo]; rewrite -Hlo Hr; clear Hr; destruct (reads_as _ _ _ _); eauto.
Qed.

Lemma shortest_go_Some fuel m e n k : (exists j, k <= j < k + Z.of_nat fuel /\ is_Some (at_digits m e n j)) ->
  exists c j, shortest_go fuel m e n k = Some (c, n - j) /\ k <= j < k + Z.of_nat fuel /\ at_digits m e n j = Some c /\
    forall i, k <= i < j -> at_digits m e n i = None.
Proof.
  revert k. induction fuel as [|fuel IH]; intros k (j & Hj & Hs); [lia|]. cbn [shortest_go].
  destruct (at_digits m e n k) as [c|] eqn:Ha.
  - exists c, k. split_and!; [done|lia..|done|]. intros i Hi. lia.
  - destruct (IH (k + 1)) as (c & i & Hc & Hi & Hd & Hno).
    { exists j. split; [|done]. destruct (decide (j = k)) as [->|]; [rewrite Ha in Hs; by destruct Hs|lia]. }
    exists c, i. split_and!; [done|lia..|done|]. intros l Hl. destruct (decide (l = k)) as [->|]; [done|]. apply Hno. lia.
Qed.

(** 17 digits are enough. *)
Lemma shortest_Some m e : canonical m e ->
  exists c k, shortest m e = Some (c, double_point m e - k) /\ 1 <= k <= 17 /\ 10 ^ (k - 1) <= c <= 10 ^ k /\
    dec_round c (double_point m e - k) = (m, e).
Proof.
  intros Hc. destruct (shortest_go_Some 17 m e (double_point m e) 1) as (c & k & Hs & Hk & Ha & _).
  { exists 17. split; [lia|]. by apply at_digits_17. }
  exists c, k. split_and!; [done|lia..| | |].
  - eapply at_digits_bounds; [done| |done]. lia.
  - eapply at_digits_bounds; [done| |done]. lia.
  - by apply at_digits_Some in Ha as [? _].
Qed.

Lemma strip_zeros_spec fuel c x : 0 < c <= 10 ^ Z.of_nat fuel ->
  exists j, 0 <= j /\ (strip_zeros fuel c x).2 = x + j /\ c = (strip_zeros fuel c x).1 * 10 ^ j /\
    0 < (strip_zeros fuel c x).1 /\ (strip_zeros fuel c x).1 mod 10 <> 0.
Proof.
  revert c x. induction fuel as [|fuel IH]; intros c x Hc.
  - exists 0. cbn [strip_zeros fst snd]. assert (c = 1) as -> by (simpl in Hc; lia). split_and!; [lia..|done].
  - cbn [strip_zeros]. destruct (Z.eqb_spec (c mod 10) 0) as [Hz|Hz].
    + rewrite Nat2Z.inj_succ Z.pow_succ_r in Hc; [|lia]. pose proof (Z.div_mod c 10 ltac:(lia)).
      destruct (IH (c / 10) (x + 1)) as (j & Hj & Hx & Hv & Hp & Hn); [nia|].
      exists (j + 1). split_and!; [lia|lia| |done..]. rewrite Z.pow_add_r; [|lia..]. lia.
    + exists 0. simpl. split_and!; [lia..|done].
Qed.

(** The digits [FormatFloat] writes for a double read as it. *)
Lemma FormatFloat_reads m e : canonical m e ->
  exists c x, FormatFloat_e m e = Some (digits_of c, Z.of_nat (length (digits_of c)) + x - 1) /\
    0 < c /\ c mod 10 <> 0 /\ dec_round c x = (m, e) /\ c <= 10 ^ 17 /\
    (exists k d, 1 <= k <= 17 /\ 10 ^ (k - 1) <= d <= 10 ^ k /\ exists j, 0 <= j /\ d = c * 10 ^ j /\ x = double_point m e - k + j).
Proof.
  intros Hc. destruct (shortest_Some m e Hc) as (d & k & Hs & Hk & Hd & Hr).
  assert (10 ^ k <= 10 ^ 17) as Hk17 by (apply Z.pow_le_mono_r; lia).
  assert (0 < 10 ^ (k - 1)) by (apply Z.pow_pos_nonneg; lia).
  destruct (strip_zeros_spec 17 d (double_point m e - k)) as (j & Hj & Hx & Hv & Hp & Hn).
  { change (Z.of_nat 17) with 17. lia. }
  unfold FormatFloat_e. rewrite Hs. destruct (strip_zeros 17 d (double_point m e - k)) as [c x]. cbn [fst snd] in *.
  assert (0 < 10 ^ j) by (apply Z.pow_pos_nonneg; lia).
  exists c, x. split_and!; try done.
  - subst x. rewrite -dec_round_shift //. by rewrite -Hv.
  - nia.
  - exists k, d. split_and!; try lia. exists j. split_and!; lia.
Qed.

(** ** Whole numbers of at most 15 digits *)

Lemma reads_as_whole n m e c x : 0 < n < 2 ^ 53 -> round_pos n 1 = (m, e) -> 0 <= x -> 0 < c -> c * 10 ^ x < 2 ^ 53 ->
  reads_as c x m e = (c * 10 ^ x =? n).
Proof.
  intros Hn Hr Hx Hc Hb. pose proof (Z.pow_pos_nonneg 10 x ltac:(lia) Hx). unfold reads_as, dec_num, dec_den.
  rewrite up_nonneg // up_nonpos; [|lia]. destruct (Z.eqb_spec (c * 10 ^ x) n) as [->|Hne].
  - by apply bool_decide_eq_true.
  - apply bool_decide_eq_false. rewrite -Hr. intros Hi. apply Hne, round_whole_inj; [nia|done..].
Qed.

Lemma double_point_whole n m e : 0 < n < 2 ^ 53 -> round_pos n 1 = (m, e) ->
  double_point m e = Z.of_nat (length (digits_of n)).
Proof.
  intros Hn Hr. destruct (round_whole n Hn) as (m' & e' & Hr' & _ & He & Hm). rewrite Hr in Hr'. injection Hr' as <- <-.
  unfold double_point. rewrite up_nonpos // up_nonneg; [|lia]. subst m. set (t := 2 ^ (- e)).
  assert (0 < t) by (apply Z.pow_pos_nonneg; lia).
  unfold point. destruct (Z.leb_spec t (n * t * 1)); [|nia]. by rewrite Z.mul_1_r Z.div_mul; [|lia].
Qed.

Lemma at_digits_whole n m e k : 0 < n < 10 ^ 15 -> round_pos n 1 = (m, e) ->
  1 <= k <= double_point m e ->
  let x := double_point m e - k in
  at_digits m e (double_point m e) k = if n mod 10 ^ x =? 0 then Some (n / 10 ^ x) else None.
Proof.
  intros Hn Hr Hk x. assert (0 < n < 2 ^ 53) as Hn' by lia.
  pose proof (double_point_whole n m e Hn' Hr) as Hp.
  assert (0 <= x) as Hx by lia.
  assert (10 ^ x <= n) as Hxn.
  { apply digits_length; [done|lia|]. lia. }
  unfold at_digits. fold x. fold (cut_num m e x) (cut_den e x).
  destruct (round_whole n Hn') as (m' & e' & Hr' & _ & He & Hm). rewrite Hr in Hr'. injection Hr' as <- <-.
  unfold cut_num, cut_den. rewrite (up_nonpos 2 e) // (up_nonpos 10 (- x)); [|lia]. rewrite (up_nonneg 10 x) // (up_nonneg 2 (- e)); [|lia].
  subst m. set (t := 2 ^ (- e)). assert (0 < t) as Ht by (apply Z.pow_pos_nonneg; lia).
  assert (0 < 10 ^ x) as Hpx by (apply Z.pow_pos_nonneg; lia). set (z := 10 ^ x) in *.
  replace (n * t * 1 * 1) with (t * n) by lia. rewrite Z.div_mul_cancel_l; [|lia..]. rewrite Z.mul_mod_distr_l; [|lia..].
  pose proof (Z.div_mod n z ltac:(lia)) as Hdm. pose proof (Z.mod_pos_bound n z Hpx) as Hmod.
  assert (0 < n / z) as Hlo by (apply Z.div_str_pos; lia).
  fold t in Hr. rewrite !(reads_as_whole n _ e _ x Hn' Hr Hx); fold z; [|lia|nia|lia|nia].
  set (r := n mod z) in *. set (lo := n / z) in *.
  destruct (Z.eqb_spec ((lo + 1) * z) n); [nia|]. destruct (Z.eqb_spec (lo * z) n), (Z.eqb_spec r 0); try done; nia.
Qed.

(** A whole number of at most 15 digits is its own shortest form. *)
Lemma FormatFloat_short n m e : 0 < n < 10 ^ 15 -> round_pos n 1 = (m, e) ->
  exists c j, FormatFloat_e m e = Some (digits_of c, Z.of_nat (length (digits_of c)) + j - 1) /\
    0 < c /\ 0 <= j /\ n = c * 10 ^ j.
Proof.
  intros Hn Hr. assert (0 < n < 2 ^ 53) as Hn' by lia. pose proof (double_point_whole n m e Hn' Hr) as Hp.
  set (N := double_point m e) in *.
  assert (1 <= N <= 15) as HN.
  { destruct (digits_length_pos n); [|lia]. split; [lia|]. apply Z.nlt_ge. rewrite Hp.
    intros H15. apply (digits_length n 15) in H15; lia. }
  assert (is_Some (at_digits m e N N)) as Hlast.
  { unfold N. rewrite (at_digits_whole n m e N Hn Hr); [|fold N; lia]. fold N. rewrite Z.sub_diag Z.mod_1_r. simpl. eauto. }
  destruct (shortest_go_Some 17 m e N 1) as (d & k & Hs & Hk & Ha & Hno); [exists N; split; [lia|done]|].
  assert (k <= N) as HkN.
  { apply Z.nlt_ge. intros Hlt. rewrite Hno in Hlast; [by destruct Hlast|lia]. }
  unfold N in Ha. rewrite (at_digits_whole n m e k Hn Hr) in Ha; [|fold N; lia]. fold N in Ha.
  destruct (Z.eqb_spec (n mod 10 ^ (N - k)) 0) as [Hz|]; [|done]. injection Ha as Ha.
  assert (0 < 10 ^ (N - k)) as Hpow by (apply Z.pow_pos_nonneg; lia).
  pose proof (Z.div_mod n (10 ^ (N - k)) ltac:(lia)) as Hdm. rewrite Hz Ha in Hdm.
  destruct (strip_zeros_spec 17 d (N - k)) as (j & Hj & Hx & Hv & Hpos & _).
  { change (Z.of_nat 17) with 17. nia. }
  unfold FormatFloat_e, shortest. fold (double_point m e) N. rewrite Hs.
  destruct (strip_zeros 17 d (N - k)) as [c x]. cbn [fst snd] in *. exists c, x. split_and!; [done..|lia|].
  rewrite Hdm Hv Hx Z.pow_add_r; [|lia..]. lia.
Qed.

(** ** Ranges *)

(** The decimal point of a finite double. *)
Lemma double_point_range m e : canonical m e -> e <= emax -> -323 <= double_point m e <= 309.
Proof.
  intros Hc He. pose proof Hc as (Hmin & Hm & _).
  destruct (point_spec (m * up 2 e) (up 2 (- e)) (double_pos m e Hc) (up_pos 2 (- e) ltac:(lia))) as [H1 H2].
  fold (double_point m e) in H1, H2. set (n := double_point m e) in *. unfold emin, emax in *. split.
  - apply Z.nlt_ge. intros Hn. rewrite (up_nonpos 10 n) in H2; [|lia]. rewrite (up_nonneg 10 (- n)) in H2; [|lia].
    assert (10 ^ 324 <= 10 ^ (- n)) by (apply Z.pow_le_mono_r; lia).
    assert (up 2 (- e) <= 2 ^ 1074) by (apply Z.pow_le_mono_r; lia).
    assert (2 ^ 1074 < 10 ^ 324) by (vm_compute; reflexivity).
    pose proof (double_pos m e Hc). nia.
  - apply Z.nlt_ge. intros Hn. rewrite (up_nonneg 10 (n - 1)) in H1; [|lia]. rewrite (up_nonpos 10 (- (n - 1))) in H1; [|lia].
    assert (10 ^ 309 <= 10 ^ (n - 1)) by (apply Z.pow_le_mono_r; lia).
    assert (up 2 e <= 2 ^ 971) by (apply Z.pow_le_mono_r; lia).
    assert (2 ^ 53 * 2 ^ 971 < 10 ^ 309) by (vm_compute; reflexivity).
    pose proof (up_pos 2 (- e) ltac:(lia)). pose proof (up_pos 2 e ltac:(lia)).
    assert (m * up 2 e <= 2 ^ 53 * 2 ^ 971) by nia. nia.
Qed.
