(* ===== verification/Utf8Props.v ===== *)
(** * Texts as runes

    A text is valid exactly when it is the encodings of some runes
    ([Valid_encoded]), decoding gives them back ([runes_encoded]), and on valid
    texts byte order is UTF-16 order until a rune leaves the basic plane
    ([less_bytes_LessUTF16]). *)
From S2P Require Import Prelude Strconv Utf8 Json Jcs.
Open Scope session_scope.
Local Open Scope Z_scope.

(** ** Bytes *)

Lemma byte_of_range c : 0 <= byte_of c < 256.
Proof. unfold byte_of. pose proof (N_ascii_bounded c). lia. Qed.

Lemma ascii_of_byte c : ascii_of (byte_of c) = c.
Proof. unfold ascii_of, byte_of. rewrite N2Z.id. apply ascii_N_embedding. Qed.

Lemma byte_of_ascii z : 0 <= z < 256 -> byte_of (ascii_of z) = z.
Proof. intros Hz. unfold ascii_of, byte_of. rewrite N_ascii_embedding; lia. Qed.

Lemma byte_inj a b : byte_of a = byte_of b -> a = b.
Proof. intros H. by rewrite -(ascii_of_byte a) -(ascii_of_byte b) H. Qed.

(** ** Encoding and decoding one rune *)

(** The Unicode scalar values. *)
Definition scalar (r : Z) : Prop := 0 <= r <= 1114111 /\ is_surrogate r = false.

Lemma scalar_range r : scalar r <-> 0 <= r < 55296 \/ 57344 <= r <= 1114111.
Proof.
  unfold scalar, is_surrogate. rewrite andb_false_iff !Z.leb_gt. lia.
Qed.

(** The shape of an encoding, by the size of the rune. *)
Lemma EncodeRune_shape r : scalar r ->
  r < 128 /\ EncodeRune r = [ascii_of r] \/
  (128 <= r < 2048 /\ EncodeRune r = [ascii_of (192 + r / 64); ascii_of (128 + r mod 64)]) \/
  (2048 <= r < 65536 /\ EncodeRune r =
     [ascii_of (224 + r / 4096); ascii_of (128 + r / 64 mod 64); ascii_of (128 + r mod 64)]) \/
  (65536 <= r /\ EncodeRune r =
     [ascii_of (240 + r / 262144); ascii_of (128 + r / 4096 mod 64); ascii_of (128 + r / 64 mod 64); ascii_of (128 + r mod 64)]).
Proof.
  intros [Hr Hs]. unfold EncodeRune. rewrite Hs. destruct (Z.ltb_spec r 0); [lia|].
  destruct (Z.ltb_spec r 128); [by left|right]. destruct (Z.ltb_spec r 2048); [left; done|right].
  destruct (Z.ltb_spec 1114111 r); [lia|]. simpl. destruct (Z.ltb_spec r 65536); [left|right]; done.
Qed.

Lemma in_range_spec lo hi c : in_range lo hi c = true <-> lo <= byte_of c <= hi.
Proof. unfold in_range. rewrite andb_true_iff !Z.leb_le. lia. Qed.

(** A number of base 64, one digit at a time. *)
Lemma base64 r : r = r / 64 * 64 + r mod 64 /\ 0 <= r mod 64 < 64.
Proof. pose proof (Z.div_mod r 64 ltac:(lia)). pose proof (Z.mod_pos_bound r 64 ltac:(lia)). lia. Qed.

Lemma div_4096 r : r / 4096 = r / 64 / 64.
Proof. by rewrite Z.div_div; [|lia..]. Qed.

Lemma div_262144 r : r / 262144 = r / 64 / 64 / 64.
Proof. by rewrite !Z.div_div; [|lia..]. Qed.

Lemma runes_EncodeRune r l : scalar r -> runes (EncodeRune r ++ l) = Some r :: runes l.
Proof.
  intros Hs. pose proof (base64 r). pose proof (base64 (r / 64)). pose proof (base64 (r / 64 / 64)).
  rewrite scalar_range in Hs.
  destruct (EncodeRune_shape r) as [[Hr ->]|[[Hr ->]|[[Hr ->]|[Hr ->]]]]; [by apply scalar_range|..]; cbn [app];
    rewrite ?div_262144 ?div_4096; set (q := r mod 64) in *; set (r1 := r / 64) in *; set (q1 := r1 mod 64) in *;
    set (r2 := r1 / 64) in *; set (q2 := r2 mod 64) in *; set (r3 := r2 / 64) in *; clearbody q r1 q1 r2 q2 r3;
    cbn [runes]; rewrite !byte_of_ascii; try lia.
  - by decide_bool (r <? 128) true.
  - decide_bool (192 + r1 <? 128) false. decide_bool (194 <=? 192 + r1) true. decide_bool (192 + r1 <=? 223) true.
    simpl. replace (cont (ascii_of (128 + q))) with true.
    2: { symmetry. apply in_range_spec. rewrite byte_of_ascii; lia. }
    unfold rune2. rewrite !byte_of_ascii; [|lia..]. do 2 f_equal. lia.
  - decide_bool (224 + r2 <? 128) false. decide_bool (224 + r2 <=? 223) false. decide_bool (224 <=? 224 + r2) true.
    decide_bool (224 + r2 <=? 239) true. rewrite andb_false_r. simpl.
    replace (second3 (224 + r2) (ascii_of (128 + q1))) with true.
    2: { symmetry. unfold second3. destruct (Z.eqb_spec (224 + r2) 224); [|destruct (Z.eqb_spec (224 + r2) 237)];
         apply in_range_spec; rewrite byte_of_ascii; lia. }
    replace (cont (ascii_of (128 + q))) with true.
    2: { symmetry. apply in_range_spec. rewrite byte_of_ascii; lia. }
    simpl. unfold rune3. rewrite !byte_of_ascii; [|lia..]. do 2 f_equal. lia.
  - decide_bool (240 + r3 <? 128) false. decide_bool (240 + r3 <=? 223) false. decide_bool (240 + r3 <=? 239) false.
    decide_bool (240 <=? 240 + r3) true. decide_bool (240 + r3 <=? 244) true. rewrite !andb_false_r. simpl.
    replace (second4 (240 + r3) (ascii_of (128 + q2))) with true.
    2: { symmetry. unfold second4. destruct (Z.eqb_spec (240 + r3) 240); [|destruct (Z.eqb_spec (240 + r3) 244)];
         apply in_range_spec; rewrite byte_of_ascii; lia. }
    replace (cont (ascii_of (128 + q1))) with true.
    2: { symmetry. apply in_range_spec. rewrite byte_of_ascii; lia. }
    replace (cont (ascii_of (128 + q))) with true.
    2: { symmetry. apply in_range_spec. rewrite byte_of_ascii; lia. }
    simpl. unfold rune4. rewrite !byte_of_ascii; [|lia..]. do 2 f_equal. lia.
Qed.

Lemma base64_unique r a b : 0 <= b < 64 -> r = a * 64 + b -> r / 64 = a /\ r mod 64 = b.
Proof. intros Hb ->. split; [rewrite Z.div_add_l; [rewrite Z.div_small|]; lia|]. rewrite Z.add_comm Z.mod_add; [rewrite Z.mod_small|]; lia. Qed.

Lemma EncodeRune_2 a b : 194 <= byte_of a <= 223 -> cont b = true ->
  scalar (rune2 a b) /\ EncodeRune (rune2 a b) = [a; b].
Proof.
  intros Ha Hb. apply in_range_spec in Hb. unfold rune2. set (x := byte_of a) in *. set (y := byte_of b) in *.
  destruct (base64_unique ((x - 192) * 64 + (y - 128)) (x - 192) (y - 128) ltac:(lia) eq_refl) as [Hq Hr].
  assert (scalar ((x - 192) * 64 + (y - 128))) as Hs by (apply scalar_range; lia). split; [done|].
  destruct (EncodeRune_shape _ Hs) as [[? _]|[[_ ->]|[[? _]|[? _]]]]; [lia| |lia..].
  rewrite Hq Hr. by rewrite !Zplus_minus !ascii_of_byte.
Qed.

Lemma EncodeRune_3 a b c : 224 <= byte_of a <= 239 -> second3 (byte_of a) b = true -> cont c = true ->
  scalar (rune3 a b c) /\ EncodeRune (rune3 a b c) = [a; b; c].
Proof.
  intros Ha Hb Hc. apply in_range_spec in Hc. unfold second3 in Hb. unfold rune3.
  set (x := byte_of a) in *. set (y := byte_of b) in *. set (z := byte_of c) in *.
  assert (128 <= y <= 191 /\ (x = 224 -> 160 <= y) /\ (x = 237 -> y <= 159)) as (Hy & Hy1 & Hy2).
  { destruct (Z.eqb_spec x 224); [|destruct (Z.eqb_spec x 237)]; apply in_range_spec in Hb; fold y in Hb; lia. }
  set (r := (x - 224) * 4096 + (y - 128) * 64 + (z - 128)).
  destruct (base64_unique r ((x - 224) * 64 + (y - 128)) (z - 128) ltac:(lia) ltac:(lia)) as [Hq Hr].
  destruct (base64_unique (r / 64) (x - 224) (y - 128) ltac:(lia) ltac:(lia)) as [Hq1 Hr1].
  assert (scalar r) as Hs by (apply scalar_range; lia). split; [done|].
  destruct (EncodeRune_shape _ Hs) as [[? _]|[[? _]|[[_ ->]|[? _]]]]; [lia|lia| |lia].
  rewrite div_4096 Hq1 Hr1 Hr. by rewrite !Zplus_minus !ascii_of_byte.
Qed.

Lemma EncodeRune_4 a b c d : 240 <= byte_of a <= 244 -> second4 (byte_of a) b = true -> cont c = true -> cont d = true ->
  scalar (rune4 a b c d) /\ EncodeRune (rune4 a b c d) = [a; b; c; d].
Proof.
  intros Ha Hb Hc Hd. apply in_range_spec in Hc, Hd. unfold second4 in Hb. unfold rune4.
  set (x := byte_of a) in *. set (y := byte_of b) in *. set (z := byte_of c) in *. set (w := byte_of d) in *.
  assert (128 <= y <= 191 /\ (x = 240 -> 144 <= y) /\ (x = 244 -> y <= 143)) as (Hy & Hy1 & Hy2).
  { destruct (Z.eqb_spec x 240); [|destruct (Z.eqb_spec x 244)]; apply in_range_spec in Hb; fold y in Hb; lia. }
  set (r := (x - 240) * 262144 + (y - 128) * 4096 + (z - 128) * 64 + (w - 128)).
  destruct (base64_unique r ((x - 240) * 4096 + (y - 128) * 64 + (z - 128)) (w - 128) ltac:(lia) ltac:(lia)) as [Hq Hr].
  destruct (base64_unique (r / 64) ((x - 240) * 64 + (y - 128)) (z - 128) ltac:(lia) ltac:(lia)) as [Hq1 Hr1].
  destruct (base64_unique (r / 64 / 64) (x - 240) (y - 128) ltac:(lia) ltac:(lia)) as [Hq2 Hr2].
  assert (scalar r) as Hs by (apply scalar_range; lia). split; [done|].
  destruct (EncodeRune_shape _ Hs) as [[? _]|[[? _]|[[? _]|[_ ->]]]]; [lia|lia|lia|].
  rewrite div_4096 div_262144 Hq2 Hr2 Hr1 Hr. by rewrite !Zplus_minus !ascii_of_byte.
Qed.

Lemma EncodeRune_1 a : byte_of a < 128 -> scalar (byte_of a) /\ EncodeRune (byte_of a) = [a].
Proof.
  intros Ha. pose proof (byte_of_range a). assert (scalar (byte_of a)) as Hs by (apply scalar_range; lia). split; [done|].
  destruct (EncodeRune_shape _ Hs) as [[_ ->]|[[? _]|[[? _]|[? _]]]]; [|lia..]. by rewrite ascii_of_byte.
Qed.

(** The first rune of a text is what the text starts with. *)
Lemma runes_Some_inv l r rest : runes l = Some r :: rest ->
  exists l', l = EncodeRune r ++ l' /\ scalar r /\ runes l' = rest.
Proof.
  destruct l as [|a l1]; [done|]. cbn [runes].
  destruct (Z.ltb_spec (byte_of a) 128) as [Ha|Ha].
  { intros [= <- <-]. destruct (EncodeRune_1 a Ha) as [Hs ->]. by exists l1. }
  destruct ((194 <=? byte_of a) && (byte_of a <=? 223)) eqn:H2.
  { apply andb_true_iff in H2 as [?%Z.leb_le ?%Z.leb_le]. destruct l1 as [|b l2]; [done|].
    destruct (cont b) eqn:Hb; [|done]. intros [= <- <-].
    destruct (EncodeRune_2 a b) as [Hs ->]; [lia|done|]. by exists l2. }
  destruct ((224 <=? byte_of a) && (byte_of a <=? 239)) eqn:H3.
  { apply andb_true_iff in H3 as [?%Z.leb_le ?%Z.leb_le]. destruct l1 as [|b [|c l3]]; [done..|].
    destruct (second3 (byte_of a) b && cont c) eqn:Hb; [|done]. apply andb_true_iff in Hb as [Hb Hc]. intros [= <- <-].
    destruct (EncodeRune_3 a b c) as [Hs ->]; [lia|done..|]. by exists l3. }
  destruct ((240 <=? byte_of a) && (byte_of a <=? 244)) eqn:H4; [|done].
  apply andb_true_iff in H4 as [?%Z.leb_le ?%Z.leb_le]. destruct l1 as [|b [|c [|d l4]]]; [done..|].
  destruct (second4 (byte_of a) b && cont c && cont d) eqn:Hb; [|done].
  apply andb_true_iff in Hb as [[Hb Hc]%andb_true_iff Hd]. intros [= <- <-].
  destruct (EncodeRune_4 a b c d) as [Hs ->]; [lia|done..|]. by exists l4.
Qed.

(** ** Texts *)

Definition encoded (rs : list Z) : list ascii := mjoin (EncodeRune <$> rs).

Lemma encoded_cons r rs : encoded (r :: rs) = EncodeRune r ++ encoded rs.
Proof. done. Qed.

Lemma encoded_app rs rs' : encoded (rs ++ rs') = encoded rs ++ encoded rs'.
Proof. unfold encoded. by rewrite fmap_app join_app. Qed.

Lemma runes_encoded rs l : Forall scalar rs -> runes (encoded rs ++ l) = (Some <$> rs) ++ runes l.
Proof.
  induction 1 as [|r rs Hr _ IH]; [done|]. rewrite encoded_cons -app_assoc runes_EncodeRune // IH. done.
Qed.

Lemma runes_all rs l : runes l = Some <$> rs -> l = encoded rs /\ Forall scalar rs.
Proof.
  revert l. induction rs as [|r rs IH]; intros l H.
  - destruct l as [|a l]; [done|]. exfalso. revert H. cbn [runes fmap list_fmap].
    repeat (case_match; try done).
  - apply runes_Some_inv in H as (l' & -> & Hr & H). destruct (IH _ H) as [-> Hrs]. split; [done|by constructor].
Qed.

Lemma Valid_encoded l : Valid l = true <-> exists rs, Forall scalar rs /\ l = encoded rs.
Proof.
  unfold Valid. split.
  - intros H. assert (exists rs, runes l = Some <$> rs) as [rs Hrs].
    { induction (runes l) as [|[r|] rs IH]; [by exists []| |done]. cbn [forallb] in H.
      apply andb_true_iff in H as [_ H]. destruct (IH H) as [rs' ->]. by exists (r :: rs'). }
    destruct (runes_all _ _ Hrs) as [-> Hs]. by exists rs.
  - intros (rs & Hrs & ->). rewrite -(app_nil_r (encoded rs)) runes_encoded // app_nil_r.
    induction rs as [|r rs IH]; [done|]. cbn [fmap list_fmap forallb]. apply Forall_cons in Hrs as [_ Hrs].
    by rewrite IH.
Qed.

Lemma range_encoded rs : Forall scalar rs -> range_runes (encoded rs) = rs.
Proof.
  intros Hrs. unfold range_runes. rewrite -(app_nil_r (encoded rs)) runes_encoded // app_nil_r.
  rewrite -list_fmap_compose. by rewrite -{2}(list_fmap_id rs).
Qed.

Lemma to_valid_Valid l : Valid l = true -> to_valid l = l.
Proof. intros (rs & Hrs & ->)%Valid_encoded. unfold to_valid. by rewrite range_encoded. Qed.

Lemma range_runes_scalar l : Forall scalar (range_runes l).
Proof.
  remember (length l) as n eqn:Hn. revert l Hn. induction n as [n IH] using lt_wf_ind. intros l ->.
  destruct (runes l) as [|[r|] rest] eqn:Hr; unfold range_runes; rewrite Hr; [constructor| |].
  - apply runes_Some_inv in Hr as (l' & -> & Hs & <-). constructor; [done|]. apply (IH (length l')); [|done].
    rewrite length_app. destruct (EncodeRune_shape r Hs) as [[_ ->]|[[_ ->]|[[_ ->]|[_ ->]]]]; simpl; lia.
  - destruct l as [|a l]; [done|]. constructor; [by apply scalar_range; unfold RuneError; simpl; lia|].
    assert (rest = runes l) as ->.
    { revert Hr. cbn [runes]. repeat (case_match; try done); by intros [= <-]. }
    apply (IH (length l)); [simpl; lia|done].
Qed.

Lemma Valid_to_valid l : Valid (to_valid l) = true.
Proof. apply Valid_encoded. exists (range_runes l). split; [apply range_runes_scalar|done]. Qed.

Lemma range_to_valid l : range_runes (to_valid l) = range_runes l.
Proof. apply range_encoded, range_runes_scalar. Qed.

Lemma Valid_app a b : Valid a = true -> Valid b = true -> Valid (a ++ b) = true.
Proof.
  rewrite !Valid_encoded. intros (rs & Hrs & ->) (rs' & Hrs' & ->). exists (rs ++ rs').
  split; [by apply Forall_app|]. by rewrite encoded_app.
Qed.

Lemma EncodeRune_high r : scalar r -> 128 <= r -> Forall (fun c => 128 <= byte_of c) (EncodeRune r).
Proof.
  intros Hs Hr. pose proof (base64 r). pose proof (base64 (r / 64)). pose proof (base64 (r / 64 / 64)).
  pose proof Hs as Hs'. rewrite scalar_range in Hs'.
  destruct (EncodeRune_shape r Hs) as [[? _]|[[? ->]|[[? ->]|[? ->]]]]; [lia|..]; rewrite ?div_262144 ?div_4096;
    repeat constructor; rewrite byte_of_ascii; lia.
Qed.

(** An ASCII character ends whatever sequence comes before it. *)
Lemma Valid_ascii a c b : byte_of c < 128 -> Valid (a ++ c :: b) = true -> Valid a = true /\ Valid b = true.
Proof.
  intros Hc. rewrite Valid_encoded. intros (rs & Hrs & H). revert a H.
  induction Hrs as [|r rs Hr Hrs IH]; intros a H; [by destruct a|].
  rewrite encoded_cons in H.
  assert (Valid (EncodeRune r) = true) as Hvr.
  { apply Valid_encoded. exists [r]. split; [by constructor|]. by rewrite encoded_cons app_nil_r. }
  apply app_eq_inv in H as [(k & -> & Hk)|(k & Hk & H)].
  - destruct (IH k (eq_sym Hk)) as [Ha Hb]. split; [by apply Valid_app|done].
  - destruct k as [|x k].
    { rewrite app_nil_r in Hk. subst a. simpl in H. destruct (IH [] H) as [_ Hb]. by rewrite Hvr. }
    injection H as <- ->. destruct (Z.lt_ge_cases r 128) as [Hlt|Hge].
    + destruct (EncodeRune_shape r Hr) as [[_ He]|[[? _]|[[? _]|[? _]]]]; [|lia..]. rewrite He in Hk.
      destruct a as [|y [|]]; simplify_eq/=. split; [done|]. apply Valid_encoded. by exists rs.
    + exfalso. pose proof (EncodeRune_high r Hr Hge) as Hall. rewrite Hk in Hall.
      apply Forall_app in Hall as [_ Hall]. apply Forall_cons in Hall as [Hx _]. lia.
Qed.

Lemma Valid_ascii_r a c b : byte_of c < 128 -> Valid a = true -> Valid b = true -> Valid (a ++ c :: b) = true.
Proof.
  intros Hc Ha Hb. apply Valid_app; [done|]. apply (Valid_app [c]); [|done]. apply Valid_encoded.
  destruct (EncodeRune_1 c Hc) as [Hs He]. exists [byte_of c]. split; [by constructor|].
  by rewrite encoded_cons He.
Qed.

(** ** Writing a text *)

Lemma write_rune_bytes r : scalar r -> write_rune r = mjoin (append_byte <$> EncodeRune r).
Proof.
  intros Hs. destruct (Z.lt_ge_cases r 128) as [Hlt|Hge].
  - pose proof Hs as Hs'. rewrite scalar_range in Hs'.
    destruct (EncodeRune_shape r Hs) as [[_ He]|[[? _]|[[? _]|[? _]]]]; [|lia..].
    unfold write_rune. rewrite He. cbn [fmap list_fmap mjoin list_join]. unfold append_byte. rewrite byte_of_ascii; [|lia].
    rewrite app_nil_r. by repeat (case_match; try done).
  - assert (write_rune r = EncodeRune r) as ->.
    { unfold write_rune. repeat (case_match; try lia). done. }
    pose proof (EncodeRune_high r Hs Hge) as Hall. induction Hall as [|c l Hc _ IH]; [done|].
    cbn [fmap list_fmap mjoin list_join]. rewrite -IH. unfold append_byte. by repeat (case_match; try lia).
Qed.

(** [appendString] writes what [writeString] writes. *)
Lemma appendString_writeString s : Valid s = true -> appendString s = writeString s.
Proof.
  intros (rs & Hrs & ->)%Valid_encoded. unfold appendString, writeString. rewrite range_encoded //. do 2 f_equal.
  induction Hrs as [|r rs Hr _ IH]; [done|]. rewrite encoded_cons fmap_app join_app IH.
  by rewrite -write_rune_bytes.
Qed.

(** ** Order *)

Lemma less_units_irrefl a : less_units a a = false.
Proof. induction a as [|x a IH]; [done|]. simpl. by rewrite Z.eqb_refl. Qed.

Lemma less_units_trans a b c : less_units a b = true -> less_units b c = true -> less_units a c = true.
Proof.
  revert b c. induction a as [|x a IH]; intros [|y b] [|z c]; simpl; try done.
  destruct (Z.eqb_spec x y), (Z.eqb_spec y z), (Z.eqb_spec x z); subst; try rewrite !Z.ltb_lt; try done; try lia; eauto.
Qed.

Lemma less_units_total a b : less_units a b = true \/ a = b \/ less_units b a = true.
Proof.
  revert b. induction a as [|x a IH]; intros [|y b]; simpl; auto.
  destruct (Z.eqb_spec x y) as [->|Hne].
  - rewrite Z.eqb_refl. destruct (IH b) as [?|[->|?]]; auto.
  - destruct (Z.eqb_spec y x); [lia|]. rewrite !Z.ltb_lt. lia.
Qed.

Lemma less_units_app p a b : less_units (p ++ a) (p ++ b) = less_units a b.
Proof. induction p as [|x p IH]; [done|]. simpl. by rewrite Z.eqb_refl. Qed.

Lemma units_of_scalar r : scalar r ->
  r < 65536 /\ units_of r = [r] \/
  65536 <= r /\ units_of r = [55296 + (r - 65536) / 1024; 56320 + (r - 65536) mod 1024].
Proof.
  intros [Hr Hs]. unfold units_of. rewrite Hs. destruct (Z.leb_spec 65536 r).
  - right. destruct (Z.leb_spec r 1114111); [done|lia].
  - left. destruct (Z.ltb_spec r 0), (Z.ltb_spec 1114111 r); try lia. done.
Qed.

Lemma utf16_inj rs rs' : Forall scalar rs -> Forall scalar rs' -> utf16_Encode rs = utf16_Encode rs' -> rs = rs'.
Proof.
  intros Hrs. revert rs'. induction Hrs as [|r rs Hr _ IH]; intros rs' Hrs' H.
  - destruct Hrs' as [|r' rs' Hr' _]; [done|]. unfold utf16_Encode in H. cbn [fmap list_fmap mjoin list_join] in H.
    destruct (units_of_scalar r' Hr') as [[_ He]|[_ He]]; by rewrite He in H.
  - destruct Hrs' as [|r' rs' Hr' Hrs']; unfold utf16_Encode in H; cbn [fmap list_fmap mjoin list_join] in H.
    { destruct (units_of_scalar r Hr) as [[_ He]|[_ He]]; by rewrite He in H. }
    fold (utf16_Encode rs) (utf16_Encode rs') in H.
    pose proof (Z.div_mod (r - 65536) 1024 ltac:(lia)). pose proof (Z.mod_pos_bound (r - 65536) 1024 ltac:(lia)).
    pose proof (Z.div_mod (r' - 65536) 1024 ltac:(lia)). pose proof (Z.mod_pos_bound (r' - 65536) 1024 ltac:(lia)).
    pose proof Hr as Hr1. pose proof Hr' as Hr1'. rewrite scalar_range in Hr1. rewrite scalar_range in Hr1'.
    destruct (units_of_scalar r Hr) as [[Hlt He]|[Hge He]], (units_of_scalar r' Hr') as [[Hlt' He']|[Hge' He']];
      rewrite He He' in H; cbn [app] in H.
    + injection H as -> H. f_equal. auto.
    + injection H as H _. lia.
    + injection H as H _. lia.
    + injection H as Ha Hb H. f_equal; [lia|auto].
Qed.

(** [LessUTF16] is a strict total order of valid texts. *)
Lemma LessUTF16_irrefl a : LessUTF16 a a = false.
Proof. apply less_units_irrefl. Qed.

Lemma LessUTF16_trans a b c : LessUTF16 a b = true -> LessUTF16 b c = true -> LessUTF16 a c = true.
Proof. apply less_units_trans. Qed.

Lemma LessUTF16_total a b : Valid a = true -> Valid b = true -> LessUTF16 a b = true \/ a = b \/ LessUTF16 b a = true.
Proof.
  intros (rs & Hrs & ->)%Valid_encoded (rs' & Hrs' & ->)%Valid_encoded. unfold LessUTF16. rewrite !range_encoded //.
  destruct (less_units_total (utf16_Encode rs) (utf16_Encode rs')) as [?|[H|?]]; auto.
  apply utf16_inj in H; [|done..]. subst. auto.
Qed.

Lemma supplementary_encoded rs : Forall scalar rs -> hasSupplementary (encoded rs) = false -> Forall (fun r => r < 65536) rs.
Proof.
  induction 1 as [|r rs Hr _ IH]; [constructor|]. rewrite encoded_cons. unfold hasSupplementary. rewrite existsb_app.
  intros [H1 H2]%orb_false_iff. constructor; [|by apply IH]. apply Z.nle_gt. intros Hge.
  destruct (EncodeRune_shape r Hr) as [[? _]|[[? _]|[[? _]|[? He]]]]; [lia..|]. rewrite He in H1. cbn [existsb] in H1.
  apply orb_false_iff in H1 as [H1 _]. rewrite Z.leb_gt in H1. rewrite byte_of_ascii in H1.
  - pose proof (Z.div_pos r 262144). lia.
  - destruct Hr as [Hr _]. pose proof (Z.div_mod r 262144 ltac:(lia)). pose proof (Z.mod_pos_bound r 262144 ltac:(lia)). lia.
Qed.

(** Encodings of different basic runes differ in a byte they both have, in the
    order of the runes. *)
Lemma EncodeRune_order r r' a b : scalar r -> scalar r' -> r < 65536 -> r' < 65536 -> r <> r' ->
  less_units ((byte_of <$> EncodeRune r) ++ a) ((byte_of <$> EncodeRune r') ++ b) = (r <? r').
Proof.
  intros Hr Hr' Hlt Hlt' Hne. pose proof Hr as S1. pose proof Hr' as S2. rewrite scalar_range in S1. rewrite scalar_range in S2.
  pose proof (base64 r). pose proof (base64 (r / 64)). pose proof (base64 r'). pose proof (base64 (r' / 64)).
  destruct (EncodeRune_shape r Hr) as [[? ->]|[[? ->]|[[? ->]|[? _]]]]; [..|lia];
  destruct (EncodeRune_shape r' Hr') as [[? ->]|[[? ->]|[[? ->]|[? _]]]]; try lia;
    rewrite ?div_4096; set (q := r mod 64) in *; set (r1 := r / 64) in *; set (q1 := r1 mod 64) in *;
    set (r2 := r1 / 64) in *; set (q' := r' mod 64) in *; set (r1' := r' / 64) in *; set (q1' := r1' mod 64) in *;
    set (r2' := r1' / 64) in *; clearbody q r1 q1 r2 q' r1' q1' r2'; cbn [fmap list_fmap app less_units];
    rewrite !byte_of_ascii; try lia;
    repeat match goal with |- context [Z.eqb ?x ?y] => destruct (Z.eqb_spec x y); try lia end;
    match goal with |- Z.ltb ?x ?y = Z.ltb ?z ?w => destruct (Z.ltb_spec x y), (Z.ltb_spec z w); try done; lia end.
Qed.

Lemma bytes_order rs rs' : Forall scalar rs -> Forall scalar rs' ->
  Forall (fun r => r < 65536) rs -> Forall (fun r => r < 65536) rs' ->
  less_units (byte_of <$> encoded rs) (byte_of <$> encoded rs') = less_units (utf16_Encode rs) (utf16_Encode rs').
Proof.
  assert (forall r, scalar r -> r < 65536 -> units_of r = [r]) as Hu.
  { intros r Hr Hlt. destruct (units_of_scalar r Hr) as [[_ ?]|[? _]]; [done|lia]. }
  assert (forall r, exists c l, byte_of <$> EncodeRune r = c :: l) as Hne.
  { intros r. unfold EncodeRune. repeat case_match; simpl; eauto. }
  intros Hrs. revert rs'. induction Hrs as [|r rs Hr _ IH]; intros rs' Hrs' Hb Hb'.
  - destruct Hrs' as [|r' rs' Hr' Hrs']; [done|]. apply Forall_cons in Hb' as [Hb' _]. rewrite encoded_cons fmap_app.
    destruct (Hne r') as (c & l & ->).
    unfold utf16_Encode. cbn [fmap list_fmap mjoin list_join]. by rewrite (Hu r').
  - destruct Hrs' as [|r' rs' Hr' Hrs'].
    { apply Forall_cons in Hb as [Hb _]. rewrite encoded_cons fmap_app.
      destruct (Hne r) as (c & l & ->).
      unfold utf16_Encode. cbn [fmap list_fmap mjoin list_join]. by rewrite (Hu r). }
    apply Forall_cons in Hb as [Hb Hbs], Hb' as [Hb' Hbs']. rewrite !encoded_cons !fmap_app.
    unfold utf16_Encode. cbn [fmap list_fmap mjoin list_join]. rewrite (Hu r) // (Hu r') //. cbn [app less_units].
    fold (utf16_Encode rs) (utf16_Encode rs'). destruct (Z.eqb_spec r r') as [->|Hn].
    + rewrite less_units_app. by apply IH.
    + by apply EncodeRune_order.
Qed.

(** [lessKey] is [LessUTF16]: byte order is used only where it agrees. *)
Lemma lessKey_LessUTF16 a b : Valid a = true -> Valid b = true -> lessKey a b = LessUTF16 a b.
Proof.
  intros Ha Hb. unfold lessKey. destruct (hasSupplementary a) eqn:Ea, (hasSupplementary b) eqn:Eb; try done. simpl.
  apply Valid_encoded in Ha as (rs & Hrs & ->), Hb as (rs' & Hrs' & ->).
  unfold less_bytes, LessUTF16. rewrite !range_encoded //. apply bytes_order; [done..| |]; by apply supplementary_encoded.
Qed.
