(* ===== verification/NumberProps.v ===== *)
(** * Number literals

    What the scanner takes for a number reads back as the parts it was cut
    into; the text [FormatNumber] writes for a double is such a literal, reads
    as that double ([FormatNumber_parses]) and passes the number rule
    ([FormatNumber_checks]); and an integer of at most 15 digits is its own
    canonical text ([short_integer_kept]). *)
From S2P Require Import Prelude Strconv StrconvProps Utf8 Json Jcs Ijson Utf8Props.
Open Scope session_scope.
Local Open Scope Z_scope.

(** ** Runs of digits *)

Definition all_digits (l : list ascii) : Prop := forallb is_digit l = true.

(** Nothing a number could go on with. *)
Definition no_digit (l : list ascii) : Prop := match l with c :: _ => is_digit c = false | [] => True end.

Lemma span_digits_app ds r : all_digits ds -> no_digit r -> span_digits (ds ++ r) = (ds, r).
Proof.
  unfold all_digits. induction ds as [|c ds IH]; intros Hd Hr; cbn [app span_digits].
  - destruct r as [|c r]; [done|]. simpl. simpl in Hr. by rewrite Hr.
  - cbn [forallb] in Hd. apply andb_true_iff in Hd as [Hc Hd]. by rewrite Hc IH.
Qed.

Lemma span_digits_spec l ds r : span_digits l = (ds, r) -> l = ds ++ r /\ all_digits ds /\ no_digit r.
Proof.
  revert ds r. induction l as [|c l IH]; intros ds r; cbn [span_digits].
  - by intros [= <- <-].
  - destruct (is_digit c) eqn:Hc.
    + destruct (span_digits l) as [ds' r'] eqn:He. intros [= <- <-]. destruct (IH _ _ eq_refl) as (-> & Hd & Hr).
      split_and!; [done| |done]. unfold all_digits. cbn [forallb]. by rewrite Hc.
    + intros [= <- <-]. by split_and!.
Qed.

Lemma all_digits_app a b : all_digits (a ++ b) <-> all_digits a /\ all_digits b.
Proof. unfold all_digits. by rewrite forallb_app andb_true_iff. Qed.

Lemma all_digits_zeros n : all_digits (zeros n).
Proof. unfold all_digits, zeros. induction (Z.to_nat n) as [|k IH]; [done|]. by rewrite replicate_S /= IH. Qed.

Lemma digits_of_all n : 0 <= n -> all_digits (digits_of n).
Proof. intros Hn. by destruct (digits_of_spec n Hn) as (_ & ? & _). Qed.

Lemma is_digit_not c d : is_digit c = true -> is_digit d = false -> c <> d.
Proof. by intros H1 H2 ->; rewrite H1 in H2. Qed.

(** A number's first digit is not zero. *)
Lemma digits_of_head n : 0 < n -> exists c l, digits_of n = c :: l /\ is_digit c = true /\ c <> "0"%char.
Proof.
  intros Hn. destruct (digits_of_spec n ltac:(lia)) as (Hv & Hd & Hne & _ & Hl). specialize (Hl Hn).
  destruct (digits_of n) as [|c l] eqn:E; [done|]. exists c, l. cbn [forallb] in Hd. apply andb_true_iff in Hd as [Hc Hd].
  split_and!; [done..|]. intros ->. rewrite digits_val_cons in Hv. change (digit_val "0") with 0 in Hv.
  cbn [length] in Hl. pose proof (digits_val_bound l Hd) as Hb.
  replace (Z.of_nat (S (length l)) - 1) with (Z.of_nat (length l)) in Hl by lia. lia.
Qed.

(** ** Well-formed numbers *)

Definition ok_sign (s : list ascii) : Prop := s = [] \/ s = ["-"%char].
Definition ok_int (i : list ascii) : Prop :=
  i = ["0"%char] \/ all_digits i /\ exists c l, i = c :: l /\ c <> "0"%char.
Definition ok_frac (f : list ascii) : Prop := f = [] \/ exists ds, f = "."%char :: ds /\ all_digits ds /\ ds <> [].
Definition ok_exp (e : list ascii) : Prop :=
  e = [] \/ exists c s ds, e = c :: s ++ ds /\ is_e c = true /\ (s = [] \/ s = ["+"%char] \/ s = ["-"%char]) /\
    all_digits ds /\ ds <> [].

Record number_ok (n : parts) : Prop := {
  no_sign : ok_sign (n_sign n);
  no_int : ok_int (n_int n);
  no_frac : ok_frac (n_frac n);
  no_exp : ok_exp (n_exp n)
}.

Lemma ok_int_digits i : ok_int i -> all_digits i /\ i <> [].
Proof. intros [->|[Hd (c & l & -> & _)]]; done. Qed.

(** What a number in a document is followed by. *)
Definition number_end (r : list ascii) : Prop :=
  match r with c :: _ => is_digit c = false /\ c <> "."%char /\ is_e c = false | [] => True end.

Lemma number_end_no_digit r : number_end r -> no_digit r.
Proof. destruct r; [done|]. by intros (? & _). Qed.

Lemma scan_number_ok l n r : scan_number l = Some (n, r) -> number_ok n /\ l = number_text n ++ r.
Proof.
  unfold scan_number. destruct (scan_sign l) as [s l1] eqn:Hs.
  destruct (scan_int l1) as [[i l2]|] eqn:Hi; [|done]. destruct (scan_frac l2) as [[f l3]|] eqn:Hf; [|done].
  destruct (scan_exp l3) as [[e l4]|] eqn:He; [|done]. intros [= <- <-].
  assert (ok_sign s /\ l = s ++ l1) as [Os ->].
  { unfold scan_sign in Hs. destruct l as [|c l]; [injection Hs as <- <-; by split; [left|]|].
    case_bool_decide; injection Hs as <- <-; subst; split; by [left|right|]. }
  assert (ok_int i /\ l1 = i ++ l2) as [Oi ->].
  { unfold scan_int in Hi. destruct l1 as [|c l1]; [done|]. case_bool_decide.
    - injection Hi as <- <-. subst. split; [by left|done].
    - destruct (is_digit c) eqn:Hc; [|done]. cbn [span_digits] in Hi. rewrite Hc in Hi.
      destruct (span_digits l1) as [ds r] eqn:E. injection Hi as <- <-. apply span_digits_spec in E as (-> & Hd & _).
      split; [|done]. right. split; [|eauto]. unfold all_digits. cbn [forallb]. by rewrite Hc. }
  assert (ok_frac f /\ l2 = f ++ l3) as [Of ->].
  { unfold scan_frac in Hf. destruct l2 as [|c l2]; [injection Hf as <- <-; by split; [left|]|].
    case_bool_decide as Hc; [|injection Hf as <- <-; by split; [left|]].
    destruct (span_digits l2) as [ds r] eqn:E. apply span_digits_spec in E as (-> & Hd & _).
    destruct ds as [|d ds]; [done|]. injection Hf as <- <-. subst. split; [right; eauto|done]. }
  assert (ok_exp e /\ l3 = e ++ l4) as [Oe ->].
  { unfold scan_exp in He. destruct l3 as [|c l3]; [injection He as <- <-; by split; [left|]|].
    destruct (is_e c) eqn:Hc; [|injection He as <- <-; by split; [left|]].
    destruct (match l3 with [] => _ | _ => _ end) as [sg l5] eqn:Esg.
    assert ((sg = [] \/ sg = ["+"%char] \/ sg = ["-"%char]) /\ l3 = sg ++ l5) as [Osg ->].
    { destruct l3 as [|s' l3]; [injection Esg as <- <-; by split; [left|]|].
      destruct (bool_decide (s' = "+"%char) || bool_decide (s' = "-"%char)) eqn:Eb; injection Esg as <- <-; [|by split; [left|]].
      apply orb_true_iff in Eb as [Eb|Eb]; apply bool_decide_eq_true in Eb; subst; split; auto. }
    destruct (span_digits l5) as [ds r] eqn:E. apply span_digits_spec in E as (-> & Hd & _).
    destruct ds as [|d ds]; [done|]. injection He as <- <-. split; [right|by rewrite /= -!app_assoc].
    exists c, sg, (d :: ds). split_and!; try done. }
  split; [by split|]. unfold number_text. simpl. by rewrite -!app_assoc.
Qed.

Lemma is_e_digit c : is_e c = true -> is_digit c = false /\ c <> "."%char /\ c <> "-"%char.
Proof.
  unfold is_e. rewrite orb_true_iff !bool_decide_eq_true. by intros [-> | ->].
Qed.

(** What may follow the parts of a number, back to front. *)
Lemma exp_no_digit e r : ok_exp e -> number_end r -> no_digit (e ++ r).
Proof.
  intros [->|(c & s & ds & -> & Hc & _)] Hr; [by apply number_end_no_digit|]. by apply is_e_digit in Hc as (? & _).
Qed.

Lemma frac_no_digit f e r : ok_frac f -> ok_exp e -> number_end r -> no_digit (f ++ e ++ r).
Proof. intros [->|(ds & -> & _)] He Hr; [exact (exp_no_digit e r He Hr)|exact eq_refl]. Qed.

Lemma scan_exp_text e r : ok_exp e -> number_end r -> scan_exp (e ++ r) = Some (e, r).
Proof.
  intros [->|(c & s & ds & -> & Hc & Hs & Hd & Hne)] Hr; unfold scan_exp; cbn [app].
  - destruct r as [|c r]; [done|]. destruct Hr as (_ & _ & Hr). by rewrite Hr.
  - rewrite Hc -app_assoc.
    assert (forall s', s' = "+"%char \/ s' = "-"%char -> (bool_decide (s' = "+"%char) || bool_decide (s' = "-"%char)) = true) as Hb.
    { by intros s' [-> | ->]. }
    assert (span_digits (ds ++ r) = (ds, r)) as Hspan by (apply span_digits_app; [done|by apply number_end_no_digit]).
    destruct Hs as [->|[-> | ->]]; cbn [app].
    + destruct ds as [|d ds]; [done|]. cbn [app] in *. unfold all_digits in Hd. cbn [forallb] in Hd.
      apply andb_true_iff in Hd as [Hd _].
      assert ((bool_decide (d = "+"%char) || bool_decide (d = "-"%char)) = false) as ->.
      { apply orb_false_iff; split; apply bool_decide_eq_false; intros ->; done. }
      by rewrite Hspan.
    + rewrite Hb; [|by left]. rewrite Hspan. by destruct ds.
    + rewrite Hb; [|by right]. rewrite Hspan. by destruct ds.
Qed.

Lemma scan_frac_text f e r : ok_frac f -> ok_exp e -> number_end r -> scan_frac (f ++ e ++ r) = Some (f, e ++ r).
Proof.
  intros [->|(ds & -> & Hd & Hne)] He Hr; unfold scan_frac; cbn [app].
  - assert (forall c l, e ++ r = c :: l -> c <> "."%char) as Hc.
    { intros c l Hl. destruct He as [->|(c' & s & ds & -> & Hc & _)]; simpl in Hl.
      - subst r. by destruct Hr as (_ & ? & _).
      - injection Hl as <- _. by apply is_e_digit in Hc as (_ & ? & _). }
    destruct (e ++ r) as [|c l]; [done|]. specialize (Hc c l eq_refl). by rewrite bool_decide_eq_false_2.
  - rewrite bool_decide_eq_true_2; [|done]. rewrite span_digits_app; [|done|by apply exp_no_digit]. by destruct ds.
Qed.

Lemma scan_int_text i r : ok_int i -> (i <> ["0"%char] -> no_digit r) -> scan_int (i ++ r) = Some (i, r).
Proof.
  intros [->|[Hd (c & l & -> & Hc)]] Hr; [done|]. unfold scan_int. cbn [app]. rewrite bool_decide_eq_false_2; [|done].
  pose proof Hd as Hd'. unfold all_digits in Hd'. cbn [forallb] in Hd'. apply andb_true_iff in Hd' as [-> _].
  rewrite (span_digits_app (c :: l)); [done..|]. apply Hr. by intros [= -> ->].
Qed.

Lemma ok_int_head i r : ok_int i -> exists c l, i ++ r = c :: l /\ c <> "-"%char /\ is_digit c = true.
Proof.
  intros [->|[Hd (c & l & -> & Hc)]]; [by exists "0"%char, r|]. exists c, (l ++ r). unfold all_digits in Hd.
  cbn [forallb] in Hd. apply andb_true_iff in Hd as [Hd _]. split_and!; [done| |done]. by apply (is_digit_not c).
Qed.

Lemma scan_sign_text s i r : ok_sign s -> ok_int i -> scan_sign (s ++ i ++ r) = (s, i ++ r).
Proof.
  intros [-> | ->] Hi; [|done]. simpl. destruct (ok_int_head i r Hi) as (c & l & -> & Hc & _). simpl.
  by rewrite bool_decide_eq_false_2.
Qed.

(** Scanning a number's text gives its parts back. *)
Lemma scan_number_text n r : number_ok n -> number_end r -> scan_number (number_text n ++ r) = Some (n, r).
Proof.
  intros [Hs Hi Hf He] Hr. unfold scan_number, number_text. rewrite -!app_assoc scan_sign_text //.
  rewrite scan_int_text //; [|intros _; by apply frac_no_digit]. rewrite scan_frac_text // scan_exp_text //. by destruct n.
Qed.

Lemma number_text_head n r : number_ok n ->
  exists c l, number_text n ++ r = c :: l /\ (c = "-"%char \/ is_digit c = true).
Proof.
  intros [[Hs|Hs] Hi _ _]; unfold number_text; rewrite Hs -!app_assoc.
  - destruct (ok_int_head (n_int n) (n_frac n ++ n_exp n ++ r) Hi) as (c & l & -> & _ & Hc). exists c, l. auto.
  - simpl. eauto.
Qed.

(** ** The value of a number *)

Definition exp_parts (e : list ascii) : bool * list ascii :=
  match e with
  | _ :: s :: ds => if bool_decide (s = "-"%char) then (true, ds)
                    else if bool_decide (s = "+"%char) then (false, ds) else (false, s :: ds)
  | _ => (false, [])
  end.

Definition literal_of (n : parts) : Literal :=
  mkLiteral (bool_decide (n_sign n = ["-"%char])) (n_int n) (tail (n_frac n)) (exp_parts (n_exp n)).1 (exp_parts (n_exp n)).2.

Lemma read_exponent_text e : ok_exp e -> read_exponent e = Some (exp_parts e).
Proof.
  intros [->|(c & s & ds & -> & Hc & Hs & Hd & Hne)]; [done|]. unfold read_exponent. rewrite Hc.
  assert (span_digits ds = (ds, [])) as Hspan by (rewrite -{1}(app_nil_r ds); by apply span_digits_app).
  destruct ds as [|d ds]; [done|]. unfold all_digits in Hd. cbn [forallb] in Hd. apply andb_true_iff in Hd as [Hdd _].
  destruct Hs as [->|[-> | ->]]; cbn [app exp_parts].
  - rewrite !bool_decide_eq_false_2; [|by apply is_digit_not..]. by rewrite Hspan.
  - rewrite bool_decide_eq_false_2; [|done]. rewrite bool_decide_eq_true_2; [|done]. by rewrite Hspan.
  - rewrite bool_decide_eq_true_2; [|done]. by rewrite Hspan.
Qed.

Lemma read_literal_text n : number_ok n -> read_literal (number_text n) = Some (literal_of n).
Proof.
  intros [Hs Hi Hf He]. unfold read_literal, number_text, literal_of.
  assert (number_end []) as Hend by done.
  assert (no_digit (n_frac n ++ n_exp n)) as Hnd.
  { rewrite -(app_nil_r (n_exp n)). by apply frac_no_digit. }
  assert (no_digit (n_exp n)) as Hnd' by (rewrite -(app_nil_r (n_exp n)); by apply exp_no_digit).
  destruct (ok_int_digits _ Hi) as [Hid Hine].
  set (rest := n_int n ++ n_frac n ++ n_exp n).
  assert ((let '(f, l) := match n_frac n ++ n_exp n with
                          | c :: l' => if bool_decide (c = "."%char) then span_digits l' else ([], n_frac n ++ n_exp n)
                          | [] => ([], [])
                          end in (f, l)) = (tail (n_frac n), n_exp n)) as Hfrac.
  { destruct Hf as [->|(ds & -> & Hd & _)]; cbn [app tail].
    - destruct He as [->|(c & s & ds & -> & Hc & _)]; [done|]. apply is_e_digit in Hc as (_ & Hc & _).
      by rewrite bool_decide_eq_false_2.
    - rewrite bool_decide_eq_true_2; [|done]. by rewrite span_digits_app. }
  assert (match n_sign n ++ rest with
          | c :: l' => if bool_decide (c = "-"%char) then (true, l') else (false, n_sign n ++ rest)
          | [] => (false, [])
          end = (bool_decide (n_sign n = ["-"%char]), rest)) as ->.
  { destruct Hs as [-> | ->]; [|done]. cbn [app]. destruct (ok_int_head (n_int n) (n_frac n ++ n_exp n) Hi) as (c & l & E & Hc & _).
    fold rest in E. rewrite E. by rewrite !bool_decide_eq_false_2. }
  unfold rest. rewrite span_digits_app //.
  destruct (match n_frac n ++ n_exp n with [] => _ | _ => _ end) as [f l]. injection Hfrac as -> ->.
  rewrite bool_decide_eq_false_2; [|by destruct (n_int n)]. rewrite read_exponent_text //. by destruct (exp_parts _).
Qed.

Lemma capped_small ds : all_digits ds -> digits_val ds < 10000 ->
  foldl (fun e c => if e <? 10000 then e * 10 + digit_val c else e) 0 ds = digits_val ds.
Proof.
  induction ds as [|c ds IH] using rev_ind; intros Hd Hb; [done|].
  apply all_digits_app in Hd as [Hd Hc]. unfold all_digits in Hc. cbn [forallb] in Hc. apply andb_true_iff in Hc as [Hc _].
  apply is_digit_val in Hc. pose proof (digits_val_bound ds Hd) as Hv.
  rewrite digits_val_app digits_val_cons in Hb |- *. cbn [length] in *. change (digits_val []) with 0 in *.
  change (10 ^ Z.of_nat 1) with 10 in *. change (10 ^ Z.of_nat 0) with 1 in *.
  rewrite foldl_app IH; [|done|lia]. cbn [foldl]. decide_bool (digits_val ds <? 10000) true. lia.
Qed.

(** The value of a literal: its digits and the power of ten they are of. *)
Definition lit_exp (x : Literal) : Z := exact_exp x - Z.of_nat (length (l_frac x)).

(** What the layouts of the digits of [c * 10^x] have in common. *)
Record laid_out (c x : Z) (p : parts) : Prop := {
  lo_ok : number_ok p;
  lo_sign : n_sign p = [];
  lo_value : exists j, 0 <= j <= 21 /\ l_digits (literal_of p) = c * 10 ^ j /\ lit_exp (literal_of p) = x - j;
  lo_capped : capped_exp (literal_of p) = exact_exp (literal_of p);
  lo_small : Z.abs (exact_exp (literal_of p)) < 10000
}.

Lemma no_exp_laid_out c x i f j : ok_int i -> ok_frac f -> 0 <= j <= 21 ->
  digits_val (i ++ tail f) = c * 10 ^ j -> - Z.of_nat (length (tail f)) = x - j ->
  laid_out c x (mkParts [] i f []).
Proof.
  intros Hi Hf Hj Hv Hx. split; simpl; try done.
  - split; simpl; try done; by left.
  - exists j. split_and!; try lia; done.
Qed.

Lemma take_drop_digits k l : all_digits l -> all_digits (take k l) /\ all_digits (drop k l).
Proof. intros H. rewrite -(take_drop k l) in H. by apply all_digits_app in H. Qed.

Lemma ok_int_app ds z : all_digits z -> (exists c l, ds = c :: l /\ c <> "0"%char) -> all_digits ds -> ok_int (ds ++ z).
Proof.
  intros Hz (c & l & -> & Hc) Hd. right. split; [by apply all_digits_app|]. exists c, (l ++ z). done.
Qed.

(** The exponent part. *)
Lemma Itoa_spec z : Z.abs z < 10000 ->
  let e := "e"%char :: (if 0 <=? z then ["+"%char] else []) ++ Itoa z in
  ok_exp e /\ digits_val (exp_parts e).2 = Z.abs z /\ (exp_parts e).1 = (z <? 0) /\ all_digits (exp_parts e).2.
Proof.
  intros Hz e. unfold e, Itoa. destruct (Z.leb_spec 0 z) as [Hp|Hn].
  - decide_bool (z <? 0) false. cbn [app]. destruct (digits_of_spec z Hp) as (Hv & Hd & Hne & _).
    split; [right; exists "e"%char, ["+"%char], (digits_of z); split_and!; auto|]. simpl. rewrite Hv Z.abs_eq //.
  - decide_bool (z <? 0) true. cbn [app]. destruct (digits_of_spec (- z) ltac:(lia)) as (Hv & Hd & Hne & _).
    split; [right; exists "e"%char, ["-"%char], (digits_of (- z)); split_and!; auto|]. simpl. rewrite Hv Z.abs_neq; [done|lia].
Qed.

(** [d.ddde±xx]. *)
Definition exp_layout (ds : list ascii) (n : Z) : parts :=
  mkParts [] (take 1 ds) (if 1 <? Z.of_nat (length ds) then "."%char :: drop 1 ds else [])
    ("e"%char :: (if 0 <=? n - 1 then ["+"%char] else []) ++ Itoa (n - 1)).

Lemma exp_layout_spec c x :
  0 < c -> -400 <= Z.of_nat (length (digits_of c)) + x <= 400 ->
  laid_out c x (exp_layout (digits_of c) (Z.of_nat (length (digits_of c)) + x)).
Proof.
  intros Hc Hn. destruct (digits_of_spec c ltac:(lia)) as (Hv & Hd & _).
  destruct (digits_of_head c Hc) as (c0 & l0 & Hh & Hc0 & Hz0).
  set (n := Z.of_nat (length (digits_of c)) + x) in *.
  destruct (Itoa_spec (n - 1) ltac:(lia)) as (He & Hev & Hes & Hed).
  assert (tail (n_frac (exp_layout (digits_of c) n)) = drop 1 (digits_of c)) as Hfrac.
  { unfold exp_layout. rewrite Hh. cbn [n_frac drop length]. destruct (Z.ltb_spec 1 (Z.of_nat (S (length l0)))); [done|].
    destruct l0; [done|simpl in H; lia]. }
  assert (exact_exp (literal_of (exp_layout (digits_of c) n)) = n - 1) as Hx.
  { unfold exact_exp, literal_of. cbn [l_exp l_expneg exp_layout n_exp]. rewrite Hes Hev.
    destruct (Z.ltb_spec (n - 1) 0); lia. }
  split.
  - split; cbn [exp_layout n_sign n_int n_frac n_exp]; [by left| | |done].
    + rewrite Hh. right. split; [|by exists c0, []]. unfold all_digits. cbn [take forallb]. by rewrite Hc0.
    + destruct (Z.ltb_spec 1 (Z.of_nat (length (digits_of c)))); [right|by left]. rewrite Hh in H |- *.
      exists l0. split_and!; [done| |by destruct l0; simpl in H; [lia|]].
      unfold all_digits. rewrite Hh in Hd. cbn [forallb] in Hd. by apply andb_true_iff in Hd as [_ ?].
  - done.
  - exists 0. unfold l_digits, lit_exp. rewrite Hx. unfold literal_of. cbn [l_int l_frac]. rewrite Hfrac.
    cbn [exp_layout n_int]. rewrite take_drop Hv Z.mul_1_r. split_and!; [lia..|].
    rewrite length_drop. assert (0 < length (digits_of c))%nat by (rewrite Hh; simpl; lia). unfold n. lia.
  - unfold capped_exp. rewrite capped_small; [done|done|].
    unfold literal_of. cbn [l_exp exp_layout n_exp]. rewrite Hev. lia.
  - rewrite Hx. lia.
Qed.

Lemma layout_spec c x :
  0 < c <= 10 ^ 17 -> -400 <= Z.of_nat (length (digits_of c)) + x <= 400 ->
  exists p, layout (digits_of c) (Z.of_nat (length (digits_of c)) + x) = number_text p /\ laid_out c x p.
Proof.
  intros Hc Hn. destruct (digits_of_spec c ltac:(lia)) as (Hv & Hd & Hne & _).
  destruct (digits_of_head c ltac:(lia)) as (c0 & l0 & Hh & Hc0 & Hz0).
  assert (1 <= Z.of_nat (length (digits_of c)) <= 18) as Hlen.
  { split; [rewrite Hh; simpl; lia|]. apply Z.nlt_ge. intros Hl. apply (digits_length c 18) in Hl; lia. }
  pose proof (exp_layout_spec c x ltac:(lia) Hn) as Hexp.
  set (ds := digits_of c) in *. set (k := Z.of_nat (length ds)) in *. set (n := k + x) in *. unfold layout. fold k.
  assert (exists c l, ds = c :: l /\ c <> "0"%char) as Hhead by eauto.
  destruct (take_drop_digits (Z.to_nat n) ds Hd) as [Ht Hdr].
  assert (forall p : parts, p = exp_layout ds n ->
    exists p, take 1 ds ++ (if 1 <? k then "."%char :: drop 1 ds else [])
       ++ "e"%char :: (if 0 <=? n - 1 then ["+"%char] else []) ++ Itoa (n - 1) = number_text p /\ laid_out c x p) as Hlast.
  { intros p _. by exists (exp_layout ds n). }
  destruct (Z.leb_spec k n) as [Hkn|Hkn]; cbn [andb]; [destruct (Z.leb_spec n 21) as [H21|H21]|].
  - exists (mkParts [] (ds ++ zeros (n - k)) [] []). split; [unfold number_text; simpl; by rewrite !app_nil_r|].
    apply (no_exp_laid_out c x _ _ x); [apply ok_int_app; [apply all_digits_zeros|done..]|by left|lia| |simpl; lia].
    rewrite app_nil_r digits_val_app Hv /zeros digits_val_zeros length_replicate Z.add_0_r.
    do 2 f_equal. lia.
  - rewrite andb_false_r. decide_bool (n <=? 0) false. rewrite andb_false_r. by apply (Hlast (exp_layout ds n)).
  - decide_bool (n <=? 21) true. rewrite andb_true_r. destruct (Z.ltb_spec 0 n) as [Hp|Hp].
    + exists (mkParts [] (take (Z.to_nat n) ds) ("."%char :: drop (Z.to_nat n) ds) []).
      split; [unfold number_text; simpl; by rewrite app_nil_r|].
      apply (no_exp_laid_out c x _ _ 0); [| |lia| |].
      * right. split; [done|]. exists c0, (take (Z.to_nat n - 1) l0). rewrite Hh.
        replace (Z.to_nat n) with (S (Z.to_nat n - 1)) at 1 by lia. done.
      * right. exists (drop (Z.to_nat n) ds). split_and!; [done..|]. intros H0.
        apply (f_equal length) in H0. rewrite length_drop in H0. simpl in H0. lia.
      * cbn [tail]. rewrite take_drop Hv. lia.
      * cbn [tail]. rewrite length_drop. lia.
    + decide_bool (n <=? 0) true. rewrite andb_true_r. destruct (Z.ltb_spec (-6) n); [|by apply (Hlast (exp_layout ds n))].
      exists (mkParts [] ["0"%char] ("."%char :: zeros (- n) ++ ds) []).
      split; [unfold number_text; simpl; by rewrite app_nil_r|].
      apply (no_exp_laid_out c x _ _ 0); [by left| |lia| |].
      * right. exists (zeros (- n) ++ ds). split_and!; [done| |by rewrite Hh; destruct (zeros (- n))].
        apply all_digits_app. split; [apply all_digits_zeros|done].
      * cbn [tail app]. rewrite digits_val_cons digits_val_app Hv /zeros digits_val_zeros. change (digit_val "0") with 0. lia.
      * cbn [tail]. rewrite length_app /zeros length_replicate. lia.
Qed.

(** ** Doubles and their text *)

Definition with_sign (neg : bool) (p : parts) : parts :=
  mkParts (if neg then ["-"%char] else []) (n_int p) (n_frac p) (n_exp p).

Lemma with_sign_ok neg p : number_ok p -> number_ok (with_sign neg p).
Proof. intros [_ Hi Hf He]. split; simpl; try done. by destruct neg; [right|left]. Qed.

Lemma with_sign_text neg p : n_sign p = [] -> number_text (with_sign neg p) = (if neg then ["-"%char] else []) ++ number_text p.
Proof. intros Hs. unfold number_text, with_sign. simpl. by rewrite Hs. Qed.

Lemma literal_with_sign neg p : literal_of (with_sign neg p) =
  mkLiteral neg (l_int (literal_of p)) (l_frac (literal_of p)) (l_expneg (literal_of p)) (l_exp (literal_of p)).
Proof. by destruct neg. Qed.

(** The number of digits before the point of a decimal does not depend on how
    its zeros are held. *)
Lemma digits_length_shift c j : 0 < c -> 0 <= j ->
  Z.of_nat (length (digits_of (c * 10 ^ j))) = Z.of_nat (length (digits_of c)) + j.
Proof.
  intros Hc Hj. destruct (digits_of_spec c ltac:(lia)) as (_ & _ & Hne & Hu & Hl). specialize (Hl Hc).
  assert (0 < 10 ^ j) by (apply Z.pow_pos_nonneg; lia).
  rewrite -(Z2Nat.id (Z.of_nat (length (digits_of c)) + j)); [|lia]. f_equal. apply digits_of_length; [|nia].
  rewrite Z2Nat.id; [|lia].
  assert (1 <= Z.of_nat (length (digits_of c))) by (destruct (digits_of c); [done|simpl; lia]).
  replace (Z.of_nat (length (digits_of c)) + j - 1) with (Z.of_nat (length (digits_of c)) - 1 + j) by lia.
  rewrite (Z.pow_add_r 10 (Z.of_nat (length (digits_of c)) - 1) j); [|lia..].
  rewrite (Z.pow_add_r 10 (Z.of_nat (length (digits_of c))) j); [|lia..]. nia.
Qed.

Lemma round64_shift neg c j x m e : 0 < c -> 0 <= j -> dec_round c x = (m, e) -> e <= emax ->
  round64 neg (dec_num (c * 10 ^ j) (x - j)) (dec_den (x - j)) = Finite neg m e.
Proof.
  intros Hc Hj Hr He. assert (0 < 10 ^ j) by (apply Z.pow_pos_nonneg; lia).
  rewrite (round64_ratio neg _ _ (dec_num c x) (dec_den x)).
  - unfold round64. pose proof (dec_num_pos c x Hc). decide_bool (dec_num c x =? 0) false.
    change (round_pos (dec_num c x) (dec_den x)) with (dec_round c x). rewrite Hr. by decide_bool (emax <? e) false.
  - pose proof (dec_num_pos (c * 10 ^ j) (x - j)). nia.
  - apply dec_den_pos.
  - pose proof (dec_num_pos c x Hc). lia.
  - apply dec_den_pos.
  - pose proof (dec_ratio c j (x - j) ltac:(lia)) as Hq. by replace (x - j + j) with x in Hq by lia.
Qed.

(** A text whose value rounds to a finite double is parsed as it. *)
Lemma ParseFloat_laid_out neg c x p m e :
  laid_out c x p -> 0 < c -> dec_round c x = (m, e) -> e <= emax ->
  -330 <= Z.of_nat (length (digits_of c)) + x <= 310 ->
  ParseFloat (number_text (with_sign neg p)) = Some (Finite neg m e).
Proof.
  intros [Hok Hs (j & Hj & Hd & Hx) Hcap Hsm] Hc Hr He Hn. unfold ParseFloat.
  rewrite read_literal_text; [|by apply with_sign_ok]. rewrite literal_with_sign. set (l := literal_of p) in *.
  unfold l_digits, capped_exp. cbn [l_neg l_int l_frac l_expneg l_exp].
  change (digits_val (l_int l ++ l_frac l)) with (l_digits l).
  change (if l_expneg l then _ else _) with (capped_exp l).
  rewrite Hcap. change (exact_exp l - Z.of_nat (length (l_frac l))) with (lit_exp l). rewrite Hd Hx.
  assert (0 < 10 ^ j) by (apply Z.pow_pos_nonneg; lia). rewrite digits_length_shift; [|lia..].
  replace (c * 10 ^ j =? 0) with false by (symmetry; apply Z.eqb_neq; nia).
  decide_bool (310 <? Z.of_nat (length (digits_of c)) + j + (x - j)) false.
  decide_bool (Z.of_nat (length (digits_of c)) + j + (x - j) <? -330) false.
  by rewrite (round64_shift neg c j x m e Hc ltac:(lia) Hr He).
Qed.

Lemma SetString_laid_out neg c x p m e :
  laid_out c x p -> 0 < c -> dec_round c x = (m, e) -> e <= emax -> -10000 <= x <= 10000 ->
  exists r, SetString (number_text (with_sign neg p)) = Some r /\ (Float64 r).1 = Finite neg m e.
Proof.
  intros [Hok Hs (j & Hj & Hd & Hx) Hcap Hsm] Hc Hr He Hn. unfold SetString.
  rewrite read_literal_text; [|by apply with_sign_ok]. rewrite literal_with_sign. set (l := literal_of p) in *.
  assert (exact_exp (mkLiteral neg (l_int l) (l_frac l) (l_expneg l) (l_exp l)) = exact_exp l) as -> by done.
  unfold l_digits. cbn [l_neg l_int l_frac l_expneg l_exp].
  change (digits_val (l_int l ++ l_frac l)) with (l_digits l).
  change (exact_exp l - Z.of_nat (length (l_frac l))) with (lit_exp l). rewrite Hd Hx.
  assert (0 < 10 ^ j) by (apply Z.pow_pos_nonneg; lia).
  decide_bool (exact_exp l <? - 2 ^ 63) false. decide_bool (2 ^ 63 <=? exact_exp l) false. cbn [orb].
  replace (c * 10 ^ j =? 0) with false by (symmetry; apply Z.eqb_neq; nia).
  decide_bool (10 ^ 6 <? Z.abs (x - j)) false. eexists. split; [done|]. unfold Float64. cbn [fst r_neg r_num r_den].
  exact (round64_shift neg c j x m e Hc ltac:(lia) Hr He).
Qed.

(** What [FormatNumber] writes for a double: a number that reads as it. *)
Lemma FormatNumber_double neg m e : canonical m e -> e <= emax ->
  exists p r, FormatNumber (Finite neg m e) = Some (number_text p) /\ number_ok p /\
    ParseFloat (number_text p) = Some (Finite neg m e) /\
    SetString (number_text p) = Some r /\ (Float64 r).1 = Finite neg m e.
Proof.
  intros Hc He. destruct (FormatFloat_reads m e Hc) as (c & x & Hf & Hpos & Hmod & Hr & Hle & k & d & Hk & Hd & j & Hj & Hdc & Hx).
  pose proof (double_point_range m e Hc He) as Hrange.
  assert (0 < 10 ^ j) by (apply Z.pow_pos_nonneg; lia). assert (0 < 10 ^ (k - 1)) by (apply Z.pow_pos_nonneg; lia).
  assert (k <= Z.of_nat (length (digits_of d)) <= k + 1) as Hlen.
  { split.
    - assert (k - 1 < Z.of_nat (length (digits_of d))) by (apply digits_length; lia). lia.
    - apply Z.nlt_ge. intros Hl. apply (digits_length d (k + 1)) in Hl; [|lia..].
      rewrite Z.pow_add_r in Hl; [|lia..]. lia. }
  rewrite Hdc digits_length_shift // in Hlen.
  destruct (layout_spec c x) as (p & Hp & Hlo); [lia|lia|].
  destruct (SetString_laid_out neg c x p m e Hlo Hpos Hr He) as (r & Hs & Hfl).
  { destruct (digits_of_spec c ltac:(lia)) as (_ & _ & _ & _ & Hlow).
    assert (Z.of_nat (length (digits_of c)) <= 18); [|lia]. lia. }
  exists (with_sign neg p), r. split_and!; [|by apply with_sign_ok, (lo_ok c x)| |done..].
  - unfold FormatNumber. destruct Hc as (_ & Hm & _). decide_bool (m =? 0) false. rewrite Hf.
    replace (Z.of_nat (length (digits_of c)) + x - 1 + 1) with (Z.of_nat (length (digits_of c)) + x) by lia.
    rewrite Hp with_sign_text //. by apply (lo_sign c x).
  - apply (ParseFloat_laid_out neg c x); try done. lia.
Qed.

(** The doubles [ParseFloat] gives. *)
Definition finite_double (f : float64) : Prop :=
  match f with
  | Finite _ m e => e <= emax /\ (m = 0 \/ canonical m e)
  | _ => False
  end.

Lemma round64_finite neg p q neg' m e : 0 <= p -> 0 < q -> round64 neg p q = Finite neg' m e -> finite_double (Finite neg' m e).
Proof.
  intros Hp Hq. unfold round64. destruct (Z.eqb_spec p 0) as [|Hne].
  - intros [= <- <- <-]. split; [unfold emin, emax; lia|by left].
  - destruct (round_pos p q) as [m' e'] eqn:Hr. destruct (Z.ltb_spec emax e') as [|He]; [done|].
    intros [= <- <- <-]. destruct (round_pos_form p q m' e') as (H1 & H2 & H3); [lia|done..|].
    split; [done|]. destruct (decide (m' = 0)); [by left|right]. split; [done|]. lia.
Qed.

Lemma read_literal_digits s l : read_literal s = Some l -> 0 <= l_digits l.
Proof.
  unfold read_literal. destruct (match s with [] => _ | _ => _ end) as [neg l1].
  destruct (span_digits l1) as [i l2] eqn:Hi. apply span_digits_spec in Hi as (_ & Hi & _).
  destruct (match l2 with [] => _ | _ => _ end) as [f l3] eqn:Hf.
  assert (all_digits f) as Hfd.
  { destruct l2 as [|c l2]; [by injection Hf as <- _|]. case_bool_decide; [|by injection Hf as <- _].
    by apply span_digits_spec in Hf as (_ & ? & _). }
  case_bool_decide; [done|]. destruct (read_exponent l3) as [[eneg e]|]; [|done]. intros [= <-].
  apply digits_val_bound. by apply all_digits_app.
Qed.

Lemma ParseFloat_finite s f : ParseFloat s = Some f -> finite_double f.
Proof.
  unfold ParseFloat. destruct (read_literal s) as [l|] eqn:Hl; [|done].
  apply read_literal_digits in Hl. set (k := capped_exp l - Z.of_nat (length (l_frac l))).
  assert (finite_double (Finite (l_neg l) 0 emin)) as Hz by (split; [unfold emin, emax; lia|by left]).
  destruct (Z.eqb_spec (l_digits l) 0); [by intros [= <-]|]. destruct (_ <? _); [done|].
  destruct (_ <? _); [by intros [= <-]|].
  destruct (round64 _ _ _) as [neg m e| |] eqn:Hr; [|done..]. intros [= <-].
  eapply round64_finite; [|apply dec_den_pos|exact Hr]. unfold dec_num. pose proof (up_pos 10 k ltac:(lia)). nia.
Qed.

(** The canonical text of a double is a number of it, and is its own canonical
    text. *)
Lemma FormatNumber_parses f s : finite_double f -> FormatNumber f = Some s ->
  exists p f', number_ok p /\ s = number_text p /\ ParseFloat s = Some f' /\ FormatNumber f' = Some s.
Proof.
  destruct f as [neg m e| |]; [|done..]. intros [He [->|Hc]] Hf.
  - injection Hf as <-. exists (mkParts [] ["0"%char] [] []), (Finite false 0 emin). split_and!; try done.
    split; simpl; try by left.
  - destruct (FormatNumber_double neg m e Hc He) as (p & r & Hp & Hok & Hpf & _). rewrite Hp in Hf. injection Hf as <-.
    by exists p, (Finite neg m e).
Qed.

(** ... and passes the number rule. *)
Lemma FormatNumber_checks f s : finite_double f -> FormatNumber f = Some s -> CheckNumber s = Ok tt.
Proof.
  destruct f as [neg m e| |]; [|done..]. intros [He [->|Hc]] Hf.
  - by injection Hf as <-.
  - destruct (FormatNumber_double neg m e Hc He) as (p & r & Hp & _ & _ & Hs & Hfl). rewrite Hp in Hf. injection Hf as <-.
    unfold CheckNumber. rewrite Hs. destruct (Float64 r) as [f exact]. simpl in Hfl. subst f.
    destruct (IsInt r && negb exact); [|done]. rewrite Hp Hs.
    assert (Rat_eqb r r = true) as ->; [|done]. unfold Rat_eqb. rewrite Z.eqb_refl. simpl.
    by rewrite bool_decide_eq_true_2 // orb_true_r.
Qed.

(** Every finite double has a canonical text. *)
Lemma FormatNumber_total f : finite_double f -> exists s, FormatNumber f = Some s.
Proof.
  destruct f as [neg m e| |]; [|done..]. intros [He [->|Hc]]; [by eexists|].
  destruct (FormatNumber_double neg m e Hc He) as (p & _ & Hp & _). eauto.
Qed.

(** ** Short integers *)

Lemma ok_int_value i : ok_int i -> i = ["0"%char] \/ 0 < digits_val i /\ digits_of (digits_val i) = i.
Proof.
  intros [->|[Hd (c & l & -> & Hc)]]; [by left|right]. pose proof (digits_val_bound _ Hd) as Hb.
  unfold all_digits in Hd. pose proof Hd as Hd'. cbn [forallb] in Hd'. apply andb_true_iff in Hd' as [Hcd Hld].
  pose proof (is_digit_val c Hcd) as Hcv. pose proof (digits_val_bound l Hld).
  assert (1 <= digit_val c) as Hc1.
  { destruct (decide (digit_val c = 0)) as [H0|]; [|lia]. exfalso. apply Hc, byte_inj. unfold digit_val in H0.
    change (byte_of "0") with 48. lia. }
  rewrite digits_val_cons in Hb |- *. cbn [length] in *.
  assert (0 < 10 ^ Z.of_nat (length l)) by (apply Z.pow_pos_nonneg; lia).
  assert (0 < digit_val c * 10 ^ Z.of_nat (length l) + digits_val l) as Hpos by nia. split; [done|].
  set (v := digit_val c * 10 ^ Z.of_nat (length l) + digits_val l) in *.
  destruct (digits_of_spec v ltac:(lia)) as (Hv & Hvd & _). apply digits_inj; [done..| |].
  - apply digits_of_length; [|done]. cbn [length]. replace (Z.of_nat (S (length l)) - 1) with (Z.of_nat (length l)) by lia. nia.
  - rewrite Hv. by rewrite digits_val_cons.
Qed.

(** An integer of at most 15 digits, other than -0, is its own canonical text. *)
Lemma short_integer_kept s i : ok_sign s -> ok_int i -> (length i <= 15)%nat -> (s = [] \/ i <> ["0"%char]) ->
  exists f, ParseFloat (s ++ i) = Some f /\ FormatNumber f = Some (s ++ i).
Proof.
  intros Hs Hi Hlen Hz. set (p := mkParts s i [] []).
  assert (number_ok p) as Hok by (split; simpl; try done; by left).
  assert (number_text p = s ++ i) as Ht by (unfold number_text; simpl; by rewrite app_nil_r).
  destruct (ok_int_value i Hi) as [->|[Hpos Hdig]].
  { destruct Hz as [->|]; [|done]. exists (Finite false 0 emin). by vm_compute. }
  assert (0 < digits_val i < 10 ^ 15) as Hb.
  { split; [done|]. destruct (ok_int_digits i Hi) as [Hd _]. pose proof (digits_val_bound i Hd).
    assert (10 ^ Z.of_nat (length i) <= 10 ^ 15) by (apply Z.pow_le_mono_r; lia). lia. }
  set (v := digits_val i) in *. destruct (round_whole v ltac:(lia)) as (m & e & Hr & Hc & He & Hm).
  destruct (FormatFloat_short v m e Hb Hr) as (c & j & Hf & Hcp & Hj & Hv).
  exists (Finite (bool_decide (s = ["-"%char])) m e). split.
  - unfold ParseFloat. rewrite -Ht (read_literal_text p Hok). unfold literal_of, capped_exp, l_digits.
    cbn [n_sign n_int n_frac n_exp exp_parts tail l_neg l_int l_frac l_expneg l_exp foldl length p fst snd].
    rewrite app_nil_r. fold v. change (0 - Z.of_nat 0) with 0. rewrite Hdig. decide_bool (v =? 0) false.
    decide_bool (310 <? Z.of_nat (length i) + 0) false. decide_bool (Z.of_nat (length i) + 0 <? -330) false.
    unfold dec_num, dec_den. rewrite !up_nonpos; [|lia..]. rewrite Z.mul_1_r. unfold round64. decide_bool (v =? 0) false.
    rewrite Hr. assert (e <= emax) by (unfold emax; lia). by decide_bool (emax <? e) false.
  - unfold FormatNumber. pose proof Hc as (_ & Hmm & _). decide_bool (m =? 0) false. rewrite Hf.
    replace (Z.of_nat (length (digits_of c)) + j - 1 + 1) with (Z.of_nat (length (digits_of c)) + j) by lia.
    assert (digits_of c ++ zeros j = i) as Hci.
    { rewrite -Hdig Hv. pose proof (digits_length_shift c j Hcp Hj) as Hl.
      destruct (digits_of_spec c ltac:(lia)) as (Hcv & Hcd & _).
      destruct (digits_of_spec (c * 10 ^ j) ltac:(nia)) as (Hjv & Hjd & _).
      apply digits_inj; [apply all_digits_app; split; [done|apply all_digits_zeros]|done| |].
      - rewrite length_app /zeros length_replicate. lia.
      - rewrite Hjv digits_val_app Hcv /zeros digits_val_zeros length_replicate Z2Nat.id //. lia. }
    assert (Z.of_nat (length (digits_of c)) + j <= 15) as Hl15.
    { rewrite -(digits_length_shift c j Hcp Hj) -Hv Hdig. lia. }
    unfold layout. decide_bool (Z.of_nat (length (digits_of c)) <=? Z.of_nat (length (digits_of c)) + j) true.
    decide_bool (Z.of_nat (length (digits_of c)) + j <=? 21) true. cbn [andb].
    replace (Z.of_nat (length (digits_of c)) + j - Z.of_nat (length (digits_of c))) with j by lia. rewrite Hci.
    by destruct Hs as [-> | ->].
Qed.

(** ** The plain forms of [fastNumber] *)

Lemma round_small p q m e : 0 < p -> 0 < q -> p < q * 2 ^ 53 -> round_pos p q = (m, e) -> e <= 1.
Proof.
  intros Hp Hq Hlt. assert (ilog2 p q < 53) as Hi.
  { apply ilog2_lt; [done..|]. rewrite up_nonpos; [|lia]. rewrite up_nonneg; [|lia]. lia. }
  unfold round_pos. destruct (_ =? _); intros [= <- <-]; unfold emin; lia.
Qed.

Lemma CheckNumber_Finite s r neg m e exact : SetString s = Some r -> Float64 r = (Finite neg m e, exact) ->
  IsInt r = false \/ exact = true -> CheckNumber s = Ok tt.
Proof. intros Hs Hf Hp. unfold CheckNumber. rewrite Hs Hf. by destruct Hp as [-> | ->]; rewrite ?andb_false_r. Qed.

Lemma zeros_only ds : all_digits ds -> existsb (fun c => negb (bool_decide (c = "0"%char))) ds = true -> 0 < digits_val ds.
Proof.
  intros Hd. induction ds as [|c ds IH]; [done|]. cbn [existsb]. unfold all_digits in Hd. cbn [forallb] in Hd.
  apply andb_true_iff in Hd as [Hc Hd]. rewrite digits_val_cons. pose proof (digits_val_bound ds Hd).
  assert (0 < 10 ^ Z.of_nat (length ds)) by (apply Z.pow_pos_nonneg; lia). pose proof (is_digit_val c Hc).
  intros [Hz|He]%orb_true_iff; [|specialize (IH Hd He); nia].
  apply negb_true_iff, bool_decide_eq_false in Hz. assert (digit_val c <> 0); [|nia]. intros Hv0. apply Hz, byte_inj.
  unfold digit_val in Hv0. change (byte_of "0") with 48. lia.
Qed.

(** The rule admits an integer of at most 15 digits, and a fraction that is not
    whole with at most 15 digits before the point and at most a million after
    it, which is as far as [big.Rat] reads one. *)
Lemma plain_checks n : number_ok n -> n_exp n = [] -> (length (n_int n) <= 15)%nat ->
  Z.of_nat (length (tail (n_frac n))) <= 10 ^ 6 ->
  (n_frac n = [] \/ existsb (fun c => negb (bool_decide (c = "0"%char))) (tail (n_frac n)) = true) ->
  CheckNumber (number_text n) = Ok tt.
Proof.
  intros Hok He Hlen Hfl Hf. pose proof Hok as [_ Hi Hfr _]. destruct (ok_int_digits _ Hi) as [Hid _].
  assert (all_digits (tail (n_frac n))) as Hfd by (destruct Hfr as [->|(ds & -> & ? & _)]; done).
  set (i := n_int n) in *. set (f := tail (n_frac n)) in *. set (k := Z.of_nat (length f)) in *.
  pose proof (digits_val_bound i Hid) as Hib. pose proof (digits_val_bound f Hfd) as Hfb. fold k in Hfb.
  assert (10 ^ Z.of_nat (length i) <= 10 ^ 15) by (apply Z.pow_le_mono_r; lia).
  assert (0 < 10 ^ k) as Hk by (apply Z.pow_pos_nonneg; lia).
  set (d := digits_val (i ++ f)). assert (d = digits_val i * 10 ^ k + digits_val f) as Hd by (apply digits_val_app).
  assert (SetString (number_text n) = Some (if d =? 0 then mkRat false 0 1
            else mkRat (bool_decide (n_sign n = ["-"%char])) d (10 ^ k))) as Hs.
  { unfold SetString. rewrite read_literal_text // /literal_of He. unfold exact_exp, l_digits.
    cbn [exp_parts fst snd l_neg l_int l_frac l_expneg l_exp]. fold i f. fold d. change (digits_val []) with 0. fold k.
    cbn [Z.ltb Z.leb Z.compare Z.opp Z.pow orb]. destruct (Z.eqb_spec d 0); [done|].
    decide_bool (10 ^ 6 <? Z.abs (0 - k)) false. unfold dec_num, dec_den.
    rewrite up_nonpos; [|lia]. rewrite up_nonneg; [|lia]. rewrite Z.mul_1_r. do 3 f_equal. lia. }
  destruct (Z.eqb_spec d 0) as [|Hd0].
  { apply (CheckNumber_Finite _ _ false 0 emin true Hs); [done|by right]. }
  set (neg := bool_decide _) in Hs. assert (0 < d) as Hdp by nia.
  destruct (round_pos d (10 ^ k)) as [m e] eqn:Hr.
  assert (e <= 1) as He1 by (apply (round_small d (10 ^ k) m e); [done..|nia|done]).
  assert ((Float64 (mkRat neg d (10 ^ k))).1 = Finite neg m e) as Hfin.
  { unfold Float64, round64. cbn [r_neg r_num r_den fst]. decide_bool (d =? 0) false. rewrite Hr.
    assert (e <= emax) by (unfold emax; lia). by decide_bool (emax <? e) false. }
  destruct (Float64 (mkRat neg d (10 ^ k))) as [f64 exact] eqn:Hflt. simpl in Hfin. subst f64.
  apply (CheckNumber_Finite _ _ neg m e exact Hs Hflt).
  destruct Hf as [Hf|Hf].
  - right. assert (k = 0) as Hk0 by (unfold k, f; by rewrite Hf). rewrite Hk0 in Hr, Hflt, Hd, Hfb.
    destruct (round_whole d) as (m' & e' & Hr' & _ & He' & Hm'); [nia|]. change (10 ^ 0) with 1 in *.
    rewrite Hr in Hr'. injection Hr' as <- <-. unfold Float64 in Hflt. cbn [r_neg r_num r_den] in Hflt.
    injection Hflt as Hfl1 <-. rewrite Hfl1. rewrite up_nonpos; [|lia]. rewrite up_nonneg; [|lia].
    apply Z.eqb_eq. rewrite Hm'. lia.
  - left. unfold IsInt. cbn [r_num r_den]. apply Z.eqb_neq. pose proof (zeros_only f Hfd Hf).
    rewrite Hd Z.add_comm Z.mod_add; [|lia]. rewrite Z.mod_small; lia.
Qed.
