(* ===== verification/JsonProps.v ===== *)
(** * The scanner

    What it takes for a string is the bytes up to a quote ([scan_string_text]),
    resolving the escapes of a valid text gives a valid text
    ([unescape_Valid]), and the fuel of [scan_value] is enough
    ([scan_value_enough]). *)
From S2P Require Import Prelude Strconv StrconvProps Utf8 Json Jcs Ijson Utf8Props NumberProps.
Open Scope session_scope.
Local Open Scope Z_scope.

(** Case analysis on every test a hypothesis is blocked at. *)
Ltac step_in H :=
  lazymatch type of H with
  | context [match ?x with _ => _ end] => destruct x eqn:?; try discriminate H
  end.

(** ** Strings *)

Lemma scan_string_text l b r : scan_string l = Some (b, r) -> l = b ++ quote :: r.
Proof.
  revert b r. remember (length l) as n eqn:Hn. revert l Hn. induction n as [n IH] using lt_wf_ind.
  intros l -> b r. destruct l as [|c l1]; [done|]. cbn [scan_string].
  case_bool_decide as Hq; [intros [= <- <-]; by subst|]. case_bool_decide as Hb.
  - destruct l1 as [|e l2]; [done|]. case_bool_decide as Hu.
    + destruct l2 as [|h1 [|h2 [|h3 [|h4 l6]]]]; try done. destruct (_ && _); [|done].
      destruct (scan_string l6) as [[b' r']|] eqn:E; [|done]. intros [= <- <-]. simpl.
      do 6 f_equal. apply (IH (length l6)); [simpl; lia|done..].
    + case_bool_decide; [|done]. destruct (scan_string l2) as [[b' r']|] eqn:E; [|done]. intros [= <- <-]. simpl.
      do 2 f_equal. apply (IH (length l2)); [simpl; lia|done..].
  - destruct (_ <? _); [done|]. destruct (scan_string l1) as [[b' r']|] eqn:E; [|done]. intros [= <- <-]. simpl.
    f_equal. apply (IH (length l1)); [simpl; lia|done..].
Qed.

Lemma Valid_string l b r : scan_string l = Some (b, r) -> Valid l = true -> Valid b = true /\ Valid r = true.
Proof. intros H Hv. apply scan_string_text in H as ->. by apply (Valid_ascii _ quote). Qed.

(** Bodies the scanner passes, by what they start with. *)
Inductive body : list ascii -> Prop :=
  | body_nil : body []
  | body_char c b : c <> quote -> c <> backslash -> 32 <= byte_of c -> body b -> body (c :: b)
  | body_escape e v b : e <> "u"%char -> escape_val e = Some v -> body b -> body (backslash :: e :: b)
  | body_u h1 h2 h3 h4 r b : hex4 [h1; h2; h3; h4] = Some (r, []) -> body b ->
      body (backslash :: "u"%char :: h1 :: h2 :: h3 :: h4 :: b).

Lemma is_hex_val c : is_hex c = true <-> exists v, hex_val c = Some v.
Proof. unfold is_hex. rewrite bool_decide_eq_true. split; [intros [v Hv]; eauto|intros [v Hv]; eauto]. Qed.

Lemma hex4_is_hex h1 h2 h3 h4 : is_hex h1 && is_hex h2 && is_hex h3 && is_hex h4 = true <->
  exists r, hex4 [h1; h2; h3; h4] = Some (r, []).
Proof.
  rewrite !andb_true_iff !is_hex_val. split.
  - intros [[[[a Ha] [b Hb]] [c Hc]] [d Hd]]. simpl. rewrite Ha Hb Hc Hd. eauto.
  - intros [r Hr]. simpl in Hr. destruct (hex_val h1), (hex_val h2), (hex_val h3), (hex_val h4); try done. naive_solver.
Qed.

Lemma escape_val_spec e : bool_decide (is_Some (escape_val e)) = true <-> exists v, escape_val e = Some v.
Proof. rewrite bool_decide_eq_true. split; [intros [v Hv]; eauto|intros [v Hv]; eauto]. Qed.

Lemma escape_val_u : escape_val "u" = None.
Proof. done. Qed.

Lemma scan_string_body l b r : scan_string l = Some (b, r) -> body b.
Proof.
  revert b r. remember (length l) as n eqn:Hn. revert l Hn. induction n as [n IH] using lt_wf_ind.
  intros l -> b r. destruct l as [|c l1]; [done|]. cbn [scan_string].
  case_bool_decide as Hq; [intros [= <- <-]; constructor|]. case_bool_decide as Hb.
  - destruct l1 as [|e l2]; [done|]. case_bool_decide as Hu.
    + destruct l2 as [|h1 [|h2 [|h3 [|h4 l6]]]]; try done. destruct (_ && _) eqn:Hh; [|done].
      apply hex4_is_hex in Hh as [v Hv]. destruct (scan_string l6) as [[b' r']|] eqn:E; [|done]. intros [= <- <-]. subst.
      econstructor; [done|]. apply (IH (length l6)) with l6 r'; [simpl; lia|done..].
    + case_bool_decide as He; [|done]. destruct He as [v Hv]. destruct (scan_string l2) as [[b' r']|] eqn:E; [|done].
      intros [= <- <-]. subst. econstructor; [done..|]. apply (IH (length l2)) with l2 r'; [simpl; lia|done..].
  - destruct (Z.ltb_spec (byte_of c) 32); [done|]. destruct (scan_string l1) as [[b' r']|] eqn:E; [|done]. intros [= <- <-].
    constructor; [done..|]. apply (IH (length l1)) with l1 r'; [simpl; lia|done..].
Qed.

Lemma scan_body b r : body b -> scan_string (b ++ quote :: r) = Some (b, r).
Proof.
  induction 1 as [|c b Hq Hb Hc _ IH|e v b Hu He _ IH|h1 h2 h3 h4 v b Hh _ IH]; cbn [app scan_string].
  - done.
  - rewrite !bool_decide_eq_false_2; [|done..]. decide_bool (byte_of c <? 32) false. by rewrite IH.
  - rewrite (bool_decide_eq_false_2 (backslash = quote)); [|done]. rewrite (bool_decide_eq_true_2 (backslash = backslash)); [|done].
    rewrite (bool_decide_eq_false_2 (e = "u"%char)); [|done]. rewrite (proj2 (escape_val_spec e)); [|eauto]. by rewrite IH.
  - rewrite (bool_decide_eq_false_2 (backslash = quote)); [|done]. rewrite (bool_decide_eq_true_2 (backslash = backslash)); [|done].
    rewrite (bool_decide_eq_true_2 ("u"%char = "u"%char)); [|done]. rewrite (proj2 (hex4_is_hex h1 h2 h3 h4)); [|eauto]. by rewrite IH.
Qed.

(** A character that is no escape is itself. *)
Lemma unescape_char c b : c <> backslash -> unescape (c :: b) = c :: unescape b.
Proof. intros Hc. cbn [unescape]. by rewrite bool_decide_eq_false_2. Qed.

Lemma unescape_escape e v b : e <> "u"%char -> escape_val e = Some v -> unescape (backslash :: e :: b) = v :: unescape b.
Proof.
  intros Hu He. cbn [unescape]. rewrite bool_decide_eq_true_2; [|done]. rewrite bool_decide_eq_false_2; [|done]. by rewrite He.
Qed.

(** Half a pair next to its other half, or anything else. *)
Definition other_half (r : Z) (b : list ascii) : option (Z * list ascii) :=
  match b with
  | c :: u :: k1 :: k2 :: k3 :: k4 :: b' =>
      let lo := default (-1) (fst <$> hex4 [k1; k2; k3; k4]) in
      if bool_decide (c = backslash) && bool_decide (u = "u"%char) && negb (DecodeRune r lo =? RuneError)
      then Some (lo, b') else None
  | _ => None
  end.

Lemma unescape_u h1 h2 h3 h4 r b : hex4 [h1; h2; h3; h4] = Some (r, []) ->
  unescape (backslash :: "u"%char :: h1 :: h2 :: h3 :: h4 :: b) =
  if is_surrogate r then
    match other_half r b with
    | Some (lo, b') => EncodeRune (DecodeRune r lo) ++ unescape b'
    | None => EncodeRune RuneError ++ unescape b
    end
  else EncodeRune r ++ unescape b.
Proof.
  intros Hr. cbn [unescape]. rewrite bool_decide_eq_true_2; [|done]. rewrite bool_decide_eq_true_2; [|done]. rewrite Hr.
  change (default 0 (fst <$> Some (r, @nil ascii))) with r. destruct (is_surrogate r); [|done].
  destruct b as [|x0 [|x1 [|x2 [|x3 [|x4 [|x5 b]]]]]]; try done. unfold other_half. by destruct (_ && _ && _).
Qed.

Lemma hex_val_range c v : hex_val c = Some v -> 0 <= v < 16 /\ byte_of c < 128.
Proof.
  unfold hex_val. destruct (_ && _) eqn:H1.
  - apply andb_true_iff in H1 as [?%Z.leb_le ?%Z.leb_le]. intros [= <-]. lia.
  - clear H1. destruct (_ && _) eqn:H2.
    + apply andb_true_iff in H2 as [?%Z.leb_le ?%Z.leb_le]. intros [= <-]. lia.
    + clear H2. destruct (_ && _) eqn:H3; [|done]. apply andb_true_iff in H3 as [?%Z.leb_le ?%Z.leb_le]. intros [= <-]. lia.
Qed.

Lemma hex4_range h1 h2 h3 h4 r x : hex4 [h1; h2; h3; h4] = Some (r, x) ->
  0 <= r < 65536 /\ x = [] /\ Forall (fun c => byte_of c < 128) [h1; h2; h3; h4].
Proof.
  simpl. destruct (hex_val h1) eqn:E1, (hex_val h2) eqn:E2, (hex_val h3) eqn:E3, (hex_val h4) eqn:E4; try done.
  apply hex_val_range in E1, E2, E3, E4. intros [= <- <-]. split_and!; [lia..|done|]. repeat constructor; lia.
Qed.

Lemma DecodeRune_scalar hi lo : scalar (DecodeRune hi lo) /\ (DecodeRune hi lo <> RuneError ->
  65536 <= DecodeRune hi lo /\ 55296 <= hi < 56320 /\ 56320 <= lo < 57344).
Proof.
  unfold DecodeRune. destruct (_ && _) eqn:H.
  - rewrite !andb_true_iff !Z.leb_le !Z.ltb_lt in H. split; [apply scalar_range; lia|]. intros _. lia.
  - split; [apply scalar_range; unfold RuneError; lia|done].
Qed.

Lemma Valid_EncodeRune r : 0 <= r < 65536 -> is_surrogate r = false -> Valid (EncodeRune r) = true.
Proof.
  intros Hr Hs. apply Valid_encoded. exists [r]. split; [|by rewrite encoded_cons app_nil_r].
  constructor; [|done]. split; [lia|done].
Qed.

Lemma Valid_scalar r : scalar r -> Valid (EncodeRune r) = true.
Proof. intros Hr. apply Valid_encoded. exists [r]. split; [by constructor|by rewrite encoded_cons app_nil_r]. Qed.

Lemma Valid_ascii_cons c b : byte_of c < 128 -> Valid (c :: b) = true -> Valid b = true.
Proof. intros Hc Hv. by apply (Valid_ascii [] c). Qed.

Lemma escape_val_ascii e v : escape_val e = Some v -> byte_of e < 128 /\ byte_of v < 128.
Proof.
  unfold escape_val. repeat (case_bool_decide || destruct (bool_decide _) eqn:?); subst; simpl; try done; intros [= <-];
    repeat match goal with H : bool_decide _ = true |- _ => apply bool_decide_eq_true in H end; subst; done.
Qed.

Lemma EncodeRune_no_backslash r : scalar r -> r <> 92 -> Forall (fun c => c <> backslash) (EncodeRune r).
Proof.
  intros Hr Hne. destruct (Z.lt_ge_cases r 128) as [Hlt|Hge].
  - destruct (EncodeRune_shape r Hr) as [[_ ->]|[[? _]|[[? _]|[? _]]]]; [|lia..]. constructor; [|done].
    intros H. apply (f_equal byte_of) in H. rewrite byte_of_ascii in H; [|apply scalar_range in Hr; lia].
    change (byte_of backslash) with 92 in H. lia.
  - eapply Forall_impl; [by apply EncodeRune_high|]. intros c Hc ->. change (byte_of backslash) with 92 in Hc. lia.
Qed.

(** A valid rune that is no backslash passes through. *)
Lemma unescape_rune r b : scalar r -> r <> 92 -> unescape (EncodeRune r ++ b) = EncodeRune r ++ unescape b.
Proof.
  intros Hr Hne. pose proof (EncodeRune_no_backslash r Hr Hne) as Hall.
  induction Hall as [|c l Hc _ IH]; [done|]. cbn [app]. rewrite unescape_char // IH. done.
Qed.

Lemma body_rune r b : scalar r -> r <> 92 -> body (EncodeRune r ++ b) -> body b.
Proof.
  intros Hr Hne. pose proof (EncodeRune_no_backslash r Hr Hne) as Hall.
  induction Hall as [|c l Hc _ IH]; [done|]. cbn [app]. intros Hb. inversion Hb; subst; [auto|done..].
Qed.

Lemma Valid_rune_inv b : Valid b = true -> b = [] \/ exists r b', scalar r /\ b = EncodeRune r ++ b' /\ Valid b' = true.
Proof.
  intros (rs & Hrs & ->)%Valid_encoded. destruct Hrs as [|r rs Hr Hrs]; [by left|right].
  exists r, (encoded rs). split_and!; [done..|]. apply Valid_encoded. eauto.
Qed.

Lemma Valid_drop_ascii l b : Forall (fun c => byte_of c < 128) l -> Valid (l ++ b) = true -> Valid b = true.
Proof. induction 1 as [|c l Hc _ IH]; [done|]. intros Hv. apply IH. by apply (Valid_ascii_cons c). Qed.

(** The other half, when it is there, is an escape of its own. *)
Lemma other_half_Some r b lo b' : other_half r b = Some (lo, b') ->
  exists k1 k2 k3 k4, b = backslash :: "u"%char :: k1 :: k2 :: k3 :: k4 :: b' /\ hex4 [k1; k2; k3; k4] = Some (lo, []) /\
    DecodeRune r lo <> RuneError.
Proof.
  destruct b as [|x0 [|x1 [|k1 [|k2 [|k3 [|k4 b]]]]]]; try done. unfold other_half. cbv zeta.
  destruct (bool_decide (x0 = backslash)) eqn:H0; [|done]. destruct (bool_decide (x1 = "u"%char)) eqn:H1; [|done].
  apply bool_decide_eq_true in H0, H1. subst. cbn [andb].
  set (v := default (-1) (fst <$> hex4 [k1; k2; k3; k4])). destruct (Z.eqb_spec (DecodeRune r v) RuneError) as [|Hd]; [done|].
  intros [= <- <-]. exists k1, k2, k3, k4. split_and!; [done| |done].
  unfold v in *. destruct (hex4 [k1; k2; k3; k4]) as [[lo x]|] eqn:Hx.
  - by destruct (hex4_range _ _ _ _ _ _ Hx) as (_ & -> & _).
  - exfalso. destruct (DecodeRune_scalar r (-1)) as [_ Hs]. apply Hs in Hd. lia.
Qed.

Lemma unescape_Valid b : body b -> Valid b = true -> Valid (unescape b) = true.
Proof.
  remember (length b) as n eqn:Hn. revert b Hn. induction n as [n IH] using lt_wf_ind. intros b -> Hb Hv.
  destruct (Valid_rune_inv b Hv) as [->|(r & b' & Hr & -> & Hv')]; [done|].
  assert (0 < length (EncodeRune r))%nat as Hlen.
  { destruct (EncodeRune_shape r Hr) as [[_ ->]|[[_ ->]|[[_ ->]|[_ ->]]]]; simpl; lia. }
  destruct (decide (r = 92)) as [->|Hne].
  2: { rewrite unescape_rune //. apply Valid_app; [by apply Valid_scalar|]. apply (IH (length b')); [rewrite length_app; lia|done| |done].
       by apply (body_rune r). }
  change (EncodeRune 92 ++ b') with (backslash :: b') in *. clear Hr Hlen.
  inversion Hb as [|? ? _ Hbs|e v b1 Hu He Hb1|h1 h2 h3 h4 v b1 Hh Hb1]; subst; [done| |].
  - rewrite (unescape_escape e v) //. destruct (escape_val_ascii e v He) as [Hea Hva].
    apply (Valid_ascii_r []); [done..|]. apply (IH (length b1)); [simpl; lia|done..|]. by apply (Valid_ascii_cons e).
  - rewrite (unescape_u h1 h2 h3 h4 v) //. destruct (hex4_range _ _ _ _ _ _ Hh) as (Hv0 & _ & Hasc).
    assert (Valid b1 = true) as Hv1.
    { apply (Valid_drop_ascii ("u"%char :: [h1; h2; h3; h4])); [by constructor|done]. }
    assert (Valid (unescape b1) = true) as Hvu by (apply (IH (length b1)); [simpl; lia|done..]).
    destruct (is_surrogate v) eqn:Hs.
    + destruct (other_half v b1) as [[lo b2]|] eqn:Ho.
      * apply other_half_Some in Ho as (k1 & k2 & k3 & k4 & -> & Hk & _).
        apply Valid_app; [apply Valid_scalar, DecodeRune_scalar|].
        inversion Hb1 as [| |? ? ? Hne|? ? ? ? ? ? ? Hb2]; subst; [done|done|].
        apply (IH (length b2)); [simpl; lia|done..|]. destruct (hex4_range _ _ _ _ _ _ Hk) as (_ & _ & Hka).
        apply (Valid_drop_ascii (backslash :: "u"%char :: [k1; k2; k3; k4])); [do 2 (constructor; [done|]); done|done].
      * apply Valid_app; [|done]. apply Valid_scalar, scalar_range. unfold RuneError. lia.
    + apply Valid_app; [|done]. apply Valid_scalar. split; [lia|done].
Qed.

(** A valid string's value needs no repair. *)
Lemma unquote_Valid b : body b -> Valid b = true -> unquote b = unescape b.
Proof. intros Hb Hv. unfold unquote. by rewrite to_valid_Valid; [|apply unescape_Valid]. Qed.

Lemma Valid_unquote b : Valid (unquote b) = true.
Proof. apply Valid_to_valid. Qed.

(** Without a backslash a body is its value. *)
Lemma unescape_plain b : Forall (fun c => c <> backslash) b -> unescape b = b.
Proof. induction 1 as [|c b Hc _ IH]; [done|]. by rewrite unescape_char // IH. Qed.

(** ** Strings of the fast paths *)

(** [strEscaped] reads what the scanner reads, and its value. *)
Lemma strEscaped_spec l s r : strEscaped l = Some (s, r) -> exists b, scan_string l = Some (b, r) /\ s = unescape b.
Proof.
  revert s r. remember (length l) as n eqn:Hn. revert l Hn. induction n as [n IH] using lt_wf_ind. intros l -> s r.
  destruct l as [|c l1]; [done|]. cbn [strEscaped].
  case_bool_decide as Hq; [intros [= <- <-]; exists []; subst; done|].
  destruct (Z.ltb_spec (byte_of c) 32) as [|Hc]; [done|]. case_bool_decide as Hb; cbn [negb].
  2: { destruct (strEscaped l1) as [[s' r']|] eqn:E; [|done]. intros [= <- <-].
       destruct (IH (length l1) ltac:(simpl; lia) l1 eq_refl _ _ E) as (b & Hs & ->). exists (c :: b).
       split; [|by rewrite unescape_char]. cbn [scan_string]. rewrite !bool_decide_eq_false_2; [|done..].
       decide_bool (byte_of c <? 32) false. by rewrite Hs. }
  subst c. destruct l1 as [|e l2]; [done|].
  case_bool_decide as Hu.
  - subst e. destruct l2 as [|h1 [|h2 [|h3 [|h4 l6]]]]; try done.
    destruct (hex4 [h1; h2; h3; h4]) as [[v x]|] eqn:Hh; [|done]. destruct (hex4_range _ _ _ _ _ _ Hh) as (Hv & -> & _).
    assert (forall b r', scan_string l6 = Some (b, r') ->
      scan_string (backslash :: "u"%char :: h1 :: h2 :: h3 :: h4 :: l6) = Some (backslash :: "u"%char :: h1 :: h2 :: h3 :: h4 :: b, r')) as Hscan.
    { intros b r' Hb. apply scan_string_text in Hb as Ht. subst l6. apply scan_string_body in Hb.
      apply (scan_body (backslash :: "u"%char :: h1 :: h2 :: h3 :: h4 :: b)). by econstructor. }
    destruct (is_surrogate v) eqn:Hs.
    + destruct l6 as [|x0 [|x1 [|k1 [|k2 [|k3 [|k4 l12]]]]]]; try done.
      destruct (_ || _) eqn:Hor; [done|]. rewrite !orb_false_iff !negb_false_iff !bool_decide_eq_true in Hor.
      destruct Hor as [[Hhi ->] ->]. apply Z.leb_gt in Hhi.
      destruct (hex4 [k1; k2; k3; k4]) as [[lo y]|] eqn:Hk; [|done]. destruct (hex4_range _ _ _ _ _ _ Hk) as (Hlo & -> & _).
      destruct (_ || _) eqn:Hlr; [done|]. rewrite orb_false_iff !Z.ltb_ge in Hlr.
      destruct (strEscaped l12) as [[s' r']|] eqn:E; [|done]. intros [= <- <-].
      destruct (IH (length l12) ltac:(simpl; lia) l12 eq_refl _ _ E) as (b & Hb & ->).
      apply scan_string_text in Hb as Ht. pose proof (scan_string_body _ _ _ Hb) as Hbody.
      exists (backslash :: "u"%char :: h1 :: h2 :: h3 :: h4 :: backslash :: "u"%char :: k1 :: k2 :: k3 :: k4 :: b). split.
      * apply Hscan. subst l12. apply (scan_body (backslash :: "u"%char :: k1 :: k2 :: k3 :: k4 :: b)). by econstructor.
      * rewrite (unescape_u h1 h2 h3 h4 v) // Hs. unfold other_half. rewrite Hk.
        change (default (-1) (fst <$> Some (lo, @nil ascii))) with lo.
        rewrite (bool_decide_eq_true_2 (backslash = backslash)); [|done].
        rewrite (bool_decide_eq_true_2 ("u"%char = "u"%char)); [|done]. cbn [andb].
        unfold is_surrogate in Hs. rewrite andb_true_iff !Z.leb_le in Hs.
        assert (DecodeRune v lo = (v - 55296) * 1024 + (lo - 56320) + 65536) as Hd.
        { unfold DecodeRune. decide_bool (55296 <=? v) true. decide_bool (v <? 56320) true.
          decide_bool (56320 <=? lo) true. by decide_bool (lo <? 57344) true. }
        destruct (Z.eqb_spec (DecodeRune v lo) RuneError); [unfold RuneError in *; lia|]. done.
    + destruct (strEscaped l6) as [[s' r']|] eqn:E; [|done]. intros [= <- <-].
      destruct (IH (length l6) ltac:(simpl; lia) l6 eq_refl _ _ E) as (b & Hb & ->).
      exists (backslash :: "u"%char :: h1 :: h2 :: h3 :: h4 :: b). split; [by apply Hscan|].
      by rewrite (unescape_u h1 h2 h3 h4 v) // Hs.
  - destruct (escape_val e) as [v|] eqn:He; [|done]. destruct (strEscaped l2) as [[s' r']|] eqn:E; [|done]. intros [= <- <-].
    destruct (IH (length l2) ltac:(simpl; lia) l2 eq_refl _ _ E) as (b & Hb & ->).
    apply scan_string_text in Hb as Ht. pose proof (scan_string_body _ _ _ Hb) as Hbody. subst l2.
    exists (backslash :: e :: b). split; [|by rewrite (unescape_escape e v)].
    apply (scan_body (backslash :: e :: b)). by econstructor.
Qed.

Lemma str_plain_spec start pre l s r :
  start = pre ++ l -> Forall (fun c => c <> quote /\ c <> backslash /\ 32 <= byte_of c) pre ->
  str_plain start l = Some (s, r) -> exists b, scan_string start = Some (b, r) /\ s = unescape b.
Proof.
  revert pre. induction l as [|c l IH]; intros pre -> Hall; [done|]. cbn [str_plain]. case_bool_decide as Hq.
  - intros [= <- <-]. subst c. exists pre.
    rewrite length_app Nat.add_sub take_app_length. split.
    + apply scan_body. clear IH. induction Hall as [|c pre (?&?&?) _ IHp]; [constructor|by apply body_char].
    + symmetry. apply unescape_plain. eapply Forall_impl; [exact Hall|]. by intros c (_ & ? & _).
  - case_bool_decide as Hb; [apply strEscaped_spec|]. destruct (Z.ltb_spec (byte_of c) 32); [done|].
    apply (IH (pre ++ [c])); [by rewrite -app_assoc|]. apply Forall_app. split; [done|by constructor].
Qed.

(** [fastT.str] gives the value the decoder gives. *)
Lemma fast_str_spec l s r : Valid l = true -> fast_str l = Some (s, r) ->
  exists b, scan_string l = Some (b, r) /\ s = unquote b /\ Valid s = true /\ Valid r = true.
Proof.
  intros Hv H. destruct (str_plain_spec l [] l s r eq_refl ltac:(constructor) H) as (b & Hb & ->).
  destruct (Valid_string l b r Hb Hv) as [Hvb Hvr]. pose proof (scan_string_body l b r Hb) as Hbody.
  exists b. rewrite unquote_Valid //. split_and!; try done. by apply unescape_Valid.
Qed.

(** ** What is left of a valid text *)

Definition ascii_only (l : list ascii) : Prop := Forall (fun c => byte_of c < 128) l.

Lemma Valid_skipWS l : Valid l = true -> Valid (skipWS l) = true.
Proof.
  induction l as [|c l IH]; [done|]. intros Hv. cbn [skipWS]. destruct (isSpace c) eqn:Hc; [|done]. apply IH.
  apply (Valid_ascii_cons c); [|done]. unfold isSpace in Hc. rewrite !orb_true_iff bool_decide_eq_true !Z.eqb_eq in Hc.
  destruct Hc as [[[->|?]|?]|?]; [done|lia..].
Qed.

Lemma strip_word_text w l r : strip_word w l = Some r -> l = w ++ r.
Proof.
  revert l. induction w as [|c w IH]; intros l; [by intros [= ->]|]. destruct l as [|d l]; [done|]. cbn [strip_word].
  case_bool_decide as Hc; [|done]. intros H. subst. simpl. f_equal. auto.
Qed.

Lemma strip_word_app w r : strip_word w (w ++ r) = Some r.
Proof. induction w as [|c w IH]; [done|]. cbn [app strip_word]. by rewrite bool_decide_eq_true_2. Qed.

Lemma all_digits_ascii l : all_digits l -> ascii_only l.
Proof.
  intros H. apply Forall_forall. intros c Hc. unfold all_digits in H. rewrite forallb_forall in H.
  assert (is_digit c = true) as Hd by (apply H; by apply list_elem_of_In). unfold is_digit in Hd.
  rewrite andb_true_iff !Z.leb_le in Hd. lia.
Qed.

(** What digits and the marks of a number satisfy its text satisfies. *)
Lemma number_chars (P : ascii -> Prop) n : (forall c, is_digit c = true -> P c) ->
  (forall c, c ∈ ["-"%char; "+"%char; "."%char; "e"%char; "E"%char] -> P c) -> number_ok n -> Forall P (number_text n).
Proof.
  intros Pd Pm [Hs Hi Hf He]. assert (forall ds, all_digits ds -> Forall P ds) as Pds.
  { unfold all_digits. intros ds H. rewrite forallb_forall in H. apply Forall_forall. intros c Hc. apply Pd, H. by apply list_elem_of_In. }
  unfold number_text. rewrite !Forall_app. split_and!.
  - destruct Hs as [-> | ->]; [constructor|]. constructor; [apply Pm; set_solver|constructor].
  - apply Pds. by apply ok_int_digits.
  - destruct Hf as [->|(ds & -> & Hd & _)]; [constructor|]. constructor; [apply Pm; set_solver|by apply Pds].
  - destruct He as [->|(c & s & ds & -> & Hc & Hsg & Hd & _)]; [constructor|]. constructor.
    { apply Pm. unfold is_e in Hc. rewrite orb_true_iff !bool_decide_eq_true in Hc. destruct Hc as [-> | ->]; set_solver. }
    rewrite Forall_app. split; [|by apply Pds].
    destruct Hsg as [->|[->| ->]]; [constructor|..]; (constructor; [apply Pm; set_solver|constructor]).
Qed.

Lemma number_ascii n : number_ok n -> ascii_only (number_text n).
Proof.
  intros [Hs Hi Hf He]. unfold number_text, ascii_only. rewrite !Forall_app. split_and!.
  - destruct Hs as [-> | ->]; by repeat constructor.
  - apply all_digits_ascii. by destruct (ok_int_digits _ Hi).
  - destruct Hf as [->|(ds & -> & Hd & _)]; [constructor|]. constructor; [done|]. by apply all_digits_ascii.
  - destruct He as [->|(c & s & ds & -> & Hc & Hs' & Hd & _)]; [constructor|]. constructor.
    + unfold is_e in Hc. rewrite orb_true_iff !bool_decide_eq_true in Hc. by destruct Hc as [-> | ->].
    + apply Forall_app. split; [|by apply all_digits_ascii]. destruct Hs' as [->|[-> | ->]]; by repeat constructor.
Qed.

Lemma Valid_number l n r : scan_number l = Some (n, r) -> Valid l = true -> Valid r = true.
Proof.
  intros H Hv. apply scan_number_ok in H as [Hok ->]. eapply Valid_drop_ascii; [|exact Hv]. by apply number_ascii.
Qed.

Lemma Valid_word w l r : ascii_only w -> strip_word w l = Some r -> Valid l = true -> Valid r = true.
Proof. intros Hw H Hv. apply strip_word_text in H as ->. by eapply Valid_drop_ascii. Qed.

(** White space is skipped once. *)
Lemma skipWS_idemp l : skipWS (skipWS l) = skipWS l.
Proof.
  induction l as [|c l IH]; [done|]. cbn [skipWS]. destruct (isSpace c) eqn:Hc; [done|]. cbn [skipWS]. by rewrite Hc.
Qed.

Lemma skipWS_length l : (length (skipWS l) <= length l)%nat.
Proof. induction l as [|c l IH]; [done|]. cbn [skipWS]. destruct (isSpace c); simpl; lia. Qed.

Lemma skipWS_cons c l : isSpace c = false -> skipWS (c :: l) = c :: l.
Proof. intros Hc. cbn [skipWS]. by rewrite Hc. Qed.

(** ** Induction on values *)

Section raw_nested.
Variable P : raw -> Prop.
Hypothesis P_null : P RNull.
Hypothesis P_bool : forall b, P (RBool b).
Hypothesis P_number : forall n, P (RNumber n).
Hypothesis P_string : forall b, P (RString b).
Hypothesis P_array : forall l, Forall P l -> P (RArray l).
Hypothesis P_object : forall ms, Forall (fun kv => P kv.2) ms -> P (RObject ms).

Fixpoint raw_nested (v : raw) : P v :=
  match v with
  | RNull => P_null
  | RBool b => P_bool b
  | RNumber n => P_number n
  | RString b => P_string b
  | RArray l => P_array l
      ((fix all (l : list raw) : Forall P l :=
          match l with
          | [] => Forall_nil_2 P
          | x :: l => Forall_cons_2 P x l (raw_nested x) (all l)
          end) l)
  | RObject ms => P_object ms
      ((fix all (ms : list (list ascii * raw)) : Forall (fun kv => P kv.2) ms :=
          match ms with
          | [] => Forall_nil_2 _
          | (k, x) :: ms => Forall_cons_2 (fun kv : list ascii * raw => P kv.2) (k, x) ms (raw_nested x) (all ms)
          end) ms)
  end.
End raw_nested.

Section json_nested.
Variable P : json -> Prop.
Hypothesis P_null : P JNull.
Hypothesis P_bool : forall b, P (JBool b).
Hypothesis P_number : forall n, P (JNumber n).
Hypothesis P_string : forall s, P (JString s).
Hypothesis P_array : forall l, Forall P l -> P (JArray l).
Hypothesis P_object : forall ms, Forall (fun kv => P kv.2) ms -> P (JObject ms).

Fixpoint json_nested (v : json) : P v :=
  match v with
  | JNull => P_null
  | JBool b => P_bool b
  | JNumber n => P_number n
  | JString s => P_string s
  | JArray l => P_array l
      ((fix all (l : list json) : Forall P l :=
          match l with
          | [] => Forall_nil_2 P
          | x :: l => Forall_cons_2 P x l (json_nested x) (all l)
          end) l)
  | JObject ms => P_object ms
      ((fix all (ms : list (list ascii * json)) : Forall (fun kv => P kv.2) ms :=
          match ms with
          | [] => Forall_nil_2 _
          | (k, x) :: ms => Forall_cons_2 (fun kv : list ascii * json => P kv.2) (k, x) ms (json_nested x) (all ms)
          end) ms)
  end.
End json_nested.

(** ** What the scanner reads *)

(** A property of a value at its depth holds of what is read when it holds of
    each form of value, given its parts. *)
Section scan_holds.
Variable P : Z -> raw -> Prop.
Hypothesis P_null : forall d, P d RNull.
Hypothesis P_bool : forall d b, P d (RBool b).
Hypothesis P_number : forall d n, number_ok n -> P d (RNumber n).
Hypothesis P_string : forall d b, body b -> P d (RString b).
Hypothesis P_array : forall d l, d < maxNestingDepth -> Forall (P (d + 1)) l -> P d (RArray l).
Hypothesis P_object : forall d ms, d < maxNestingDepth -> Forall (fun kv => body kv.1 /\ P (d + 1) kv.2) ms -> P d (RObject ms).

Lemma scan_holds_all fuel :
  (forall depth l v r, scan_value fuel depth l = Some (v, r) -> P depth v) /\
  (forall depth l ms r, scan_members fuel depth l = Some (ms, r) -> Forall (fun kv => body kv.1 /\ P depth kv.2) ms) /\
  (forall depth l es r, scan_elements fuel depth l = Some (es, r) -> Forall (P depth) es).
Proof.
  induction fuel as [|fuel (IHv & IHm & IHe)]; [by split_and!|]. split_and!.
  - intros depth l v r H. destruct l as [|c l1]; [done|]. cbn [scan_value] in H.
    destruct (bool_decide (c = "{"%char)); [|destruct (bool_decide (c = "["%char)); [|destruct (bool_decide (c = quote))]].
    + destruct (_ <=? _) eqn:Hd; [done|]. apply Z.leb_gt in Hd. destruct (skipWS l1) as [|d r1]; [done|].
      destruct (bool_decide _); [injection H as <- <-; by apply P_object|].
      destruct (scan_members _ _ _) as [[ms r2]|] eqn:Hm; [|done]. injection H as <- <-. apply P_object; [done|by eapply IHm].
    + destruct (_ <=? _) eqn:Hd; [done|]. apply Z.leb_gt in Hd. destruct (skipWS l1) as [|d r1]; [done|].
      destruct (bool_decide _); [injection H as <- <-; by apply P_array|].
      destruct (scan_elements _ _ _) as [[es r2]|] eqn:Hm; [|done]. injection H as <- <-. apply P_array; [done|by eapply IHe].
    + destruct (scan_string _) as [[b r1]|] eqn:Hs; [|done]. injection H as <- <-. apply P_string. by eapply scan_string_body.
    + destruct (_ || _).
      * destruct (scan_number _) as [[n r1]|] eqn:Hs; [|done]. injection H as <- <-. apply P_number. by apply scan_number_ok in Hs as [? _].
      * repeat case_bool_decide; [..|done]; (destruct (strip_word _ _); [|done]); injection H as <- <-; auto.
  - intros depth l ms r H. destruct l as [|q l1]; [done|]. cbn [scan_members] in H. destruct (bool_decide _); [|done].
    destruct (scan_string l1) as [[b l2]|] eqn:Hs; [|done]. apply scan_string_body in Hs.
    destruct (skipWS l2) as [|colon l3]; [done|]. destruct (bool_decide _); [|done].
    destruct (scan_value _ _ _) as [[v l4]|] eqn:Hv; [|done]. apply IHv in Hv.
    destruct (skipWS l4) as [|d l5]; [done|]. destruct (bool_decide _).
    + destruct (scan_members fuel depth _) as [[ms' r2]|] eqn:Hm; [|done]. injection H as <- <-. constructor; [done|by eapply IHm].
    + destruct (bool_decide _); [|done]. injection H as <- <-. by apply Forall_singleton.
  - intros depth l es r H. cbn [scan_elements] in H. destruct (scan_value _ _ _) as [[v l1]|] eqn:Hv; [|done]. apply IHv in Hv.
    destruct (skipWS l1) as [|d l2]; [done|]. destruct (bool_decide _).
    + destruct (scan_elements fuel depth _) as [[es' r2]|] eqn:Hm; [|done]. injection H as <- <-. constructor; [done|by eapply IHe].
    + destruct (bool_decide _); [|done]. injection H as <- <-. by apply Forall_singleton.
Qed.

Lemma scan_holds fuel depth l v r : scan_value fuel depth l = Some (v, r) -> P depth v.
Proof. apply scan_holds_all. Qed.
End scan_holds.

(** A value the scanner can read at a depth: its strings and names are bodies,
    its numbers JSON's, and it nests no deeper than the scanner goes. *)
Inductive well_spelled : Z -> raw -> Prop :=
  | spelled_null d : well_spelled d RNull
  | spelled_bool d b : well_spelled d (RBool b)
  | spelled_number d n : number_ok n -> well_spelled d (RNumber n)
  | spelled_string d b : body b -> well_spelled d (RString b)
  | spelled_array d l : d < maxNestingDepth -> Forall (well_spelled (d + 1)) l -> well_spelled d (RArray l)
  | spelled_object d ms : d < maxNestingDepth ->
      Forall (fun kv => body kv.1 /\ well_spelled (d + 1) kv.2) ms -> well_spelled d (RObject ms).

Lemma scan_well_spelled fuel depth l v r : scan_value fuel depth l = Some (v, r) -> well_spelled depth v.
Proof. apply scan_holds; by constructor. Qed.
