(* ===== verification/JcsSort.v ===== *)
(** * Members in order

    The order of member names is a strict total order of valid texts, so
    whatever sorts distinct names gives one list: the reference's sort, the
    insertion sort and the merge sort agree ([sortMembers_spec],
    [sort_by_unique]). *)
From stdpp Require Import sorting.
From S2P Require Import Prelude Strconv Utf8 Json Jcs Utf8Props.
Open Scope session_scope.

Definition before (a b : list ascii) : Prop := LessUTF16 a b = true.
Definition not_after (a b : list ascii) : Prop := LessUTF16 b a = false.

#[export] Instance before_trans : Transitive before.
Proof. intros a b c. apply LessUTF16_trans. Qed.

Lemma before_irrefl a : ~ before a a.
Proof. unfold before. by rewrite LessUTF16_irrefl. Qed.

Lemma before_not_after a b : before a b -> not_after a b.
Proof.
  unfold not_after. intros H. destruct (LessUTF16 b a) eqn:E; [|done].
  by destruct (before_irrefl a (LessUTF16_trans a b a H E)).
Qed.

Section Order.
Context {A : Type} (key : A -> list ascii).
Implicit Types (x y : A) (l : list A).

Definition valid_keys l : Prop := Forall (fun x => Valid (key x) = true) l.

Lemma valid_keys_perm l l' : l ≡ₚ l' -> valid_keys l -> valid_keys l'.
Proof. unfold valid_keys. by intros ->. Qed.

(** In order, strictly or not. *)
Definition ordered l : Prop := StronglySorted (fun x y => before (key x) (key y)) l.
Definition unreversed l : Prop := StronglySorted (fun x y => not_after (key x) (key y)) l.

Lemma not_after_trans a b c : Valid a = true -> Valid b = true -> Valid c = true ->
  not_after a b -> not_after b c -> not_after a c.
Proof.
  unfold not_after. intros Ha Hb Hc Hab Hbc. destruct (LessUTF16 c a) eqn:E; [|done].
  destruct (LessUTF16_total b c Hb Hc) as [H|[->|H]]; [|by rewrite Hab in E|by rewrite Hbc in H].
  by rewrite (LessUTF16_trans b c a H E) in Hab.
Qed.

Lemma ordered_NoDup l : ordered l -> NoDup (key <$> l).
Proof.
  induction 1 as [|x l Hl IH Hx]; [constructor|]. rewrite fmap_cons NoDup_cons. split; [|done].
  intros (y & Hy & Hin)%list_elem_of_fmap. rewrite Forall_forall in Hx. apply Hx in Hin. rewrite Hy in Hin.
  by apply before_irrefl in Hin.
Qed.

(** In order without a name twice in a row is strictly in order. *)
Lemma unreversed_ordered l : valid_keys l -> unreversed l -> NoDup (key <$> l) -> ordered l.
Proof.
  intros Hv Hl. induction Hl as [|x l Hl IH Hx]; intros Hnd; [constructor|].
  apply Forall_cons in Hv as [Hvx Hv]. rewrite fmap_cons NoDup_cons in Hnd. destruct Hnd as [Hn Hnd].
  constructor; [by apply IH|]. rewrite !Forall_forall in Hx Hv |- *. intros y Hy. specialize (Hx y Hy).
  destruct (LessUTF16_total (key x) (key y) Hvx (Hv y Hy)) as [H|[H|H]]; [done| |].
  - destruct Hn. rewrite H. by apply list_elem_of_fmap_2.
  - unfold not_after in Hx. by rewrite Hx in H.
Qed.

(** One list is in order. *)
Lemma ordered_unique l l' : ordered l -> ordered l' -> l ≡ₚ l' -> l = l'.
Proof.
  intros Hl Hl' Hp. eapply StronglySorted_unique_strong; [|exact Hl|exact Hl'|exact Hp].
  intros x y _ _ H1 H2. exfalso. apply (before_irrefl (key x)). by transitivity (key y).
Qed.
End Order.

(** ** The reference's sort *)

Lemma insert_by_perm {A} (less : A -> A -> bool) x l : insert_by less x l ≡ₚ x :: l.
Proof. induction l as [|y l IH]; [done|]. simpl. destruct (less x y); [done|]. by rewrite IH Permutation_swap. Qed.

Lemma sort_by_perm {A} (less : A -> A -> bool) l : sort_by less l ≡ₚ l.
Proof. induction l as [|x l IH]; [done|]. cbn [sort_by foldr]. rewrite insert_by_perm. by rewrite -{2}IH. Qed.

Lemma insert_by_ordered {A} (x : list ascii * A) l :
  Valid x.1 = true -> valid_keys fst l -> x.1 ∉ l.*1 -> ordered fst l -> ordered fst (insert_by less_member x l).
Proof.
  intros Hvx Hv Hn Hl. induction Hl as [|y l Hl IH Hy]; [by repeat constructor|].
  apply Forall_cons in Hv as [Hvy Hv]. rewrite fmap_cons not_elem_of_cons in Hn. destruct Hn as [Hxy Hn].
  cbn [insert_by]. unfold less_member at 1. destruct (LessUTF16 x.1 y.1) eqn:E.
  - constructor; [by constructor|]. constructor; [done|]. eapply Forall_impl; [exact Hy|].
    intros z Hz. by transitivity y.1.
  - constructor; [by apply IH|]. rewrite insert_by_perm. constructor; [|done].
    destruct (LessUTF16_total x.1 y.1 Hvx Hvy) as [H|[H|H]]; [by rewrite E in H|by destruct Hxy|done].
Qed.

Lemma sort_by_ordered {A} (l : list (list ascii * A)) :
  valid_keys fst l -> NoDup l.*1 -> ordered fst (sort_by less_member l).
Proof.
  induction l as [|x l IH]; [constructor|]. intros Hv Hnd. apply Forall_cons in Hv as [Hvx Hv].
  rewrite fmap_cons NoDup_cons in Hnd. destruct Hnd as [Hn Hnd].
  change (sort_by less_member (x :: l)) with (insert_by less_member x (sort_by less_member l)). apply insert_by_ordered.
  - done.
  - eapply valid_keys_perm; [symmetry; apply sort_by_perm|done].
  - by rewrite (sort_by_perm less_member l).
  - by apply IH.
Qed.

(** Any list of the members in order is the reference's. *)
Lemma sort_by_unique {A} (l l' : list (list ascii * A)) :
  valid_keys fst l -> l ≡ₚ l' -> ordered fst l' -> sort_by less_member l = l'.
Proof.
  intros Hv Hp Hl'. apply (ordered_unique fst); [|done|by rewrite sort_by_perm].
  apply sort_by_ordered; [done|]. rewrite Hp. by apply ordered_NoDup.
Qed.

(** ** The walk's sorts *)

Lemma sift_perm x l : sift x l ≡ₚ x :: l.
Proof. induction l as [|y l IH]; [done|]. simpl. destruct (lessKey _ _); [|done]. by rewrite IH Permutation_swap. Qed.

Lemma insertion_acc l acc : foldl (fun acc x => sift x acc) acc l ≡ₚ l ++ acc.
Proof.
  revert acc. induction l as [|x l IH]; intros acc; [done|]. cbn [foldl]. rewrite IH sift_perm. symmetry. apply Permutation_middle.
Qed.

Lemma insertion_perm l : insertion l ≡ₚ l.
Proof. unfold insertion. rewrite -Permutation_rev insertion_acc. by rewrite app_nil_r. Qed.

(** The part already sorted, last element first. *)
Definition reversed (l : list member) : Prop := StronglySorted (fun x y => not_after (m_key y) (m_key x)) l.

Lemma sift_reversed x l : Valid (m_key x) = true -> valid_keys m_key l -> reversed l -> reversed (sift x l).
Proof.
  intros Hvx Hv Hl. induction Hl as [|y l Hl IH Hy]; [by repeat constructor|]. apply Forall_cons in Hv as [Hvy Hv].
  cbn [sift]. rewrite lessKey_LessUTF16 //. destruct (LessUTF16 (m_key x) (m_key y)) eqn:E.
  - constructor; [by apply IH|]. rewrite sift_perm. constructor; [|done]. by apply before_not_after.
  - constructor; [by constructor|]. constructor; [done|]. rewrite !Forall_forall in Hy Hv |- *. intros z Hz.
    by apply (not_after_trans _ (m_key y)); auto.
Qed.

Lemma rev_unreversed l : reversed l -> unreversed m_key (rev l).
Proof.
  induction 1 as [|x l Hl IH Hx]; [constructor|]. simpl. apply StronglySorted_app_2; [|done|by repeat constructor].
  intros y z Hy Hz. apply list_elem_of_singleton in Hz as ->. rewrite Forall_forall in Hx. apply Hx.
  by rewrite -(Permutation_rev l) in Hy.
Qed.

Lemma insertion_unreversed l : valid_keys m_key l -> unreversed m_key (insertion l).
Proof.
  intros Hv. apply rev_unreversed.
  assert (forall acc, reversed acc -> valid_keys m_key acc -> reversed (foldl (fun acc x => sift x acc) acc l)) as H.
  { induction l as [|x l IH]; intros acc Hacc Hva; [done|]. apply Forall_cons in Hv as [Hvx Hv]. cbn [foldl].
    apply IH; [done|by apply sift_reversed|]. eapply valid_keys_perm; [symmetry; apply sift_perm|]. by constructor. }
  apply H; constructor.
Qed.

Lemma merge_nil b : merge [] b = b.
Proof. by destruct b. Qed.

Lemma merge_cons x a y b : merge (x :: a) (y :: b) =
  if lessKey (m_key y) (m_key x) then y :: merge (x :: a) b else x :: merge a (y :: b).
Proof. done. Qed.

Lemma merge_perm a b : merge a b ≡ₚ a ++ b.
Proof.
  revert b. induction a as [|x a IHa]; intros b; [by rewrite merge_nil|].
  induction b as [|y b IHb]; [by rewrite app_nil_r|]. rewrite merge_cons. destruct (lessKey _ _).
  - rewrite IHb. apply (Permutation_middle (x :: a)).
  - by rewrite IHa.
Qed.

Lemma merge_unreversed a b : valid_keys m_key a -> valid_keys m_key b ->
  unreversed m_key a -> unreversed m_key b -> unreversed m_key (merge a b).
Proof.
  intros Hva Hvb Ha. revert b Hvb. induction Ha as [|x a Ha IHa Hx]; intros b Hvb Hb; [by rewrite merge_nil|].
  apply Forall_cons in Hva as [Hvx Hva].
  induction Hb as [|y b Hb IHb Hy]; [by constructor|]. apply Forall_cons in Hvb as [Hvy Hvb].
  rewrite merge_cons lessKey_LessUTF16 //. rewrite !Forall_forall in Hx Hy. pose proof Hva as Hva'. pose proof Hvb as Hvb'.
  unfold valid_keys in Hva', Hvb'. rewrite !Forall_forall in Hva' Hvb'.
  destruct (LessUTF16 (m_key y) (m_key x)) eqn:E.
  - apply before_not_after in E. constructor; [by apply IHb|]. rewrite merge_perm Forall_forall.
    intros z [Hz|Hz]%elem_of_app; [|by apply Hy]. apply elem_of_cons in Hz as [->|Hz]; [done|].
    by apply (not_after_trans _ (m_key x)); auto.
  - constructor; [apply IHa; [done|by constructor|by constructor; [|apply Forall_forall]]|]. rewrite merge_perm Forall_forall.
    intros z [Hz|Hz]%elem_of_app; [by apply Hx|]. apply elem_of_cons in Hz as [->|Hz]; [done|].
    by apply (not_after_trans _ (m_key y)); auto.
Qed.

Lemma mergeSort_perm fuel l : mergeSort fuel l ≡ₚ l.
Proof.
  revert l. induction fuel as [|fuel IH]; intros l; [done|]. cbn [mergeSort]. case_bool_decide; [apply insertion_perm|].
  rewrite merge_perm !IH. by rewrite take_drop.
Qed.

(** Halving ends before the fuel does. *)
Lemma mergeSort_unreversed fuel l : (length l <= fuel)%nat -> valid_keys m_key l -> unreversed m_key (mergeSort fuel l).
Proof.
  revert l. induction fuel as [|fuel IH]; intros l Hf Hv; [destruct l; [constructor|simpl in Hf; lia]|].
  cbn [mergeSort]. case_bool_decide as Hle; [by apply insertion_unreversed|].
  pose proof (Nat.div_mod_eq (length l) 2). pose proof (Nat.mod_upper_bound (length l) 2).
  assert (valid_keys m_key (take (length l / 2) l) /\ valid_keys m_key (drop (length l / 2) l)) as [H1 H2].
  { rewrite -(take_drop (length l / 2) l) in Hv. by apply Forall_app in Hv. }
  apply merge_unreversed.
  - by eapply valid_keys_perm; [symmetry; apply mergeSort_perm|].
  - by eapply valid_keys_perm; [symmetry; apply mergeSort_perm|].
  - apply IH; [rewrite length_take; lia|done].
  - apply IH; [rewrite length_drop; lia|done].
Qed.

Lemma sortMembers_perm l : sortMembers l ≡ₚ l.
Proof. unfold sortMembers. case_bool_decide; [apply mergeSort_perm|apply insertion_perm]. Qed.

Lemma sortMembers_unreversed l : valid_keys m_key l -> unreversed m_key (sortMembers l).
Proof. unfold sortMembers. intros Hv. case_bool_decide; [by apply mergeSort_unreversed|by apply insertion_unreversed]. Qed.

(** In order and with no name next to itself: strictly in order. *)
Lemma adjacent_ordered l : valid_keys m_key l -> unreversed m_key l -> adjacent_equal l = false -> ordered m_key l.
Proof.
  intros Hv Hl. induction Hl as [|x l Hl IH Hx]; intros Ha; [constructor|]. apply Forall_cons in Hv as [Hvx Hv].
  assert (ordered m_key l) as Ho.
  { apply IH; [done|]. destruct l as [|y l]; [done|]. cbn [adjacent_equal] in Ha. by apply orb_false_iff in Ha as [_ ?]. }
  constructor; [done|]. destruct l as [|y l]; [constructor|]. cbn [adjacent_equal] in Ha.
  apply orb_false_iff in Ha as [Hxy _]. apply bool_decide_eq_false in Hxy.
  assert (before (m_key x) (m_key y)) as Hb.
  { apply Forall_cons in Hx as [Hx _], Hv as [Hvy _].
    destruct (LessUTF16_total (m_key x) (m_key y) Hvx Hvy) as [H|[H|H]]; [done..|]. unfold not_after in Hx. by rewrite Hx in H. }
  constructor; [done|]. apply StronglySorted_inv in Ho as [_ Hy]. eapply Forall_impl; [exact Hy|]. intros z Hz.
  by transitivity (m_key y).
Qed.

(** [sortMembers], then a look for equal neighbours: the members in order, or
    some name twice. *)
Lemma sortMembers_spec l : valid_keys m_key l -> adjacent_equal (sortMembers l) = false -> ordered m_key (sortMembers l).
Proof.
  intros Hv. apply adjacent_ordered; [|by apply sortMembers_unreversed].
  eapply valid_keys_perm; [symmetry; apply sortMembers_perm|done].
Qed.
