(* ===== verification/JcsProps.v ===== *)
(** * The canonical form's two paths

    What the walk over the bytes returns is what decoding and writing back
    returns ([transformFast_agrees]): the members it recorded as spans of its
    output, put in order, are the reference's ([reorder_spec]). *)
From stdpp Require Import sorting.
From S2P Require Import Prelude Strconv StrconvProps Utf8 Json Jcs Ijson Utf8Props NumberProps JsonProps JcsSort.
Open Scope session_scope.
Local Open Scope Z_scope.

(** ** Writing arrays and objects *)

Definition write_member (kv : list ascii * json) : option (list ascii * list ascii) :=
  match write kv.2 with Some w => Some (kv.1, w) | None => None end.

Definition array_text (ws : list (list ascii)) : list ascii := "["%char :: commas ws ++ ["]"%char].
Definition object_text (ws : list (list ascii * list ascii)) : list ascii :=
  "{"%char :: commas (member_text <$> sort_by less_member ws) ++ ["}"%char].

Lemma write_array l : write (JArray l) = array_text <$> mapM write l.
Proof.
  cbn [write]. match goal with |- match ?f l with _ => _ end = _ => assert (f l = mapM write l) as -> end.
  - induction l as [|x l IH]; [done|]. cbn [mapM]. destruct (write x); [|done]. simpl. rewrite IH. by destruct (mapM write l).
  - by destruct (mapM write l).
Qed.

Lemma write_object ms : write (JObject ms) = object_text <$> mapM write_member ms.
Proof.
  cbn [write]. match goal with |- match ?f ms with _ => _ end = _ => assert (f ms = mapM write_member ms) as -> end.
  - induction ms as [|[k x] ms IH]; [done|]. cbn [mapM].
    change (write_member (k, x)) with (match write x with Some w => Some (k, w) | None => None end).
    destruct (write x); [|done]. simpl. rewrite IH. by destruct (mapM write_member ms).
  - by destruct (mapM write_member ms).
Qed.

(** ** Maps with no name twice *)

Lemma set_member_new {A} k (v : A) m : k ∉ m.*1 -> set_member k v m = m ++ [(k, v)].
Proof.
  induction m as [|[k' v'] m IH]; [done|]. rewrite fmap_cons not_elem_of_cons. intros [Hk Hn]. cbn [set_member fst] in *.
  rewrite bool_decide_eq_false_2 // IH //.
Qed.

Lemma set_members_acc {A} (ms m : list (list ascii * A)) : NoDup (m.*1 ++ ms.*1) ->
  foldl (fun m kv => set_member kv.1 kv.2 m) m ms = m ++ ms.
Proof.
  revert m. induction ms as [|[k v] ms IH]; intros m Hnd; [by rewrite app_nil_r|]. cbn [foldl fst snd].
  rewrite set_member_new.
  - rewrite IH; [by rewrite -app_assoc|]. rewrite fmap_app /= -app_assoc. done.
  - rewrite fmap_cons in Hnd. apply NoDup_app in Hnd as (_ & Hd & _). intros Hin. apply (Hd k Hin). simpl. by left.
Qed.

Lemma set_members_NoDup {A} (ms : list (list ascii * A)) : NoDup ms.*1 -> set_members ms = ms.
Proof. intros Hnd. unfold set_members. by rewrite set_members_acc. Qed.

(** ** Spans of the output *)

Definition span_text (kw : list ascii * list ascii) : list ascii := appendString kw.1 ++ ":"%char :: kw.2.

Lemma commas_snoc l x : commas (l ++ [x]) = if bool_decide (l = []) then x else commas l ++ ","%char :: x.
Proof.
  induction l as [|y l IH]; [done|]. rewrite bool_decide_eq_false_2 //. destruct l as [|z l]; [done|].
  change (commas ((y :: z :: l) ++ [x])) with (y ++ ","%char :: commas ((z :: l) ++ [x])).
  rewrite IH bool_decide_eq_false_2 //. change (commas (y :: z :: l)) with (y ++ ","%char :: commas (z :: l)).
  by rewrite -app_assoc.
Qed.

Lemma slice_app {A} (l x : list A) i j : (i <= j <= length l)%nat -> slice (l ++ x) i j = slice l i j.
Proof. intros H. unfold slice. rewrite drop_app_le; [|lia]. rewrite take_app_le //. rewrite length_drop. lia. Qed.

Lemma slice_last {A} (l x : list A) : slice (l ++ x) (length l) (length (l ++ x)) = x.
Proof. unfold slice. rewrite drop_app_length length_app Nat.add_sub'. by apply take_ge. Qed.

Definition span_of (pre out : list ascii) (m : member) (kw : list ascii * list ascii) : Prop :=
  m_key m = kw.1 /\ (length pre <= m_start m <= m_end m)%nat /\ (m_end m <= length out)%nat /\
  slice out (m_start m) (m_end m) = span_text kw.

Record spans (pre out : list ascii) (ms : list member) (kws : list (list ascii * list ascii)) : Prop := {
  sp_out : out = pre ++ commas (span_text <$> kws);
  sp_members : Forall2 (span_of pre out) ms kws
}.

Lemma spans_nil pre : spans pre pre [] [].
Proof. split; [by rewrite app_nil_r|constructor]. Qed.

Lemma spans_snoc pre out ms kws key w :
  spans pre out ms kws ->
  let out1 := if bool_decide (ms = []) then out else out ++ [","%char] in
  let out2 := (out1 ++ appendString key ++ [":"%char]) ++ w in
  spans pre out2 (ms ++ [mkMember key (length out1) (length out2)]) (kws ++ [(key, w)]).
Proof.
  intros [Hout Hms] out1 out2. pose proof (Forall2_length _ _ _ Hms) as Hlen.
  assert (exists x, out1 = out ++ x) as [x Hx].
  { unfold out1. case_bool_decide; [exists []; by rewrite app_nil_r|eauto]. }
  assert (out2 = out1 ++ span_text (key, w)) as H2.
  { unfold out2, span_text. cbn [fst snd]. rewrite -!app_assoc. done. }
  split.
  - rewrite fmap_app commas_snoc H2 /out1.
    replace (bool_decide (span_text <$> kws = [])) with (bool_decide (ms = [])).
    2: { apply bool_decide_ext. by destruct ms, kws. }
    case_bool_decide as Hn.
    + subst ms. destruct kws; [|done]. simpl in Hout. rewrite app_nil_r in Hout. by subst.
    + by rewrite Hout -!app_assoc.
  - apply Forall2_app.
    + eapply Forall2_impl; [exact Hms|]. intros m kw (Hk & Hs & He & Hsl). split_and!; [done|lia|lia| |].
      * rewrite H2 Hx !length_app. lia.
      * rewrite H2 Hx -app_assoc slice_app //. lia.
    + constructor; [|done]. split_and!; cbn [m_key m_start m_end].
      * done.
      * rewrite Hx Hout !length_app. lia.
      * rewrite H2 length_app. lia.
      * lia.
      * rewrite H2. apply slice_last.
Qed.

(** ** Numbers *)

Lemma fast_number_spec l s r : fast_number l = Some (s, r) ->
  exists n, scan_number l = Some (n, r) /\ write (JNumber (number_text n)) = Some s.
Proof.
  unfold fast_number, numberEnd. destruct (scan_number l) as [[n r']|] eqn:Hn; [|done].
  destruct (scan_number_ok l n r' Hn) as [Hok _].
  destruct (_ && _ && negb _) eqn:Hshort.
  - intros [= <- <-]. exists n. split; [done|]. cbn [write].
    apply andb_true_iff in Hshort as [[Hint%andb_true_iff Hlen]%andb_true_iff Hz].
    destruct Hint as [Hf He]. apply bool_decide_eq_true in Hf, He, Hlen.
    destruct Hok as [Hs Hi _ _]. unfold number_text in *. rewrite Hf He !app_nil_r in Hlen Hz |- *.
    destruct (short_integer_kept (n_sign n) (n_int n) Hs Hi) as (f & -> & ->); [| |done].
    + destruct Hs as [Hs|Hs]; rewrite Hs in Hlen; cbn [app length head] in Hlen.
      * destruct (ok_int_head (n_int n) [] Hi) as (c & t & E & Hc & _). rewrite app_nil_r in E. rewrite E in Hlen |- *.
        cbn [head] in Hlen. rewrite bool_decide_eq_false_2 in Hlen; [done|]. by intros [= ->].
      * rewrite bool_decide_eq_true_2 // in Hlen. lia.
    + destruct Hs as [Hs|Hs]; [by left|right]. intros Hi0. by rewrite Hs Hi0 in Hz.
  - destruct (ParseFloat (number_text n)) as [f|] eqn:Hp; [|done].
    destruct (FormatNumber f) as [s'|] eqn:Hf; [|done]. intros [= <- <-]. exists n. split; [done|]. cbn [write]. by rewrite Hp.
Qed.

(** ** The walk *)

Definition writes (kv : list ascii * raw) (kw : list ascii * list ascii) : Prop :=
  kw.1 = unquote kv.1 /\ write (interp kv.2) = Some kw.2.

Definition interp_member (kv : list ascii * raw) : list ascii * json := (unquote kv.1, interp kv.2).

Lemma writes_keys raws kws : Forall2 writes raws kws ->
  (interp_member <$> raws).*1 = kws.*1 /\ mapM write_member (interp_member <$> raws) = Some kws /\ valid_keys fst kws.
Proof.
  induction 1 as [|[k x] [k' w] raws kws [Hk Hw] _ (IH1 & IH2 & IH3)]; [by split_and!; [..|constructor]|].
  cbn [fst snd] in *. subst k'. rewrite !fmap_cons IH1. split_and!.
  - done.
  - cbn [mapM]. change (write_member (interp_member (k, x)))
      with (match write (interp x) with Some w => Some (unquote k, w) | None => None end).
    rewrite Hw. simpl. by rewrite IH2.
  - constructor; [apply Valid_unquote|done].
Qed.

(** An object is written as its members in order, when no name comes twice. *)
Lemma write_members_ordered raws kws kws' :
  Forall2 writes raws kws -> kws ≡ₚ kws' -> ordered fst kws' ->
  write (interp (RObject raws)) = Some ("{"%char :: commas (span_text <$> kws') ++ ["}"%char]).
Proof.
  intros Hw Hp Ho. destruct (writes_keys raws kws Hw) as (Hk & Hm & Hv).
  assert (NoDup kws.*1) as Hnd by (rewrite Hp; by apply ordered_NoDup).
  change (interp (RObject raws)) with (JObject (set_members (interp_member <$> raws))).
  rewrite set_members_NoDup ?Hk // write_object Hm. simpl. unfold object_text. rewrite (sort_by_unique kws kws') //.
  do 4 f_equal. apply list_fmap_ext. intros i [k w] Hi. unfold member_text, span_text. cbn [fst snd].
  rewrite appendString_writeString //. assert (valid_keys fst kws') as Hv' by (by eapply valid_keys_perm).
  unfold valid_keys in Hv'. rewrite Forall_forall in Hv'. apply (Hv' (k, w)). by eapply list_elem_of_lookup_2.
Qed.

(** Spans take their order from their members. *)
Lemma ordered_spans pre out ms kws : Forall2 (span_of pre out) ms kws -> ordered m_key ms -> ordered fst kws.
Proof.
  intros Hms Ho. assert (m_key <$> ms = kws.*1) as Hk.
  { clear Ho. induction Hms as [|m kw ms kws (Hk & _) _ IH]; [done|]. by rewrite !fmap_cons Hk IH. }
  clear Hms. revert kws Hk. induction Ho as [|m l Hl IH Hm]; intros [|kw kws] H; try done; [constructor|].
  rewrite !fmap_cons in H. injection H as Hk H. constructor; [by apply IH|].
  apply Forall_forall. intros y Hy. apply (list_elem_of_fmap_2 fst) in Hy. rewrite -H in Hy.
  apply list_elem_of_fmap in Hy as (m' & Hy & Hm'). rewrite Forall_forall in Hm. rewrite -Hk Hy. by apply Hm.
Qed.

(** Putting the members in order. *)
Lemma reorder_spec pre out ms kws out' raws :
  spans pre out ms kws -> (0 < length pre)%nat -> Forall2 writes raws kws ->
  reorder (length pre - 1) ms out = Some out' ->
  exists kws', kws ≡ₚ kws' /\ ordered fst kws' /\ out' = pre ++ commas (span_text <$> kws').
Proof.
  intros [Hout Hms] Hlen Hw. unfold reorder. destruct (adjacent_equal (sortMembers ms)) eqn:Ha; [done|]. intros [= <-].
  destruct (writes_keys raws kws Hw) as (_ & _ & Hv).
  assert (m_key <$> ms = kws.*1) as Hkeys.
  { clear -Hms. induction Hms as [|m kw ms kws (Hk & _) _ IH]; [done|]. by rewrite !fmap_cons Hk IH. }
  assert (valid_keys m_key ms) as Hvm.
  { apply Forall_forall. intros m Hm. apply (list_elem_of_fmap_2 m_key) in Hm. rewrite Hkeys in Hm.
    apply list_elem_of_fmap in Hm as (kw & -> & Hin). unfold valid_keys in Hv. rewrite Forall_forall in Hv. by apply Hv. }
  destruct (Permutation_Forall2 (symmetry (sortMembers_perm ms)) Hms) as (kws' & Hp & Hms').
  exists kws'. split_and!; [done| |].
  - apply (ordered_spans pre out (sortMembers ms)); [done|]. by apply sortMembers_spec.
  - assert (S (length pre - 1) = length pre) as -> by lia. rewrite {1}Hout take_app_length. f_equal. f_equal.
    clear -Hms' Hlen Hout. induction Hms' as [|m kw ms' kws'' (Hk & Hs & He & Hsl) _ IH]; [done|].
    rewrite !fmap_cons IH. f_equal. rewrite -Hsl. unfold slice. rewrite drop_drop. f_equal; [lia|]. f_equal. lia.
Qed.

Definition sorted_keys (sorted : bool) (ms : list member) : Prop :=
  sorted = true -> ordered m_key ms.

Lemma sorted_keys_snoc sorted ms m : valid_keys m_key (ms ++ [m]) -> sorted_keys sorted ms ->
  forall sorted', match last ms with
    | None => Some sorted
    | Some prev => if bool_decide (m_key prev = m_key m) then None else Some (sorted && lessKey (m_key prev) (m_key m))
    end = Some sorted' -> sorted_keys sorted' (ms ++ [m]).
Proof.
  intros Hv Hs sorted' H ->. unfold ordered.
  destruct (last ms) as [prev|] eqn:Hl.
  - case_bool_decide; [done|]. injection H as H. apply andb_true_iff in H as [-> Hk]. specialize (Hs eq_refl).
    apply last_snoc_inv in Hl as [ms' ->]. unfold valid_keys in Hv. rewrite !Forall_app !Forall_singleton in Hv.
    destruct Hv as [[_ Hvp] Hvm]. rewrite lessKey_LessUTF16 // in Hk. apply StronglySorted_app_2; [|done|by repeat constructor].
    intros x y [Hx|Hx]%elem_of_app Hy%list_elem_of_singleton; subst.
    + transitivity (m_key prev); [|done]. by apply (StronglySorted_app_1_elem_of (fun x y => before (m_key x) (m_key y)) ms' [prev]); [..|left].
    + by apply list_elem_of_singleton in Hx as ->.
  - assert (ms = []) as -> by (by apply last_None). injection H as ->. by repeat constructor.
Qed.

(** The walk agrees with the scanner and writes what [write] writes. *)
Lemma fast_walk fuel :
  (forall depth l out r out', Valid l = true -> fast_value fuel depth l out = Some (r, out') ->
    exists v w, scan_value fuel depth l = Some (v, r) /\ write (interp v) = Some w /\ out' = out ++ w /\ Valid r = true) /\
  (forall depth l pre out ms sorted kws0 r out' ms' sorted', Valid l = true ->
    fast_members fuel depth l out ms sorted = Some (r, out', ms', sorted') ->
    spans pre out ms kws0 -> valid_keys m_key ms -> sorted_keys sorted ms ->
    exists raws kws, scan_members fuel depth l = Some (raws, r) /\ Forall2 writes raws kws /\
      spans pre out' ms' (kws0 ++ kws) /\ valid_keys m_key ms' /\ sorted_keys sorted' ms' /\ Valid r = true) /\
  (forall depth l out r out', Valid l = true -> fast_elements fuel depth l out = Some (r, out') ->
    exists vs ws, scan_elements fuel depth l = Some (vs, r) /\ mapM write (interp <$> vs) = Some ws /\
      out' = out ++ commas ws ++ ["]"%char] /\ vs <> [] /\ Valid r = true).
Proof.
  induction fuel as [|fuel (IHv & IHm & IHe)]; [by split_and!|]. split_and!.
  - intros depth l out r out' Hv H. destruct l as [|c l1]; [done|]. cbn [fast_value scan_value] in *.
    case_bool_decide as H1.
    { subst c. destruct (Z.leb_spec maxDepth depth) as [|Hd]; [done|].
      assert (maxNestingDepth <=? depth = false) as -> by (apply Z.leb_gt; unfold maxDepth, maxNestingDepth in *; lia).
      assert (Valid (skipWS l1) = true) as Hv1 by (apply Valid_skipWS; by apply (Valid_ascii_cons "{"%char)).
      destruct (skipWS l1) as [|d r1]; [done|]. case_bool_decide as H2.
      - injection H as <- <-. subst d. exists (RObject []), (la "{}"). split_and!; [done..|by rewrite -app_assoc|].
        by apply (Valid_ascii_cons "}"%char).
      - destruct (fast_members _ _ _ _ _ _) as [[[[r2 out2] ms2] sorted2]|] eqn:Hm; [|done].
        destruct (IHm _ _ _ _ _ _ [] _ _ _ _ Hv1 Hm (spans_nil _)) as (raws & kws & Hs & Hw & Hsp & Hvk & Hsk & Hvr);
          [constructor|by intros _; constructor|].
        rewrite Hs. cbn [app] in Hsp.
        destruct sorted2.
        + injection H as <- <-. eexists (RObject raws), _. split; [done|].
          pose proof (sp_members _ _ _ _ Hsp) as Hms.
          rewrite (write_members_ordered raws kws kws Hw); [|done|].
          2: { apply (ordered_spans _ _ _ _ Hms). by apply Hsk. }
          split; [done|]. split; [|done]. rewrite (sp_out _ _ _ _ Hsp). by rewrite -!app_assoc.
        + destruct (reorder (length out) ms2 out2) as [out3|] eqn:Hr; [|done]. injection H as <- <-.
          destruct (reorder_spec _ _ _ _ out3 raws Hsp) as (kws' & Hp & Ho & ->); [rewrite length_app /=; lia|done| |].
          { rewrite length_app Nat.add_sub. done. }
          eexists (RObject raws), _. split; [done|]. rewrite (write_members_ordered raws kws kws' Hw Hp Ho).
          split; [done|]. split; [|done]. by rewrite -!app_assoc. }
    case_bool_decide as H3.
    { subst c. destruct (Z.leb_spec maxDepth depth) as [|Hd]; [done|].
      assert (maxNestingDepth <=? depth = false) as -> by (apply Z.leb_gt; unfold maxDepth, maxNestingDepth in *; lia).
      assert (Valid (skipWS l1) = true) as Hv1 by (apply Valid_skipWS; by apply (Valid_ascii_cons "["%char)).
      destruct (skipWS l1) as [|d r1]; [done|]. case_bool_decide as H2.
      - injection H as <- <-. subst d. exists (RArray []), (la "[]"). split_and!; [done..|by rewrite -app_assoc|].
        by apply (Valid_ascii_cons "]"%char).
      - destruct (IHe _ _ _ _ _ Hv1 H) as (vs & ws & Hs & Hw & -> & _ & Hvr). rewrite Hs.
        exists (RArray vs), (array_text ws). split; [done|]. split; [|split; [|done]].
        + change (interp (RArray vs)) with (JArray (interp <$> vs)). by rewrite write_array Hw.
        + unfold array_text. by rewrite -!app_assoc. }
    case_bool_decide as H4.
    { subst c. destruct (fast_str l1) as [[s r1]|] eqn:Hs; [|done]. injection H as <- <-.
      assert (Valid l1 = true) as Hv1 by (by apply (Valid_ascii_cons quote)).
      destruct (fast_str_spec l1 s r1 Hv1 Hs) as (b & Hb & -> & Hvs & Hvr). rewrite Hb.
      exists (RString b), (writeString (unquote b)). split_and!; [done..| |done]. by rewrite appendString_writeString. }
    destruct (bool_decide (c = "-"%char) || is_digit c) eqn:H5.
    { destruct (fast_number (c :: l1)) as [[s r1]|] eqn:Hs; [|done]. injection H as <- <-.
      destruct (fast_number_spec _ _ _ Hs) as (n & Hn & Hw). rewrite Hn. exists (RNumber n), s.
      split_and!; try done. by eapply Valid_number. }
    case_bool_decide; [|case_bool_decide; [|case_bool_decide; [|done]]].
    + destruct (strip_word (la "true") _) as [r1|] eqn:Hw; [|done]. injection H as <- <-. exists (RBool true), (la "true").
      split_and!; try done. eapply Valid_word; [|exact Hw|done]. by repeat constructor.
    + destruct (strip_word (la "false") _) as [r1|] eqn:Hw; [|done]. injection H as <- <-. exists (RBool false), (la "false").
      split_and!; try done. eapply Valid_word; [|exact Hw|done]. by repeat constructor.
    + destruct (strip_word (la "null") _) as [r1|] eqn:Hw; [|done]. injection H as <- <-. exists RNull, (la "null").
      split_and!; try done. eapply Valid_word; [|exact Hw|done]. by repeat constructor.
  - intros depth l pre out ms sorted kws0 r out' ms' sorted' Hv H Hsp Hvk Hsk. cbn [fast_members scan_members] in *.
    destruct l as [|q l1]; [done|]. case_bool_decide as Hq; [|done]. subst q.
    assert (Valid l1 = true) as Hv1 by (by apply (Valid_ascii_cons quote)).
    destruct (fast_str l1) as [[key l2]|] eqn:Hk; [|done].
    destruct (fast_str_spec l1 key l2 Hv1 Hk) as (b & Hb & Hkey & Hvkey & Hv2). rewrite Hb.
    apply Valid_skipWS in Hv2. destruct (skipWS l2) as [|colon l3]; [done|]. case_bool_decide as Hcolon; [|done]. subst colon.
    assert (Valid (skipWS l3) = true) as Hv3 by (apply Valid_skipWS; by apply (Valid_ascii_cons ":"%char)).
    destruct (fast_value _ _ _ _) as [[l4 out4]|] eqn:Hval; [|done].
    destruct (IHv _ _ _ _ _ Hv3 Hval) as (v & w & Hs & Hw & -> & Hv4). rewrite Hs.
    pose proof (spans_snoc pre out ms kws0 key w Hsp) as Hsp'. cbv zeta in Hsp'.
    set (out1 := if bool_decide (ms = []) then out else out ++ [","%char]) in *.
    set (out2 := (out1 ++ appendString key ++ [":"%char]) ++ w) in *. set (m := mkMember key (length out1) (length out2)) in *.
    assert (valid_keys m_key (ms ++ [m])) as Hvk' by (apply Forall_app; split; [done|by constructor]).
    pose proof (sorted_keys_snoc sorted ms m Hvk' Hsk) as Hsk'. cbn [m m_key] in Hsk'.
    destruct (match last ms with None => _ | Some _ => _ end) as [sorted1|] eqn:Hlast; [|done].
    specialize (Hsk' sorted1 eq_refl). apply Valid_skipWS in Hv4. destruct (skipWS l4) as [|d l5]; [done|].
    assert (writes (b, v) (key, w)) as Hwr by done.
    case_bool_decide as Hd.
    + subst d. assert (Valid (skipWS l5) = true) as Hv5 by (apply Valid_skipWS; by apply (Valid_ascii_cons ","%char)).
      destruct (IHm _ _ _ _ _ _ _ _ _ _ _ Hv5 H Hsp' Hvk' Hsk') as (raws & kws & Hsm & Hws & Hspf & Hrest).
      rewrite Hsm. exists ((b, v) :: raws), ((key, w) :: kws). split; [done|]. split; [by constructor|].
      by rewrite -app_assoc in Hspf.
    + case_bool_decide as Hd2; [|done]. injection H as <- <- <- <-. subst d. exists [(b, v)], [(key, w)].
      split_and!; try done. by constructor.
  - intros depth l out r out' Hv H. cbn [fast_elements scan_elements] in *.
    destruct (fast_value _ _ _ _) as [[l1 out1]|] eqn:Hval; [|done].
    destruct (IHv _ _ _ _ _ Hv Hval) as (v & w & Hs & Hw & -> & Hv1). rewrite Hs.
    apply Valid_skipWS in Hv1. destruct (skipWS l1) as [|d l2]; [done|]. case_bool_decide as Hd.
    + subst d. assert (Valid (skipWS l2) = true) as Hv2 by (apply Valid_skipWS; by apply (Valid_ascii_cons ","%char)).
      destruct (IHe _ _ _ _ _ Hv2 H) as (vs & ws & Hse & Hws & -> & Hne & Hvr). rewrite Hse.
      exists (v :: vs), (w :: ws). split_and!; try done.
      * rewrite fmap_cons. cbn [mapM]. rewrite Hw. simpl. by rewrite Hws.
      * assert (ws <> []) as Hws0 by (intros ->; destruct vs as [|v1 vs]; [done|]; cbn [mapM fmap list_fmap] in Hws;
          destruct (write (interp v1)); [|done]; simpl in Hws; by destruct (mapM write _)).
        destruct ws as [|w1 ws]; [done|]. change (commas (w :: w1 :: ws)) with (w ++ ","%char :: commas (w1 :: ws)).
        by rewrite -!app_assoc.
    + case_bool_decide as Hd2; [|done]. injection H as <- <-. subst d. exists [v], [w].
      split_and!; try done; [by rewrite /= Hw|by rewrite -app_assoc].
Qed.

(** C31: What the walk over the bytes returns is what the decoder's path
    returns: members in the same order, strings with the same escapes, numbers
    in the same form. *)
Theorem transformFast_agrees data out : transformFast data = Some out -> transformDecoded data = Some out.
Proof.
  unfold transformFast, transformDecoded, Decode, scan_document. destruct (Valid data) eqn:Hv; [|done].
  destruct (fast_value _ _ _ _) as [[r out']|] eqn:Hf; [|done]. case_bool_decide as Hr; [|done]. intros [= ->].
  destruct (proj1 (fast_walk (fuel_for (skipWS data))) 0 (skipWS data) [] r out (Valid_skipWS _ Hv) Hf) as (v & w & Hs & Hw & -> & _).
  rewrite Hs. unfold More. by rewrite Hr Hw.
Qed.
