(* ===== verification/JsonTokens.v ===== *)
(** * The scanner's fuel, and the tokens of a value

    More fuel changes nothing ([scan_value_enough]).  Where the scanner reads a
    value, the token loop reads its tokens and comes to what follows it
    ([token_walk]), finding what the value, taken whole, has wrong with it
    ([check_raw]); and the search for surrogates passes over a value that has
    none ([surrogates_walk]). *)
From S2P Require Import Prelude Strconv StrconvProps Utf8 Json Jcs Ijson Utf8Props NumberProps JsonProps.
Open Scope session_scope.
Local Open Scope Z_scope.

(** ** Fuel *)

Lemma skipWS_cons_length l c r : skipWS l = c :: r -> (S (length r) <= length l)%nat.
Proof. intros H. pose proof (skipWS_length l) as Hl. rewrite H in Hl. simpl in Hl. lia. Qed.

Lemma scan_string_length l b r : scan_string l = Some (b, r) -> (length r < length l)%nat.
Proof. intros H. apply scan_string_text in H as ->. rewrite length_app /=. lia. Qed.

Lemma scan_number_length l n r : scan_number l = Some (n, r) -> (length r < length l)%nat.
Proof.
  intros H. apply scan_number_ok in H as [Hok ->]. rewrite length_app.
  destruct (number_text_head n [] Hok) as (c & t & E & _). rewrite app_nil_r in E. rewrite E /=. lia.
Qed.

Lemma strip_word_length w l r : strip_word w l = Some r -> w <> [] -> (length r < length l)%nat.
Proof. intros H Hw. apply strip_word_text in H as ->. rewrite length_app. destruct w; [done|simpl; lia]. Qed.

(** What a scan gives does not depend on the fuel, and leaves less. *)
Lemma scan_enough fuel :
  (forall depth l v r, scan_value fuel depth l = Some (v, r) ->
    (length r < length l)%nat /\ forall g, (2 * length l + 1 <= g)%nat -> scan_value g depth l = Some (v, r)) /\
  (forall depth l ms r, scan_members fuel depth l = Some (ms, r) ->
    (length r < length l)%nat /\ forall g, (2 * length l + 1 <= g)%nat -> scan_members g depth l = Some (ms, r)) /\
  (forall depth l es r, scan_elements fuel depth l = Some (es, r) ->
    (length r < length l)%nat /\ forall g, (2 * length l + 2 <= g)%nat -> scan_elements g depth l = Some (es, r)).
Proof.
  induction fuel as [|fuel (IHv & IHm & IHe)]; [by split_and!|]. split_and!.
  - intros depth l v r H. destruct l as [|c l1]; [done|]. cbn [scan_value] in H.
    assert ((length r < length (c :: l1))%nat /\ forall g, (2 * length (c :: l1) <= g)%nat -> scan_value (S g) depth (c :: l1) = Some (v, r)) as [Hl Hg].
    2: { split; [done|]. intros g Hg'. destruct g as [|g]; [lia|]. apply Hg. lia. }
    cbn [scan_value length]. case_bool_decide.
    { destruct (_ <=? _); [done|]. destruct (skipWS l1) as [|d r1] eqn:Hws; [done|]. apply skipWS_cons_length in Hws.
      case_bool_decide; [injection H as <- <-; split; [lia|done]|].
      destruct (scan_members _ _ _) as [[ms r2]|] eqn:Hm; [|done]. injection H as <- <-.
      destruct (IHm _ _ _ _ Hm) as [Hlen Hgo]. cbn [length] in *. split; [lia|]. intros g Hg. by rewrite Hgo; [|lia]. }
    case_bool_decide.
    { destruct (_ <=? _); [done|]. destruct (skipWS l1) as [|d r1] eqn:Hws; [done|]. apply skipWS_cons_length in Hws.
      case_bool_decide; [injection H as <- <-; split; [lia|done]|].
      destruct (scan_elements _ _ _) as [[es r2]|] eqn:Hm; [|done]. injection H as <- <-.
      destruct (IHe _ _ _ _ Hm) as [Hlen Hgo]. cbn [length] in *. split; [lia|]. intros g Hg. by rewrite Hgo; [|lia]. }
    split; [|done]. change (S (length l1)) with (length (c :: l1)).
    case_bool_decide.
    { destruct (scan_string l1) as [[b r1]|] eqn:Hs; [|done]. injection H as <- <-. apply scan_string_length in Hs. simpl. lia. }
    destruct (_ || _).
    { destruct (scan_number _) as [[n r1]|] eqn:Hs; [|done]. injection H as <- <-. by apply scan_number_length in Hs. }
    repeat case_bool_decide; [..|done];
      (destruct (strip_word _ _) as [r1|] eqn:Hs; [|done]; injection H as <- <-; by eapply strip_word_length).
  - intros depth l ms r H. destruct l as [|q l1]; [done|]. cbn [scan_members] in H. case_bool_decide as Hq; [|done].
    destruct (scan_string l1) as [[b l2]|] eqn:Hs; [|done]. pose proof (scan_string_length _ _ _ Hs).
    destruct (skipWS l2) as [|colon l3] eqn:Hws; [done|]. pose proof (skipWS_cons_length _ _ _ Hws).
    case_bool_decide as Hc; [|done]. destruct (scan_value _ _ _) as [[v l4]|] eqn:Hv; [|done].
    destruct (IHv _ _ _ _ Hv) as [Hlen Hgo]. pose proof (skipWS_length l3).
    destruct (skipWS l4) as [|d l5] eqn:Hws2; [done|]. pose proof (skipWS_cons_length _ _ _ Hws2). pose proof (skipWS_length l5).
    case_bool_decide as Hd.
    + destruct (scan_members _ _ _) as [[ms' r1]|] eqn:Hm; [|done]. injection H as <- <-.
      destruct (IHm _ _ _ _ Hm) as [Hlen' Hgo']. cbn [length] in *. split; [lia|]. intros g Hg. destruct g as [|g]; [lia|].
      cbn [scan_members]. rewrite bool_decide_eq_true_2 // Hs Hws bool_decide_eq_true_2 // Hgo; [|lia].
      rewrite Hws2 bool_decide_eq_true_2 // Hgo' //. lia.
    + case_bool_decide as Hd'; [|done]. injection H as <- <-. cbn [length] in *. split; [lia|]. intros g Hg.
      destruct g as [|g]; [lia|]. cbn [scan_members]. rewrite bool_decide_eq_true_2 // Hs Hws bool_decide_eq_true_2 // Hgo; [|lia].
      rewrite Hws2 bool_decide_eq_false_2 // bool_decide_eq_true_2 //.
  - intros depth l es r H. cbn [scan_elements] in H. destruct (scan_value _ _ _) as [[v l1]|] eqn:Hv; [|done].
    destruct (IHv _ _ _ _ Hv) as [Hlen Hgo]. destruct (skipWS l1) as [|d l2] eqn:Hws; [done|].
    pose proof (skipWS_cons_length _ _ _ Hws). pose proof (skipWS_length l2). case_bool_decide as Hd.
    + destruct (scan_elements _ _ _) as [[es' r1]|] eqn:Hm; [|done]. injection H as <- <-.
      destruct (IHe _ _ _ _ Hm) as [Hlen' Hgo']. split; [lia|]. intros g Hg. destruct g as [|g]; [lia|].
      cbn [scan_elements]. rewrite Hgo; [|lia]. rewrite Hws bool_decide_eq_true_2 // Hgo' //. lia.
    + case_bool_decide as Hd'; [|done]. injection H as <- <-. split; [lia|]. intros g Hg. destruct g as [|g]; [lia|].
      cbn [scan_elements]. rewrite Hgo; [|lia]. by rewrite Hws bool_decide_eq_false_2 // bool_decide_eq_true_2.
Qed.

(** Whatever some fuel reads, the fuel for the text reads. *)
Lemma scan_value_enough fuel depth l v r :
  scan_value fuel depth l = Some (v, r) -> scan_value (fuel_for l) depth l = Some (v, r).
Proof. intros H. destruct (proj1 (scan_enough fuel) _ _ _ _ H) as [_ Hg]. apply Hg. unfold fuel_for. lia. Qed.

(** ** What is wrong with a value *)

(** The number rule and the rule that no object repeats a name, in the order
    the tokens come. *)
Fixpoint check_raw (v : raw) : result unit :=
  match v with
  | RNumber n => CheckNumber (number_text n)
  | RArray l =>
      (fix all (l : list raw) : result unit :=
         match l with [] => Ok tt | x :: l => check_raw x ;! all l end) l
  | RObject ms =>
      (fix members (keys : list (list ascii)) (ms : list (list ascii * raw)) : result unit :=
         match ms with
         | [] => Ok tt
         | (k, x) :: ms =>
             if bool_decide (unquote k ∈ keys) then Err ErrNotIJSON
             else check_raw x ;! members (unquote k :: keys) ms
         end) [] ms
  | _ => Ok tt
  end.

Fixpoint check_all (l : list raw) : result unit :=
  match l with [] => Ok tt | x :: l => check_raw x ;! check_all l end.

Fixpoint check_members (keys : list (list ascii)) (ms : list (list ascii * raw)) : result unit :=
  match ms with
  | [] => Ok tt
  | (k, x) :: ms =>
      if bool_decide (unquote k ∈ keys) then Err ErrNotIJSON
      else check_raw x ;! check_members (unquote k :: keys) ms
  end.

Lemma check_raw_array l : check_raw (RArray l) = check_all l.
Proof. induction l as [|x l IH]; [done|]. cbn [check_all]. by rewrite -IH. Qed.

Lemma check_raw_object ms : check_raw (RObject ms) = check_members [] ms.
Proof.
  cbn [check_raw]. generalize (@nil (list ascii)). induction ms as [|[k x] ms IH]; intros keys; [done|].
  cbn [check_members]. by rewrite -IH.
Qed.

Lemma rbind_assoc {A B C} (a : result A) (f : A -> result B) (g : B -> result C) :
  rbind (rbind a f) g = rbind a (fun x => rbind (f x) g).
Proof. by destruct a. Qed.

(** ** The tokens of a value *)

(** The next token from white space and from what follows it. *)
Lemma next_token_ws fuel l st ds : next_token fuel (mkDecoder (skipWS l) st ds) = next_token fuel (mkDecoder l st ds).
Proof. destruct fuel; [done|]. cbn [next_token d_in]. by rewrite skipWS_idemp. Qed.

(** One step is enough unless a colon or a comma comes first. *)
Lemma next_token_one fuel c l st ds : skipWS (c :: l) = c :: l -> c <> ":"%char -> c <> ","%char ->
  next_token (S fuel) (mkDecoder (c :: l) st ds) = next_token 1 (mkDecoder (c :: l) st ds).
Proof.
  intros Hws H1 H2. cbn [next_token d_in]. rewrite Hws. repeat (case_bool_decide; [done|]). done.
Qed.

Lemma token_loop_step fuel d fs t d' : next_token 3 d = Token t d' ->
  token_loop (S fuel) d fs = rbind (check_token fs t) (fun fs => token_loop fuel d' fs).
Proof. intros H. cbn [token_loop]. by rewrite H. Qed.

(** A string here is a value and not a name. *)
Definition frame_ok (fs : list frame) : Prop :=
  match fs with f :: _ => f_object f && f_expectKey f = false | [] => True end.

Lemma check_token_value fs v : frame_ok fs -> (forall l, v <> RArray l) -> (forall ms, v <> RObject ms) ->
  check_token fs (scalar_token v) = (check_raw v ;! Ok (valueDone fs)).
Proof.
  intros Hf Ha Ho. destruct v as [|b|n|b|l|ms]; try done; [|by destruct (Ha l)|by destruct (Ho ms)].
  cbn [scalar_token check_token check_raw]. destruct fs as [|f fs]; [done|]. simpl in Hf. by rewrite Hf.
Qed.

(** A scalar is one token. *)
Lemma scalar_next c l v r st ds : scan_value 1 0 (c :: l) = Some (v, r) -> skipWS (c :: l) = c :: l ->
  tokenValueAllowed st = true -> c <> "["%char -> c <> "{"%char -> c <> "]"%char -> c <> "}"%char -> c <> ":"%char -> c <> ","%char ->
  next_token 1 (mkDecoder (c :: l) st ds) = Token (scalar_token v) (mkDecoder r (tokenValueEnd st) ds).
Proof.
  intros Hs Hws Hst H1 H2 H3 H4 H5 H6. cbn [next_token d_in d_state d_stack]. rewrite Hws.
  do 6 (rewrite bool_decide_eq_false_2; [|done]).
  assert (bool_decide (c = quote) && (bool_decide (st = ObjectStart) || bool_decide (st = ObjectKey)) = false) as ->.
  { apply andb_false_iff. right. by destruct st. }
  unfold value_token. cbn [d_state d_stack]. by rewrite Hst Hs.
Qed.

(** What a value starts with. *)
Definition value_start (c : ascii) : Prop :=
  c = "{"%char \/ c = "["%char \/ c = quote \/ c = "-"%char \/ is_digit c = true \/ c = "t"%char \/ c = "f"%char \/ c = "n"%char.

Lemma scan_value_head fuel depth l v r : scan_value fuel depth l = Some (v, r) -> exists c l', l = c :: l' /\ value_start c.
Proof.
  destruct fuel as [|fuel]; [done|]. destruct l as [|c l]; [done|]. cbn [scan_value]. intros H. exists c, l. split; [done|].
  unfold value_start. case_bool_decide; [auto|]. case_bool_decide; [auto|]. case_bool_decide; [auto|].
  destruct (bool_decide (c = "-"%char)) eqn:E; [apply bool_decide_eq_true in E; auto 6|].
  destruct (is_digit c); [auto 6|]. simpl in H. repeat case_bool_decide; [auto 10..|done].
Qed.

Lemma value_start_not c : value_start c ->
  isSpace c = false /\ c <> ":"%char /\ c <> ","%char /\ c <> "]"%char /\ c <> "}"%char.
Proof.
  intros [->|[->|[->|[->|[Hd|[->|[-> | ->]]]]]]]; try by split_and!.
  split_and!; [|by apply is_digit_not..]. unfold isSpace. unfold is_digit in Hd. rewrite andb_true_iff !Z.leb_le in Hd.
  rewrite !orb_false_iff. split_and!; [|apply Z.eqb_neq; lia..]. apply bool_decide_eq_false. intros ->.
  change (byte_of " ") with 32 in Hd. lia.
Qed.

Lemma scan_scalar fuel depth c l : c <> "{"%char -> c <> "["%char -> scan_value (S fuel) depth (c :: l) = scan_value 1 0 (c :: l).
Proof. intros H1 H2. cbn [scan_value]. by rewrite !(bool_decide_eq_false_2 _ H1) !(bool_decide_eq_false_2 _ H2). Qed.

Lemma scalar_kind c l v r : scan_value 1 0 (c :: l) = Some (v, r) -> c <> "{"%char -> c <> "["%char ->
  (forall l, v <> RArray l) /\ (forall ms, v <> RObject ms).
Proof.
  intros H H1 H2. cbn [scan_value] in H. rewrite (bool_decide_eq_false_2 _ H1) (bool_decide_eq_false_2 _ H2) in H.
  repeat (case_bool_decide || destruct (_ || _)); try done;
    try (destruct (scan_string _) as [[? ?]|]; [|done]); try (destruct (scan_number _) as [[? ?]|]; [|done]);
    try (destruct (strip_word _ _); [|done]); by injection H as <- <-.
Qed.

(** Reading [l] in state [st] is what the decoder [d0] does next. *)
Definition reads (d0 : decoder) (l : list ascii) (st : token_state) (ds : list token_state) : Prop :=
  next_token 3 d0 = next_token 1 (mkDecoder l st ds).

Lemma reads_after_comma l1 l2 st st' ds fuel depth v r :
  skipWS l1 = ","%char :: l2 -> scan_value fuel depth (skipWS l2) = Some (v, r) \/ (exists t, skipWS l2 = quote :: t) ->
  st = ArrayComma /\ st' = ArrayValue \/ st = ObjectComma /\ st' = ObjectKey ->
  reads (mkDecoder l1 st ds) (skipWS l2) st' ds.
Proof.
  intros Hl1 Hl2 Hst. unfold reads.
  assert (exists c t, skipWS l2 = c :: t /\ value_start c) as (c & t & Hc & Hvs).
  { destruct Hl2 as [H|[t H]]; [by apply scan_value_head in H|]. exists quote, t. split; [done|]. unfold value_start. auto. }
  apply value_start_not in Hvs as (Hs & H1 & H2 & _).
  transitivity (next_token 2 (mkDecoder l2 st' ds)).
  - cbn [next_token d_in d_state d_stack]. rewrite Hl1. by destruct Hst as [[-> ->]|[-> ->]].
  - rewrite -next_token_ws Hc. apply next_token_one; [by apply skipWS_cons|done..].
Qed.

Lemma reads_after_colon l1 l2 ds fuel depth v r :
  skipWS l1 = ":"%char :: l2 -> scan_value fuel depth (skipWS l2) = Some (v, r) ->
  reads (mkDecoder l1 ObjectColon ds) (skipWS l2) ObjectValue ds.
Proof.
  intros Hl1 H. unfold reads. apply scan_value_head in H as (c & t & Hc & Hvs). apply value_start_not in Hvs as (Hs & H1 & H2 & _).
  transitivity (next_token 2 (mkDecoder l2 ObjectValue ds)).
  - cbn [next_token d_in d_state d_stack]. by rewrite Hl1.
  - rewrite -next_token_ws Hc. apply next_token_one; [by apply skipWS_cons|done..].
Qed.

Lemma close_token c l1 l2 st st0 ds : skipWS l1 = c :: l2 ->
  c = "]"%char /\ (st = ArrayStart \/ st = ArrayComma) \/ c = "}"%char /\ (st = ObjectStart \/ st = ObjectComma) ->
  next_token 3 (mkDecoder l1 st (st0 :: ds)) = Token (Delim c) (mkDecoder l2 (tokenValueEnd st0) ds).
Proof. intros Hl H. cbn [next_token d_in d_state d_stack]. rewrite Hl. by destruct H as [[-> [-> | ->]]|[-> [-> | ->]]]. Qed.

(** The walk's three claims, at some fuel: the loop reads the tokens of what the
    scanner reads and goes on after it, unless it is at fault. *)
Definition walks_value (fuel : nat) : Prop :=
  forall depth l v r, scan_value fuel depth l = Some (v, r) ->
  forall d0 st ds fs, reads d0 l st ds -> tokenValueAllowed st = true -> frame_ok fs ->
  exists n, (n + length r <= length l)%nat /\ forall k, token_loop (n + k) d0 fs =
    (check_raw v ;! token_loop k (mkDecoder r (tokenValueEnd st) ds) (valueDone fs)).
Definition walks_members (fuel : nat) : Prop :=
  forall depth l ms r, scan_members fuel depth l = Some (ms, r) ->
  forall d0 st st0 ds keys fs, reads d0 l st (st0 :: ds) -> st = ObjectStart \/ st = ObjectKey ->
  exists n, (n + length r <= length l)%nat /\ forall k, token_loop (n + k) d0 (mkFrame true keys true :: fs) =
    (check_members keys ms ;! token_loop k (mkDecoder r (tokenValueEnd st0) ds) (valueDone fs)).
Definition walks_elements (fuel : nat) : Prop :=
  forall depth l es r, scan_elements fuel depth l = Some (es, r) ->
  forall d0 st st0 ds fs, reads d0 l st (st0 :: ds) -> st = ArrayStart \/ st = ArrayValue ->
  exists n, (n + length r <= length l)%nat /\ forall k, token_loop (n + k) d0 (mkFrame false [] false :: fs) =
    (check_all es ;! token_loop k (mkDecoder r (tokenValueEnd st0) ds) (valueDone fs)).

(** After an opening bracket, what follows white space comes next. *)
Lemma reads_after_open l d r st ds : skipWS l = d :: r -> d <> ":"%char -> d <> ","%char ->
  reads (mkDecoder l st ds) (d :: r) st ds.
Proof.
  intros Hws H1 H2. unfold reads. rewrite -(next_token_ws 3) Hws. apply next_token_one; [|done..].
  by rewrite -Hws skipWS_idemp.
Qed.

Lemma value_walk_object fuel depth l1 v r d0 st ds fs : walks_members fuel ->
  scan_value (S fuel) depth ("{"%char :: l1) = Some (v, r) ->
  reads d0 ("{"%char :: l1) st ds -> tokenValueAllowed st = true ->
  exists n, (n + length r <= S (length l1))%nat /\ forall k, token_loop (n + k) d0 fs =
    (check_raw v ;! token_loop k (mkDecoder r (tokenValueEnd st) ds) (valueDone fs)).
Proof.
  intros IHm H Hd0 Hst. cbn [scan_value] in H. rewrite bool_decide_eq_true_2 // in H. destruct (_ <=? _); [done|].
  destruct (skipWS l1) as [|d r1] eqn:Hws1; [done|]. pose proof (skipWS_cons_length _ _ _ Hws1) as Hlen1.
  assert (next_token 3 d0 = Token (Delim "{"%char) (mkDecoder l1 ObjectStart (st :: ds))) as Ht.
  { rewrite Hd0. cbn [next_token d_in d_state d_stack]. rewrite skipWS_cons //. by rewrite Hst. }
  case_bool_decide as Hd.
  - injection H as <- <-. subst d. exists 2%nat. split; [simpl; lia|]. intros k.
    change (2 + k)%nat with (S (S k)).
    rewrite (token_loop_step _ _ _ _ _ Ht). cbn [check_token rbind]. rewrite bool_decide_eq_true_2 //. cbn [rbind].
    by rewrite (token_loop_step _ _ _ _ _ (close_token "}"%char l1 r1 ObjectStart st ds Hws1 ltac:(by right; split; [|left]))).
  - destruct (scan_members _ _ _) as [[ms r2]|] eqn:Hm; [|done]. injection H as <- <-.
    assert (d = quote) as ->.
    { destruct fuel; [done|]. cbn [scan_members] in Hm. by case_bool_decide. }
    destruct (IHm _ _ _ _ Hm (mkDecoder l1 ObjectStart (st :: ds)) ObjectStart st ds [] fs) as (n & Hn & Hrun);
      [by apply reads_after_open|by left|].
    exists (S n). split; [simpl in *; lia|]. intros k. change (S n + k)%nat with (S (n + k)).
    rewrite (token_loop_step _ _ _ _ _ Ht). cbn [check_token rbind]. rewrite bool_decide_eq_true_2 //. cbn [rbind].
    by rewrite Hrun check_raw_object.
Qed.

Lemma value_walk_array fuel depth l1 v r d0 st ds fs : walks_elements fuel ->
  scan_value (S fuel) depth ("["%char :: l1) = Some (v, r) ->
  reads d0 ("["%char :: l1) st ds -> tokenValueAllowed st = true ->
  exists n, (n + length r <= S (length l1))%nat /\ forall k, token_loop (n + k) d0 fs =
    (check_raw v ;! token_loop k (mkDecoder r (tokenValueEnd st) ds) (valueDone fs)).
Proof.
  intros IHe H Hd0 Hst. cbn [scan_value] in H. rewrite bool_decide_eq_false_2 // bool_decide_eq_true_2 // in H.
  destruct (_ <=? _); [done|].
  destruct (skipWS l1) as [|d r1] eqn:Hws1; [done|]. pose proof (skipWS_cons_length _ _ _ Hws1) as Hlen1.
  assert (next_token 3 d0 = Token (Delim "["%char) (mkDecoder l1 ArrayStart (st :: ds))) as Ht.
  { rewrite Hd0. cbn [next_token d_in d_state d_stack]. rewrite skipWS_cons //. by rewrite Hst. }
  assert (forall fs, check_token fs (Delim "["%char) = Ok (mkFrame false [] false :: fs)) as Hc by done.
  case_bool_decide as Hd.
  - injection H as <- <-. subst d. exists 2%nat. split; [simpl; lia|]. intros k.
    change (2 + k)%nat with (S (S k)). rewrite (token_loop_step _ _ _ _ _ Ht) Hc. cbn [rbind].
    by rewrite (token_loop_step _ _ _ _ _ (close_token "]"%char l1 r1 ArrayStart st ds Hws1 ltac:(by left; split; [|left]))).
  - destruct (scan_elements _ _ _) as [[es r2]|] eqn:Hm; [|done]. injection H as <- <-.
    assert (value_start d) as Hvs.
    { destruct fuel; [done|]. cbn [scan_elements] in Hm. destruct (scan_value _ _ _) as [[? ?]|] eqn:Hv; [|done].
      by apply scan_value_head in Hv as (c & t & [= -> ->] & ?). }
    apply value_start_not in Hvs as (_ & Hn1 & Hn2 & _).
    destruct (IHe _ _ _ _ Hm (mkDecoder l1 ArrayStart (st :: ds)) ArrayStart st ds fs) as (n & Hn & Hrun);
      [by apply reads_after_open|by left|].
    exists (S n). split; [simpl in *; lia|]. intros k. change (S n + k)%nat with (S (n + k)).
    rewrite (token_loop_step _ _ _ _ _ Ht) Hc. cbn [rbind]. by rewrite Hrun check_raw_array.
Qed.

Lemma value_walk fuel : walks_members fuel -> walks_elements fuel -> walks_value (S fuel).
Proof.
  intros IHm IHe depth l v r H d0 st ds fs Hd0 Hst Hfs. pose proof (scan_value_head _ _ _ _ _ H) as (c & l1 & -> & Hvs).
  pose proof (value_start_not c Hvs) as (Hsp & Hn1 & Hn2 & Hn3 & Hn4).
  destruct (decide (c = "{"%char)) as [->|Hobj]; [by eapply value_walk_object|].
  destruct (decide (c = "["%char)) as [->|Harr]; [by eapply value_walk_array|].
  rewrite scan_scalar // in H. pose proof (scalar_kind _ _ _ _ H Hobj Harr) as [Hka Hko].
  exists 1%nat. split.
  { destruct (proj1 (scan_enough 1) _ _ _ _ H) as [Hl _]. lia. }
  intros k. change (1 + k)%nat with (S k). unfold reads in Hd0.
  rewrite (scalar_next c l1 v r st ds H (skipWS_cons c l1 Hsp) Hst) // in Hd0.
  rewrite (token_loop_step _ _ _ _ _ Hd0) check_token_value // rbind_assoc. done.
Qed.

Lemma members_walk fuel : walks_value fuel -> walks_members fuel -> walks_members (S fuel).
Proof.
  intros IHv IHm depth l ms r H d0 st st0 ds keys fs Hd0 Hst. destruct l as [|q l1]; [done|].
  cbn [scan_members] in H. case_bool_decide as Hq; [|done]. subst q.
  destruct (scan_string l1) as [[b l2]|] eqn:Hs; [|done]. pose proof (scan_string_length _ _ _ Hs) as Hlen2.
  destruct (skipWS l2) as [|colon l3] eqn:Hws; [done|]. pose proof (skipWS_cons_length _ _ _ Hws) as Hlen3.
  case_bool_decide as Hc; [|done]. subst colon.
  destruct (scan_value _ _ _) as [[v l4]|] eqn:Hv; [|done]. pose proof (skipWS_length l3) as Hlen3'.
  destruct (skipWS l4) as [|d l5] eqn:Hws2; [done|]. pose proof (skipWS_cons_length _ _ _ Hws2) as Hlen5.
  pose proof (skipWS_length l5) as Hlen5'.
  assert (next_token 3 d0 = Token (TString (unquote b)) (mkDecoder l2 ObjectColon (st0 :: ds))) as Ht.
  { rewrite Hd0. cbn [next_token d_in d_state d_stack]. rewrite skipWS_cons //.
    destruct Hst as [-> | ->]; cbn; by rewrite Hs. }
  set (keys' := unquote b :: keys).
  destruct (IHv _ _ _ _ Hv _ ObjectValue (st0 :: ds) (mkFrame true keys' false :: fs)
    (reads_after_colon _ _ _ _ _ _ _ Hws Hv) eq_refl eq_refl) as (n1 & Hn1 & Hrun1).
  assert (forall k, token_loop (S (n1 + k)) d0 (mkFrame true keys true :: fs) =
    if bool_decide (unquote b ∈ keys) then Err ErrNotIJSON
    else check_raw v ;! token_loop k (mkDecoder l4 ObjectComma (st0 :: ds)) (mkFrame true keys' true :: fs)) as Hkey.
  { intros k. rewrite (token_loop_step _ _ _ _ _ Ht). cbn [check_token f_object f_expectKey f_keys andb].
    destruct (bool_decide (unquote b ∈ keys)); [done|]. cbn [rbind]. by rewrite Hrun1. }
  destruct (bool_decide (d = _)) eqn:Hd.
  - apply bool_decide_eq_true in Hd. subst d. destruct (scan_members fuel depth (skipWS l5)) as [[ms' r2]|] eqn:Hm; [|done]. injection H as <- <-.
    destruct (IHm _ _ _ _ Hm (mkDecoder l4 ObjectComma (st0 :: ds)) ObjectKey st0 ds keys' fs) as (n2 & Hn2 & Hrun2).
    { eapply (reads_after_comma l4 l5 _ _ _ 0 0 RNull []); [done| |by right]. right.
      destruct fuel; [done|]. cbn [scan_members] in Hm. destruct (skipWS l5) as [|q t]; [done|].
      destruct (bool_decide (q = quote)) eqn:Hq; [|done]. apply bool_decide_eq_true in Hq as ->. by exists t. }
    { by right. }
    exists (S (n1 + n2)). split; [simpl in *; lia|]. intros k. replace (S (n1 + n2) + k)%nat with (S (n1 + (n2 + k))) by lia.
    rewrite Hkey Hrun2. cbn [check_members]. destruct (bool_decide _); [done|]. by rewrite rbind_assoc.
  - destruct (bool_decide (d = "}"%char)) eqn:Hd'; [|done]. apply bool_decide_eq_true in Hd'. subst d.
    injection H as <- <-. exists (S (n1 + 1)). split; [simpl in *; lia|].
    intros k. replace (S (n1 + 1) + k)%nat with (S (n1 + S k)) by lia. rewrite Hkey. cbn [check_members].
    destruct (bool_decide (unquote b ∈ keys)); [done|]. rewrite rbind_assoc.
    destruct (check_raw v); [|reflexivity]. cbn [rbind].
    by rewrite (token_loop_step _ _ _ _ _ (close_token "}"%char l4 l5 ObjectComma st0 ds Hws2 ltac:(by right; split; [|right]))).
Qed.

Lemma elements_walk fuel : walks_value fuel -> walks_elements fuel -> walks_elements (S fuel).
Proof.
  intros IHv IHe depth l es r H d0 st st0 ds fs Hd0 Hst. cbn [scan_elements] in H.
  destruct (scan_value fuel depth l) as [[v l1]|] eqn:Hv; [|done].
  destruct (skipWS l1) as [|d l2] eqn:Hws; [done|].
  pose proof (skipWS_cons_length _ _ _ Hws) as Hlen1. pose proof (skipWS_length l2) as Hlen2.
  destruct (IHv _ _ _ _ Hv d0 st (st0 :: ds) (mkFrame false [] false :: fs) Hd0) as (n1 & Hn1 & Hrun1);
    [by destruct Hst as [-> | ->]|done|].
  assert (tokenValueEnd st = ArrayComma) as Hend by (by destruct Hst as [-> | ->]).
  rewrite Hend in Hrun1. case_bool_decide as Hd.
  - subst d. destruct (scan_elements fuel depth (skipWS l2)) as [[es' r2]|] eqn:Hm; [|done]. injection H as <- <-.
    destruct (IHe _ _ _ _ Hm (mkDecoder l1 ArrayComma (st0 :: ds)) ArrayValue st0 ds fs) as (n2 & Hn2 & Hrun2).
    { destruct fuel; [done|]. cbn [scan_elements] in Hm. destruct (scan_value fuel depth (skipWS l2)) as [[v' l']|] eqn:Hv'; [|done].
      eapply reads_after_comma; [done|by left|by left]. }
    { by right. }
    exists (n1 + n2)%nat. split; [lia|]. intros k. replace (n1 + n2 + k)%nat with (n1 + (n2 + k))%nat by lia.
    rewrite Hrun1. cbn [valueDone f_object]. rewrite Hrun2. cbn [check_all]. by rewrite rbind_assoc.
  - case_bool_decide as Hd'; [|done]. subst d. injection H as <- <-. exists (n1 + 1)%nat. split; [lia|].
    intros k. replace (n1 + 1 + k)%nat with (n1 + S k)%nat by lia. rewrite Hrun1. cbn [check_all].
    destruct (check_raw v); [|done]. cbn [rbind].
    by rewrite (token_loop_step _ _ _ _ _ (close_token "]"%char l1 l2 ArrayComma st0 ds Hws ltac:(by left; split; [|right]))).
Qed.

(** Where the scanner reads a value, the loop reads its tokens, and goes on
    after it unless the value is at fault. *)
Lemma token_walk fuel : walks_value fuel /\ walks_members fuel /\ walks_elements fuel.
Proof.
  induction fuel as [|fuel (IHv & IHm & IHe)]; [by split_and!|].
  split_and!; [by apply value_walk|by apply members_walk|by apply elements_walk].
Qed.

(** ** A document cut short is no document

    What a scan read stays read when more bytes follow ([scan_value_app]), so an
    object's bytes without the last of them are not JSON ([object_cut]). *)

Lemma scan_string_app l b r q : scan_string l = Some (b, r) -> scan_string (l ++ q) = Some (b, r ++ q).
Proof.
  intros H. pose proof (scan_string_body _ _ _ H) as Hb. apply scan_string_text in H as ->.
  rewrite -app_assoc. cbn [app]. by apply scan_body.
Qed.

Lemma skipWS_app l q : skipWS l <> [] -> skipWS (l ++ q) = skipWS l ++ q.
Proof. induction l as [|c l IH]; [done|]. cbn [skipWS app]. by destruct (isSpace c). Qed.

Lemma strip_word_more w l r q : strip_word w l = Some r -> strip_word w (l ++ q) = Some (r ++ q).
Proof. intros H. apply strip_word_text in H as ->. rewrite -app_assoc. apply strip_word_app. Qed.

Lemma span_digits_more l ds r q : span_digits l = (ds, r) -> r <> [] -> span_digits (l ++ q) = (ds, r ++ q).
Proof.
  revert ds r. induction l as [|c l IH]; intros ds r; cbn [span_digits app]; [by intros [= <- <-]|].
  destruct (is_digit c); [|by intros [= <- <-]]. destruct (span_digits l) as [ds' r'] eqn:E. intros [= <- <-] Hr. by rewrite (IH _ _ eq_refl Hr).
Qed.

Lemma scan_number_more l n r q : scan_number l = Some (n, r) -> r <> [] -> scan_number (l ++ q) = Some (n, r ++ q).
Proof.
  unfold scan_number. destruct (scan_sign l) as [s l1] eqn:Hs. destruct (scan_int l1) as [[i l2]|] eqn:Hi; [|done].
  destruct (scan_frac l2) as [[f l3]|] eqn:Hf; [|done]. destruct (scan_exp l3) as [[e l4]|] eqn:He; [|done]. intros [= <- <-] Hr.
  assert (l3 <> []) as H3 by (intros ->; injection He as _ <-; done).
  assert (l2 <> []) as H2 by (intros ->; injection Hf as _ <-; done).
  assert (l1 <> []) as H1 by (intros ->; done).
  assert (scan_sign (l ++ q) = (s, l1 ++ q)) as ->.
  { destruct l as [|c l]; cbn [scan_sign app] in *; [by injection Hs as <- <-|]. by destruct (bool_decide _); injection Hs as <- <-. }
  assert (scan_int (l1 ++ q) = Some (i, l2 ++ q)) as ->.
  { destruct l1 as [|c l1]; [done|]. cbn [scan_int app] in *. destruct (bool_decide _); [by injection Hi as <- <-|].
    destruct (is_digit c) eqn:Hc; [|done]. injection Hi as Hi. f_equal. by apply (span_digits_more (c :: l1)). }
  assert (scan_frac (l2 ++ q) = Some (f, l3 ++ q)) as ->.
  { destruct l2 as [|c l2]; [done|]. cbn [scan_frac app] in *. destruct (bool_decide _); [|by injection Hf as <- <-].
    destruct (span_digits l2) as [ds r] eqn:E. destruct ds as [|d ds]; [done|]. injection Hf as <- <-. by rewrite (span_digits_more _ _ _ q E). }
  assert (scan_exp (l3 ++ q) = Some (e, l4 ++ q)) as ->; [|done].
  destruct l3 as [|c l3]; [done|]. cbn [scan_exp app] in *. destruct (is_e c); [|by injection He as <- <-].
  destruct l3 as [|d l3]; [done|]. cbn [app]. destruct (bool_decide (d = "+"%char) || bool_decide (d = "-"%char)).
  - destruct (span_digits l3) as [ds r] eqn:E. destruct ds as [|x ds]; [done|]. injection He as <- <-. by rewrite (span_digits_more _ _ _ q E).
  - destruct (span_digits (d :: l3)) as [ds r] eqn:E. destruct ds as [|x ds]; [done|]. injection He as <- <-.
    change (d :: l3 ++ q) with ((d :: l3) ++ q). by rewrite (span_digits_more _ _ _ q E).
Qed.

(** A value whose end shows. *)
Definition closed (v : raw) : Prop := match v with RNumber _ => False | _ => True end.

Lemma scan_more fuel :
  (forall d l v r q, scan_value fuel d l = Some (v, r) -> r <> [] \/ closed v -> scan_value fuel d (l ++ q) = Some (v, r ++ q)) /\
  (forall d l ms r q, scan_members fuel d l = Some (ms, r) -> scan_members fuel d (l ++ q) = Some (ms, r ++ q)) /\
  (forall d l es r q, scan_elements fuel d l = Some (es, r) -> scan_elements fuel d (l ++ q) = Some (es, r ++ q)).
Proof.
  induction fuel as [|fuel (IHv & IHm & IHe)]; [done|]. split_and!.
  - intros d l v r q. destruct l as [|c l1]; [done|]. cbn [scan_value app]. destruct (bool_decide (c = "{"%char)).
    { destruct (_ <=? _); [done|]. destruct (skipWS l1) as [|e r1] eqn:Hs; [done|]. rewrite skipWS_app Hs // /=.
      destruct (bool_decide _); [by intros [= <- <-]|]. destruct (scan_members _ _ _) as [[ms r2]|] eqn:Hm; [|done]. intros [= <- <-] _.
      apply (IHm _ _ _ _ q) in Hm. cbn [app] in Hm. by rewrite Hm. }
    destruct (bool_decide (c = "["%char)).
    { destruct (_ <=? _); [done|]. destruct (skipWS l1) as [|e r1] eqn:Hs; [done|]. rewrite skipWS_app Hs // /=.
      destruct (bool_decide _); [by intros [= <- <-]|]. destruct (scan_elements _ _ _) as [[ms r2]|] eqn:Hm; [|done]. intros [= <- <-] _.
      apply (IHe _ _ _ _ q) in Hm. cbn [app] in Hm. by rewrite Hm. }
    destruct (bool_decide (c = quote)).
    { destruct (scan_string l1) as [[b r1]|] eqn:Hb; [|done]. intros [= <- <-] _. by rewrite (scan_string_app _ _ _ q Hb). }
    destruct (bool_decide (c = "-"%char) || is_digit c).
    { destruct (scan_number (c :: l1)) as [[n r1]|] eqn:Hn; [|done]. intros [= <- <-] [Hr|[]].
      apply (scan_number_more _ _ _ q) in Hn; [|done]. cbn [app] in Hn. by rewrite Hn. }
    destruct (bool_decide (c = "t"%char)).
    { destruct (strip_word _ _) as [r1|] eqn:Hw; [|done]. intros [= <- <-] _. apply (strip_word_more _ _ _ q) in Hw. cbn [app] in Hw. by rewrite Hw. }
    destruct (bool_decide (c = "f"%char)).
    { destruct (strip_word _ _) as [r1|] eqn:Hw; [|done]. intros [= <- <-] _. apply (strip_word_more _ _ _ q) in Hw. cbn [app] in Hw. by rewrite Hw. }
    destruct (bool_decide (c = "n"%char)); [|done].
    destruct (strip_word _ _) as [r1|] eqn:Hw; [|done]. intros [= <- <-] _. apply (strip_word_more _ _ _ q) in Hw. cbn [app] in Hw. by rewrite Hw.
  - intros d l ms r q. destruct l as [|c l1]; [done|]. cbn [scan_members app]. destruct (bool_decide _); [|done].
    destruct (scan_string l1) as [[k l2]|] eqn:Hk; [|done]. rewrite (scan_string_app _ _ _ q Hk).
    destruct (skipWS l2) as [|e l3] eqn:H2; [done|]. rewrite skipWS_app H2 // /=. destruct (bool_decide _); [|done].
    destruct (scan_value fuel d (skipWS l3)) as [[v l4]|] eqn:Hv; [|done]. destruct (skipWS l4) as [|f l5] eqn:H4; [done|].
    assert (l4 <> []) as Hne by (intros ->; done).
    assert (skipWS l3 <> []) as H3 by (intros E; rewrite E in Hv; by destruct fuel).
    rewrite skipWS_app // (IHv _ _ _ _ q Hv); [|by left]. rewrite skipWS_app H4 // /=. destruct (bool_decide (f = ","%char)).
    + destruct (scan_members fuel d (skipWS l5)) as [[ms' r']|] eqn:Hm; [|done]. intros [= <- <-].
      assert (skipWS l5 <> []) as H5 by (intros E; rewrite E in Hm; by destruct fuel). by rewrite skipWS_app // (IHm _ _ _ _ q Hm).
    + destruct (bool_decide _); [|done]. by intros [= <- <-].
  - intros d l es r q. cbn [scan_elements]. destruct (scan_value fuel d l) as [[v l1]|] eqn:Hv; [|done].
    destruct (skipWS l1) as [|f l2] eqn:H1; [done|]. assert (l1 <> []) as Hne by (intros ->; done).
    rewrite (IHv _ _ _ _ q Hv); [|by left]. rewrite skipWS_app H1 // /=. destruct (bool_decide (f = ","%char)).
    + destruct (scan_elements fuel d (skipWS l2)) as [[es' r']|] eqn:Hm; [|done]. intros [= <- <-].
      assert (skipWS l2 <> []) as H2 by (intros E; rewrite E in Hm; by destruct fuel as [|[|]]). by rewrite skipWS_app // (IHe _ _ _ _ q Hm).
    + destruct (bool_decide _); [|done]. by intros [= <- <-].
Qed.

Lemma scan_value_app fuel d l v r q : scan_value fuel d l = Some (v, r) -> closed v -> scan_value fuel d (l ++ q) = Some (v, r ++ q).
Proof. intros H Hc. apply (proj1 (scan_more fuel)); [done|by right]. Qed.

Lemma scan_brace fuel d l v r : scan_value fuel d ("{"%char :: l) = Some (v, r) -> closed v.
Proof.
  destruct fuel as [|fuel]; [done|]. cbn [scan_value]. rewrite bool_decide_eq_true_2 //. destruct (_ <=? _); [done|].
  destruct (skipWS l) as [|e l']; [done|]. destruct (bool_decide _); [by intros [= <- _]|]. destruct (scan_members _ _ _) as [[ms r']|]; [|done]. by intros [= <- _].
Qed.

(** An object's text without its last bytes is not JSON. *)
Lemma object_cut p q v : scan_document ("{"%char :: p ++ q) = Some (v, []) -> q <> [] -> json_Valid ("{"%char :: p) = false.
Proof.
  intros Hv Hq. unfold json_Valid. destruct (scan_document ("{"%char :: p)) as [[v' r]|] eqn:Hp; [|done].
  unfold scan_document in *. rewrite skipWS_cons // in Hp. rewrite skipWS_cons // in Hv.
  pose proof (scan_brace _ _ _ _ _ Hp) as Hc. apply (scan_value_app _ _ _ _ _ q) in Hp; [|done].
  apply scan_value_enough in Hp. cbn [app] in Hp. rewrite Hv in Hp. injection Hp as _ Hr. destruct r; [|done]. by destruct Hq.
Qed.
