(* ===== verification/IjsonProps.v ===== *)
(** * The I-JSON test, whole

    What [checkTokens] finds of one document is what its value has wrong with it:
    a body with half a surrogate pair ([surrogates_walk]), a number the number
    rule refuses or a name an object repeats ([token_walk]). *)
From S2P Require Import Prelude Strconv StrconvProps Utf8 Json Jcs Ijson Utf8Props NumberProps JsonProps JsonTokens.
Open Scope session_scope.
Local Open Scope Z_scope.

(** ** Surrogates *)

Definition second_half (l : list ascii) : option (list ascii) :=
  match l with
  | b :: u :: k1 :: k2 :: k3 :: k4 :: l' =>
      if bool_decide (b = backslash) && bool_decide (u = "u"%char) then
        match hex4 [k1; k2; k3; k4] with
        | Some (lo, _) => if is_low lo then Some l' else None
        | None => None
        end
      else None
  | _ => None
  end.

Lemma surrogates_u h1 h2 h3 h4 hi x l : hex4 [h1; h2; h3; h4] = Some (hi, x) ->
  surrogates true (backslash :: "u"%char :: h1 :: h2 :: h3 :: h4 :: l) =
  if is_low hi then Err ErrNotIJSON
  else if is_high hi then match second_half l with Some l' => surrogates true l' | None => Err ErrNotIJSON end
  else surrogates true l.
Proof.
  intros Hh. cbn [surrogates negb]. rewrite bool_decide_eq_false_2 // bool_decide_eq_true_2 //.
  rewrite bool_decide_eq_true_2 //. cbn [negb]. rewrite Hh. destruct (is_low hi), (is_high hi); try done.
  destruct l as [|b [|u [|k1 [|k2 [|k3 [|k4 l]]]]]]; try done. cbn [second_half].
  destruct (_ && _); [|done]. destruct (hex4 [k1; k2; k3; k4]) as [[lo y]|]; [|done]. by destruct (is_low lo).
Qed.

Lemma surrogates_char c l : c <> quote -> c <> backslash -> surrogates true (c :: l) = surrogates true l.
Proof. intros H1 H2. cbn [surrogates negb]. by rewrite (bool_decide_eq_false_2 _ H1) (bool_decide_eq_false_2 _ H2). Qed.

Lemma surrogates_escape e l : e <> "u"%char -> surrogates true (backslash :: e :: l) = surrogates true l.
Proof.
  intros H. cbn [surrogates negb]. rewrite bool_decide_eq_false_2 // bool_decide_eq_true_2 //.
  by rewrite (bool_decide_eq_false_2 (e = _)).
Qed.

Lemma surrogates_quote l : surrogates true (quote :: l) = surrogates false l.
Proof. cbn [surrogates negb]. by rewrite bool_decide_eq_true_2. Qed.

(** A body's second half is found within it or not at all. *)
Lemma second_half_body b r : body b -> second_half (b ++ quote :: r) = (fun b' => b' ++ quote :: r) <$> second_half b.
Proof.
  intros Hb. inversion Hb as [|c b' ? Hc|e v b' He Hv|h1 h2 h3 h4 lo b' Hh]; subst.
  - unfold second_half. simpl. by repeat case_match.
  - unfold second_half. simpl. rewrite (bool_decide_eq_false_2 (c = _)) //. simpl. by repeat case_match.
  - unfold second_half. simpl. rewrite (bool_decide_eq_false_2 (e = _)) //. rewrite ?andb_false_r. by repeat case_match.
  - cbn [app second_half]. rewrite Hh. by destruct (_ && _), (is_low lo).
Qed.

Lemma second_half_Some b b' : body b -> second_half b = Some b' -> body b' /\ (length b' < length b)%nat.
Proof.
  intros Hb. inversion Hb as [|c b1 ? Hc|e v b1 He Hv|h1 h2 h3 h4 lo b1 Hh Hb1]; subst; [done|..].
  - unfold second_half. rewrite (bool_decide_eq_false_2 (c = _)) //. by repeat case_match.
  - unfold second_half. rewrite (bool_decide_eq_false_2 (e = _)) //. rewrite ?andb_false_r. by repeat case_match.
  - cbn [second_half]. rewrite Hh. destruct (_ && _), (is_low lo); try done. intros [= <-]. split; [done|simpl; lia].
Qed.

(** The search finds in a string what it finds in its body. *)
Lemma surrogates_body b r : body b -> surrogates true (b ++ quote :: r) = (surrogates true b ;! surrogates false r).
Proof.
  remember (length b) as n eqn:Hn. revert b Hn. induction n as [n IH] using lt_wf_ind. intros b -> Hb.
  pose proof (second_half_body) as Hsb.
  inversion Hb as [|c b1 Hq Hbs _ Hb1|e v b1 He Hv Hb1|h1 h2 h3 h4 hi b1 Hh Hb1]; subst; cbn [app].
  - by rewrite surrogates_quote.
  - rewrite !surrogates_char //. apply (IH (length b1)); [simpl; lia|done..].
  - rewrite !surrogates_escape //. apply (IH (length b1)); [simpl; lia|done..].
  - rewrite !(surrogates_u _ _ _ _ _ _ _ Hh). destruct (is_low hi); [done|]. destruct (is_high hi).
    + rewrite second_half_body //. destruct (second_half b1) as [b2|] eqn:Hs2; [|done].
      apply second_half_Some in Hs2 as [Hb2 Hlen]; [|done]. apply (IH (length b2)); [simpl; lia|done..].
    + apply (IH (length b1)); [simpl; lia|done..].
Qed.

(** Outside a string nothing is looked at. *)
Lemma surrogates_outside w r : quote ∉ w -> surrogates false (w ++ r) = surrogates false r.
Proof.
  induction w as [|c w IH]; intros Hw; [done|]. apply not_elem_of_cons in Hw as [Hc Hw]. cbn [app surrogates negb].
  rewrite bool_decide_eq_false_2; [|by intros ->]. by apply IH.
Qed.

Lemma surrogates_skipWS l : surrogates false (skipWS l) = surrogates false l.
Proof.
  induction l as [|c l IH]; [done|]. cbn [skipWS]. destruct (isSpace c) eqn:Hc; [|done]. rewrite IH.
  symmetry. apply (surrogates_outside [c]). apply not_elem_of_cons. split; [|apply not_elem_of_nil]. by intros <-.
Qed.

Lemma surrogates_string l b r : scan_string l = Some (b, r) ->
  surrogates false (quote :: l) = (surrogates true b ;! surrogates false r).
Proof.
  intros H. rewrite (scan_string_text _ _ _ H). cbn [surrogates negb]. rewrite bool_decide_eq_true_2 //.
  by apply surrogates_body, (scan_string_body _ _ _ H).
Qed.

(** What the search finds in a value: in its bodies, in their order. *)
Fixpoint surrogates_raw (v : raw) : result unit :=
  match v with
  | RString b => surrogates true b
  | RArray l =>
      (fix all (l : list raw) : result unit :=
         match l with [] => Ok tt | x :: l => surrogates_raw x ;! all l end) l
  | RObject ms =>
      (fix members (ms : list (list ascii * raw)) : result unit :=
         match ms with [] => Ok tt | (k, x) :: ms => surrogates true k ;! surrogates_raw x ;! members ms end) ms
  | _ => Ok tt
  end.

Fixpoint surrogates_all (l : list raw) : result unit :=
  match l with [] => Ok tt | x :: l => surrogates_raw x ;! surrogates_all l end.

Fixpoint surrogates_members (ms : list (list ascii * raw)) : result unit :=
  match ms with [] => Ok tt | (k, x) :: ms => surrogates true k ;! surrogates_raw x ;! surrogates_members ms end.

Lemma surrogates_raw_array l : surrogates_raw (RArray l) = surrogates_all l.
Proof. induction l as [|x l IH]; [done|]. cbn [surrogates_all]. by rewrite -IH. Qed.
Lemma surrogates_raw_object ms : surrogates_raw (RObject ms) = surrogates_members ms.
Proof. induction ms as [|[k x] ms IH]; [done|]. cbn [surrogates_members]. by rewrite -IH. Qed.

(** Past white space and a mark that opens no string. *)
Lemma surrogates_mark l c r : skipWS l = c :: r -> c <> quote -> surrogates false l = surrogates false r.
Proof. intros Hws Hc. rewrite -surrogates_skipWS Hws. cbn [surrogates negb]. by rewrite bool_decide_eq_false_2. Qed.

Lemma no_quote_ascii c : is_digit c = true -> c <> quote.
Proof. intros H. by apply is_digit_not. Qed.

Lemma digits_no_quote ds : all_digits ds -> quote ∉ ds.
Proof.
  unfold all_digits. rewrite forallb_forall. intros H Hin. apply list_elem_of_In, H in Hin. done.
Qed.

Lemma number_no_quote n : number_ok n -> quote ∉ number_text n.
Proof.
  intros [Hs Hi Hf He]. unfold number_text. rewrite !elem_of_app. intros [H|[H|[H|H]]].
  - destruct Hs as [Hs|Hs]; rewrite Hs in H; set_solver.
  - by apply digits_no_quote in H; [|apply ok_int_digits].
  - destruct Hf as [Hf|(ds & Hf & Hd & _)]; rewrite Hf in H; [set_solver|].
    apply elem_of_cons in H as [?|H]; [done|]. by apply digits_no_quote in H.
  - destruct He as [He|(c & s & ds & He & Hc & Hsg & Hd & _)]; rewrite He in H; [set_solver|].
    apply elem_of_cons in H as [<-|H]; [done|]. apply elem_of_app in H as [H|H]; [|by apply digits_no_quote in H].
    destruct Hsg as [->|[->| ->]]; set_solver.
Qed.

(** The search passes over a value to what follows it, but for what it finds
    in the value. *)
Lemma surrogates_walk fuel :
  (forall depth l v r, scan_value fuel depth l = Some (v, r) ->
    surrogates false l = (surrogates_raw v ;! surrogates false r)) /\
  (forall depth l ms r, scan_members fuel depth l = Some (ms, r) ->
    surrogates false l = (surrogates_members ms ;! surrogates false r)) /\
  (forall depth l es r, scan_elements fuel depth l = Some (es, r) ->
    surrogates false l = (surrogates_all es ;! surrogates false r)).
Proof.
  induction fuel as [|fuel (IHv & IHm & IHe)]; [by split_and!|]. split_and!.
  - intros depth l v r H. pose proof (scan_value_head _ _ _ _ _ H) as (c & l1 & -> & Hvs).
    assert (c <> quote -> surrogates false (c :: l1) = surrogates false l1) as Hopen.
    { intros Hc. by apply (surrogates_outside [c]); rewrite list_elem_of_singleton. }
    destruct (decide (c = "{"%char)) as [->|Hobj]; [|destruct (decide (c = "["%char)) as [->|Harr]].
    + cbn [scan_value] in H. rewrite bool_decide_eq_true_2 // in H. destruct (_ <=? _); [done|]. rewrite Hopen //.
      destruct (skipWS l1) as [|d r1] eqn:Hws; [done|]. destruct (bool_decide (d = "}"%char)) eqn:Hd; bool_prop.
      * injection H as <- <-. subst d. by apply surrogates_mark with (c := "}"%char).
      * destruct (scan_members _ _ _) as [[ms r2]|] eqn:Hm; [|done]. injection H as <- <-.
        rewrite surrogates_raw_object -(IHm _ _ _ _ Hm) -Hws. by rewrite surrogates_skipWS.
    + cbn [scan_value] in H. rewrite bool_decide_eq_false_2 // bool_decide_eq_true_2 // in H.
      destruct (_ <=? _); [done|]. rewrite Hopen //.
      destruct (skipWS l1) as [|d r1] eqn:Hws; [done|]. destruct (bool_decide (d = "]"%char)) eqn:Hd; bool_prop.
      * injection H as <- <-. subst d. by apply surrogates_mark with (c := "]"%char).
      * destruct (scan_elements _ _ _) as [[es r2]|] eqn:Hm; [|done]. injection H as <- <-.
        rewrite surrogates_raw_array -(IHe _ _ _ _ Hm) -Hws. by rewrite surrogates_skipWS.
    + clear Hopen. rewrite scan_scalar // in H. cbn [scan_value] in H.
      rewrite (bool_decide_eq_false_2 _ Hobj) (bool_decide_eq_false_2 _ Harr) in H.
      destruct (bool_decide (c = quote)) eqn:Hq; bool_prop.
      { subst c. destruct (scan_string l1) as [[b r1]|] eqn:Hs; [|done]. injection H as <- <-. by apply surrogates_string. }
      destruct (_ || _).
      { destruct (scan_number _) as [[n r1]|] eqn:Hs; [|done]. injection H as <- <-.
        apply scan_number_ok in Hs as [Hok ->]. cbn [surrogates_raw rbind]. by apply surrogates_outside, number_no_quote. }
      repeat case_bool_decide; [..|done];
        (destruct (strip_word _ _) as [r1|] eqn:Hs; [|done]; injection H as <- <-;
         apply strip_word_text in Hs as ->; cbn [surrogates_raw rbind]; apply surrogates_outside; set_solver).
  - intros depth l ms r H. destruct l as [|q l1]; [done|]. cbn [scan_members] in H. case_bool_decide as Hq; [|done]. subst q.
    destruct (scan_string l1) as [[b l2]|] eqn:Hs; [|done]. rewrite (surrogates_string _ _ _ Hs).
    destruct (skipWS l2) as [|colon l3] eqn:Hws; [done|].
    destruct (bool_decide (colon = ":"%char)) eqn:Hc; [|done]. bool_prop. subst colon.
    rewrite (surrogates_mark _ _ _ Hws) // -surrogates_skipWS.
    destruct (scan_value _ _ _) as [[v l4]|] eqn:Hv; [|done]. rewrite (IHv _ _ _ _ Hv).
    destruct (skipWS l4) as [|d l5] eqn:Hws2; [done|]. destruct (bool_decide (d = ","%char)) eqn:Hd; bool_prop.
    + subst d. destruct (scan_members fuel depth (skipWS l5)) as [[ms' r2]|] eqn:Hm; [|done]. injection H as <- <-.
      rewrite (surrogates_mark _ _ _ Hws2) // -surrogates_skipWS (IHm _ _ _ _ Hm). cbn [surrogates_members].
      by destruct (surrogates true b) as [[]|], (surrogates_raw v) as [[]|].
    + destruct (bool_decide (d = "}"%char)) eqn:Hd'; [|done]. bool_prop. subst d. injection H as <- <-.
      rewrite (surrogates_mark _ _ _ Hws2) //. cbn [surrogates_members].
      by destruct (surrogates true b) as [[]|], (surrogates_raw v) as [[]|].
  - intros depth l es r H. cbn [scan_elements] in H.
    destruct (scan_value fuel depth l) as [[v l1]|] eqn:Hv; [|done]. rewrite (IHv _ _ _ _ Hv).
    destruct (skipWS l1) as [|d l2] eqn:Hws; [done|]. destruct (bool_decide (d = ","%char)) eqn:Hd; bool_prop.
    + subst d. destruct (scan_elements fuel depth (skipWS l2)) as [[es' r2]|] eqn:Hm; [|done]. injection H as <- <-.
      rewrite (surrogates_mark _ _ _ Hws) // -surrogates_skipWS (IHe _ _ _ _ Hm). cbn [surrogates_all].
      by destruct (surrogates_raw v) as [[]|].
    + destruct (bool_decide (d = "]"%char)) eqn:Hd'; [|done]. bool_prop. subst d. injection H as <- <-.
      rewrite (surrogates_mark _ _ _ Hws) //. cbn [surrogates_all]. by destruct (surrogates_raw v) as [[]|].
Qed.

(** ** The reference on one document *)

(** [data] is one JSON document, whose value is [v]. *)
Definition document (data : list ascii) (v : raw) : Prop :=
  exists r, scan_document data = Some (v, r) /\ skipWS r = [].

Lemma json_Valid_document data : json_Valid data = true <-> exists v, document data v.
Proof.
  unfold json_Valid, document. destruct (scan_document data) as [[v r]|] eqn:H.
  - rewrite bool_decide_eq_true. split; [by eauto|]. by intros (v' & r' & [= -> ->] & ?).
  - split; [done|]. by intros (v & r & ? & _).
Qed.

(** The first thing wrong with a document: an invalid byte, half a surrogate
    pair, or what its values have wrong with them. *)
Lemma checkTokens_document data v : document data v ->
  checkTokens data = (refuse_if (negb (Valid data)) ErrNotIJSON ;! surrogates_raw v ;! check_raw v).
Proof.
  intros (r & Hs & Hr). unfold checkTokens, checkSurrogates. destruct (refuse_if _ _) as [[]|]; [|done]. cbn [rbind].
  unfold scan_document in Hs. rewrite -surrogates_skipWS (proj1 (surrogates_walk _) _ _ _ _ Hs).
  rewrite -(surrogates_skipWS r) Hr. destruct (surrogates_raw v) as [[]|]; [|done]. cbn [rbind surrogates].
  pose proof (scan_value_head _ _ _ _ _ Hs) as (c & l & Hc & Hvs). apply value_start_not in Hvs as (Hsp & H1 & H2 & _).
  destruct (proj1 (token_walk _) _ _ _ _ Hs (mkDecoder data TopValue []) TopValue [] []) as (n & Hn & Hrun); [|done..|].
  { rewrite Hc. by apply reads_after_open. }
  pose proof (skipWS_length data). replace (S (length data)) with (n + S (length data - n))%nat by lia.
  rewrite Hrun. destruct (check_raw v) as [[]|]; [|done]. cbn [rbind token_loop next_token d_in]. by rewrite Hr.
Qed.

(** ** The walk over the bytes *)

Lemma fastString_spec l esc b escaped r : fastString l esc = Some (b, escaped, r) ->
  scan_string l = Some (b, r) /\ surrogates true b = Ok tt /\
  (escaped = false -> esc = false /\ Forall (fun c => c <> backslash) b).
Proof.
  revert esc b escaped r. remember (length l) as n eqn:Hn. revert l Hn. induction n as [n IH] using lt_wf_ind.
  intros l -> esc b escaped r H. destruct l as [|c l1]; [done|]. cbn [fastString] in H. cbn [scan_string].
  destruct (bool_decide (c = quote)) eqn:Hq; [by injection H as <- <- <-|]. bool_prop.
  destruct (byte_of c <? 32) eqn:Hlt; [done|]. destruct (bool_decide (c = backslash)) eqn:Hb; bool_prop.
  - subst c. destruct l1 as [|e l2]; [done|]. destruct (bool_decide (is_Some (escape_val e))) eqn:He.
    + destruct (fastString l2 true) as [[[s e'] r']|] eqn:E; [|done]. injection H as <- <- <-.
      destruct (IH (length l2) ltac:(simpl; lia) l2 eq_refl _ _ _ _ E) as (-> & Hs & Hesc).
      assert (e <> "u"%char) as Hu.
      { intros ->. bool_prop. by destruct He. }
      rewrite (bool_decide_eq_false_2 _ Hu). split_and!; [done|cbn [app]; by rewrite surrogates_escape|]. intros Hf. by apply Hesc in Hf as [? _].
    + destruct (bool_decide (e = "u"%char)) eqn:Hu; [|done]. destruct l2 as [|h1 [|h2 [|h3 [|h4 l6]]]]; try done.
      destruct (hex4 [h1; h2; h3; h4]) as [[v x]|] eqn:Hh; [|done]. destruct (is_surrogate v) eqn:Hv; [done|].
      destruct (fastString l6 true) as [[[s e'] r']|] eqn:E; [|done]. injection H as <- <- <-.
      destruct (IH (length l6) ltac:(simpl; lia) l6 eq_refl _ _ _ _ E) as (-> & Hs & Hesc).
      destruct (hex4_range _ _ _ _ _ _ Hh) as (_ & -> & _). bool_prop. subst e.
      assert (is_hex h1 && is_hex h2 && is_hex h3 && is_hex h4 = true) as -> by (apply hex4_is_hex; by eauto).
      split_and!; [done| |intros Hf; by apply Hesc in Hf as [? _]].
      cbn [app]. rewrite (surrogates_u _ _ _ _ _ _ _ Hh).
      assert (is_low v = false /\ is_high v = false) as [-> ->]; [|done].
      unfold is_surrogate in Hv. unfold is_low, is_high. rewrite !andb_false_iff !Z.leb_gt in Hv |- *. lia.
  - destruct (fastString l1 esc) as [[[s e'] r']|] eqn:E; [|done]. injection H as <- <- <-.
    destruct (IH (length l1) ltac:(simpl; lia) l1 eq_refl _ _ _ _ E) as (-> & Hs & Hesc).
    split_and!; [done|cbn [app]; by rewrite surrogates_char|]. intros Hf. apply Hesc in Hf as [? ?]. split; [done|]. by constructor.
Qed.

(** [math/big] reads no number of more than a million fractional digits. *)
Definition short (l : list ascii) : Prop := Z.of_nat (length l) <= 10 ^ 6.

Lemma short_suffix l l' : short l -> (length l' <= length l)%nat -> short l'.
Proof. unfold short. lia. Qed.

Lemma fastNumber_spec l r : short l -> fastNumber l = Some r ->
  exists n, scan_number l = Some (n, r) /\ CheckNumber (number_text n) = Ok tt.
Proof.
  intros Hl. unfold fastNumber. destruct (scan_number l) as [[n r']|] eqn:Hs; [|done].
  destruct (negb _ && _) eqn:Hp; [done|]. intros [= <-]. exists n. split; [done|].
  apply andb_false_iff in Hp as [Hp|Hp]; apply negb_false_iff in Hp; [|by destruct (CheckNumber _) as [[]|]].
  apply andb_true_iff in Hp as [Hp He]. apply andb_true_iff in Hp as [Hi Hf].
  apply scan_number_ok in Hs as [Hok ->]. apply bool_decide_eq_true in Hi, He.
  apply plain_checks; [done|done|done| |].
  - apply (short_suffix _ _ Hl). unfold number_text. rewrite !length_app length_tl. lia.
  - apply orb_true_iff in Hf as [Hf|Hf]; [left; by apply bool_decide_eq_true in Hf|by right].
Qed.

(** What the walk answers yes to has nothing wrong with it. *)
Definition clean (v : raw) : Prop := surrogates_raw v = Ok tt /\ check_raw v = Ok tt.

Definition passes_value (fuel : nat) : Prop :=
  forall depth l r, Valid l = true -> short l -> fastValue fuel depth l = Some r ->
  exists v, scan_value fuel depth l = Some (v, r) /\ clean v /\ Valid r = true.
Definition passes_members (fuel : nat) : Prop :=
  forall depth l keys r, Valid l = true -> short l -> fastMembers fuel depth l keys = Some r ->
  exists ms, scan_members fuel depth l = Some (ms, r) /\ surrogates_members ms = Ok tt /\
    (forall keys', (forall k, k ∈ keys' -> k ∈ keys) -> check_members keys' ms = Ok tt) /\ Valid r = true.
Definition passes_elements (fuel : nat) : Prop :=
  forall depth l r, Valid l = true -> short l -> fastElements fuel depth l = Some r ->
  exists es, scan_elements fuel depth l = Some (es, r) /\ surrogates_all es = Ok tt /\ check_all es = Ok tt /\
    Valid r = true.

Lemma Valid_tail c l : byte_of c < 128 -> Valid (c :: l) = true -> Valid l = true.
Proof. apply Valid_ascii_cons. Qed.

Lemma Valid_mark l c r : skipWS l = c :: r -> byte_of c < 128 -> Valid l = true -> Valid r = true.
Proof. intros H Hc Hv. apply (Valid_tail c); [done|]. rewrite -H. by apply Valid_skipWS. Qed.

Lemma short_mark l c r : skipWS l = c :: r -> short l -> short r.
Proof. intros H Hs. apply (short_suffix l); [done|]. apply skipWS_cons_length in H. lia. Qed.

Lemma value_passes fuel : passes_members fuel -> passes_elements fuel -> passes_value (S fuel).
Proof.
  intros IHm IHe depth l r Hv Hsh H. destruct l as [|c l1]; [done|]. cbn [fastValue] in H.
  assert (short l1) as Hsh1 by (apply (short_suffix (c :: l1)); [done|simpl; lia]).
  destruct (decide (c = "{"%char)) as [->|Hobj]; [|destruct (decide (c = "["%char)) as [->|Harr]].
  - apply Valid_tail in Hv; [|done]. rewrite bool_decide_eq_true_2 // in H. cbn [scan_value]. rewrite bool_decide_eq_true_2 //.
    change maxDepth with 1000 in H. destruct (1000 <=? depth) eqn:Hd; [done|]. apply Z.leb_gt in Hd.
    change maxNestingDepth with 10000. decide_bool (10000 <=? depth) false.
    destruct (skipWS l1) as [|d r1] eqn:Hws; [done|]. destruct (bool_decide (d = "}"%char)) eqn:Hd'; bool_prop.
    + injection H as <-. subst d. eexists. split_and!; [done..|]. by apply (Valid_mark l1 "}"%char).
    + destruct (IHm (depth + 1) (d :: r1) [] r) as (ms & -> & Hs & Hc & Hr);
        [rewrite -Hws; by apply Valid_skipWS|rewrite -Hws; apply (short_suffix l1); [done|apply skipWS_length]|done|].
      eexists. split; [done|]. split; [split|done]; [by rewrite surrogates_raw_object|]. rewrite check_raw_object. apply Hc. done.
  - apply Valid_tail in Hv; [|done]. rewrite bool_decide_eq_false_2 // bool_decide_eq_true_2 // in H.
    cbn [scan_value]. rewrite bool_decide_eq_false_2 // bool_decide_eq_true_2 //.
    change maxDepth with 1000 in H. destruct (1000 <=? depth) eqn:Hd; [done|]. apply Z.leb_gt in Hd.
    change maxNestingDepth with 10000. decide_bool (10000 <=? depth) false.
    destruct (skipWS l1) as [|d r1] eqn:Hws; [done|]. destruct (bool_decide (d = "]"%char)) eqn:Hd'; bool_prop.
    + injection H as <-. subst d. eexists. split_and!; [done..|]. by apply (Valid_mark l1 "]"%char).
    + destruct (IHe (depth + 1) (d :: r1) r) as (es & -> & Hs & Hc & Hr);
        [rewrite -Hws; by apply Valid_skipWS|rewrite -Hws; apply (short_suffix l1); [done|apply skipWS_length]|done|].
      eexists. split; [done|]. split; [split|done]; [by rewrite surrogates_raw_array|by rewrite check_raw_array].
  - rewrite scan_scalar //. cbn [scan_value].
    rewrite (bool_decide_eq_false_2 _ Hobj) (bool_decide_eq_false_2 _ Harr) in H |- *.
    destruct (bool_decide (c = quote)) eqn:Hq; bool_prop.
    { subst c. apply Valid_tail in Hv; [|done]. destruct (fastString l1 false) as [[[b esc] r1]|] eqn:Hs; [|done]. injection H as <-.
      apply fastString_spec in Hs as (Hs & Hsur & _). rewrite Hs. eexists. split_and!; [done..|]. by apply (Valid_string _ _ _ Hs). }
    destruct (_ || _).
    { apply fastNumber_spec in H as (n & Hs & Hn); [|done]. rewrite Hs. eexists. split_and!; [done..|]. by apply (Valid_number _ _ _ Hs). }
    repeat case_bool_decide; [..|done]; rewrite H; (eexists; split_and!; [done..|]; by eapply Valid_word; [|done..]; repeat constructor).
Qed.

Lemma members_passes fuel : passes_value fuel -> passes_members fuel -> passes_members (S fuel).
Proof.
  intros IHv IHm depth l keys r Hval Hsh H. destruct l as [|q l1]; [done|]. cbn [fastMembers] in H. cbn [scan_members].
  destruct (bool_decide (q = quote)) eqn:Hq; [|done]. bool_prop. subst q. apply Valid_tail in Hval; [|done].
  assert (short l1) as Hsh1 by (apply (short_suffix (quote :: l1)); [done|simpl; lia]).
  destruct (fastString l1 false) as [[[key esc] l2]|] eqn:Hs; [|done]. apply fastString_spec in Hs as (Hs & Hsur & Hesc).
  destruct esc; [done|]. destruct (Hesc eq_refl) as [_ Hplain]. clear Hesc.
  rewrite Hs. destruct (bool_decide (key ∈ keys)) eqn:Hkey; [done|]. bool_prop.
  destruct (Valid_string _ _ _ Hs Hval) as [Hkv Hval2]. apply scan_string_length in Hs as Hl2.
  assert (unquote key = key) as Huk.
  { rewrite unquote_Valid; [by apply unescape_plain|by apply (scan_string_body _ _ _ Hs)|done]. }
  destruct (skipWS l2) as [|colon l3] eqn:Hws; [done|]. destruct (bool_decide (colon = ":"%char)) eqn:Hc; [|done].
  bool_prop. subst colon. pose proof (short_suffix _ _ Hsh1 (Nat.lt_le_incl _ _ Hl2)) as Hsh2.
  pose proof (Valid_mark _ _ _ Hws ltac:(done) Hval2) as Hval3. pose proof (short_mark _ _ _ Hws Hsh2) as Hsh3.
  destruct (fastValue fuel depth (skipWS l3)) as [l4|] eqn:Hfv; [|done].
  destruct (IHv depth (skipWS l3) l4) as (v & Hv & [Hvs Hvc] & Hval4); [by apply Valid_skipWS| |done|].
  { apply (short_suffix l3); [done|apply skipWS_length]. }
  rewrite Hv. apply scan_enough in Hv as [Hl4 _]. pose proof (skipWS_length l3).
  assert (short l4) as Hsh4 by (apply (short_suffix l3); [done|lia]).
  assert (forall keys' ms, (forall k, k ∈ keys' -> k ∈ keys) -> check_members (key :: keys') ms = Ok tt ->
    check_members keys' ((key, v) :: ms) = Ok tt) as Hcons.
  { intros keys' ms Hk Hms. cbn [check_members]. rewrite Huk bool_decide_eq_false_2; [by rewrite Hvc|by intros ?%Hk]. }
  destruct (skipWS l4) as [|d l5] eqn:Hws2; [done|]. destruct (bool_decide (d = ","%char)) eqn:Hd; bool_prop.
  - subst d. pose proof (Valid_mark _ _ _ Hws2 ltac:(done) Hval4) as Hval5. pose proof (short_mark _ _ _ Hws2 Hsh4) as Hsh5.
    destruct (IHm depth (skipWS l5) (keys ++ [key]) r) as (ms & -> & Hms & Hmc & Hr); [by apply Valid_skipWS| |done|].
    { apply (short_suffix l5); [done|apply skipWS_length]. }
    eexists. split_and!; [done| | |done]; [cbn [surrogates_members]; by rewrite Hsur Hvs|].
    intros keys' Hk. apply Hcons; [done|]. apply Hmc. intros k [->|?%Hk]%elem_of_cons; set_solver.
  - destruct (bool_decide (d = "}"%char)) eqn:Hd'; [|done]. bool_prop. subst d. injection H as <-.
    eexists. split_and!; [done| | |by apply (Valid_mark _ _ _ Hws2)]; [cbn [surrogates_members]; by rewrite Hsur Hvs|].
    intros keys' Hk. by apply Hcons.
Qed.

Lemma elements_passes fuel : passes_value fuel -> passes_elements fuel -> passes_elements (S fuel).
Proof.
  intros IHv IHe depth l r Hval Hsh H. cbn [fastElements] in H. cbn [scan_elements].
  destruct (fastValue fuel depth l) as [l1|] eqn:Hfv; [|done].
  destruct (IHv depth l l1) as (v & Hv & [Hvs Hvc] & Hval1); [done..|]. rewrite Hv. apply scan_enough in Hv as [Hl1 _].
  assert (short l1) as Hsh1 by (apply (short_suffix l); [done|lia]).
  destruct (skipWS l1) as [|d l2] eqn:Hws; [done|]. destruct (bool_decide (d = ","%char)) eqn:Hd; bool_prop.
  - subst d. pose proof (Valid_mark _ _ _ Hws ltac:(done) Hval1) as Hval2. pose proof (short_mark _ _ _ Hws Hsh1) as Hsh2.
    destruct (IHe depth (skipWS l2) r) as (es & -> & Hes & Hec & Hr); [by apply Valid_skipWS| |done|].
    { apply (short_suffix l2); [done|apply skipWS_length]. }
    eexists. split_and!; [done| | |done]; cbn [surrogates_all check_all]; by [rewrite Hvs|rewrite Hvc].
  - destruct (bool_decide (d = "]"%char)) eqn:Hd'; [|done]. bool_prop. subst d. injection H as <-.
    eexists. split_and!; [done| | |by apply (Valid_mark _ _ _ Hws)]; cbn [surrogates_all check_all]; by [rewrite Hvs|rewrite Hvc].
Qed.

Lemma walk_passes fuel : passes_value fuel /\ passes_members fuel /\ passes_elements fuel.
Proof.
  induction fuel as [|fuel (IHv & IHm & IHe)]; [by split_and!|].
  split_and!; [by apply value_passes|by apply members_passes|by apply elements_passes].
Qed.

Lemma checkFast_tokens data : short data -> checkFast data = true -> checkTokens data = Ok tt.
Proof.
  intros Hsh H. apply andb_true_iff in H as [Hv H]. destruct (fastValue _ _ _) as [r|] eqn:Hf; [|done].
  apply bool_decide_eq_true in H.
  assert (short (skipWS data)) as Hsh' by (apply (short_suffix data); [done|apply skipWS_length]).
  destruct (proj1 (walk_passes _) _ _ _ (Valid_skipWS _ Hv) Hsh' Hf) as (v & Hs & [Hsur Hc] & _).
  rewrite (checkTokens_document data v); [by rewrite Hv Hsur Hc|by exists r].
Qed.

(** C35: the walk over the bytes that [Check] tries first answers yes only to
    what the tokenizing check, the reference, finds nothing wrong with, on data
    of at most a million bytes; so [Check] is the reference. *)
Theorem checkFast_agrees data : short data -> checkFast data = true -> checkTokens data = Ok tt.
Proof. apply checkFast_tokens. Qed.

(** ** I-JSON *)

(** A body none of whose escapes is half a surrogate pair. *)
Inductive paired : list ascii -> Prop :=
  | paired_nil : paired []
  | paired_char c b : c <> quote -> c <> backslash -> paired b -> paired (c :: b)
  | paired_escape e b : e <> "u"%char -> paired b -> paired (backslash :: e :: b)
  | paired_unit h1 h2 h3 h4 r b : hex4 [h1; h2; h3; h4] = Some (r, []) -> is_surrogate r = false -> paired b ->
      paired (backslash :: "u"%char :: h1 :: h2 :: h3 :: h4 :: b)
  | paired_pair h1 h2 h3 h4 k1 k2 k3 k4 hi lo b :
      hex4 [h1; h2; h3; h4] = Some (hi, []) -> is_high hi = true ->
      hex4 [k1; k2; k3; k4] = Some (lo, []) -> is_low lo = true -> paired b ->
      paired (backslash :: "u"%char :: h1 :: h2 :: h3 :: h4 :: backslash :: "u"%char :: k1 :: k2 :: k3 :: k4 :: b).

(** A value as it is spelled is I-JSON: the number rule passes its numbers, no
    string or name has half a pair, and the names of an object are distinct. *)
Inductive IJSON : raw -> Prop :=
  | ijson_null : IJSON RNull
  | ijson_bool b : IJSON (RBool b)
  | ijson_number n : CheckNumber (number_text n) = Ok tt -> IJSON (RNumber n)
  | ijson_string b : paired b -> IJSON (RString b)
  | ijson_array l : Forall IJSON l -> IJSON (RArray l)
  | ijson_object ms : NoDup ((fun kv => unquote kv.1) <$> ms) ->
      Forall (fun kv => paired kv.1 /\ IJSON kv.2) ms -> IJSON (RObject ms).

Lemma paired_surrogates b : body b -> surrogates true b = Ok tt <-> paired b.
Proof.
  split.
  - remember (length b) as n eqn:Hn. revert b Hn H. induction n as [n IH] using lt_wf_ind. intros b -> Hb.
    inversion Hb as [|c b1 Hq Hbs _ Hb1|e v b1 He Hv Hb1|h1 h2 h3 h4 hi b1 Hh Hb1]; subst; [by constructor|..].
    + rewrite surrogates_char //. intros H. constructor; [done..|]. by apply (IH (length b1)); [simpl; lia|..].
    + rewrite surrogates_escape //. intros H. constructor; [done|]. by apply (IH (length b1)); [simpl; lia|..].
    + rewrite (surrogates_u _ _ _ _ _ _ _ Hh). destruct (is_low hi) eqn:Hlo; [done|]. destruct (is_high hi) eqn:Hhi.
      * destruct (second_half b1) as [b2|] eqn:Hs2; [|done]. intros H. pose proof (second_half_Some _ _ Hb1 Hs2) as [Hb2 Hlen].
        destruct b1 as [|b [|u [|k1 [|k2 [|k3 [|k4 l]]]]]]; try done. cbn [second_half] in Hs2.
        destruct (bool_decide (b = _)) eqn:E1; [|done]. destruct (bool_decide (u = _)) eqn:E2; [|done]. bool_prop. subst b u.
        cbn [andb] in Hs2. destruct (hex4 [k1; k2; k3; k4]) as [[lo x]|] eqn:Hk; [|done]. destruct (is_low lo) eqn:Hl; [|done].
        injection Hs2 as ->. destruct (hex4_range _ _ _ _ _ _ Hk) as (_ & -> & _).
        apply (paired_pair _ _ _ _ _ _ _ _ hi lo); [done..|]. by apply (IH (length b2)); [simpl in *; lia|..].
      * intros H. apply (paired_unit _ _ _ _ hi); [done| |by apply (IH (length b1)); [simpl; lia|..]].
        unfold is_surrogate. unfold is_low, is_high in *. apply andb_false_iff in Hlo, Hhi. rewrite !Z.leb_gt in Hlo, Hhi.
        apply andb_false_iff. rewrite !Z.leb_gt. lia.
  - clear H. induction 1 as [|c b Hq Hb _ IH|e b He _ IH|h1 h2 h3 h4 r b Hh Hr _ IH|h1 h2 h3 h4 k1 k2 k3 k4 hi lo b Hh Hhi Hk Hlo _ IH];
      [done|by rewrite surrogates_char|by rewrite surrogates_escape|..].
    + rewrite (surrogates_u _ _ _ _ _ _ _ Hh).
      assert (is_low r = false /\ is_high r = false) as [-> ->]; [|done].
      unfold is_surrogate in Hr. unfold is_low, is_high. rewrite !andb_false_iff !Z.leb_gt in Hr |- *. lia.
    + rewrite (surrogates_u _ _ _ _ _ _ _ Hh) Hhi. cbn [second_half]. rewrite Hk Hlo !bool_decide_eq_true_2 //. cbn [andb].
      assert (is_low hi = false) as ->; [|done]. unfold is_high in Hhi. unfold is_low.
      rewrite andb_true_iff !Z.leb_le in Hhi. rewrite andb_false_iff !Z.leb_gt. lia.
Qed.

Lemma check_members_Ok keys ms : check_members keys ms = Ok tt <->
  NoDup ((fun kv => unquote kv.1) <$> ms) /\ Forall (fun kv => unquote kv.1 ∉ keys /\ check_raw kv.2 = Ok tt) ms.
Proof.
  revert keys. induction ms as [|[k x] ms IH]; intros keys; [by split; repeat constructor|].
  cbn [check_members]. rewrite fmap_cons NoDup_cons Forall_cons. cbn [fst snd].
  destruct (bool_decide (unquote k ∈ keys)) eqn:Hk; bool_prop; [naive_solver|].
  destruct (check_raw x) as [[]|] eqn:Hx; cbn [rbind]; [|naive_solver]. rewrite IH !Forall_forall list_elem_of_fmap.
  split.
  - intros [Hn Hall]. split_and!; [|done..|].
    + intros (kv & Heq & Hin). destruct (Hall _ Hin) as [Hnot _]. apply Hnot. rewrite -Heq. by left.
    + intros kv Hin. destruct (Hall _ Hin) as [Hnot ?]. split; [|done]. intros ?. apply Hnot. by right.
  - intros ([Hnot Hn] & _ & Hall). split; [done|]. intros kv Hin. destruct (Hall _ Hin) as [Hk' ?]. split; [|done].
    intros [Heq|?]%elem_of_cons; [|done]. apply Hnot. by exists kv.
Qed.

Lemma check_all_Ok l : check_all l = Ok tt <-> Forall (fun v => check_raw v = Ok tt) l.
Proof.
  induction l as [|x l IH]; [by split; [constructor|]|]. cbn [check_all]. rewrite Forall_cons -IH.
  destruct (check_raw x) as [[]|]; naive_solver.
Qed.

Lemma surrogates_all_Ok l : surrogates_all l = Ok tt <-> Forall (fun v => surrogates_raw v = Ok tt) l.
Proof.
  induction l as [|x l IH]; [by split; [constructor|]|]. cbn [surrogates_all]. rewrite Forall_cons -IH.
  destruct (surrogates_raw x) as [[]|]; naive_solver.
Qed.

Lemma surrogates_members_Ok ms : surrogates_members ms = Ok tt <->
  Forall (fun kv => surrogates true kv.1 = Ok tt /\ surrogates_raw kv.2 = Ok tt) ms.
Proof.
  induction ms as [|[k x] ms IH]; [by split; [constructor|]|]. cbn [surrogates_members]. rewrite Forall_cons -IH.
  cbn [fst snd]. destruct (surrogates true k) as [[]|], (surrogates_raw x) as [[]|]; naive_solver.
Qed.

Lemma Forall_iff_in {A} (P Q R : A -> Prop) l :
  Forall P l -> Forall (fun x => P x -> Q x <-> R x) l -> Forall Q l <-> Forall R l.
Proof. rewrite !Forall_forall. naive_solver. Qed.

Lemma clean_IJSON d v : well_spelled d v -> clean v <-> IJSON v.
Proof.
  unfold clean. revert d. induction v as [|b|n|b|l IH|ms IH] using raw_nested; intros d Hw.
  - by split; [constructor|].
  - by split; [constructor|].
  - split; [intros [_ H]; by constructor|]. intros H. by inversion H.
  - inversion Hw; subst. cbn [surrogates_raw check_raw]. rewrite paired_surrogates //.
    split; [intros [H _]; by constructor|]. intros H. by inversion H.
  - inversion Hw as [| | | |? ? _ Hws|]; subst. rewrite surrogates_raw_array check_raw_array surrogates_all_Ok check_all_Ok -Forall_and.
    rewrite (Forall_iff_in _ _ IJSON _ Hws); [split; [by constructor|]; intros H; by inversion H|].
    apply (Forall_impl _ _ _ IH). intros x H. apply H.
  - inversion Hw as [| | | | |? ? _ Hws]; subst. rewrite surrogates_raw_object check_raw_object surrogates_members_Ok check_members_Ok.
    assert (Forall (fun kv => (surrogates true kv.1 = Ok tt /\ surrogates_raw kv.2 = Ok tt) /\ check_raw kv.2 = Ok tt) ms <->
      Forall (fun kv => paired kv.1 /\ IJSON kv.2) ms) as Hiff.
    { apply (Forall_iff_in _ _ _ _ Hws). apply (Forall_impl _ _ _ IH). intros kv H [Hb Hv].
      rewrite (paired_surrogates _ Hb) -(H _ Hv). naive_solver. }
    rewrite Forall_and in Hiff. split.
    + intros [Hs [Hn Hc]]. constructor; [done|]. apply Hiff. split; [done|]. apply (Forall_impl _ _ _ Hc). by intros ? [_ ?].
    + intros H. inversion H as [| | | | |? Hn Hall]; subst. apply Hiff in Hall as [Hs Hc]. split_and!; [done..|].
      apply (Forall_impl _ _ _ Hc). intros kv ?. split; [apply not_elem_of_nil|done].
Qed.

Lemma Check_IJSON data v : short data -> document data v ->
  Check data = Ok tt <-> Valid data = true /\ IJSON v.
Proof.
  intros Hsh Hdoc. assert (Check data = checkTokens data) as ->.
  { unfold Check. destruct (checkFast data) eqn:Hf; [|done]. symmetry. by apply checkFast_tokens. }
  rewrite (checkTokens_document _ _ Hdoc). destruct Hdoc as (r & Hs & _). apply scan_well_spelled in Hs.
  rewrite -(clean_IJSON _ v Hs) /clean. destruct (Valid data); [|naive_solver]. cbn [negb refuse_if rbind].
  destruct (surrogates_raw v) as [[]|]; naive_solver.
Qed.

(** C34: of one JSON document of at most a million bytes, whichever way it goes
    about it, [Check] finds nothing wrong exactly when the bytes are UTF-8 and
    the value they spell is I-JSON: every number passes the number rule, every
    object's names are distinct once their escapes are resolved, and no string or name
    holds half a surrogate pair. *)
Theorem Check_document data v : short data -> document data v ->
  Check data = Ok tt <-> Valid data = true /\ IJSON v.
Proof. apply Check_IJSON. Qed.

(** ** Past a million *)

Lemma Valid_ascii_only l : ascii_only l -> Valid l = true.
Proof. induction 1 as [|c l Hc _ IH]; [done|]. by apply (Valid_ascii_r []). Qed.

Definition ones (n : nat) : list ascii := replicate n "1"%char.
Definition long_fraction (n : nat) : parts := mkParts [] ["0"%char] ("."%char :: ones n) [].

Lemma all_digits_ones n : all_digits (ones n).
Proof. induction n; [done|]. by unfold all_digits in *. Qed.

Lemma long_fraction_ok n : (0 < n)%nat -> number_ok (long_fraction n).
Proof.
  intros Hn. constructor; [by left|by left|right|by left]. exists (ones n). split_and!; [done|apply all_digits_ones|].
  by destruct n; [lia|].
Qed.

Lemma digits_val_grows ds a : all_digits ds -> 0 <= a -> a <= foldl (fun acc c => acc * 10 + digit_val c) a ds.
Proof.
  unfold all_digits. revert a. induction ds as [|c ds IH]; intros a Hd Ha; [simpl; lia|]. simpl in Hd. apply andb_true_iff in Hd as [Hc Hd].
  unfold is_digit in Hc. rewrite andb_true_iff !Z.leb_le in Hc. cbn [foldl]. transitivity (a * 10 + digit_val c); [unfold digit_val; lia|].
  apply IH; [done|unfold digit_val; lia].
Qed.

Lemma SetString_long n : 10 ^ 6 < Z.of_nat n -> SetString (number_text (long_fraction n)) = None.
Proof.
  intros Hn. unfold SetString. rewrite read_literal_text; [|apply long_fraction_ok; lia]. cbn.
  destruct (_ =? 0) eqn:Hz.
  - apply Z.eqb_eq in Hz. exfalso. destruct n as [|n]; [lia|]. unfold l_digits, digits_val in Hz. cbn in Hz.
    pose proof (digits_val_grows (ones n) 1 (all_digits_ones n) ltac:(lia)). change ((0 * 10 + digit_val "0") * 10 + digit_val "1") with 1 in Hz.
    fold (ones n) in Hz. rewrite Hz in H. lia.
  - unfold ones. rewrite length_replicate. decide_bool (10 ^ 6 <? Z.abs (0 - Z.of_nat n)) true. done.
Qed.

Lemma document_number n : number_ok n -> document (number_text n) (RNumber n).
Proof.
  intros Hok. exists []. split; [|done]. destruct (number_text_head n [] Hok) as (c & l & Hc & Hd). rewrite app_nil_r in Hc.
  assert (value_start c /\ c <> "{"%char /\ c <> "["%char /\ c <> quote) as (Hvs & Hobj & Harr & Hq).
  { unfold value_start. destruct Hd as [->|Hd]; [by split_and!; auto|]. split_and!; [by auto 6|by apply is_digit_not..]. }
  unfold scan_document. apply value_start_not in Hvs as [Hsp _]. rewrite Hc skipWS_cons // scan_scalar //.
  cbn [scan_value]. rewrite (bool_decide_eq_false_2 _ Hobj) (bool_decide_eq_false_2 _ Harr) (bool_decide_eq_false_2 _ Hq).
  assert (bool_decide (c = "-"%char) || is_digit c = true) as ->.
  { destruct Hd as [->|Hd]; [done|]. by rewrite Hd orb_true_r. }
  rewrite -Hc -(app_nil_r (number_text n)). by rewrite scan_number_text.
Qed.

(** The bound on the bytes is needed.  A fraction of more than a million digits passes the
    walk over the bytes, which calls it plainly admissible, and is refused by the
    reference, whose [math/big] reads no such number; [Check] answers with the
    walk. *)
Lemma checkFast_disagrees n : 10 ^ 6 < Z.of_nat n ->
  let data := number_text (long_fraction n) in
  Check data = Ok tt /\ checkTokens data = Err ErrNotIJSON.
Proof.
  intros Hn data. pose proof (long_fraction_ok n ltac:(lia)) as Hok. pose proof (document_number _ Hok) as Hdoc.
  assert (Valid data = true) as Hv by (by apply Valid_ascii_only, number_ascii).
  split.
  - unfold Check. assert (checkFast data = true) as ->; [|done]. unfold checkFast. rewrite Hv.
    assert (skipWS data = data) as Hws by done. rewrite Hws.
    assert (fastValue (fuel_for data) 0 data = fastNumber data) as -> by done.
    assert (scan_number data = Some (long_fraction n, [])) as Hs.
    { rewrite -(app_nil_r data). by apply scan_number_text. }
    unfold fastNumber. rewrite Hs. cbn [long_fraction n_int n_frac n_exp length tail].
    destruct n as [|n]; [lia|]. done.
  - rewrite (checkTokens_document _ _ Hdoc) Hv. cbn [negb refuse_if rbind surrogates_raw check_raw].
    unfold CheckNumber. by rewrite SetString_long.
Qed.

(** ** The token loop ends *)

Lemma value_token_length d l t d' : value_token d l = Token t d' -> (length (d_in d') < length l)%nat.
Proof.
  unfold value_token. destruct (tokenValueAllowed _); [|done]. destruct (scan_value 1 0 l) as [[v l']|] eqn:Hs; [|done].
  intros [= <- <-]. by apply scan_enough in Hs as [? _].
Qed.

Lemma next_token_length fuel d t d' : next_token fuel d = Token t d' -> (length (d_in d') < length (d_in d))%nat.
Proof.
  revert d. induction fuel as [|fuel IH]; intros d; [done|]. cbn [next_token].
  pose proof (skipWS_length (d_in d)) as Hlen. destruct (skipWS (d_in d)) as [|c l] eqn:Hws; [done|]. cbn [length] in Hlen.
  assert (forall s st, next_token fuel (mkDecoder l s st) = Token t d' -> (length (d_in d') < length (d_in d))%nat) as Hrec.
  { intros s st H. apply IH in H. cbn [d_in] in H. lia. }
  repeat match goal with
  | |- context [if ?b then _ else _] => destruct b
  | |- context [match d_stack d with _ => _ end] => destruct (d_stack d)
  | |- context [match scan_string l with _ => _ end] => destruct (scan_string l) as [[b l']|] eqn:Hs
  end; try done; try (by apply Hrec); try (intros [= <- <-]; cbn [d_in]; lia).
  - intros [= <- <-]. cbn [d_in]. apply scan_string_length in Hs. lia.
  - intros H. apply value_token_length in H. cbn [length] in H. lia.
Qed.

Lemma token_loop_enough fuel k d fs : (length (d_in d) < fuel)%nat -> token_loop (fuel + k) d fs = token_loop fuel d fs.
Proof.
  revert d fs. induction fuel as [|fuel IH]; intros d fs Hl; [lia|]. cbn [Nat.add token_loop].
  destruct (next_token 3 d) as [| |t d'] eqn:Ht; [done..|]. apply next_token_length in Ht.
  destruct (check_token fs t) as [fs'|]; [|done]. cbn [rbind]. apply IH. lia.
Qed.

(** The reference's loop over the tokens of a document ends: a token takes a
    byte at least, so after as many turns as there are bytes and one more it has
    its answer, and no number of further turns gives another. *)
Lemma token_loop_ends data stack k :
  token_loop (S (length data) + k) (mkDecoder data TopValue []) stack =
  token_loop (S (length data)) (mkDecoder data TopValue []) stack.
Proof. apply token_loop_enough. simpl. lia. Qed.
