(* ===== verification/JsonPrint.v ===== *)
(** * A value, printed compactly

    [print_raw] writes a value as it is spelled with no white space, which is
    what [encoding/json] compacts a value to and what the canonical form is of
    its own value; the scanner reads it back ([print_scans]).  A change to every
    string that keeps what the strings say ([map_bodies], [keeps]) keeps what the
    value decodes to. *)
From S2P Require Import Prelude Strconv StrconvProps Utf8 Json Jcs Ijson Utf8Props NumberProps JsonProps JcsProps.
From S2P Require Import JsonTokens IjsonProps.
Open Scope session_scope.
Local Open Scope Z_scope.

(** ** Scanning without fuel *)

Definition scans (depth : Z) (l : list ascii) (v : raw) (r : list ascii) : Prop :=
  forall g, (2 * length l + 1 <= g)%nat -> scan_value g depth l = Some (v, r).
Definition scans_members (depth : Z) (l : list ascii) (ms : list (list ascii * raw)) (r : list ascii) : Prop :=
  forall g, (2 * length l + 1 <= g)%nat -> scan_members g depth l = Some (ms, r).
Definition scans_elements (depth : Z) (l : list ascii) (es : list raw) (r : list ascii) : Prop :=
  forall g, (2 * length l + 2 <= g)%nat -> scan_elements g depth l = Some (es, r).

(** A text that begins with the mark itself. *)
Definition tight (l : list ascii) : Prop := match l with c :: _ => isSpace c = false | [] => True end.

Lemma tight_skipWS l : tight l -> skipWS l = l.
Proof. destruct l as [|c l]; [done|]. apply skipWS_cons. Qed.

Lemma scans_document l v r : tight l -> scans 0 l v r -> scan_document l = Some (v, r).
Proof. intros Ht H. unfold scan_document. rewrite tight_skipWS //. apply H. unfold fuel_for. lia. Qed.

Lemma scans_length depth l v r : scans depth l v r -> (length r < length l)%nat.
Proof. intros H. specialize (H _ (le_n _)). by apply scan_enough in H as [? _]. Qed.

Lemma scans_array depth l es r : depth < maxNestingDepth -> scans_elements (depth + 1) l es r ->
  scans depth ("["%char :: l) (RArray es) r.
Proof.
  intros Hd He g Hg. destruct g as [|g]; [simpl in Hg; lia|]. cbn [scan_value].
  rewrite bool_decide_eq_false_2 // bool_decide_eq_true_2 //. apply Z.leb_gt in Hd as ->.
  cbn [length] in Hg. specialize (He g ltac:(lia)). pose proof He as Hh. destruct g as [|g]; [done|]. cbn [scan_elements] in Hh.
  destruct (scan_value g _ l) as [[v l']|] eqn:Hv; [|done]. apply scan_value_head in Hv as (c & t & -> & Hvs).
  apply value_start_not in Hvs as (Hsp & _ & _ & Hc & _). rewrite skipWS_cons // (bool_decide_eq_false_2 _ Hc). by rewrite He.
Qed.

Lemma scans_empty_array depth r : depth < maxNestingDepth -> scans depth ("["%char :: "]"%char :: r) (RArray []) r.
Proof.
  intros Hd g Hg. destruct g as [|g]; [simpl in Hg; lia|]. cbn [scan_value].
  rewrite bool_decide_eq_false_2 // bool_decide_eq_true_2 //. by apply Z.leb_gt in Hd as ->.
Qed.

Lemma scans_object depth l ms r : depth < maxNestingDepth -> scans_members (depth + 1) (quote :: l) ms r ->
  scans depth ("{"%char :: quote :: l) (RObject ms) r.
Proof.
  intros Hd He g Hg. destruct g as [|g]; [simpl in Hg; lia|]. cbn [scan_value].
  rewrite bool_decide_eq_true_2 //. apply Z.leb_gt in Hd as ->. cbn [length] in Hg.
  rewrite skipWS_cons // bool_decide_eq_false_2 //. rewrite He //. simpl. lia.
Qed.

Lemma scans_empty_object depth r : depth < maxNestingDepth -> scans depth ("{"%char :: "}"%char :: r) (RObject []) r.
Proof.
  intros Hd g Hg. destruct g as [|g]; [simpl in Hg; lia|]. cbn [scan_value].
  rewrite bool_decide_eq_true_2 //. by apply Z.leb_gt in Hd as ->.
Qed.

Lemma scans_elements_one depth l v r : scans depth l v ("]"%char :: r) -> scans_elements depth l [v] r.
Proof.
  intros H g Hg. destruct g as [|g]; [lia|]. cbn [scan_elements]. rewrite H; [|lia].
  rewrite skipWS_cons // bool_decide_eq_false_2 // bool_decide_eq_true_2 //.
Qed.

Lemma scans_elements_cons depth l v l2 es r : scans depth l v (","%char :: l2) -> tight l2 ->
  scans_elements depth l2 es r -> scans_elements depth l (v :: es) r.
Proof.
  intros H Ht He g Hg. pose proof (scans_length _ _ _ _ H) as Hl. simpl in Hl.
  destruct g as [|g]; [lia|]. cbn [scan_elements]. rewrite H; [|lia].
  rewrite skipWS_cons // bool_decide_eq_true_2 // tight_skipWS //. rewrite He //. lia.
Qed.

Lemma scans_members_one depth b l v r : body b -> tight l -> scans depth l v ("}"%char :: r) ->
  scans_members depth (quote :: b ++ quote :: ":"%char :: l) [(b, v)] r.
Proof.
  intros Hb Ht H g Hg. cbn [length] in Hg. rewrite length_app in Hg. cbn [length] in Hg. destruct g as [|g]; [lia|].
  cbn [scan_members]. rewrite bool_decide_eq_true_2 // scan_body // skipWS_cons // bool_decide_eq_true_2 // tight_skipWS //.
  rewrite H; [|lia]. rewrite skipWS_cons // bool_decide_eq_false_2 // bool_decide_eq_true_2 //.
Qed.

Lemma scans_members_cons depth b l v l2 ms r : body b -> tight l -> scans depth l v (","%char :: l2) -> tight l2 ->
  scans_members depth l2 ms r ->
  scans_members depth (quote :: b ++ quote :: ":"%char :: l) ((b, v) :: ms) r.
Proof.
  intros Hb Ht H Ht2 Hm g Hg. cbn [length] in Hg. rewrite length_app in Hg. cbn [length] in Hg. destruct g as [|g]; [lia|].
  pose proof (scans_length _ _ _ _ H) as Hl. simpl in Hl.
  cbn [scan_members]. rewrite bool_decide_eq_true_2 // scan_body // skipWS_cons // bool_decide_eq_true_2 // tight_skipWS //.
  rewrite H; [|lia]. rewrite skipWS_cons // bool_decide_eq_true_2 // tight_skipWS // Hm //. lia.
Qed.

(** ** Printing *)

Definition string_text (b : list ascii) : list ascii := quote :: b ++ [quote].

Fixpoint print_raw (v : raw) : list ascii :=
  match v with
  | RNull => la "null"
  | RBool true => la "true"
  | RBool false => la "false"
  | RNumber n => number_text n
  | RString b => string_text b
  | RArray l => "["%char :: commas (map print_raw l) ++ ["]"%char]
  | RObject ms => "{"%char :: commas (map (fun kv => string_text kv.1 ++ ":"%char :: print_raw kv.2) ms) ++ ["}"%char]
  end.

Definition print_member (kv : list ascii * raw) : list ascii := string_text kv.1 ++ ":"%char :: print_raw kv.2.

Lemma string_text_app b r : string_text b ++ r = quote :: b ++ quote :: r.
Proof. unfold string_text. cbn [app]. by rewrite -app_assoc. Qed.

Lemma print_member_app k v r : print_member (k, v) ++ r = quote :: k ++ quote :: ":"%char :: print_raw v ++ r.
Proof. unfold print_member. cbn [fst snd]. by rewrite -app_assoc string_text_app. Qed.

Lemma commas_cons x y l : commas (x :: y :: l) = x ++ ","%char :: commas (y :: l).
Proof. done. Qed.

(** A printed value starts as a value does, and its bytes are valid when its
    strings are. *)
Lemma print_head d v : well_spelled d v -> exists c t, print_raw v = c :: t /\ value_start c.
Proof.
  unfold value_start. intros Hw. destruct Hw as [d|d []|d n Hn|d b Hb|d l _ _|d ms _ _]; try (do 2 eexists; split; [done|auto 10]; fail).
  destruct (number_text_head n [] Hn) as (c & t & E & Hc). rewrite app_nil_r in E. exists c, t. split; [done|]. naive_solver.
Qed.

Lemma print_tight d v r : well_spelled d v -> tight (print_raw v ++ r).
Proof. intros Hw. destruct (print_head d v Hw) as (c & t & -> & Hc). by apply value_start_not in Hc as [? _]. Qed.

(** *** The scanner reads what is printed *)

Definition print_reads (v : raw) : Prop :=
  forall d r, well_spelled d v -> number_end r -> scans d (print_raw v ++ r) v r.

Lemma print_elements d l r : Forall print_reads l -> Forall (well_spelled d) l -> l <> [] ->
  scans_elements d (commas (map print_raw l) ++ "]"%char :: r) l r.
Proof.
  intros Hp Hw. revert Hp. induction Hw as [|v l Hv Hw IH]; [done|]. intros [Hpv Hp]%Forall_cons _.
  destruct l as [|v2 l]; [by apply scans_elements_one, Hpv|]. cbn [map]. rewrite commas_cons -app_assoc. cbn [app].
  eapply scans_elements_cons; [by apply Hpv| |by apply IH]. apply Forall_cons in Hw as [Hv2 _]. cbn [map].
  destruct l as [|v3 l]; [by apply (print_tight d)|]. cbn [map]. rewrite commas_cons -app_assoc. by apply (print_tight d).
Qed.

Lemma print_members d ms r : Forall (fun kv => print_reads kv.2) ms -> Forall (fun kv => body kv.1 /\ well_spelled d kv.2) ms ->
  ms <> [] -> scans_members d (commas (map print_member ms) ++ "}"%char :: r) ms r.
Proof.
  intros Hp Hw. revert Hp. induction Hw as [|[k v] ms [Hk Hv] Hw IH]; [done|]. intros [Hpv Hp]%Forall_cons _.
  cbn [fst snd] in *. destruct ms as [|[k2 v2] ms].
  - cbn [map commas]. rewrite print_member_app. apply scans_members_one; [done|by apply (print_tight d)|by apply Hpv].
  - cbn [map]. rewrite commas_cons -app_assoc print_member_app. cbn [app].
    eapply scans_members_cons; [done|by apply (print_tight d)|by apply Hpv| |by apply IH]. cbn [map].
    destruct ms; [by rewrite print_member_app|]. cbn [map]. by rewrite commas_cons -app_assoc print_member_app.
Qed.

Lemma print_reads_number n : print_reads (RNumber n).
Proof.
  intros d r Hw Hr g Hg. inversion Hw as [| |? ? Hok| | |]; subst. destruct g as [|g]; [lia|]. cbn [print_raw].
  destruct (number_text_head n r Hok) as (c & t & E & Hc). rewrite E.
  assert (c <> "{"%char /\ c <> "["%char /\ c <> quote) as (H1 & H2 & H3).
  { destruct Hc as [->|Hc]; [done|]. by split_and!; apply is_digit_not. }
  rewrite scan_scalar //. cbn [scan_value].
  rewrite (bool_decide_eq_false_2 _ H1) (bool_decide_eq_false_2 _ H2) (bool_decide_eq_false_2 _ H3).
  assert (bool_decide (c = "-"%char) || is_digit c = true) as ->.
  { destruct Hc as [->|Hc]; [done|]. by rewrite Hc orb_true_r. }
  by rewrite -E scan_number_text.
Qed.

Lemma print_reads_string b : print_reads (RString b).
Proof.
  intros d r Hw _ g Hg. inversion Hw; subst. destruct g as [|g]; [lia|]. cbn [print_raw]. rewrite string_text_app.
  rewrite scan_scalar //. cbn [scan_value]. do 2 (rewrite bool_decide_eq_false_2 //). by rewrite bool_decide_eq_true_2 // scan_body.
Qed.

Lemma print_scans v : print_reads v.
Proof.
  induction v as [|b|n|b|l IH|ms IH] using raw_nested; [| |apply print_reads_number|apply print_reads_string|..]; intros d r Hw Hr.
  - intros g Hg. by destruct g as [|g]; [simpl in Hg; lia|].
  - intros g Hg. by destruct b; (destruct g as [|g]; [simpl in Hg; lia|]).
  - inversion Hw as [| | | |? ? Hd Hl|]; subst. cbn [print_raw app]. rewrite -app_assoc. cbn [app].
    destruct (decide (l = [])) as [->|Hne]; [by apply scans_empty_array|]. apply scans_array; [done|]. by apply print_elements.
  - inversion Hw as [| | | | |? ? Hd Hl]; subst. cbn [print_raw app]. rewrite -app_assoc. cbn [app].
    change (fun kv : list ascii * raw => string_text kv.1 ++ ":"%char :: print_raw kv.2) with print_member.
    destruct ms as [|[k v] ms]; [by apply scans_empty_object|].
    pose proof (print_members (d + 1) ((k, v) :: ms) r IH Hl ltac:(done)) as H. revert H.
    assert (exists t, commas (map print_member ((k, v) :: ms)) ++ "}"%char :: r = quote :: t) as [t ->].
    { cbn [map]. destruct ms; [eexists; apply print_member_app|]. cbn [map]. rewrite commas_cons -app_assoc. eexists. apply print_member_app. }
    by apply scans_object.
Qed.

(** A printed value is a document of it. *)
Lemma print_document v : well_spelled 0 v -> document (print_raw v) v.
Proof.
  intros Hw. exists []. split; [|done]. pose proof (print_scans v 0 [] Hw I) as H. pose proof (print_tight 0 v [] Hw) as Ht.
  rewrite app_nil_r in H Ht. by apply scans_document.
Qed.

(** *** Valid bytes *)

Inductive valid_strings : raw -> Prop :=
  | valid_null : valid_strings RNull
  | valid_bool b : valid_strings (RBool b)
  | valid_number n : valid_strings (RNumber n)
  | valid_string b : Valid b = true -> valid_strings (RString b)
  | valid_array l : Forall valid_strings l -> valid_strings (RArray l)
  | valid_object ms : Forall (fun kv => Valid kv.1 = true /\ valid_strings kv.2) ms -> valid_strings (RObject ms).

Lemma Valid_commas l : Forall (fun t => Valid t = true) l -> Valid (commas l) = true.
Proof.
  induction 1 as [|x l Hx Hl IH]; [done|]. destruct l as [|y l]; [done|]. rewrite commas_cons. by apply Valid_ascii_r.
Qed.

Lemma Valid_string_text b : Valid b = true -> Valid (string_text b) = true.
Proof. intros Hb. by apply (Valid_ascii_r []), (Valid_ascii_r _ quote []). Qed.

Lemma Valid_print d v : well_spelled d v -> valid_strings v -> Valid (print_raw v) = true.
Proof.
  revert d. induction v as [|[]|n|b|l IH|ms IH] using raw_nested; intros d Hw Hv; try done.
  - inversion Hw; subst. by apply Valid_ascii_only, number_ascii.
  - inversion Hv; subst. by apply Valid_string_text.
  - inversion Hw as [| | | |? ? _ Hl|]; subst. inversion Hv as [| | | |? Hvl|]; subst. cbn [print_raw].
    apply (Valid_ascii_r []); [done..|]. apply (Valid_ascii_r _ _ []); [done| |done]. apply Valid_commas, Forall_map.
    clear Hw Hv. induction IH as [|x l Hx _ IHl]; [constructor|]. apply Forall_cons in Hl as [? ?], Hvl as [? ?].
    constructor; [by apply (Hx (d + 1))|by apply IHl].
  - inversion Hw as [| | | | |? ? _ Hl]; subst. inversion Hv as [| | | | |? Hvl]; subst. cbn [print_raw].
    apply (Valid_ascii_r []); [done..|]. apply (Valid_ascii_r _ _ []); [done| |done]. apply Valid_commas, Forall_map.
    clear Hw Hv. induction IH as [|[k x] ms Hx _ IHl]; [constructor|]. apply Forall_cons in Hl as [[? ?] ?], Hvl as [[? ?] ?].
    constructor; [|by apply IHl]. apply Valid_ascii_r; [done|by apply Valid_string_text|by apply (Hx (d + 1))].
Qed.

(** ** Changing how strings are spelled *)

Fixpoint map_bodies (f : list ascii -> list ascii) (v : raw) : raw :=
  match v with
  | RString b => RString (f b)
  | RArray l => RArray (map (map_bodies f) l)
  | RObject ms => RObject (map (fun kv => (f kv.1, map_bodies f kv.2)) ms)
  | v => v
  end.

(** Another spelling of the same strings, with the same half pairs. *)
Definition keeps (f : list ascii -> list ascii) : Prop :=
  forall b, body b -> body (f b) /\ (Valid b = true -> Valid (f b) = true) /\ unquote (f b) = unquote b /\
    surrogates true (f b) = surrogates true b.

Section keeps.
Variable f : list ascii -> list ascii.
Hypothesis Hf : keeps f.

Lemma map_bodies_spelled d v : well_spelled d v -> well_spelled d (map_bodies f v).
Proof.
  revert d. induction v as [|b|n|b|l IH|ms IH] using raw_nested; intros d Hw; try done; inversion Hw as [| | |? ? Hb|? ? Hd Hl|? ? Hd Hl]; subst;
    cbn [map_bodies]; constructor; try done; [by apply Hf|..]; apply Forall_map.
  - apply (Forall_impl (fun x => well_spelled (d + 1) x /\ forall d, well_spelled d x -> well_spelled d (map_bodies f x))); [by apply Forall_and|].
    intros x [? Hx]. by apply Hx.
  - apply (Forall_impl (fun kv => (body kv.1 /\ well_spelled (d + 1) kv.2) /\ forall d, well_spelled d kv.2 -> well_spelled d (map_bodies f kv.2)));
      [by apply Forall_and|]. intros kv [[Hb ?] Hx]. split; [by apply Hf|by apply Hx].
Qed.

Lemma map_bodies_interp d v : well_spelled d v -> interp (map_bodies f v) = interp v.
Proof.
  revert d. induction v as [|b|n|b|l IH|ms IH] using raw_nested; intros d Hw; try done; inversion Hw as [| | |? ? Hb|? ? Hd Hl|? ? Hd Hl]; subst;
    cbn [map_bodies interp]; rewrite ?map_map; f_equal.
  - by apply Hf.
  - apply map_ext_Forall. apply (Forall_impl (fun x => well_spelled (d + 1) x /\ forall d, well_spelled d x -> interp (map_bodies f x) = interp x)); [by apply Forall_and|].
    intros x [? Hx]. by eapply Hx.
  - f_equal. apply map_ext_Forall.
    apply (Forall_impl (fun kv => (body kv.1 /\ well_spelled (d + 1) kv.2) /\ forall d, well_spelled d kv.2 -> interp (map_bodies f kv.2) = interp kv.2));
      [by apply Forall_and|]. intros kv [[Hb ?] Hx]. cbn [fst snd]. f_equal; [by apply Hf|by eapply Hx].
Qed.

Lemma map_bodies_surrogates d v : well_spelled d v -> surrogates_raw (map_bodies f v) = surrogates_raw v.
Proof.
  revert d. induction v as [|b|n|b|l IH|ms IH] using raw_nested; intros d Hw; try done; inversion Hw as [| | |? ? Hb|? ? Hd Hl|? ? Hd Hl]; subst;
    cbn [map_bodies].
  - by apply Hf.
  - rewrite !surrogates_raw_array. clear Hw. induction IH as [|x l Hx _ IHl]; [done|]. apply Forall_cons in Hl as [? ?].
    cbn [map surrogates_all]. by rewrite (Hx (d + 1)) // IHl.
  - rewrite !surrogates_raw_object. clear Hw. induction IH as [|[k x] ms Hx _ IHl]; [done|]. apply Forall_cons in Hl as [[Hk ?] ?].
    cbn [map surrogates_members fst snd]. destruct (Hf k Hk) as (_ & _ & _ & ->). by rewrite (Hx (d + 1)) // IHl.
Qed.

Lemma map_bodies_check d v : well_spelled d v -> check_raw (map_bodies f v) = check_raw v.
Proof.
  revert d. induction v as [|b|n|b|l IH|ms IH] using raw_nested; intros d Hw; try done; inversion Hw as [| | |? ? Hb|? ? Hd Hl|? ? Hd Hl]; subst;
    cbn [map_bodies].
  - rewrite !check_raw_array. clear Hw. induction IH as [|x l Hx _ IHl]; [done|]. apply Forall_cons in Hl as [? ?].
    cbn [map check_all]. by rewrite (Hx (d + 1)) // IHl.
  - rewrite !check_raw_object. clear Hw. generalize (@nil (list ascii)). induction IH as [|[k x] ms Hx _ IHl]; intros keys; [done|].
    apply Forall_cons in Hl as [[Hk ?] ?]. cbn [map check_members fst snd]. destruct (Hf k Hk) as (_ & _ & -> & _).
    by rewrite (Hx (d + 1)) // IHl.
Qed.

Lemma map_bodies_clean d v : well_spelled d v -> clean v -> clean (map_bodies f v).
Proof. intros Hw [Hs Hc]. split; [by rewrite (map_bodies_surrogates d)|by rewrite (map_bodies_check d)]. Qed.

Lemma map_bodies_valid d v : well_spelled d v -> valid_strings v -> valid_strings (map_bodies f v).
Proof.
  revert d. induction v as [|b|n|b|l IH|ms IH] using raw_nested; intros d Hw Hv; try done; inversion Hw as [| | |? ? Hb|? ? Hd Hl|? ? Hd Hl]; subst;
    inversion Hv as [| | |? Hvb|? Hvl|? Hvl]; subst; cbn [map_bodies]; constructor; [by apply Hf|..]; apply Forall_map; clear Hw Hv Hd.
  - induction IH as [|x l Hx _ IHl]; [constructor|]. apply Forall_cons in Hl as [? ?], Hvl as [? ?].
    constructor; [by apply (Hx (d + 1))|by apply IHl].
  - induction IH as [|[k x] ms Hx _ IHl]; [constructor|]. apply Forall_cons in Hl as [[Hk ?] ?], Hvl as [[? ?] ?].
    constructor; [split; [by apply Hf|by apply (Hx (d + 1))]|by apply IHl].
Qed.
End keeps.
