(* ===== verification/JcsRoundtrip.v ===== *)
(** * Canonical form, read back

    What [write] writes of a value is a value printed ([reads_back]): the value
    with its numbers in canonical form and its members in order ([norm]), in
    which nothing offends the I-JSON test.  So a canonical form is its own
    ([Transform_idempotent]), is I-JSON ([canonical_is_IJSON]), and is shared
    by the documents that hold the same data and no others ([Transform_same]). *)
From S2P Require Import Prelude Strconv StrconvProps Utf8 Json Jcs Ijson Utf8Props NumberProps JsonProps JcsSort JcsProps.
From S2P Require Import JsonTokens IjsonProps JsonPrint.
Open Scope session_scope.
Local Open Scope Z_scope.

(** ** Strings, read back *)

Lemma write_rune_cases r : scalar r ->
  (exists e v, write_rune r = [backslash; e] /\ e <> "u"%char /\ escape_val e = Some v /\ EncodeRune r = [v] /\ byte_of e < 128) \/
  (exists h1 h2 h3 h4, write_rune r = [backslash; "u"%char; h1; h2; h3; h4] /\ hex4 [h1; h2; h3; h4] = Some (r, []) /\
     is_surrogate r = false /\ ascii_only [h1; h2; h3; h4]) \/
  (write_rune r = EncodeRune r /\ 32 <= r /\ r <> 34 /\ r <> 92).
Proof.
  intros Hr. destruct (decide (r < 32)) as [Hlt|].
  - assert (r ∈ [0; 1; 2; 3; 4; 5; 6; 7; 8; 9; 10; 11; 12; 13; 14; 15; 16; 17; 18; 19; 20; 21; 22; 23; 24; 25; 26; 27; 28; 29; 30; 31]) as Hin.
    { apply scalar_range in Hr. rewrite !elem_of_cons. lia. }
    revert Hin. clear. rewrite !elem_of_cons elem_of_nil.
    intros Hin. repeat (destruct Hin as [->|Hin]; [first
      [left; do 2 eexists; split; [reflexivity|]; split; [discriminate|]; split; [reflexivity|]; split; [reflexivity|done]
      |right; left; do 4 eexists; split; [reflexivity|]; split; [reflexivity|]; split; [reflexivity|]; repeat constructor]|]).
    done.
  - destruct (decide (r = 34)) as [->|]; [by left; do 2 eexists|]. destruct (decide (r = 92)) as [->|]; [by left; do 2 eexists|].
    right; right. split_and!; [|lia|done..]. unfold write_rune.
    repeat (match goal with |- context [?a =? ?b] => decide_bool (a =? b) false end).
    by decide_bool (r <? 32) false.
Qed.

Lemma EncodeRune_plain r : scalar r -> 32 <= r -> r <> 34 -> r <> 92 ->
  Forall (fun c => c <> quote /\ c <> backslash /\ 32 <= byte_of c) (EncodeRune r).
Proof.
  intros Hr H1 H2 H3. destruct (decide (r < 128)) as [Hlt|].
  - destruct (EncodeRune_shape r Hr) as [[_ ->]|[[? _]|[[? _]|[? _]]]]; [|lia..]. constructor; [|done].
    assert (byte_of (ascii_of r) = r) as Hb by (apply byte_of_ascii; lia).
    split_and!; [| |lia]; intros Heq; rewrite Heq in Hb; [change (byte_of quote) with 34 in Hb|change (byte_of backslash) with 92 in Hb]; lia.
  - apply (Forall_impl (fun c => 128 <= byte_of c)); [apply EncodeRune_high; [done|lia]|]. intros c Hc.
    split_and!; [by intros ->..|lia].
Qed.

Lemma body_plain l b : Forall (fun c => c <> quote /\ c <> backslash /\ 32 <= byte_of c) l -> body b -> body (l ++ b).
Proof. induction 1 as [|c l (? & ? & ?) _ IH]; [done|]. intros Hb. cbn [app]. apply body_char; auto. Qed.

Lemma surrogates_plain l b : Forall (fun c => c <> quote /\ c <> backslash /\ 32 <= byte_of c) l ->
  surrogates true (l ++ b) = surrogates true b.
Proof. induction 1 as [|c l (? & ? & ?) _ IH]; [done|]. cbn [app]. by rewrite surrogates_char. Qed.

(** One rune, written and read. *)
Lemma write_rune_read r b : scalar r -> body b ->
  body (write_rune r ++ b) /\ unescape (write_rune r ++ b) = EncodeRune r ++ unescape b /\
  surrogates true (write_rune r ++ b) = surrogates true b.
Proof.
  intros Hr Hb. destruct (write_rune_cases r Hr) as [(e & v & -> & Hu & He & -> & _)|[(h1 & h2 & h3 & h4 & -> & Hh & Hs & _)|(-> & H1 & H2 & H3)]].
  - cbn [app]. split_and!; [by apply body_escape with (v := v)|by rewrite (unescape_escape e v)|by rewrite surrogates_escape].
  - cbn [app]. split_and!; [by apply body_u with (r := r)|by rewrite (unescape_u _ _ _ _ r) // Hs|].
    rewrite (surrogates_u _ _ _ _ _ _ _ Hh). unfold is_surrogate in Hs. rewrite andb_false_iff !Z.leb_gt in Hs.
    assert (is_low r = false /\ is_high r = false) as [-> ->]; [|done]. unfold is_low, is_high. rewrite !andb_false_iff !Z.leb_gt. lia.
  - pose proof (EncodeRune_plain r Hr H1 H2 H3) as Hp. split_and!; [by apply body_plain|by apply unescape_rune|by apply surrogates_plain].
Qed.

Definition spelled (rs : list Z) : list ascii := mjoin (write_rune <$> rs).

Lemma spelled_read rs : Forall scalar rs ->
  body (spelled rs) /\ unescape (spelled rs) = encoded rs /\ surrogates true (spelled rs) = Ok tt.
Proof.
  induction 1 as [|r rs Hr _ (IH1 & IH2 & IH3)]; [by repeat constructor|].
  destruct (write_rune_read r (spelled rs) Hr IH1) as (H1 & H2 & H3). change (spelled (r :: rs)) with (write_rune r ++ spelled rs).
  rewrite encoded_cons H2 H3 IH2. done.
Qed.

Lemma Valid_spelled rs : Forall scalar rs -> Valid (spelled rs) = true.
Proof.
  induction 1 as [|r rs Hr _ IH]; [done|]. change (spelled (r :: rs)) with (write_rune r ++ spelled rs). apply Valid_app; [|done].
  destruct (write_rune_cases r Hr) as [(e & v & -> & _ & _ & _ & He)|[(h1 & h2 & h3 & h4 & -> & _ & _ & Ha)|(-> & _)]].
  - apply Valid_ascii_only. by repeat constructor.
  - apply Valid_ascii_only. by do 2 (constructor; [done|]).
  - by apply Valid_scalar.
Qed.

(** The body [writeString] writes of a string. *)
Definition body_of (s : list ascii) : list ascii := spelled (range_runes s).

Lemma writeString_body s : writeString s = quote :: body_of s ++ [quote].
Proof. done. Qed.

Lemma body_of_read s : Valid s = true ->
  body (body_of s) /\ unquote (body_of s) = s /\ surrogates true (body_of s) = Ok tt /\ Valid (body_of s) = true.
Proof.
  intros Hs. pose proof (range_runes_scalar s) as Hr. destruct (spelled_read _ Hr) as (H1 & H2 & H3).
  pose proof (Valid_spelled _ Hr) as Hv. split_and!; [done| |done..]. unfold body_of. rewrite unquote_Valid // H2.
  apply Valid_encoded in Hs as (rs & Hrs & ->). by rewrite range_encoded.
Qed.

(** ** Values, read back *)

(** A decoded value of a document: its strings valid, an object's names
    distinct, and no deeper than the scanner goes. *)
Inductive decoded : Z -> json -> Prop :=
  | decoded_null d : decoded d JNull
  | decoded_bool d b : decoded d (JBool b)
  | decoded_number d lit : decoded d (JNumber lit)
  | decoded_string d s : Valid s = true -> decoded d (JString s)
  | decoded_array d l : d < maxNestingDepth -> Forall (decoded (d + 1)) l -> decoded d (JArray l)
  | decoded_object d ms : d < maxNestingDepth -> NoDup ms.*1 ->
      Forall (fun kv => Valid kv.1 = true /\ decoded (d + 1) kv.2) ms -> decoded d (JObject ms).

(** A number's canonical text, or the number where it has none. *)
Definition canonical_number (lit : list ascii) : list ascii :=
  match ParseFloat lit with
  | Some f => match FormatNumber f with Some s => s | None => lit end
  | None => lit
  end.

Fixpoint norm (v : json) : json :=
  match v with
  | JNumber lit => JNumber (canonical_number lit)
  | JArray l => JArray (map norm l)
  | JObject ms => JObject (sort_by less_member (map (fun kv => (kv.1, norm kv.2)) ms))
  | v => v
  end.

(** A written value is a value printed, of the normal form, with nothing in it
    that offends the I-JSON test. *)
Definition read_back (d : Z) (v : json) : Prop :=
  forall w, decoded d v -> write v = Some w ->
  exists x, w = print_raw x /\ well_spelled d x /\ valid_strings x /\ interp x = norm v /\ clean x.

Lemma read_back_number d lit : read_back d (JNumber lit).
Proof.
  intros w _ Hw. cbn [write] in Hw. destruct (ParseFloat lit) as [f|] eqn:Hp; [|done].
  pose proof (ParseFloat_finite _ _ Hp) as Hf. destruct (FormatNumber_parses f w Hf Hw) as (p & f' & Hok & -> & _ & _).
  pose proof (FormatNumber_checks f _ Hf Hw) as Hch. exists (RNumber p).
  split_and!; [done|by apply spelled_number|by apply valid_number| |by split]. cbn [interp norm]. unfold canonical_number. by rewrite Hp Hw.
Qed.

Lemma read_back_string d s : read_back d (JString s).
Proof.
  intros w Hd Hw. inversion Hd as [| | |? ? Hs| |]; subst. injection Hw as <-.
  destruct (body_of_read s Hs) as (Hb & Hu & Hsur & Hv). exists (RString (body_of s)).
  split_and!; [done|by apply spelled_string|by apply valid_string|cbn [interp norm]; by rewrite Hu|by split].
Qed.

Lemma read_back_elements d l ws : Forall (read_back d) l -> Forall (decoded d) l -> Forall2 (fun x w => write x = Some w) l ws ->
  exists xs, ws = map print_raw xs /\ Forall (well_spelled d) xs /\ Forall valid_strings xs /\
    map interp xs = map norm l /\ Forall clean xs.
Proof.
  intros Hrb Hd Hws. revert Hrb Hd. induction Hws as [|v w l ws Hw Hws IH]; [by exists []|]. intros [Hv Hrb]%Forall_cons [Hdv Hd]%Forall_cons.
  destruct (Hv w Hdv Hw) as (x & -> & Hx & Hvx & Hi & Hc). destruct (IH Hrb Hd) as (xs & -> & Hxs & Hvxs & His & Hcs).
  exists (x :: xs). cbn [map]. rewrite Hi His. split_and!; [done|by constructor|by constructor|done|by apply Forall_cons].
Qed.

Lemma clean_array xs : Forall clean xs -> clean (RArray xs).
Proof. unfold clean. by rewrite Forall_and surrogates_raw_array check_raw_array surrogates_all_Ok check_all_Ok. Qed.

Lemma read_back_array d l : Forall (read_back (d + 1)) l -> read_back d (JArray l).
Proof.
  intros IH w Hd Hw. inversion Hd as [| | | |? ? Hlt Hdl|]; subst. rewrite write_array in Hw.
  destruct (mapM write l) as [ws|] eqn:Hws; [|done]. injection Hw as <-. apply mapM_Some in Hws.
  destruct (read_back_elements (d + 1) l ws IH Hdl Hws) as (xs & -> & Hxs & Hv & Hi & Hc).
  exists (RArray xs). split; [done|]. split; [by constructor|]. split; [by constructor|].
  split; [cbn [interp norm]; by rewrite Hi|by apply clean_array].
Qed.

(** *** Objects *)

Definition norm_member (kv : list ascii * json) : list ascii * json := (kv.1, norm kv.2).

Lemma insert_by_Forall2 {A B} (R : list ascii * A -> list ascii * B -> Prop) x y l l' :
  (forall x y, R x y -> x.1 = y.1) -> R x y -> Forall2 R l l' ->
  Forall2 R (insert_by less_member x l) (insert_by less_member y l').
Proof.
  intros HR Hxy. induction 1 as [|x1 y1 l l' H1 Hl IH]; [by constructor|]. cbn [insert_by].
  assert (less_member x x1 = less_member y y1) as -> by (unfold less_member; by rewrite (HR _ _ Hxy) (HR _ _ H1)).
  destruct (less_member y y1); by repeat constructor.
Qed.

(** Sorting looks at names alone. *)
Lemma sort_by_Forall2 {A B} (R : list ascii * A -> list ascii * B -> Prop) l l' :
  (forall x y, R x y -> x.1 = y.1) -> Forall2 R l l' -> Forall2 R (sort_by less_member l) (sort_by less_member l').
Proof. intros HR. induction 1; [constructor|]. cbn [sort_by foldr]. by apply insert_by_Forall2. Qed.

Lemma sort_by_norm ms : sort_by less_member (map norm_member ms) = map norm_member (sort_by less_member ms).
Proof.
  assert (Forall2 (fun x y => y = norm_member x) (sort_by less_member ms) (sort_by less_member (map norm_member ms))) as H.
  { apply sort_by_Forall2; [by intros x y ->|]. induction ms; by constructor. }
  induction H as [|x y l l' -> _ IH]; [done|]. cbn [map]. by rewrite IH.
Qed.

Lemma write_member_Some kv kw : write_member kv = Some kw <-> kw.1 = kv.1 /\ write kv.2 = Some kw.2.
Proof. unfold write_member. destruct kv as [k v], kw as [k' w]. simpl. destruct (write v); naive_solver. Qed.

Lemma read_back_members d ms ws : Forall (fun kv => read_back d kv.2) ms ->
  Forall (fun kv => Valid kv.1 = true /\ decoded d kv.2) ms ->
  Forall2 (fun kv kw => write_member kv = Some kw) ms ws ->
  exists xs, member_text <$> ws = map print_member xs /\ Forall (fun kv => body kv.1 /\ well_spelled d kv.2) xs /\
    Forall (fun kv => Valid kv.1 = true /\ valid_strings kv.2) xs /\ map interp_member xs = map norm_member ms /\
    Forall (fun kv => surrogates true kv.1 = Ok tt /\ clean kv.2) xs /\
    Forall2 (fun kv x => x.1 = body_of kv.1 /\ write kv.2 = Some (print_raw x.2)) ms xs.
Proof.
  intros Hrb Hd Hws. revert Hrb Hd. induction Hws as [|[k v] [k' w] ms ws Hw Hws IH]; [by exists []|].
  intros [Hv Hrb]%Forall_cons [[Hkv Hdv] Hd]%Forall_cons. apply write_member_Some in Hw as [Hk Hw]. cbn [fst snd] in *. subst k'.
  destruct (Hv w Hdv Hw) as (x & -> & Hx & Hvx & Hi & Hc). destruct (IH Hrb Hd) as (xs & Hxs & Hsp & Hvxs & His & Hcs & Hw2).
  destruct (body_of_read k Hkv) as (Hb & Hu & Hsur & Hbv). exists ((body_of k, x) :: xs). rewrite fmap_cons Hxs. cbn [map].
  unfold interp_member at 1, norm_member at 1. cbn [fst snd]. rewrite Hi Hu His.
  split; [done|]. split; [by constructor|]. split; [by constructor|]. split; [done|]. split; [by apply Forall_cons|by constructor].
Qed.

(** Members with distinct names keep them. *)
Lemma interp_norm_members xs ms : map interp_member xs = map norm_member ms -> NoDup ms.*1 ->
  (fun kv => unquote kv.1) <$> xs = ms.*1 /\ interp (RObject xs) = JObject (map norm_member ms).
Proof.
  intros Heq Hnd. assert ((map norm_member ms).*1 = ms.*1) as Hfst.
  { clear. induction ms; [done|]. cbn [map]. rewrite !fmap_cons. by f_equal. }
  split.
  - rewrite -Hfst -Heq. clear. induction xs; [done|]. cbn [map]. rewrite !fmap_cons. by f_equal.
  - cbn [interp]. change (fun kv : list ascii * raw => (unquote kv.1, interp kv.2)) with interp_member.
    rewrite Heq set_members_NoDup //. by rewrite Hfst.
Qed.

Lemma clean_object xs : NoDup ((fun kv => unquote kv.1) <$> xs) ->
  Forall (fun kv => surrogates true kv.1 = Ok tt /\ clean kv.2) xs -> clean (RObject xs).
Proof.
  intros Hnd Hc. unfold clean. rewrite surrogates_raw_object check_raw_object surrogates_members_Ok check_members_Ok.
  split_and!; [|done|]; apply (Forall_impl _ _ _ Hc); unfold clean.
  - naive_solver.
  - intros kv (_ & _ & H). split; [apply not_elem_of_nil|done].
Qed.

(** A written object is its members printed, in order. *)
Lemma write_object_members d ms w : Forall (fun kv => read_back (d + 1) kv.2) ms -> decoded d (JObject ms) ->
  write (JObject ms) = Some w ->
  exists xs, w = print_raw (RObject xs) /\ well_spelled d (RObject xs) /\ valid_strings (RObject xs) /\
    interp (RObject xs) = norm (JObject ms) /\ clean (RObject xs) /\
    Forall2 (fun kv x => x.1 = body_of kv.1 /\ unquote x.1 = kv.1 /\ interp x.2 = norm kv.2 /\ write kv.2 = Some (print_raw x.2))
      (sort_by less_member ms) xs.
Proof.
  intros IH Hd Hw. inversion Hd as [| | | | |? ? Hlt Hnd Hdl]; subst. rewrite write_object in Hw.
  destruct (mapM write_member ms) as [ws|] eqn:Hws; [|done]. injection Hw as <-. apply mapM_Some in Hws.
  assert (norm (JObject ms) = JObject (map norm_member (sort_by less_member ms))) as ->.
  { cbn [norm]. change (fun kv : list ascii * json => (kv.1, norm kv.2)) with norm_member. by rewrite sort_by_norm. }
  pose proof (sort_by_perm less_member ms) as Hp.
  apply (sort_by_Forall2 (fun kv kw => write_member kv = Some kw)) in Hws; [|intros x y Hxy; by apply write_member_Some in Hxy as [-> _]].
  rewrite -{}Hp in Hnd, Hdl, IH. unfold object_text. revert Hws Hnd Hdl IH.
  generalize (sort_by less_member ms) as l, (sort_by less_member ws) as wl. clear ms ws Hd. intros l wl Hws Hnd Hdl IH.
  destruct (read_back_members (d + 1) l wl IH Hdl Hws) as (xs & -> & Hsp & Hv & Hi & Hc & H2).
  destruct (interp_norm_members xs l Hi Hnd) as [Hkeys Hint]. exists xs.
  split; [done|]. split; [by constructor|]. split; [by constructor|]. split; [done|]. split.
  - apply clean_object; [by rewrite Hkeys|done].
  - clear -H2 Hi. induction H2 as [|kv x l xs [Hk Hw] _ IH]; [constructor|]. injection Hi as Hu Hx Hi. constructor; [done|by apply IH].
Qed.

Lemma read_back_object d ms : Forall (fun kv => read_back (d + 1) kv.2) ms -> read_back d (JObject ms).
Proof.
  intros IH w Hd Hw. destruct (write_object_members d ms w IH Hd Hw) as (xs & ? & ? & ? & ? & ? & _). by exists (RObject xs).
Qed.

Lemma reads_back v d : read_back d v.
Proof.
  revert d. induction v as [|b|n|s|l IH|ms IH] using json_nested; intros d.
  - intros w _ [= <-]. exists RNull. by repeat constructor.
  - intros w _ Hw. exists (RBool b). split; [by destruct b; injection Hw as <-|by repeat constructor].
  - apply read_back_number.
  - apply read_back_string.
  - apply read_back_array. apply (Forall_impl _ _ _ IH). auto.
  - apply read_back_object. apply (Forall_impl _ _ _ IH). auto.
Qed.

(** ** The normal form *)

Lemma canonical_number_idemp lit : write (JNumber (canonical_number lit)) = write (JNumber lit).
Proof.
  unfold canonical_number. cbn [write]. destruct (ParseFloat lit) as [f|] eqn:Hp; [|by rewrite Hp].
  destruct (FormatNumber f) as [s|] eqn:Hf; [|by rewrite Hp Hf].
  destruct (FormatNumber_parses f s (ParseFloat_finite _ _ Hp) Hf) as (p & f' & _ & _ & -> & ->). done.
Qed.

Lemma mapM_ext_Forall {A B C} (f : A -> option C) (g : B -> option C) (l : list A) (l' : list B) :
  Forall2 (fun x y => f x = g y) l l' -> mapM f l = mapM g l'.
Proof. induction 1 as [|x y l l' H _ IH]; [done|]. cbn [mapM]. rewrite H. destruct (g y); [|done]. simpl. by rewrite IH. Qed.

Lemma mapM_perm {A B} (f : A -> option B) l l' k : l ≡ₚ l' -> mapM f l = Some k -> exists k', mapM f l' = Some k' /\ k ≡ₚ k'.
Proof.
  intros Hp H. apply mapM_Some in H. destruct (Permutation_Forall2 Hp H) as (k' & Hk & H'). exists k'. by rewrite mapM_Some.
Qed.

(** An object is written alike whatever order its members are in. *)
Lemma write_object_same ms ms0 ms' : ms ≡ₚ ms0 -> Forall2 (fun a b => a.1 = b.1 /\ write a.2 = write b.2) ms0 ms' ->
  NoDup ms.*1 -> valid_keys fst ms -> write (JObject ms) = write (JObject ms').
Proof.
  intros Hp Hsame Hnd Hval. rewrite !write_object.
  assert (mapM write_member ms' = mapM write_member ms0) as ->.
  { symmetry. apply mapM_ext_Forall. apply (Forall2_impl _ _ _ _ Hsame). intros [k x] [k' x'] [Hk Hx]. simpl in *. subst k'.
    unfold write_member. cbn [fst snd]. by rewrite Hx. }
  destruct (mapM write_member ms) as [ws|] eqn:Hws.
  - destruct (mapM_perm _ _ _ _ Hp Hws) as (ws0 & -> & Hpw). cbn. f_equal. unfold object_text. do 4 f_equal.
    assert (ws.*1 = ms.*1) as Hkeys.
    { apply mapM_Some in Hws. clear -Hws. induction Hws as [|kv kw ms ws H _ IH]; [done|]. rewrite !fmap_cons IH.
      by apply write_member_Some in H as [-> _]. }
    assert (valid_keys fst ws) as Hvw.
    { apply Forall_forall. intros kw Hin. apply (list_elem_of_fmap_2' fst) with (y := kw.1) in Hin; [|done].
      rewrite Hkeys in Hin. apply list_elem_of_fmap in Hin as (kv & -> & Hin). unfold valid_keys in Hval. rewrite Forall_forall in Hval. by apply Hval. }
    apply sort_by_unique; [done|by rewrite sort_by_perm|]. apply sort_by_ordered; [by eapply valid_keys_perm|]. by rewrite -Hpw Hkeys.
  - destruct (mapM write_member ms0) as [ws0|] eqn:Hws0; [|done]. symmetry in Hp.
    destruct (mapM_perm _ _ _ _ Hp Hws0) as (ws & E & _). congruence.
Qed.

Lemma write_norm v d : decoded d v -> write (norm v) = write v.
Proof.
  revert d. induction v as [|b|n|s|l IH|ms IH] using json_nested; intros d Hd; try done.
  - apply canonical_number_idemp.
  - inversion Hd as [| | | |? ? _ Hl|]; subst. cbn [norm]. rewrite !write_array. f_equal. apply mapM_ext_Forall. clear Hd.
    induction l as [|x l IHl]; [constructor|]. apply Forall_cons in IH as [Hx IH]. apply Forall_cons in Hl as [Hdx Hl].
    constructor; [by apply (Hx (d + 1))|by apply IHl].
  - inversion Hd as [| | | | |? ? _ Hnd Hl]; subst. cbn [norm]. symmetry.
    change (fun kv : list ascii * json => (kv.1, norm kv.2)) with norm_member. rewrite sort_by_norm.
    apply (write_object_same _ (sort_by less_member ms)); [by rewrite sort_by_perm| |done|].
    + rewrite -(sort_by_perm less_member ms) in Hl, IH. revert Hl IH. generalize (sort_by less_member ms) as l. clear. intros l Hl IH.
      induction l as [|[k x] l IHl]; [constructor|]. apply Forall_cons in IH as [Hx IH]. apply Forall_cons in Hl as [[_ Hdx] Hl].
      constructor; [split; [done|]; symmetry; by apply (Hx (d + 1))|by apply IHl].
    + apply (Forall_impl _ _ _ Hl). by intros kv [? _].
Qed.

(** ** What the scanner reads is decoded *)

Lemma set_member_in {A} k (v : A) m kv : kv ∈ set_member k v m -> kv = (k, v) \/ kv ∈ m.
Proof.
  induction m as [|[k0 v0] m IH]; cbn [set_member]; [rewrite list_elem_of_singleton; by left|].
  destruct (bool_decide (k = k0)); rewrite !elem_of_cons; naive_solver.
Qed.

Lemma set_member_NoDup {A} k (v : A) m : NoDup m.*1 -> NoDup (set_member k v m).*1.
Proof.
  induction m as [|[k0 v0] m IH]; intros Hnd; cbn [set_member]; [by apply NoDup_singleton|].
  rewrite fmap_cons NoDup_cons in Hnd. destruct Hnd as [Hn Hnd]. cbn [fst] in Hn.
  destruct (bool_decide (k = k0)) eqn:E; bool_prop; rewrite fmap_cons NoDup_cons; cbn [fst]; [by subst|].
  split; [|by apply IH]. intros Hin. apply list_elem_of_fmap in Hin as (kv & Heq & Hin).
  apply set_member_in in Hin as [->|Hin]; [by apply E|]. apply Hn. rewrite Heq. by apply list_elem_of_fmap_2.
Qed.

Lemma set_members_spec {A} (P : list ascii * A -> Prop) ms : Forall P ms ->
  NoDup (set_members ms).*1 /\ Forall P (set_members ms).
Proof.
  unfold set_members. assert (forall m, NoDup m.*1 -> Forall P m -> Forall P ms ->
    NoDup (foldl (fun m kv => set_member kv.1 kv.2 m) m ms).*1 /\
    Forall P (foldl (fun m kv => set_member kv.1 kv.2 m) m ms)) as H; [|intros Hms; by apply H; [constructor| |]].
  induction ms as [|kv ms IH]; intros m Hnd Hm Hms; [done|]. cbn [foldl]. apply Forall_cons in Hms as [Hkv Hms].
  apply IH; [by apply set_member_NoDup| |done]. apply Forall_forall. intros x Hx.
  apply set_member_in in Hx as [->|Hx]; [by destruct kv|]. rewrite Forall_forall in Hm. by apply Hm.
Qed.

Lemma scan_decoded fuel depth l v r : scan_value fuel depth l = Some (v, r) -> decoded depth (interp v).
Proof.
  apply (scan_holds (fun d v => decoded d (interp v))); [by constructor..| | |].
  - intros d b _. constructor. apply Valid_unquote.
  - intros d es Hd Hes. cbn [interp]. constructor; [done|]. by apply Forall_map.
  - intros d ms Hd Hms. cbn [interp]. change (fun kv : list ascii * raw => (unquote kv.1, interp kv.2)) with interp_member.
    destruct (set_members_spec (fun kv => Valid kv.1 = true /\ decoded (d + 1) kv.2) (map interp_member ms)) as [Hnd Hall].
    + induction Hms as [|[k x] ms [_ Hx] _ IH]; [constructor|]. cbn [map]. constructor; [|done]. split; [apply Valid_unquote|done].
    + by constructor.
Qed.

(** ** Documents *)

(** [data] decodes to [v] and nothing but white space or closing brackets
    follows. *)
Definition decodes (data : list ascii) (v : json) : Prop :=
  exists rest, Decode data = Some (v, rest) /\ More rest = false.

Lemma decodes_decoded data v : decodes data v -> decoded 0 v.
Proof.
  intros (rest & Hd & _). unfold Decode in Hd. destruct (scan_document data) as [[x r]|] eqn:Hs; [|done].
  injection Hd as <- <-. by apply scan_decoded in Hs.
Qed.

Lemma transformDecoded_write data c : transformDecoded data = Some c <-> exists v, decodes data v /\ write v = Some c.
Proof.
  unfold transformDecoded, decodes. destruct (Decode data) as [[v rest]|] eqn:Hd; [|split; [done|naive_solver]].
  destruct (More rest) eqn:Hm; [split; [done|]; naive_solver congruence|]. split; [by eauto|].
  intros (v' & (rest' & [= -> ->] & _) & ?). done.
Qed.

(** [Transform] is its reference. *)
Lemma Transform_bytes_decoded data : Transform_bytes data = transformDecoded data.
Proof. unfold Transform_bytes. destruct (transformFast data) eqn:Hf; [|done]. symmetry. by apply transformFast_agrees. Qed.

(** A written value is a document that decodes to its normal form. *)
Lemma write_document v c : decoded 0 v -> write v = Some c ->
  Valid c = true /\ exists x, document c x /\ interp x = norm v /\ clean x.
Proof.
  intros Hd Hw. destruct (reads_back v 0 c Hd Hw) as (x & -> & Hx & Hv & Hi & Hc).
  split; [by apply (Valid_print 0)|]. exists x. split; [by apply print_document|done].
Qed.

Lemma document_decodes data x : document data x -> decodes data (interp x).
Proof.
  intros (r & Hs & Hr). exists r. unfold Decode, More. by rewrite Hs Hr.
Qed.

Lemma canonical_fixed data c : Transform_bytes data = Some c -> Transform_bytes c = Some c.
Proof.
  rewrite !Transform_bytes_decoded. intros (v & Hdec & Hw)%transformDecoded_write. apply decodes_decoded in Hdec.
  destruct (write_document v c Hdec Hw) as (_ & x & Hdoc & Hi & _). apply transformDecoded_write. exists (interp x).
  split; [by apply document_decodes|]. by rewrite Hi (write_norm _ _ Hdec).
Qed.

(** C32: a canonical form is its own canonical form: [Transform] of what
    [Transform] returned returns it, so a hash of stored canonical bytes can be
    recomputed from them. *)
Theorem Transform_idempotent data c : Transform_bytes data = Some c -> Transform_bytes c = Some c.
Proof. apply canonical_fixed. Qed.

(** [Check] passes every canonical form, whatever the document it was made
    from: rewriting a member canonically never makes it fail the I-JSON test. *)
Lemma canonical_is_IJSON data c : Transform_bytes data = Some c -> Check c = Ok tt.
Proof.
  rewrite Transform_bytes_decoded. intros (v & Hdec & Hw)%transformDecoded_write. apply decodes_decoded in Hdec.
  destruct (write_document v c Hdec Hw) as (Hv & x & Hdoc & _ & Hs & Hc). unfold Check. destruct (checkFast c); [done|].
  rewrite (checkTokens_document _ _ Hdoc) Hv Hs. done.
Qed.

(** ** The same data *)

(** Doubles that are equal as numbers. *)
Definition same_double (f g : float64) : Prop :=
  f = g \/ exists n n' e e', f = Finite n 0 e /\ g = Finite n' 0 e'.

(** Decoded values that hold the same data: numbers equal as doubles, members
    in any order. *)
Inductive same_data : json -> json -> Prop :=
  | same_null : same_data JNull JNull
  | same_bool b : same_data (JBool b) (JBool b)
  | same_number l l' f f' : ParseFloat l = Some f -> ParseFloat l' = Some f' -> same_double f f' ->
      same_data (JNumber l) (JNumber l')
  | same_string s : same_data (JString s) (JString s)
  | same_array l l' : Forall2 same_data l l' -> same_data (JArray l) (JArray l')
  | same_object ms ms0 ms' : ms ≡ₚ ms0 -> Forall2 (fun a b => a.1 = b.1 /\ same_data a.2 b.2) ms0 ms' ->
      same_data (JObject ms) (JObject ms').

Lemma same_double_FormatNumber f g : same_double f g -> FormatNumber f = FormatNumber g.
Proof. by intros [->|(n & n' & e & e' & -> & ->)]. Qed.

Lemma FormatNumber_inj f g s : finite_double f -> finite_double g ->
  FormatNumber f = Some s -> FormatNumber g = Some s -> same_double f g.
Proof.
  assert (forall neg m e, finite_double (Finite neg m e) -> m <> 0 -> FormatNumber (Finite neg m e) = Some s ->
    ParseFloat s = Some (Finite neg m e)) as Hcanon.
  { intros neg m e [He [?|Hc]] Hm; [done|]. destruct (FormatNumber_double neg m e Hc He) as (p & r & -> & _ & Hp & _).
    by intros [= <-]. }
  destruct f as [neg m e| |]; [|done..]. destruct g as [neg' m' e'| |]; [|done..]. intros Hf Hg H1 H2.
  destruct (decide (m = 0)) as [->|Hm], (decide (m' = 0)) as [->|Hm'].
  - right. eauto 10.
  - pose proof (Hcanon _ _ _ Hg Hm' H2) as Hp. injection H1 as <-. vm_compute in Hp. injection Hp as <- <- <-. done.
  - pose proof (Hcanon _ _ _ Hf Hm H1) as Hp. injection H2 as <-. vm_compute in Hp. injection Hp as <- <- <-. done.
  - pose proof (Hcanon _ _ _ Hf Hm H1) as Hp. rewrite (Hcanon _ _ _ Hg Hm' H2) in Hp. injection Hp as -> -> ->. by left.
Qed.

(** Every finite double has a form, the form is a JSON number, and reading it
    gives the double back, but for the sign of a zero. *)
Lemma FormatNumber_roundtrip f : finite_double f ->
  exists p f', FormatNumber f = Some (number_text p) /\ number_ok p /\
    ParseFloat (number_text p) = Some f' /\ same_double f f'.
Proof.
  intros Hf. destruct (FormatNumber_total f Hf) as [s Hs].
  destruct (FormatNumber_parses f s Hf Hs) as (p & f' & Hok & -> & Hp & Hf'). exists p, f'. split_and!; [done..|].
  eapply FormatNumber_inj; [done|by eapply ParseFloat_finite|done..].
Qed.

Lemma same_data_write v v' d : decoded d v -> same_data v v' -> write v = write v'.
Proof.
  revert d v'. induction v as [|b|n|s|l IH|ms IH] using json_nested; intros d v' Hd Hs; inversion Hs as [| |? ? f f' Hp Hp' Hff| |? ? Hl|? ms0 ? Hperm Hl]; subst; try done.
  - cbn [write]. rewrite Hp Hp'. by apply same_double_FormatNumber.
  - inversion Hd as [| | | |? ? _ Hdl|]; subst. rewrite !write_array. f_equal. apply mapM_ext_Forall. clear Hs Hd.
    induction Hl as [|x y l l' Hxy _ IHl]; [constructor|]. apply Forall_cons in IH as [Hx IH]. apply Forall_cons in Hdl as [Hdx Hdl].
    constructor; [by apply (Hx (d + 1))|by apply IHl].
  - inversion Hd as [| | | | |? ? _ Hnd Hdl]; subst. apply (write_object_same _ ms0); [done| |done|].
    + rewrite ->Hperm in Hdl, IH. clear -Hl IH Hdl. induction Hl as [|a b l l' [Hk Hab] _ IHl]; [constructor|].
      apply Forall_cons in IH as [Hx IH]. apply Forall_cons in Hdl as [[_ Hdx] Hdl].
      constructor; [split; [done|by apply (Hx (d + 1))]|by apply IHl].
    + apply (Forall_impl _ _ _ Hdl). by intros kv [? _].
Qed.

Lemma norm_same v v' c c' : write v = Some c -> write v' = Some c' -> norm v = norm v' -> same_data v v'.
Proof.
  revert v' c c'. induction v as [|b|n|s|l IH|ms IH] using json_nested; intros v' c c' Hw Hw' Heq;
    destruct v' as [|b'|n'|s'|l'|ms']; try done.
  - constructor.
  - injection Heq as <-. constructor.
  - cbn [write] in Hw, Hw'. destruct (ParseFloat n) as [f|] eqn:Hp; [|done]. destruct (ParseFloat n') as [f'|] eqn:Hp'; [|done].
    cbn [norm] in Heq. injection Heq as Heq. unfold canonical_number in Heq. rewrite Hp Hp' Hw Hw' in Heq. subst c'.
    econstructor; [done..|]. by eapply FormatNumber_inj; [eapply ParseFloat_finite..| |].
  - injection Heq as <-. constructor.
  - rewrite write_array in Hw. rewrite write_array in Hw'. constructor. injection Heq as Heq.
    destruct (mapM write l) as [ws|] eqn:E; [|done]. destruct (mapM write l') as [ws'|] eqn:E'; [|done]. clear Hw Hw'.
    apply mapM_Some in E, E'. revert l' ws' E' Heq. induction E as [|x w l ws Hx _ IHl]; intros l' ws' E' Heq.
    { by destruct l'. }
    destruct E' as [|x' w' l' ws' Hx' E']; [done|]. injection Heq as Hn Heq. apply Forall_cons in IH as [IHx IH].
    constructor; [by eapply IHx|by eapply IHl].
  - rewrite write_object in Hw. rewrite write_object in Hw'. injection Heq as Heq.
    destruct (mapM write_member ms) as [ws|] eqn:E; [|done]. destruct (mapM write_member ms') as [ws'|] eqn:E'; [|done]. clear Hw Hw'.
    change (fun kv : list ascii * json => (kv.1, norm kv.2)) with norm_member in Heq.
    assert (map norm_member ms ≡ₚ map norm_member ms') as Hperm.
    { rewrite -(sort_by_perm less_member (map norm_member ms)) Heq. by apply sort_by_perm. }
    symmetry in Hperm. apply Permutation_map_inv in Hperm as (ms0 & Hmap & Hperm).
    econstructor; [done|]. assert (Forall2 (fun kv kw => write_member kv = Some kw) ms' ws') as E2 by (by apply mapM_Some).
    destruct (mapM_perm _ _ _ _ Hperm E) as (ws0 & E0 & _). apply mapM_Some in E0. rewrite ->Hperm in IH.
    clear -IH Hmap E0 E2. revert ms' ws' E2 Hmap. induction E0 as [|x w l ws Hx _ IHl]; intros ms' ws' E2 Hmap.
    { by destruct ms'. }
    destruct E2 as [|x' w' l' ws' Hx' E2]; [done|]. injection Hmap as Hk Hn Hmap. apply Forall_cons in IH as [IHx IH].
    apply write_member_Some in Hx as [_ Hx], Hx' as [_ Hx']. constructor; [split; [done|by eapply IHx]|by eapply IHl].
Qed.

(** C33: canonical form is a form of the data: two documents have one canonical
    form exactly when what they decode to is the same, numbers compared as
    doubles and members without regard to order, spelling or white space. *)
Theorem Transform_same data data' v v' c : decodes data v -> decodes data' v' -> Transform_bytes data = Some c ->
  Transform_bytes data' = Some c <-> same_data v v'.
Proof.
  intros Hd Hd'. rewrite !Transform_bytes_decoded.
  assert (forall data v, decodes data v -> transformDecoded data = write v) as Hw.
  { clear. intros data v (rest & Hd & Hm). unfold transformDecoded. by rewrite Hd Hm. }
  rewrite (Hw _ _ Hd) (Hw _ _ Hd'). intros Hc. pose proof (decodes_decoded _ _ Hd) as Hdec. pose proof (decodes_decoded _ _ Hd') as Hdec'.
  split.
  - intros Hc'. eapply norm_same; [done..|].
    destruct (write_document v c Hdec Hc) as (_ & x & Hx & <- & _). destruct (write_document v' c Hdec' Hc') as (_ & x' & Hx' & <- & _).
    destruct Hx as (r & Hx & _), Hx' as (r' & Hx' & _). congruence.
  - intros Hs. by rewrite -(same_data_write _ _ _ Hdec Hs).
Qed.
