(* ===== verification/Normalise.v ===== *)
(** * Normalisation ([normalise.go])

    [NormaliseJSON] rewrites a document until it passes the I-JSON test, and
    records each value it changes.  A position in the input is the bytes from
    there on, as in [Ijson.v], so an edit holds what is left of the input where
    it starts and where it ends.  [normaliseEntry] and the walk that puts
    sentinels for the strings of a Go value, which is by reflection, are not
    here: the sentinels are an argument of [normaliseJSON]. *)
From S2P Require Import Prelude Entry Strconv Utf8 Json Jcs Ijson.
Open Scope session_scope.
Local Open Scope Z_scope.

(** ** Base 64 ([encoding/base64], [StdEncoding]) *)

Definition base64_alphabet : list ascii := la "ABCDEFGHIJKLMNOPQRSTUVWXYZabcdefghijklmnopqrstuvwxyz0123456789+/".
Definition sextet (z : Z) : ascii := default "A"%char (base64_alphabet !! Z.to_nat z).
Definition sextet_val (c : ascii) : option Z :=
  let b := byte_of c in
  if (65 <=? b) && (b <=? 90) then Some (b - 65)
  else if (97 <=? b) && (b <=? 122) then Some (b - 97 + 26)
  else if (48 <=? b) && (b <=? 57) then Some (b - 48 + 52)
  else if b =? 43 then Some 62
  else if b =? 47 then Some 63
  else None.
Definition padding : ascii := "="%char.

Fixpoint EncodeToString (l : list ascii) : list ascii :=
  match l with
  | [] => []
  | [a] => let x := byte_of a in [sextet (x / 4); sextet (x mod 4 * 16); padding; padding]
  | [a; b] =>
      let x := byte_of a in let y := byte_of b in
      [sextet (x / 4); sextet (x mod 4 * 16 + y / 16); sextet (y mod 16 * 4); padding]
  | a :: (b :: (c :: l)) =>
      let x := byte_of a in let y := byte_of b in let z := byte_of c in
      sextet (x / 4) :: sextet (x mod 4 * 16 + y / 16) :: sextet (y mod 16 * 4 + z / 64) :: sextet (z mod 64) :: EncodeToString l
  end.

(** [Strict().DecodeString]: line ends are passed over, and the bits that
    padding leaves must be zero. *)
Fixpoint decode_quanta (l : list ascii) : option (list ascii) :=
  match l with
  | [] => Some []
  | s :: (t :: (u :: (v :: l))) =>
      match sextet_val s, sextet_val t with
      | Some s, Some t =>
          if bool_decide (u = padding) then
            if bool_decide (v = padding) && bool_decide (l = []) && (t mod 16 =? 0) then Some [ascii_of (s * 4 + t / 16)] else None
          else
            match sextet_val u with
            | None => None
            | Some u =>
                let two := [ascii_of (s * 4 + t / 16); ascii_of (t mod 16 * 16 + u / 4)] in
                if bool_decide (v = padding) then
                  if bool_decide (l = []) && (u mod 4 =? 0) then Some two else None
                else
                  match sextet_val v, decode_quanta l with
                  | Some v, Some rest => Some (two ++ ascii_of (u mod 4 * 64 + v) :: rest)
                  | _, _ => None
                  end
            end
      | _, _ => None
      end
  | _ => None
  end.
Definition DecodeString (l : list ascii) : option (list ascii) :=
  decode_quanta (filter (fun c => c <> "010"%char /\ c <> "013"%char) l).

(** ** Strings *)

(** [quoteBytes]. *)
Definition quote_byte (c : ascii) : list ascii :=
  let b := byte_of c in
  if bool_decide (c = quote) then [backslash; quote]
  else if bool_decide (c = backslash) then [backslash; backslash]
  else if b =? 8 then la "\b"
  else if b =? 12 then la "\f"
  else if b =? 10 then la "\n"
  else if b =? 13 then la "\r"
  else if b =? 9 then la "\t"
  else if b <? 32 then la "\u00" ++ [hex_digit (b / 16); hex_digit (b mod 16)]
  else [c].
Definition quoteBytes (s : list ascii) : list ascii := quote :: mjoin (quote_byte <$> s) ++ [quote].

(** [maximalSubpart]: how many bytes more a sequence of this first byte needs,
    and the range the second is in. *)
Definition subpart_need (b : Z) : option (nat * (ascii -> bool)) :=
  if (194 <=? b) && (b <=? 223) then Some (1%nat, in_range 128 191)
  else if b =? 224 then Some (2%nat, in_range 160 191)
  else if (225 <=? b) && (b <=? 236) || (b =? 238) || (b =? 239) then Some (2%nat, in_range 128 191)
  else if b =? 237 then Some (2%nat, in_range 128 159)
  else if b =? 240 then Some (3%nat, in_range 144 191)
  else if (241 <=? b) && (b <=? 243) then Some (3%nat, in_range 128 191)
  else if b =? 244 then Some (3%nat, in_range 128 143)
  else None.
(** The loop: [need] bytes more at most, the next in the range. *)
Fixpoint subpart_length (need : nat) (ok : ascii -> bool) (s : list ascii) : nat :=
  match need, s with
  | S need, c :: s => if ok c then S (subpart_length need (in_range 128 191) s) else 0%nat
  | _, _ => 0%nat
  end.
Definition maximalSubpart (s : list ascii) : nat :=
  match s with
  | [] => 0%nat
  | c :: s =>
      match subpart_need (byte_of c) with
      | Some (need, ok) => S (subpart_length need ok s)
      | None => 1%nat
      end
  end.

(** [utf8.DecodeRune] gives a rune that is not an error, in so many bytes. *)
Definition rune_size (s : list ascii) : option nat :=
  match runes s with
  | Some r :: _ => Some (length (EncodeRune r))
  | _ => None
  end.

(** The loop takes a byte at least. *)
Fixpoint replace_invalid (fuel : nat) (s : list ascii) : list ascii :=
  match fuel, s with
  | O, _ | _, [] => []
  | S fuel, _ =>
      match rune_size s with
      | Some size => take size s ++ replace_invalid fuel (drop size s)
      | None => EncodeRune RuneError ++ replace_invalid fuel (drop (maximalSubpart s) s)
      end
  end.
Definition replaceInvalidUTF8 (s : list ascii) : list ascii := replace_invalid (length s) s.

(** [surrogateAt]: the code unit of the escape at the start, and what follows. *)
Definition surrogateAt (s : list ascii) : option (Z * list ascii) :=
  match s with
  | b :: (u :: s) => if bool_decide (b = backslash) && bool_decide (u = "u"%char) then hex4 s else None
  | _ => None
  end.

(** [fixSurrogates].  The output is written from the start, where the source
    begins to at the first change. *)
Definition replacement : list ascii := EncodeRune RuneError.
Fixpoint fixSurrogates (s : list ascii) : list ascii :=
  match s with
  | [] => []
  | c :: s1 =>
      if negb (bool_decide (c = backslash)) then c :: fixSurrogates s1
      else
        match s1 with
        | [] => [c]
        | u :: s2 =>
            match s2 with
            | h1 :: (h2 :: (h3 :: (h4 :: s6))) =>
                match surrogateAt [c; u; h1; h2; h3; h4] with
                | None => c :: u :: fixSurrogates s2
                | Some (hi, _) =>
                    let lone := replacement ++ fixSurrogates s6 in
                    if is_high hi then
                      match s6 with
                      | b :: (v :: (k1 :: (k2 :: (k3 :: (k4 :: s12))))) =>
                          match surrogateAt [b; v; k1; k2; k3; k4] with
                          | Some (lo, _) =>
                              if is_low lo
                              then [c; u; h1; h2; h3; h4; b; v; k1; k2; k3; k4] ++ fixSurrogates s12
                              else lone
                          | None => lone
                          end
                      | _ => lone
                      end
                    else if is_low hi then lone
                    else [c; u; h1; h2; h3; h4] ++ fixSurrogates s6
                end
            | _ => c :: u :: fixSurrogates s2
            end
        end
  end.
Definition hasLoneSurrogate (s : list ascii) : bool := negb (bool_decide (fixSurrogates s = s)).

(** ** Pointers *)

(** [strings.ReplaceAll] of one character. *)
Definition ReplaceAll (l : list ascii) (c : ascii) (w : list ascii) : list ascii :=
  mjoin ((fun x => if bool_decide (x = c) then w else [x]) <$> l).

(** A [frame] of the stack. *)
Record nframe := mkNframe { nf_object : bool; nf_key : list ascii; nf_expectKey : bool; nf_index : Z }.

Definition pointer_step (f : nframe) : list ascii :=
  "/"%char :: (if nf_object f then ReplaceAll (ReplaceAll (nf_key f) "~"%char (la "~0")) "/"%char (la "~1") else Itoa (nf_index f)).
(** The stack has its top first. *)
Definition pointer (stack : list nframe) : list ascii := mjoin (pointer_step <$> rev stack).

Definition norm_valueDone (stack : list nframe) : list nframe :=
  match stack with
  | [] => []
  | t :: st =>
      (if nf_object t then mkNframe true (nf_key t) true (nf_index t)
       else mkNframe false (nf_key t) (nf_expectKey t) (nf_index t + 1)) :: st
  end.

(** ** Changes *)

#[local] Notation al := string_of_list_ascii.

Definition changed_was (at_ src : list ascii) : Normalisation := mkNormalisation (al at_) (al src) "".
Definition changed_raw (at_ src : list ascii) : Normalisation := mkNormalisation (al at_) "" (al (EncodeToString src)).

(** [sortNormalisations], which is stable. *)
Fixpoint insert_change (x : Normalisation) (l : list Normalisation) : list Normalisation :=
  match l with
  | [] => [x]
  | y :: l' => if LessUTF16 (la (norm_At y)) (la (norm_At x)) then y :: insert_change x l' else x :: l
  end.
Definition sortNormalisations (n : list Normalisation) : list Normalisation := foldr insert_change [] n.

(** [stringRepair]. *)
Record stringRepair := mkRepair { sr_original : list ascii; sr_repaired : list ascii }.

Record edit := mkEdit { ed_start : list ascii; ed_end : list ascii; ed_repl : list ascii }.

(** The input with the edits made. *)
Fixpoint splice (at_ : list ascii) (edits : list edit) : list ascii :=
  match edits with
  | [] => at_
  | e :: edits => take (length at_ - length (ed_start e)) at_ ++ ed_repl e ++ splice (ed_end e) edits
  end.

(** ** The loop *)

(** What the loop carries; [located] holds the sentinels found. *)
Record nstate := mkNstate { ns_stack : list nframe; ns_edits : list edit; ns_changes : list Normalisation; ns_located : gset string }.

Definition set_stack (stack : list nframe) (st : nstate) : nstate :=
  mkNstate stack (ns_edits st) (ns_changes st) (ns_located st).
Definition value_done (st : nstate) : nstate := set_stack (norm_valueDone (ns_stack st)) st.
Definition add_change (e : edit) (n : Normalisation) (st : nstate) : nstate :=
  mkNstate (ns_stack st) (ns_edits st ++ [e]) (ns_changes st ++ [n]) (ns_located st).
Definition locate (t : string) (st : nstate) : nstate :=
  mkNstate (ns_stack st) (ns_edits st) (ns_changes st) ({[t]} ∪ ns_located st).

(** The bytes between two tokens that start none. *)
Definition separates (c : ascii) : bool := isSpace c || bool_decide (c = ":"%char) || bool_decide (c = ","%char).
Fixpoint skip_separators (l : list ascii) : list ascii :=
  match l with
  | c :: l' => if separates c then skip_separators l' else l
  | [] => []
  end.

(** A string that is a value: what it becomes and the record, when it changes. *)
Definition norm_string (at_ src : list ascii) : option (list ascii * Normalisation) :=
  if negb (Valid src) then Some (fixSurrogates (replaceInvalidUTF8 src), changed_raw at_ src)
  else if hasLoneSurrogate src then Some (fixSurrogates src, changed_was at_ src)
  else None.

Definition norm_number (at_ lit src : list ascii) : result (option (list ascii * Normalisation)) :=
  match CheckNumber lit with
  | Ok _ => Ok None
  | Err _ =>
      match SetString lit with
      | None => Err ErrNotIJSON
      | Some r =>
          match (Float64 r).1 with
          | Infinite _ => Err ErrNotIJSON
          | f => match FormatNumber f with
                 | Some repl => Ok (Some (repl, changed_was at_ src))
                 | None => Err ErrOther
                 end
          end
      end
  end.

Definition record_change (src rest : list ascii) (c : option (list ascii * Normalisation)) (st : nstate) : nstate :=
  match c with
  | Some (repl, n) => add_change (mkEdit (src ++ rest) rest repl) n st
  | None => st
  end.

(** [MarshalNoEscape] of a string, as [encoding/json] spells one. *)
Definition marshal_rune (r : option Z) : list ascii :=
  match r with
  | None => la "\ufffd"
  | Some r => if r =? 8232 then la "\u2028" else if r =? 8233 then la "\u2029" else write_rune r
  end.
Definition MarshalString (s : list ascii) : list ascii := quote :: mjoin (marshal_rune <$> runes s) ++ [quote].

(** The body of the loop for one token, [src] its bytes and [rest] what follows. *)
Definition norm_token (sentinels : gmap string stringRepair) (t : token) (src rest : list ascii) (st : nstate) : result nstate :=
  match t with
  | Delim c =>
      if bool_decide (c = "{"%char) then Ok (set_stack (mkNframe true [] true 0 :: ns_stack st) st)
      else if bool_decide (c = "["%char) then Ok (set_stack (mkNframe false [] false 0 :: ns_stack st) st)
      else Ok (value_done (set_stack (tail (ns_stack st)) st))
  | TString s =>
      let value :=
        match sentinels !! al s with
        | Some r =>
            add_change (mkEdit (src ++ rest) rest (MarshalString (sr_repaired r)))
              (changed_raw (pointer (ns_stack st)) (quoteBytes (sr_original r))) (locate (al s) st)
        | None => record_change src rest (norm_string (pointer (ns_stack st)) src) st
        end in
      match ns_stack st with
      | f :: stack =>
          if nf_object f && nf_expectKey f then
            if negb (Valid src) || hasLoneSurrogate src then Err ErrNotIJSON
            else Ok (set_stack (mkNframe true s false (nf_index f) :: stack) st)
          else Ok (value_done value)
      | [] => Ok (value_done value)
      end
  | TNumber n =>
      let! c := norm_number (pointer (ns_stack st)) (number_text n) src in
      Ok (value_done (record_change src rest c st))
  | _ => Ok (value_done st)
  end.

(** The loop, to the end of the input.  A token takes a byte at least. *)
Fixpoint norm_loop (fuel : nat) (sentinels : gmap string stringRepair) (d : decoder) (st : nstate) : result nstate :=
  match fuel with
  | O => Err ErrOther
  | S fuel =>
      match next_token 3 d with
      | TokenEOF => Ok st
      | TokenError => Err ErrNotIJSON
      | Token t d' =>
          let src := skip_separators (take (length (d_in d) - length (d_in d')) (d_in d)) in
          let! st := norm_token sentinels t src (d_in d') st in
          norm_loop fuel sentinels d' st
      end
  end.

Definition normaliseJSON (data : list ascii) (sentinels : gmap string stringRepair)
    : result (list ascii * list Normalisation * gset string) :=
  refuse_if (negb (json_Valid data)) ErrNotIJSON ;!
  let! st := norm_loop (S (length data)) sentinels (mkDecoder data TopValue []) (mkNstate [] [] [] ∅) in
  let out := splice data (ns_edits st) in
  Check out ;!
  Ok (out, sortNormalisations (ns_changes st), ns_located st).

Definition NormaliseJSON (data : list ascii) : result (list ascii * list Normalisation) :=
  let! (out, _) := normaliseJSON data ∅ in Ok out.

(** ** What a writer may record ([checkNormalisations]) *)

Fixpoint validPointerEscapes (p : list ascii) : bool :=
  match p with
  | [] => true
  | c :: p' =>
      if bool_decide (c = "~"%char) && match p' with d :: _ => negb (bool_decide (d = "0"%char) || bool_decide (d = "1"%char)) | [] => true end
      then false else validPointerEscapes p'
  end.

(** [strings.TrimSpace] of a valid text takes something off: its first or its
    last rune is white space ([unicode.IsSpace]). *)
Definition IsSpace (r : Z) : bool :=
  ((9 <=? r) && (r <=? 13)) || (r =? 32) || (r =? 133) || (r =? 160) || (r =? 5760)
  || ((8192 <=? r) && (r <=? 8202)) || (r =? 8232) || (r =? 8233) || (r =? 8239) || (r =? 8287) || (r =? 12288).
Definition trimmed (s : list ascii) : bool :=
  let rs := range_runes s in
  negb (match head rs with Some r => IsSpace r | None => false end)
  && negb (match last rs with Some r => IsSpace r | None => false end).

Definition check_normalisation (x : Normalisation) : result unit :=
  let at_ := la (norm_At x) in let was := la (norm_Was x) in let raw := la (norm_Raw x) in
  refuse_if (bool_decide (norm_Was x = "") && bool_decide (norm_Raw x = "")
             || negb (bool_decide (norm_Was x = "")) && negb (bool_decide (norm_Raw x = ""))) ErrBadNormalisation ;!
  refuse_if (negb (bool_decide (norm_Was x = "")) && (negb (Valid was) || negb (json_Valid was) || negb (trimmed was)))
    ErrBadNormalisation ;!
  refuse_if (negb (bool_decide (norm_Raw x = "")) && match DecodeString raw with
                                                      | Some decoded => negb (bool_decide (EncodeToString decoded = raw))
                                                      | None => true
                                                      end) ErrBadNormalisation.
Fixpoint check_normalisations (seen : list string) (n : list Normalisation) : result unit :=
  match n with
  | [] => Ok tt
  | x :: n =>
      let at_ := la (norm_At x) in
      refuse_if (negb (bool_decide (head at_ = Some "/"%char)) || negb (Valid at_) || negb (validPointerEscapes at_)) ErrBadNormalisation ;!
      refuse_if (bool_decide (norm_At x ∈ seen)) ErrBadNormalisation ;!
      check_normalisation x ;!
      check_normalisations (norm_At x :: seen) n
  end.
Definition checkNormalisations (n : list Normalisation) : result unit := check_normalisations [] n.
