(* ===== verification/NormaliseText.v ===== *)
(** * What normalisation makes of a string and of a number

    [replaceInvalidUTF8] gives a valid text, the text itself when it was one
    ([replace_Valid], [replace_id]), and changes nothing of the marks of a JSON
    string; [fixSurrogates] gives a body with no half pair that decodes to what
    the body decoded to ([fix_body]), and is the identity on bodies with none
    ([fix_paired]). *)
From S2P Require Import Prelude Entry Strconv StrconvProps Utf8 Json Jcs Ijson Utf8Props NumberProps JsonProps JsonTokens IjsonProps.
From S2P Require Import JcsProps JsonPrint JcsRoundtrip Normalise.
Open Scope session_scope.
Local Open Scope Z_scope.

(** ** Invalid bytes *)

Definition high (l : list ascii) : Prop := Forall (fun c => 128 <= byte_of c) l.

(** What replacing invalid bytes does to a text: ASCII stays, and runs of other
    bytes become valid runs of other bytes. *)
Inductive replaced : list ascii -> list ascii -> Prop :=
  | replaced_nil : replaced [] []
  | replaced_ascii c s t : byte_of c < 128 -> replaced s t -> replaced (c :: s) (c :: t)
  | replaced_high k w s t : high k -> k <> [] -> high w -> Valid w = true -> replaced s t -> replaced (k ++ s) (w ++ t).

Lemma rune_size_spec s n : rune_size s = Some n ->
  exists r s', s = EncodeRune r ++ s' /\ scalar r /\ n = length (EncodeRune r).
Proof.
  unfold rune_size. destruct (runes s) as [|[r|] rest] eqn:Hr; try done. intros [= <-].
  apply runes_Some_inv in Hr as (s' & -> & Hs & _). by exists r, s'.
Qed.

Lemma EncodeRune_head_high r c l s : scalar r -> c :: l = EncodeRune r ++ s -> 128 <= byte_of c -> 128 <= r.
Proof.
  intros Hs Heq Hc. destruct (Z.lt_ge_cases r 128) as [Hlt|]; [|done]. exfalso. pose proof (proj1 (scalar_range r) Hs).
  destruct (EncodeRune_shape r Hs) as [[_ He]|[[? _]|[[? _]|[? _]]]]; [|lia..]. rewrite He in Heq. injection Heq as -> _.
  rewrite byte_of_ascii in Hc; lia.
Qed.

Lemma rune_size_ascii c s : byte_of c < 128 -> rune_size (c :: s) = Some 1%nat.
Proof.
  intros Hc. unfold rune_size. cbn [runes]. destruct (Z.ltb_spec (byte_of c) 128); [|lia].
  by destruct (EncodeRune_1 c Hc) as [_ ->].
Qed.

Lemma subpart_high need ok s : (forall c, ok c = true -> 128 <= byte_of c) ->
  (subpart_length need ok s <= length s)%nat /\ high (take (subpart_length need ok s) s).
Proof.
  revert ok s. induction need as [|need IH]; intros ok s Hok; [by split; [simpl; lia|constructor]|].
  destruct s as [|c s]; [by split; [simpl; lia|constructor]|]. cbn [subpart_length].
  destruct (ok c) eqn:Hc; [|by split; [simpl; lia|constructor]].
  destruct (IH (in_range 128 191) s) as [Hl Hh]; [by intros x [? _]%in_range_spec|].
  split; [simpl; lia|]. constructor; [by apply Hok|done].
Qed.

Lemma maximalSubpart_high c s : 128 <= byte_of c ->
  (1 <= maximalSubpart (c :: s) <= length (c :: s))%nat /\ high (take (maximalSubpart (c :: s)) (c :: s)).
Proof.
  intros Hc. cbn [maximalSubpart]. destruct (subpart_need (byte_of c)) as [[need ok]|] eqn:Hn.
  - destruct (subpart_high need ok s) as [Hl Hh].
    { intros x Hx. unfold subpart_need in Hn. repeat (case_match; try done); injection Hn as <- <-; by apply in_range_spec in Hx as [? _]; lia. }
    split; [simpl; lia|]. by constructor.
  - split; [simpl; lia|]. by repeat constructor.
Qed.

Lemma replace_replaced fuel s : (length s <= fuel)%nat -> replaced s (replace_invalid fuel s).
Proof.
  revert s. induction fuel as [|fuel IH]; intros s Hlen; [destruct s; [constructor|simpl in Hlen; lia]|].
  destruct s as [|c s]; [constructor|]. cbn [replace_invalid]. destruct (Z.lt_ge_cases (byte_of c) 128) as [Hc|Hc].
  { rewrite rune_size_ascii //. cbn [take drop app]. apply replaced_ascii; [done|]. apply IH. simpl in Hlen. lia. }
  destruct (rune_size (c :: s)) as [n|] eqn:Hn.
  - apply rune_size_spec in Hn as (r & s' & Heq & Hs & ->). rewrite Heq take_app_length drop_app_length.
    pose proof (EncodeRune_head_high _ _ _ _ Hs Heq Hc) as Hr.
    pose proof (EncodeRune_high r Hs Hr) as Hh.
    assert (EncodeRune r <> []) as Hne by (destruct (EncodeRune_shape r Hs) as [[_ ->]|[[_ ->]|[[_ ->]|[_ ->]]]]; done).
    apply replaced_high; [done..|by apply Valid_scalar|]. apply IH.
    assert (length (c :: s) = (length (EncodeRune r) + length s')%nat) as Hl by (by rewrite Heq length_app).
    destruct (EncodeRune r); [done|]. simpl in *. lia.
  - destruct (maximalSubpart_high c s Hc) as [Hm Hh]. set (m := maximalSubpart (c :: s)) in *.
    rewrite -{1}(take_drop m (c :: s)). apply replaced_high; [done| |by apply EncodeRune_high; [apply scalar_range|]; unfold RuneError; lia|done|].
    + intros H. apply (f_equal length) in H. rewrite length_take in H. simpl in *. lia.
    + apply IH. rewrite length_drop. simpl in *. lia.
Qed.

Lemma replaceInvalidUTF8_replaced s : replaced s (replaceInvalidUTF8 s).
Proof. by apply replace_replaced. Qed.

Lemma replaced_Valid s t : replaced s t -> Valid t = true.
Proof.
  induction 1 as [|c s t Hc _ IH|k w s t _ _ _ Hw _ IH]; [done| |by apply Valid_app].
  by apply (Valid_ascii_r []).
Qed.

Lemma replace_Valid s : Valid (replaceInvalidUTF8 s) = true.
Proof. eapply replaced_Valid, replaceInvalidUTF8_replaced. Qed.

Lemma replace_id s : Valid s = true -> replaceInvalidUTF8 s = s.
Proof.
  unfold replaceInvalidUTF8. intros (rs & Hrs & ->)%Valid_encoded.
  assert (forall fuel, (length (encoded rs) <= fuel)%nat -> replace_invalid fuel (encoded rs) = encoded rs) as H; [|by apply H].
  induction Hrs as [|r rs Hr Hrs IH]; intros fuel Hl; [by destruct fuel|]. rewrite encoded_cons in Hl |- *.
  assert (exists c l, EncodeRune r = c :: l) as (c & l & He).
  { destruct (EncodeRune_shape r Hr) as [[_ ->]|[[_ ->]|[[_ ->]|[_ ->]]]]; by do 2 eexists. }
  destruct fuel as [|fuel]; [rewrite length_app He in Hl; simpl in Hl; lia|].
  assert (replace_invalid (S fuel) (EncodeRune r ++ encoded rs) =
    take (length (EncodeRune r)) (EncodeRune r ++ encoded rs) ++ replace_invalid fuel (drop (length (EncodeRune r)) (EncodeRune r ++ encoded rs))) as ->.
  { cbn [replace_invalid]. unfold rune_size. rewrite runes_EncodeRune //. by rewrite He. }
  rewrite take_app_length drop_app_length IH //. rewrite length_app He in Hl. simpl in Hl. lia.
Qed.

(** An ASCII character divides a text and what it becomes alike. *)
Lemma replaced_at a c r t : byte_of c < 128 -> replaced (a ++ c :: r) t ->
  exists t1 t2, t = t1 ++ c :: t2 /\ replaced a t1 /\ replaced r t2.
Proof.
  intros Hc H. remember (a ++ c :: r) as l eqn:Hl. revert a Hl.
  induction H as [|x s t Hx H IH|k w s t Hk Hne Hw Hv H IH]; intros a Hl; [by destruct a| |].
  - destruct a as [|y a]; injection Hl as -> Hl; [exists [], t; subst; by repeat constructor|].
    destruct (IH a Hl) as (t1 & t2 & -> & H1 & H2). exists (y :: t1), t2. by repeat constructor.
  - apply app_eq_inv in Hl as [(k' & Hk' & Hs)|(k' & -> & Hs)].
    + destruct k' as [|x k']; cbn [app] in Hs.
      * rewrite app_nil_r in Hk'. subst k. destruct (IH [] (eq_sym Hs)) as (t1 & t2 & -> & H1 & H2).
        exists (w ++ t1), t2. rewrite -app_assoc. split; [done|]. split; [|done].
        rewrite -(app_nil_r a). by apply replaced_high.
      * injection Hs as <- _. subst k. apply Forall_app in Hk as [_ Hk]. apply Forall_cons in Hk as [Hk _]. lia.
    + destruct (IH k' Hs) as (t1 & t2 & -> & H1 & H2). exists (w ++ t1), t2. rewrite -app_assoc. split; [done|].
      split; [by apply replaced_high|done].
Qed.

Lemma replaced_cons c r t : byte_of c < 128 -> replaced (c :: r) t -> exists t', t = c :: t' /\ replaced r t'.
Proof.
  intros Hc H. destruct (replaced_at [] c r t Hc H) as (t1 & t2 & -> & H1 & H2). inversion H1 as [| |k w s t Hk Hne Hw Hv Hr Heq]; [by exists t2|].
  by destruct k.
Qed.

Lemma high_char c : 128 <= byte_of c -> c <> quote /\ c <> backslash /\ 32 <= byte_of c.
Proof. intros H. split_and!; [by intros ->..|lia]. Qed.

Lemma body_high k b : high k -> body b -> body (k ++ b).
Proof. intros Hk Hb. induction Hk as [|c k Hc _ IH]; [done|]. apply high_char in Hc as (? & ? & ?). by constructor. Qed.

Lemma body_drop_high k b : high k -> body (k ++ b) -> body b.
Proof.
  induction 1 as [|c k Hc _ IH]; [done|]. apply high_char in Hc as (_ & Hc & _). intros Hb.
  inversion Hb; subst; [by apply IH|done..].
Qed.

Lemma hex4_digits h1 h2 h3 h4 v : hex4 [h1; h2; h3; h4] = Some (v, []) -> Forall (fun h => byte_of h < 128) [h1; h2; h3; h4].
Proof. by intros (_ & _ & H)%hex4_range. Qed.

Lemma replaced_body b t : body b -> replaced b t -> body t.
Proof.
  remember (length b) as n eqn:Hn. revert b t Hn. induction n as [n IH] using lt_wf_ind. intros b t -> Hb Hr.
  inversion Hr as [|c s t' Hc Hr'|k w s t' Hk Hne Hw Hv Hr']; subst; [done| |].
  - inversion Hb as [|c' b1 Hq Hbs H32 Hb1|e v b1 He Hv Hb1|h1 h2 h3 h4 v b1 Hh Hb1]; subst.
    + constructor; [done..|]. by eapply (IH (length s)); [simpl; lia|..].
    + destruct (escape_val_ascii _ _ Hv) as [Hea _]. destruct (replaced_cons _ _ _ Hea Hr') as (t1 & -> & Hr1).
      apply (body_escape _ v); [done..|]. eapply (IH (length b1)); [simpl; lia|done..].
    + destruct (replaced_cons "u"%char _ _ eq_refl Hr') as (t0 & -> & Hr0). apply hex4_digits in Hh as Ha.
      do 4 (apply Forall_cons in Ha as [Hx Ha]; destruct (replaced_cons _ _ _ Hx Hr0) as (? & -> & Hr1); clear Hr0 Hx; rename Hr1 into Hr0).
      apply (body_u _ _ _ _ v); [done|]. by apply (IH (length b1)) with b1; [cbn [length]; lia|..].
  - apply body_high; [done|]. eapply (IH (length s)); [|done|exact (body_drop_high _ _ Hk Hb)|done].
    rewrite length_app. destruct k; [done|simpl; lia].
Qed.

Lemma replace_string b : body b ->
  exists t, replaceInvalidUTF8 (string_text b) = string_text t /\ body t /\ Valid t = true.
Proof.
  intros Hb. pose proof (replaceInvalidUTF8_replaced (string_text b)) as Hr. pose proof (replace_Valid (string_text b)) as Hv.
  unfold string_text in *.
  destruct (replaced_cons quote _ _ eq_refl Hr) as (t' & Ht & Hr'). destruct (replaced_at _ quote _ _ eq_refl Hr') as (t & t2 & -> & H1 & H2).
  inversion H2 as [| |k w s t0 Hk Hne Hw Hv' Hr0 Heq]; subst; [|by destruct k]. rewrite Ht. exists t. split; [done|].
  split; [by eapply replaced_body|]. rewrite Ht in Hv. apply (Valid_ascii_cons quote) in Hv; [|done]. by apply (Valid_ascii t quote []) in Hv as [? _].
Qed.

(** ** Half pairs *)

Lemma fix_char c b : c <> backslash -> fixSurrogates (c :: b) = c :: fixSurrogates b.
Proof. intros H. cbn [fixSurrogates]. by rewrite (bool_decide_eq_false_2 _ H). Qed.

Lemma surrogateAt_not_u e h : e <> "u"%char -> surrogateAt (backslash :: e :: h) = None.
Proof. intros He. cbn [surrogateAt]. by rewrite bool_decide_eq_true_2 // (bool_decide_eq_false_2 _ He). Qed.

Lemma fix_escape e b : e <> "u"%char -> fixSurrogates (backslash :: e :: b) = backslash :: e :: fixSurrogates b.
Proof.
  intros He. cbn [fixSurrogates]. rewrite bool_decide_eq_true_2 //. cbn [negb].
  destruct b as [|h1 [|h2 [|h3 [|h4 b]]]]; try done. by rewrite surrogateAt_not_u.
Qed.

Lemma fix_u h1 h2 h3 h4 hi b : hex4 [h1; h2; h3; h4] = Some (hi, []) ->
  fixSurrogates (backslash :: "u"%char :: h1 :: h2 :: h3 :: h4 :: b) =
  if is_surrogate hi then
    match second_half b with
    | Some b' => if is_high hi then backslash :: "u"%char :: h1 :: h2 :: h3 :: h4 :: take 6 b ++ fixSurrogates b'
                 else replacement ++ fixSurrogates b
    | None => replacement ++ fixSurrogates b
    end
  else backslash :: "u"%char :: h1 :: h2 :: h3 :: h4 :: fixSurrogates b.
Proof.
  intros Hh. cbn [fixSurrogates]. rewrite bool_decide_eq_true_2 //. cbn [negb surrogateAt].
  rewrite bool_decide_eq_true_2 // bool_decide_eq_true_2 //. cbn [andb]. rewrite Hh.
  assert (is_surrogate hi = is_high hi || is_low hi) as ->.
  { unfold is_surrogate, is_high, is_low. apply eq_true_iff_eq. rewrite orb_true_iff !andb_true_iff !Z.leb_le. lia. }
  destruct (is_high hi) eqn:Hhi; cbn [orb].
  - destruct b as [|x1 [|x2 [|x3 [|x4 [|x5 [|x6 b]]]]]]; try done. cbn [second_half surrogateAt].
    destruct (_ && _); [|done]. destruct (hex4 [x3; x4; x5; x6]) as [[lo y]|]; [|done]. by destruct (is_low lo).
  - destruct (is_low hi); [|done]. by destruct (second_half b).
Qed.

Lemma second_half_inv b b' : second_half b = Some b' ->
  exists k1 k2 k3 k4 lo, b = backslash :: "u"%char :: k1 :: k2 :: k3 :: k4 :: b' /\
    hex4 [k1; k2; k3; k4] = Some (lo, []) /\ is_low lo = true.
Proof.
  destruct b as [|c [|u [|k1 [|k2 [|k3 [|k4 l]]]]]]; try done. cbn [second_half].
  destruct (bool_decide (c = backslash)) eqn:Hc; [|done]. destruct (bool_decide (u = "u"%char)) eqn:Hu; [|done]. bool_prop. subst c u.
  cbn [andb]. destruct (hex4 [k1; k2; k3; k4]) as [[lo x]|] eqn:Hk; [|done]. destruct (is_low lo) eqn:Hl; [|done].
  intros [= ->]. destruct (hex4_range _ _ _ _ _ _ Hk) as (_ & -> & _). by exists k1, k2, k3, k4, lo.
Qed.

Lemma DecodeRune_halves hi lo : is_high hi = true -> is_low lo = true -> (DecodeRune hi lo =? RuneError) = false.
Proof.
  unfold is_high, is_low. rewrite !andb_true_iff !Z.leb_le. intros H1 H2. unfold DecodeRune.
  assert ((55296 <=? hi) && (hi <? 56320) && (56320 <=? lo) && (lo <? 57344) = true) as ->.
  { rewrite !andb_true_iff !Z.leb_le !Z.ltb_lt. lia. }
  apply Z.eqb_neq. unfold RuneError. lia.
Qed.

(** Resolving escapes pairs the halves fixing keeps. *)
Lemma other_half_None hi b : is_high hi = false \/ second_half b = None -> other_half hi b = None.
Proof.
  intros H. destruct (other_half hi b) as [[lo b']|] eqn:Ho; [|done]. exfalso.
  destruct b as [|c [|u [|k1 [|k2 [|k3 [|k4 l]]]]]]; try done. cbn [other_half] in Ho.
  set (v := default (-1) (fst <$> hex4 [k1; k2; k3; k4])) in Ho.
  destruct (bool_decide (c = backslash) && bool_decide (u = "u"%char)) eqn:Hcu; [|done]. cbn [andb] in Ho.
  destruct (DecodeRune hi v =? RuneError) eqn:Hd; [done|]. unfold DecodeRune in Hd.
  destruct ((55296 <=? hi) && (hi <? 56320) && (56320 <=? v) && (v <? 57344)) eqn:Hr; [|by rewrite Z.eqb_refl in Hd].
  rewrite !andb_true_iff !Z.leb_le !Z.ltb_lt in Hr. destruct H as [H|H].
  - unfold is_high in H. apply andb_false_iff in H. rewrite !Z.leb_gt in H. lia.
  - cbn [second_half] in H. rewrite Hcu in H. unfold v in Hr. destruct (hex4 [k1; k2; k3; k4]) as [[w x]|]; [|simpl in Hr; lia].
    cbn in Hr. destruct (is_low w) eqn:Hl; [done|]. unfold is_low in Hl. apply andb_false_iff in Hl. rewrite !Z.leb_gt in Hl. lia.
Qed.

Lemma replacement_high : high replacement.
Proof. apply EncodeRune_high; [by apply scalar_range; unfold RuneError; lia|done]. Qed.

Lemma paired_high k b : high k -> paired b -> paired (k ++ b).
Proof. intros Hk Hb. induction Hk as [|c k Hc _ IH]; [done|]. apply high_char in Hc as (? & ? & _). by constructor. Qed.

Lemma unescape_high k b : high k -> unescape (k ++ b) = k ++ unescape b.
Proof.
  induction 1 as [|c k Hc _ IH]; [done|]. apply high_char in Hc as (_ & ? & _). cbn [app]. by rewrite unescape_char // IH.
Qed.

Definition unit_text (h1 h2 h3 h4 : ascii) : list ascii := [backslash; "u"%char; h1; h2; h3; h4].

Lemma unit_ascii h1 h2 h3 h4 v : hex4 [h1; h2; h3; h4] = Some (v, []) -> ascii_only (unit_text h1 h2 h3 h4).
Proof. intros Ha%hex4_digits. by do 2 (constructor; [done|]). Qed.

Lemma Valid_ascii_app k b : ascii_only k -> Valid b = true -> Valid (k ++ b) = true.
Proof. intros Hk Hb. apply Valid_app; [by apply Valid_ascii_only|done]. Qed.

(** What fixing makes of the body of a string. *)
Record fixed (b t : list ascii) : Prop := {
  fx_body : body t;
  fx_paired : paired t;
  fx_same : unescape t = unescape b;
  fx_valid : Valid b = true -> Valid t = true
}.

Lemma fixed_prefix k b t : ascii_only k -> (body t -> body (k ++ t)) -> (paired t -> paired (k ++ t)) ->
  (unescape t = unescape b -> unescape (k ++ t) = unescape (k ++ b)) -> fixed b t -> fixed (k ++ b) (k ++ t).
Proof.
  intros Hk Hb Hp Hu [H1 H2 H3 H4]. split; [by apply Hb|by apply Hp|by apply Hu|].
  intros Hv. apply Valid_ascii_app; [done|]. by apply H4, (Valid_drop_ascii k).
Qed.

Lemma fixed_lone h1 h2 h3 h4 hi b t : hex4 [h1; h2; h3; h4] = Some (hi, []) -> is_surrogate hi = true ->
  is_high hi = false \/ second_half b = None -> fixed b t -> fixed (unit_text h1 h2 h3 h4 ++ b) (replacement ++ t).
Proof.
  intros Hh Hs Ho [H1 H2 H3 H4]. split.
  - by apply body_high; [apply replacement_high|].
  - by apply paired_high; [apply replacement_high|].
  - rewrite unescape_high; [|apply replacement_high]. rewrite H3. cbn [app unit_text].
    rewrite (unescape_u _ _ _ _ _ _ Hh) Hs other_half_None //.
  - intros Hv. apply (Valid_drop_ascii (unit_text h1 h2 h3 h4)) in Hv; [|by eapply unit_ascii]. by apply Valid_app; [|apply H4].
Qed.

Lemma is_high_surrogate r : is_high r = true -> is_surrogate r = true.
Proof. unfold is_high, is_surrogate. rewrite !andb_true_iff !Z.leb_le. lia. Qed.

Lemma fixed_pair h1 h2 h3 h4 k1 k2 k3 k4 hi lo b t :
  hex4 [h1; h2; h3; h4] = Some (hi, []) -> is_high hi = true -> hex4 [k1; k2; k3; k4] = Some (lo, []) -> is_low lo = true ->
  fixed b t -> fixed ((unit_text h1 h2 h3 h4 ++ unit_text k1 k2 k3 k4) ++ b) ((unit_text h1 h2 h3 h4 ++ unit_text k1 k2 k3 k4) ++ t).
Proof.
  intros Hh Hhi Hk Hlo. pose proof (is_high_surrogate _ Hhi) as Hs.
  assert (forall x, other_half hi (unit_text k1 k2 k3 k4 ++ x) = Some (lo, x)) as Ho.
  { intros x. cbn [app unit_text other_half]. rewrite Hk. cbn. rewrite DecodeRune_halves //. }
  apply fixed_prefix.
  - apply Forall_app; split; by eapply unit_ascii.
  - intros Hb. cbn [app unit_text]. apply (body_u _ _ _ _ hi); [done|]. by apply (body_u _ _ _ _ lo).
  - intros Hb. by apply (paired_pair _ _ _ _ _ _ _ _ hi lo).
  - intros Hu. rewrite -!app_assoc. cbn [app unit_text]. rewrite !(unescape_u _ _ _ _ _ _ Hh) Hs.
    change (backslash :: "u"%char :: k1 :: k2 :: k3 :: k4 :: t) with (unit_text k1 k2 k3 k4 ++ t).
    change (backslash :: "u"%char :: k1 :: k2 :: k3 :: k4 :: b) with (unit_text k1 k2 k3 k4 ++ b). by rewrite !Ho Hu.
Qed.

Lemma fix_high k b : high k -> fixSurrogates (k ++ b) = k ++ fixSurrogates b.
Proof.
  induction 1 as [|c k Hc _ IH]; [done|]. apply high_char in Hc as (_ & ? & _). cbn [app]. by rewrite fix_char // IH.
Qed.

(** A valid text that starts past ASCII starts with a rune past it. *)
Lemma Valid_high_inv c b : 128 <= byte_of c -> Valid (c :: b) = true ->
  exists k b', c :: b = k ++ b' /\ k <> [] /\ high k /\ Valid k = true /\ Valid b' = true.
Proof.
  intros Hc Hv. apply Valid_rune_inv in Hv as [|(r & b' & Hs & Heq & Hv)]; [done|]. exists (EncodeRune r), b'.
  split; [done|]. split; [by destruct (EncodeRune_shape r Hs) as [[_ ->]|[[_ ->]|[[_ ->]|[_ ->]]]]|].
  split; [|by split; [apply Valid_scalar|]]. apply EncodeRune_high; [done|]. by eapply EncodeRune_head_high.
Qed.

(** Fixing a string fixes its body, and goes on after its quote. *)
Lemma fix_body b : body b -> fixed b (fixSurrogates b) /\
  forall r, fixSurrogates (b ++ quote :: r) = fixSurrogates b ++ quote :: fixSurrogates r.
Proof.
  remember (length b) as n eqn:Hn. revert b Hn. induction n as [n IH] using lt_wf_ind. intros b -> Hb.
  inversion Hb as [|c b1 Hq Hbs H32 Hb1|e v b1 He Hv Hb1|h1 h2 h3 h4 hi b1 Hh Hb1]; subst.
  - split; [by split; try constructor|]. intros r. cbn [app]. by rewrite fix_char.
  - destruct (IH (length b1) ltac:(simpl; lia) b1 eq_refl Hb1) as [[H1 H2 H3 H4] Hr]. split.
    2: { intros r. cbn [app]. by rewrite !fix_char // Hr. }
    rewrite fix_char //. split; [by constructor..|by rewrite !unescape_char // H3|]. intros Hval.
    destruct (Z.lt_ge_cases (byte_of c) 128) as [Hc|Hc].
    { apply (Valid_ascii_r []); [done..|]. by apply H4, (Valid_ascii_cons c). }
    apply Valid_high_inv in Hval as (k & b' & Heq & Hne & Hk & Hvk & Hvb); [|done].
    rewrite -fix_char // Heq fix_high //. apply Valid_app; [done|].
    rewrite Heq in Hb IH. apply body_drop_high in Hb; [|done]. destruct (IH (length b')) with b' as [[_ _ _ Hf] _]; [|done..|by apply Hf].
    rewrite length_app. destruct k; [done|simpl; lia].
  - destruct (IH (length b1) ltac:(simpl; lia) b1 eq_refl Hb1) as [Hf Hr]. destruct (escape_val_ascii _ _ Hv) as [Hea _]. split.
    + rewrite fix_escape //. apply (fixed_prefix [backslash; e]); [by repeat constructor|..|done].
      * by apply (body_escape _ v).
      * by apply paired_escape.
      * intros Hu. cbn [app]. by rewrite !(unescape_escape _ v) // Hu.
    + intros r. cbn [app]. by rewrite !fix_escape // Hr.
  - destruct (IH (length b1) ltac:(simpl; lia) b1 eq_refl Hb1) as [Hf Hr].
    assert (forall r, fixSurrogates (backslash :: "u"%char :: h1 :: h2 :: h3 :: h4 :: b1 ++ quote :: r) =
      if is_surrogate hi then
        match second_half b1 with
        | Some b' => if is_high hi then unit_text h1 h2 h3 h4 ++ take 6 b1 ++ fixSurrogates (b' ++ quote :: r)
                     else replacement ++ fixSurrogates (b1 ++ quote :: r)
        | None => replacement ++ fixSurrogates (b1 ++ quote :: r)
        end
      else unit_text h1 h2 h3 h4 ++ fixSurrogates (b1 ++ quote :: r)) as Htail.
    { intros r. rewrite (fix_u _ _ _ _ _ _ Hh) second_half_body //. destruct (is_surrogate hi); [|done].
      destruct (second_half b1) as [b'|] eqn:Hs2; [|done]. cbn [fmap option_fmap option_map].
      apply second_half_inv in Hs2 as (k1 & k2 & k3 & k4 & lo & -> & _ & _). done. }
    cbn [app]. rewrite (fix_u _ _ _ _ _ _ Hh). destruct (is_surrogate hi) eqn:Hs.
    2: { split; [|intros r; by rewrite Htail Hr]. apply (fixed_prefix (unit_text h1 h2 h3 h4)); [by eapply unit_ascii| | | |done].
         - by apply (body_u _ _ _ _ hi).
         - by apply (paired_unit _ _ _ _ hi).
         - intros Hu. cbn [app unit_text]. by rewrite !(unescape_u _ _ _ _ _ _ Hh) Hs Hu. }
    destruct (second_half b1) as [b'|] eqn:Hs2; [destruct (is_high hi) eqn:Hhi|].
    + destruct (second_half_Some _ _ Hb1 Hs2) as [Hb' Hlen].
      destruct (IH (length b') ltac:(simpl; lia) b' eq_refl Hb') as [Hf' Hr'].
      apply second_half_inv in Hs2 as (k1 & k2 & k3 & k4 & lo & -> & Hk & Hlo). split.
      * by apply (fixed_pair h1 h2 h3 h4 k1 k2 k3 k4 hi lo b' (fixSurrogates b')).
      * intros r. by rewrite Htail Hr'.
    + split; [|intros r; by rewrite Htail Hr -app_assoc]. apply (fixed_lone _ _ _ _ hi); [done..|by left|done].
    + split; [|intros r; by rewrite Htail Hr -app_assoc]. apply (fixed_lone _ _ _ _ hi); [done..|by right|done].
Qed.

(** Fixing leaves a body with no half pair as it is. *)
Lemma fix_paired b : paired b -> fixSurrogates b = b.
Proof.
  induction 1 as [|c b Hq Hb _ IH|e b He _ IH|h1 h2 h3 h4 r b Hh Hr _ IH|h1 h2 h3 h4 k1 k2 k3 k4 hi lo b Hh Hhi Hk Hlo _ IH].
  - done.
  - by rewrite fix_char // IH.
  - by rewrite fix_escape // IH.
  - by rewrite (fix_u _ _ _ _ _ _ Hh) Hr IH.
  - rewrite (fix_u _ _ _ _ _ _ Hh) is_high_surrogate // Hhi. cbn [second_half]. rewrite !bool_decide_eq_true_2 //.
    cbn [andb]. by rewrite Hk Hlo IH.
Qed.

(** ** String literals *)

Lemma fix_string b : body b -> fixSurrogates (string_text b) = string_text (fixSurrogates b).
Proof. intros Hb. unfold string_text. rewrite fix_char //. by rewrite (proj2 (fix_body b Hb) []). Qed.

Lemma string_text_inj b b' : string_text b = string_text b' -> b = b'.
Proof. unfold string_text. intros [= H]. by apply app_inv_tail in H. Qed.

Lemma hasLone_paired b : body b -> hasLoneSurrogate (string_text b) = false <-> paired b.
Proof.
  intros Hb. unfold hasLoneSurrogate. rewrite negb_false_iff bool_decide_eq_true fix_string //. split.
  - intros <-%string_text_inj. by apply fix_body.
  - by intros ->%fix_paired.
Qed.

Lemma Valid_string_body b : Valid (string_text b) = Valid b.
Proof.
  apply eq_true_iff_eq. split; [|apply Valid_string_text]. intros H. apply (Valid_ascii_cons quote) in H; [|done].
  by apply (Valid_ascii b quote []) in H as [? _].
Qed.

(** ** Numbers

    A number the number rule refuses is a whole one its nearest double is not, or
    one with no finite double; the first is written as its double, which passes the
    rule and reads as what the number reads as ([norm_number_change]). *)

(** A literal whose nearest double is finite. *)
Definition finite_literal (x : Literal) : Prop :=
  l_digits x = 0 \/
  exists neg m e, let k := exact_exp x - Z.of_nat (length (l_frac x)) in
    round64 (l_neg x) (dec_num (l_digits x) k) (dec_den k) = Finite neg m e.

(** A literal [math/big] reads: its exponent is an int64, and unless its digits are
    all zero, the power of ten they are times is a million at most either way. *)
Definition exponent_read (x : Literal) : Prop :=
  - 2 ^ 63 <= exact_exp x < 2 ^ 63 /\ (l_digits x = 0 \/ Z.abs (exact_exp x - Z.of_nat (length (l_frac x))) <= 10 ^ 6).

(** A literal [math/big] reads, and finds a double near to. *)
Definition finite_number (lit : list ascii) : Prop :=
  exists r neg m e, SetString lit = Some r /\ (Float64 r).1 = Finite neg m e.

(** [strconv] reads an exponent of at most five digits as it is spelled, where
    [math/big] reads every one. *)
Definition small_exponent (n : parts) : Prop := digits_val (exp_parts (n_exp n)).2 < 100000.

Lemma capped_five ds : all_digits ds -> digits_val ds < 100000 ->
  foldl (fun e c => if e <? 10000 then e * 10 + digit_val c else e) 0 ds = digits_val ds.
Proof.
  induction ds as [|c ds IH] using rev_ind; intros Hd Hb; [done|].
  apply all_digits_app in Hd as [Hd Hc]. unfold all_digits in Hc. cbn [forallb] in Hc. apply andb_true_iff in Hc as [Hc _].
  apply is_digit_val in Hc. pose proof (digits_val_bound ds Hd) as Hv.
  rewrite digits_val_app digits_val_cons in Hb |- *. cbn [length] in *. change (digits_val []) with 0 in *.
  change (10 ^ Z.of_nat 1) with 10 in *. change (10 ^ Z.of_nat 0) with 1 in *.
  rewrite foldl_app IH; [|done|lia]. cbn [foldl]. decide_bool (digits_val ds <? 10000) true. lia.
Qed.

Lemma exp_parts_digits e : ok_exp e -> all_digits (exp_parts e).2.
Proof.
  intros [->|(c & s & ds & -> & _ & Hs & Hd & Hne)]; [done|]. destruct Hs as [->|[-> | ->]]; [|done..].
  destruct ds as [|d ds]; [done|]. cbn [app exp_parts]. by repeat destruct (bool_decide _); try done; apply (all_digits_app [d]) in Hd as [_ ?].
Qed.

Lemma round_pos_below p q m e : 0 < p -> 0 < q -> round_pos p q = (m, e) -> e <= emax -> p < q * 2 ^ 1024.
Proof.
  intros Hp Hq Hr He. destruct (ilog2_spec p q Hp Hq) as [_ Hi]. unfold round_pos in Hr. set (i := ilog2 p q) in *.
  assert (i <= 1023) as Hi'.
  { unfold emax in *. destruct (_ =? 2 ^ 53) in Hr; injection Hr as _ <-; lia. }
  destruct (Z.lt_ge_cases (i + 1) 0) as [Hneg|Hpos].
  - rewrite (up_nonpos 2 (i + 1)) in Hi; [|lia]. pose proof (up_pos 2 (- (i + 1)) ltac:(lia)).
    assert (1 <= 2 ^ 1024) by (vm_compute; discriminate). nia.
  - rewrite (up_nonneg 2 (i + 1)) in Hi; [|lia]. rewrite (up_nonpos 2 (- (i + 1))) in Hi; [|lia].
    assert (2 ^ (i + 1) <= 2 ^ 1024) by (apply Z.pow_le_mono_r; lia). nia.
Qed.

Lemma round64_round_pos neg p q neg' m e : 0 < p -> round64 neg p q = Finite neg' m e ->
  neg' = neg /\ round_pos p q = (m, e) /\ e <= emax.
Proof.
  intros Hp. unfold round64. decide_bool (p =? 0) false. destruct (round_pos p q) as [m' e'].
  destruct (Z.ltb_spec emax e'); intros [= <- <- <-]. done.
Qed.

(** The decimal point of a whole number a finite double is near. *)
Lemma whole_point d k m e : 0 < d -> dec_num d k mod dec_den k = 0 -> round_pos (dec_num d k) (dec_den k) = (m, e) -> e <= emax ->
  1 <= Z.of_nat (length (digits_of d)) + k <= 310.
Proof.
  intros Hd Hint Hr He. pose proof (dec_num_pos d k Hd) as Hn. pose proof (dec_den_pos k) as Hden.
  apply (round_pos_below _ _ _ _ Hn Hden) in Hr; [|done].
  assert (dec_den k <= dec_num d k) as Hge by (apply Z.mod_divide in Hint as [x Hx]; [assert (0 < x) by nia; nia|lia]). unfold dec_num, dec_den in *.
  destruct (Z.lt_ge_cases k 0) as [Hk|Hk].
  - rewrite (up_nonpos 10 k) in Hge, Hr; [|lia..]. rewrite (up_nonneg 10 (- k)) in Hge, Hr; [|lia..]. split.
    + assert (- k < Z.of_nat (length (digits_of d))); [|lia]. apply digits_length; lia.
    + destruct (Z.le_gt_cases (Z.of_nat (length (digits_of d)) + k) 310) as [|Hgt]; [done|]. exfalso.
      assert (10 ^ (- k + 310) <= d) as H by (apply digits_length; lia). rewrite Z.pow_add_r in H; [|lia..].
      assert (2 ^ 1024 < 10 ^ 310) by (vm_compute; reflexivity). nia.
  - rewrite (up_nonneg 10 k) in Hge, Hr; [|lia..]. rewrite (up_nonpos 10 (- k)) in Hge, Hr; [|lia..].
    destruct (digits_length_pos d) as [?|?]; [|lia]. split; [lia|].
    destruct (Z.le_gt_cases (Z.of_nat (length (digits_of d)) + k) 310) as [|Hgt]; [done|]. exfalso.
    assert (2 ^ 1024 < 10 ^ 310) by (vm_compute; reflexivity).
    assert (0 < 10 ^ k) by (apply Z.pow_pos_nonneg; lia).
    destruct (Z.le_gt_cases 310 k) as [Hk310|Hk310].
    + assert (10 ^ 310 <= 10 ^ k) by (apply Z.pow_le_mono_r; lia). nia.
    + assert (10 ^ (310 - k) <= d) as Hlow by (apply digits_length; lia).
      replace (10 ^ 310) with (10 ^ (310 - k) * 10 ^ k) in * by (rewrite -Z.pow_add_r; [f_equal|..]; lia). nia.
Qed.

(** Where [math/big] and [strconv] both read a whole number, they read one. *)
Lemma SetString_ParseFloat n r neg m e : number_ok n -> small_exponent n -> SetString (number_text n) = Some r ->
  IsInt r = true -> r_num r <> 0 -> (Float64 r).1 = Finite neg m e -> ParseFloat (number_text n) = Some (Finite neg m e).
Proof.
  intros Hok Hsm Hs Hint Hne Hf. unfold SetString in Hs. unfold ParseFloat. rewrite read_literal_text // in Hs |- *.
  set (x := literal_of n) in *.
  assert (capped_exp x = exact_exp x) as Hcap.
  { unfold capped_exp, exact_exp. rewrite capped_five //. unfold x, literal_of. cbn [l_exp]. by apply exp_parts_digits, Hok. }
  rewrite Hcap. destruct (_ || _); [done|]. destruct (Z.eqb_spec (l_digits x) 0) as [|Hd]; [by injection Hs as <-|].
  set (k := exact_exp x - Z.of_nat (length (l_frac x))) in *. destruct (10 ^ 6 <? Z.abs k); [done|]. injection Hs as <-.
  assert (0 < l_digits x) as Hpos.
  { pose proof (read_literal_digits (number_text n) x). rewrite read_literal_text // in H. specialize (H eq_refl). lia. }
  unfold IsInt in Hint. cbn [r_num r_den r_neg Float64 fst] in *. apply Z.eqb_eq in Hint.
  destruct (round64_round_pos _ _ _ _ _ _ (dec_num_pos _ k Hpos) Hf) as (-> & Hr & He).
  pose proof (whole_point _ _ _ _ Hpos Hint Hr He) as Hpt.
  decide_bool (310 <? Z.of_nat (length (digits_of (l_digits x))) + k) false.
  decide_bool (Z.of_nat (length (digits_of (l_digits x))) + k <? -330) false. by rewrite Hf.
Qed.

(** What the number rule refuses of a literal that has a finite double. *)
Lemma CheckNumber_refuses lit r neg m e err : SetString lit = Some r -> (Float64 r).1 = Finite neg m e ->
  CheckNumber lit = Err err -> IsInt r = true /\ r_num r <> 0.
Proof.
  intros Hs Hf Hc. split.
  - destruct (IsInt r) eqn:Hi; [done|]. unfold CheckNumber in Hc. rewrite Hs in Hc. destruct (Float64 r) as [f ex].
    cbn [fst] in Hf. by rewrite Hf Hi in Hc.
  - intros H0. unfold CheckNumber in Hc. rewrite Hs in Hc. unfold Float64, round64 in Hc. rewrite H0 in Hc. cbn in Hc.
    by rewrite andb_false_r in Hc.
Qed.

Lemma SetString_positive lit r : SetString lit = Some r -> 0 <= r_num r /\ 0 < r_den r.
Proof.
  unfold SetString. destruct (read_literal lit) as [x|] eqn:Hx; [|done]. apply read_literal_digits in Hx.
  destruct (_ || _); [done|]. destruct (_ =? 0); [by intros [= <-]|]. destruct (_ <? _); [done|]. intros [= <-].
  cbn [r_num r_den]. split; [|apply dec_den_pos]. unfold dec_num.
  pose proof (up_pos 10 (exact_exp x - Z.of_nat (length (l_frac x))) ltac:(lia)). nia.
Qed.

Lemma Float64_finite lit r neg m e : SetString lit = Some r -> (Float64 r).1 = Finite neg m e -> finite_double (Finite neg m e).
Proof. intros Hs Hf. apply SetString_positive in Hs as [H1 H2]. exact (round64_finite _ _ _ _ _ _ H1 H2 Hf). Qed.

(** A number changed: its double written, which passes the rule, and is the same
    number to the canonical form. *)
Lemma norm_number_change at_ n src repl ch : number_ok n -> norm_number at_ (number_text n) src = Ok (Some (repl, ch)) ->
  ch = changed_was at_ src /\ exists p, repl = number_text p /\ number_ok p /\ CheckNumber (number_text p) = Ok tt /\
  (small_exponent n -> write (JNumber (number_text p)) = write (JNumber (number_text n))).
Proof.
  intros Hok. unfold norm_number. destruct (CheckNumber (number_text n)) as [|err] eqn:Hc; [done|].
  destruct (SetString (number_text n)) as [r|] eqn:Hs; [|done].
  destruct (Float64 r).1 as [neg m e| |] eqn:Hf; [|done|done]. destruct (FormatNumber (Finite neg m e)) as [t|] eqn:Ht; [|done].
  intros [= <- <-]. split; [done|]. pose proof (Float64_finite _ _ _ _ _ Hs Hf) as Hfin.
  destruct (FormatNumber_parses _ _ Hfin Ht) as (p & f' & Hp & -> & Hpf & Hf'). exists p. split; [done|]. split; [done|].
  split; [by eapply FormatNumber_checks|]. intros Hsm. destruct (CheckNumber_refuses _ _ _ _ _ _ Hs Hf Hc) as [Hint Hne].
  cbn [write]. by rewrite Hpf Hf' (SetString_ParseFloat _ _ _ _ _ Hok Hsm Hs Hint Hne Hf) Ht.
Qed.

Lemma round64_number neg p q : round64 neg p q <> NaN.
Proof. unfold round64. destruct (_ =? 0); [done|]. destruct (round_pos p q). by destruct (_ <? _). Qed.

(** The literals read, and near a double, are those with an exponent in the bounds
    and a finite nearest double. *)
Lemma finite_number_literal n : number_ok n ->
  finite_number (number_text n) <-> exponent_read (literal_of n) /\ finite_literal (literal_of n).
Proof.
  intros Hok. unfold finite_number, exponent_read, finite_literal, SetString. rewrite read_literal_text //. set (x := literal_of n).
  set (k := exact_exp x - Z.of_nat (length (l_frac x))). split.
  - intros (r & neg & m & e & Hs & Hf). destruct (_ || _) eqn:He; [done|]. apply orb_false_iff in He as [He1%Z.ltb_ge He2%Z.leb_gt].
    destruct (Z.eqb_spec (l_digits x) 0) as [|Hd]; [by split; [split; [lia|left]|left]|].
    destruct (Z.ltb_spec (10 ^ 6) (Z.abs k)) as [|Hk]; [done|]. injection Hs as <-. split; [split; [lia|by right]|right]. by exists neg, m, e.
  - intros [[He Hk] Hf]. assert ((exact_exp x <? - 2 ^ 63) || (2 ^ 63 <=? exact_exp x) = false) as ->.
    { apply orb_false_iff. split; [apply Z.ltb_ge|apply Z.leb_gt]; lia. }
    destruct (Z.eqb_spec (l_digits x) 0) as [|Hd]; [by do 4 eexists|]. destruct Hk as [|Hk]; [done|]. destruct Hf as [|(neg & m & e & Hf)]; [done|].
    destruct (Z.ltb_spec (10 ^ 6) (Z.abs k)) as [|_]; [lia|]. by do 4 eexists.
Qed.

(** The one fault a number may have. *)
Lemma norm_number_total at_ n src :
  (finite_number (number_text n) -> exists c, norm_number at_ (number_text n) src = Ok c) /\
  (~ finite_number (number_text n) -> norm_number at_ (number_text n) src = Err ErrNotIJSON).
Proof.
  unfold norm_number. split.
  - intros (r & neg & m & e & Hs & Hf). destruct (CheckNumber _); [by eexists|]. rewrite Hs Hf.
    destruct (FormatNumber_total _ (Float64_finite _ _ _ _ _ Hs Hf)) as [t ->]. by eexists.
  - intros Hn. destruct (CheckNumber (number_text n)) as [|err] eqn:Hc.
    + exfalso. unfold CheckNumber in Hc. destruct (SetString (number_text n)) as [r|] eqn:Hs; [|done].
      apply Hn. exists r. destruct (Float64 r) as [f ex]. destruct f as [neg m e| |]; [|done..]. by exists neg, m, e.
    + destruct (SetString (number_text n)) as [r|] eqn:Hs; [|done]. destruct (Float64 r).1 as [neg m e| |] eqn:Hf; [|done|].
      * exfalso. apply Hn. by exists r, neg, m, e.
      * exfalso. unfold Float64 in Hf. by eapply round64_number.
Qed.
