(* ===== verification/NormaliseWalk.v ===== *)
(** * The loop of normalisation, and what it does to a value

    [norm_raw]: a document's value as normalisation leaves it, with the record of
    what changed.  Where the scanner reads a value, the loop reads its tokens,
    and the text with its edits made is read as that value ([norm_walk]);
    [norm_document] says so of a document. *)
From S2P Require Import Prelude Entry Strconv StrconvProps Utf8 Json Jcs Ijson Utf8Props NumberProps JsonProps JsonTokens IjsonProps.
From S2P Require Import JcsProps JsonPrint JcsRoundtrip Normalise NormaliseText.
Open Scope session_scope.
Local Open Scope Z_scope.

(** ** The text with its edits made *)

Definition starts_in (r : list ascii) (es : list edit) : Prop :=
  match es with e :: _ => (length (ed_start e) <= length r)%nat | [] => True end.

(** Between [l] and what is left at [r], the edits make [out] of the input. *)
Definition rewrites (l r : list ascii) (es : list edit) (out : list ascii) : Prop :=
  (length r <= length l)%nat /\
  forall es', starts_in r es' -> starts_in l (es ++ es') /\ splice l (es ++ es') = out ++ splice r es'.

Lemma rewrites_plain s r : rewrites (s ++ r) r [] s.
Proof.
  split; [rewrite length_app; lia|]. intros [|e es] H; [done|]. cbn [app starts_in splice] in *. split; [rewrite length_app; lia|].
  rewrite length_app take_app. replace (length s + length r - length (ed_start e) - length s)%nat with (length r - length (ed_start e))%nat by lia.
  rewrite take_ge; [|lia]. by rewrite -app_assoc.
Qed.

Lemma rewrites_edit src r repl : rewrites (src ++ r) r [mkEdit (src ++ r) r repl] repl.
Proof.
  split; [rewrite length_app; lia|]. intros es _. cbn [app starts_in splice ed_start ed_end ed_repl]. split; [done|].
  by rewrite Nat.sub_diag.
Qed.

Lemma rewrites_app l m r es es' out out' : rewrites l m es out -> rewrites m r es' out' -> rewrites l r (es ++ es') (out ++ out').
Proof.
  intros [Hl1 H1] [Hl2 H2]. split; [lia|]. intros es2 Hs. destruct (H2 es2 Hs) as [Hs' H2']. rewrite -app_assoc.
  destruct (H1 _ Hs') as [? ->]. split; [done|]. by rewrite H2' -app_assoc.
Qed.

(** ** White space *)

Definition ws (w : list ascii) : Prop := Forall (fun c => isSpace c = true) w.

Lemma skipWS_split l : exists w, ws w /\ l = w ++ skipWS l.
Proof.
  induction l as [|c l (w & Hw & Hl)]; [by exists []; split; [constructor|]|]. cbn [skipWS].
  destruct (isSpace c) eqn:Hc; [|by exists []; split; [constructor|]]. exists (c :: w). split; [by constructor|]. cbn [app]. by f_equal.
Qed.

Lemma skipWS_ws w l : ws w -> skipWS (w ++ l) = skipWS l.
Proof. induction 1 as [|c w Hc _ IH]; [done|]. cbn [app skipWS]. by rewrite Hc. Qed.

Lemma skipWS_ws_cons w c l : ws w -> isSpace c = false -> skipWS (w ++ c :: l) = c :: l.
Proof. intros Hw Hc. by rewrite skipWS_ws // skipWS_cons. Qed.

Lemma ws_separates w : ws w -> Forall (fun c => separates c = true) w.
Proof. intros H. apply (Forall_impl _ _ _ H). intros c Hc. unfold separates. by rewrite Hc. Qed.

(** What may follow a value. *)
Definition closes (r : list ascii) : Prop :=
  match r with c :: _ => isSpace c = true \/ c = ","%char \/ c = "]"%char \/ c = "}"%char | [] => True end.

Lemma closes_ws w c r : ws w -> c = ","%char \/ c = "]"%char \/ c = "}"%char -> closes (w ++ c :: r).
Proof. intros Hw Hc. destruct Hw as [|x w Hx _]; [by right|by left]. Qed.

Lemma closes_number_end r : closes r -> number_end r.
Proof.
  destruct r as [|c r]; [done|]. cbn [closes number_end].
  intros [H|[->|[-> | ->]]]; [|done..]. unfold isSpace in H. rewrite !orb_true_iff bool_decide_eq_true !Z.eqb_eq in H.
  destruct H as [[[->|H]|H]|H]; [done|..]; rewrite -(ascii_of_byte c) H; by vm_compute.
Qed.

(** ** Text that scans as a value *)

Definition starts_value (out : list ascii) : Prop := exists c t, out = c :: t /\ value_start c.
Definition renders (depth : Z) (out : list ascii) (v : raw) : Prop :=
  starts_value out /\ forall r, closes r -> scans depth (out ++ r) v r.
(** The elements or members of a list with the bracket that closes it. *)
Definition renders_elements (depth : Z) (out : list ascii) (es : list raw) : Prop :=
  starts_value out /\ forall r, scans_elements depth (out ++ r) es r.
Definition renders_members (depth : Z) (out : list ascii) (ms : list (list ascii * raw)) : Prop :=
  (exists t, out = quote :: t) /\ forall r, scans_members depth (out ++ r) ms r.

Lemma starts_value_ws w out r : ws w -> starts_value out -> skipWS (w ++ out ++ r) = out ++ r.
Proof. intros Hw (c & t & -> & Hc). apply value_start_not in Hc as [Hc _]. by apply skipWS_ws_cons. Qed.

Lemma starts_value_not out r c : starts_value out -> c = "]"%char \/ c = "}"%char -> exists d t, out ++ r = d :: t /\ d <> c.
Proof.
  intros (d & t & -> & Hd) Hc. apply value_start_not in Hd as (_ & _ & _ & H1 & H2). exists d, (t ++ r). split; [done|].
  by destruct Hc as [-> | ->].
Qed.

Lemma starts_value_app out r : starts_value out -> starts_value (out ++ r).
Proof. intros (c & t & -> & Hc). by exists c, (t ++ r). Qed.

Lemma renders_scalar depth v : well_spelled depth v -> renders depth (print_raw v) v.
Proof. intros Hw. split; [by destruct (print_head _ _ Hw) as (c & t & -> & ?); exists c, t|]. intros r Hr. by apply print_scans, closes_number_end. Qed.

Lemma renders_array depth w out es : depth < maxNestingDepth -> ws w -> renders_elements (depth + 1) out es ->
  renders depth ("["%char :: w ++ out) (RArray es).
Proof.
  intros Hd Hw [Hs He]. split; [by exists "["%char, (w ++ out); split; [|unfold value_start; auto]|]. intros r _ g Hg.
  rewrite length_app in Hg. cbn [length app] in *. rewrite -app_assoc. rewrite length_app in Hg.
  destruct g as [|g]; [lia|]. cbn [scan_value].
  rewrite bool_decide_eq_false_2 // bool_decide_eq_true_2 //. apply Z.leb_gt in Hd as ->. rewrite starts_value_ws //.
  destruct (starts_value_not out r "]"%char Hs ltac:(by left)) as (d & t & Heq & Hne). specialize (He r). rewrite Heq in He |- *.
  rewrite (bool_decide_eq_false_2 _ Hne) He //. rewrite -Heq length_app. lia.
Qed.

Lemma renders_empty_array depth w : depth < maxNestingDepth -> ws w -> renders depth ("["%char :: w ++ ["]"%char]) (RArray []).
Proof.
  intros Hd Hw. split; [by exists "["%char, (w ++ ["]"%char]); split; [|unfold value_start; auto]|]. intros r _ g Hg.
  destruct g as [|g]; [simpl in Hg; lia|]. cbn [app scan_value]. rewrite -app_assoc.
  rewrite bool_decide_eq_false_2 // bool_decide_eq_true_2 //. apply Z.leb_gt in Hd as ->. cbn [app]. by rewrite skipWS_ws_cons.
Qed.

Lemma renders_object depth w out ms : depth < maxNestingDepth -> ws w -> renders_members (depth + 1) out ms ->
  renders depth ("{"%char :: w ++ out) (RObject ms).
Proof.
  intros Hd Hw [[t ->] He]. split; [by exists "{"%char, (w ++ quote :: t); split; [|unfold value_start; auto]|]. intros r _ g Hg.
  rewrite length_app in Hg. cbn [length app] in *. rewrite -app_assoc. rewrite length_app in Hg.
  destruct g as [|g]; [lia|]. cbn [scan_value app]. rewrite bool_decide_eq_true_2 //. apply Z.leb_gt in Hd as ->.
  rewrite skipWS_ws_cons // bool_decide_eq_false_2 //. specialize (He r). cbn [app] in He. rewrite He //. cbn [length] in *. rewrite length_app. lia.
Qed.

Lemma renders_empty_object depth w : depth < maxNestingDepth -> ws w -> renders depth ("{"%char :: w ++ ["}"%char]) (RObject []).
Proof.
  intros Hd Hw. split; [by exists "{"%char, (w ++ ["}"%char]); split; [|unfold value_start; auto]|]. intros r _ g Hg.
  destruct g as [|g]; [simpl in Hg; lia|]. cbn [app scan_value]. rewrite -app_assoc.
  rewrite bool_decide_eq_true_2 //. apply Z.leb_gt in Hd as ->. cbn [app]. by rewrite skipWS_ws_cons.
Qed.

Lemma renders_one depth o v w : renders depth o v -> ws w -> renders_elements depth (o ++ w ++ ["]"%char]) [v].
Proof.
  intros [Hs Ho] Hw. split; [by apply starts_value_app|]. intros r g Hg. destruct g as [|g]; [lia|]. cbn [scan_elements].
  rewrite -!app_assoc in Hg |- *. cbn [app] in Hg |- *. rewrite Ho; [|by apply closes_ws; auto|lia].
  rewrite skipWS_ws_cons // bool_decide_eq_false_2 // bool_decide_eq_true_2 //.
Qed.

Lemma renders_cons depth o v w1 w2 o2 es : renders depth o v -> ws w1 -> ws w2 -> renders_elements depth o2 es ->
  renders_elements depth (o ++ w1 ++ ","%char :: w2 ++ o2) (v :: es).
Proof.
  intros [Hs Ho] Hw1 Hw2 [Hs2 Ho2]. split; [by apply starts_value_app|]. intros r g Hg. destruct g as [|g]; [lia|]. cbn [scan_elements].
  rewrite -!app_assoc in Hg |- *. cbn [app] in Hg |- *. rewrite -!app_assoc in Hg |- *.
  rewrite Ho; [|by apply closes_ws; auto|lia]. rewrite skipWS_ws_cons // bool_decide_eq_true_2 // starts_value_ws //.
  rewrite Ho2 //. rewrite !length_app in Hg. cbn [length] in Hg. rewrite !length_app in Hg. rewrite !length_app.
  destruct Hs as (c & t & -> & _). cbn [length] in Hg. lia.
Qed.

Lemma renders_member_one depth b w1 w2 o v w3 : body b -> ws w1 -> ws w2 -> renders depth o v -> ws w3 ->
  renders_members depth (quote :: b ++ quote :: w1 ++ ":"%char :: w2 ++ o ++ w3 ++ ["}"%char]) [(b, v)].
Proof.
  intros Hb Hw1 Hw2 [Hs Ho] Hw3. split; [by eexists|]. intros r g Hg. destruct g as [|g]; [simpl in Hg; lia|].
  cbn [app scan_members]. rewrite bool_decide_eq_true_2 //. rewrite -!app_assoc. cbn [app]. rewrite -!app_assoc. cbn [app]. rewrite -!app_assoc. cbn [app].
  rewrite scan_body // skipWS_ws_cons // bool_decide_eq_true_2 // starts_value_ws //.
  rewrite Ho; [|by apply closes_ws; auto|].
  2: { repeat (rewrite ?length_app /= in Hg || rewrite ?length_app /=). lia. }
  rewrite skipWS_ws_cons // bool_decide_eq_false_2 // bool_decide_eq_true_2 //.
Qed.

Lemma renders_member_cons depth b w1 w2 o v w3 w4 o2 ms : body b -> ws w1 -> ws w2 -> renders depth o v -> ws w3 -> ws w4 ->
  renders_members depth o2 ms ->
  renders_members depth (quote :: b ++ quote :: w1 ++ ":"%char :: w2 ++ o ++ w3 ++ ","%char :: w4 ++ o2) ((b, v) :: ms).
Proof.
  intros Hb Hw1 Hw2 [Hs Ho] Hw3 Hw4 [[t ->] Ho2]. split; [by eexists|]. intros r g Hg. destruct g as [|g]; [simpl in Hg; lia|].
  cbn [app scan_members]. rewrite bool_decide_eq_true_2 //. rewrite -!app_assoc. cbn [app]. rewrite -!app_assoc. cbn [app]. rewrite -!app_assoc. cbn [app].
  rewrite -!app_assoc. cbn [app].
  repeat (rewrite ?length_app /= in Hg). rewrite scan_body // skipWS_ws_cons // bool_decide_eq_true_2 // starts_value_ws //.
  rewrite Ho; [|by apply closes_ws; auto|repeat (rewrite ?length_app /=); lia].
  rewrite skipWS_ws_cons // bool_decide_eq_true_2 // skipWS_ws_cons //. specialize (Ho2 r). cbn [app] in Ho2. rewrite Ho2 //.
  repeat (rewrite ?length_app /=). lia.
Qed.

(** ** A value normalised *)

(** The pointer of a member and of an element. *)
Definition member_at (at_ k : list ascii) : list ascii :=
  at_ ++ "/"%char :: ReplaceAll (ReplaceAll k "~"%char (la "~0")) "/"%char (la "~1").
Definition element_at (at_ : list ascii) (i : Z) : list ascii := at_ ++ "/"%char :: Itoa i.

Definition body_text (l : list ascii) : list ascii := take (length l - 2) (drop 1 l).
Definition number_of (l : list ascii) : parts := match scan_number l with Some (n, _) => n | None => mkParts [] [] [] [] end.

Definition norm_name (k : list ascii) : result unit :=
  refuse_if (negb (Valid (string_text k)) || hasLoneSurrogate (string_text k)) ErrNotIJSON.

Fixpoint norm_raw (at_ : list ascii) (v : raw) : result (raw * list Normalisation) :=
  match v with
  | RNumber n =>
      let! c := norm_number at_ (number_text n) (number_text n) in
      Ok (match c with Some (repl, ch) => (RNumber (number_of repl), [ch]) | None => (v, []) end)
  | RString b => Ok (match norm_string at_ (string_text b) with Some (repl, ch) => (RString (body_text repl), [ch]) | None => (v, []) end)
  | RArray l =>
      let! (l, ch) :=
        (fix all (i : Z) (l : list raw) : result (list raw * list Normalisation) :=
           match l with
           | [] => Ok ([], [])
           | x :: l => let! (x, ch) := norm_raw (element_at at_ i) x in let! (l, chs) := all (i + 1) l in Ok (x :: l, ch ++ chs)
           end) 0 l in
      Ok (RArray l, ch)
  | RObject ms =>
      let! (ms, ch) :=
        (fix members (ms : list (list ascii * raw)) : result (list (list ascii * raw) * list Normalisation) :=
           match ms with
           | [] => Ok ([], [])
           | (k, x) :: ms =>
               norm_name k ;!
               let! (x, ch) := norm_raw (member_at at_ (unquote k)) x in
               let! (ms, chs) := members ms in Ok ((k, x) :: ms, ch ++ chs)
           end) ms in
      Ok (RObject ms, ch)
  | v => Ok (v, [])
  end.

Fixpoint norm_all (at_ : list ascii) (i : Z) (l : list raw) : result (list raw * list Normalisation) :=
  match l with
  | [] => Ok ([], [])
  | x :: l => let! (x, ch) := norm_raw (element_at at_ i) x in let! (l, chs) := norm_all at_ (i + 1) l in Ok (x :: l, ch ++ chs)
  end.
Fixpoint norm_members (at_ : list ascii) (ms : list (list ascii * raw)) : result (list (list ascii * raw) * list Normalisation) :=
  match ms with
  | [] => Ok ([], [])
  | (k, x) :: ms =>
      norm_name k ;!
      let! (x, ch) := norm_raw (member_at at_ (unquote k)) x in
      let! (ms, chs) := norm_members at_ ms in Ok ((k, x) :: ms, ch ++ chs)
  end.

Lemma norm_raw_array at_ l : norm_raw at_ (RArray l) = (let! (l, ch) := norm_all at_ 0 l in Ok (RArray l, ch)).
Proof.
  cbn [norm_raw]. f_equal. generalize 0. induction l as [|x l IH]; intros i; [done|]. cbn [norm_all].
  destruct (norm_raw _ x) as [[x' ch]|]; [|done]. cbn [rbind]. by rewrite IH.
Qed.
Lemma norm_raw_object at_ ms : norm_raw at_ (RObject ms) = (let! (ms, ch) := norm_members at_ ms in Ok (RObject ms, ch)).
Proof.
  cbn [norm_raw]. f_equal. induction ms as [|[k x] ms IH]; [done|]. cbn [norm_members].
  destruct (norm_name k); [|done]. cbn [rbind]. destruct (norm_raw _ x) as [[x' ch]|]; [|done]. cbn [rbind]. by rewrite IH.
Qed.

Lemma body_text_string b : body_text (string_text b) = b.
Proof.
  unfold body_text, string_text. cbn [drop length]. rewrite length_app. cbn [length].
  replace (S (length b + 1) - 2)%nat with (length b) by lia. apply take_app_length.
Qed.

Lemma number_of_text n : number_ok n -> number_of (number_text n) = n.
Proof. intros Hn. unfold number_of. by rewrite -(app_nil_r (number_text n)) (scan_number_text n []). Qed.

(** A string changed: still a literal, with no half pair, and with the data it
    had unless its bytes were invalid. *)
Lemma norm_string_change at_ b repl ch : body b -> norm_string at_ (string_text b) = Some (repl, ch) ->
  exists t, repl = string_text t /\ body t /\ paired t /\ Valid t = true /\ (Valid b = true -> unquote t = unquote b).
Proof.
  intros Hb. unfold norm_string. rewrite Valid_string_body. destruct (Valid b) eqn:Hv; cbn [negb].
  - destruct (hasLoneSurrogate _); [|done]. intros Heq.
    assert (repl = fixSurrogates (string_text b)) as -> by congruence. rewrite fix_string //. destruct (fix_body b Hb) as [[H1 H2 H3 H4] _].
    exists (fixSurrogates b). split_and!; [done..|by apply H4|]. intros _. unfold unquote. by rewrite H3.
  - intros Heq. assert (repl = fixSurrogates (replaceInvalidUTF8 (string_text b))) as -> by congruence.
    destruct (replace_string b Hb) as (t & -> & Ht & Htv). rewrite fix_string //.
    destruct (fix_body t Ht) as [[H1 H2 H3 H4] _]. exists (fixSurrogates t). split_and!; [done..|by apply H4|done].
Qed.

(** A string left alone has nothing wrong with it. *)
Lemma norm_string_None at_ b : body b -> norm_string at_ (string_text b) = None <-> Valid b = true /\ paired b.
Proof.
  intros Hb. unfold norm_string. rewrite Valid_string_body -hasLone_paired //. destruct (Valid b), (hasLoneSurrogate _); naive_solver.
Qed.

Lemma norm_name_Ok k : body k -> norm_name k = Ok tt <-> Valid k = true /\ paired k.
Proof.
  intros Hb. unfold norm_name. rewrite Valid_string_body -hasLone_paired //. destruct (Valid k), (hasLoneSurrogate _); naive_solver.
Qed.

(** ** One token *)

Lemma token_src s tok r c t : Forall (fun c => separates c = true) s -> tok = c :: t -> separates c = false ->
  skip_separators (take (length (s ++ tok ++ r) - length r) (s ++ tok ++ r)) = tok.
Proof.
  intros Hs -> Hc. rewrite app_assoc (length_app _ r). replace (length (s ++ c :: t) + length r - length r)%nat with (length (s ++ c :: t)) by lia.
  rewrite take_app_length. induction Hs as [|x s Hx _ IH]; cbn [app skip_separators]; [by rewrite Hc|by rewrite Hx].
Qed.

Lemma norm_loop_step fuel d st t d' src : next_token 3 d = Token t d' ->
  skip_separators (take (length (d_in d) - length (d_in d')) (d_in d)) = src ->
  norm_loop (S fuel) ∅ d st = rbind (norm_token ∅ t src (d_in d') st) (fun st => norm_loop fuel ∅ d' st).
Proof. intros H Hsrc. cbn [norm_loop]. by rewrite H Hsrc. Qed.

(** A string here is a value and not a name. *)
Definition nframe_ok (fs : list nframe) : Prop :=
  match fs with f :: _ => nf_object f && nf_expectKey f = false | [] => True end.

Definition state (fs : list nframe) (es : list edit) (ch : list Normalisation) : nstate := mkNstate fs es ch ∅.

Lemma pointer_cons f fs : pointer (f :: fs) = pointer fs ++ pointer_step f.
Proof. unfold pointer. cbn [rev]. rewrite fmap_app join_app. cbn [fmap list_fmap mjoin list_join]. by rewrite app_nil_r. Qed.

Lemma starts_value_separates out : starts_value out -> exists c t, out = c :: t /\ separates c = false.
Proof.
  intros (c & t & -> & Hc). exists c, t. split; [done|]. apply value_start_not in Hc as (H1 & H2 & H3 & _).
  unfold separates. by rewrite H1 (bool_decide_eq_false_2 _ H2) (bool_decide_eq_false_2 _ H3).
Qed.

(** The text of a scalar. *)
Lemma scalar_text c l v r : scan_value 1 0 (c :: l) = Some (v, r) -> c <> "{"%char -> c <> "["%char -> c :: l = print_raw v ++ r.
Proof.
  intros H H1 H2. cbn [scan_value] in H. rewrite (bool_decide_eq_false_2 _ H1) (bool_decide_eq_false_2 _ H2) in H.
  destruct (bool_decide (c = quote)) eqn:Hq; bool_prop.
  { subst c. destruct (scan_string l) as [[b r']|] eqn:Hs; [|done]. injection H as <- <-. cbn [print_raw].
    by rewrite string_text_app (scan_string_text _ _ _ Hs). }
  destruct (_ || _).
  { destruct (scan_number _) as [[n r']|] eqn:Hs; [|done]. injection H as <- <-. by apply scan_number_ok in Hs as [_ Hs]. }
  repeat case_bool_decide; [..|done]; (destruct (strip_word _ _) as [r'|] eqn:Hs; [|done]); injection H as <- <-;
    by apply strip_word_text in Hs.
Qed.

(** What the loop does at a value, from [l] to [r] and back to [k] turns, and the
    text it makes of it. *)
Definition normalises {A} (run : list edit -> list Normalisation -> result nstate)
    (next : list edit -> list Normalisation -> result nstate)
    (l r : list ascii) (reads_as : list ascii -> A -> Prop) (res : result (A * list Normalisation)) : Prop :=
  match res with
  | Err err => forall es ch, run es ch = Err err
  | Ok (v, chs) => exists es' out, length es' = length chs /\ (forall es ch, run es ch = next (es ++ es') (ch ++ chs)) /\ rewrites l r es' out /\ reads_as out v
  end.

Lemma scalar_norm d v fs r : well_spelled d v -> (forall l, v <> RArray l) -> (forall ms, v <> RObject ms) -> nframe_ok fs ->
  normalises (fun es ch => norm_token ∅ (scalar_token v) (print_raw v) r (state fs es ch))
    (fun es ch => Ok (state (norm_valueDone fs) es ch)) (print_raw v ++ r) r (renders d) (norm_raw (pointer fs) v).
Proof.
  intros Hw Ha Ho Hfs. destruct v as [|b|n|b|l|ms]; [| | | |by destruct (Ha l)|by destruct (Ho ms)].
  - exists [], (print_raw RNull). split; [done|]. split; [intros es ch; by rewrite !app_nil_r|]. split; [apply rewrites_plain|by apply renders_scalar].
  - exists [], (print_raw (RBool b)). split; [done|]. split; [intros es ch; by rewrite !app_nil_r|]. split; [apply rewrites_plain|by apply renders_scalar].
  - inversion Hw as [| |? ? Hn| | |]; subst. unfold normalises. cbn [norm_raw scalar_token norm_token ns_stack state print_raw].
    destruct (norm_number _ _ _) as [[[repl ch]|]|err] eqn:Hnum; cbn [rbind record_change]; [| |done].
    + destruct (norm_number_change _ _ _ _ _ Hn Hnum) as (_ & p & -> & Hp & _). rewrite number_of_text //.
      exists [mkEdit (number_text n ++ r) r (number_text p)], (number_text p). split; [done|]. split; [done|].
      split; [apply rewrites_edit|]. apply (renders_scalar d (RNumber p)). by constructor.
    + exists [], (number_text n). split; [done|]. split; [intros es ch; by rewrite !app_nil_r|]. split; [apply rewrites_plain|by apply (renders_scalar d (RNumber n))].
  - inversion Hw as [| | |? ? Hb| |]; subst. unfold normalises. cbn [norm_raw scalar_token norm_token ns_stack state print_raw].
    rewrite lookup_empty.
    destruct (norm_string _ _) as [[repl ch]|] eqn:Hstr; cbn [record_change].
    + destruct (norm_string_change _ _ _ _ Hb Hstr) as (t & -> & Ht & _). rewrite body_text_string.
      exists [mkEdit (string_text b ++ r) r (string_text t)], (string_text t). split; [done|]. split.
      { intros es ch'. by destruct fs as [|f fs]; [|simpl in Hfs; rewrite Hfs]. }
      split; [apply rewrites_edit|]. apply (renders_scalar d (RString t)). by constructor.
    + exists [], (string_text b). split; [done|]. split.
      { intros es ch'. rewrite !app_nil_r. by destruct fs as [|f fs]; [|simpl in Hfs; rewrite Hfs]. }
      split; [apply rewrites_plain|by apply (renders_scalar d (RString b))].
Qed.

Lemma normalises_bind {A B C} run mid next l m r (R1 : list ascii -> A -> Prop) (R2 : list ascii -> B -> Prop)
    (R : list ascii -> C -> Prop) f res1 res2 :
  normalises run mid l m R1 res1 -> normalises mid next m r R2 res2 ->
  (forall o1 o2 x y, R1 o1 x -> R2 o2 y -> R (o1 ++ o2) (f x y)) ->
  normalises run next l r R (let! (x, c1) := res1 in let! (y, c2) := res2 in Ok (f x y, c1 ++ c2)).
Proof.
  intros H1 H2 HR. destruct res1 as [[x c1]|err]; [|done]. destruct H1 as (es1 & o1 & Hl1 & Hr1 & Hw1 & Hx).
  destruct res2 as [[y c2]|err]; cbn [rbind]; [|intros es ch; by rewrite Hr1 H2].
  destruct H2 as (es2 & o2 & Hl2 & Hr2 & Hw2 & Hy). exists (es1 ++ es2), (o1 ++ o2).
  split; [by rewrite !length_app Hl1 Hl2|]. split; [|by split; [eapply rewrites_app|apply HR]].
  intros es ch. by rewrite Hr1 Hr2 !app_assoc.
Qed.

(** Turns that change nothing, over the bytes [s]. *)
Lemma normalises_plain {A B} run mid next s m r (R1 : list ascii -> A -> Prop) (R : list ascii -> B -> Prop) f res :
  (forall es ch, run es ch = mid es ch) -> normalises mid next m r R1 res ->
  (forall o x, R1 o x -> R (s ++ o) (f x)) ->
  normalises run next (s ++ m) r R (let! (x, c) := res in Ok (f x, c)).
Proof.
  intros Hrun H HR. destruct res as [[x c]|err]; [|intros es ch; rewrite Hrun; apply H].
  destruct H as (es & o & Hlen & Hr & Hw & Hx). exists es, (s ++ o). split; [done|]. split; [intros es1 ch1; by rewrite Hrun|].
  split; [|by apply HR]. apply (rewrites_app _ m _ [] es); [apply rewrites_plain|done].
Qed.

Lemma normalises_end {A} run next s r (R : list ascii -> A -> Prop) x :
  (forall es ch, run es ch = next es ch) -> R s x -> normalises run next (s ++ r) r R (Ok (x, [])).
Proof. intros Hrun HR. exists [], s. split; [done|]. split; [intros es ch; by rewrite !app_nil_r|]. split; [apply rewrites_plain|done]. Qed.

(** Bytes before, which no edit touches. *)
Lemma normalises_shift {A} run next l s m r (R : list ascii -> A -> Prop) res : l = s ++ m ->
  normalises run next m r R res -> normalises run next l r (fun o x => exists o2, o = s ++ o2 /\ R o2 x) res.
Proof.
  intros -> H. destruct res as [[x c]|err]; [|done]. destruct H as (es & o & Hlen & Hr & Hw & Hx). exists es, (s ++ o).
  split; [done|]. split; [done|]. split; [|by exists o]. apply (rewrites_app _ m _ [] es); [apply rewrites_plain|done].
Qed.

(** The walk's three claims. *)
Definition norm_walks_value (fuel : nat) : Prop :=
  forall depth l v r, scan_value fuel depth l = Some (v, r) ->
  forall d0 st ds fs s, reads d0 l st ds -> d_in d0 = s ++ l -> Forall (fun c => separates c = true) s ->
  tokenValueAllowed st = true -> nframe_ok fs ->
  exists n, (n + length r <= length l)%nat /\ forall k,
    normalises (fun es ch => norm_loop (n + k) ∅ d0 (state fs es ch))
      (fun es ch => norm_loop k ∅ (mkDecoder r (tokenValueEnd st) ds) (state (norm_valueDone fs) es ch))
      l r (renders depth) (norm_raw (pointer fs) v).
Definition norm_walks_members (fuel : nat) : Prop :=
  forall depth l ms r, scan_members fuel depth l = Some (ms, r) ->
  forall d0 st st0 ds key i fs s, reads d0 l st (st0 :: ds) -> d_in d0 = s ++ l -> Forall (fun c => separates c = true) s ->
  st = ObjectStart \/ st = ObjectKey ->
  exists n, (n + length r <= length l)%nat /\ forall k,
    normalises (fun es ch => norm_loop (n + k) ∅ d0 (state (mkNframe true key true i :: fs) es ch))
      (fun es ch => norm_loop k ∅ (mkDecoder r (tokenValueEnd st0) ds) (state (norm_valueDone fs) es ch))
      l r (renders_members depth) (norm_members (pointer fs) ms).
Definition norm_walks_elements (fuel : nat) : Prop :=
  forall depth l es r, scan_elements fuel depth l = Some (es, r) ->
  forall d0 st st0 ds i fs s, reads d0 l st (st0 :: ds) -> d_in d0 = s ++ l -> Forall (fun c => separates c = true) s ->
  st = ArrayStart \/ st = ArrayValue ->
  exists n, (n + length r <= length l)%nat /\ forall k,
    normalises (fun es ch => norm_loop (n + k) ∅ d0 (state (mkNframe false [] false i :: fs) es ch))
      (fun es ch => norm_loop k ∅ (mkDecoder r (tokenValueEnd st0) ds) (state (norm_valueDone fs) es ch))
      l r (renders_elements depth) (norm_all (pointer fs) i es).

(** A bracket that opens, and one that closes. *)
Lemma norm_open k c fs d0 l1 st ds s : reads d0 (c :: l1) st ds -> d_in d0 = s ++ c :: l1 -> Forall (fun c => separates c = true) s ->
  tokenValueAllowed st = true -> c = "{"%char \/ c = "["%char -> forall es ch,
  norm_loop (S k) ∅ d0 (state fs es ch) =
  norm_loop k ∅ (mkDecoder l1 (if bool_decide (c = "{"%char) then ObjectStart else ArrayStart) (st :: ds))
    (state (mkNframe (bool_decide (c = "{"%char)) [] (bool_decide (c = "{"%char)) 0 :: fs) es ch).
Proof.
  intros Hd0 Hin Hs Hst Hc es ch.
  assert (next_token 3 d0 = Token (Delim c) (mkDecoder l1 (if bool_decide (c = "{"%char) then ObjectStart else ArrayStart) (st :: ds))) as Ht.
  { rewrite Hd0. cbn [next_token d_in d_state d_stack]. destruct Hc as [-> | ->]; rewrite skipWS_cons //; by rewrite Hst. }
  rewrite (norm_loop_step _ _ _ _ _ [c] Ht).
  - by destruct Hc as [-> | ->].
  - rewrite Hin. cbn [d_in]. apply (token_src s [c] l1 c []); [done..|]. by destruct Hc as [-> | ->].
Qed.

Lemma norm_open_array k fs d0 l1 st ds s : reads d0 ("["%char :: l1) st ds -> d_in d0 = s ++ "["%char :: l1 ->
  Forall (fun c => separates c = true) s -> tokenValueAllowed st = true -> forall es ch,
  norm_loop (S k) ∅ d0 (state fs es ch) =
  norm_loop k ∅ (mkDecoder l1 ArrayStart (st :: ds)) (state (mkNframe false [] false 0 :: fs) es ch).
Proof. intros Hd0 Hin Hs Hst. exact (norm_open k "["%char fs d0 l1 st ds s Hd0 Hin Hs Hst (or_intror eq_refl)). Qed.

Lemma norm_open_object k fs d0 l1 st ds s : reads d0 ("{"%char :: l1) st ds -> d_in d0 = s ++ "{"%char :: l1 ->
  Forall (fun c => separates c = true) s -> tokenValueAllowed st = true -> forall es ch,
  norm_loop (S k) ∅ d0 (state fs es ch) =
  norm_loop k ∅ (mkDecoder l1 ObjectStart (st :: ds)) (state (mkNframe true [] true 0 :: fs) es ch).
Proof. intros Hd0 Hin Hs Hst. exact (norm_open k "{"%char fs d0 l1 st ds s Hd0 Hin Hs Hst (or_introl eq_refl)). Qed.

Lemma norm_close k c l1 l2 st st0 ds f fs : skipWS l1 = c :: l2 ->
  c = "]"%char /\ (st = ArrayStart \/ st = ArrayComma) \/ c = "}"%char /\ (st = ObjectStart \/ st = ObjectComma) -> forall es ch,
  norm_loop (S k) ∅ (mkDecoder l1 st (st0 :: ds)) (state (f :: fs) es ch) =
  norm_loop k ∅ (mkDecoder l2 (tokenValueEnd st0) ds) (state (norm_valueDone fs) es ch).
Proof.
  intros Hws Hc es ch. destruct (skipWS_split l1) as (w & Hw & Hl). rewrite Hws in Hl.
  rewrite (norm_loop_step _ _ _ _ _ [c] (close_token _ _ _ _ _ _ Hws Hc)).
  - by destruct Hc as [[-> _]|[-> _]].
  - cbn [d_in]. rewrite Hl. apply (token_src w [c] l2 c []); [by apply ws_separates|done|]. by destruct Hc as [[-> _]|[-> _]].
Qed.

Lemma norm_value_array fuel depth l1 v r d0 st ds fs s : norm_walks_elements fuel ->
  scan_value (S fuel) depth ("["%char :: l1) = Some (v, r) ->
  reads d0 ("["%char :: l1) st ds -> d_in d0 = s ++ "["%char :: l1 -> Forall (fun c => separates c = true) s -> tokenValueAllowed st = true ->
  exists n, (n + length r <= S (length l1))%nat /\ forall k,
    normalises (fun es ch => norm_loop (n + k) ∅ d0 (state fs es ch))
      (fun es ch => norm_loop k ∅ (mkDecoder r (tokenValueEnd st) ds) (state (norm_valueDone fs) es ch))
      ("["%char :: l1) r (renders depth) (norm_raw (pointer fs) v).
Proof.
  intros IHe H Hd0 Hin Hs Hst. cbn [scan_value] in H. rewrite bool_decide_eq_false_2 // bool_decide_eq_true_2 // in H.
  destruct (_ <=? _) eqn:Hdep; [done|]. apply Z.leb_gt in Hdep.
  destruct (skipWS_split l1) as (w & Hw & Hl). destruct (skipWS l1) as [|d r1] eqn:Hws1; [done|].
  pose proof (skipWS_cons_length _ _ _ Hws1) as Hlen1.
  pose proof (fun k => norm_open_array k fs d0 l1 st ds s Hd0 Hin Hs Hst) as Hopen.
  case_bool_decide as Hd.
  - injection H as <- <-. subst d. exists 2%nat. split; [simpl; lia|]. intros k.
    assert ("["%char :: l1 = ("["%char :: w ++ ["]"%char]) ++ r1) as Heq by (rewrite Hl /= -app_assoc //).
    rewrite Heq. apply normalises_end; [|by apply renders_empty_array]. intros es ch. change (2 + k)%nat with (S (S k)).
    rewrite Hopen. by eapply norm_close; [done|left; split; [|left]].
  - destruct (scan_elements _ _ _) as [[es r2]|] eqn:Hm; [|done]. injection H as <- <-.
    assert (value_start d) as Hvs.
    { destruct fuel; [done|]. cbn [scan_elements] in Hm. destruct (scan_value _ _ _) as [[? ?]|] eqn:Hv; [|done].
      by apply scan_value_head in Hv as (c & t & [= -> ->] & ?). }
    apply value_start_not in Hvs as (_ & Hn1 & Hn2 & _).
    destruct (IHe _ _ _ _ Hm (mkDecoder l1 ArrayStart (st :: ds)) ArrayStart st ds 0 fs w) as (n & Hn & Hrun);
      [by apply reads_after_open|done|by apply ws_separates|by left|].
    exists (S n). split; [simpl in *; lia|]. intros k. assert ("["%char :: l1 = ("["%char :: w) ++ d :: r1) as Heq by (by rewrite {1}Hl).
    rewrite norm_raw_array Heq. eapply normalises_plain; [|apply (Hrun k)|].
    + intros es' ch. change (S n + k)%nat with (S (n + k)). by rewrite Hopen.
    + intros o x Ho. by apply renders_array.
Qed.

Lemma norm_value_object fuel depth l1 v r d0 st ds fs s : norm_walks_members fuel ->
  scan_value (S fuel) depth ("{"%char :: l1) = Some (v, r) ->
  reads d0 ("{"%char :: l1) st ds -> d_in d0 = s ++ "{"%char :: l1 -> Forall (fun c => separates c = true) s -> tokenValueAllowed st = true ->
  exists n, (n + length r <= S (length l1))%nat /\ forall k,
    normalises (fun es ch => norm_loop (n + k) ∅ d0 (state fs es ch))
      (fun es ch => norm_loop k ∅ (mkDecoder r (tokenValueEnd st) ds) (state (norm_valueDone fs) es ch))
      ("{"%char :: l1) r (renders depth) (norm_raw (pointer fs) v).
Proof.
  intros IHm H Hd0 Hin Hs Hst. cbn [scan_value] in H. rewrite bool_decide_eq_true_2 // in H.
  destruct (_ <=? _) eqn:Hdep; [done|]. apply Z.leb_gt in Hdep.
  destruct (skipWS_split l1) as (w & Hw & Hl). destruct (skipWS l1) as [|d r1] eqn:Hws1; [done|].
  pose proof (skipWS_cons_length _ _ _ Hws1) as Hlen1.
  pose proof (fun k => norm_open_object k fs d0 l1 st ds s Hd0 Hin Hs Hst) as Hopen.
  case_bool_decide as Hd.
  - injection H as <- <-. subst d. exists 2%nat. split; [simpl; lia|]. intros k.
    assert ("{"%char :: l1 = ("{"%char :: w ++ ["}"%char]) ++ r1) as Heq by (rewrite Hl /= -app_assoc //).
    rewrite Heq. apply normalises_end; [|by apply renders_empty_object]. intros es ch. change (2 + k)%nat with (S (S k)).
    rewrite Hopen. by eapply norm_close; [done|right; split; [|left]].
  - destruct (scan_members _ _ _) as [[ms r2]|] eqn:Hm; [|done]. injection H as <- <-.
    assert (d = quote) as ->.
    { destruct fuel; [done|]. cbn [scan_members] in Hm. by case_bool_decide. }
    destruct (IHm _ _ _ _ Hm (mkDecoder l1 ObjectStart (st :: ds)) ObjectStart st ds [] 0 fs w) as (n & Hn & Hrun);
      [by apply reads_after_open|done|by apply ws_separates|by left|].
    exists (S n). split; [simpl in *; lia|]. intros k. assert ("{"%char :: l1 = ("{"%char :: w) ++ quote :: r1) as Heq by (by rewrite {1}Hl).
    rewrite norm_raw_object Heq. eapply normalises_plain; [|apply (Hrun k)|].
    + intros es' ch. change (S n + k)%nat with (S (n + k)). by rewrite Hopen.
    + intros o x Ho. by apply renders_object.
Qed.

Lemma norm_value_walk fuel : norm_walks_members fuel -> norm_walks_elements fuel -> norm_walks_value (S fuel).
Proof.
  intros IHm IHe depth l v r H d0 st ds fs s Hd0 Hin Hs Hst Hfs. pose proof (scan_value_head _ _ _ _ _ H) as (c & l1 & -> & Hvs).
  pose proof (value_start_not c Hvs) as (Hsp & Hn1 & Hn2 & Hn3 & Hn4).
  destruct (decide (c = "{"%char)) as [->|Hobj]; [by eapply norm_value_object|].
  destruct (decide (c = "["%char)) as [->|Harr]; [by eapply norm_value_array|].
  pose proof (scan_well_spelled _ _ _ _ _ H) as Hw. rewrite scan_scalar // in H.
  pose proof (scalar_kind _ _ _ _ H Hobj Harr) as [Hka Hko]. pose proof (scalar_text _ _ _ _ H Hobj Harr) as Htext.
  exists 1%nat. split.
  { destruct (proj1 (scan_enough 1) _ _ _ _ H) as [Hl _]. lia. }
  intros k. unfold reads in Hd0. rewrite (scalar_next c l1 v r st ds H (skipWS_cons c l1 Hsp) Hst) // in Hd0.
  assert (forall es ch, norm_loop (1 + k) ∅ d0 (state fs es ch) =
    rbind (norm_token ∅ (scalar_token v) (print_raw v) r (state fs es ch)) (fun x => norm_loop k ∅ (mkDecoder r (tokenValueEnd st) ds) x)) as Hstep.
  { intros es ch. apply (norm_loop_step k _ _ _ _ _ Hd0). rewrite Hin Htext. cbn [d_in].
    destruct (print_head _ _ Hw) as (c' & t & Ht & Hc). destruct (starts_value_separates (print_raw v)) as (c2 & t2 & Heq & Hsep); [by exists c', t|].
    by apply (token_src s (print_raw v) r c2 t2). }
  rewrite Htext. pose proof (scalar_norm depth v fs r Hw Hka Hko Hfs) as Hn. unfold normalises in *.
  destruct (norm_raw (pointer fs) v) as [[v' chs]|err]; [|intros es ch; by rewrite Hstep Hn].
  destruct Hn as (es' & out & Hlen & Hr & Hrest). exists es', out. split; [done|]. split; [|done]. intros es ch. by rewrite Hstep Hr.
Qed.

Lemma norm_elements_walk fuel : norm_walks_value fuel -> norm_walks_elements fuel -> norm_walks_elements (S fuel).
Proof.
  intros IHv IHe depth l es r H d0 st st0 ds i fs s Hd0 Hin Hs Hst. cbn [scan_elements] in H.
  destruct (scan_value fuel depth l) as [[v l1]|] eqn:Hv; [|done].
  destruct (skipWS_split l1) as (w & Hw & Hl). destruct (skipWS l1) as [|d l2] eqn:Hws; [done|].
  pose proof (skipWS_cons_length _ _ _ Hws) as Hlen1. pose proof (skipWS_length l2) as Hlen2.
  destruct (IHv _ _ _ _ Hv d0 st (st0 :: ds) (mkNframe false [] false i :: fs) s Hd0 Hin Hs) as (n1 & Hn1 & Hrun1);
    [by destruct Hst as [-> | ->]|done|].
  assert (tokenValueEnd st = ArrayComma) as Hend by (by destruct Hst as [-> | ->]).
  rewrite Hend pointer_cons in Hrun1. cbn [pointer_step nf_object nf_index norm_valueDone nf_key nf_expectKey] in Hrun1.
  case_bool_decide as Hd.
  - subst d. destruct (scan_elements fuel depth (skipWS l2)) as [[es' r2]|] eqn:Hm; [|done]. injection H as <- <-.
    destruct (skipWS_split l2) as (w2 & Hw2 & Hl2).
    destruct (IHe _ _ _ _ Hm (mkDecoder l1 ArrayComma (st0 :: ds)) ArrayValue st0 ds (i + 1) fs (w ++ ","%char :: w2)) as (n2 & Hn2 & Hrun2).
    { destruct fuel; [done|]. cbn [scan_elements] in Hm. destruct (scan_value fuel depth (skipWS l2)) as [[v' l']|] eqn:Hv'; [|done].
      eapply reads_after_comma; [done|by left|by left]. }
    { cbn [d_in]. by rewrite {1}Hl {1}Hl2 -app_assoc. }
    { apply Forall_app. split; [by apply ws_separates|]. constructor; [done|by apply ws_separates]. }
    { by right. }
    exists (n1 + n2)%nat. split; [lia|]. intros k. replace (n1 + n2 + k)%nat with (n1 + (n2 + k))%nat by lia.
    assert (l1 = (w ++ ","%char :: w2) ++ skipWS l2) as Hl1 by (by rewrite {1}Hl {1}Hl2 -app_assoc).
    apply (normalises_bind _ _ _ _ _ _ _ _ (renders_elements depth) cons _ _ (Hrun1 (n2 + k)%nat) (normalises_shift _ _ _ _ _ _ _ _ Hl1 (Hrun2 k))).
    intros o1 o2 x y Ho1 (o3 & -> & Ho3). rewrite -app_assoc. by apply renders_cons.
  - case_bool_decide as Hd'; [|done]. subst d. injection H as <- <-. exists (n1 + 1)%nat. split; [lia|].
    intros k. replace (n1 + 1 + k)%nat with (n1 + S k)%nat by lia.
    assert (l1 = (w ++ ["]"%char]) ++ l2) as Hl1 by (by rewrite {1}Hl -app_assoc).
    assert (normalises (fun es ch => norm_loop (S k) ∅ (mkDecoder l1 ArrayComma (st0 :: ds)) (state (mkNframe false [] false (i + 1) :: fs) es ch))
      (fun es ch => norm_loop k ∅ (mkDecoder l2 (tokenValueEnd st0) ds) (state (norm_valueDone fs) es ch)) l1 l2
      (fun o es => o = w ++ ["]"%char] /\ es = @nil raw) (Ok ([], []))) as Hlast.
    { rewrite {2}Hl1. apply normalises_end; [|done]. intros es ch. by eapply norm_close; [done|left; split; [|right]]. }
    apply (normalises_bind _ _ _ _ _ _ _ _ (renders_elements depth) cons _ _ (Hrun1 (S k)) Hlast).
    intros o1 o2 x y Ho1 [-> ->]. by apply renders_one.
Qed.

(** A name: an error, or the frame's. *)
Lemma norm_name_step k b l1 l2 d0 st st0 ds key i fs s : reads d0 (quote :: l1) st (st0 :: ds) -> d_in d0 = s ++ quote :: l1 ->
  Forall (fun c => separates c = true) s -> scan_string l1 = Some (b, l2) -> st = ObjectStart \/ st = ObjectKey -> forall es ch,
  norm_loop (S k) ∅ d0 (state (mkNframe true key true i :: fs) es ch) =
  (norm_name b ;! norm_loop k ∅ (mkDecoder l2 ObjectColon (st0 :: ds)) (state (mkNframe true (unquote b) false i :: fs) es ch)).
Proof.
  intros Hd0 Hin Hs Hb Hst es ch.
  assert (next_token 3 d0 = Token (TString (unquote b)) (mkDecoder l2 ObjectColon (st0 :: ds))) as Ht.
  { rewrite Hd0. cbn [next_token d_in d_state d_stack]. rewrite skipWS_cons //. destruct Hst as [-> | ->]; cbn; by rewrite Hb. }
  rewrite (norm_loop_step _ _ _ _ _ (string_text b) Ht).
  - cbn [norm_token state ns_stack nf_object nf_expectKey andb nf_index]. unfold norm_name. by destruct (_ || _).
  - rewrite Hin (scan_string_text _ _ _ Hb) -string_text_app. cbn [d_in]. by apply (token_src s _ l2 quote (b ++ [quote])).
Qed.

Lemma normalises_name {A} b run run' next l r (R : list ascii -> A -> Prop) res :
  (forall es ch, run es ch = (norm_name b ;! run' es ch)) -> normalises run' next l r R res ->
  normalises run next l r R (norm_name b ;! res).
Proof.
  intros Hrun H. destruct (norm_name b) as [[]|err] eqn:Hn; cbn [rbind]; [|intros es ch; by rewrite Hrun].
  destruct res as [[x c]|err]; [|intros es ch; rewrite Hrun; apply H]. destruct H as (es & o & Hlen & Hr & Hw).
  exists es, o. split; [done|]. split; [|done]. intros es1 ch1. by rewrite Hrun -Hr.
Qed.

Lemma norm_members_walk fuel : norm_walks_value fuel -> norm_walks_members fuel -> norm_walks_members (S fuel).
Proof.
  intros IHv IHm depth l ms r H d0 st st0 ds key i fs s Hd0 Hin Hs Hst. destruct l as [|q l1]; [done|].
  cbn [scan_members] in H. case_bool_decide as Hq; [|done]. subst q.
  destruct (scan_string l1) as [[b l2]|] eqn:Hsb; [|done]. pose proof (scan_string_length _ _ _ Hsb) as Hlen2.
  pose proof (scan_string_body _ _ _ Hsb) as Hb. pose proof (scan_string_text _ _ _ Hsb) as Htext.
  destruct (skipWS_split l2) as (w1 & Hw1 & Hl2). destruct (skipWS l2) as [|colon l3] eqn:Hws; [done|].
  pose proof (skipWS_cons_length _ _ _ Hws) as Hlen3. case_bool_decide as Hc; [|done]. subst colon.
  destruct (scan_value _ _ _) as [[v l4]|] eqn:Hv; [|done]. pose proof (skipWS_length l3) as Hlen3'.
  destruct (skipWS_split l3) as (w2 & Hw2 & Hl3).
  destruct (skipWS_split l4) as (w3 & Hw3 & Hl4). destruct (skipWS l4) as [|d l5] eqn:Hws2; [done|].
  pose proof (skipWS_cons_length _ _ _ Hws2) as Hlen5. pose proof (skipWS_length l5) as Hlen5'.
  destruct (IHv _ _ _ _ Hv (mkDecoder l2 ObjectColon (st0 :: ds)) ObjectValue (st0 :: ds) (mkNframe true (unquote b) false i :: fs) (w1 ++ ":"%char :: w2))
    as (n1 & Hn1 & Hrun1); [by eapply reads_after_colon| | |done..|].
  { cbn [d_in]. by rewrite {1}Hl2 {1}Hl3 -app_assoc. }
  { apply Forall_app. split; [by apply ws_separates|]. constructor; [done|by apply ws_separates]. }
  rewrite pointer_cons in Hrun1. cbn [pointer_step nf_object nf_index norm_valueDone nf_key nf_expectKey] in Hrun1.
  pose proof (fun k => norm_name_step k b l1 l2 d0 st st0 ds key i fs s Hd0 Hin Hs Hsb Hst) as Hname.
  assert (quote :: l1 = (quote :: b ++ quote :: w1 ++ ":"%char :: w2) ++ skipWS l3) as Hl1.
  { rewrite Htext {1}Hl2 {1}Hl3. cbn [app]. rewrite -!app_assoc. cbn [app]. by rewrite -!app_assoc. }
  destruct (bool_decide (d = _)) eqn:Hd.
  - apply bool_decide_eq_true in Hd. subst d. destruct (scan_members fuel depth (skipWS l5)) as [[ms' r2]|] eqn:Hm; [|done]. injection H as <- <-.
    destruct (skipWS_split l5) as (w4 & Hw4 & Hl5).
    destruct (IHm _ _ _ _ Hm (mkDecoder l4 ObjectComma (st0 :: ds)) ObjectKey st0 ds (unquote b) i fs (w3 ++ ","%char :: w4)) as (n2 & Hn2 & Hrun2).
    { eapply (reads_after_comma l4 l5 _ _ _ 0 0 RNull []); [done| |by right]. right.
      destruct fuel; [done|]. cbn [scan_members] in Hm. destruct (skipWS l5) as [|q t]; [done|].
      destruct (bool_decide (q = quote)) eqn:Hq; [|done]. apply bool_decide_eq_true in Hq as ->. by exists t. }
    { cbn [d_in]. by rewrite {1}Hl4 {1}Hl5 -app_assoc. }
    { apply Forall_app. split; [by apply ws_separates|]. constructor; [done|by apply ws_separates]. }
    { by right. }
    exists (S (n1 + n2)). split; [simpl in *; lia|]. intros k. replace (S (n1 + n2) + k)%nat with (S (n1 + (n2 + k))) by lia.
    assert (l4 = (w3 ++ ","%char :: w4) ++ skipWS l5) as Hl4' by (by rewrite {1}Hl4 {1}Hl5 -app_assoc).
    apply (normalises_name b _ _ _ _ _ _ _ (Hname (n1 + (n2 + k))%nat)).
    apply (normalises_bind _ _ _ _ _ _ _ _ (renders_members depth) (fun x ms => (b, x) :: ms) _ _
      (normalises_shift _ _ _ _ _ _ _ _ Hl1 (Hrun1 (n2 + k)%nat)) (normalises_shift _ _ _ _ _ _ _ _ Hl4' (Hrun2 k))).
    intros o1 o2 x y (o3 & -> & Ho3) (o4 & -> & Ho4).
    replace ((quote :: b ++ quote :: w1 ++ ":"%char :: w2) ++ o3) with (quote :: b ++ quote :: w1 ++ ":"%char :: w2 ++ o3)
      by (cbn [app]; rewrite -!app_assoc; cbn [app]; by rewrite -!app_assoc).
    pose proof (renders_member_cons depth b w1 w2 o3 x w3 w4 o4 y Hb Hw1 Hw2 Ho3 Hw3 Hw4 Ho4) as Hr. revert Hr.
    cbn [app]. rewrite -!app_assoc. cbn [app]. rewrite -!app_assoc. cbn [app]. by rewrite -!app_assoc.
  - destruct (bool_decide (d = "}"%char)) eqn:Hd'; [|done]. apply bool_decide_eq_true in Hd'. subst d.
    injection H as <- <-. exists (S (n1 + 1)). split; [simpl in *; lia|].
    intros k. replace (S (n1 + 1) + k)%nat with (S (n1 + S k)) by lia.
    assert (l4 = (w3 ++ ["}"%char]) ++ l5) as Hl4' by (by rewrite {1}Hl4 -app_assoc).
    assert (normalises (fun es ch => norm_loop (S k) ∅ (mkDecoder l4 ObjectComma (st0 :: ds)) (state (mkNframe true (unquote b) true i :: fs) es ch))
      (fun es ch => norm_loop k ∅ (mkDecoder l5 (tokenValueEnd st0) ds) (state (norm_valueDone fs) es ch)) l4 l5
      (fun o ms => o = w3 ++ ["}"%char] /\ ms = @nil (list ascii * raw)) (Ok ([], []))) as Hlast.
    { rewrite {2}Hl4'. apply normalises_end; [|done]. intros es ch. by eapply norm_close; [done|right; split; [|right]]. }
    apply (normalises_name b _ _ _ _ _ _ _ (Hname (n1 + S k)%nat)).
    apply (normalises_bind _ _ _ _ _ _ _ _ (renders_members depth) (fun x ms => (b, x) :: ms) _ _
      (normalises_shift _ _ _ _ _ _ _ _ Hl1 (Hrun1 (S k))) Hlast).
    intros o1 o2 x y (o3 & -> & Ho3) [-> ->].
    pose proof (renders_member_one depth b w1 w2 o3 x w3 Hb Hw1 Hw2 Ho3 Hw3) as Hr. revert Hr.
    cbn [app]. rewrite -!app_assoc. cbn [app]. by rewrite -!app_assoc.
Qed.

Lemma norm_walk fuel : norm_walks_value fuel /\ norm_walks_members fuel /\ norm_walks_elements fuel.
Proof.
  induction fuel as [|fuel (IHv & IHm & IHe)]; [by split_and!|].
  split_and!; [by apply norm_value_walk|by apply norm_members_walk|by apply norm_elements_walk].
Qed.

(** ** A document normalised *)

(** The loop on a document: an error of one of its values or names, or the value
    normalised, which the text with the edits made is a document of. *)
Lemma norm_document data v : document data v ->
  match norm_raw [] v with
  | Err err => norm_loop (S (length data)) ∅ (mkDecoder data TopValue []) (state [] [] []) = Err err
  | Ok (v', chs) => exists es, norm_loop (S (length data)) ∅ (mkDecoder data TopValue []) (state [] [] []) = Ok (state [] es chs) /\
      length es = length chs /\ document (splice data es) v'
  end.
Proof.
  intros (r & Hs & Hr). unfold scan_document in Hs. destruct (skipWS_split data) as (w & Hw & Hdata).
  pose proof (scan_value_head _ _ _ _ _ Hs) as (c & l & Hc & Hvs). apply value_start_not in Hvs as (Hsp & H1 & H2 & _).
  destruct (proj1 (norm_walk _) _ _ _ _ Hs (mkDecoder data TopValue []) TopValue [] [] w) as (n & Hn & Hrun); [|done|by apply ws_separates|done|done|].
  { rewrite Hc. by apply reads_after_open. }
  pose proof (skipWS_length data). specialize (Hrun (S (length data - n))%nat).
  replace (n + S (length data - n))%nat with (S (length data)) in Hrun by lia.
  change (pointer []) with (@nil ascii) in Hrun. unfold normalises in Hrun.
  destruct (norm_raw [] v) as [[v' chs]|err]; [|apply Hrun]. destruct Hrun as (es & out & Hlen & Hstep & Hrw & Hout).
  exists es. split; [rewrite Hstep; cbn [norm_loop next_token d_in app]; by rewrite Hr|]. split; [done|].
  assert (rewrites data (skipWS data) [] w) as Hpre by (rewrite {1}Hdata; apply rewrites_plain).
  pose proof (rewrites_app _ _ _ _ _ _ _ Hpre Hrw) as Hall. clear Hrw. rename Hall into Hrw.
  destruct Hrw as [_ Hsp2]. specialize (Hsp2 [] I) as [_ Hsp2]. rewrite !app_nil_l app_nil_r in Hsp2. change (splice r []) with r in Hsp2. rewrite Hsp2 -app_assoc.
  destruct Hout as [Hst Hout]. exists r. split; [|done]. unfold scan_document. rewrite starts_value_ws //. apply Hout.
  - destruct r as [|x r]; [done|]. cbn [skipWS] in Hr. destruct (isSpace x) eqn:Hx; [by left|done].
  - unfold fuel_for. lia.
Qed.
