(* ===== verification/NormaliseProps.v ===== *)
(** * What NormaliseJSON returns

    A document it takes comes out I-JSON and with the canonical form it had
    ([NormaliseJSON_canonical]); it takes every document whose numbers have finite
    doubles, and exponents [math/big] reads, and whose names are I-JSON and distinct
    ([NormaliseJSON_succeeds]);
    what it returned it returns as it is ([NormaliseJSON_again]). *)
From S2P Require Import Prelude Entry Strconv StrconvProps Utf8 Json Jcs Ijson Utf8Props NumberProps JsonProps JsonTokens IjsonProps.
From S2P Require Import JcsProps JsonPrint JcsRoundtrip Normalise NormaliseText NormaliseWalk.
Open Scope session_scope.
Local Open Scope Z_scope.

(** ** What may be said of a value's numbers *)

Inductive all_numbers (P : parts -> Prop) : raw -> Prop :=
  | all_null : all_numbers P RNull
  | all_bool b : all_numbers P (RBool b)
  | all_number n : P n -> all_numbers P (RNumber n)
  | all_string b : all_numbers P (RString b)
  | all_array l : Forall (all_numbers P) l -> all_numbers P (RArray l)
  | all_object ms : Forall (fun kv => all_numbers P kv.2) ms -> all_numbers P (RObject ms).

(** A document normalisation can repair: its numbers have finite doubles, and
    exponents in the bounds of [math/big], and the names of an object are I-JSON and
    distinct. *)
Inductive repairable : raw -> Prop :=
  | rep_null : repairable RNull
  | rep_bool b : repairable (RBool b)
  | rep_number n : exponent_read (literal_of n) -> finite_literal (literal_of n) -> repairable (RNumber n)
  | rep_string b : repairable (RString b)
  | rep_array l : Forall repairable l -> repairable (RArray l)
  | rep_object ms : NoDup ((fun kv => unquote kv.1) <$> ms) ->
      Forall (fun kv => (Valid kv.1 = true /\ paired kv.1) /\ repairable kv.2) ms -> repairable (RObject ms).

(** ** Case analysis on what normalising a value gives *)

Lemma norm_all_Ok at_ i l l' chs : norm_all at_ i l = Ok (l', chs) ->
  Forall2 (fun x x' => exists at_ ch, norm_raw at_ x = Ok (x', ch)) l l'.
Proof.
  revert i l' chs. induction l as [|x l IH]; intros i l' chs; [by intros [= <- <-]|]. cbn [norm_all].
  intros ([x' ch] & Hx & H)%rbind_Ok. apply rbind_Ok in H as ([l1 ch1] & Hl & H). injection H as <- <-.
  constructor; [by exists (element_at at_ i), ch|by eapply IH].
Qed.

Lemma norm_members_Ok at_ ms ms' chs : norm_members at_ ms = Ok (ms', chs) ->
  Forall2 (fun kv kv' => kv'.1 = kv.1 /\ norm_name kv.1 = Ok tt /\ exists at_ ch, norm_raw at_ kv.2 = Ok (kv'.2, ch)) ms ms'.
Proof.
  revert ms' chs. induction ms as [|[k x] ms IH]; intros ms' chs; [by intros [= <- <-]|]. cbn [norm_members].
  intros ([] & Hk & H)%rbind_Ok. apply rbind_Ok in H as ([x' ch] & Hx & H). apply rbind_Ok in H as ([l1 ch1] & Hl & H). injection H as <- <-.
  constructor; [|by eapply IH]. cbn [fst snd]. split; [done|]. split; [done|by do 2 eexists].
Qed.

Lemma norm_raw_array_inv at_ l v chs : norm_raw at_ (RArray l) = Ok (v, chs) -> exists l', v = RArray l' /\ norm_all at_ 0 l = Ok (l', chs).
Proof. rewrite norm_raw_array. intros ([l' ch] & Hl & H)%rbind_Ok. injection H as <- <-. by exists l'. Qed.
Lemma norm_raw_object_inv at_ ms v chs : norm_raw at_ (RObject ms) = Ok (v, chs) -> exists ms', v = RObject ms' /\ norm_members at_ ms = Ok (ms', chs).
Proof. rewrite norm_raw_object. intros ([ms' ch] & Hl & H)%rbind_Ok. injection H as <- <-. by exists ms'. Qed.

(** ** What comes out *)

(** Nothing is wrong with a string, a name or a number of it. *)
Inductive repaired : raw -> Prop :=
  | repd_null : repaired RNull
  | repd_bool b : repaired (RBool b)
  | repd_number n : CheckNumber (number_text n) = Ok tt -> repaired (RNumber n)
  | repd_string b : Valid b = true -> paired b -> repaired (RString b)
  | repd_array l : Forall repaired l -> repaired (RArray l)
  | repd_object ms : Forall (fun kv => (Valid kv.1 = true /\ paired kv.1) /\ repaired kv.2) ms -> repaired (RObject ms).

Lemma norm_repaired v at_ d v' chs : well_spelled d v -> norm_raw at_ v = Ok (v', chs) -> repaired v'.
Proof.
  revert at_ d v' chs. induction v as [|b|n|b|l IH|ms IH] using raw_nested; intros at_ d v' chs Hw H;
    inversion Hw as [| |? ? Hn|? ? Hb|? ? Hd Hl|? ? Hd Hl]; subst.
  - injection H as <- <-. constructor.
  - injection H as <- <-. constructor.
  - cbn [norm_raw] in H. apply rbind_Ok in H as ([[repl ch]|] & Hc & H); injection H as <- <-.
    + destruct (norm_number_change _ _ _ _ _ Hn Hc) as (_ & p & -> & Hp & Hcp & _). rewrite number_of_text //. by constructor.
    + constructor. unfold norm_number in Hc. destruct (CheckNumber (number_text n)) as [[]|]; [done|].
      destruct (SetString _) as [r|]; [|done]. destruct (Float64 r).1; [|done..]. by destruct (FormatNumber _).
  - cbn [norm_raw] in H. destruct (norm_string at_ (string_text b)) as [[repl ch]|] eqn:Hs; injection H as <- <-.
    + destruct (norm_string_change _ _ _ _ Hb Hs) as (t & -> & Ht & Hp & Hv & _). rewrite body_text_string. by constructor.
    + apply norm_string_None in Hs as [Hv Hp]; [|done]. by constructor.
  - apply norm_raw_array_inv in H as (l' & -> & H). apply norm_all_Ok in H. constructor. clear Hw.
    induction H as [|x x' l l' (at' & ch & Hx) _ IHl]; [constructor|]. apply Forall_cons in IH as [IHx IH], Hl as [Hwx Hl].
    constructor; [by eapply IHx|by apply IHl].
  - apply norm_raw_object_inv in H as (l' & -> & H). apply norm_members_Ok in H. constructor. clear Hw.
    induction H as [|[k x] [k' x'] l l' (Hk & Hn & at' & ch & Hx) _ IHl]; [constructor|].
    apply Forall_cons in IH as [IHx IH], Hl as [[Hb Hwx] Hl]. cbn [fst snd] in *. subst k'. apply norm_name_Ok in Hn; [|done].
    constructor; [split; [done|by eapply IHx]|by apply IHl].
Qed.

(** What a document of repaired values lacks is distinct names. *)
Lemma repaired_valid v : repaired v -> valid_strings v.
Proof.
  induction v as [|b|n|b|l IH|ms IH] using raw_nested; intros H; inversion H as [| | | |? Hl|? Hl]; subst; constructor; try done; clear H.
  - induction Hl as [|x l Hx _ IHl]; [constructor|]. apply Forall_cons in IH as [? ?]. constructor; auto.
  - induction Hl as [|x l [[? _] Hx] _ IHl]; [constructor|]. apply Forall_cons in IH as [? ?]. constructor; auto.
Qed.

Inductive distinct : raw -> Prop :=
  | dist_null : distinct RNull
  | dist_bool b : distinct (RBool b)
  | dist_number n : distinct (RNumber n)
  | dist_string b : distinct (RString b)
  | dist_array l : Forall distinct l -> distinct (RArray l)
  | dist_object ms : NoDup ((fun kv => unquote kv.1) <$> ms) -> Forall (fun kv => distinct kv.2) ms -> distinct (RObject ms).

Lemma repaired_IJSON v : repaired v -> distinct v -> IJSON v.
Proof.
  induction v as [|b|n|b|l IH|ms IH] using raw_nested; intros H Hd; inversion H as [| | | |? Hl|? Hl]; subst;
    inversion Hd as [| | | |? Hdl|? Hnd Hdl]; subst; constructor; try done; clear H Hd.
  - induction Hl as [|x l Hx _ IHl]; [constructor|]. apply Forall_cons in IH as [? ?], Hdl as [? ?]. constructor; auto.
  - clear Hnd. induction Hl as [|x l [[_ ?] Hx] _ IHl]; [constructor|]. apply Forall_cons in IH as [? ?], Hdl as [? ?]. constructor; auto.
Qed.

Lemma IJSON_distinct v : IJSON v -> distinct v.
Proof.
  induction v as [|b|n|b|l IH|ms IH] using raw_nested; intros H; inversion H as [| | | |? Hl|? Hnd Hl]; subst; constructor; try done; clear H.
  - induction Hl as [|x l Hx _ IHl]; [constructor|]. apply Forall_cons in IH as [? ?]. constructor; auto.
  - clear Hnd. induction Hl as [|x l [_ Hx] _ IHl]; [constructor|]. apply Forall_cons in IH as [? ?]. constructor; auto.
Qed.

(** ** A document is valid where its strings are *)

Lemma Valid_ascii_iff w r : ascii_only w -> Valid (w ++ r) = true <-> Valid r = true.
Proof. intros Hw. split; [by apply Valid_drop_ascii|by apply Valid_ascii_app]. Qed.

Lemma ws_ascii w : ws w -> ascii_only w.
Proof.
  intros H. apply (Forall_impl _ _ _ H). intros c Hc. unfold isSpace in Hc. rewrite !orb_true_iff bool_decide_eq_true !Z.eqb_eq in Hc.
  destruct Hc as [[[->|H1]|H1]|H1]; [done|lia..].
Qed.

(** Past white space and a mark. *)
Lemma Valid_mark_iff l c r : skipWS l = c :: r -> byte_of c < 128 -> Valid l = true <-> Valid r = true.
Proof.
  intros Hl Hc. destruct (skipWS_split l) as (w & Hw & ->). rewrite Hl Valid_ascii_iff; [|by apply ws_ascii].
  apply (Valid_ascii_iff [c]). by constructor.
Qed.
Lemma Valid_skipWS_iff l : Valid (skipWS l) = true <-> Valid l = true.
Proof. destruct (skipWS_split l) as (w & Hw & Hl). rewrite {2}Hl Valid_ascii_iff //. by apply ws_ascii. Qed.

Lemma Valid_string_iff l b r : scan_string l = Some (b, r) -> Valid (quote :: l) = true <-> Valid b = true /\ Valid r = true.
Proof.
  intros H. rewrite (scan_string_text _ _ _ H) (Valid_ascii_iff [quote]); [|by constructor]. split; [by apply Valid_ascii|].
  intros [Hb Hr]. by apply Valid_ascii_r.
Qed.

Lemma valid_strings_cons x l : valid_strings (RArray (x :: l)) <-> valid_strings x /\ valid_strings (RArray l).
Proof.
  split; [intros H; inversion H as [| | | |? Hl|]; subst; apply Forall_cons in Hl as [? ?]; by split; [|constructor]|].
  intros [Hx H]. inversion H; subst. by constructor; constructor.
Qed.
Lemma valid_strings_member k x ms : valid_strings (RObject ((k, x) :: ms)) <-> Valid k = true /\ valid_strings x /\ valid_strings (RObject ms).
Proof.
  split; [intros H; inversion H as [| | | | |? Hl]; subst; apply Forall_cons in Hl as [[? ?] ?]; by split_and!; [..|constructor]|].
  intros (Hk & Hx & H). inversion H; subst. by constructor; constructor.
Qed.

Lemma valid_walk fuel :
  (forall depth l v r, scan_value fuel depth l = Some (v, r) -> Valid l = true <-> valid_strings v /\ Valid r = true) /\
  (forall depth l ms r, scan_members fuel depth l = Some (ms, r) -> Valid l = true <-> valid_strings (RObject ms) /\ Valid r = true) /\
  (forall depth l es r, scan_elements fuel depth l = Some (es, r) -> Valid l = true <-> valid_strings (RArray es) /\ Valid r = true).
Proof.
  assert (valid_strings (RObject []) /\ valid_strings (RArray [])) as [Hnil1 Hnil2] by (split; constructor; constructor).
  induction fuel as [|fuel (IHv & IHm & IHe)]; [by split_and!|]. split_and!.
  - intros depth l v r H. pose proof (scan_value_head _ _ _ _ _ H) as (c & l1 & -> & Hvs).
    destruct (decide (c = "{"%char)) as [->|Hobj]; [|destruct (decide (c = "["%char)) as [->|Harr]].
    + cbn [scan_value] in H. rewrite bool_decide_eq_true_2 // in H. destruct (_ <=? _); [done|].
      rewrite (Valid_ascii_iff ["{"%char]); [|by constructor].
      destruct (skipWS l1) as [|d r1] eqn:Hws; [done|]. destruct (bool_decide (d = "}"%char)) eqn:Hd; bool_prop.
      * injection H as <- <-. subst d. rewrite (Valid_mark_iff _ _ _ Hws) //. tauto.
      * destruct (scan_members _ _ _) as [[ms r2]|] eqn:Hm; [|done]. injection H as <- <-.
        by rewrite -(IHm _ _ _ _ Hm) -Hws Valid_skipWS_iff.
    + cbn [scan_value] in H. rewrite bool_decide_eq_false_2 // bool_decide_eq_true_2 // in H.
      destruct (_ <=? _); [done|]. rewrite (Valid_ascii_iff ["["%char]); [|by constructor].
      destruct (skipWS l1) as [|d r1] eqn:Hws; [done|]. destruct (bool_decide (d = "]"%char)) eqn:Hd; bool_prop.
      * injection H as <- <-. subst d. rewrite (Valid_mark_iff _ _ _ Hws) //. tauto.
      * destruct (scan_elements _ _ _) as [[es r2]|] eqn:Hm; [|done]. injection H as <- <-.
        by rewrite -(IHe _ _ _ _ Hm) -Hws Valid_skipWS_iff.
    + rewrite scan_scalar // in H. pose proof (scan_well_spelled _ _ _ _ _ H) as Hw. pose proof (scalar_kind _ _ _ _ H Hobj Harr) as [Hka Hko].
      rewrite (scalar_text _ _ _ _ H Hobj Harr). destruct v as [|[]|n|b|l|ms]; [..|by destruct (Hka l)|by destruct (Hko ms)].
      1-3: rewrite Valid_ascii_iff; [|by repeat constructor]; split; [by split; [constructor|]|by intros []].
      * inversion Hw; subst. rewrite Valid_ascii_iff; [|by apply number_ascii]. split; [by split; [constructor|]|by intros []].
      * cbn [print_raw]. inversion Hw as [| | |? ? Hb| |]; subst. rewrite string_text_app (Valid_string_iff _ b r); [|by apply scan_body].
        split; [intros []; by split; [constructor|]|intros [Hv ?]; by inversion Hv].
  - intros depth l ms r H. destruct l as [|q l1]; [done|]. cbn [scan_members] in H. case_bool_decide as Hq; [|done]. subst q.
    destruct (scan_string l1) as [[b l2]|] eqn:Hs; [|done]. rewrite (Valid_string_iff _ _ _ Hs).
    destruct (skipWS l2) as [|colon l3] eqn:Hws; [done|].
    destruct (bool_decide (colon = ":"%char)) eqn:Hc; [|done]. bool_prop. subst colon.
    rewrite (Valid_mark_iff _ _ _ Hws) // -(Valid_skipWS_iff l3).
    destruct (scan_value _ _ _) as [[v l4]|] eqn:Hv; [|done]. rewrite (IHv _ _ _ _ Hv).
    destruct (skipWS l4) as [|d l5] eqn:Hws2; [done|]. destruct (bool_decide (d = ","%char)) eqn:Hd; bool_prop.
    + subst d. destruct (scan_members fuel depth (skipWS l5)) as [[ms' r2]|] eqn:Hm; [|done]. injection H as <- <-.
      rewrite (Valid_mark_iff _ _ _ Hws2) // -(Valid_skipWS_iff l5) (IHm _ _ _ _ Hm) valid_strings_member. tauto.
    + destruct (bool_decide (d = "}"%char)) eqn:Hd'; [|done]. bool_prop. subst d. injection H as <- <-.
      rewrite (Valid_mark_iff _ _ _ Hws2) // valid_strings_member. tauto.
  - intros depth l es r H. cbn [scan_elements] in H.
    destruct (scan_value fuel depth l) as [[v l1]|] eqn:Hv; [|done]. rewrite (IHv _ _ _ _ Hv).
    destruct (skipWS l1) as [|d l2] eqn:Hws; [done|]. destruct (bool_decide (d = ","%char)) eqn:Hd; bool_prop.
    + subst d. destruct (scan_elements fuel depth (skipWS l2)) as [[es' r2]|] eqn:Hm; [|done]. injection H as <- <-.
      rewrite (Valid_mark_iff _ _ _ Hws) // -(Valid_skipWS_iff l2) (IHe _ _ _ _ Hm) valid_strings_cons. tauto.
    + destruct (bool_decide (d = "]"%char)) eqn:Hd'; [|done]. bool_prop. subst d. injection H as <- <-.
      rewrite (Valid_mark_iff _ _ _ Hws) // valid_strings_cons. tauto.
Qed.

Lemma document_valid data v : document data v -> Valid data = true <-> valid_strings v.
Proof.
  intros (r & Hs & Hr). unfold scan_document in Hs. rewrite -Valid_skipWS_iff (proj1 (valid_walk _) _ _ _ _ Hs) -(Valid_skipWS_iff r) Hr. tauto.
Qed.

Lemma document_spelled data v : document data v -> well_spelled 0 v.
Proof. intros (r & Hs & _). by apply scan_well_spelled in Hs. Qed.

(** ** The same canonical form *)

Definition same_member (a b : list ascii * json) : Prop := a.1 = b.1 /\ write a.2 = write b.2.

Lemma set_member_same k v v' m m' : write v = write v' -> Forall2 same_member m m' ->
  Forall2 same_member (set_member k v m) (set_member k v' m').
Proof.
  intros Hv. induction 1 as [|[k1 x] [k2 y] m m' [Hk Hx] Hm IH]; [by repeat constructor|]. cbn [set_member fst snd] in *. subst k2.
  destruct (bool_decide (k = k1)); by constructor.
Qed.

Lemma set_members_same l l' : Forall2 same_member l l' -> Forall2 same_member (set_members l) (set_members l').
Proof.
  unfold set_members. assert (Forall2 same_member [] []) as H by constructor. revert H. generalize (@nil (list ascii * json)) at 1 3 as m.
  generalize (@nil (list ascii * json)) as m'. intros m' m Hm Hl. revert m m' Hm.
  induction Hl as [|[k x] [k' x'] l l' [Hk Hx] _ IH]; intros m m' Hm; [done|]. cbn [foldl fst snd] in *. subst k'.
  by apply IH, set_member_same.
Qed.

Lemma write_array_same l l' : Forall2 (fun x y => write x = write y) l l' -> write (JArray l) = write (JArray l').
Proof. intros H. rewrite !write_array. f_equal. by apply mapM_ext_Forall. Qed.

Lemma write_members_same l l' : Forall2 same_member l l' -> write (JObject l) = write (JObject l').
Proof.
  intros H. rewrite !write_object. f_equal. apply mapM_ext_Forall. apply (Forall2_impl _ _ _ _ H).
  intros [k x] [k' x'] [Hk Hx]. cbn [fst snd] in *. subst k'. unfold write_member. cbn [fst snd]. by rewrite Hx.
Qed.

(** A number the number rule takes, which is left as it is, or one whose exponent
    has at most five digits, which [strconv] reads as it is spelled. *)
Definition plain_number (n : parts) : Prop := CheckNumber (number_text n) = Ok tt \/ small_exponent n.

(** What normalisation changes, the canonical form does not tell apart. *)
Lemma norm_same_form v at_ d v' chs : well_spelled d v -> valid_strings v -> all_numbers plain_number v ->
  norm_raw at_ v = Ok (v', chs) -> write (interp v') = write (interp v).
Proof.
  revert at_ d v' chs. induction v as [|b|n|b|l IH|ms IH] using raw_nested; intros at_ d v' chs Hw Hv Hn H;
    inversion Hw as [| |? ? Hok|? ? Hb|? ? Hd Hl|? ? Hd Hl]; subst; inversion Hv as [| | |? Hvb|? Hvl|? Hvl]; subst;
    inversion Hn as [| |? Hsm| |? Hnl|? Hnl]; subst.
  - by injection H as <- _.
  - by injection H as <- _.
  - cbn [norm_raw] in H. apply rbind_Ok in H as ([[repl ch]|] & Hc & H); injection H as <- _; [|done].
    destruct (norm_number_change _ _ _ _ _ Hok Hc) as (_ & p & -> & Hp & _ & Hsame). rewrite number_of_text //.
    apply Hsame. destruct Hsm as [Hck|]; [|done]. unfold norm_number in Hc. by rewrite Hck in Hc.
  - cbn [norm_raw] in H. destruct (norm_string at_ (string_text b)) as [[repl ch]|] eqn:Hs; injection H as <- _; [|done].
    destruct (norm_string_change _ _ _ _ Hb Hs) as (t & -> & _ & _ & _ & Hu). rewrite body_text_string. cbn [interp]. by rewrite Hu.
  - apply norm_raw_array_inv in H as (l' & -> & H). apply norm_all_Ok in H. cbn [interp]. apply write_array_same. clear Hw Hv Hn.
    induction H as [|x x' l l' (at' & ch & Hx) _ IHl]; [constructor|].
    apply Forall_cons in IH as [IHx IH], Hl as [? Hl], Hvl as [? Hvl], Hnl as [? Hnl].
    cbn [map]. constructor; [by eapply IHx|by apply IHl].
  - apply norm_raw_object_inv in H as (l' & -> & H). apply norm_members_Ok in H. cbn [interp]. apply write_members_same, set_members_same.
    clear Hw Hv Hn. induction H as [|[k x] [k' x'] l l' (Hk & _ & at' & ch & Hx) _ IHl]; [constructor|].
    apply Forall_cons in IH as [IHx IH], Hl as [[_ ?] Hl], Hvl as [[_ ?] Hvl], Hnl as [? Hnl]. cbn [map fst snd] in *. subst k'.
    constructor; [split; [done|by eapply IHx]|by apply IHl].
Qed.

Lemma Transform_document data v : document data v -> Transform_bytes data = write (interp v).
Proof.
  intros (r & Hs & Hr). rewrite Transform_bytes_decoded. unfold transformDecoded, Decode, More. by rewrite Hs Hr.
Qed.

(** ** What fails, and what does not *)

Lemma norm_raw_repairable v : forall at_ d, well_spelled d v -> repairable v -> exists v' chs, norm_raw at_ v = Ok (v', chs) /\ distinct v'.
Proof.
  induction v as [|b|n|b|l IH|ms IH] using raw_nested; intros at_ d Hw Hr;
    inversion Hw as [| |? ? Hok|? ? Hb|? ? Hd Hl|? ? Hd Hl]; subst; inversion Hr as [| |? Hexp Hfin| |? Hrl|? Hnd Hrl]; subst.
  - do 2 eexists. by split; [|constructor].
  - do 2 eexists. by split; [|constructor].
  - cbn [norm_raw]. destruct (proj1 (norm_number_total at_ n (number_text n)) (proj2 (finite_number_literal n Hok) (conj Hexp Hfin))) as [c ->]. cbn [rbind].
    destruct c as [[? ?]|]; do 2 eexists; (split; [done|constructor]).
  - cbn [norm_raw]. destruct (norm_string _ _) as [[? ?]|]; do 2 eexists; (split; [done|constructor]).
  - rewrite norm_raw_array. assert (forall i, exists l' chs, norm_all at_ i l = Ok (l', chs) /\ Forall distinct l') as Hall.
    { clear Hw Hr. induction l as [|x l IHl]; intros i; [by exists [], []|]. cbn [norm_all].
      apply Forall_cons in IH as [IHx IH], Hl as [? Hl], Hrl as [? Hrl]. destruct (IHx (element_at at_ i) (d + 1)) as (x' & ch & -> & ?); [done..|].
      destruct (IHl IH Hl Hrl (i + 1)) as (l' & chs & -> & ?). cbn [rbind]. do 2 eexists. split; [done|]. by constructor. }
    destruct (Hall 0) as (l' & chs & -> & ?). cbn [rbind]. do 2 eexists. by split; [|constructor].
  - rewrite norm_raw_object. assert (exists ms' chs, norm_members at_ ms = Ok (ms', chs) /\ ms'.*1 = ms.*1 /\ Forall (fun kv => distinct kv.2) ms') as Hall.
    { clear Hw Hr Hnd. induction ms as [|[k x] l IHl]; [by exists [], []|]. cbn [norm_members].
      apply Forall_cons in IH as [IHx IH], Hl as [[Hb ?] Hl], Hrl as [[Hk ?] Hrl]. cbn [fst snd] in *.
      apply norm_name_Ok in Hk; [|done]. rewrite Hk. cbn [rbind].
      destruct (IHx (member_at at_ (unquote k)) (d + 1)) as (x' & ch & -> & ?); [done..|].
      destruct (IHl IH Hl Hrl) as (l' & chs & -> & Hfst & ?). cbn [rbind]. do 2 eexists. split; [done|]. rewrite !fmap_cons Hfst.
      split; [done|]. by constructor. }
    destruct Hall as (ms' & chs & -> & Hfst & ?). cbn [rbind]. do 2 eexists. split; [done|]. constructor; [|done].
    change (fun kv : list ascii * raw => unquote kv.1) with (unquote ∘ (@fst (list ascii) raw)) in Hnd |- *.
    by rewrite list_fmap_compose Hfst -list_fmap_compose.
Qed.

Lemma norm_raw_Ok_repairable v : forall at_ d v' chs, well_spelled d v -> norm_raw at_ v = Ok (v', chs) -> distinct v' -> repairable v.
Proof.
  induction v as [|b|n|b|l IH|ms IH] using raw_nested; intros at_ d v' chs Hw H Hdist;
    inversion Hw as [| |? ? Hok|? ? Hb|? ? Hd Hl|? ? Hd Hl]; subst; try by constructor.
  - assert (finite_number (number_text n)) as [? ?]%finite_number_literal; [|by constructor|done].
    cbn [norm_raw] in H. apply rbind_Ok in H as (c & Hc & _).
    destruct (decide (CheckNumber (number_text n) = Ok tt)) as [Hck|Hck].
    + unfold CheckNumber in Hck. destruct (SetString (number_text n)) as [r|] eqn:Hs; [|done].
      destruct (Float64 r) as [f ex] eqn:Hf. exists r. destruct f as [ng mt xp| |]; [|done..]. exists ng, mt, xp. by rewrite Hf.
    + unfold norm_number in Hc. destruct (CheckNumber (number_text n)) as [[]|]; [done|]. destruct (SetString (number_text n)) as [r|] eqn:Hs; [|done].
      exists r. destruct (Float64 r).1 as [ng mt xp| |]; [by exists ng, mt, xp|done..].
  - apply norm_raw_array_inv in H as (l' & -> & H). apply norm_all_Ok in H. inversion Hdist as [| | | |? Hdl|]; subst. constructor. clear Hw Hdist.
    induction H as [|x x' l l' (at' & ch & Hx) _ IHl]; [constructor|].
    apply Forall_cons in IH as [IHx IH], Hl as [? Hl], Hdl as [? Hdl]. constructor; [by eapply IHx|by apply IHl].
  - apply norm_raw_object_inv in H as (l' & -> & H). apply norm_members_Ok in H. inversion Hdist as [| | | | |? Hnd Hdl]; subst.
    assert ((fun kv => unquote kv.1) <$> l' = (fun kv => unquote kv.1) <$> ms) as Hkeys.
    { clear -H. induction H as [|kv kv' l l' (Hk & _) _ IH]; [done|]. by rewrite !fmap_cons Hk IH. }
    constructor; [by rewrite -Hkeys|]. clear Hw Hdist Hnd Hkeys.
    induction H as [|[k x] [k' x'] l l' (Hk & Hn & at' & ch & Hx) _ IHl]; [constructor|].
    apply Forall_cons in IH as [IHx IH], Hl as [[Hb ?] Hl], Hdl as [? Hdl]. cbn [fst snd] in *. subst k'.
    apply norm_name_Ok in Hn; [|done]. constructor; [split; [done|by eapply IHx]|by apply IHl].
Qed.

(** ** NormaliseJSON *)

Lemma document_unique data v v' : document data v -> document data v' -> v = v'.
Proof. intros (r & Hs & _) (r' & Hs' & _). congruence. Qed.

Lemma NormaliseJSON_document data v : document data v ->
  match norm_raw [] v with
  | Err err => NormaliseJSON data = Err err
  | Ok (v', chs) => exists out, document out v' /\ (chs = [] -> out = data) /\
      NormaliseJSON data = (Check out ;! Ok (out, sortNormalisations chs))
  end.
Proof.
  intros Hd. pose proof (norm_document data v Hd) as H. unfold state in H. unfold NormaliseJSON, normaliseJSON.
  rewrite (proj2 (json_Valid_document data)); [|by exists v]. cbn [negb refuse_if rbind].
  destruct (norm_raw [] v) as [[v' chs]|err]; [|by rewrite H]. destruct H as (es & -> & Hlen & Hdoc). cbn [rbind ns_edits ns_changes state].
  exists (splice data es). split; [done|]. split; [intros ->; by destruct es|]. by destruct (Check _).
Qed.

Lemma NormaliseJSON_Ok data out n : NormaliseJSON data = Ok (out, n) -> exists v v' chs, document data v /\ document out v' /\
  norm_raw [] v = Ok (v', chs) /\ n = sortNormalisations chs /\ Check out = Ok tt.
Proof.
  intros H. destruct (json_Valid data) eqn:Hv; [|by unfold NormaliseJSON, normaliseJSON in H; rewrite Hv in H].
  apply json_Valid_document in Hv as [v Hv]. pose proof (NormaliseJSON_document data v Hv) as Hd.
  destruct (norm_raw [] v) as [[v' chs]|err] eqn:Hn; [|congruence]. destruct Hd as (out' & Hdoc & _ & Heq). rewrite Heq in H.
  destruct (Check out') as [[]|] eqn:Hc; [|done]. injection H as <- <-. by exists v, v', chs.
Qed.

(** C36: what [NormaliseJSON] returns passes the I-JSON test; and of a document that
    is UTF-8, and whose numbers that do not pass the test themselves have exponents
    of at most five digits, it has the canonical form the document had: the hash of
    a body does not depend on whether it was normalised.  (Of a longer exponent
    [strconv], which the canonical form is read with, keeps the first five digits.) *)
Theorem NormaliseJSON_canonical data v out n : document data v -> NormaliseJSON data = Ok (out, n) ->
  Check out = Ok tt /\ (Valid data = true -> all_numbers plain_number v -> Transform_bytes out = Transform_bytes data).
Proof.
  intros Hd (v0 & v' & chs & Hd0 & Ho & Hn & _ & Hc)%NormaliseJSON_Ok. split; [done|]. intros Hv Hsm.
  rewrite -(document_unique _ _ _ Hd Hd0) in Hn. rewrite (Transform_document _ _ Ho) (Transform_document _ _ Hd).
  apply (norm_same_form v [] 0 v' chs); [by eapply document_spelled|by apply (document_valid data)|done..].
Qed.

Lemma Check_repaired data v : document data v -> repaired v -> distinct v -> Check data = Ok tt.
Proof.
  intros Hd Hr Hdist. assert (checkTokens data = Ok tt) as Ht; [|unfold Check; by destruct (checkFast data)].
  pose proof (document_spelled _ _ Hd) as Hw. pose proof (repaired_IJSON _ Hr Hdist) as HI.
  apply (clean_IJSON 0 v Hw) in HI as [Hs Hc]. rewrite (checkTokens_document _ _ Hd) Hs Hc.
  by rewrite (proj2 (document_valid _ _ Hd) (repaired_valid _ Hr)).
Qed.

Lemma norm_clean v : forall at_ d, well_spelled d v -> repaired v -> norm_raw at_ v = Ok (v, []).
Proof.
  induction v as [|b|n|b|l IH|ms IH] using raw_nested; intros at_ d Hw Hr;
    inversion Hw as [| |? ? Hok|? ? Hb|? ? Hd Hl|? ? Hd Hl]; subst; inversion Hr as [| |? Hck|? Hv Hp|? Hrl|? Hrl]; subst; [done|done| | | |].
  - cbn [norm_raw]. unfold norm_number. by rewrite Hck.
  - cbn [norm_raw]. by rewrite (proj2 (norm_string_None at_ b Hb) (conj Hv Hp)).
  - rewrite norm_raw_array. assert (forall i, norm_all at_ i l = Ok (l, [])) as ->; [|done].
    clear Hw Hr. induction l as [|x l IHl]; intros i; [done|]. apply Forall_cons in IH as [IHx IH], Hl as [? Hl], Hrl as [? Hrl].
    cbn [norm_all]. rewrite (IHx _ (d + 1)) //. cbn [rbind]. by rewrite IHl.
  - rewrite norm_raw_object. assert (norm_members at_ ms = Ok (ms, [])) as ->; [|done].
    clear Hw Hr. induction ms as [|[k x] l IHl]; [done|]. apply Forall_cons in IH as [IHx IH], Hl as [[Hb ?] Hl], Hrl as [[Hk ?] Hrl].
    cbn [fst snd] in *. cbn [norm_members]. rewrite (proj2 (norm_name_Ok k Hb) Hk) (IHx _ (d + 1)) //. cbn [rbind]. by rewrite IHl.
Qed.

(** C39: what [NormaliseJSON] returned it returns again as it is, with nothing to
    record. *)
Theorem NormaliseJSON_again data out n : NormaliseJSON data = Ok (out, n) -> NormaliseJSON out = Ok (out, []).
Proof.
  intros (v & v' & chs & Hd & Ho & Hn & _ & Hc)%NormaliseJSON_Ok. pose proof (NormaliseJSON_document out v' Ho) as H.
  rewrite (norm_clean v' [] 0) in H; [|by eapply document_spelled|apply (norm_repaired v [] 0 v' chs); [by eapply document_spelled|done]].
  destruct H as (out' & _ & Heq & ->). rewrite Heq // Hc. done.
Qed.

(** C37: a document can be normalised when every name of it is I-JSON as it is
    written, no object repeats one, and every number of it has a finite nearest
    double and an exponent [math/big] reads: one that is an int64, and a power of
    ten of a million at most ([repairable]).  Nothing else a document can hold stops
    it; and only such a document is normalised, of those that come to a million
    bytes at most, as far as [Check_document] answers for the test. *)
Theorem NormaliseJSON_succeeds data v : document data v ->
  (repairable v -> exists out n, NormaliseJSON data = Ok (out, n)) /\
  (forall out n, NormaliseJSON data = Ok (out, n) -> short out -> repairable v).
Proof.
  intros Hd. pose proof (document_spelled _ _ Hd) as Hw. split.
  - intros Hr. destruct (norm_raw_repairable v [] 0 Hw Hr) as (v' & chs & Hn & Hdist). pose proof (NormaliseJSON_document data v Hd) as H.
    rewrite Hn in H. destruct H as (out & Ho & _ & ->). rewrite (Check_repaired out v' Ho); [by do 2 eexists| |done].
    by eapply norm_repaired.
  - intros out n (v0 & v' & chs & Hd0 & Ho & Hn & _ & Hc)%NormaliseJSON_Ok Hs.
    rewrite (document_unique _ _ _ Hd Hd0). apply (norm_raw_Ok_repairable v0 [] 0 v' chs); [by eapply document_spelled|done|].
    by apply (Check_IJSON _ _ Hs Ho), proj2, IJSON_distinct in Hc.
Qed.
