(* ===== verification/NormaliseRecord.v ===== *)
(** * What NormaliseJSON records

    Every change it reports is one a writer may record: [checkNormalisations],
    which an append holds a caller's record to, finds nothing wrong with them
    ([NormaliseJSON_recorded]). *)
From Stdlib Require Import Sorted.
From S2P Require Import Prelude Entry Strconv StrconvProps Utf8 Json Jcs Ijson Utf8Props NumberProps JsonProps JcsSort JsonTokens IjsonProps.
From S2P Require Import JcsProps JsonPrint JcsRoundtrip Normalise NormaliseText NormaliseWalk NormaliseProps.
Open Scope session_scope.
Local Open Scope Z_scope.

#[local] Notation al := string_of_list_ascii.

(** ** Base64 *)

Lemma sextet_spec x : 0 <= x < 64 -> sextet_val (sextet x) = Some x /\ sextet x <> padding /\ sextet x <> "010"%char /\ sextet x <> "013"%char.
Proof.
  intros Hx. assert (forallb (fun x => bool_decide (sextet_val (sextet x) = Some x /\ sextet x <> padding /\
    sextet x <> "010"%char /\ sextet x <> "013"%char)) (seqZ 0 64) = true) as H by (vm_compute; reflexivity).
  rewrite forallb_forall in H. assert (In x (seqZ 0 64)) as Hin by (apply list_elem_of_In, elem_of_seqZ; lia). exact (bool_decide_eq_true_1 _ (H x Hin)).
Qed.

Lemma encode_ind (P : list ascii -> Prop) : P [] -> (forall a, P [a]) -> (forall a b, P [a; b]) ->
  (forall a b c l, P l -> P (a :: b :: c :: l)) -> forall l, P l.
Proof.
  intros H0 H1 H2 H3. fix IH 1. intros [|a [|b [|c l]]]; [done|apply H1|apply H2|]. apply H3, IH.
Qed.

(** The four sextets of three bytes. *)
Lemma sextets a b c : let x := byte_of a in let y := byte_of b in let z := byte_of c in
  0 <= x / 4 < 64 /\ 0 <= x mod 4 * 16 + y / 16 < 64 /\ 0 <= y mod 16 * 4 + z / 64 < 64 /\ 0 <= z mod 64 < 64.
Proof.
  intros x y z. pose proof (byte_of_range a). pose proof (byte_of_range b). pose proof (byte_of_range c).
  fold x in H. fold y in H0. fold z in H1. clearbody x y z. Z.to_euclidean_division_equations. lia.
Qed.

Lemma quotients x y m k : 0 < k -> 0 < m -> 0 <= x -> 0 <= y < k -> (x mod m * k + y) mod k = y /\ (x mod m * k + y) / k = x mod m.
Proof.
  intros Hk Hm Hx Hy. split; [rewrite Z.add_comm Z_mod_plus_full; by apply Z.mod_small|].
  rewrite Z.add_comm Z.div_add; [|lia]. rewrite (Z.div_small y k) //.
Qed.

Lemma byte_eq z c : z = byte_of c -> ascii_of z = c.
Proof. intros ->. apply ascii_of_byte. Qed.

Lemma decode_encode l : decode_quanta (EncodeToString l) = Some l.
Proof.
  induction l as [|a|a b|a b c l IH] using encode_ind; [done| | |].
  - pose proof (sextets a "000" "000") as (Hx & Hy & _). cbn zeta in Hy. change (byte_of "000" / 16) with 0 in Hy. rewrite Z.add_0_r in Hy.
    cbn [EncodeToString decode_quanta]. rewrite (proj1 (sextet_spec _ Hx)) (proj1 (sextet_spec _ Hy)).
    rewrite !bool_decide_eq_true_2 //. pose proof (byte_of_range a).
    rewrite Z_mod_mult Z.div_mul // Z.eqb_refl. cbn [andb]. do 2 f_equal.
    apply byte_eq. Z.to_euclidean_division_equations; lia.
  - pose proof (sextets a b "000") as (Hx & Hy & Hz & _). cbn zeta in *. change (byte_of "000" / 64) with 0 in Hz. rewrite Z.add_0_r in Hz.
    pose proof (byte_of_range a). pose proof (byte_of_range b).
    cbn [EncodeToString decode_quanta]. rewrite (proj1 (sextet_spec _ Hx)) (proj1 (sextet_spec _ Hy)).
    destruct (sextet_spec _ Hz) as (Hvz & Hp & _). rewrite (bool_decide_eq_false_2 _ Hp) Hvz !bool_decide_eq_true_2 //.
    rewrite Z_mod_mult Z.eqb_refl. cbn [andb].
    destruct (quotients (byte_of a) (byte_of b / 16) 4 16) as [-> ->]; [lia..|Z.to_euclidean_division_equations; lia|].
    do 2 f_equal; [|f_equal]; apply byte_eq; Z.to_euclidean_division_equations; lia.
  - pose proof (sextets a b c) as (Hx & Hy & Hz & Hw). cbn zeta in *.
    pose proof (byte_of_range a). pose proof (byte_of_range b). pose proof (byte_of_range c).
    cbn [EncodeToString decode_quanta]. rewrite (proj1 (sextet_spec _ Hx)) (proj1 (sextet_spec _ Hy)).
    destruct (sextet_spec _ Hz) as (Hvz & Hp & _), (sextet_spec _ Hw) as (Hvw & Hq & _).
    rewrite (bool_decide_eq_false_2 _ Hp) Hvz (bool_decide_eq_false_2 _ Hq) Hvw IH.
    destruct (quotients (byte_of a) (byte_of b / 16) 4 16) as [-> ->]; [lia..|Z.to_euclidean_division_equations; lia|].
    destruct (quotients (byte_of b) (byte_of c / 64) 16 4) as [-> ->]; [lia..|Z.to_euclidean_division_equations; lia|].
    cbn [app]. f_equal. do 2 (f_equal; [apply byte_eq; Z.to_euclidean_division_equations; lia|]).
    f_equal. apply byte_eq. Z.to_euclidean_division_equations; lia.
Qed.

Lemma encode_no_line l : Forall (fun c => c <> "010"%char /\ c <> "013"%char) (EncodeToString l).
Proof.
  assert (forall x, 0 <= x < 64 -> sextet x <> "010"%char /\ sextet x <> "013"%char) as Hs by (intros x Hx; by apply sextet_spec).
  assert (padding <> "010"%char /\ padding <> "013"%char) as Hp by done.
  induction l as [|a|a b|a b c l IH] using encode_ind; [constructor| | |].
  - pose proof (sextets a "000" "000") as (Hx & Hy & _). cbn zeta in Hy. change (byte_of "000" / 16) with 0 in Hy. rewrite Z.add_0_r in Hy.
    cbn [EncodeToString]. repeat (apply Forall_cons_2; [by auto|]). constructor.
  - pose proof (sextets a b "000") as (Hx & Hy & Hz & _). cbn zeta in *. change (byte_of "000" / 64) with 0 in Hz. rewrite Z.add_0_r in Hz.
    cbn [EncodeToString]. repeat (apply Forall_cons_2; [by auto|]). constructor.
  - pose proof (sextets a b c) as (Hx & Hy & Hz & Hw). cbn zeta in *. cbn [EncodeToString].
    do 4 (apply Forall_cons_2; [by auto|]). done.
Qed.

Lemma DecodeString_Encode l : DecodeString (EncodeToString l) = Some l.
Proof. unfold DecodeString. rewrite filter_every; [apply decode_encode|]. apply Forall_forall, encode_no_line. Qed.

(** ** Pointers *)

(** A pointer that may be recorded. *)
Definition good_pointer (p : list ascii) : Prop := Valid p = true /\ validPointerEscapes p = true.

(** What may follow a pointer to make the pointer of a part. *)
Definition rooted (s : list ascii) : Prop := s = [] \/ exists s', s = "/"%char :: s'.

Definition escaped (k : list ascii) : list ascii := ReplaceAll (ReplaceAll k "~"%char (la "~0")) "/"%char (la "~1").

Lemma ReplaceAll_cons x l c w : ReplaceAll (x :: l) c w = (if bool_decide (x = c) then w else [x]) ++ ReplaceAll l c w.
Proof. done. Qed.

Lemma escaped_cons c k : escaped (c :: k) =
  (if bool_decide (c = "~"%char) then la "~0" else if bool_decide (c = "/"%char) then la "~1" else [c]) ++ escaped k.
Proof.
  unfold escaped. rewrite ReplaceAll_cons. case_bool_decide as Hc; [done|]. cbn [app]. by rewrite ReplaceAll_cons.
Qed.

Lemma escaped_noslash k : Forall (fun c => c <> "/"%char) (escaped k).
Proof.
  induction k as [|c k IH]; [constructor|]. rewrite escaped_cons. apply Forall_app. split; [|done].
  case_bool_decide; [by repeat constructor|]. case_bool_decide; by repeat constructor.
Qed.

Lemma escaped_inj k k' : escaped k = escaped k' -> k = k'.
Proof.
  revert k'. induction k as [|c k IH]; intros [|c' k']; [done| | |]; rewrite ?escaped_cons.
  - repeat case_bool_decide; done.
  - repeat case_bool_decide; done.
  - repeat case_bool_decide; subst; cbn [app la list_ascii_of_string]; intros [=]; subst; try done; f_equal; auto.
Qed.

Lemma escaped_high h k : Forall (fun c => 128 <= byte_of c) h -> escaped (h ++ k) = h ++ escaped k.
Proof.
  induction 1 as [|c h Hc _ IH]; [done|]. cbn [app]. rewrite escaped_cons IH.
  rewrite !bool_decide_eq_false_2 //; intros ->; by vm_compute in Hc.
Qed.

Lemma escapes_app a b : validPointerEscapes a = true -> validPointerEscapes b = true -> validPointerEscapes (a ++ b) = true.
Proof.
  intros Ha Hb. induction a as [|c a IH]; [done|]. cbn [app validPointerEscapes] in *. destruct a as [|d a]; cbn [app] in *.
  - destruct (bool_decide (c = "~"%char)); [done|]. by cbn [andb].
  - destruct (bool_decide (c = "~"%char) && _); [done|]. by apply IH.
Qed.

Lemma escapes_char c : c <> "~"%char -> validPointerEscapes [c] = true.
Proof. intros Hc. cbn [validPointerEscapes]. by rewrite (bool_decide_eq_false_2 _ Hc). Qed.

Lemma escapes_plain l : Forall (fun c => c <> "~"%char) l -> validPointerEscapes l = true.
Proof. induction 1 as [|c l Hc _ IH]; [done|]. apply (escapes_app [c]); [by apply escapes_char|done]. Qed.

Lemma good_app a b : good_pointer a -> good_pointer b -> good_pointer (a ++ b).
Proof. intros [Ha Ha'] [Hb Hb']. split; [by apply Valid_app|by apply escapes_app]. Qed.

Lemma good_ascii l : ascii_only l -> Forall (fun c => c <> "~"%char) l -> good_pointer l.
Proof. intros Ha Hl. split; [by apply Valid_ascii_only|by apply escapes_plain]. Qed.

Lemma escaped_good k : Valid k = true -> good_pointer (escaped k).
Proof.
  intros (rs & Hrs & ->)%Valid_encoded. induction Hrs as [|r rs Hr _ IH]; [done|]. rewrite encoded_cons.
  destruct (Z.lt_ge_cases r 128) as [Hlt|Hge].
  - assert (exists c, EncodeRune r = [c] /\ byte_of c < 128) as (c & -> & Hc).
    { destruct Hr as [Hr _]. exists (ascii_of r). unfold EncodeRune. decide_bool (r <? 0) false. decide_bool (r <? 128) true.
      split; [done|]. rewrite byte_of_ascii; lia. }
    cbn [app]. rewrite escaped_cons. apply good_app; [|done]. case_bool_decide as H1; [done|]. case_bool_decide as H2; [done|].
    apply good_ascii; by repeat constructor.
  - pose proof (EncodeRune_high r Hr Hge) as Hh. rewrite escaped_high //. apply good_app; [|done]. split; [by apply Valid_scalar|].
    apply escapes_plain. apply (Forall_impl _ _ _ Hh). intros c Hc ->. by vm_compute in Hc.
Qed.

(** A segment ends at a slash or with the pointer. *)
Lemma segment_inj g g' s s' : Forall (fun c => c <> "/"%char) g -> Forall (fun c => c <> "/"%char) g' -> rooted s -> rooted s' ->
  g ++ s = g' ++ s' -> g = g'.
Proof.
  intros Hg. revert g'. induction Hg as [|c g Hc _ IH]; intros g' Hg' Hs Hs' H; destruct Hg' as [|c' g' Hc' Hg']; [done| | |]; cbn [app] in H.
  - subst s. by destruct Hs as [|[? [=]]].
  - subst s'. by destruct Hs' as [|[? [=]]].
  - injection H as <- H. f_equal. by apply IH.
Qed.

Lemma digits_noslash n : 0 <= n -> Forall (fun c => is_digit c = true) (Itoa n).
Proof.
  intros Hn. unfold Itoa. decide_bool (n <? 0) false. pose proof (digits_of_all n Hn) as H. unfold all_digits in H.
  rewrite forallb_forall in H. apply Forall_forall. intros c Hc. by apply H, list_elem_of_In.
Qed.

Lemma Itoa_inj n m : 0 <= n -> 0 <= m -> Itoa n = Itoa m -> n = m.
Proof.
  intros Hn Hm. unfold Itoa. decide_bool (n <? 0) false. decide_bool (m <? 0) false. intros H.
  destruct (digits_of_spec n Hn) as (<- & _), (digits_of_spec m Hm) as (<- & _). by rewrite H.
Qed.

Lemma digit_not c d : is_digit c = true -> is_digit d = false -> c <> d.
Proof. congruence. Qed.

Lemma Itoa_good n : 0 <= n -> good_pointer (Itoa n).
Proof.
  intros Hn. pose proof (digits_noslash n Hn) as H. apply good_ascii; apply (Forall_impl _ _ _ H); intros c Hc.
  - unfold is_digit in Hc. rewrite andb_true_iff !Z.leb_le in Hc. lia.
  - by eapply digit_not.
Qed.

Lemma Itoa_noslash n : 0 <= n -> Forall (fun c => c <> "/"%char) (Itoa n).
Proof. intros Hn. apply (Forall_impl _ _ _ (digits_noslash n Hn)). intros c Hc. by eapply digit_not. Qed.

(** ** A change that may be recorded *)

Definition recordable (x : Normalisation) : Prop := good_pointer (la (norm_At x)) /\ check_normalisation x = Ok tt.

(** What a writer may hold as JSON source text. *)
Definition source_text (src : list ascii) : Prop := src <> [] /\ Valid src = true /\ json_Valid src = true /\ trimmed src = true.

Lemma la_back l : la (al l) = l.
Proof. apply list_ascii_of_string_of_list_ascii. Qed.

Lemma al_nil l : l <> [] -> bool_decide (al l = "") = false.
Proof. intros Hl. apply bool_decide_eq_false. intros H. apply Hl. by rewrite -(la_back l) H. Qed.

Lemma changed_was_ok at_ src : source_text src -> check_normalisation (changed_was at_ src) = Ok tt.
Proof.
  intros (Hne & Hv & Hj & Ht). unfold check_normalisation, changed_was. cbn [norm_At norm_Was norm_Raw].
  by rewrite (al_nil src Hne) la_back Hv Hj Ht.
Qed.

Lemma changed_raw_ok at_ src : src <> [] -> check_normalisation (changed_raw at_ src) = Ok tt.
Proof.
  intros Hne. unfold check_normalisation, changed_raw. cbn [norm_At norm_Was norm_Raw].
  rewrite (al_nil (EncodeToString src)); [|by destruct src as [|? [|? [|? ?]]]]. rewrite la_back DecodeString_Encode.
  by rewrite (bool_decide_eq_true_2 (EncodeToString src = _)).
Qed.

Lemma runes_app a b : Valid a = true -> range_runes (a ++ b) = range_runes a ++ range_runes b.
Proof.
  intros (rs & Hrs & ->)%Valid_encoded. rewrite (range_encoded rs Hrs). unfold range_runes. rewrite runes_encoded // fmap_app. f_equal.
  rewrite -list_fmap_compose. by rewrite -{2}(list_fmap_id rs).
Qed.

Lemma runes_char c : byte_of c < 128 -> range_runes [c] = [byte_of c].
Proof. intros Hc. unfold range_runes. cbn [runes]. by decide_bool (byte_of c <? 128) true. Qed.

(** A text between two characters that are no white space. *)
Lemma trimmed_between c l d : byte_of c < 128 -> byte_of d < 128 -> IsSpace (byte_of c) = false -> IsSpace (byte_of d) = false ->
  Valid l = true -> trimmed (c :: l ++ [d]) = true.
Proof.
  intros Hc Hd Hcs Hds Hl. unfold trimmed. assert (Valid [c] = true) as Hvc by (by apply Valid_ascii_only; repeat constructor).
  rewrite (runes_app [c]) // (runes_app l) // !runes_char //. cbn [app head]. rewrite Hcs app_comm_cons last_snoc Hds. done.
Qed.

Lemma trimmed_char c : byte_of c < 128 -> IsSpace (byte_of c) = false -> trimmed [c] = true.
Proof. intros Hc Hs. unfold trimmed. rewrite runes_char //. cbn [head last]. by rewrite Hs. Qed.

Lemma string_source b : body b -> Valid b = true -> source_text (string_text b).
Proof.
  intros Hb Hv. split; [done|]. split; [by apply Valid_string_text|]. split.
  - apply json_Valid_document. exists (RString b). apply (print_document (RString b)). by constructor.
  - by apply trimmed_between.
Qed.

Lemma last_char (P : ascii -> Prop) l : Forall P l -> l <> [] -> exists l' d, l = l' ++ [d] /\ P d /\ Forall P l'.
Proof.
  intros H Hl. destruct (exists_last Hl) as (l' & d & ->). apply Forall_app in H as [H Hd]. exists l', d. by rewrite -> Forall_singleton in Hd.
Qed.

Lemma number_source n : number_ok n -> source_text (number_text n).
Proof.
  intros Hn. assert (number_text n <> []) as Hne.
  { destruct (number_text_head n [] Hn) as (c & l & Hc & _). rewrite app_nil_r in Hc. by rewrite Hc. }
  split; [done|]. split; [by apply Valid_ascii_only, number_ascii|].
  split; [apply json_Valid_document; exists (RNumber n); by apply document_number|].
  assert (Forall (fun c => byte_of c < 128 /\ IsSpace (byte_of c) = false) (number_text n)) as H.
  { apply number_chars; [| |done].
    - intros c Hc. unfold is_digit in Hc. rewrite andb_true_iff !Z.leb_le in Hc. split; [lia|]. unfold IsSpace. lia.
    - intros c Hc. repeat (apply elem_of_cons in Hc as [->|Hc]; [done|]). by apply elem_of_nil in Hc. }
  destruct (number_text n) as [|c l]; [done|]. apply Forall_cons in H as [[Hc Hcs] H].
  destruct l as [|x l]; [by apply trimmed_char|]. destruct (last_char _ (x :: l) H) as (l' & d & -> & [Hd Hds] & Hl); [done|].
  apply trimmed_between; [done..|]. apply Valid_ascii_only. apply (Forall_impl _ _ _ Hl). by intros ? [? _].
Qed.

(** ** The changes of a value *)

(** A change at a pointer or at a part of what it points to. *)
Definition under (p : list ascii) (x : Normalisation) : Prop := exists s, la (norm_At x) = p ++ s /\ rooted s.

Lemma under_self p x : la (norm_At x) = p -> under p x.
Proof. intros <-. exists []. rewrite app_nil_r. by split; [|left]. Qed.

Lemma under_step p g x : under (p ++ "/"%char :: g) x -> under p x.
Proof. unfold under. intros (s & -> & _). exists ("/"%char :: g ++ s). rewrite -app_assoc. split; [done|]. right. by eexists. Qed.

Lemma under_segment p g g' x : Forall (fun c => c <> "/"%char) g -> Forall (fun c => c <> "/"%char) g' ->
  under (p ++ "/"%char :: g) x -> under (p ++ "/"%char :: g') x -> g = g'.
Proof.
  intros Hg Hg' (s & Hs & Hr) (s' & Hs' & Hr'). rewrite Hs -!app_assoc in Hs'.
  pose proof (app_inv_head _ _ _ Hs') as H. cbn [app] in H.
  injection H as H. by eapply (segment_inj g g' s s').
Qed.

Definition recorded_under (p : list ascii) (chs : list Normalisation) : Prop :=
  Forall (fun x => recordable x /\ under p x) chs /\ NoDup (norm_At <$> chs).

(** The changes of the parts of a value, whose pointers end in the segments. *)
Definition recorded_parts (p : list ascii) (gs : list (list ascii)) (chs : list Normalisation) : Prop :=
  Forall (fun x => recordable x /\ exists g, g ∈ gs /\ under (p ++ "/"%char :: g) x) chs /\ NoDup (norm_At <$> chs).

Lemma parts_under p gs chs : recorded_parts p gs chs -> recorded_under p chs.
Proof.
  intros [H Hn]. split; [|done]. apply (Forall_impl _ _ _ H). intros x (Hx & g & _ & Hu). split; [done|by eapply under_step].
Qed.

Lemma parts_cons p g gs ch chs : Forall (Forall (fun c => c <> "/"%char)) (g :: gs) -> g ∉ gs ->
  recorded_under (p ++ "/"%char :: g) ch -> recorded_parts p gs chs -> recorded_parts p (g :: gs) (ch ++ chs).
Proof.
  intros [Hg Hgs]%Forall_cons Hnin [Hch Hnd] [Hchs Hnds]. split.
  - apply Forall_app. split; [apply (Forall_impl _ _ _ Hch)|apply (Forall_impl _ _ _ Hchs)].
    + intros x [Hx Hu]. split; [done|]. exists g. split; [apply elem_of_cons; by left|done].
    + intros x (Hx & g' & Hg' & Hu). split; [done|]. exists g'. split; [apply elem_of_cons; by right|done].
  - rewrite fmap_app. apply NoDup_app. split_and!; [done| |done]. intros w Hw Hw'.
    apply list_elem_of_fmap in Hw as (x & -> & Hx), Hw' as (y & Hxy & Hy).
    rewrite ->Forall_forall in Hch, Hchs. destruct (Hch x Hx) as [_ Hux], (Hchs y Hy) as (_ & g' & Hg' & Huy).
    assert (under (p ++ "/"%char :: g') x) as Hux' by (unfold under; by rewrite Hxy). apply Hnin.
    rewrite ->Forall_forall in Hgs. by rewrite (under_segment p g g' x Hg (Hgs _ Hg') Hux Hux').
Qed.

Lemma recorded_one p x : la (norm_At x) = p -> good_pointer p -> check_normalisation x = Ok tt -> recorded_under p [x].
Proof.
  intros Hp Hg Hx. split; [|apply NoDup_singleton]. constructor; [|constructor]. split; [split; [by rewrite Hp|done]|by apply under_self].
Qed.

Lemma recorded_none p : recorded_under p [].
Proof. split; constructor. Qed.

Lemma good_step p g : good_pointer p -> good_pointer g -> good_pointer (p ++ "/"%char :: g).
Proof. intros Hp Hg. apply good_app; [done|]. by apply (good_app ["/"%char]). Qed.

Definition recorded_value (v : raw) (p : list ascii) (chs : list Normalisation) : Prop :=
  match v with
  | RArray _ | RObject _ => exists gs, recorded_parts p gs chs
  | _ => recorded_under p chs
  end.

Lemma value_under v p chs : recorded_value v p chs -> recorded_under p chs.
Proof. destruct v; cbn [recorded_value]; [done..| |]; intros [gs ?]; by eapply parts_under. Qed.

Lemma norm_recorded v : forall at_ d v' chs, well_spelled d v -> repairable v -> good_pointer at_ ->
  norm_raw at_ v = Ok (v', chs) -> recorded_value v at_ chs.
Proof.
  induction v as [|b|n|b|l IH|ms IH] using raw_nested; intros at_ d v' chs Hw Hr Hp H;
    inversion Hw as [| |? ? Hok|? ? Hb|? ? Hd Hl|? ? Hd Hl]; subst; inversion Hr as [| |? Hfin| |? Hrl|? Hnd Hrl]; subst.
  - injection H as _ <-. apply recorded_none.
  - injection H as _ <-. apply recorded_none.
  - cbn [norm_raw] in H. apply rbind_Ok in H as ([[repl ch]|] & Hc & H); injection H as _ <-; [|apply recorded_none].
    destruct (norm_number_change _ _ _ _ _ Hok Hc) as (-> & _). apply recorded_one; [apply la_back|done|]. by apply changed_was_ok, number_source.
  - cbn [norm_raw] in H. destruct (norm_string at_ (string_text b)) as [[repl ch]|] eqn:Hs; injection H as _ <-; [|apply recorded_none].
    unfold norm_string in Hs. destruct (Valid (string_text b)) eqn:Hv; cbn [negb] in Hs.
    + destruct (hasLoneSurrogate _); [|done]. injection Hs as _ <-. apply recorded_one; [apply la_back|done|].
      rewrite Valid_string_body in Hv. by apply changed_was_ok, string_source.
    + injection Hs as _ <-. apply recorded_one; [apply la_back|done|]. by apply changed_raw_ok.
  - apply norm_raw_array_inv in H as (l' & -> & H). clear Hw Hr.
    assert (forall i l' chs, 0 <= i -> norm_all at_ i l = Ok (l', chs) -> recorded_parts at_ (Itoa <$> seqZ i (Z.of_nat (length l))) chs) as Hall;
      [|eexists; eapply Hall; [|done]; lia].
    clear l' chs H. induction l as [|x l IHl]; intros i l' chs Hi H; [injection H as _ <-; by split; constructor|]. cbn [norm_all] in H.
    apply rbind_Ok in H as ([x' ch] & Hx & H). apply rbind_Ok in H as ([l1 ch1] & Hl1 & H). injection H as <- <-.
    apply Forall_cons in IH as [IHx IH], Hl as [? Hl], Hrl as [? Hrl]. cbn [length].
    rewrite seqZ_cons; [|lia]. replace (Z.pred (Z.of_nat (S (length l)))) with (Z.of_nat (length l)) by lia. rewrite fmap_cons. apply parts_cons.
    + constructor; [by apply Itoa_noslash|]. apply Forall_fmap, Forall_forall. intros j Hj%elem_of_seqZ. apply Itoa_noslash. lia.
    + intros (j & Hj & Hjs%elem_of_seqZ)%list_elem_of_fmap. apply Itoa_inj in Hj; lia.
    + eapply value_under, IHx; [done|done|by apply good_step, Itoa_good|exact Hx].
    + apply (IHl IH Hl Hrl (Z.succ i) l1); [lia|done].
  - apply norm_raw_object_inv in H as (ms' & -> & H). clear Hw Hr.
    exists ((fun kv => escaped (unquote kv.1)) <$> ms). revert ms' chs H.
    induction ms as [|[k x] l IHl]; intros ms' chs H; [injection H as _ <-; by split; constructor|]. cbn [norm_members] in H.
    apply rbind_Ok in H as ([] & Hk & H). apply rbind_Ok in H as ([x' ch] & Hx & H). apply rbind_Ok in H as ([l1 ch1] & Hl1 & H).
    injection H as <- <-. apply Forall_cons in IH as [IHx IH], Hl as [[? ?] Hl], Hrl as [[? ?] Hrl].
    rewrite fmap_cons in Hnd |- *. cbn [fst snd] in *. apply NoDup_cons in Hnd as [Hnin Hnd]. apply parts_cons.
    + constructor; [apply escaped_noslash|]. apply Forall_fmap, Forall_forall. intros kv _. apply escaped_noslash.
    + intros (kv & Hkv & Hin)%list_elem_of_fmap. apply escaped_inj in Hkv. apply Hnin. rewrite Hkv.
      apply (list_elem_of_fmap_2 (fun kv => unquote kv.1) _ _ Hin).
    + eapply value_under, IHx; [done|done|apply good_step, escaped_good, Valid_unquote; done|exact Hx].
    + by eapply IHl.
Qed.

(** ** In order *)

Definition pointer_before (a b : Normalisation) : Prop := LessUTF16 (la (norm_At a)) (la (norm_At b)) = true.

Lemma insert_change_perm x l : insert_change x l ≡ₚ x :: l.
Proof. induction l as [|y l IH]; [done|]. cbn [insert_change]. case_match; [|done]. rewrite IH. apply Permutation_swap. Qed.

Lemma sort_changes_perm l : sortNormalisations l ≡ₚ l.
Proof. induction l as [|x l IH]; [done|]. change (sortNormalisations (x :: l)) with (insert_change x (sortNormalisations l)). by rewrite insert_change_perm IH. Qed.

Definition valid_pointers : list Normalisation -> Prop := Forall (fun x => Valid (la (norm_At x)) = true).

Lemma la_At_inj (a b : string) : la a = la b -> a = b.
Proof. intros H%(f_equal string_of_list_ascii). by rewrite !string_of_list_ascii_of_string in H. Qed.

Lemma insert_change_sorted x l : valid_pointers (x :: l) -> norm_At x ∉ norm_At <$> l -> Sorted pointer_before l ->
  Sorted pointer_before (insert_change x l).
Proof.
  intros [Hx Hl]%Forall_cons Hnin Hs. revert Hl Hnin. induction Hs as [|y l Hs IH Hy]; intros Hl Hnin; [by repeat constructor|].
  apply Forall_cons in Hl as [Hvy Hl]. rewrite fmap_cons not_elem_of_cons in Hnin. destruct Hnin as [Hne Hnin]. cbn [insert_change].
  destruct (LessUTF16 (la (norm_At y)) (la (norm_At x))) eqn:Hlt.
  - constructor; [by apply IH|]. destruct l as [|z l]; cbn [insert_change]; [by constructor|].
    destruct (LessUTF16 (la (norm_At z)) _); constructor; [by inversion Hy|done].
  - constructor; [by constructor|]. constructor. unfold pointer_before.
    destruct (LessUTF16_total _ _ Hx Hvy) as [H|[H|H]]; [done|by apply la_At_inj in H|congruence].
Qed.

Lemma sort_changes_sorted l : valid_pointers l -> NoDup (norm_At <$> l) -> Sorted pointer_before (sortNormalisations l).
Proof.
  induction l as [|x l IH]; [constructor|]. intros Hv [Hnin Hnd]%NoDup_cons. pose proof Hv as [_ Hl]%Forall_cons.
  change (sortNormalisations (x :: l)) with (insert_change x (sortNormalisations l)). apply insert_change_sorted; [|by rewrite sort_changes_perm|by apply IH].
  unfold valid_pointers. by rewrite sort_changes_perm.
Qed.

(** ** What NormaliseJSON records *)

Lemma check_recordable n : forall seen, Forall (fun x => recordable x /\ head (la (norm_At x)) = Some "/"%char) n ->
  NoDup (norm_At <$> n) -> (forall x, x ∈ n -> norm_At x ∉ seen) -> check_normalisations seen n = Ok tt.
Proof.
  induction n as [|x n IH]; intros seen H Hnd Hseen; [done|]. apply Forall_cons in H as [([[Hv He] Hx] & Hh) H]. cbn [check_normalisations].
  rewrite fmap_cons in Hnd. apply NoDup_cons in Hnd as [Hnin Hnd].
  rewrite (bool_decide_eq_true_2 _ Hh) Hv He (bool_decide_eq_false_2 (norm_At x ∈ seen)); [|apply Hseen, list_elem_of_here].
  cbn [negb orb refuse_if rbind]. rewrite Hx. cbn [rbind]. apply IH; [done..|]. intros y Hy. rewrite not_elem_of_cons.
  split; [intros Hyx; apply Hnin; rewrite -Hyx; by apply list_elem_of_fmap_2|by apply Hseen, list_elem_of_further].
Qed.

Definition container (v : raw) : bool := match v with RArray _ | RObject _ => true | _ => false end.

(** The changes of a value that is a member of another, as the caller records them:
    the member's pointer before each of theirs. *)
Definition prefixed (p : list ascii) (x : Normalisation) : Normalisation :=
  mkNormalisation (al (p ++ la (norm_At x))) (norm_Was x) (norm_Raw x).

Lemma prefixed_At p x : la (norm_At (prefixed p x)) = p ++ la (norm_At x).
Proof. apply la_back. Qed.

Lemma prefixed_recordable p x : good_pointer p -> recordable x -> recordable (prefixed p x).
Proof. intros Hp [Hg Hx]. split; [rewrite prefixed_At; by apply good_app|]. exact Hx. Qed.

Lemma prefixed_NoDup p n : NoDup (norm_At <$> n) -> NoDup (norm_At <$> (prefixed p <$> n)).
Proof.
  intros H. assert (norm_At <$> (prefixed p <$> n) = (fun t => al (p ++ la t)) <$> (norm_At <$> n)) as ->.
  { rewrite -!list_fmap_compose. by apply list_fmap_ext. }
  apply (NoDup_fmap_2_strong _); [|exact H]. intros t t' _ _ Ht. apply (f_equal list_ascii_of_string) in Ht. rewrite -> !la_back in Ht. by apply app_inv_head, la_At_inj in Ht.
Qed.

(** A scalar's one change points to the whole. *)
Lemma scalar_whole v v' chs x : container v = false -> norm_raw [] v = Ok (v', chs) -> x ∈ chs -> norm_At x = "".
Proof.
  destruct v as [|b|n|b|l|ms]; try done; intros _.
  - intros [= <- <-] []%elem_of_nil.
  - intros [= <- <-] []%elem_of_nil.
  - cbn [norm_raw]. intros ([[repl ch]|] & Hc & H)%rbind_Ok; injection H as _ <-; [|intros []%elem_of_nil].
    intros ->%list_elem_of_singleton. unfold norm_number in Hc. destruct (CheckNumber _); [done|]. destruct (SetString _) as [r|]; [|done].
    destruct (Float64 r).1; [|done|]; destruct (FormatNumber _); try done; by injection Hc as _ <-.
  - cbn [norm_raw]. destruct (norm_string [] (string_text b)) as [[repl ch]|] eqn:Hs; intros [= _ <-]; [|intros []%elem_of_nil].
    intros ->%list_elem_of_singleton. unfold norm_string in Hs. repeat case_match; try done; by injection Hs as _ <-.
Qed.

(** C38: what [NormaliseJSON] reports of a document, which comes to a million bytes at
    most, is what a writer may record of the member the document becomes: under the
    member's pointer, each change has a pointer of its own into the document,
    spelled as RFC 6901 has it, and either the JSON source text of the value or
    bytes in base64, so that [checkNormalisations] finds nothing wrong; and the
    changes are in the order of their pointers as UTF-16.  As they are, with no
    member's pointer before them, it finds nothing wrong with those of an object or
    an array, and refuses a scalar's one change, whose pointer is empty. *)
Theorem NormaliseJSON_recorded data v out n : document data v -> NormaliseJSON data = Ok (out, n) -> short out ->
  Sorted pointer_before n /\
  (forall p, good_pointer p -> head p = Some "/"%char -> checkNormalisations (prefixed p <$> n) = Ok tt) /\
  (checkNormalisations n = Ok tt <-> container v = true \/ n = []).
Proof.
  intros Hd (v0 & v' & chs & Hd0 & Ho & Hn & -> & Hck)%NormaliseJSON_Ok Hs. rewrite -(document_unique _ _ _ Hd Hd0) in Hn.
  pose proof (document_spelled _ _ Hd) as Hw. assert (repairable v) as Hr.
  { apply (norm_raw_Ok_repairable v [] 0 v' chs Hw Hn). by apply (Check_IJSON _ _ Hs Ho), proj2, IJSON_distinct in Hck. }
  pose proof (norm_recorded v [] 0 v' chs Hw Hr (conj eq_refl eq_refl) Hn) as H.
  destruct (value_under _ _ _ H) as [Hall Hnd]. split_and!.
  - apply sort_changes_sorted; [|done]. apply (Forall_impl _ _ _ Hall). by intros x [[[? _] _] _].
  - intros p Hp Hh. unfold checkNormalisations. apply check_recordable; [|apply prefixed_NoDup; by rewrite sort_changes_perm|intros x _; apply not_elem_of_nil].
    apply Forall_fmap. rewrite sort_changes_perm. apply (Forall_impl _ _ _ Hall). intros x [Hx _]. unfold compose. split; [by apply prefixed_recordable|].
    rewrite prefixed_At. by destruct p.
  - split.
    + intros Hchk. destruct (container v) eqn:Hc; [by left|right]. destruct chs as [|x chs]; [done|]. exfalso.
      pose proof (fun y => scalar_whole v v' (x :: chs) y Hc Hn) as Hat.
      destruct (sortNormalisations (x :: chs)) as [|y l] eqn:Hl; [by pose proof (sort_changes_perm (x :: chs)) as Hp; rewrite Hl in Hp; apply Permutation_nil_cons in Hp|].
      unfold checkNormalisations in Hchk. cbn [check_normalisations] in Hchk. rewrite (Hat y) // in Hchk.
      rewrite -(sort_changes_perm (x :: chs)) Hl. apply list_elem_of_here.
    + intros [Hc|Hnil]; [|by rewrite Hnil]. assert (exists gs, recorded_parts [] gs chs) as (gs & Hall' & _) by (by destruct v).
      unfold checkNormalisations. apply check_recordable; [rewrite sort_changes_perm|by rewrite sort_changes_perm|intros x _; apply not_elem_of_nil].
      apply (Forall_impl _ _ _ Hall'). intros x (Hx & g & _ & s & -> & _). by split.
Qed.
