(* ===== verification/Marshal.v ===== *)
(** * Raw messages, decoded and encoded ([encoding/json])

    What the library asks of [encoding/json] beside decoding a value: an object
    or an array taken apart into the bytes of its members or items, a string's
    value, and a map of raw messages written with its names in order, every value
    compacted and the characters HTML reserves escaped.  [json_tools] and
    [jcs_canonicaliser] are these and the canonical form, as the arguments the
    hashes take. *)
From S2P Require Import Prelude Entry Calls Hash Strconv Utf8 Json Jcs Ijson JsonPrint JcsRoundtrip.
Open Scope session_scope.
Local Open Scope Z_scope.

(** ** Taking apart *)

(** What a scan of [l] that left [r] went over. *)
Definition consumed (l r : list ascii) : list ascii := take (length l - length r) l.

(** An object's members, after its brace: the names decoded, the values as they
    stand. *)
Fixpoint member_texts (fuel : nat) (l : list ascii) : option (list (list ascii * list ascii)) :=
  match fuel with
  | O => None
  | S fuel =>
      match l with
      | [] => None
      | q :: l1 =>
          if bool_decide (q = quote) then
            match scan_string l1 with
            | None => None
            | Some (k, l2) =>
                match skipWS l2 with
                | [] => None
                | colon :: l3 =>
                    if bool_decide (colon = ":"%char) then
                      match scan_value (fuel_for (skipWS l3)) 1 (skipWS l3) with
                      | None => None
                      | Some (_, l4) =>
                          let kv := (unquote k, consumed (skipWS l3) l4) in
                          match skipWS l4 with
                          | [] => None
                          | d :: l5 =>
                              if bool_decide (d = ","%char) then
                                match member_texts fuel (skipWS l5) with Some ms => Some (kv :: ms) | None => None end
                              else if bool_decide (d = "}"%char) then Some [kv]
                              else None
                          end
                      end
                    else None
                end
            end
          else None
      end
  end.

Fixpoint element_texts (fuel : nat) (l : list ascii) : option (list (list ascii)) :=
  match fuel with
  | O => None
  | S fuel =>
      match scan_value (fuel_for l) 1 l with
      | None => None
      | Some (_, l1) =>
          match skipWS l1 with
          | [] => None
          | d :: l2 =>
              if bool_decide (d = ","%char) then
                match element_texts fuel (skipWS l2) with Some es => Some (consumed l l1 :: es) | None => None end
              else if bool_decide (d = "]"%char) then Some [consumed l l1]
              else None
          end
      end
  end.

(** [json.Unmarshal] into a [map[string]json.RawMessage]: a repeated name takes
    its last value, and null leaves the map empty. *)
Definition UnmarshalMap (data : list ascii) : option (list (list ascii * list ascii)) :=
  if json_Valid data then
    match skipWS data with
    | c :: l =>
        if bool_decide (c = "{"%char) then
          match skipWS l with
          | d :: r => if bool_decide (d = "}"%char) then Some []
                      else match member_texts (length data) (d :: r) with Some ms => Some (set_members ms) | None => None end
          | [] => None
          end
        else if bool_decide (c = "n"%char) then Some [] else None
    | [] => None
    end
  else None.

(** Into a [[]json.RawMessage]. *)
Definition UnmarshalSlice (data : list ascii) : option (list (list ascii)) :=
  if json_Valid data then
    match skipWS data with
    | c :: l =>
        if bool_decide (c = "["%char) then
          match skipWS l with
          | d :: r => if bool_decide (d = "]"%char) then Some [] else element_texts (length data) (d :: r)
          | [] => None
          end
        else if bool_decide (c = "n"%char) then Some [] else None
    | [] => None
    end
  else None.

(** Into a [string]. *)
Definition UnmarshalText (data : list ascii) : option (list ascii) :=
  if json_Valid data then
    match scan_document data with
    | Some (RString b, _) => Some (unquote b)
    | Some (RNull, _) => Some []
    | _ => None
    end
  else None.

(** ** Putting together *)

Definition u_escape (a b c d : ascii) : list ascii := [backslash; "u"%char; a; b; c; d].

(** A body with [<], [>], [&], U+2028 and U+2029 escaped. *)
Fixpoint html_body (l : list ascii) : list ascii :=
  match l with
  | [] => []
  | c :: l1 =>
      if bool_decide (c = "<"%char) then u_escape "0" "0" "3" "c" ++ html_body l1
      else if bool_decide (c = ">"%char) then u_escape "0" "0" "3" "e" ++ html_body l1
      else if bool_decide (c = "&"%char) then u_escape "0" "0" "2" "6" ++ html_body l1
      else if byte_of c =? 226 then
        match l1 with
        | b :: (d :: l3) =>
            if (byte_of b =? 128) && (byte_of d =? 168) then u_escape "2" "0" "2" "8" ++ html_body l3
            else if (byte_of b =? 128) && (byte_of d =? 169) then u_escape "2" "0" "2" "9" ++ html_body l3
            else c :: html_body l1
        | _ => c :: html_body l1
        end
      else c :: html_body l1
  end.

(** [json.Compact], with HTML escaped. *)
Definition compact (data : list ascii) : option (list ascii) :=
  match scan_document data with
  | Some (v, r) => if bool_decide (skipWS r = []) then Some (print_raw (map_bodies html_body v)) else None
  | None => None
  end.

(** The body [json.Marshal] writes of a string: an invalid byte is escaped as
    U+FFFD. *)
Definition marshal_body (s : list ascii) : list ascii :=
  mjoin ((fun r => match r with Some r => html_body (write_rune r) | None => u_escape "f" "f" "f" "d" end) <$> runes s).

(** [json.Marshal] of a [map[string]json.RawMessage]. *)
Definition MarshalMap (ms : list (list ascii * list ascii)) : option (list ascii) :=
  match mapM (fun kv => (pair kv.1) <$> compact kv.2) (sort_by (fun a b => less_bytes a.1 b.1) ms) with
  | Some ms => Some ("{"%char :: commas ((fun kv => string_text (marshal_body kv.1) ++ ":"%char :: kv.2) <$> ms) ++ ["}"%char])
  | None => None
  end.

(** ** As the hashes take them *)

#[local] Notation al := string_of_list_ascii.

Definition to_map (ms : list (list ascii * list ascii)) : gmap string RawMessage :=
  list_to_map (map (fun kv => (al kv.1, al kv.2)) ms).

Definition json_tools : JSONTools := {|
  ijson_Check data := Check (la data);
  UnmarshalMembers data := to_map <$> UnmarshalMap (la data);
  UnmarshalList data := map al <$> UnmarshalSlice (la data);
  UnmarshalString data := al <$> UnmarshalText (la data);
  MarshalMembers m :=
    match MarshalMap (map (fun kv => (la kv.1, la kv.2)) (map_to_list m)) with
    | Some d => Ok (al d)
    | None => Err ErrOther
    end
|}.

Definition jcs_canonicaliser : Canonicaliser := {| Transform data := al <$> Transform_bytes (la data) |}.
