(* ===== verification/MarshalProps.v ===== *)
(** * What escaping for HTML keeps

    [encoding/json] escapes in a string the characters HTML reserves: that is
    another spelling of the string, with the same half pairs, so a value
    compacted decodes to what it decoded to ([html_keeps]). *)
From S2P Require Import Prelude Strconv StrconvProps Utf8 Json Jcs Ijson Utf8Props NumberProps JsonProps.
From S2P Require Import JcsSort JcsProps JsonTokens IjsonProps JsonPrint JcsRoundtrip Marshal.
Open Scope session_scope.
Local Open Scope Z_scope.

(** ** The escapes, as a relation *)

Inductive html_of : list ascii -> list ascii -> Prop :=
  | html_nil : html_of [] []
  | html_char c b b' : c <> quote -> c <> backslash -> 32 <= byte_of c -> html_of b b' -> html_of (c :: b) (c :: b')
  | html_escape e v b b' : e <> "u"%char -> escape_val e = Some v -> html_of b b' ->
      html_of (backslash :: e :: b) (backslash :: e :: b')
  | html_unit h1 h2 h3 h4 r b b' : hex4 [h1; h2; h3; h4] = Some (r, []) -> html_of b b' ->
      html_of (backslash :: "u"%char :: h1 :: h2 :: h3 :: h4 :: b) (backslash :: "u"%char :: h1 :: h2 :: h3 :: h4 :: b')
  | html_rune r h1 h2 h3 h4 b b' : hex4 [h1; h2; h3; h4] = Some (r, []) -> scalar r -> 32 <= r -> r <> 34 -> r <> 92 ->
      html_of b b' ->
      html_of (EncodeRune r ++ b) (backslash :: "u"%char :: h1 :: h2 :: h3 :: h4 :: b').

Lemma html_body_plain c b : c <> "<"%char -> c <> ">"%char -> c <> "&"%char -> byte_of c <> 226 ->
  html_body (c :: b) = c :: html_body b.
Proof. intros H1 H2 H3 H4. cbn [html_body]. rewrite !bool_decide_eq_false_2 //. by apply Z.eqb_neq in H4 as ->. Qed.

Lemma is_hex_plain c v : hex_val c = Some v -> c <> "<"%char /\ c <> ">"%char /\ c <> "&"%char /\ byte_of c <> 226.
Proof. intros H. pose proof (hex_val_range c v H) as [_ Hr]. split_and!; [by intros ->..|lia]. Qed.

Lemma escape_val_plain e v : escape_val e = Some v -> e <> "<"%char /\ e <> ">"%char /\ e <> "&"%char /\ byte_of e <> 226.
Proof. intros H. pose proof (escape_val_ascii e v H) as [Hr _]. split_and!; [by intros ->..|lia]. Qed.

Lemma hex4_inv h1 h2 h3 h4 r : hex4 [h1; h2; h3; h4] = Some (r, []) ->
  Forall (fun c => exists v, hex_val c = Some v) [h1; h2; h3; h4].
Proof.
  cbn [hex4]. destruct (hex_val h1) eqn:?, (hex_val h2) eqn:?, (hex_val h3) eqn:?, (hex_val h4) eqn:?; try done.
  intros _. repeat constructor; eauto.
Qed.

Lemma body_tail c b : c <> backslash -> body (c :: b) -> body b.
Proof. intros Hc H. by inversion H. Qed.

Lemma html_body_of b : body b -> html_of b (html_body b).
Proof.
  remember (length b) as n eqn:Hn. revert b Hn. induction n as [n IH] using lt_wf_ind. intros b -> Hb.
  destruct Hb as [|c b Hq Hbs H32 Hb|e v b He Hv Hb|h1 h2 h3 h4 r b Hh Hb].
  - constructor.
  - assert (html_of b (html_body b)) as Hrec by (apply (IH (length b)); [simpl; lia|done..]).
    cbn [html_body]. destruct (bool_decide (c = "<"%char)) eqn:E1; [bool_prop; subst c; by apply (html_rune 60)|].
    destruct (bool_decide (c = ">"%char)) eqn:E2; [bool_prop; subst c; by apply (html_rune 62)|].
    destruct (bool_decide (c = "&"%char)) eqn:E3; [bool_prop; subst c; by apply (html_rune 38)|].
    destruct (byte_of c =? 226) eqn:E4; [|by constructor]. apply Z.eqb_eq in E4.
    destruct b as [|x [|y b]]; [by constructor..|].
    assert (forall z, byte_of y = z -> (byte_of x =? 128) && (byte_of y =? z) = true -> 168 <= z <= 169 ->
      c :: x :: y :: b = EncodeRune (8064 + z) ++ b /\ body b) as Hrune.
    { intros z Hz Hxy Hr. apply andb_true_iff in Hxy as [Hx _]. apply Z.eqb_eq in Hx.
      assert (x <> backslash /\ y <> backslash) as [Hxb Hyb] by (split; intros ->; by vm_compute in Hx, Hz; lia).
      split; [|by apply (body_tail y), (body_tail x)].
      rewrite -(ascii_of_byte c) -(ascii_of_byte x) -(ascii_of_byte y) E4 Hx Hz.
      by assert (z = 168 \/ z = 169) as [-> | ->] by lia. }
    assert (forall z, (byte_of x =? 128) && (byte_of y =? z) = true -> byte_of y = z) as Hy.
    { intros z Hz. apply andb_true_iff in Hz as [_ Hz]. by apply Z.eqb_eq in Hz. }
    destruct ((byte_of x =? 128) && (byte_of y =? 168)) eqn:E5.
    { destruct (Hrune 168 (Hy _ E5) E5 ltac:(lia)) as [-> Hb']. apply (html_rune 8232); [done..|]. apply (IH (length b)); [simpl; lia|done..]. }
    destruct ((byte_of x =? 128) && (byte_of y =? 169)) eqn:E6; [|by constructor].
    destruct (Hrune 169 (Hy _ E6) E6 ltac:(lia)) as [-> Hb']. apply (html_rune 8233); [done..|]. apply (IH (length b)); [simpl; lia|done..].
  - destruct (escape_val_plain e v Hv) as (? & ? & ? & ?). rewrite !html_body_plain //.
    apply html_escape with (v := v); [done..|]. apply (IH (length b)); [simpl; lia|done..].
  - pose proof (hex4_inv _ _ _ _ _ Hh) as Hx. rewrite !Forall_cons in Hx. destruct Hx as ((? & ?%is_hex_plain) & (? & ?%is_hex_plain) & (? & ?%is_hex_plain) & (? & ?%is_hex_plain) & _).
    destruct_and!. rewrite !html_body_plain //. apply html_unit with (r := r); [done|]. apply (IH (length b)); [simpl; lia|done..].
Qed.

(** ** What they keep *)

Lemma hex_surrogate r : is_surrogate r = false -> is_low r = false /\ is_high r = false.
Proof.
  unfold is_surrogate, is_low, is_high. rewrite !andb_false_iff !Z.leb_gt. lia.
Qed.

Lemma html_of_body b b' : html_of b b' -> body b'.
Proof.
  induction 1 as [|c b b' H1 H2 H3 _ IH|e v b b' Hu He _ IH|h1 h2 h3 h4 r b b' Hh _ IH|r h1 h2 h3 h4 b b' Hh _ _ _ _ _ IH].
  - constructor.
  - by apply body_char.
  - by apply body_escape with (v := v).
  - by apply body_u with (r := r).
  - by apply body_u with (r := r).
Qed.

(** The value of a body, and what half a pair before it would find. *)
Lemma html_of_unescape b b' : html_of b b' ->
  unescape b' = unescape b /\
  forall hi, match other_half hi b, other_half hi b' with
    | Some (lo, t), Some (lo', t') => lo = lo' /\ unescape t' = unescape t
    | None, None => True
    | _, _ => False
    end.
Proof.
  assert (forall hi c b, c <> backslash -> other_half hi (c :: b) = None) as Hnone.
  { clear. intros hi c b Hc. destruct b as [|u [|k1 [|k2 [|k3 [|k4 b]]]]]; [done..|]. cbn [other_half]. by rewrite bool_decide_eq_false_2. }
  assert (forall hi e b, e <> "u"%char -> other_half hi (backslash :: e :: b) = None) as Hnone'.
  { clear. intros hi e b He. destruct b as [|k1 [|k2 [|k3 [|k4 b]]]]; [done..|]. cbn [other_half]. by rewrite (bool_decide_eq_false_2 (e = _)) // ?andb_false_r. }
  induction 1 as [|c b b' H1 H2 H3 _ [IH _]|e v b b' Hu He _ [IH _]|h1 h2 h3 h4 r b b' Hh _ [IH IHh]|r h1 h2 h3 h4 b b' Hh Hr H32 H34 H92 _ [IH _]].
  - done.
  - split; [by rewrite !unescape_char // IH|]. intros hi. by rewrite !Hnone.
  - split; [by rewrite !(unescape_escape e v) // IH|]. intros hi. by rewrite !Hnone'.
  - split.
    + rewrite !(unescape_u _ _ _ _ r) //. destruct (is_surrogate r); [|by rewrite IH].
      specialize (IHh r). destruct (other_half r b) as [[lo t]|], (other_half r b') as [[lo' t']|]; try done; [|by rewrite IH].
      destruct IHh as [-> ->]. done.
    + intros hi. cbn [other_half]. by destruct (_ && _).
  - split.
    + rewrite (unescape_u _ _ _ _ r) // unescape_rune // IH. by destruct Hr as [_ ->].
    + intros hi. destruct (EncodeRune r) as [|c l] eqn:He.
      { exfalso. destruct (EncodeRune_shape r Hr) as [[_ E]|[[_ E]|[[_ E]|[_ E]]]]; by rewrite E in He. }
      pose proof (EncodeRune_plain r Hr H32 H34 H92) as Hp. rewrite He in Hp. apply Forall_cons in Hp as [(_ & Hc & _) _].
      cbn [app]. rewrite Hnone //.
      cbn [other_half]. rewrite Hh. unfold DecodeRune. cbn [fst fmap option_fmap option_map default]. unfold id.
      destruct Hr as [_ Hr]. destruct (hex_surrogate r Hr) as [Hl _]. unfold is_low in Hl.
      assert ((55296 <=? hi) && (hi <? 56320) && (56320 <=? r) && (r <? 57344) = false) as ->; [|by rewrite andb_false_r].
      rewrite -andb_assoc. apply andb_false_iff. right. rewrite andb_false_iff !Z.leb_gt in Hl. rewrite andb_false_iff Z.leb_gt Z.ltb_ge. lia.
Qed.

Lemma html_of_surrogates b b' : html_of b b' ->
  surrogates true b' = surrogates true b /\
  match second_half b, second_half b' with
  | Some t, Some t' => surrogates true t' = surrogates true t
  | None, None => True
  | _, _ => False
  end.
Proof.
  assert (forall c b, c <> backslash -> second_half (c :: b) = None) as Hnone.
  { clear. intros c b Hc. destruct b as [|u [|k1 [|k2 [|k3 [|k4 b]]]]]; [done..|]. cbn [second_half]. by rewrite bool_decide_eq_false_2. }
  assert (forall e b, e <> "u"%char -> second_half (backslash :: e :: b) = None) as Hnone'.
  { clear. intros e b He. destruct b as [|k1 [|k2 [|k3 [|k4 b]]]]; [done..|]. cbn [second_half]. by rewrite (bool_decide_eq_false_2 (e = _)) // ?andb_false_r. }
  induction 1 as [|c b b' H1 H2 H3 _ [IH _]|e v b b' Hu He _ [IH _]|h1 h2 h3 h4 r b b' Hh _ [IH IHh]|r h1 h2 h3 h4 b b' Hh Hr H32 H34 H92 _ [IH _]].
  - done.
  - split; [by rewrite !surrogates_char // IH|]. by rewrite !Hnone.
  - split; [by rewrite !surrogates_escape // IH|]. by rewrite !Hnone'.
  - split.
    + rewrite !(surrogates_u _ _ _ _ _ _ _ Hh). destruct (is_low r); [done|]. destruct (is_high r); [|done].
      destruct (second_half b), (second_half b'); done.
    + cbn [second_half]. rewrite Hh. by destruct (_ && _), (is_low r).
  - destruct (hex_surrogate r (proj2 Hr)) as [Hl Hhi]. pose proof (EncodeRune_plain r Hr H32 H34 H92) as Hp. split.
    + rewrite (surrogates_u _ _ _ _ _ _ _ Hh) Hl Hhi surrogates_plain //.
    + destruct (EncodeRune r) as [|c l] eqn:He.
      { exfalso. destruct (EncodeRune_shape r Hr) as [[_ E]|[[_ E]|[[_ E]|[_ E]]]]; by rewrite E in He. }
      apply Forall_cons in Hp as [(_ & Hc & _) _]. cbn [app]. rewrite Hnone //. cbn [second_half]. rewrite Hh Hl. by destruct (_ && _).
Qed.

(** *** Valid bytes *)

Lemma EncodeRune_tail r : scalar r -> Forall (fun c => 128 <= byte_of c <= 191) (tail (EncodeRune r)).
Proof.
  intros Hr. assert (forall x, 0 <= x < 64 -> 128 <= byte_of (ascii_of (128 + x)) <= 191) as Hc.
  { intros x Hx. rewrite byte_of_ascii; lia. }
  destruct (EncodeRune_shape r Hr) as [[_ ->]|[[_ ->]|[[_ ->]|[_ ->]]]]; cbn [tail];
    repeat (constructor; [apply Hc, Z.mod_pos_bound; lia|]); constructor.
Qed.

(** Bytes end before one that continues no sequence. *)
Lemma Valid_split p c l : ~ (128 <= byte_of c <= 191) -> Valid (p ++ c :: l) = true -> Valid p = true.
Proof.
  intros Hc Hv. apply Valid_encoded in Hv as (rs & Hrs & Heq). revert p Heq. induction Hrs as [|r rs Hr Hrs IH]; intros p Heq.
  - by destruct p.
  - rewrite encoded_cons in Heq. symmetry in Heq. apply app_eq_app in Heq as (k & [[H1 H2]|[H1 H2]]).
    + destruct k as [|d k]; [rewrite app_nil_r in H1; rewrite -H1; by apply Valid_scalar|].
      injection H2 as <- H2. destruct p as [|a p]; [done|]. exfalso. pose proof (EncodeRune_tail r Hr) as Ht.
      rewrite H1 in Ht. cbn [app tail] in Ht. apply Forall_app in Ht as [_ Ht]. apply Forall_cons in Ht as [Ht _]. done.
    + rewrite H1. apply Valid_app; [by apply Valid_scalar|]. by apply IH.
Qed.

Lemma Valid_after_rune r b : scalar r -> Valid (EncodeRune r ++ b) = true -> Valid b = true.
Proof. intros Hr. unfold Valid. by rewrite runes_EncodeRune. Qed.

Lemma EncodeRune_lead r : scalar r -> exists c l, EncodeRune r = c :: l /\ ~ (128 <= byte_of c <= 191).
Proof.
  intros Hr. pose proof (proj1 (scalar_range r) Hr) as Hrange.
  destruct (EncodeRune_shape r Hr) as [[H ->]|[[H ->]|[[H ->]|[H ->]]]]; do 2 eexists; (split; [done|]).
  - rewrite byte_of_ascii; lia.
  - assert (2 <= r / 64 < 32) by (split; [apply Z.div_le_lower_bound|apply Z.div_lt_upper_bound]; lia). rewrite byte_of_ascii; lia.
  - assert (0 <= r / 4096 < 16) by (split; [apply Z.div_le_lower_bound|apply Z.div_lt_upper_bound]; lia). rewrite byte_of_ascii; lia.
  - assert (0 <= r / 262144 < 5) by (split; [apply Z.div_le_lower_bound|apply Z.div_lt_upper_bound]; lia). rewrite byte_of_ascii; lia.
Qed.

Lemma html_of_Valid b b' : html_of b b' -> forall p, Valid (p ++ b) = true -> Valid (p ++ b') = true.
Proof.
  induction 1 as [|c b b' H1 H2 H3 _ IH|e v b b' Hu He _ IH|h1 h2 h3 h4 r b b' Hh _ IH|r h1 h2 h3 h4 b b' Hh Hr H32 H34 H92 _ IH]; intros p Hv.
  - done.
  - specialize (IH (p ++ [c])). rewrite -!app_assoc in IH. by apply IH.
  - specialize (IH (p ++ [backslash; e])). rewrite -!app_assoc in IH. by apply IH.
  - specialize (IH (p ++ [backslash; "u"%char; h1; h2; h3; h4])). rewrite -!app_assoc in IH. by apply IH.
  - destruct (EncodeRune_lead r Hr) as (c & l & He & Hc). assert (Valid p = true) as Hp.
    { apply (Valid_split p c (l ++ b)); [done|]. by rewrite He in Hv. }
    assert (Valid b = true) as Hb.
    { apply (Valid_after_rune r); [done|]. rewrite He. rewrite He in Hv. cbn [app] in Hv |- *.
      apply Valid_encoded in Hp as (rs & Hrs & ->). revert Hv. unfold Valid. by rewrite runes_encoded // forallb_app andb_true_iff => -[_ ->]. }
    apply Valid_app; [done|]. destruct (hex4_range _ _ _ _ _ _ Hh) as (_ & _ & Ha).
    apply (Valid_app [backslash; "u"%char; h1; h2; h3; h4]); [|by apply (IH [])].
    apply Valid_ascii_only. do 2 (constructor; [done|]). done.
Qed.

(** Escaping for HTML spells the same strings. *)
Lemma html_keeps : keeps html_body.
Proof.
  intros b Hb. pose proof (html_body_of b Hb) as H. split; [by apply (html_of_body b)|].
  split; [intros Hv; by apply (html_of_Valid _ _ H [])|]. split; [|by apply (html_of_surrogates _ _ H)].
  unfold unquote. by destruct (html_of_unescape _ _ H) as [-> _].
Qed.

(** *** A string, encoded *)

Lemma html_of_app a a' b b' : html_of a a' -> html_of b b' -> html_of (a ++ b) (a' ++ b').
Proof.
  induction 1 as [|c a a' H1 H2 H3 _ IH|e v a a' Hu He _ IH|h1 h2 h3 h4 r a a' Hh _ IH|r h1 h2 h3 h4 a a' Hh Hr H32 H34 H92 _ IH];
    intros Hb; [done|..].
  - cbn [app]. constructor; auto.
  - cbn [app]. apply html_escape with (v := v); auto.
  - cbn [app]. apply html_unit with (r := r); auto.
  - rewrite -app_assoc. cbn [app]. apply html_rune with (r := r); auto.
Qed.

Lemma marshal_body_of s : Valid s = true -> html_of (body_of s) (marshal_body s).
Proof.
  intros Hs. apply Valid_encoded in Hs as (rs & Hrs & ->). unfold body_of, marshal_body. rewrite range_encoded //.
  pose proof (runes_encoded rs [] Hrs) as Hr. rewrite !app_nil_r in Hr. rewrite Hr. clear Hr.
  induction Hrs as [|r rs Hr _ IH]; [constructor|]. rewrite !fmap_cons. change (spelled (r :: rs)) with (write_rune r ++ spelled rs).
  apply html_of_app; [|done]. apply html_body_of. destruct (write_rune_read r [] Hr body_nil) as [Hb _]. by rewrite app_nil_r in Hb.
Qed.

(** The name [json.Marshal] writes reads back, and has no half pair. *)
Lemma marshal_body_read s : Valid s = true ->
  body (marshal_body s) /\ unquote (marshal_body s) = s /\ surrogates true (marshal_body s) = Ok tt /\ Valid (marshal_body s) = true.
Proof.
  intros Hs. destruct (body_of_read s Hs) as (Hb & Hu & Hsur & Hv). pose proof (marshal_body_of s Hs) as H.
  split; [by apply (html_of_body _ _ H)|]. split; [|split].
  - etransitivity; [|exact Hu]. unfold unquote. by destruct (html_of_unescape _ _ H) as [-> _].
  - rewrite -Hsur. by apply (html_of_surrogates _ _ H).
  - by apply (html_of_Valid _ _ H []).
Qed.

(** ** Taking a printed value apart *)

Lemma consumed_app a r : consumed (a ++ r) r = a.
Proof. unfold consumed. rewrite length_app Nat.add_sub. apply take_app_length. Qed.

Lemma print_consumed d v r : well_spelled d v -> number_end r ->
  scan_value (fuel_for (print_raw v ++ r)) d (print_raw v ++ r) = Some (v, r) /\ consumed (print_raw v ++ r) r = print_raw v.
Proof. intros Hw Hr. split; [apply (print_scans v d r Hw Hr); unfold fuel_for; lia|apply consumed_app]. Qed.

Lemma print_member_texts ms r fuel : Forall (fun kv => body kv.1 /\ well_spelled 1 kv.2) ms -> ms <> [] -> (length ms <= fuel)%nat ->
  member_texts fuel (commas (map print_member ms) ++ "}"%char :: r) = Some (map (fun kv => (unquote kv.1, print_raw kv.2)) ms).
Proof.
  intros Hw. revert fuel. induction Hw as [|[k v] ms [Hk Hv] Hw IH]; intros fuel Hne Hl; [done|]. destruct fuel as [|fuel]; [simpl in Hl; lia|].
  cbn [fst snd map] in *.
  assert (exists rest, commas (print_member (k, v) :: map print_member ms) ++ "}"%char :: r =
      quote :: k ++ quote :: ":"%char :: print_raw v ++ rest /\ number_end rest /\
      match rest with
      | d :: l => d = ","%char /\ ms <> [] /\ l = commas (map print_member ms) ++ "}"%char :: r \/ d = "}"%char /\ ms = []
      | [] => False
      end) as (rest & -> & Hrest & Hcase).
  { destruct ms as [|kv2 ms].
    - exists ("}"%char :: r). cbn [map commas]. rewrite print_member_app. split_and!; [done..|]. by right.
    - exists (","%char :: commas (map print_member (kv2 :: ms)) ++ "}"%char :: r). cbn [map]. rewrite commas_cons -app_assoc print_member_app.
      split_and!; [done..|]. by left. }
  cbn [member_texts]. rewrite bool_decide_eq_true_2 // scan_body // skipWS_cons // bool_decide_eq_true_2 //.
  rewrite (tight_skipWS (print_raw v ++ rest)); [|by apply (print_tight 1)].
  destruct (print_consumed 1 v rest Hv Hrest) as [-> ->]. destruct rest as [|d l]; [done|].
  destruct Hcase as [(-> & Hms & ->)|(-> & ->)].
  - rewrite skipWS_cons // bool_decide_eq_true_2 //. rewrite tight_skipWS.
    + rewrite IH //. simpl in Hl. lia.
    + destruct ms as [|[k2 v2] ms]; [done|]. cbn [map]. destruct ms; [by rewrite print_member_app|].
      cbn [map]. by rewrite commas_cons -app_assoc print_member_app.
  - rewrite skipWS_cons // bool_decide_eq_false_2 // bool_decide_eq_true_2 //.
Qed.

Lemma commas_length l : Forall (fun t => t <> []) l -> (length l <= length (commas l))%nat.
Proof.
  induction 1 as [|x l Hx Hl IH]; [done|]. destruct x as [|c x]; [done|]. destruct l as [|y l]; [simpl; lia|].
  rewrite commas_cons length_app. cbn [length] in *. lia.
Qed.

(** An object, printed, is its members. *)
Lemma UnmarshalMap_print ms : well_spelled 0 (RObject ms) -> NoDup ((fun kv => unquote kv.1) <$> ms) ->
  UnmarshalMap (print_raw (RObject ms)) = Some (map (fun kv => (unquote kv.1, print_raw kv.2)) ms).
Proof.
  intros Hw Hnd. unfold UnmarshalMap.
  assert (json_Valid (print_raw (RObject ms)) = true) as -> by (apply json_Valid_document; eexists; by apply print_document).
  inversion Hw as [| | | | |? ? _ Hl]; subst. cbn [print_raw]. rewrite skipWS_cons // bool_decide_eq_true_2 //.
  change (fun kv : list ascii * raw => string_text kv.1 ++ ":"%char :: print_raw kv.2) with print_member.
  destruct (decide (ms = [])) as [->|Hne]; [done|].
  assert (exists t, commas (map print_member ms) ++ ["}"%char] = quote :: t) as [t Ht].
  { destruct ms as [|[k v] ms]; [done|]. cbn [map]. destruct ms; [eexists; apply print_member_app|].
    cbn [map]. rewrite commas_cons -app_assoc. eexists. apply print_member_app. }
  rewrite tight_skipWS; [|by rewrite Ht]. rewrite {1}Ht bool_decide_eq_false_2 // -Ht.
  rewrite print_member_texts //.
  - by rewrite set_members_NoDup // -list_fmap_compose.
  - cbn [length]. rewrite length_app. pose proof (commas_length (map print_member ms)) as Hlen. rewrite length_map in Hlen.
    assert (Forall (fun t => t <> []) (map print_member ms)) as Hf by (apply Forall_map, Forall_forall; by intros [k v] _).
    specialize (Hlen Hf). lia.
Qed.
