(* ===== verification/HashCanonical.v ===== *)
(** * The hashes of a canonical line

    With [encoding/json], the canonicaliser and the I-JSON test as they are
    ([Marshal.v], [Jcs.v], [Ijson.v]) in place of arguments: a line in canonical
    form hashes the same whether its members are sliced out of it or it is
    decoded and its body and its envelope are encoded and canonicalised again
    ([canonical_line_hashes]). *)
From S2P Require Import Prelude Entry Tree Calls Digest Hash HashProps Strconv StrconvProps Utf8 Json Jcs Ijson.
From S2P Require Import Utf8Props NumberProps JsonProps JcsSort JcsProps JsonTokens IjsonProps JsonPrint JcsRoundtrip.
From S2P Require Import Marshal MarshalProps.
Open Scope session_scope.
Local Open Scope Z_scope.

(** ** A map of printed values, encoded *)

Lemma insert_by_map {A B} (less : list ascii -> list ascii -> bool) (f : A -> B) x l :
  insert_by (fun a b => less a.1 b.1) (x.1, f x.2) (map (fun kv => (kv.1, f kv.2)) l) =
  map (fun kv => (kv.1, f kv.2)) (insert_by (fun a b => less a.1 b.1) x l).
Proof. induction l as [|y l IH]; [done|]. cbn [map insert_by fst]. destruct (less x.1 y.1); [done|]. by rewrite IH. Qed.

(** Sorting by name and changing the values. *)
Lemma sort_by_map {A B} (less : list ascii -> list ascii -> bool) (f : A -> B) l :
  sort_by (fun a b => less a.1 b.1) (map (fun kv => (kv.1, f kv.2)) l) =
  map (fun kv => (kv.1, f kv.2)) (sort_by (fun a b => less a.1 b.1) l).
Proof.
  induction l as [|x l IH]; [done|]. change (sort_by (fun a b => less a.1 b.1) (x :: l))
    with (insert_by (fun a b => less a.1 b.1) x (sort_by (fun a b => less a.1 b.1) l)).
  rewrite -insert_by_map -IH. done.
Qed.

Lemma well_spelled_less d d' v : d' <= d -> well_spelled d v -> well_spelled d' v.
Proof.
  revert d d'. induction v as [|b|n|b|l IH|ms IH] using raw_nested; intros d d' Hle Hw;
    inversion Hw as [| | | |? ? Hd Hl|? ? Hd Hl]; subst; constructor; try done; try lia.
  - clear Hw. induction IH as [|x l Hx _ IHl]; [constructor|]. apply Forall_cons in Hl as [? ?].
    constructor; [by apply (Hx (d + 1)); [lia|]|by apply IHl].
  - clear Hw. induction IH as [|x l Hx _ IHl]; [constructor|]. apply Forall_cons in Hl as [[? ?] ?].
    constructor; [split; [done|by apply (Hx (d + 1)); [lia|]]|by apply IHl].
Qed.

Lemma compact_print v : well_spelled 1 v -> compact (print_raw v) = Some (print_raw (map_bodies html_body v)).
Proof.
  intros Hw. destruct (print_document v (well_spelled_less 1 0 v ltac:(lia) Hw)) as (r & Hs & Hr).
  unfold compact. rewrite Hs bool_decide_eq_true_2 //.
Qed.

(** The member [json.Marshal] writes for a value under a name. *)
Definition marshalled (kv : list ascii * raw) : list ascii * raw := (marshal_body kv.1, map_bodies html_body kv.2).
Definition by_bytes {A} : list (list ascii * A) -> list (list ascii * A) := sort_by (fun a b => less_bytes a.1 b.1).
Definition printed (kv : list ascii * raw) : list ascii * list ascii := (kv.1, print_raw kv.2).

Lemma MarshalMap_print xs : Forall (fun kv => well_spelled 1 kv.2) xs ->
  MarshalMap (map printed xs) = Some (print_raw (RObject (map marshalled (by_bytes xs)))).
Proof.
  intros Hw. unfold MarshalMap. change printed with (fun kv : list ascii * raw => (kv.1, print_raw kv.2)).
  rewrite sort_by_map. change (sort_by (fun a b => less_bytes a.1 b.1) xs) with (by_bytes xs).
  rewrite -(sort_by_perm (fun a b => less_bytes a.1 b.1) xs) in Hw. change (sort_by (fun a b => less_bytes a.1 b.1) xs) with (by_bytes xs) in Hw.
  assert (mapM (fun kv => pair kv.1 <$> compact kv.2) (map (fun kv => (kv.1, print_raw kv.2)) (by_bytes xs)) =
    Some (map (fun kv => (kv.1, print_raw (map_bodies html_body kv.2))) (by_bytes xs))) as ->.
  { induction Hw as [|x l Hx _ IH]; [done|]. cbn [map mapM fst snd].
    rewrite compact_print //. simpl. by rewrite IH. }
  cbn [print_raw]. do 3 f_equal. rewrite !map_map -list_fmap_compose. f_equal.
Qed.

(** ** Members in canonical form *)

(** Members of distinct names in order, each value in canonical form. *)
Record canonical_members (xs : list (list ascii * raw)) : Prop := {
  cx_ordered : ordered fst xs;
  cx_keys : valid_keys fst xs;
  cx_spelled : Forall (fun kv => well_spelled 1 kv.2) xs;
  cx_valid : Forall (fun kv => valid_strings kv.2) xs;
  cx_clean : Forall (fun kv => clean kv.2) xs;
  cx_canonical : Forall (fun kv => write (interp kv.2) = Some (print_raw kv.2)) xs
}.

Definition object_of (xs : list (list ascii * raw)) : list ascii :=
  "{"%char :: commas (member_text <$> map printed xs) ++ ["}"%char].

Lemma Check_clean x : well_spelled 0 x -> valid_strings x -> clean x -> Check (print_raw x) = Ok tt.
Proof.
  intros Hw Hv [Hs Hc]. unfold Check. destruct (checkFast _); [done|].
  rewrite (checkTokens_document _ _ (print_document x Hw)) (Valid_print 0) // Hs. done.
Qed.

Section marshalled.
Variables xs ys : list (list ascii * raw).
Hypothesis Hxs : canonical_members xs.
Hypothesis Hp : ys ≡ₚ xs.

Lemma marshalled_keys : (fun kv => unquote kv.1) <$> map marshalled ys = ys.*1.
Proof.
  destruct Hxs as [_ Hk _ _ _ _]. unfold valid_keys in Hk; rewrite -Hp in Hk. clear -Hk. induction Hk as [|x l Hx _ IH]; [done|]. cbn [map]. rewrite !fmap_cons IH.
  f_equal. cbn [marshalled fst]. by apply marshal_body_read.
Qed.

Lemma marshalled_NoDup : NoDup ys.*1.
Proof. rewrite Hp. apply (ordered_NoDup fst), Hxs. Qed.

Lemma marshalled_spelled : well_spelled 0 (RObject (map marshalled ys)).
Proof.
  constructor; [done|]. apply Forall_map. destruct Hxs as [_ Hk Hw _ _ _]. unfold valid_keys in Hk; rewrite -Hp in Hk, Hw.
  apply (Forall_impl (fun kv => Valid kv.1 = true /\ well_spelled 1 kv.2)); [by apply Forall_and|].
  intros kv [? ?]. split; [by apply marshal_body_read|by apply (map_bodies_spelled _ html_keeps)].
Qed.

Lemma marshalled_valid : valid_strings (RObject (map marshalled ys)).
Proof.
  constructor. apply Forall_map. destruct Hxs as [_ Hk Hw Hv _ _]. unfold valid_keys in Hk; rewrite -Hp in Hk, Hw, Hv.
  apply (Forall_impl (fun kv => Valid kv.1 = true /\ (well_spelled 1 kv.2 /\ valid_strings kv.2))); [apply Forall_and; split; [done|by apply Forall_and]|].
  intros kv (? & ? & ?). split; [by apply marshal_body_read|by apply (map_bodies_valid _ html_keeps 1)].
Qed.

Lemma marshalled_clean : clean (RObject (map marshalled ys)).
Proof.
  apply clean_object; [rewrite marshalled_keys; apply marshalled_NoDup|]. apply Forall_map. destruct Hxs as [_ Hk Hw _ Hc _]. unfold valid_keys in Hk; rewrite -Hp in Hk, Hw, Hc.
  apply (Forall_impl (fun kv => Valid kv.1 = true /\ (well_spelled 1 kv.2 /\ clean kv.2))); [apply Forall_and; split; [done|by apply Forall_and]|].
  intros kv (? & ? & ?). split; [by apply marshal_body_read|by apply (map_bodies_clean _ html_keeps 1)].
Qed.

(** It passes the I-JSON test. *)
Lemma marshalled_checks : Check (print_raw (RObject (map marshalled ys))) = Ok tt.
Proof. apply Check_clean; [apply marshalled_spelled|apply marshalled_valid|apply marshalled_clean]. Qed.

(** Its canonical form is the members printed as they were. *)
Lemma marshalled_transforms : Transform_bytes (print_raw (RObject (map marshalled ys))) = Some (object_of xs).
Proof.
  rewrite Transform_bytes_decoded. apply transformDecoded_write.
  exists (interp (RObject (map marshalled ys))). split; [apply document_decodes, print_document, marshalled_spelled|].
  assert (interp (RObject (map marshalled ys)) = JObject (map (fun kv => (kv.1, interp kv.2)) ys)) as ->.
  { cbn [interp]. rewrite map_map. assert (map (fun kv => (unquote (marshalled kv).1, interp (marshalled kv).2)) ys =
      map (fun kv => (kv.1, interp kv.2)) ys) as ->.
    - apply map_ext_Forall. destruct Hxs as [_ Hk Hw _ _ _]. unfold valid_keys in Hk; rewrite -Hp in Hk, Hw.
      apply (Forall_impl (fun kv => Valid kv.1 = true /\ well_spelled 1 kv.2)); [by apply Forall_and|].
      intros kv [? ?]. cbn [marshalled fst snd]. f_equal; [by apply marshal_body_read|by apply (map_bodies_interp _ html_keeps 1)].
    - rewrite set_members_NoDup //. rewrite -list_fmap_compose. apply marshalled_NoDup. }
  rewrite write_object. destruct Hxs as [Ho Hk Hw _ _ Hc].
  assert (forall l, Forall (fun kv => write (interp kv.2) = Some (print_raw kv.2)) l ->
    mapM write_member (map (fun kv => (kv.1, interp kv.2)) l) = Some (map printed l)) as Hm.
  { clear. intros l. induction 1 as [|x l Hx _ IH]; [done|]. cbn [map mapM].
    assert (write_member (x.1, interp x.2) = Some (printed x)) as -> by (by apply write_member_Some). simpl. by rewrite IH. }
  rewrite Hm; [|by rewrite Hp]. cbn. f_equal. unfold object_text, object_of. do 4 f_equal.
  apply sort_by_unique.
  - unfold valid_keys in Hk; rewrite -Hp in Hk. by apply Forall_map.
  - by apply Permutation_map.
  - clear -Ho. induction Ho as [|x l _ IH Hx]; [constructor|]. cbn [map]. constructor; [done|]. by apply Forall_map.
Qed.
End marshalled.

(** ** A canonical object, read *)

Lemma member_text_body k x : k = body_of (unquote k) -> print_member (k, x) = member_text (unquote k, print_raw x).
Proof. intros Hk. unfold print_member, member_text. cbn [fst snd]. by rewrite writeString_body {1}Hk. Qed.

Definition named (kv : list ascii * raw) : list ascii * raw := (unquote kv.1, kv.2).

(** What a written value starts with says whether it is an object. *)
Lemma write_brace v c : write v = Some c -> head c = Some "{"%char -> exists ms, v = JObject ms.
Proof.
  destruct v as [|[]|lit|s|l|ms]; [by intros [= <-]..| | | |by eauto].
  - cbn [write]. destruct (ParseFloat lit) as [f|] eqn:Hp; [|done]. intros Hw Hh.
    destruct (FormatNumber_parses f c (ParseFloat_finite _ _ Hp) Hw) as (p & _ & Hok & -> & _).
    destruct (number_text_head p [] Hok) as (d & t & E & Hd). rewrite app_nil_r in E. rewrite E in Hh. injection Hh as ->.
    by destruct Hd.
  - by intros [= <-].
  - rewrite write_array. destruct (mapM write l); [|done]. by intros [= <-].
Qed.

Lemma canonical_object c : Transform_bytes c = Some c -> head c = Some "{"%char ->
  exists xs, c = print_raw (RObject xs) /\ well_spelled 0 (RObject xs) /\ Check c = Ok tt /\ NoDup ((fun kv => unquote kv.1) <$> xs) /\
    c = object_of (map named xs) /\ canonical_members (map named xs).
Proof.
  rewrite Transform_bytes_decoded. intros (v & Hdec & Hw)%transformDecoded_write Hh. apply decodes_decoded in Hdec.
  destruct (write_brace v c Hw Hh) as [ms ->].
  destruct (write_object_members 0 ms c) as (xs & -> & Hsp & Hval & Hint & Hcl & H2); [|done..|].
  { apply Forall_forall. intros kv _. apply reads_back. }
  inversion Hdec as [| | | | |? ? _ Hnd Hms]; subst. rewrite -(sort_by_perm less_member ms) in Hnd, Hms.
  assert (ordered fst (sort_by less_member ms)) as Ho.
  { apply sort_by_ordered; [|by rewrite -(sort_by_perm less_member ms)].
    rewrite ->(sort_by_perm less_member ms) in Hms. apply (Forall_impl _ _ _ Hms). by intros kv [? _]. }
  pose proof (Check_clean _ Hsp Hval Hcl) as Hck.
  inversion Hsp as [| | | | |? ? _ Hspx]; subst. inversion Hval as [| | | | |? Hvalx]; subst.
  destruct Hcl as [Hsur Hch]. rewrite surrogates_raw_object surrogates_members_Ok in Hsur. rewrite check_raw_object check_members_Ok in Hch.
  destruct Hch as [Hndx Hch]. exists xs. split; [done|]. split; [done|]. split; [exact Hck|]. split; [done|].
  revert H2 Ho Hms Hspx Hvalx Hsur Hch. generalize (sort_by less_member ms) as l. clear. intros l H2 Ho Hms Hsp Hval Hsur Hch.
  assert (Forall (fun x => x.1 = body_of (unquote x.1)) xs) as Hbody.
  { clear -H2. induction H2 as [|kv x l xs (Hk & Hu & _) _ IH]; constructor; [by rewrite Hu|done]. }
  split.
  { unfold object_of. cbn [print_raw]. do 3 f_equal. change (fun kv : list ascii * raw => string_text kv.1 ++ ":"%char :: print_raw kv.2) with print_member.
    clear -Hbody. induction Hbody as [|[k x] xs Hx _ IH]; [done|]. cbn [map]. rewrite fmap_cons IH. f_equal. by apply member_text_body. }
  constructor.
  - clear -H2 Ho. revert Ho. induction H2 as [|kv x l xs (_ & Hu & _) H2 IH]; intros Ho; [constructor|].
    inversion Ho as [|? ? Ho' Hall]; subst. cbn [map]. constructor; [by apply IH|].
    apply Forall_map. clear -Hall H2 Hu. induction H2 as [|kv' x' l xs (_ & Hu' & _) _ IH]; [constructor|].
    apply Forall_cons in Hall as [? ?]. constructor; [|by apply IH]. cbn [named fst]. by rewrite Hu Hu'.
  - apply Forall_map, Forall_forall. intros kv _. apply Valid_unquote.
  - apply Forall_map. apply (Forall_impl _ _ _ Hsp). by intros kv [_ ?].
  - apply Forall_map. apply (Forall_impl _ _ _ Hval). by intros kv [_ ?].
  - apply Forall_map. apply (Forall_impl (fun kv => (surrogates true kv.1 = Ok tt /\ surrogates_raw kv.2 = Ok tt) /\ (unquote kv.1 ∉ [] /\ check_raw kv.2 = Ok tt)));
      [by apply Forall_and|]. intros kv [[_ ?] [_ ?]]. by split.
  - apply Forall_map. clear -H2 Hms. induction H2 as [|kv x l xs (_ & _ & Hi & Hw) _ IH]; [constructor|].
    apply Forall_cons in Hms as [[_ Hd] Hms]. constructor; [|by apply IH]. cbn [named snd]. by rewrite Hi (write_norm _ _ Hd).
Qed.

(** ** A printed value, as the slicing's grammar has it *)

Definition plain_char (c : ascii) : Prop := c <> Json.quote /\ ~ opener c /\ ~ closer c /\ c <> ","%char.

Lemma nested_plain l r : Forall plain_char l -> nested r -> nested (l ++ r).
Proof. induction 1 as [|c l (? & ? & ? & _) _ IH]; [done|]. intros Hr. cbn [app]. apply ne_char; auto. Qed.

Lemma nested_app a b : nested a -> nested b -> nested (a ++ b).
Proof.
  induction 1 as [|c s H1 H2 H3 _ IH|x s Hx _ IH|o c s s' Ho Hc Hs _ _ IH]; intros Hb; [done|..].
  - cbn [app]. apply ne_char; auto.
  - cbn [app]. rewrite -app_assoc. cbn [app]. apply ne_string; auto.
  - cbn [app]. rewrite -app_assoc. cbn [app]. apply ne_brackets; auto.
Qed.

Lemma digit_plain c : is_digit c = true -> plain_char c.
Proof.
  intros H. unfold plain_char, opener, closer.
  split_and!; [by apply is_digit_not|intros [-> | ->]; done|intros [-> | ->]; done|by apply is_digit_not].
Qed.

Lemma plain_of c : c ∈ ["-"%char; "+"%char; "."%char; "e"%char; "E"%char] -> plain_char c.
Proof.
  rewrite !elem_of_cons elem_of_nil. unfold plain_char, opener, closer.
  intros [->|[->|[->|[->|[->|[]]]]]]; (split_and!; [done|intros [|]; done|intros [|]; done|done]).
Qed.

Lemma number_plain n : number_ok n -> Forall plain_char (number_text n).
Proof. apply number_chars; [apply digit_plain|apply plain_of]. Qed.

Lemma body_strbody b : body b -> strbody b.
Proof.
  induction 1 as [|c b Hq Hb _ _ IH|e v b Hu He _ IH|h1 h2 h3 h4 r b Hh _ IH]; [by constructor|by apply sb_plain|by apply sb_escape|].
  apply sb_escape. pose proof (hex4_inv _ _ _ _ _ Hh) as Hx. rewrite !Forall_cons in Hx.
  destruct Hx as ((? & H1) & (? & H2) & (? & H3) & (? & H4) & _).
  assert (forall c v, hex_val c = Some v -> c <> quote /\ c <> backslash) as Hc by (intros c v Hv; by split; intros ->).
  apply sb_plain; [by eapply Hc..|]. apply sb_plain; [by eapply Hc..|]. apply sb_plain; [by eapply Hc..|]. apply sb_plain; [by eapply Hc..|done].
Qed.

Lemma string_nested b : body b -> nested (string_text b).
Proof. intros Hb. apply (ne_string b []); [by apply body_strbody|constructor]. Qed.

Lemma comma_nested l : Forall nested l -> nested (commas l).
Proof.
  induction 1 as [|x l Hx Hl IH]; [constructor|]. destruct l as [|y l]; [done|]. rewrite commas_cons.
  apply nested_app; [done|]. apply ne_char; [done|by intros [|]|by intros [|]|done].
Qed.

Lemma print_nested d v : well_spelled d v -> nested (print_raw v).
Proof.
  revert d. induction v as [|b|n|b|l IH|ms IH] using raw_nested; intros d Hw; inversion Hw as [| |? ? Hn|? ? Hb|? ? _ Hl|? ? _ Hl]; subst; cbn [print_raw].
  - rewrite -(app_nil_r (Json.la "null")). apply nested_plain; [|constructor].
    repeat (constructor; [unfold plain_char, opener, closer; naive_solver|]); constructor.
  - destruct b; [rewrite -(app_nil_r (Json.la "true"))|rewrite -(app_nil_r (Json.la "false"))]; (apply nested_plain; [|constructor]);
      repeat (constructor; [unfold plain_char, opener, closer; naive_solver|]); constructor.
  - rewrite -(app_nil_r (number_text n)). apply nested_plain; [by apply number_plain|constructor].
  - by apply string_nested.
  - apply (ne_brackets _ _ _ []); [by right|by right| |constructor]. apply comma_nested, Forall_map. clear Hw.
    induction IH as [|x l Hx _ IHl]; [constructor|]. apply Forall_cons in Hl as [? ?]. constructor; [by eapply Hx|by apply IHl].
  - apply (ne_brackets _ _ _ []); [by left|by left| |constructor]. apply comma_nested, Forall_map. clear Hw.
    induction IH as [|[k x] l Hx _ IHl]; [constructor|]. apply Forall_cons in Hl as [[? ?] ?]. constructor; [|by apply IHl].
    apply nested_app; [by apply string_nested|]. apply ne_char; [done|by intros [|]|by intros [|]|by eapply Hx].
Qed.

Lemma scalar_value c s : plain_char c -> Forall plain_char s -> value (c :: s).
Proof.
  intros Hc Hs. pose proof Hc as (? & ? & _ & _). apply va_scalar; [done..|]. intros x Hx Hst.
  assert (plain_char x) as (_ & _ & Hcl & Hcomma).
  { apply elem_of_cons in Hx as [->|Hx]; [done|]. rewrite Forall_forall in Hs. by apply Hs. }
  by destruct Hst as [->|?].
Qed.

Lemma print_value d v : well_spelled d v -> value (print_raw v).
Proof.
  intros Hw. pose proof (print_nested d v Hw) as Hne. destruct Hw as [d|d b|d n Hn|d b Hb|d l _ Hl|d ms _ Hl]; cbn [print_raw] in *.
  - apply null_value.
  - destruct b; (apply scalar_value; [|]); repeat (constructor; [unfold plain_char, opener, closer; naive_solver|]); try constructor;
      unfold plain_char, opener, closer; naive_solver.
  - pose proof (number_plain n Hn) as Hp. destruct (number_text_head n [] Hn) as (c & t & E & _). rewrite app_nil_r in E.
    rewrite E in Hp |- *. apply Forall_cons in Hp as [? ?]. by apply scalar_value.
  - by apply va_string, body_strbody.
  - apply va_brackets; [by right|by right|]. apply comma_nested, Forall_map. apply (Forall_impl _ _ _ Hl). intros x. apply print_nested.
  - apply va_brackets; [by left|by left|]. apply comma_nested, Forall_map. apply (Forall_impl _ _ _ Hl). intros [k x] [? ?].
    apply nested_app; [by apply string_nested|]. apply ne_char; [done|by intros [|]|by intros [|]|by eapply print_nested].
Qed.

(** ** The members the slicing finds *)

Definition mem (kv : list ascii * raw) : canonicalMember :=
  Hash.mkMember (al kv.1) (al (member_text (printed kv))) (al (print_raw kv.2)).

#[local] Existing Instance json_tools.
#[local] Existing Instance jcs_canonicaliser.

Lemma al_app a b : al (a ++ b) = (al a ++ al b)%string.
Proof. induction a as [|c a IH]; [done|]. cbn [app]. simpl. by rewrite IH. Qed.

Lemma al_inj a b : al a = al b -> a = b.
Proof. intros H. by rewrite -(la_al a) -(la_al b) H. Qed.

Lemma print_mem zs : print (map mem zs) = al (object_of zs).
Proof.
  unfold print, object_of. change ("{"%char :: ?l) with (["{"%char] ++ l). rewrite !al_app. do 2 f_equal.
  induction zs as [|x zs IH]; [done|]. destruct zs as [|y zs]; [done|]. cbn [map] in *. rewrite !fmap_cons in IH |- *.
  rewrite commas_cons. change (?a ++ ","%char :: ?b) with (a ++ [","%char] ++ b). rewrite al_app (al_app [","%char]) -IH. done.
Qed.

Lemma la_of_al l : la (al l) = l.
Proof. apply la_al. Qed.

Lemma UnmarshalText_print b : body b -> UnmarshalText (string_text b) = Some (unquote b).
Proof.
  intros Hb. pose proof (print_document (RString b) ltac:(by constructor)) as Hdoc. unfold UnmarshalText.
  assert (json_Valid (string_text b) = true) as -> by (apply json_Valid_document; by eexists).
  destruct Hdoc as (r & Hs & _). change (print_raw (RString b)) with (string_text b) in Hs. by rewrite Hs.
Qed.

Lemma mem_well_formed xs kv : canonical_members xs -> kv ∈ xs -> well_formed (mem kv).
Proof.
  intros [_ Hk Hw _ _ _] Hin. unfold valid_keys in Hk. rewrite Forall_forall in Hk. rewrite Forall_forall in Hw.
  specialize (Hk kv Hin). specialize (Hw kv Hin). destruct (body_of_read kv.1 Hk) as (Hb & Hu & _ & Hv).
  exists (JcsRoundtrip.body_of kv.1), (print_raw kv.2).
  split; [by apply body_strbody|]. split; [by eapply print_value|]. split.
  { unfold mem, member_text. cbn [cm_raw printed fst snd]. rewrite writeString_body.
    f_equal. apply string_text_app. }
  split; [done|]. cbn [mem cm_key]. case_decide as Hbs.
  - cbn [UnmarshalString json_tools]. rewrite la_of_al.
    transitivity (al <$> UnmarshalText (string_text (JcsRoundtrip.body_of kv.1))); [done|].
    by rewrite UnmarshalText_print // Hu.
  - f_equal. etransitivity; [symmetry; exact Hu|]. rewrite unquote_Valid // unescape_plain //.
    apply Forall_forall. by intros c Hc ->.
Qed.

(** *** Encoded as a map *)

Lemma to_list_of_map (zs : list (list ascii * raw)) : NoDup zs.*1 ->
  map (fun kv => (la kv.1, la kv.2)) (map_to_list (map_of (map mem zs))) ≡ₚ map printed zs.
Proof.
  intros Hnd. unfold map_of.
  assert ((fun m => (cm_key m, cm_val m)) <$> map mem zs = map (fun kv => (al kv.1, al (print_raw kv.2))) zs) as ->.
  { change map with (@fmap list _). by rewrite -list_fmap_compose. }
  rewrite map_to_list_to_map.
  - rewrite map_map. erewrite map_ext; [done|]. intros kv. cbn [fst snd]. unfold printed. by rewrite !la_of_al.
  - rewrite -list_fmap_compose. change (fst ∘ _) with (fun kv : list ascii * raw => al kv.1).
    clear -Hnd. induction zs as [|x zs IH]; [constructor|]. rewrite fmap_cons NoDup_cons in Hnd. destruct Hnd as [Hx Hnd].
    rewrite fmap_cons. constructor; [|by apply IH]. intros Hin. apply list_elem_of_fmap in Hin as (y & Heq & Hy).
    apply al_inj in Heq. apply Hx. rewrite Heq. by apply list_elem_of_fmap_2.
Qed.

Lemma canonical_encodes zs : canonical_members zs -> encodes (map mem zs).
Proof.
  intros Hzs. pose proof (ordered_NoDup fst _ (cx_ordered _ Hzs)) as Hnd.
  pose proof (to_list_of_map zs Hnd) as Hp. apply Permutation_map_inv in Hp as (ys & Hys & Hp). symmetry in Hp.
  assert (by_bytes ys ≡ₚ zs) as Hby by (unfold by_bytes; by rewrite sort_by_perm).
  exists (al (print_raw (RObject (map marshalled (by_bytes ys))))). cbn [MarshalMembers ijson_Check Transform json_tools jcs_canonicaliser].
  rewrite Hys MarshalMap_print; [|by rewrite Hp; apply Hzs]. split; [done|].
  rewrite !la_of_al (marshalled_checks zs) // (marshalled_transforms zs) // print_mem. done.
Qed.

(** Some of the members are canonical members. *)
Lemma canonical_filter (P : list ascii * raw -> Prop) `{forall x, Decision (P x)} xs :
  canonical_members xs -> canonical_members (filter P xs).
Proof.
  assert (forall (Q : list ascii * raw -> Prop) l, Forall Q l -> Forall Q (filter P l)) as Hf.
  { intros Q l. rewrite !Forall_forall. intros Hl x Hx. apply list_elem_of_filter in Hx as [_ Hx]. by apply Hl. }
  intros [Ho Hk Hw Hv Hc Hcan]. constructor; try (by apply Hf).
  induction Ho as [|x l Ho IH Hx]; [constructor|]. apply Forall_cons in Hk as [_ Hk], Hw as [_ Hw], Hv as [_ Hv], Hc as [_ Hc], Hcan as [_ Hcan].
  rewrite filter_cons. destruct (decide (P x)); [|by apply IH]. constructor; [by apply IH|by apply Hf].
Qed.

Lemma body_members_mem zs : body_members (map mem zs) = map mem (filter (fun kv => isEnvelopeKey (al kv.1) = false) zs).
Proof.
  unfold body_members. induction zs as [|x zs IH]; [done|]. cbn [map]. rewrite !filter_cons. cbn [mem cm_key].
  destruct (decide (isEnvelopeKey (al x.1) = false)); [|done]. cbn [map]. by rewrite IH.
Qed.

(** ** The envelope *)

Definition tame_char (c : ascii) : Prop := 32 <= byte_of c < 128 /\ c <> Json.quote /\ c <> Json.backslash.

Lemma write_tame c : tame_char c -> write_rune (byte_of c) = [c].
Proof.
  intros (Hr & Hq & Hb). assert (byte_of c <> 34 /\ byte_of c <> 92) as [H1 H2].
  { split; intros H; [apply Hq|apply Hb]; apply byte_inj; rewrite H; done. }
  destruct (EncodeRune_1 c ltac:(lia)) as [_ He]. unfold write_rune.
  repeat (match goal with |- context [?a =? ?b] => decide_bool (a =? b) false end).
  by decide_bool (byte_of c <? 32) false.
Qed.

(** A text with nothing in it to escape is its own body. *)
Lemma tame_text l : Forall tame_char l ->
  body l /\ Valid l = true /\ unquote l = l /\ JcsRoundtrip.body_of l = l /\ surrogates true l = Ok tt.
Proof.
  intros Hl. assert (Forall (fun c => c <> Json.quote /\ c <> Json.backslash /\ 32 <= byte_of c) l) as Hp.
  { apply (Forall_impl _ _ _ Hl). intros c ([? _] & ? & ?). done. }
  assert (body l) as Hb by (rewrite -(app_nil_r l); apply body_plain; [done|constructor]).
  assert (Valid l = true) as Hv.
  { apply Valid_ascii_only. apply (Forall_impl _ _ _ Hl). by intros c ([_ ?] & _). }
  split; [done|]. split; [done|]. split.
  { rewrite unquote_Valid // unescape_plain //. apply (Forall_impl _ _ _ Hp). by intros c (_ & ? & _). }
  split; [|by rewrite -(app_nil_r l) surrogates_plain].
  unfold JcsRoundtrip.body_of. assert (range_runes l = byte_of <$> l) as ->.
  { unfold range_runes. clear -Hl. induction Hl as [|c l (Hc & _) _ IH]; [done|]. cbn [runes]. decide_bool (byte_of c <? 128) true.
    rewrite !fmap_cons IH. done. }
  unfold spelled. clear -Hl. induction Hl as [|c l Hc _ IH]; [done|]. rewrite !fmap_cons. cbn [mjoin list_join]. rewrite write_tame // IH. done.
Qed.

Lemma hex_tame c : hex_char c = true -> tame_char c.
Proof.
  unfold hex_char, tame_char, byte_of. rewrite orb_true_iff !andb_true_iff !N.leb_le. intros H. split_and!; [lia|lia|intros ->|intros ->];
    vm_compute in H; intuition congruence.
Qed.

Lemma str_forall_la f s : str_forall f s = true -> Forall (fun c => f c = true) (HashProps.la s).
Proof. induction s as [|c s IH]; [constructor|]. cbn [str_forall]. rewrite andb_true_iff. intros [Hc Hs]. constructor; [done|by apply IH]. Qed.

Section envelope.
Context {SH : SHA256}.

Lemma hash_tame s : Forall tame_char (HashProps.la (HashBytes s)).
Proof.
  unfold HashBytes. rewrite la_app. apply Forall_app. split.
  - repeat (constructor; [unfold tame_char; vm_compute; intuition congruence|]). constructor.
  - apply (Forall_impl (fun c => hex_char c = true)); [apply str_forall_la, sha256hex_form|apply hex_tame].
Qed.

Lemma member_mem k x : Forall tame_char (HashProps.la k) -> HashProps.member k (al (print_raw x)) = mem (HashProps.la k, x).
Proof.
  intros Hk. destruct (tame_text _ Hk) as (_ & _ & _ & Hb & _). unfold HashProps.member, mem. cbn [fst snd]. rewrite al_la. f_equal.
  unfold member_text, printed. cbn [fst snd]. rewrite writeString_body Hb. cbn [app].
  rewrite -app_assoc -(al_la (_ ++ _)%string). f_equal. by rewrite !la_app la_al.
Qed.

(** A value of the envelope. *)
Record good_value (x : raw) : Prop := {
  gv_spelled : well_spelled 1 x;
  gv_valid : valid_strings x;
  gv_clean : clean x;
  gv_canonical : write (interp x) = Some (print_raw x)
}.

Lemma good_null : good_value RNull.
Proof. split; repeat constructor. Qed.

Lemma good_hash s : good_value (RString (HashProps.la (HashBytes s))).
Proof.
  destruct (tame_text _ (hash_tame s)) as (Hb & Hv & Hu & Hbo & Hs). split; [by constructor|by constructor|by split|].
  cbn [interp write print_raw]. rewrite Hu. by rewrite writeString_body Hbo.
Qed.

Lemma good_member xs x : canonical_members xs -> x ∈ xs -> good_value x.2.
Proof.
  intros [_ _ Hw Hv Hc Hcan] Hin. rewrite Forall_forall in Hw. rewrite Forall_forall in Hv. rewrite Forall_forall in Hc. rewrite Forall_forall in Hcan.
  split; auto.
Qed.

Lemma lookup_good xs k v : canonical_members xs -> member_lookup k (map mem xs) = Some v -> exists x, good_value x /\ v = al (print_raw x).
Proof.
  intros Hxs Hl. apply fmap_Some in Hl as (m & Hm & ->). apply last_Some_elem_of, list_elem_of_filter in Hm as [_ Hm].
  apply list_elem_of_fmap in Hm as (x & -> & Hx). exists x.2. split; [by eapply good_member|done].
Qed.

Lemma orNull_good xs k : canonical_members xs -> exists x, good_value x /\ orNull (member_lookup k (map mem xs)) = al (print_raw x).
Proof.
  intros Hxs. unfold orNull. destruct (member_lookup k (map mem xs)) as [v|] eqn:Hl; [by eapply lookup_good|].
  exists RNull. split; [apply good_null|done].
Qed.

Lemma envelope_key k : k ∈ ["content"; "parent"; "parents"; "ts"; "type"] -> Forall tame_char (HashProps.la k).
Proof.
  rewrite !elem_of_cons elem_of_nil. intros [->|[->|[->|[->|[->|[]]]]]];
    (repeat (constructor; [unfold tame_char; vm_compute; intuition congruence|])); constructor.
Qed.

(** Members under the envelope's names, in their order. *)
Lemma canonical_named ks xs : Forall (fun k => k ∈ ["content"; "parent"; "parents"; "ts"; "type"]) ks ->
  Forall good_value xs -> length ks = length xs -> ordered HashProps.la ks ->
  canonical_members (zip (map HashProps.la ks) xs).
Proof.
  intros Hks Hxs Hlen Hs. revert xs Hxs Hlen. induction Hks as [|k ks Hk Hks IH]; intros xs Hxs Hlen.
  { split; constructor. }
  destruct xs as [|x xs]; [done|]. apply Forall_cons in Hxs as [[Hw Hv Hc Hcan] Hxs]. injection Hlen as Hlen.
  inversion Hs as [|? ? Hs' Hall]; subst. destruct (IH Hs' xs Hxs Hlen) as [Ho Hk' Hw' Hv' Hc' Hcan'].
  cbn [map zip zip_with]. split; unfold ordered, valid_keys in *; (apply Forall_cons || apply sorting.StronglySorted_cons); (split; [try done|done]).
  - clear -Hall. revert xs. induction Hall as [|k' ks ? _ IH]; intros [|x' xs]; constructor; [done|apply IH].
  - by apply (tame_text _ (envelope_key _ Hk)).
Qed.

Lemma map_member_mem ks xs : Forall (fun k => k ∈ ["content"; "parent"; "parents"; "ts"; "type"]) ks ->
  zip_with (fun k x => HashProps.member k (al (print_raw x))) ks xs = map mem (zip (map HashProps.la ks) xs).
Proof.
  intros Hks. revert xs. induction Hks as [|k ks Hk _ IH]; intros xs; [done|]. destruct xs as [|x xs]; [done|].
  cbn [map zip zip_with]. rewrite IH member_mem //. by apply envelope_key.
Qed.

(** The envelope's members are in canonical form. *)
Lemma envelope_canonical xs s : canonical_members xs ->
  exists zs, envelope_members (map mem xs) (HashBytes s) = map mem zs /\ canonical_members zs.
Proof.
  intros Hxs. destruct (orNull_good xs "parent" Hxs) as (xp & Hxp & Hp), (orNull_good xs "ts" Hxs) as (xt & Hxt & Ht),
    (orNull_good xs "type" Hxs) as (xy & Hxy & Hy).
  assert (Quote (HashBytes s) = al (print_raw (RString (HashProps.la (HashBytes s))))) as Hq.
  { unfold Quote, dquote. cbn [print_raw]. rewrite -(al_la (_ ++ _)%string). f_equal. by rewrite !la_app. }
  unfold envelope_members. rewrite Hp Ht Hy Hq.
  assert (parents_member (member_lookup "parents" (map mem xs)) = None \/
    exists x, good_value x /\ parents_member (member_lookup "parents" (map mem xs)) = Some (al (print_raw x))) as Hpar.
  { unfold parents_member. destruct (member_lookup "parents" (map mem xs)) as [v|] eqn:Hl; [|by left].
    destruct (lookup_good xs _ v Hxs Hl) as (x & Hx & ->). destruct (UnmarshalList _) as [[|]|]; [by left| |by left]. right. by exists x. }
  destruct Hpar as [->|(x & Hx & ->)].
  - exists (zip (map HashProps.la ["content"; "parent"; "ts"; "type"]) [RString (HashProps.la (HashBytes s)); xp; xt; xy]).
    rewrite -map_member_mem; [|by repeat (constructor; [set_solver|])]. split; [done|].
    apply canonical_named; [by repeat (constructor; [set_solver|])| |done|by repeat constructor].
    repeat (constructor; [by [|apply good_hash]|]). constructor.
  - exists (zip (map HashProps.la ["content"; "parent"; "parents"; "ts"; "type"]) [RString (HashProps.la (HashBytes s)); xp; x; xt; xy]).
    rewrite -map_member_mem; [|by repeat (constructor; [set_solver|])]. split; [done|].
    apply canonical_named; [by repeat (constructor; [set_solver|])| |done|by repeat constructor].
    repeat (constructor; [by [|apply good_hash]|]). constructor.
Qed.
End envelope.

(** ** The two ways to the hashes *)

Lemma canonical_line c : Transform_bytes c = Some c -> head c = Some "{"%char ->
  exists zs, c = object_of zs /\ canonical_members zs /\ Check c = Ok tt /\
    UnmarshalMap c = Some (map printed zs).
Proof.
  intros Ht Hh. destruct (canonical_object c Ht Hh) as (xs & Hc & Hw & Hck & Hnd & Hzs & Hcan). exists (map named xs).
  split_and!; [done..|].
  rewrite {1}Hc UnmarshalMap_print //. f_equal. by rewrite map_map.
Qed.

Section hashes.
Context {SH : SHA256}.

Lemma canonical_line_encoding zs : canonical_members zs -> Check (object_of zs) = Ok tt ->
  UnmarshalMap (object_of zs) = Some (map printed zs) -> line_encoding (map mem zs).
Proof.
  intros Hzs Hck Hum. split.
  - rewrite print_mem. cbn [ijson_Check json_tools]. by rewrite la_of_al.
  - rewrite print_mem. cbn [UnmarshalMembers json_tools]. rewrite la_of_al Hum. cbn. f_equal. unfold to_map, map_of. f_equal.
    change map with (@fmap list _). by rewrite -!list_fmap_compose.
  - rewrite body_members_mem. by apply canonical_encodes, canonical_filter.
  - destruct (envelope_canonical zs (print (body_members (map mem zs))) Hzs) as (ys & -> & Hys). by apply canonical_encodes.
Qed.

Lemma canonical_sliced c ms :
  Transform c = Some c -> canonicalMembers c = Some ms -> EntryHashes c = Ok (memberHashes ms).
Proof.
  cbn [Transform jcs_canonicaliser]. intros Ht Hms.
  apply fmap_Some in Ht as (c' & Ht & Hc'). assert (c' = la c) as -> by (by rewrite Hc' la_of_al). clear Hc'.
  assert (head (la c) = Some "{"%char) as Hh.
  { unfold canonicalMembers in Hms. case_decide as Hd; [|done]. destruct Hd as (_ & Hd & _). rewrite -Hd. change (la c) with (list_ascii_of_string c). by destruct (list_ascii_of_string c). }
  destruct (canonical_line _ Ht Hh) as (zs & Hc & Hzs & Hck & Hum). rewrite Hc in Hck, Hum.
  assert (c = print (map mem zs)) as Heq by (by rewrite print_mem -Hc al_la).
  transitivity (entryHashesCanonical c); [symmetry|unfold entryHashesCanonical; by rewrite Hms]. rewrite Heq.
  apply sliced_hashes; [| |by apply canonical_line_encoding].
  - apply Forall_map, Forall_forall. intros kv Hkv. by apply (mem_well_formed zs).
  - apply (NoDup_fmap_1 la). change map with (@fmap list _). rewrite -!list_fmap_compose.
    rewrite (list_fmap_ext _ fst zs); [apply (ordered_NoDup fst), Hzs|]. intros i x _. cbn. apply la_of_al.
Qed.

(** The hashes sliced out of a canonical line are those the format says it has. *)
Lemma canonical_line_says c ms id content :
  Transform c = Some c -> canonicalMembers c = Some ms -> memberHashes ms = (id, content) -> line_hashes c id content.
Proof. intros Ht Hms Hh. apply EntryHashes_line. by rewrite (canonical_sliced c ms) // Hh. Qed.

(** C30: A line in canonical form has one pair of hashes: the ones sliced out
    of it are those [EntryHashes] computes by testing and decoding the line and
    encoding and canonicalising its body and its envelope again. *)
Theorem canonical_line_hashes c :
  Transform c = Some c -> entryHashesCanonical c = EntryHashes c.
Proof.
  intros Ht. unfold entryHashesCanonical. destruct (canonicalMembers c) as [ms|] eqn:Hms; [|done].
  by rewrite (canonical_sliced c ms).
Qed.
End hashes.
