(* ===== verification/Jsonx.v ===== *)
(** * Members sliced, joined and told apart ([internal/jsonx])

    [Members] takes an object apart by its bytes and leaves to the decoder what
    it would rewrite; [JoinObjects] writes two objects' members and a map's as
    one object; [ExtraKeys] keeps the members a struct does not declare.  Where
    the code indexes a slice the model says what happens past its end. *)
From S2P Require Import Prelude Strconv Utf8 Json Jcs JsonPrint Marshal.
Open Scope session_scope.

(** ** The walk over the bytes ([members.go]) *)

Module Members.

(** What [Members] does: an index past the end, false, or the map and true. *)
Inductive outcome :=
  | OutOfRange
  | Declined
  | Answers (all : list (list ascii * list ascii)).

(** The loops below take one step a byte; [length b] steps are enough. *)
Fixpoint skipWS_go (b : list ascii) (fuel i : nat) : nat :=
  match fuel with
  | O => i
  | S fuel =>
      match b !! i with
      | Some c => if isSpace c then skipWS_go b fuel (S i) else i
      | None => i
      end
  end.
Definition skipWS (b : list ascii) (i : nat) : nat := skipWS_go b (length b) i.

(** A backslash takes the byte after it along. *)
Fixpoint skipString_go (b : list ascii) (fuel i : nat) : nat :=
  match fuel with
  | O => i
  | S fuel =>
      match b !! i with
      | None => i
      | Some c =>
          if bool_decide (c = backslash) then skipString_go b fuel (S (S i))
          else if bool_decide (c = quote) then S i
          else skipString_go b fuel (S i)
      end
  end.
Definition skipString (b : list ascii) (i : nat) : nat := skipString_go b (length b) (S i).

Definition opens (c : ascii) : bool := bool_decide (c = "{"%char) || bool_decide (c = "["%char).
Definition closes (c : ascii) : bool := bool_decide (c = "}"%char) || bool_decide (c = "]"%char).

(** Inside an object or an array. *)
Fixpoint skipNested (b : list ascii) (fuel depth i : nat) : nat :=
  match fuel with
  | O => i
  | S fuel =>
      match b !! i with
      | None => i
      | Some c =>
          if bool_decide (c = quote) then skipNested b fuel depth (skipString b i)
          else if opens c then skipNested b fuel (S depth) (S i)
          else if closes c then
            if decide (depth - 1 = 0) then S i else skipNested b fuel (depth - 1) (S i)
          else skipNested b fuel depth (S i)
      end
  end.

(** To a comma, a closing bracket or white space. *)
Definition ends_scalar (c : ascii) : bool := bool_decide (c = ","%char) || closes c || isSpace c.
Fixpoint skipScalar (b : list ascii) (fuel i : nat) : nat :=
  match fuel with
  | O => i
  | S fuel =>
      match b !! i with
      | Some c => if ends_scalar c then i else skipScalar b fuel (S i)
      | None => i
      end
  end.

(** [skipValue]: [None] where [b[i]] is past the end. *)
Definition skipValue (b : list ascii) (i : nat) : option nat :=
  match b !! i with
  | None => None
  | Some c =>
      if bool_decide (c = quote) then Some (skipString b i)
      else if opens c then Some (skipNested b (length b) 0 i)
      else Some (skipScalar b (length b) i)
  end.

(** The end of a name: past the end, at an escape, or found. *)
Inductive name_end := NoEnd | Escaped | Ends (end_ : nat).
Fixpoint nameEnd (data : list ascii) (fuel i : nat) : name_end :=
  match fuel with
  | O => NoEnd
  | S fuel =>
      match data !! i with
      | None => NoEnd
      | Some c =>
          if bool_decide (c = quote) then Ends i
          else if bool_decide (c = backslash) then Escaped
          else nameEnd data fuel (S i)
      end
  end.

(** [data[i:j]]. *)
Definition slice (data : list ascii) (i j : nat) : list ascii := take (j - i) (drop i data).

(** The loop, the name's quote at [i]. *)
Fixpoint members_loop (data : list ascii) (fuel i : nat) (all : list (list ascii * list ascii)) : outcome :=
  match fuel with
  | O => OutOfRange
  | S fuel =>
      let start := S i in
      match nameEnd data (length data) start with
      | NoEnd => OutOfRange
      | Escaped => Declined
      | Ends end_ =>
          let key := slice data start end_ in
          if negb (Valid key) then Declined
          else
            let i := S (skipWS data (S end_)) in
            let i := skipWS data i in
            match skipValue data i with
            | None => OutOfRange
            | Some v =>
                if length data <? v then OutOfRange
                else
                  let all := set_member key (slice data i v) all in
                  let i := skipWS data v in
                  match data !! i with
                  | None => OutOfRange
                  | Some c => if bool_decide (c = "}"%char) then Answers all
                              else members_loop data fuel (skipWS data (S i)) all
                  end
            end
      end
  end.

(** [Members]. *)
Definition Members (data : list ascii) : outcome :=
  if negb (json_Valid data) then Declined
  else
    let i := skipWS data 0 in
    match data !! i with
    | None => Declined
    | Some c =>
        if bool_decide (c = "{"%char) then
          let i := skipWS data (S i) in
          match data !! i with
          | None => OutOfRange
          | Some c => if bool_decide (c = "}"%char) then Answers []
                      else members_loop data (length data) i []
          end
        else Declined
    end.
End Members.

(** ** Joining and telling apart ([jsonx.go]) *)

(** A member added to what is written so far. *)
Definition join_member (out : list ascii) (kv : list ascii * list ascii) : list ascii :=
  (if 1 <? length out then out ++ [","%char] else out) ++
  string_text (marshal_body kv.1) ++ ":"%char :: kv.2.

(** [JoinObjects]: [None] where [head] has no last byte to drop. *)
Definition JoinObjects (head body : list ascii) (extra : list (list ascii * list ascii)) : option (list ascii) :=
  match head with
  | [] => None
  | _ =>
      let out := take (length head - 1) head in
      let out :=
        if 2 <? length body then
          (if 2 <? length head then out ++ [","%char] else out) ++ Members.slice body 1 (length body - 1)
        else out in
      Some (foldl join_member out (sort_by (fun a b => less_bytes a.1 b.1) extra) ++ ["}"%char])
  end.

(** [ExtraKeys]: the empty map for nil. *)
Definition ExtraKeys (all : list (list ascii * list ascii)) (known : list (list ascii)) (skip : list (list ascii))
    : list (list ascii * list ascii) :=
  filter (fun kv => kv.1 ∉ known /\ kv.1 ∉ skip) all.

(** [PeekString]. *)
Definition PeekString (raw : list ascii) : list ascii := default [] (UnmarshalText raw).

(** A struct's own encoding and decoding by its tags. *)
Class StructJSON (T : Type) := {
  (* MarshalNoEscape of a struct *)
  MarshalStruct : T -> option (list ascii);
  (* json.Unmarshal into it *)
  UnmarshalStruct : list ascii -> option T;
  (* Keys[T]() *)
  StructKeys : list (list ascii)
}.

Section WithUnknown.
Context {T : Type} `{StructJSON T}.

(** [MarshalWithUnknown]. *)
Definition MarshalWithUnknown (v : T) (unknown : list (list ascii * list ascii)) : option (list ascii) :=
  match MarshalStruct v with
  | None => None
  | Some body => if decide (length unknown = 0) then Some body
                 else JoinObjects body ["{"%char; "}"%char] unknown
  end.

(** [UnmarshalWithUnknown], with the known names the callers pass. *)
Definition UnmarshalWithUnknown (data : list ascii) (known : list (list ascii))
    : option (T * list (list ascii * list ascii)) :=
  match UnmarshalStruct data with
  | None => None
  | Some v =>
      match UnmarshalMap data with
      | None => None
      | Some all => Some (v, ExtraKeys all known [])
      end
  end.
End WithUnknown.
