(* ===== verification/JsonxProps.v ===== *)
(** * Slicing agrees with the decoder ([internal/jsonx])

    [Members] never indexes past the end of what it is given; it answers for an
    object whose names the decoder takes as they stand, with the map the decoder
    makes, and for nothing else ([Members_decodes]).  A struct written with
    members it does not declare is read back with them ([unknown_kept]). *)
From S2P Require Import Prelude Hash HashProps Strconv Utf8 Json Jcs Utf8Props NumberProps JsonProps JsonTokens JsonPrint JcsSort JcsRoundtrip.
From S2P Require Import Ijson IjsonProps JcsProps Marshal MarshalProps HashCanonical Jsonx.
Open Scope session_scope.

(** ** Positions *)

(** What is left of [data] at [i] is [l]. *)
Definition at_ (data : list ascii) (i : nat) (l : list ascii) : Prop :=
  exists pre, data = pre ++ l /\ length pre = i.

Section at_.
Variable data : list ascii.

Lemma at_lookup i l : at_ data i l -> data !! i = head l.
Proof. intros (pre & -> & <-). rewrite lookup_app_r // Nat.sub_diag. by destruct l. Qed.

Lemma at_app i a l : at_ data i (a ++ l) -> at_ data (i + length a) l.
Proof. intros (pre & -> & <-). exists (pre ++ a). by rewrite -app_assoc length_app. Qed.

Lemma at_S i c l : at_ data i (c :: l) -> at_ data (S i) l.
Proof. intros H. rewrite -Nat.add_1_r. by apply (at_app _ [c]). Qed.

Lemma at_length i l : at_ data i l -> i + length l = length data.
Proof. intros (pre & -> & <-). by rewrite length_app. Qed.

Lemma at_slice i j a r : at_ data i (a ++ r) -> at_ data j r -> Members.slice data i j = a.
Proof.
  intros Hi Hj. pose proof (at_length _ _ Hi) as Hl. pose proof (at_length _ _ Hj) as Hl'. rewrite length_app in Hl.
  unfold Members.slice. replace (j - i) with (length a) by lia. destruct Hi as (pre & -> & <-).
  by rewrite drop_app_length take_app_length.
Qed.

(** ** The loops *)

Lemma skipWS_go_at fuel i l : at_ data i l -> length l <= fuel -> at_ data (Members.skipWS_go data fuel i) (skipWS l).
Proof.
  revert i l. induction fuel as [|fuel IH]; intros i l Hat Hl.
  { destruct l; [done|simpl in Hl; lia]. }
  cbn [Members.skipWS_go]. rewrite (at_lookup _ _ Hat). destruct l as [|c l]; [done|]. cbn [head skipWS].
  destruct (isSpace c); [|done]. apply IH; [by eapply at_S|simpl in Hl; lia].
Qed.

Lemma skipWS_at i l : at_ data i l -> at_ data (Members.skipWS data i) (skipWS l).
Proof. intros H. apply skipWS_go_at; [done|]. apply at_length in H. lia. Qed.

Lemma skipString_go_at b r : strbody b -> forall i fuel, at_ data i (b ++ quote :: r) -> length b < fuel ->
  at_ data (Members.skipString_go data fuel i) r.
Proof.
  induction 1 as [|c s Hq Hs _ IH|c s _ IH]; intros i [|fuel] Hat Hf; simpl in Hf; try lia;
    cbn [Members.skipString_go]; rewrite (at_lookup _ _ Hat); cbn [app head] in *.
  - rewrite bool_decide_eq_false_2 // bool_decide_eq_true_2 //. by eapply at_S.
  - rewrite bool_decide_eq_false_2 // bool_decide_eq_false_2 //. apply IH; [by eapply at_S|lia].
  - rewrite bool_decide_eq_true_2 //. apply IH; [by do 2 eapply at_S|lia].
Qed.

Lemma skipString_at b r i : strbody b -> at_ data i (quote :: b ++ quote :: r) -> at_ data (Members.skipString data i) r.
Proof.
  intros Hb Hat. apply (skipString_go_at b); [done|by eapply at_S|]. apply at_length in Hat. simpl in Hat. rewrite length_app /= in Hat. lia.
Qed.

Lemma opens_spec c : Members.opens c = true <-> opener c.
Proof. unfold Members.opens, opener. by rewrite orb_true_iff !bool_decide_eq_true. Qed.

Lemma closes_spec c : Members.closes c = true <-> closer c.
Proof. unfold Members.closes, closer. by rewrite orb_true_iff !bool_decide_eq_true. Qed.

Lemma bool_false (b : bool) (P : Prop) : (b = true <-> P) -> ~ P -> b = false.
Proof. destruct b; naive_solver. Qed.

Lemma opener_not c : opener c -> c <> quote.
Proof. by intros [-> | ->]. Qed.
Lemma closer_not c : closer c -> c <> quote /\ ~ opener c.
Proof. intros [-> | ->]; (split; [done|by intros [|]]). Qed.

(** What nests inside brackets is passed over. *)
Lemma skipNested_at s : nested s -> forall i r fuel depth, at_ data i (s ++ r) -> 1 <= depth -> length s <= fuel ->
  exists fuel', fuel - length s <= fuel' /\ exists j, at_ data j r /\
    Members.skipNested data fuel depth i = Members.skipNested data fuel' depth j.
Proof.
  induction 1 as [|c s Hq Ho Hc _ IH|b s Hb _ IH|o c s s' Ho Hc _ IH _ IH']; intros i r fuel depth Hat Hd Hf; cbn [app length] in *.
  - exists fuel. split; [lia|]. by exists i.
  - destruct fuel as [|fuel]; [lia|]. cbn [Members.skipNested]. rewrite (at_lookup _ _ Hat) /=.
    rewrite bool_decide_eq_false_2 // (bool_false _ _ (opens_spec c)) // (bool_false _ _ (closes_spec c)) //.
    destruct (IH (S i) r fuel depth) as (f & ? & ?); [by eapply at_S|lia..|]. exists f. split; [lia|done].
  - destruct fuel as [|fuel]; [lia|]. cbn [Members.skipNested]. rewrite (at_lookup _ _ Hat) /=.
    rewrite -app_assoc in Hat. apply skipString_at in Hat; [|done]. rewrite length_app /= in Hf.
    destruct (IH _ r fuel depth Hat) as (f & ? & ?); [lia..|]. exists f. split; [rewrite length_app /=; lia|done].
  - destruct fuel as [|fuel]; [lia|]. rewrite length_app /= in Hf. rewrite -app_assoc in Hat. cbn [Members.skipNested].
    rewrite (at_lookup _ _ Hat) /= bool_decide_eq_false_2; [|by apply opener_not].
    rewrite (proj2 (opens_spec o) Ho). cbn [app] in Hat. apply at_S in Hat.
    destruct (IH _ _ fuel (S depth) Hat) as (f1 & Hf1 & j & Hj & ->); [lia..|].
    destruct f1 as [|f1]; [lia|]. destruct (closer_not c Hc) as [Hcq Hco]. cbn [Members.skipNested]. rewrite (at_lookup _ _ Hj) /=.
    rewrite bool_decide_eq_false_2 // (bool_false _ _ (opens_spec c)) // (proj2 (closes_spec c) Hc) decide_False; [|lia].
    apply at_S in Hj. rewrite ?Nat.sub_0_r.
    destruct (IH' _ r f1 depth Hj) as (f & ? & ?); [lia..|]. exists f. split; [rewrite length_app /=; lia|done].
Qed.

Lemma skipScalar_at s r : Forall (fun c => Members.ends_scalar c = false) s ->
  match r with c :: _ => Members.ends_scalar c = true | [] => True end ->
  forall i fuel, at_ data i (s ++ r) -> length s <= fuel -> at_ data (Members.skipScalar data fuel i) r.
Proof.
  intros Hs Hr. induction Hs as [|c s Hc _ IH]; intros i fuel Hat Hf.
  - destruct fuel as [|fuel]; [done|]. cbn [Members.skipScalar]. rewrite (at_lookup _ _ Hat). destruct r as [|c r]; [done|]. cbn [app head].
    by rewrite Hr.
  - destruct fuel as [|fuel]; [simpl in Hf; lia|]. cbn [Members.skipScalar]. rewrite (at_lookup _ _ Hat) /= Hc.
    apply IH; [by eapply at_S|simpl in Hf; lia].
Qed.
End at_.

(** ** What the scanner reads, in the grammar of the walks *)

Definition scalar_char (c : ascii) : Prop := plain_char c /\ isSpace c = false.

Inductive value_text : list ascii -> Prop :=
  | vt_string b : strbody b -> value_text (quote :: b ++ [quote])
  | vt_nested o s c : opener o -> nested s -> closer c -> value_text (o :: s ++ [c])
  | vt_scalar c s : scalar_char c -> Forall scalar_char s -> value_text (c :: s).

Lemma value_text_nested t : value_text t -> nested t.
Proof.
  intros [b Hb|o s c Ho Hs Hc|c s Hc Hs].
  - apply (ne_string b []); [done|constructor].
  - apply (ne_brackets o c s []); [done..|constructor].
  - rewrite -(app_nil_r (c :: s)). apply nested_plain; [|constructor].
    apply (Forall_impl scalar_char); [by constructor|by intros x [? _]].
Qed.

Lemma skipWS_text l : exists w, l = w ++ skipWS l /\ nested w.
Proof.
  induction l as [|c l (w & Hl & Hw)]; [exists []; split; [done|constructor]|]. cbn [skipWS]. destruct (isSpace c) eqn:Hc.
  - exists (c :: w). split; [by rewrite {1}Hl|]. apply ne_char; [by intros ->|by intros [-> | ->]|by intros [-> | ->]|done].
  - exists []. split; [done|constructor].
Qed.

Lemma number_scalar n : number_ok n -> Forall scalar_char (number_text n).
Proof.
  apply number_chars.
  - intros c Hc. split; [by apply digit_plain|]. unfold isSpace.
    rewrite bool_decide_eq_false_2; [|by intros ->]. unfold is_digit in Hc. rewrite andb_true_iff !Z.leb_le in Hc.
    rewrite !orb_false_iff !Z.eqb_neq. lia.
  - intros c Hc. split; [by apply plain_of|]. revert Hc. rewrite !elem_of_cons elem_of_nil. intros [->|[->|[->|[->|[->|[]]]]]]; done.
Qed.

Ltac scalar_word := repeat (constructor; [split; [unfold plain_char, opener, closer; naive_solver|done]|]); constructor.

Lemma scan_texts fuel :
  (forall depth l v r, scan_value fuel depth l = Some (v, r) -> exists t, l = t ++ r /\ value_text t) /\
  (forall depth l ms r, scan_members fuel depth l = Some (ms, r) -> exists t, l = t ++ "}"%char :: r /\ nested t) /\
  (forall depth l es r, scan_elements fuel depth l = Some (es, r) -> exists t, l = t ++ "]"%char :: r /\ nested t).
Proof.
  induction fuel as [|fuel (IHv & IHm & IHe)]; [by split_and!|].
  assert (forall (o c : ascii) l1 t r, opener o -> closer c -> nested t -> skipWS l1 = t ++ c :: r ->
    exists t, o :: l1 = t ++ r /\ value_text t) as Hbr.
  { intros o c l1 t r Ho Hc Ht E. destruct (skipWS_text l1) as (w & Hl & Hw). exists (o :: (w ++ t) ++ [c]). split.
    - rewrite Hl E. app_eq.
    - apply vt_nested; [done|by apply nested_app|done]. }
  split_and!.
  - intros depth l v r H. destruct l as [|c l1]; [done|]. cbn [scan_value] in H.
    destruct (bool_decide (c = "{"%char)) eqn:Ho; [|destruct (bool_decide (c = "["%char)) eqn:Ho'; [|destruct (bool_decide (c = quote)) eqn:Hq]].
    + apply bool_decide_eq_true in Ho as ->. destruct (_ <=? _)%Z; [done|]. destruct (skipWS l1) as [|d r1] eqn:Hws; [done|].
      destruct (bool_decide (d = _)) eqn:Hd.
      * apply bool_decide_eq_true in Hd as ->. injection H as <- <-. apply (Hbr _ "}"%char l1 []); [by left|by left|constructor|done].
      * destruct (scan_members _ _ _) as [[ms r2]|] eqn:Hm; [|done]. injection H as <- <-. apply IHm in Hm as (t & E & Ht).
        apply (Hbr _ "}"%char l1 t); [by left|by left|done|by rewrite Hws].
    + apply bool_decide_eq_true in Ho' as ->. destruct (_ <=? _)%Z; [done|]. destruct (skipWS l1) as [|d r1] eqn:Hws; [done|].
      destruct (bool_decide (d = _)) eqn:Hd.
      * apply bool_decide_eq_true in Hd as ->. injection H as <- <-. apply (Hbr _ "]"%char l1 []); [by right|by right|constructor|done].
      * destruct (scan_elements _ _ _) as [[ms r2]|] eqn:Hm; [|done]. injection H as <- <-. apply IHe in Hm as (t & E & Ht).
        apply (Hbr _ "]"%char l1 t); [by right|by right|done|by rewrite Hws].
    + apply bool_decide_eq_true in Hq as ->. destruct (scan_string _) as [[b r1]|] eqn:Hs; [|done]. injection H as <- <-.
      pose proof (scan_string_body _ _ _ Hs) as Hb. apply scan_string_text in Hs as ->. exists (quote :: b ++ [quote]).
      split; [app_eq|]. by apply vt_string, body_strbody.
    + destruct (_ || _).
      * destruct (scan_number _) as [[n r1]|] eqn:Hs; [|done]. injection H as <- <-. apply scan_number_ok in Hs as [Hn ->].
        exists (number_text n). split; [done|]. destruct (number_text_head n [] Hn) as (d & t & E & _). rewrite app_nil_r in E.
        pose proof (number_scalar n Hn) as Hp. rewrite E in Hp |- *. apply Forall_cons in Hp as [? ?]. by apply vt_scalar.
      * clear Ho Ho' Hq. repeat case_bool_decide; [..|done]; (destruct (strip_word _ _) as [r1|] eqn:Hs; [|done]); injection H as <- <-;
          apply strip_word_text in Hs as ->; (eexists; split; [done|]); apply vt_scalar;
          first [split; [unfold plain_char, opener, closer; naive_solver|done]|scalar_word].
  - intros depth l ms r H. destruct l as [|q l1]; [done|]. cbn [scan_members] in H. destruct (bool_decide (q = _)) eqn:Hq; [|done].
    apply bool_decide_eq_true in Hq as ->. destruct (scan_string l1) as [[b l2]|] eqn:Hs; [|done].
    pose proof (scan_string_body _ _ _ Hs) as Hb. apply scan_string_text in Hs as ->. apply body_strbody in Hb.
    destruct (skipWS_text l2) as (w2 & El2 & Hw2). destruct (skipWS l2) as [|colon l3]; [done|].
    destruct (bool_decide (colon = _)) eqn:Hc; [|done]. apply bool_decide_eq_true in Hc as ->.
    destruct (skipWS_text l3) as (w3 & El3 & Hw3). destruct (scan_value _ _ _) as [[v l4]|] eqn:Hv; [|done].
    apply IHv in Hv as (t & Et & Ht). apply value_text_nested in Ht.
    destruct (skipWS_text l4) as (w4 & El4 & Hw4). destruct (skipWS l4) as [|d l5]; [done|].
    assert (nested (quote :: b ++ quote :: w2 ++ ":"%char :: w3 ++ t ++ w4)) as Hmem.
    { apply ne_string; [done|]. apply nested_app; [done|]. apply ne_char; [done|by intros [|]|by intros [|]|].
      apply nested_app; [done|]. by apply nested_app. }
    destruct (bool_decide (d = ","%char)) eqn:Hd.
    + apply bool_decide_eq_true in Hd as ->. destruct (scan_members fuel depth _) as [[ms' r2]|] eqn:Hm; [|done]. injection H as <- <-.
      apply IHm in Hm as (t' & Et' & Ht'). destruct (skipWS_text l5) as (w5 & El5 & Hw5).
      exists ((quote :: b ++ quote :: w2 ++ ":"%char :: w3 ++ t ++ w4) ++ ","%char :: w5 ++ t'). split.
      * rewrite El2 El3 Et El4 El5 Et'. app_eq.
      * apply nested_app; [done|]. apply ne_char; [done|by intros [|]|by intros [|]|]. by apply nested_app.
    + destruct (bool_decide (d = "}"%char)) eqn:Hd'; [|done]. apply bool_decide_eq_true in Hd' as ->. injection H as <- <-.
      eexists. split; [|exact Hmem]. rewrite El2 El3 Et El4. app_eq.
  - intros depth l es r H. cbn [scan_elements] in H. destruct (scan_value _ _ _) as [[v l1]|] eqn:Hv; [|done].
    apply IHv in Hv as (t & Et & Ht). apply value_text_nested in Ht.
    destruct (skipWS_text l1) as (w1 & El1 & Hw1). destruct (skipWS l1) as [|d l2]; [done|].
    destruct (bool_decide (d = ","%char)) eqn:Hd.
    + apply bool_decide_eq_true in Hd as ->. destruct (scan_elements fuel depth _) as [[es' r2]|] eqn:Hm; [|done]. injection H as <- <-.
      apply IHe in Hm as (t' & Et' & Ht'). destruct (skipWS_text l2) as (w2 & El2 & Hw2).
      exists ((t ++ w1) ++ ","%char :: w2 ++ t'). split; [rewrite Et El1 El2 Et'; app_eq|].
      apply nested_app; [by apply nested_app|]. apply ne_char; [done|by intros [|]|by intros [|]|]. by apply nested_app.
    + destruct (bool_decide (d = "]"%char)) eqn:Hd'; [|done]. apply bool_decide_eq_true in Hd' as ->. injection H as <- <-.
      exists (t ++ w1). split; [rewrite Et El1; app_eq|by apply nested_app].
Qed.

(** ** One value *)

Lemma scalar_ends c : scalar_char c -> Members.ends_scalar c = false.
Proof.
  intros [(_ & _ & Hc & Hm) Hs]. unfold Members.ends_scalar. by rewrite Hs (bool_false _ _ (closes_spec c)) // bool_decide_eq_false_2.
Qed.

Definition value_end (r : list ascii) : Prop := match r with c :: _ => Members.ends_scalar c = true | [] => True end.

Lemma skipValue_at data i t r : value_text t -> value_end r -> at_ data i (t ++ r) ->
  exists j, Members.skipValue data i = Some j /\ at_ data j r.
Proof.
  intros Ht Hr Hat. unfold Members.skipValue. rewrite (at_lookup _ _ _ Hat). destruct Ht as [b Hb|o s c Ho Hs Hc|c s Hc Hs]; cbn [app head] in *.
  - rewrite bool_decide_eq_true_2 //. eexists. split; [done|]. rewrite -app_assoc in Hat. by eapply skipString_at.
  - rewrite bool_decide_eq_false_2; [|by apply opener_not]. rewrite (proj2 (opens_spec o) Ho). eexists. split; [done|].
    pose proof (at_length _ _ _ Hat) as Hl. simpl in Hl. rewrite !length_app /= in Hl.
    destruct (length data) as [|n] eqn:Hn; [lia|]. cbn [Members.skipNested]. rewrite (at_lookup _ _ _ Hat) /=.
    rewrite bool_decide_eq_false_2; [|by apply opener_not]. rewrite (proj2 (opens_spec o) Ho). rewrite -app_assoc in Hat. apply at_S in Hat.
    destruct (skipNested_at data s Hs _ _ n 1 Hat) as (f & Hf & j & Hj & ->); [lia..|].
    destruct f as [|f]; [lia|]. destruct (closer_not c Hc) as [Hcq Hco]. cbn [Members.skipNested]. rewrite (at_lookup _ _ _ Hj) /=.
    rewrite bool_decide_eq_false_2 // (bool_false _ _ (opens_spec c)) // (proj2 (closes_spec c) Hc).
    by eapply at_S.
  - destruct Hc as [Hp Hsp]. pose proof Hp as (Hq & Ho & _ & _). rewrite bool_decide_eq_false_2 // (bool_false _ _ (opens_spec c)) //.
    eexists. split; [done|]. pose proof (at_length _ _ _ Hat) as Hl. simpl in Hl. rewrite length_app /= in Hl.
    apply (skipScalar_at data (c :: s) r); [|done..|simpl; lia].
    constructor; [by apply scalar_ends|]. apply (Forall_impl _ _ _ Hs). apply scalar_ends.
Qed.

(** ** The members *)

(** A name the decoder takes as it stands. *)
Definition plain_name (k : list ascii) : bool := forallb (fun c => negb (bool_decide (c = backslash))) k && Valid k.

Lemma plain_name_unquote k : body k -> plain_name k = true -> unquote k = k.
Proof.
  unfold plain_name. rewrite andb_true_iff forallb_forall. intros Hb [Hk Hv]. rewrite unquote_Valid // unescape_plain //.
  apply Forall_forall. intros c Hc ->. apply list_elem_of_In, Hk in Hc. by rewrite bool_decide_eq_true_2 in Hc.
Qed.

Lemma nameEnd_at data k r : body k -> forall i fuel, at_ data i (k ++ quote :: r) -> length k < fuel ->
  if forallb (fun c => negb (bool_decide (c = backslash))) k
  then exists j, Members.nameEnd data fuel i = Members.Ends j /\ at_ data j (quote :: r)
  else Members.nameEnd data fuel i = Members.Escaped.
Proof.
  intros Hk. apply body_strbody in Hk. induction Hk as [|c s Hq Hs _ IH|c s _ IH]; intros i [|fuel] Hat Hf; simpl in Hf; try lia;
    cbn [Members.nameEnd forallb]; rewrite (at_lookup _ _ _ Hat); cbn [app head] in *.
  - rewrite bool_decide_eq_true_2 //. by exists i.
  - rewrite (bool_decide_eq_false_2 (c = quote)) // (bool_decide_eq_false_2 (c = backslash)) //. apply IH; [by eapply at_S|lia].
  - done.
Qed.

Lemma isSpace_ends c : isSpace c = true -> Members.ends_scalar c = true.
Proof. unfold Members.ends_scalar. intros ->. by rewrite orb_true_r. Qed.

Lemma value_end_ws l c r : skipWS l = c :: r -> c = ","%char \/ c = "}"%char -> value_end l.
Proof.
  destruct l as [|x l]; [done|]. cbn [skipWS value_end]. destruct (isSpace x) eqn:Hx; [by intros; apply isSpace_ends|].
  intros [= -> ->] [-> | ->]; done.
Qed.

Lemma consumed_text t r : consumed (t ++ r) r = t.
Proof. apply consumed_app. Qed.

(** What the decoder takes apart the walk takes apart, up to the first name it
    leaves alone. *)
Lemma members_agree fuel l ms r : scan_members fuel 1 l = Some (ms, r) ->
  exists ts, (forall f, length l <= f -> member_texts f l = Some ts) /\
    forall data i f all, at_ data i l -> length l <= f ->
      Members.members_loop data f i all =
      if forallb (fun kv => plain_name kv.1) ms then Members.Answers (foldl (fun m kv => set_member kv.1 kv.2 m) all ts)
      else Members.Declined.
Proof.
  revert l ms. induction fuel as [|fuel IH]; intros l ms H; [done|]. destruct l as [|q l1]; [done|]. cbn [scan_members] in H.
  destruct (bool_decide (q = _)) eqn:Hq; [|done]. apply bool_decide_eq_true in Hq as ->.
  destruct (scan_string l1) as [[k l2]|] eqn:Hs; [|done]. pose proof (scan_string_body _ _ _ Hs) as Hk.
  destruct (skipWS l2) as [|colon l3] eqn:Hws; [done|]. destruct (bool_decide (colon = _)) eqn:Hc; [|done].
  apply bool_decide_eq_true in Hc as ->. destruct (scan_value _ _ _) as [[v l4]|] eqn:Hv; [|done].
  pose proof (scan_value_enough _ _ _ _ _ Hv) as Hve. apply scan_texts in Hv as (t & Et & Ht).
  destruct (skipWS l4) as [|d l5] eqn:Hws4; [done|].
  assert (forall data i f all, at_ data i (quote :: l1) -> length (quote :: l1) <= S f ->
    (d = ","%char \/ d = "}"%char) ->
    exists j, at_ data j (d :: l5) /\
    Members.members_loop data (S f) i all =
    if plain_name k then
      let all' := set_member (unquote k) t all in
      if bool_decide (d = "}"%char) then Members.Answers all' else Members.members_loop data f (Members.skipWS data (S j)) all'
    else Members.Declined) as Hturn.
  { intros data i f all Hat Hf Hd. apply scan_string_text in Hs as ->. apply at_S in Hat. cbn [Members.members_loop].
    pose proof (at_length _ _ _ Hat) as Hl. rewrite length_app /= in Hl.
    pose proof (nameEnd_at data k l2 Hk (S i) (length data) Hat ltac:(lia)) as Hn. unfold plain_name.
    pose proof (plain_name_unquote k Hk) as Hun. unfold plain_name in Hun.
    apply at_app in Hat as Hat2. apply at_S in Hat2. apply (skipWS_at data) in Hat2. rewrite Hws in Hat2.
    apply at_S in Hat2. apply (skipWS_at data) in Hat2. rewrite Et in Hat2.
    destruct (skipValue_at data _ t l4 Ht (value_end_ws _ _ _ Hws4 Hd) Hat2) as (j & Hsv & Hj).
    pose proof (at_length _ _ _ Hj) as Hlj. apply (skipWS_at data) in Hj as Hj'. rewrite Hws4 in Hj'. exists (Members.skipWS data j).
    split; [done|]. destruct (forallb _ k).
    - destruct Hn as (j1 & -> & Hj1). rewrite (at_slice data (S i) j1 k (quote :: l2)) //. 
      destruct (Valid k); [|done]. cbn [negb andb].
      assert (j1 = S i + length k) as -> by (apply at_length in Hj1; simpl in Hj1; lia).
      rewrite Hsv. destruct (Nat.ltb_spec (length data) j); [lia|]. rewrite (at_lookup _ _ _ Hj') /= (at_slice data _ j t l4) // Hun //.
    - by rewrite Hn. }
  assert (forall f, member_texts (S f) (quote :: l1) =
    if bool_decide (d = ","%char) then match member_texts f (skipWS l5) with Some ms => Some ((unquote k, t) :: ms) | None => None end
    else if bool_decide (d = "}"%char) then Some [(unquote k, t)] else None) as Htexts.
  { intros f. cbn [member_texts]. by rewrite bool_decide_eq_true_2 // Hs Hws bool_decide_eq_true_2 // Hve Hws4 Et consumed_text. }
  apply scan_string_length in Hs. apply skipWS_cons_length in Hws, Hws4. pose proof (skipWS_length l5) as Hl5. pose proof (skipWS_length l3) as Hl3.
  assert (length (skipWS l3) = length t + length l4) as Hlt by (by rewrite Et length_app).
  destruct (bool_decide (d = ","%char)) eqn:Hd.
  - apply bool_decide_eq_true in Hd as ->. destruct (scan_members fuel 1 _) as [[ms' r2]|] eqn:Hm; [|done]. injection H as <- <-.
    destruct (IH _ _ Hm) as (ts & Hts & Hloop). exists ((unquote k, t) :: ts). split.
    + intros [|f] Hf; [simpl in Hf; lia|]. rewrite Htexts Hts //. simpl in Hf. lia.
    + intros data i [|f] all Hat Hf; [simpl in Hf; lia|]. destruct (Hturn data i f all Hat Hf ltac:(by left)) as (j & Hj & ->).
      cbn [forallb fst]. destruct (plain_name k); [|done]. rewrite bool_decide_eq_false_2 //. cbn zeta.
      apply at_S in Hj. apply (skipWS_at data) in Hj. rewrite (Hloop data _ f _ Hj) //. simpl in Hf. lia.
  - destruct (bool_decide (d = "}"%char)) eqn:Hd'; [|done]. apply bool_decide_eq_true in Hd' as ->. injection H as <- <-.
    exists [(unquote k, t)]. split.
    + intros [|f] Hf; [simpl in Hf; lia|]. by rewrite Htexts.
    + intros data i [|f] all Hat Hf; [simpl in Hf; lia|]. destruct (Hturn data i f all Hat Hf ltac:(by right)) as (j & Hj & ->).
      cbn [forallb fst]. by destruct (plain_name k).
Qed.

(** An object and nothing more, whose names the decoder takes as they stand. *)
Definition plain_object (data : list ascii) : bool :=
  match scan_document data with
  | Some (RObject ms, r) => bool_decide (skipWS r = []) && forallb (fun kv => plain_name kv.1) ms
  | _ => false
  end.

(** Slicing an object's members out of its bytes never indexes past their
    end: it gives the very map the decoder makes when the bytes are one object
    whose names have no escape and are UTF-8, and declines all else. *)
Lemma Members_decodes data :
  if plain_object data
  then exists all, UnmarshalMap data = Some all /\ Members.Members data = Members.Answers all
  else Members.Members data = Members.Declined.
Proof.
  unfold plain_object, Members.Members, UnmarshalMap, json_Valid. destruct (scan_document data) as [[v r]|] eqn:Hdoc; [|done].
  unfold scan_document, fuel_for in Hdoc. assert (at_ data 0 data) as Hat by by exists [].
  apply (skipWS_at data) in Hat. rewrite (at_lookup _ _ _ Hat).
  destruct (skipWS data) as [|c l] eqn:Hws; [done|]. cbn [head].
  rewrite Nat.add_succ_r in Hdoc. cbn [scan_value] in Hdoc.
  destruct (bool_decide (skipWS r = [])); [|by destruct v]. cbn [negb andb].
  destruct (bool_decide (c = "{"%char)) eqn:Hc.
  2:{ destruct v as [| | | | |ms]; [done..|]. exfalso. revert Hdoc. clear.
      repeat (case_match; try done). }
  change (maxNestingDepth <=? 0)%Z with false in Hdoc. cbn iota in Hdoc. apply at_S in Hat. apply (skipWS_at data) in Hat. rewrite (at_lookup _ _ _ Hat).
  apply skipWS_cons_length in Hws. destruct (skipWS l) as [|d l1] eqn:Hws1; [done|]. apply skipWS_cons_length in Hws1. cbn [head].
  destruct (bool_decide (d = "}"%char)) eqn:Hd.
  - injection Hdoc as <- <-. by exists [].
  - destruct (scan_members _ _ _) as [[ms r1]|] eqn:Hm; [|done]. injection Hdoc as <- <-.
    destruct (members_agree _ _ _ _ Hm) as (ts & Hts & Hloop). rewrite Hts; [|simpl; lia].
    rewrite (Hloop data _ (length data) [] Hat); [|simpl; lia].
    destruct (forallb _ ms); [|done]. by exists (set_members ts).
Qed.

(** ** Objects of members written next to each other *)

(** A value's text, from its first mark. *)
Definition value_spelled (d : Z) (t : list ascii) : Prop :=
  tight t /\ t <> [] /\ exists v, forall r, number_end r -> scans d (t ++ r) v r.

Definition text_member (kv : list ascii * list ascii) : list ascii := string_text kv.1 ++ ":"%char :: kv.2.
Definition members_ok (ms : list (list ascii * list ascii)) : Prop := Forall (fun kv => body kv.1 /\ value_spelled 1 kv.2) ms.
Definition object_text (ms : list (list ascii * list ascii)) : list ascii :=
  "{"%char :: commas (map text_member ms) ++ ["}"%char].

Lemma print_spelled d v : well_spelled d v -> value_spelled d (print_raw v).
Proof.
  intros Hw. pose proof (print_tight d v [] Hw) as Ht. rewrite app_nil_r in Ht. split; [done|]. split.
  - destruct (print_head d v Hw) as (c & t & -> & _). done.
  - exists v. intros r Hr. by apply print_scans.
Qed.

Lemma text_member_app k t r : text_member (k, t) ++ r = quote :: k ++ quote :: ":"%char :: t ++ r.
Proof. unfold text_member. cbn [fst snd]. by rewrite -app_assoc string_text_app. Qed.

Lemma tight_app t r : tight t -> t <> [] -> tight (t ++ r).
Proof. by destruct t. Qed.

Lemma object_members ms r : members_ok ms -> ms <> [] ->
  (exists vs, scans_members 1 (commas (map text_member ms) ++ "}"%char :: r) vs r) /\
  forall f, length ms <= f ->
    member_texts f (commas (map text_member ms) ++ "}"%char :: r) = Some (map (fun kv => (unquote kv.1, kv.2)) ms).
Proof.
  induction 1 as [|[k t] ms [Hk (Ht & Hne & v & Hv)] Hms IH]; intros Hn; [done|]. cbn [fst snd] in *.
  assert (forall f rest, number_end rest ->
    member_texts (S f) (quote :: k ++ quote :: ":"%char :: t ++ rest) =
    match skipWS rest with
    | [] => None
    | d :: l5 => if bool_decide (d = ","%char) then match member_texts f (skipWS l5) with Some ms => Some ((unquote k, t) :: ms) | None => None end
                 else if bool_decide (d = "}"%char) then Some [(unquote k, t)] else None
    end) as Hstep.
  { intros f rest Hr. cbn [member_texts]. rewrite bool_decide_eq_true_2 // scan_body // skipWS_cons // bool_decide_eq_true_2 //.
    rewrite (tight_skipWS (t ++ rest)); [|by apply tight_app]. specialize (Hv rest Hr (fuel_for (t ++ rest)) ltac:(unfold fuel_for; lia)).
    by rewrite Hv consumed_text. }
  destruct ms as [|[k2 t2] ms].
  - cbn [map commas]. rewrite text_member_app. split.
    + exists [(k, v)]. apply scans_members_one; [done|by apply tight_app|]. by apply Hv.
    + intros [|f] Hf; [simpl in Hf; lia|]. by rewrite Hstep.
  - destruct (IH ltac:(done)) as [(vs & Hvs) Hts]. cbn [map]. rewrite commas_cons -app_assoc text_member_app. cbn [map app] in *.
    assert (tight (commas (text_member (k2, t2) :: map text_member ms) ++ "}"%char :: r)) as Htight.
    { destruct ms; cbn [map]; [by rewrite text_member_app|]. by rewrite commas_cons -app_assoc text_member_app. }
    split.
    + exists ((k, v) :: vs). eapply scans_members_cons; [done|by apply tight_app|by apply Hv|done|done].
    + intros [|f] Hf; [simpl in Hf; lia|]. rewrite Hstep // skipWS_cons // bool_decide_eq_true_2 // tight_skipWS //.
      rewrite Hts //. simpl in *. lia.
Qed.

Lemma text_members_length ms : length ms <= length (commas (map text_member ms)).
Proof.
  pose proof (commas_length (map text_member ms)) as Hl. rewrite length_map in Hl. apply Hl.
  apply Forall_map, Forall_forall. by intros [k t] _.
Qed.

Lemma UnmarshalMap_object ms : members_ok ms ->
  UnmarshalMap (object_text ms) = Some (set_members (map (fun kv => (unquote kv.1, kv.2)) ms)).
Proof.
  intros Hms. unfold UnmarshalMap, object_text. pose proof (text_members_length ms) as Hlen. destruct (decide (ms = [])) as [->|Hne].
  { reflexivity. }
  destruct (object_members ms [] Hms Hne) as [(vs & Hvs) Hts].
  assert (exists l, commas (map text_member ms) ++ ["}"%char] = quote :: l) as [l Hl].
  { destruct ms as [|[k t] ms]; [done|]. destruct ms; cbn [map]; [by eexists; rewrite text_member_app|].
    eexists. by rewrite commas_cons -app_assoc text_member_app. }
  rewrite Hl in Hvs, Hts |- *. assert (json_Valid ("{"%char :: quote :: l) = true) as ->.
  { apply json_Valid_document. exists (RObject vs), []. split; [|done]. apply scans_document; [done|]. by apply scans_object. }
  rewrite skipWS_cons // bool_decide_eq_true_2 // skipWS_cons // bool_decide_eq_false_2 // Hts //.
  apply (f_equal length) in Hl. rewrite length_app in Hl. simpl in *. lia.
Qed.

(** ** Joining *)

Lemma commas_app l l' : l <> [] -> l' <> [] -> commas (l ++ l') = commas l ++ ","%char :: commas l'.
Proof.
  intros Hl Hl'. induction l as [|x l IH]; [done|]. destruct l as [|y l].
  - cbn [app]. destruct l' as [|z l']; [done|]. by rewrite commas_cons.
  - cbn [app] in *. rewrite !commas_cons IH // -app_assoc. done.
Qed.

Definition object_start (ms : list (list ascii * list ascii)) : list ascii := "{"%char :: commas (map text_member ms).

Lemma object_start_length ms : (1 <? length (object_start ms)) = negb (bool_decide (ms = [])).
Proof.
  unfold object_start. pose proof (text_members_length ms) as Hl. destruct ms as [|kv ms]; [done|].
  rewrite bool_decide_eq_false_2 //. apply Nat.ltb_lt. cbn [length] in Hl |- *. lia.
Qed.

Definition marshalled_member (kv : list ascii * list ascii) : list ascii * list ascii := (marshal_body kv.1, kv.2).

Lemma object_start_app ms ms' : ms' <> [] ->
  (if bool_decide (ms = []) then object_start ms else object_start ms ++ [","%char]) ++ commas (map text_member ms') = object_start (ms ++ ms').
Proof.
  intros Hne. unfold object_start. case_bool_decide as Hm; [by subst|]. rewrite map_app commas_app; [|by destruct ms|by destruct ms'].
  cbn [app]. by rewrite -app_assoc.
Qed.

Lemma join_members ms es : foldl join_member (object_start ms) es = object_start (ms ++ map marshalled_member es).
Proof.
  revert ms. induction es as [|e es IH]; intros ms; [by rewrite app_nil_r|]. cbn [foldl map].
  assert (join_member (object_start ms) e = object_start (ms ++ [marshalled_member e])) as ->.
  { rewrite -object_start_app // /join_member object_start_length. by case_bool_decide. }
  by rewrite IH -app_assoc.
Qed.

(** Two objects and a map, joined, are one object of all their members. *)
Lemma JoinObjects_members hs bs extra :
  JoinObjects (object_text hs) (object_text bs) extra =
  Some (object_text (hs ++ bs ++ map marshalled_member (sort_by (fun a b => less_bytes a.1 b.1) extra))).
Proof.
  assert (forall ms, take (length (object_text ms) - 1) (object_text ms) = object_start ms /\
    (2 <? length (object_text ms)) = negb (bool_decide (ms = []))) as Hobj.
  { intros ms. rewrite -object_start_length. assert (object_text ms = object_start ms ++ ["}"%char]) as -> by done.
    rewrite length_app Nat.add_sub. split; [apply take_app_length|]. simpl. rewrite Nat.add_1_r. done. }
  destruct (Hobj hs) as [Hh1 Hh2], (Hobj bs) as [_ Hb2]. unfold JoinObjects. rewrite {1}/object_text Hh1 Hh2 Hb2. f_equal.
  assert (Members.slice (object_text bs) 1 (length (object_text bs) - 1) = commas (map text_member bs)) as ->.
  { unfold Members.slice, object_text. cbn [drop length]. rewrite length_app /= Nat.add_1_r /= Nat.sub_0_r. apply take_app_length. }
  assert ((if negb (bool_decide (bs = []))
     then (if negb (bool_decide (hs = [])) then object_start hs ++ [","%char] else object_start hs) ++ commas (map text_member bs)
     else object_start hs) = object_start (hs ++ bs)) as ->.
  { destruct (decide (bs = [])) as [->|Hne]; [by rewrite app_nil_r bool_decide_eq_true_2|].
    rewrite (bool_decide_eq_false_2 (bs = [])) // -object_start_app //. by destruct (bool_decide (hs = [])). }
  rewrite join_members -app_assoc. done.
Qed.

(** ** Members a struct does not declare *)

(** What is relied on of a struct's own encoding and decoding: it is encoded as
    an object of declared members, and members it has no field for are passed
    over in decoding. *)
Class StructLaws (T : Type) `{StructJSON T} := {
  (* the decoder takes a name for a field: a declared one, in any case *)
  takes_field : list ascii -> Prop;
  keys_taken k : k ∈ StructKeys -> takes_field k;
  struct_object v b : MarshalStruct v = Some b -> exists ms, b = object_text ms /\ members_ok ms /\
    NoDup ((fun kv => unquote kv.1) <$> ms) /\ Forall (fun kv => unquote kv.1 ∈ StructKeys) ms;
  struct_others ms ms' : members_ok ms -> members_ok ms' -> Forall (fun kv => ~ takes_field (unquote kv.1)) ms' ->
    UnmarshalStruct (object_text (ms ++ ms')) = UnmarshalStruct (object_text ms)
}.

Section Unknown.
Context {T : Type} `{StructLaws T}.

Record unknown_ok (unknown : list (list ascii * list ascii)) : Prop := {
  uo_distinct : NoDup unknown.*1;
  uo_valid : Forall (fun kv => Valid kv.1 = true) unknown;
  uo_values : Forall (fun kv => value_spelled 1 kv.2) unknown;
  uo_others : Forall (fun kv => ~ takes_field kv.1) unknown
}.

Lemma unknown_sorted unknown : unknown_ok unknown -> let es := sort_by (fun a b => less_bytes a.1 b.1) unknown in
  unknown_ok es /\ members_ok (map marshalled_member es) /\ map (fun kv => (unquote kv.1, kv.2)) (map marshalled_member es) = es.
Proof.
  intros [Hn Hv Hw Ho]. cbn zeta. pose proof (sort_by_perm (fun a b => less_bytes a.1 b.1) unknown) as Hp. rewrite -Hp in Hn, Hv, Hw, Ho.
  split; [by split|]. rewrite map_map. clear Hp Hn Ho. revert Hv Hw. generalize (sort_by (fun a b => less_bytes a.1 b.1) unknown) as es.
  intros es Hv Hw. induction Hv as [|[k t] es Hk _ IH]; [by split; [constructor|]|]. apply Forall_cons in Hw as [Ht Hw].
  destruct (IH Hw) as [Hok Heq]. cbn [map fst snd marshalled_member] in *. destruct (marshal_body_read k Hk) as (Hb & Hu & _).
  split; [by constructor|]. by rewrite Heq Hu.
Qed.

(** C40: A struct written with members none of which its decoder takes for a field,
    in any letter case ([unknown_ok]), is read back as its own encoding is read
    without them ([v'], which is [v] where [encoding/json] reads back what it
    wrote), and with just those members. *)
Theorem unknown_kept v v' body unknown :
  MarshalStruct v = Some body -> UnmarshalStruct body = Some v' -> unknown_ok unknown ->
  exists data unknown', MarshalWithUnknown v unknown = Some data /\
    UnmarshalWithUnknown data StructKeys = Some (v', unknown') /\ unknown' ≡ₚ unknown.
Proof.
  intros Hm Hu Hok. destruct (struct_object v body Hm) as (ms & -> & Hms & Hnd & Hkeys).
  destruct (unknown_sorted unknown Hok) as ([Hes _ _ Hot] & Hmes & Heq). set (es := sort_by _ unknown) in *.
  assert (MarshalWithUnknown v unknown = Some (object_text (ms ++ map marshalled_member es))) as Hw.
  { unfold MarshalWithUnknown. rewrite Hm. case_decide as Hl.
    - destruct unknown; [|done]. by rewrite app_nil_r.
    - change ["{"%char; "}"%char] with (object_text []). by rewrite JoinObjects_members. }
  exists (object_text (ms ++ map marshalled_member es)), es. split; [done|]. split; [|apply sort_by_perm].
  assert (Forall (fun kv => ~ takes_field (unquote kv.1)) (map marshalled_member es)) as Hothers.
  { rewrite -Heq in Hot. by rewrite !Forall_map in Hot |- *. }
  unfold UnmarshalWithUnknown. rewrite struct_others // Hu UnmarshalMap_object; [|by apply Forall_app].
  rewrite map_app Heq. set (ks := map (fun kv => (unquote kv.1, kv.2)) ms).
  assert (ks.*1 = (fun kv => unquote kv.1) <$> ms) as Hks by (unfold ks; change map with (@fmap list _); by rewrite -list_fmap_compose).
  assert (Forall (fun kv => kv.1 ∈ StructKeys) ks) as Hin by by apply Forall_map.
  assert (Forall (fun kv => kv.1 ∉ StructKeys) es) as Hout.
  { apply (Forall_impl _ _ _ Hot). intros kv Hkv Hin'. by apply Hkv, keys_taken. }
  rewrite set_members_NoDup.
  2:{ rewrite fmap_app NoDup_app Hks. split_and!; [done| |done]. rewrite -Hks. intros k Hk Hk'.
      apply list_elem_of_fmap in Hk as (x & -> & Hx), Hk' as (y & Hxy & Hy).
      rewrite !Forall_forall in Hin, Hout. apply (Hout y Hy). rewrite -Hxy. by apply Hin. }
  unfold ExtraKeys. rewrite filter_app. do 2 f_equal.
  assert (filter (fun kv => kv.1 ∉ StructKeys /\ kv.1 ∉ []) ks = []) as ->.
  { apply filter_none. intros x Hx [Hnot _]. rewrite Forall_forall in Hin. by apply Hnot, Hin. }
  cbn [app]. clear -Hout. induction Hout as [|kv l Hkv _ IH]; [done|]. rewrite filter_cons_True; [by rewrite IH|]. split; [done|apply not_elem_of_nil].
Qed.
End Unknown.
