(* ===== verification/Times.v ===== *)
(** * The one spelling of a time ([hash.go], [time])

    [CanonicalTime] is [t.UTC().Format(time.RFC3339Nano)], over the proleptic
    Gregorian calendar, a time being its nanoseconds since the start of year 1.
    [ParseCanonicalTime] is [time.Parse] of that layout followed by the test that
    the result renders as it was spelled: all else that [time.Parse] takes, an
    offset or a date that does not exist among them, fails the test, so the
    fields are read where the layout has them and the test decides. *)
From S2P Require Import Prelude Entry Strconv Json.
From S2P Require Import StrconvProps NumberProps.
Open Scope session_scope.
Local Open Scope Z_scope.

(** ** The calendar *)

Definition leap (y : Z) : bool := (y mod 4 =? 0) && (negb (y mod 100 =? 0) || (y mod 400 =? 0)).
Definition month_days (y m : Z) : Z :=
  if m =? 2 then (if leap y then 29 else 28)
  else if (m =? 4) || (m =? 6) || (m =? 9) || (m =? 11) then 30 else 31.

(** The days from the start of year 1 to the start of a year. *)
Definition days_before_year (y : Z) : Z := 365 * (y - 1) + (y - 1) / 4 - (y - 1) / 100 + (y - 1) / 400.
Definition days_before_month (y m : Z) : Z :=
  foldl (fun acc k => if k <? m then acc + month_days y k else acc) 0 [1; 2; 3; 4; 5; 6; 7; 8; 9; 10; 11; 12].
Definition date_days (y m d : Z) : Z := days_before_year y + days_before_month y m + (d - 1).

Definition year_of (n : Z) : Z :=
  let y := n * 400 / 146097 + 1 in
  if days_before_year (y + 1) <=? n then y + 1 else if n <? days_before_year y then y - 1 else y.

(** The month a day of a year is in, and the day of the month. *)
Fixpoint month_from (fuel : nat) (y m d : Z) : Z * Z :=
  match fuel with
  | O => (m, d)
  | S fuel => if d <? month_days y m then (m, d) else month_from fuel y (m + 1) (d - month_days y m)
  end.
Definition civil (n : Z) : Z * Z * Z :=
  let y := year_of n in
  let (m, d) := month_from 11 y 1 (n - days_before_year y) in
  (y, m, d + 1).

(** ** Rendering *)

(** [appendInt]: a number with zeros before it to a width. *)
Definition pad (width : nat) (n : Z) : list ascii :=
  let ds := digits_of (Z.abs n) in
  (if n <? 0 then ["-"%char] else []) ++ replicate (width - length ds)%nat "0"%char ++ ds.

Fixpoint drop_zeros (l : list ascii) : list ascii :=
  match l with
  | c :: l' => let r := drop_zeros l' in if bool_decide (r = []) && bool_decide (c = "0"%char) then [] else c :: r
  | [] => []
  end.

Definition nano : Z := 1000000000.
Definition day_nanos : Z := 86400 * nano.

Definition fraction (ns : Z) : list ascii := if ns =? 0 then [] else "."%char :: drop_zeros (pad 9 ns).

Definition render (y m d h mi s ns : Z) : list ascii :=
  pad 4 y ++ "-"%char :: pad 2 m ++ "-"%char :: pad 2 d ++ "T"%char ::
  pad 2 h ++ ":"%char :: pad 2 mi ++ ":"%char :: pad 2 s ++ fraction ns ++ ["Z"%char].

Definition CanonicalTime (t : Time) : string :=
  let n := t_nanos t in
  let '(y, m, d) := civil (n / day_nanos) in
  let s := n mod day_nanos / nano in
  string_of_list_ascii (render y m d (s / 3600) (s / 60 mod 60) (s mod 60) (n mod nano)).

(** ** Parsing *)

Definition field (from width : nat) (l : list ascii) : Z := digits_val (take width (drop from l)).

(** The nanoseconds a fraction spells, from its point. *)
Definition read_fraction (l : list ascii) : Z :=
  match l with
  | c :: l => if bool_decide (c = "."%char) then let ds := (span_digits l).1 in digits_val ds * 10 ^ (9 - Z.of_nat (length ds)) else 0
  | [] => 0
  end.

Definition read_time (l : list ascii) : Time :=
  mkTime (date_days (field 0 4 l) (field 5 2 l) (field 8 2 l) * day_nanos
          + (field 11 2 l * 3600 + field 14 2 l * 60 + field 17 2 l) * nano + read_fraction (drop 19 l)) 0.

Definition ParseCanonicalTime (s : string) : option Time :=
  let t := read_time (la s) in
  if decide (CanonicalTime t = s) then Some t else None.

Example canonical_epoch : CanonicalTime (mkTime (62135596800 * nano) 0) = "1970-01-01T00:00:00Z".
Proof. vm_compute. reflexivity. Qed.
Example canonical_leap : ParseCanonicalTime "2024-02-29T23:59:59.5Z" = Some (mkTime (63844847999 * nano + 500000000) 0).
Proof. vm_compute. reflexivity. Qed.
Example canonical_not : ParseCanonicalTime "2023-02-29T00:00:00Z" = None /\ ParseCanonicalTime "2023-01-01T00:00:00.50Z" = None /\
  ParseCanonicalTime "2023-01-01T00:00:00+01:00" = None.
Proof. vm_compute. auto. Qed.

(** ** A time reads back from its one spelling

    The days of the calendar and their dates correspond ([civil_spec]), and a
    time of the years 1 to 9999 is parsed from what it renders as. *)

Lemma year_of_spec n : days_before_year (year_of n) <= n < days_before_year (year_of n + 1).
Proof.
  unfold year_of. set (y := n * 400 / 146097 + 1).
  assert (days_before_year (y - 1) <= n < days_before_year (y + 2)) as H.
  { unfold days_before_year, y. Z.to_euclidean_division_equations. lia. }
  destruct (Z.leb_spec (days_before_year (y + 1)) n).
  - replace (y + 1 + 1) with (y + 2) by lia. lia.
  - destruct (Z.ltb_spec n (days_before_year y)); [|lia]. replace (y - 1 + 1) with y by lia. lia.
Qed.

Definition year_days (y : Z) : Z := if leap y then 366 else 365.

Lemma year_length y : days_before_year (y + 1) = days_before_year y + year_days y.
Proof.
  unfold year_days, days_before_year, leap.
  destruct (Z.eqb_spec (y mod 4) 0), (Z.eqb_spec (y mod 100) 0), (Z.eqb_spec (y mod 400) 0); cbn; Z.to_euclidean_division_equations; lia.
Qed.

Lemma before_next_month y m : 1 <= m <= 12 ->
  days_before_month y (m + 1) = days_before_month y m + month_days y m /\ 28 <= month_days y m <= 31 /\ days_before_month y 1 = 0 /\
  days_before_month y 13 = year_days y.
Proof.
  intros Hm. unfold year_days. assert (m = 1 \/ m = 2 \/ m = 3 \/ m = 4 \/ m = 5 \/ m = 6 \/ m = 7 \/ m = 8 \/ m = 9 \/ m = 10 \/ m = 11 \/ m = 12) as Hc by lia.
  repeat destruct Hc as [->|Hc]; [..|subst m]; unfold days_before_month, month_days; destruct (leap y); vm_compute; intuition congruence.
Qed.

Lemma month_from_spec y n fuel : forall m d, m = 12 - Z.of_nat fuel -> 1 <= m -> days_before_month y m + d = n -> 0 <= d -> n < year_days y ->
  let (m', d') := month_from fuel y m d in days_before_month y m' + d' = n /\ 1 <= m' <= 12 /\ 0 <= d' < month_days y m'.
Proof.
  induction fuel as [|fuel IH]; intros m d Hm H1 Hn Hd Hy; cbn [month_from].
  - assert (m = 12) as -> by lia. destruct (before_next_month y 12) as (H & _ & _ & H13); [lia|]. change (12 + 1) with 13 in H. lia.
  - destruct (before_next_month y m) as (H & _ & _ & _); [lia|].
    destruct (Z.ltb_spec d (month_days y m)); [lia|]. apply IH; lia.
Qed.

Lemma civil_spec n : let '(y, m, d) := civil n in date_days y m d = n /\ y = year_of n /\ 1 <= m <= 12 /\ 1 <= d <= 31.
Proof.
  unfold civil. pose proof (year_of_spec n) as Hy. set (y := year_of n) in *. pose proof (year_length y) as Hl.
  destruct (before_next_month y 1) as (_ & _ & H1 & _); [lia|].
  pose proof (month_from_spec y (n - days_before_year y) 11 1 (n - days_before_year y)) as Hm.
  destruct (month_from 11 y 1 (n - days_before_year y)) as [m d]. destruct Hm as (He & Hmr & Hd); [lia..|].
  destruct (before_next_month y m) as (_ & Hb & _ & _); [lia|]. unfold date_days. split_and!; lia.
Qed.

Lemma year_of_range n : 0 <= n < days_before_year 10000 -> 1 <= year_of n <= 9999.
Proof.
  intros H. pose proof (year_of_spec n) as Hy. set (y := year_of n) in *. clearbody y. unfold days_before_year in *.
  Z.to_euclidean_division_equations. lia.
Qed.
Lemma pad_spec w n : (0 < w)%nat -> 0 <= n < 10 ^ Z.of_nat w ->
  length (pad w n) = w /\ forallb is_digit (pad w n) = true /\ digits_val (pad w n) = n.
Proof.
  intros Hw Hn. unfold pad. rewrite Z.abs_eq; [|lia]. destruct (Z.ltb_spec n 0); [lia|]. cbn [app].
  destruct (digits_of_spec n) as (Hv & Hd & Hne & Hu & Hl); [lia|].
  assert (length (digits_of n) <= w)%nat as Hlen.
  { destruct (Z.eq_dec n 0) as [->|]; [vm_compute; lia|]. specialize (Hl ltac:(lia)).
    assert (10 ^ (Z.of_nat (length (digits_of n)) - 1) < 10 ^ Z.of_nat w) as Hlt by lia.
    apply Z.pow_lt_mono_r_iff in Hlt; lia. }
  split; [rewrite length_app length_replicate; lia|]. split.
  - rewrite forallb_app Hd andb_true_r. induction (w - length (digits_of n))%nat; [done|]. by rewrite replicate_S /=.
  - rewrite digits_val_app digits_val_zeros Hv. lia.
Qed.

Lemma drop_zeros_spec l : exists k, l = drop_zeros l ++ replicate k "0"%char.
Proof.
  induction l as [|c l [k IH]]; [by exists 0%nat|]. cbn [drop_zeros]. destruct (bool_decide_reflect (drop_zeros l = [])) as [E|E]; cbn [andb].
  - destruct (bool_decide_reflect (c = "0"%char)) as [->|].
    + exists (S k). rewrite replicate_S. cbn. rewrite E in IH. by rewrite IH.
    + exists k. cbn. by rewrite -IH.
  - exists k. cbn. by rewrite -IH.
Qed.

Lemma read_fraction_spec ns : 0 <= ns < nano -> read_fraction (fraction ns ++ ["Z"%char]) = ns.
Proof.
  intros Hns. unfold fraction. destruct (Z.eqb_spec ns 0) as [->|Hne]; [done|].
  destruct (pad_spec 9 ns) as (Hl & Hd & Hv); [lia|exact Hns|]. destruct (drop_zeros_spec (pad 9 ns)) as [k Hk].
  cbn [app read_fraction]. rewrite bool_decide_eq_true_2 //. rewrite Hk forallb_app in Hd. apply andb_true_iff in Hd as [Hd _].
  rewrite span_digits_app //. cbn [fst]. rewrite Hk length_app length_replicate in Hl. rewrite -[in RHS]Hv [in RHS]Hk digits_val_app digits_val_zeros length_replicate.
  replace (9 - Z.of_nat (length (drop_zeros (pad 9 ns)))) with (Z.of_nat k) by lia. lia.
Qed.

(** A list of a known length, taken apart. *)
Lemma length_2 {A} (l : list A) : length l = 2%nat -> exists a b, l = [a; b].
Proof. destruct l as [|a [|b [|]]]; try done. eauto. Qed.
Lemma length_4 {A} (l : list A) : length l = 4%nat -> exists a b c d, l = [a; b; c; d].
Proof. destruct l as [|a [|b [|c [|d [|]]]]]; try done. eauto. Qed.

Lemma read_render y m d h mi s ns : 0 <= y <= 9999 -> 0 <= m <= 99 -> 0 <= d <= 99 -> 0 <= h <= 99 -> 0 <= mi <= 99 -> 0 <= s <= 99 ->
  0 <= ns < nano -> read_time (render y m d h mi s ns) = mkTime (date_days y m d * day_nanos + (h * 3600 + mi * 60 + s) * nano + ns) 0.
Proof.
  intros Hy Hm Hd Hh Hmi Hs Hns. unfold read_time, render, field.
  destruct (pad_spec 4 y) as (Ly & _ & Vy); [lia..|]. destruct (pad_spec 2 m) as (Lm & _ & Vm); [lia..|]. destruct (pad_spec 2 d) as (Ld & _ & Vd); [lia..|].
  destruct (pad_spec 2 h) as (Lh & _ & Vh); [lia..|]. destruct (pad_spec 2 mi) as (Lmi & _ & Vmi); [lia..|]. destruct (pad_spec 2 s) as (Ls & _ & Vs); [lia..|].
  apply length_4 in Ly as (y1 & y2 & y3 & y4 & Ey). apply length_2 in Lm as (m1 & m2 & Em), Ld as (d1 & d2 & Ed), Lh as (h1 & h2 & Eh), Lmi as (i1 & i2 & Ei), Ls as (s1 & s2 & Es).
  rewrite Ey Em Ed Eh Ei Es. cbn [app take drop]. rewrite Ey in Vy. rewrite Em in Vm. rewrite Ed in Vd. rewrite Eh in Vh. rewrite Ei in Vmi. rewrite Es in Vs.
  by rewrite Vy Vm Vd Vh Vmi Vs read_fraction_spec.
Qed.

(** A time of the years 1 to 9999 reads back as it was, in UTC. *)
Lemma ParseCanonicalTime_CanonicalTime t : 0 <= t_nanos t < days_before_year 10000 * day_nanos ->
  ParseCanonicalTime (CanonicalTime t) = Some (UTC t).
Proof.
  intros Ht. assert (read_time (la (CanonicalTime t)) = UTC t) as Hr.
  { unfold CanonicalTime. pose proof (civil_spec (t_nanos t / day_nanos)) as Hc. pose proof (year_of_range (t_nanos t / day_nanos)) as Hy.
    destruct (civil _) as [[y m] d]. destruct Hc as (Hc & Hyr & Hm & Hd). unfold la. rewrite list_ascii_of_string_of_list_ascii.
    assert (0 <= t_nanos t / day_nanos < days_before_year 10000) as Hdays.
    { split; [apply Z.div_pos; [lia|done]|]. apply Z.div_lt_upper_bound; [done|lia]. }
    specialize (Hy Hdays). rewrite read_render; [|unfold day_nanos, nano in *; Z.to_euclidean_division_equations; lia..].
    unfold UTC. f_equal. rewrite Hc. clear. unfold day_nanos, nano. Z.to_euclidean_division_equations. lia. }
  unfold ParseCanonicalTime. rewrite Hr. rewrite decide_True; [done|]. done.
Qed.
