(* ===== verification/Codec.v ===== *)
(** * Reading and writing a session file ([codec.go], [scan.go])

    [Read] is the loop over the lines of a file, with what it does of blank
    lines, of a last line cut short and of a header of an earlier format;
    [Scan] the same without decoding an entry; [Write] the file of a session.
    The decoders of a header and of an entry, and the rewriting of the
    references of an entry of an early format, are parameters ([LineCodec]). *)
From S2P Require Import Prelude Entry Header Tree Leaf Calls CallRules Digest Settings Context Hash Session Json Times.
Open Scope session_scope.

(** What [RemapRefs] returns that a migration reads ([remap.go]). *)
Record Remapped `{OpenResponses} := mkRemapped { rm_Entry : Entry; rm_Opaque : bool; rm_Unmapped : list string }.

Class LineCodec `{OpenResponses} := {
  (* the entry, and the line's canonical bytes when decoding came by them *)
  decodeLine : RawMessage -> result (Entry * option RawMessage);
  (* json.Unmarshal into a []EntryRef and a []Normalisation *)
  UnmarshalRefs : RawMessage -> option (list EntryRef);
  UnmarshalNormalised : RawMessage -> option (list Normalisation);
  (* remapRefs, with the order of parents kept: the entry a reference into a
     session names, when it is known *)
  remapRefs : Entry -> (string -> string -> option string) -> result Remapped
}.

(** ** Lines *)

Definition LF : ascii := "010"%char.
Definition CR : ascii := "013"%char.

(** [ReadBytes('\n')]: the bytes up to the line feed and with it, what follows,
    and whether the input ended first. *)
Fixpoint ReadBytes (file : string) : string * string * bool :=
  match file with
  | EmptyString => (EmptyString, EmptyString, true)
  | String c file =>
      if decide (c = LF) then (String c EmptyString, file, false)
      else let '(data, rest, atEOF) := ReadBytes file in (String c data, rest, atEOF)
  end.

(** [bytes.TrimRight(data, "\r\n")]. *)
Fixpoint TrimRight (data : string) : string :=
  match data with
  | EmptyString => EmptyString
  | String c data =>
      let t := TrimRight data in
      if bool_decide (t = EmptyString) && (bool_decide (c = CR) || bool_decide (c = LF)) then EmptyString else String c t
  end.

(** A last line that did not parse. *)
Record TruncatedLine := mkTruncated { tl_Line : nat; tl_Data : string; tl_Err : error }.

Section Codec.
Context {OR : OpenResponses} {IC : ItemContent} {ND : NameDecoding} {CA : Canonicaliser} {SH : SHA256}
  {JT : JSONTools} {EC : EntryCodec} {HJ : HeaderJSON} {LC : LineCodec}.
Implicit Types (s : Session) (e : Entry) (h : Header).

Definition json_valid (data : RawMessage) : bool := json_Valid (la data).

(** ** One line ([verifyLine]) *)

Record lineEnvelope := mkLineEnvelope {
  lv_id : string;
  lv_parent : string;
  lv_typ : string;
  lv_content : string;
  lv_parents : option RawMessage
}.

(** The last member of a name. *)
Definition member_of (k : string) (ms : list canonicalMember) : option RawMessage :=
  cm_val <$> last (filter (fun m => cm_key m = k) ms).

(** [str]: a member that is absent or null is the empty string. *)
Definition backslash : ascii := "\"%char.
Definition line_str (v : option RawMessage) : result string :=
  match v with
  | None => Ok ""
  | Some v =>
      if decide (v = "null") then Ok ""
      else
        let n := String.length v in
        if (2 <=? n) && bool_decide (substring 0 1 v = dquote) && bool_decide (substring (n - 1) 1 v = dquote)
           && bool_decide (backslash ∉ la v)
        then Ok (substring 1 (n - 2) v)
        else match UnmarshalString v with Some t => Ok t | None => Err ErrOther end
  end.

Definition commonBody (legacyID normalised : option RawMessage) : result unit :=
  match legacyID with
  | Some v => if isNull v then Ok tt else match UnmarshalString v with Some _ => Ok tt | None => Err ErrOther end
  | None => Ok tt
  end ;!
  match normalised with
  | Some v => if isNull v then Ok tt else match UnmarshalNormalised v with Some _ => Ok tt | None => Err ErrOther end
  | None => Ok tt
  end.

Definition verifyLine (c : RawMessage) : result lineEnvelope :=
  match canonicalMembers c with
  | None => Err ErrOther
  | Some members =>
      refuse_if (existsb (fun m => bool_decide (cm_key m = "content")) members) ErrReservedMember ;!
      let! typ := line_str (member_of "type" members) in
      let! id := line_str (member_of "id" members) in
      let! parent := line_str (member_of "parent" members) in
      let! ts := line_str (member_of "ts" members) in
      refuse_if (bool_decide (typ = "")) ErrOther ;!
      refuse_if (bool_decide (id = "")) ErrBadID ;!
      refuse_if (bool_decide (parent = "") && match member_of "parent" members with
                                             | Some p => bool_decide (p <> "null")
                                             | None => false
                                             end) ErrBadID ;!
      refuse_if (bool_decide (ParseCanonicalTime ts = None)) ErrBadID ;!
      commonBody (member_of "legacy_id" members) (member_of "normalised" members) ;!
      let (hashed, content) := memberHashes members in
      refuse_if (bool_decide (hashed <> id)) ErrBadID ;!
      Ok (mkLineEnvelope id parent typ content (member_of "parents" members))
  end.

(** ** Read *)

(** What [Read] keeps of the lines so far: the session; of a file before 0.5 the
    new id of each old one; and the base rule. *)
Record reading := mkReading { rd_session : Session; rd_ids : option (gmap string string); rd_rule : option baseRule }.

Definition set_migrated (migrated : bool) (declared : string) s : Session :=
  mkSession (s_header s) (s_entries s) (s_byID s) (s_children s) (s_leaf s) (s_prefix s) (s_callIDs s) (s_spawnIDs s)
    (s_copied s) (s_results s) (s_dispatches s) (s_repeated s) (s_unresolved s) migrated declared (s_heldRedacted s) (s_read s).
Definition add_unresolved (id : string) s : Session :=
  mkSession (s_header s) (s_entries s) (s_byID s) (s_children s) (s_leaf s) (s_prefix s) (s_callIDs s) (s_spawnIDs s)
    (s_copied s) (s_results s) (s_dispatches s) (s_repeated s) (s_unresolved s ++ [id]) (s_migrated s) (s_declared s)
    (s_heldRedacted s) (s_read s).
Definition add_repeated (id : string) s : Session := set_repeated (s_repeated s ++ [id]) s.

(** The header's line.  A header that validates has all that [New] would fill. *)
Definition read_header (data : RawMessage) : result reading :=
  let! h := UnmarshalHeader data in
  Validate h ;!
  let! (_, minor) := ParseFormat (h_Format h) in
  let old := bool_decide (minor < hashedMinor)%Z in
  let! migrated := migrate h in
  Ok (mkReading (set_migrated old (h_Format h) (New migrated)) (if old then Some ∅ else None) (newBaseRule (h_Base migrated))).

(** [migration.rewrite]: the entry as it is rewritten, the session with what it
    could not be noted, and the old id. *)
Definition set_legacy (legacy : string) (ts : Time) (b : EntryBase) : EntryBase :=
  mkEntryBase (ID b) (Parent b) (Parents b) ts legacy (Normalised b) (redacted b)
    (isRedacted b) (redactedRaw b) (gated b) (Unknown b) (content b) (tsRaw b).
Definition clear_id e : Entry := set_Base (set_ID "") e.

Definition migration_rewrite (ids : gmap string string) e s : result (Entry * string * Session) :=
  let old := eid e in
  refuse_if (bool_decide (old = "")) ErrBadID ;!
  let e := set_Base (set_legacy old (UTC (Timestamp (Base e)))) e in
  let! r := remapRefs e (fun session entry =>
      if decide (session <> "" /\ session <> h_ID (s_header s)) then None else ids !! entry) in
  let unresolved := rm_Opaque r || existsb (fun at_ => bool_decide (at_ <> "/parent")) (rm_Unmapped r) in
  let s := if unresolved then add_unresolved old s else s in
  let (e, raw) := rewrite_raw (clear_id (rm_Entry r)) in
  let! _ := raw in
  let (e, hashed) := hashEntry None e in
  let! _ := hashed in
  let (e, raw) := rewrite_raw e in
  let! _ := raw in
  Ok (e, old, s).

(** [Session.link]. *)
Definition link (st : reading) e (data : RawMessage) (c : option RawMessage) : result reading :=
  let s := rd_session st in
  let e := gateRedacted e (s_declared s) in
  let! (e, ids, s) :=
    match rd_ids st with
    | Some ids =>
        let! (e, old, s) := migration_rewrite ids e s in
        Ok (e, Some (<[old := eid e]> ids), s)
    | None =>
        let! c := match c with Some c => Ok c | None => match Transform data with Some c => Ok c | None => Err ErrOther end end in
        let! v := verifyLine c in
        Ok (set_Base (set_hashes (lv_id v) (lv_content v)) e, None, s)
    end in
  if has_entry s (eid e) then Ok (mkReading (add_repeated (eid e) s) ids (rd_rule st))
  else
    refuse_if (bool_decide (eparent e <> "") && negb (has_entry s (eparent e))) ErrNoEntry ;!
    let! rule := baseRule_line (rd_rule st) (eid e) (eparent e) in
    checkParents s (Base e) ;!
    Ok (mkReading (add s e) ids rule).

(** The loop.  A turn takes a byte at least, or ends it. *)
Fixpoint read_lines (fuel : nat) (file : string) (line : nat) (st : option reading)
    : result (option reading * option TruncatedLine) :=
  match fuel with
  | O => Err ErrOther
  | S fuel =>
      let '(data, rest, atEOF) := ReadBytes file in
      let data := TrimRight data in
      let next st := if atEOF then Ok (st, None) else read_lines fuel rest (S line) st in
      if decide (data = "") then next st
      else
        match ijson_Check data with Err err => if json_valid data then Err err else Ok tt | Ok _ => Ok tt end ;!
        match st with
        | None => let! st := read_header data in next (Some st)
        | Some st =>
            match decodeLine data with
            | Err err =>
                if negb atEOF && bool_decide (rest <> "") then Err err
                else if json_valid data then Err err
                else Ok (Some st, Some (mkTruncated (S line) data err))
            | Ok (e, c) => let! st := link st e data c in next (Some st)
            end
        end
  end.

(** The prefix of a session whose header names a base. *)
Definition read_prefix s : result Session :=
  let base := h_Base (s_header s) in
  if decide (base = "") then Ok s
  else
    refuse_if (negb (has_entry s base)) ErrNoEntry ;!
    Ok (set_prefix (list_to_set (eid <$> path s base)) s).

Definition Read (file : RawMessage) : result (Session * option TruncatedLine) :=
  let! (st, truncated) := read_lines (S (String.length file)) file 0 None in
  match st with
  | None => Err ErrOther
  | Some st =>
      let! s := read_prefix (rd_session st) in
      Ok (set_leaf (resolveLeaf s) s, truncated)
  end.

(** ** Write *)

Definition write_line (line : result RawMessage) : result string :=
  let! data := line in
  match Transform data with Some c => Ok (c ++ String LF EmptyString)%string | None => Err ErrOther end.
Fixpoint write_lines (lines : list (result RawMessage)) : result string :=
  match lines with
  | [] => Ok ""
  | l :: lines => let! l := write_line l in let! rest := write_lines lines in Ok (l ++ rest)%string
  end.

Definition Write s : result RawMessage :=
  refuse_if (s_migrated s && bool_decide (s_unresolved s <> [])) ErrUnresolvedMigration ;!
  write_lines (MarshalHeader (s_header s) :: (MarshalEntry <$> s_entries s)).

(** ** Scan *)

Record RawEntry := mkRawEntry {
  re_ID : string;
  re_Parent : string;
  re_Type : string;
  re_Line : RawMessage;
  re_Repeat : bool;
  re_format : string
}.

(** [UnmarshalEntry] ([entry.go]). *)
Definition UnmarshalEntry (data : RawMessage) : result Entry := let! (e, _) := decodeLine data in Ok e.

(** [RawEntry.Decode]. *)
Definition RawEntry_Decode (r : RawEntry) : result Entry :=
  let! e := UnmarshalEntry (re_Line r) in
  Ok (if decide (re_format r = "") then e else gateRedacted e (re_format r)).

(** The references the parents member of a line holds. *)
Definition line_refs (p : option RawMessage) : result (list EntryRef) :=
  match p with
  | None => Ok []
  | Some p => if decide (p = "null") then Ok []
              else match UnmarshalRefs p with Some refs => Ok refs | None => Err ErrOther end
  end.

(** What [scanLine] keeps of the lines before. *)
Record scanning := mkScanning { sc_seen : gset string; sc_rule : option baseRule }.

Definition scanLine (data : RawMessage) (session format : string) (st : scanning) : result (RawEntry * scanning) :=
  ijson_Check data ;!
  match Transform data with
  | None => Err ErrOther
  | Some c =>
      let! v := verifyLine c in
      if decide (lv_id v ∈ sc_seen st) then Ok (mkRawEntry (lv_id v) (lv_parent v) (lv_typ v) data true format, st)
      else
        refuse_if (bool_decide (lv_parent v <> "") && bool_decide (lv_parent v ∉ sc_seen st)) ErrNoEntry ;!
        let! rule := baseRule_line (sc_rule st) (lv_id v) (lv_parent v) in
        let! refs := line_refs (lv_parents v) in
        checkRefs (lv_parent v) session refs (fun id => bool_decide (id ∈ sc_seen st)) ;!
        Ok (mkRawEntry (lv_id v) (lv_parent v) (lv_typ v) data false format, mkScanning ({[lv_id v]} ∪ sc_seen st) rule)
  end.

(** How a sequence ends: with the file, at a line cut short, or at an error. *)
Inductive scan_end := ScanDone | ScanTruncated (t : TruncatedLine) | ScanError (err : error).

(** The base the header names, once the file has ended. *)
Definition scan_base h (st : scanning) (fin : scan_end) : scan_end :=
  if decide (h_Base h <> "" /\ h_Base h ∉ sc_seen st) then ScanError ErrNoEntry else fin.

(** The sequence, ranged over to its end. *)
Fixpoint scan_lines (fuel : nat) (file : string) (line : nat) h (st : scanning) : list RawEntry * scan_end :=
  match fuel with
  | O => ([], ScanError ErrOther)
  | S fuel =>
      let '(data, rest, atEOF) := ReadBytes file in
      let data := TrimRight data in
      let next st := if atEOF then ([], scan_base h st ScanDone) else scan_lines fuel rest (S line) h st in
      if decide (data = "") then next st
      else
        match scanLine data (h_ID h) (h_Format h) st with
        | Err err =>
            if (atEOF || bool_decide (rest = "")) && negb (json_valid data)
            then ([], scan_base h st (ScanTruncated (mkTruncated (S line) data err)))
            else ([], ScanError err)
        | Ok (e, st) => let (es, fin) := next st in (e :: es, fin)
        end
  end.

(** The first line that is not blank, and where it leaves the input. *)
Fixpoint scan_first (fuel : nat) (file : string) (line : nat) : result (string * string * bool * nat) :=
  match fuel with
  | O => Err ErrOther
  | S fuel =>
      let '(data, rest, atEOF) := ReadBytes file in
      let data := TrimRight data in
      if decide (data = "") then if atEOF then Err ErrOther else scan_first fuel rest (S line)
      else Ok (data, rest, atEOF, S line)
  end.

(** [Scan]: the header, and the sequence. *)
Definition Scan (file : RawMessage) : result (Header * (list RawEntry * scan_end)) :=
  let! (first, line) := scan_first (S (String.length file)) file 0 in
  let '(data, rest, atEOF) := first in
  match ijson_Check data with Err err => if json_valid data then Err err else Ok tt | Ok _ => Ok tt end ;!
  let! h := UnmarshalHeader data in
  Validate h ;!
  let! (_, minor) := ParseFormat (h_Format h) in
  refuse_if (bool_decide (minor < hashedMinor)%Z) ErrScanMigrated ;!
  let st := mkScanning ∅ (newBaseRule (h_Base h)) in
  Ok (h, if atEOF then ([], scan_base h st ScanDone) else scan_lines (S (String.length rest)) rest line h st).
End Codec.
