(* ===== verification/CodecLines.v ===== *)
(** * The lines of a session file

    What the canonicaliser writes is a line: it holds no byte below the space, so
    no line feed ([canonical_printable]), it is JSON and I-JSON, and short of its
    last bytes an object's is not JSON ([canonical_line_facts]).  What
    [ReadBytes] and [TrimRight] take off a file one line at a time. *)
From S2P Require Import Prelude Entry Header Tree Leaf Calls CallRules Digest Settings Context Hash Session Strconv StrconvProps Utf8 Json Jcs Ijson.
From S2P Require Import Utf8Props NumberProps JsonProps JcsProps JsonTokens IjsonProps JsonPrint JcsRoundtrip Marshal MarshalProps HashCanonical Codec.
Open Scope session_scope.

(** What the decoder of a line says of one it takes: it is JSON, the canonical
    bytes it came by are the line's, and the envelope it read is the one
    [verifyLine] reads of them. *)
Class LineCodecLaws `{LC : LineCodec} {CA : Canonicaliser} {SH : SHA256} {JT : JSONTools} := {
  decode_valid d e oc : decodeLine d = Ok (e, oc) -> json_valid d = true;
  decode_canonical d e c : decodeLine d = Ok (e, Some c) -> Transform d = Some c;
  decode_envelope d e oc c v : decodeLine d = Ok (e, oc) -> Transform d = Some c -> verifyLine c = Ok v ->
    eparent e = lv_parent v /\ line_refs (lv_parents v) = Ok (Parents (Base e))
}.

(** ** Printed text *)

Definition printable (c : ascii) : Prop := (32 <= byte_of c)%Z.

Lemma commas_printable l : Forall (Forall printable) l -> Forall printable (commas l).
Proof.
  induction 1 as [|x l Hx Hl IH]; [constructor|]. destruct l as [|y l]; [done|]. rewrite commas_cons.
  apply Forall_app. split; [done|]. by constructor.
Qed.

Lemma hex_printable c v : hex_val c = Some v -> printable c.
Proof.
  unfold hex_val, printable. destruct (_ && _) eqn:H1; [apply andb_true_iff in H1 as [H1 _]; apply Z.leb_le in H1; lia|].
  destruct (_ && _) eqn:H2 in |- *; [apply andb_true_iff in H2 as [H2 _]; apply Z.leb_le in H2; lia|].
  destruct (_ && _) eqn:H3 in |- *; [apply andb_true_iff in H3 as [H3 _]; apply Z.leb_le in H3; lia|done].
Qed.

Lemma escape_printable e v : escape_val e = Some v -> printable e.
Proof.
  unfold escape_val, printable. intros H.
  destruct (bool_decide (e = quote)) eqn:E1; [apply bool_decide_eq_true in E1 as ->; by vm_compute|].
  destruct (bool_decide (e = backslash)) eqn:E2; [apply bool_decide_eq_true in E2 as ->; by vm_compute|].
  destruct (bool_decide (e = "/"%char)) eqn:E3; [apply bool_decide_eq_true in E3 as ->; by vm_compute|]. simpl in H.
  repeat (case_bool_decide; [subst; by vm_compute|]). done.
Qed.

Lemma body_printable b : body b -> Forall printable b.
Proof.
  induction 1 as [|c b _ _ Hc _ IH|e v b _ He _ IH|h1 h2 h3 h4 r b Hh _ IH]; [constructor|by constructor|..].
  - constructor; [by vm_compute|]. constructor; [by eapply escape_printable|done].
  - apply hex4_inv in Hh. rewrite !Forall_cons in Hh. destruct Hh as ([? H1] & [? H2] & [? H3] & [? H4] & _).
    apply Forall_cons; split; [by vm_compute|]. apply Forall_cons; split; [by vm_compute|].
    by repeat (apply Forall_cons; split; [by eapply hex_printable|]).
Qed.

Lemma print_printable d v : well_spelled d v -> Forall printable (print_raw v).
Proof.
  assert (forall l, forallb (fun c => 32 <=? byte_of c)%Z l = true -> Forall printable l) as Hl.
  { intros l. rewrite forallb_forall. intros H. apply Forall_forall. intros c Hc%list_elem_of_In. by apply H, Z.leb_le in Hc. }
  assert (forall b, body b -> Forall printable (string_text b)) as Hs.
  { intros b Hb. unfold string_text. constructor; [by vm_compute|]. apply Forall_app. split; [by apply body_printable|by apply Hl]. }
  revert d. induction v as [|b|n|b|l IH|ms IH] using raw_nested; intros d Hw; inversion Hw as [| |? ? Hn|? ? Hb|? ? _ He|? ? _ He]; subst; cbn [print_raw].
  - by apply Hl.
  - destruct b; by apply Hl.
  - apply number_chars; [| |done].
    + intros c Hc. unfold is_digit in Hc. apply andb_true_iff in Hc as [Hc _]. apply Z.leb_le in Hc. unfold printable. lia.
    + intros c. rewrite !elem_of_cons elem_of_nil. intros [->|[->|[->|[->|[->|[]]]]]]; by vm_compute.
  - by apply Hs.
  - constructor; [by vm_compute|]. apply Forall_app. split; [|by apply Hl]. apply commas_printable, Forall_map. clear Hw.
    induction IH as [|x l Hx _ IHl]; [constructor|]. apply Forall_cons in He as [? ?]. constructor; [by eapply Hx|by apply IHl].
  - constructor; [by vm_compute|]. apply Forall_app. split; [|by apply Hl]. apply commas_printable, Forall_map. clear Hw.
    induction IH as [|[k x] l Hx _ IHl]; [constructor|]. apply Forall_cons in He as [[Hk ?] ?]. constructor; [|by apply IHl].
    apply Forall_app. split; [by apply Hs|]. constructor; [by vm_compute|]. by eapply Hx.
Qed.

(** ** Canonical text *)

Lemma canonical_text data c : Transform_bytes data = Some c ->
  Forall printable c /\ c <> [] /\ Check c = Ok tt /\ exists v, scan_document c = Some (v, []).
Proof.
  intros Ht. pose proof (canonical_is_IJSON _ _ Ht) as Hck.
  rewrite Transform_bytes_decoded in Ht. apply transformDecoded_write in Ht as (v & Hdec & Hw). apply decodes_decoded in Hdec.
  destruct (reads_back v 0%Z c Hdec Hw) as (x & -> & Hx & _).
  pose proof (print_scans x 0%Z [] Hx I) as H. pose proof (print_tight 0%Z x [] Hx) as Htt. rewrite app_nil_r in H Htt.
  split_and!; [by eapply print_printable| |done|exists x; by apply scans_document].
  destruct (print_head 0%Z x Hx) as (c & t & -> & _). done.
Qed.

(** ** Taking lines off a file *)

(** A line's text: neither empty nor broken. *)
Definition line_text (c : string) : Prop := c <> "" /\ LF ∉ la c /\ CR ∉ la c.

Lemma str_app_String x a b : (String x a ++ b)%string = String x (a ++ b)%string.
Proof. done. Qed.

Lemma str_app_nil (a : string) : (a ++ "")%string = a.
Proof. induction a as [|x a IH]; [done|]. by rewrite str_app_String IH. Qed.

Lemma la_String x s : la (String x s) = x :: la s.
Proof. done. Qed.

Lemma ReadBytes_line c rest : LF ∉ la c ->
  ReadBytes (c ++ String LF rest)%string = ((c ++ String LF "")%string, rest, false).
Proof.
  induction c as [|x c IH]; [done|]. rewrite la_String not_elem_of_cons. intros [Hx Hc]. rewrite str_app_String. cbn [ReadBytes].
  rewrite decide_False; [|naive_solver]. by rewrite IH.
Qed.

Lemma ReadBytes_last c : LF ∉ la c -> ReadBytes c = (c, "", true).
Proof.
  induction c as [|x c IH]; [done|]. rewrite la_String not_elem_of_cons. intros [Hx Hc]. cbn [ReadBytes].
  rewrite decide_False; [|naive_solver]. by rewrite IH.
Qed.

(** What is read and what is left are the file; the input has ended only when
    nothing is left, and else something was read. *)
Lemma ReadBytes_split file data rest atEOF : ReadBytes file = (data, rest, atEOF) ->
  file = (data ++ rest)%string /\ (if atEOF then rest = "" else data <> "").
Proof.
  revert data rest atEOF. induction file as [|x file IH]; intros data rest atEOF; cbn [ReadBytes]; [by intros [= <- <- <-]|].
  destruct (decide _); [by intros [= <- <- <-]|]. destruct (ReadBytes file) as [[d r] b]. intros [= <- <- <-].
  destruct (IH d r b eq_refl) as [-> Hb]. split; [done|]. by destruct b.
Qed.

Lemma ReadBytes_less file data rest : ReadBytes file = (data, rest, false) -> String.length rest < String.length file.
Proof.
  intros H. apply ReadBytes_split in H as [-> Hd]. rewrite str_length_app. destruct data; [done|]. simpl. lia.
Qed.

Lemma TrimRight_text c : LF ∉ la c -> CR ∉ la c -> TrimRight c = c.
Proof.
  induction c as [|x c IH]; [done|]. rewrite !la_String !not_elem_of_cons. intros [Hx Hc] [Hx' Hc']. cbn [TrimRight].
  rewrite IH // (bool_decide_eq_false_2 (x = CR)) ?(bool_decide_eq_false_2 (x = LF)) ?andb_false_r //; naive_solver.
Qed.

Lemma TrimRight_line c : LF ∉ la c -> CR ∉ la c -> TrimRight (c ++ String LF "")%string = c.
Proof.
  induction c as [|x c IH]; [done|]. rewrite !la_String !not_elem_of_cons. intros [Hx Hc] [Hx' Hc']. rewrite str_app_String. cbn [TrimRight].
  rewrite IH // (bool_decide_eq_false_2 (x = CR)) ?(bool_decide_eq_false_2 (x = LF)) ?andb_false_r //; naive_solver.
Qed.

Lemma line_text_app c p q : line_text c -> c = (p ++ q)%string -> LF ∉ la p /\ CR ∉ la p.
Proof.
  intros (_ & H1 & H2) ->. unfold la in *. rewrite !HashProps.la_app in H1 H2. set_solver.
Qed.

Section Lines.
#[local] Existing Instance json_tools.
#[local] Existing Instance jcs_canonicaliser.

Lemma printable_line c : Forall printable (la c) -> LF ∉ la c /\ CR ∉ la c.
Proof.
  rewrite Forall_forall. intros H. split; intros Hin; specialize (H _ Hin); unfold printable in H; vm_compute in H; by apply H.
Qed.

(** What is written of an entry: a line, JSON and I-JSON, in canonical form. *)
Lemma canonical_line_facts l c : Transform l = Some c ->
  line_text c /\ ijson_Check c = Ok tt /\ Transform c = Some c.
Proof.
  cbn [Transform jcs_canonicaliser ijson_Check json_tools]. intros (b & Ht & ->)%fmap_Some.
  change (la (string_of_list_ascii b)) with (list_ascii_of_string (string_of_list_ascii b)).
  rewrite list_ascii_of_string_of_list_ascii. destruct (canonical_text _ _ Ht) as (Hp & Hne & Hc & _).
  split_and!; [|done|by rewrite (canonical_fixed _ _ Ht)].
  assert (la (string_of_list_ascii b) = b) as Hb by apply list_ascii_of_string_of_list_ascii.
  split; [by intros E; rewrite E in Hb; subst|]. apply printable_line. by rewrite Hb.
Qed.

(** An object's line without its last bytes is not JSON. *)
Lemma object_line_cut l c p q : Transform l = Some c -> substring 0 1 c = "{" -> c = (p ++ q)%string -> p <> "" -> q <> "" ->
  json_valid p = false.
Proof.
  cbn [Transform jcs_canonicaliser]. intros (b & Ht & ->)%fmap_Some Hh Hc Hp Hq.
  destruct (canonical_text _ _ Ht) as (_ & _ & _ & v & Hv).
  assert (b = la p ++ la q) as ->.
  { rewrite -(list_ascii_of_string_of_list_ascii b) Hc. apply HashProps.la_app. }
  destruct p as [|x p]; [done|]. rewrite Hc in Hh. assert (x = "{"%char) as ->.
  { rewrite str_app_String in Hh. cbn in Hh. destruct (p ++ q)%string; injection Hh; done. }
  unfold json_valid. apply (object_cut (la p) (la q) v); [done|by destruct q].
Qed.
End Lines.
