(* ===== verification/CodecProps.v ===== *)
(** * What reading a file establishes, and that it undoes writing

    [filed]: the entries of a file, as [link] takes them one at a time.  A session
    [Read] returns holds one, whatever the bytes were ([Read_verifies]); one
    written is read back as it was ([Read_Write]), and with its last line torn
    anywhere but for that line ([Read_torn]); [Scan] accepts what [Read] accepts,
    but for what only decoding an entry refuses ([Scan_agrees]). *)
From S2P Require Import HashCanonical.
From S2P Require Import Prelude Entry Header Tree Leaf TreeWf LeafLemmas LeafRefine Calls CallRules Runs Verify Omit Digest Settings Context Hash Session.
From S2P Require Import SessionProps Written WrittenSound Forks Json Jcs Ijson Marshal Codec CodecLines.
Open Scope session_scope.

Section Filed.
Context {OR : OpenResponses} {CA : Canonicaliser} {SH : SHA256} {JT : JSONTools} {EC : EntryCodec}.
Implicit Types (e : Entry) (es : list Entry).

(** The entries of a file of a session, and the base rule after them. *)
Inductive filed (session base : string) : list Entry -> option baseRule -> Prop :=
  | filed_nil : filed session base [] (newBaseRule base)
  | filed_snoc es rule e rule' :
      filed session base es rule ->
      hash_named e -> eid e ∉ ids es -> (eparent e = "" \/ eparent e ∈ ids es) ->
      baseRule_line rule (eid e) (eparent e) = Ok rule' ->
      checkRefs (eparent e) session (Parents (Base e)) (fun id => bool_decide (id ∈ ids es)) = Ok tt ->
      filed session base (es ++ [e]) rule'.

Lemma filed_tree session base es rule : filed session base es rule -> tree es.
Proof. induction 1; constructor; try done. by apply ValidHash_goodID, named_valid. Qed.

Lemma filed_named session base es rule e : filed session base es rule -> e ∈ es -> hash_named e.
Proof. induction 1; [set_solver|]. rewrite elem_of_app list_elem_of_singleton. naive_solver. Qed.

Lemma filed_lines session base es rule : filed session base es rule -> base_lines base es = Ok rule.
Proof. induction 1 as [|es rule e rule' _ IH _ _ _ Hr _]; [done|]. unfold base_lines in *. rewrite check_lines_app IH /= Hr. done. Qed.

Lemma filed_rule session base es rule : filed session base es rule -> base = "" -> rule = None.
Proof. induction 1 as [|es rule e rule' _ IH _ _ _ Hr _]; intros Hb; [by rewrite Hb|]. rewrite (IH Hb) in Hr. by injection Hr. Qed.

Lemma filed_det session base es rule rule' : filed session base es rule -> filed session base es rule' -> rule = rule'.
Proof. intros H%filed_lines H'%filed_lines. congruence. Qed.

Lemma filed_snoc_inv session base es e rule' : filed session base (es ++ [e]) rule' ->
  exists rule, filed session base es rule /\ hash_named e /\ eid e ∉ ids es /\
    (eparent e = "" \/ eparent e ∈ ids es) /\ baseRule_line rule (eid e) (eparent e) = Ok rule' /\
    checkRefs (eparent e) session (Parents (Base e)) (fun id => bool_decide (id ∈ ids es)) = Ok tt.
Proof.
  intros H. inversion H as [Heq|es0 rule e0 rule0 Hf Hv Hn Hp Hr Hc Heq]; subst; [by destruct es|].
  apply app_inj_tail in Heq as [-> ->]. eauto 10.
Qed.

Lemma filed_app_inv session base es es' rule : filed session base (es ++ es') rule -> exists rule', filed session base es rule'.
Proof.
  revert rule. induction es' as [|e es' IH] using rev_ind; intros rule; [rewrite app_nil_r; eauto|].
  rewrite app_assoc. intros (r & H & _)%filed_snoc_inv. by eapply IH.
Qed.

(** Entries each under the one before. *)
Inductive linear : list Entry -> string -> Prop :=
  | linear_nil : linear [] ""
  | linear_snoc es e p : linear es p -> eparent e = p -> linear (es ++ [e]) (eid e).

Lemma linear_path s es es' p : wf s -> s_entries s = es ++ es' -> linear es p -> path s p = es.
Proof.
  intros Hw Hs Hl. revert es' Hs. induction Hl as [|es e p Hl IH Hp]; intros es' Hs; [done|].
  rewrite path_step //; [|rewrite Hs; set_solver]. rewrite Hp. f_equal. apply (IH (e :: es')). by rewrite Hs -app_assoc.
Qed.

(** The rule before the base is met, and after. *)
Lemma filed_prefix session base es rule : filed session base es rule -> base <> "" ->
  exists r, rule = Some r /\ br_base r = base /\
  if br_met r then exists es1 es2, es = es1 ++ es2 /\ linear es1 base /\ br_prefix r = list_to_set (ids es1)
  else linear es (br_prev r) /\ br_prefix r = list_to_set (ids es) /\ base ∉ ids es.
Proof.
  intros Hf Hne. induction Hf as [|es rule e rule' Hf IH Hv Hn Hp Hr _].
  { unfold newBaseRule. rewrite decide_False //. eexists. split_and!; [done..|]. split_and!; [constructor|done|set_solver]. }
  destruct IH as (r & -> & Hb & Hm). unfold baseRule_line in Hr. destruct (br_met r) eqn:Hmet.
  - inv_ok. exists r. rewrite Hmet. split_and!; [done..|]. destruct Hm as (es1 & es2 & -> & Hl & Hpre).
    exists es1, (es2 ++ [e]). by rewrite app_assoc.
  - destruct Hm as (Hl & Hpre & Hnb). inv_ok.
    assert (eparent e = br_prev r) as Hpar by by bool_prop. eexists. split_and!; [done..|]. cbn [br_met br_prefix br_prev].
    assert ({[eid e]} ∪ br_prefix r = list_to_set (ids (es ++ [e]))) as Hset by (rewrite Hpre ids_app; set_solver).
    destruct (bool_decide (eid e = br_base r)) eqn:He; [apply bool_decide_eq_true in He|apply bool_decide_eq_false in He].
    + exists (es ++ [e]), []. rewrite app_nil_r Hset. split_and!; [done| |done]. rewrite -He. by apply (linear_snoc _ _ (br_prev r)).
    + rewrite Hset. split_and!; [by apply (linear_snoc _ _ (br_prev r))|done|]. rewrite ids_app. set_solver.
Qed.

(** What [Read] and the appends after it agree on. *)
Lemma filed_based s rule : wf s -> filed (h_ID (s_header s)) (h_Base (s_header s)) (s_entries s) rule ->
  h_Base (s_header s) ∈ ids (s_entries s) ->
  s_prefix s = list_to_set (ids (path s (h_Base (s_header s)))) -> based s.
Proof.
  intros Hw Hf Hin Hpre. unfold based. destruct (decide (h_Base (s_header s) = "")) as [|Hne]; [by left|]. right; right.
  destruct (filed_prefix _ _ _ _ Hf Hne) as (r & -> & Hb & Hm). exists r. split; [by eapply filed_lines|].
  destruct (br_met r); [|by destruct Hm as (_ & _ & [])].
  destruct Hm as (es1 & es2 & Hes & Hl & Hp). by rewrite Hp Hpre (linear_path s es1 es2).
Qed.

(** A session as a file holds it: its entries filed, its prefix the path to its base. *)
Record kept (s : Session) : Prop := {
  kp_wf : wf s;
  kp_filed : exists rule, filed (h_ID (s_header s)) (h_Base (s_header s)) (s_entries s) rule;
  kp_base : h_Base (s_header s) <> "" -> has_entry s (h_Base (s_header s)) = true;
  kp_prefix : s_prefix s = list_to_set (ids (path s (h_Base (s_header s))))
}.

Lemma kept_based s : kept s -> based s.
Proof.
  intros [Hw [rule Hf] Hb Hp]. destruct (decide (h_Base (s_header s) = "")) as [|Hne]; [by left|].
  eapply filed_based; [done..| |done]. by apply wf_has_entry, Hb.
Qed.

Lemma kept_sound s : kept s -> sound s.
Proof.
  intros [Hw [rule Hf] Hb Hp]. split; [done|intros e He; by eapply filed_named|].
  intros id. rewrite Hp elem_of_list_to_set. intros (x & -> & Hx)%list_elem_of_fmap. apply (list_elem_of_fmap_2 eid).
  by apply (path_entries s (h_Base (s_header s))).
Qed.

(** References that name entries before the one that makes them. *)
Definition converges (session : string) es : Prop :=
  forall es1 e es2, es = es1 ++ e :: es2 ->
  checkRefs (eparent e) session (Parents (Base e)) (fun id => bool_decide (id ∈ ids es1)) = Ok tt.

Lemma filed_entries session base es rule : tree es -> (forall e, e ∈ es -> hash_named e) ->
  base_lines base es = Ok rule -> converges session es -> filed session base es rule.
Proof.
  intros Ht. revert rule. induction Ht as [|es e Ht IH Hg Hn Hp]; intros rule Hv Hl Hc.
  { injection Hl as <-. constructor. }
  unfold base_lines in Hl. rewrite check_lines_app in Hl. apply rbind_Ok in Hl as (r & Hl & Hr).
  cbn [check_lines] in Hr. apply rbind_Ok in Hr as (r' & Hr & [= <-]).
  eapply filed_snoc; [|by apply Hv; set_solver|done|done|exact Hr|by apply (Hc es e [])].
  apply IH; [intros x Hx; apply Hv; set_solver|done|]. intros es1 x es2 ->. apply (Hc es1 x (es2 ++ [e])). by rewrite -app_assoc.
Qed.
End Filed.

Section WrittenKept.
Context {OR : OpenResponses} {IC : ItemContent} {ND : NameDecoding} {CA : Canonicaliser} {SH : SHA256}
  {JT : JSONTools} {EC : EntryCodec} {ECL : EntryCodecLaws} {TE : TriggerEncoding}.
Implicit Types (s : Session).

Lemma written_prefix s : written s -> h_Base (s_header s) = "" -> s_prefix s = ∅.
Proof.
  apply (written_grows (fun s => h_Base (s_header s) = "" -> s_prefix s = ∅)); [done| |].
  - intros s0 s' _. apply grows_prefix.
  - intros origin s' at_ Ho _ -> _ Hat _ _ ->. apply list_elem_of_fmap in Hat as (x & Hx & Hin).
    apply (tree_goodID _ _ (wf_tree _ (so_wf _ (cl_sound _ (written_clean _ Ho))))) in Hin as [Hg _]. congruence.
Qed.

(** A session this library wrote is kept as a file holds it, once its base is in it. *)
Lemma written_kept s : written s -> (h_Base (s_header s) = "" \/ s_entries s <> []) ->
  converges (h_ID (s_header s)) (s_entries s) -> kept s.
Proof.
  intros Hwr Hne Hc. pose proof (cl_sound _ (written_clean _ Hwr)) as [Hw Hh Hp].
  pose proof (wf_tree _ Hw) as Ht. assert (forall e, e ∈ s_entries s -> hash_named e) as Hv by done.
  destruct (decide (h_Base (s_header s) = "")) as [Hb0|Hb].
  - split; [done| |done|].
    + exists None. apply filed_entries; try done. rewrite Hb0. generalize (s_entries s). clear. intros es.
      induction es as [|e es IH]; [done|exact IH].
    + rewrite Hb0 path_nil. by rewrite written_prefix.
  - destruct (written_based _ Hwr) as [|[He|(r & Hr & Hm & Hbr & Hpre)]]; [done|by destruct Hne|].
    pose proof (filed_entries _ _ _ _ Ht Hv Hr Hc) as Hf. split; [done|by eauto| |].
    all: destruct (filed_prefix _ _ _ _ Hf Hb) as (r' & [= <-] & _ & Hm'); rewrite Hm in Hm';
      destruct Hm' as (es1 & es2 & Hes & Hl & Hp').
    + intros _. apply wf_has_entry; [done|]. inversion Hl as [Heq|es0 e0 p0 _ _ Heq Hid]; [congruence|].
      rewrite Hes -Heq !ids_app. set_solver.
    + by rewrite -Hpre Hp' (linear_path s es1 es2).
Qed.
End WrittenKept.

Section Reading.
Context {OR : OpenResponses} {IC : ItemContent} {ND : NameDecoding} {CA : Canonicaliser} {SH : SHA256}
  {JT : JSONTools} {EC : EntryCodec} {HJ : HeaderJSON} {LC : LineCodec}.
Implicit Types (s : Session) (e : Entry) (h : Header).

(** What the loop has between lines. *)
Record reading_ok (st : reading) : Prop := {
  ro_wf : wf (rd_session st);
  ro_filed : filed (h_ID (s_header (rd_session st))) (h_Base (s_header (rd_session st)))
               (s_entries (rd_session st)) (rd_rule st);
  ro_prefix : s_prefix (rd_session st) = ∅
}.

Lemma ids_add s e : h_ID (s_header (add s e)) = h_ID (s_header s).
Proof. unfold add. cbn [s_header]. by destruct (_ && _ && _). Qed.

Lemma has_entry_ids s id : wf s -> has_entry s id = bool_decide (id ∈ ids (s_entries s)).
Proof. intros Hw. apply eq_true_iff_eq. by rewrite wf_has_entry // bool_decide_eq_true. Qed.

Lemma checkRefs_ext parent session refs has has' : (forall id, has id = has' id) ->
  checkRefs parent session refs has = checkRefs parent session refs has'.
Proof.
  intros H. unfold checkRefs. generalize (@nil EntryRef). induction refs as [|r refs IH]; intros seen; [done|].
  cbn [checkRefs_go]. rewrite H. destruct (refuse_if _ _); [|done]. cbn [rbind]. destruct (refuse_if _ _); [|done]. cbn [rbind].
  destruct (decide _); cbn [rbind]; [apply IH|]. destruct (refuse_if _ _); [|done]. cbn [rbind]. destruct (refuse_if _ _); [|done]. apply IH.
Qed.

Lemma verifyLine_hash c v : verifyLine c = Ok v ->
  exists ms, canonicalMembers c = Some ms /\ memberHashes ms = (lv_id v, lv_content v).
Proof.
  unfold verifyLine. destruct (canonicalMembers c) as [ms|]; [|done]. intros H. inv_ok.
  exists ms. split; [done|]. destruct (memberHashes ms) as [hashed content].
  inv_ok. cbn [lv_id lv_content]. by bool_prop; subst.
Qed.

Lemma verified_sliced e c v : verifyLine c = Ok v -> sliced (set_Base (set_hashes (lv_id v) (lv_content v)) e).
Proof. intros (ms & Hc & Hh)%verifyLine_hash. exists c, ms. unfold eid. by rewrite Base_set_Base. Qed.

Lemma read_header_ok data st : read_header data = Ok st -> reading_ok st.
Proof.
  unfold read_header. intros (h & _ & H)%rbind_Ok. apply rbind_Ok in H as ([] & _ & H).
  apply rbind_Ok in H as ([? minor] & _ & H). apply rbind_Ok in H as (h' & _ & H). injection H as <-.
  split; cbn [rd_session rd_rule]; [|constructor|done]. by destruct (wf_New h').
Qed.

(** A line that links: the same entry again, or one filed after the others. *)
Lemma reading_link s ids e rule st' :
  reading_ok (mkReading s ids rule) -> hash_named e ->
  (if has_entry s (eid e) then Ok (mkReading (add_repeated (eid e) s) ids rule)
   else
     refuse_if (bool_decide (eparent e <> "") && negb (has_entry s (eparent e))) ErrNoEntry ;!
     let! rule := baseRule_line rule (eid e) (eparent e) in
     checkParents s (Base e) ;!
     Ok (mkReading (add s e) ids rule)) = Ok st' -> reading_ok st'.
Proof.
  intros [Hw Hf Hp] Hv. cbn [rd_session rd_rule] in *. destruct (has_entry s (eid e)) eqn:Hh.
  { intros [= <-]. split; cbn [rd_session rd_rule]; [by destruct Hw; split|done..]. }
  intros H. inv_ok. assert (eid e ∉ TreeWf.ids (s_entries s)) as Hn by (rewrite -wf_has_entry // Hh; done).
  assert (eparent e = "" \/ eparent e ∈ TreeWf.ids (s_entries s)) as Hpar.
  { destruct (decide (eparent e = "")) as [|Hne]; [by left|right]. apply wf_has_entry; [done|].
    rewrite bool_decide_eq_true_2 //= in H0. by apply negb_false_iff in H0. }
  split; cbn [rd_session rd_rule].
  - apply wf_add; [done|by apply ValidHash_goodID, named_valid|done..].
  - rewrite ids_add h_Base_add. cbn [s_entries add]. eapply filed_snoc; [done..|].
    rewrite -H2. apply checkRefs_ext. intros id. symmetry. by apply has_entry_ids.
  - done.
Qed.

(** A rewritten entry is one a writer built. *)
Lemma rewritten_built e e1 e2 : hashEntry None e = (e1, Ok tt) -> rewrite_raw e1 = (e2, Ok tt) -> built e2.
Proof.
  intros Hh Hr. apply hashEntry_Ok in Hh as (d & Hd & Hls & He); [|done]. pose proof (rewrite_raw_Ok _ _ Hr) as Hb.
  exists e, d. rewrite /eid !Hb -/(eid e1). split_and!; [done..|]. by rewrite -He.
Qed.

Lemma link_ok st e data c st' : reading_ok st -> link st e data c = Ok st' -> reading_ok st'.
Proof.
  intros Hst. unfold link. destruct (rd_ids st) as [ids|].
  - intros H. apply rbind_Ok in H as ([[e' ids'] s'] & H & Hl).
    apply rbind_Ok in H as ([[e1 old] s1] & H & Hr). injection Hr as <- <- <-.
    unfold migration_rewrite in H. apply rbind_Ok in H as ([] & _ & H). apply rbind_Ok in H as (r & _ & H).
    destruct (rewrite_raw _) as [e2 r2]. apply rbind_Ok in H as ([] & _ & H).
    destruct (hashEntry None e2) as [e3 r3] eqn:Hh. apply rbind_Ok in H as ([] & -> & H).
    destruct (rewrite_raw e3) as [e4 r4] eqn:Hr. apply rbind_Ok in H as ([] & -> & H).
    injection H as <- <- <-. eapply reading_link; [| |exact Hl]; [|left; by eapply rewritten_built].
    destruct Hst as [Hw Hf Hp]. destruct (rm_Opaque r || _); [|by split]. split; [by destruct Hw; split|done..].
  - intros H. apply rbind_Ok in H as ([[e' ids'] s'] & H & Hl).
    apply rbind_Ok in H as (c' & _ & H). apply rbind_Ok in H as (v & Hv & H). injection H as <- <- <-.
    eapply reading_link; [| |exact Hl]; [by destruct Hst; split|]. right. by eapply verified_sliced.
Qed.

Lemma read_lines_ok fuel : forall file line st st' t,
  read_lines fuel file line st = Ok (Some st', t) ->
  (forall st0, st = Some st0 -> reading_ok st0) -> reading_ok st'.
Proof.
  induction fuel as [|fuel IH]; [done|]. intros file line st st' t. cbn [read_lines].
  destruct (ReadBytes file) as [[data rest] atEOF]. set (d := TrimRight data).
  assert (forall st1, (if atEOF then Ok (st1, None) else read_lines fuel rest (S line) st1) = Ok (Some st', t) ->
    (forall st0, st1 = Some st0 -> reading_ok st0) -> reading_ok st') as Hnext.
  { intros st1. destruct atEOF; [|by apply IH]. intros [= -> _] Hst. by apply Hst. }
  destruct (decide (d = "")); [by apply Hnext|]. intros H Hst. apply rbind_Ok in H as ([] & _ & H).
  destruct st as [st|].
  - destruct (decodeLine d) as [[e c]|err].
    + apply rbind_Ok in H as (st1 & Hl & H). eapply Hnext; [exact H|]. intros st0 [= <-]. eapply link_ok; [|exact Hl]. by apply Hst.
    + destruct (negb atEOF && _); [done|]. destruct (json_valid d); [done|]. injection H as <- _. by apply Hst.
  - apply rbind_Ok in H as (st1 & Hl & H). eapply Hnext; [exact H|]. intros st0 [= <-]. by eapply read_header_ok.
Qed.

(** What [Read] returns is kept as a file holds it, with the leaf where the lines
    put it. *)
Lemma Read_kept file s t : Read file = Ok (s, t) -> kept s /\ s_leaf s = resolveLeaf s.
Proof.
  unfold Read. intros ([st t'] & Hr & H)%rbind_Ok. destruct st as [st|]; [|done].
  apply read_lines_ok in Hr as [Hw Hf Hp]; [|done]. apply rbind_Ok in H as (s1 & Hs1 & H). injection H as <- _.
  set (s0 := rd_session st) in *. set (b := h_Base (s_header s0)) in *.
  assert (s1 = set_prefix (list_to_set (ids (path s0 b))) s0 /\ (b <> "" -> has_entry s0 b = true)) as [-> Hb].
  { unfold read_prefix in Hs1. fold b in Hs1. destruct (decide (b = "")) as [->|Hne].
    - injection Hs1 as <-. split; [|done]. rewrite path_nil. change (list_to_set (ids [])) with (∅ : gset string). rewrite -Hp. by destruct s0.
    - apply rbind_Ok in Hs1 as ([] & Hh & Hs1). injection Hs1 as <-. split; [done|]. intros _.
      apply refuse_if_Ok in Hh. by apply negb_false_iff in Hh. }
  set (s1 := set_prefix _ s0). assert (wf s1) as Hw1 by by apply wf_set_prefix.
  assert (forall id, path s1 id = path s0 id) as Hpath by (intros id; by apply path_ext).
  assert (kept s1) as Hk by (split; [done|by eauto|done|by rewrite Hpath]).
  destruct Hk as [_ Hk1 Hk2 Hk3]. split; [|symmetry; exact (resolveLeaf_set s1 _ (s_read s1))].
  split; [by apply wf_set_leaf|done|done|by rewrite path_set_leaf].
Qed.

(** ** Where the entries read come from *)

(** The lines of a file, between its line feeds. *)
Fixpoint file_lines (file : string) : list string :=
  match file with
  | EmptyString => [EmptyString]
  | String c file =>
      if decide (c = LF) then EmptyString :: file_lines file
      else match file_lines file with l :: ls => String c l :: ls | [] => [String c EmptyString] end
  end.

Lemma file_lines_ReadBytes file data rest atEOF : ReadBytes file = (data, rest, atEOF) ->
  exists l, TrimRight data = TrimRight l /\ file_lines file = l :: (if atEOF then [] else file_lines rest).
Proof.
  assert (forall x a b, TrimRight a = TrimRight b -> TrimRight (String x a) = TrimRight (String x b)) as Hx
    by (intros x a b H; cbn [TrimRight]; by rewrite H).
  revert data rest atEOF. induction file as [|x file IH]; intros data rest atEOF; cbn [ReadBytes file_lines].
  { intros [= <- <- <-]. by exists "". }
  destruct (decide (x = LF)) as [->|]; [intros [= <- <- <-]; by exists ""|].
  destruct (ReadBytes file) as [[d r] b]. intros [= <- <- <-]. destruct (IH d r b eq_refl) as (l & Ht & ->).
  exists (String x l). split; [by apply Hx|done].
Qed.

(** An entry decoded from a line of the file, under the id the line gives it. *)
Definition decoded_from (declared : string) (file : list string) e : Prop :=
  exists l e0 oc c v, l ∈ file /\ decodeLine (TrimRight l) = Ok (e0, oc) /\
    match oc with Some c' => c' = c | None => Transform (TrimRight l) = Some c end /\ verifyLine c = Ok v /\
    e = set_Base (set_hashes (lv_id v) (lv_content v)) (gateRedacted e0 declared).

(** One of a file of a format before 0.5 was rewritten and hashed anew. *)
Definition traced (file : list string) (st : reading) : Prop :=
  let s := rd_session st in
  (is_Some (rd_ids st) <-> s_migrated s = true) /\
  forall e, e ∈ s_entries s -> if s_migrated s then built e else decoded_from (s_declared s) file e.

Lemma traced_add file s ids e rule st' :
  (is_Some ids <-> s_migrated s = true) ->
  (forall e, e ∈ s_entries s -> if s_migrated s then built e else decoded_from (s_declared s) file e) ->
  (if s_migrated s then built e else decoded_from (s_declared s) file e) ->
  (if has_entry s (eid e) then Ok (mkReading (add_repeated (eid e) s) ids rule)
   else
     refuse_if (bool_decide (eparent e <> "") && negb (has_entry s (eparent e))) ErrNoEntry ;!
     let! rule := baseRule_line rule (eid e) (eparent e) in
     checkParents s (Base e) ;!
     Ok (mkReading (add s e) ids rule)) = Ok st' -> traced file st'.
Proof.
  intros Hm Hall He. unfold traced.
  destruct (has_entry _ _); [by intros [= <-]|]. intros H. inv_ok. split; [done|].
  intros x. rewrite elem_of_app list_elem_of_singleton. intros [Hx| ->]; [by apply Hall|done].
Qed.

Lemma link_traced file st e0 l c st' : traced file st -> l ∈ file -> decodeLine (TrimRight l) = Ok (e0, c) ->
  link st e0 (TrimRight l) c = Ok st' -> traced file st'.
Proof.
  intros Htr Hl Hd. pose proof Htr as [Hm Hall]. unfold link. destruct (rd_ids st) as [ids|] eqn:Hids.
  - assert (s_migrated (rd_session st) = true) as Hmig by (apply Hm; by eexists).
    intros H. apply rbind_Ok in H as ([[e' ids'] s'] & H & Hl').
    apply rbind_Ok in H as ([[e1 old] s1] & H & Hr). injection Hr as <- <- <-.
    unfold migration_rewrite in H. apply rbind_Ok in H as ([] & _ & H). apply rbind_Ok in H as (r & _ & H).
    destruct (rewrite_raw _) as [e2 r2]. apply rbind_Ok in H as ([] & _ & H).
    destruct (hashEntry None e2) as [e3 r3] eqn:Hh. apply rbind_Ok in H as ([] & -> & H).
    destruct (rewrite_raw e3) as [e4 r4] eqn:Hr. apply rbind_Ok in H as ([] & -> & H). injection H as <- <- <-.
    eapply traced_add; [| | |exact Hl'].
    + split; [intros _; by destruct (rm_Opaque r || _)|by eexists].
    + intros x. destruct (rm_Opaque r || _); apply Hall.
    + assert (s_migrated (if rm_Opaque r || existsb (fun at_ => bool_decide (at_ <> "/parent")) (rm_Unmapped r)
        then add_unresolved (eid (gateRedacted e0 (s_declared (rd_session st)))) (rd_session st) else rd_session st) = true) as ->
        by (by destruct (_ || _)). by eapply rewritten_built.
  - assert (s_migrated (rd_session st) = false) as Hmig.
    { destruct (s_migrated _); [|done]. destruct (proj2 Hm eq_refl) as [? [=]]. }
    intros H. apply rbind_Ok in H as ([[e' ids'] s'] & H & Hl').
    apply rbind_Ok in H as (c' & Hc & H). apply rbind_Ok in H as (v & Hv & H). injection H as <- <- <-.
    eapply traced_add; [|done| |exact Hl']; rewrite Hmig; [by split; [intros [? [=]]|]|].
    exists l, e0, c, c', v. split_and!; try done. destruct c as [c|]; [by injection Hc|]. destruct (Transform _); [by injection Hc as ->|done].
Qed.

Lemma read_lines_traced all fuel : forall file line st st' t,
  read_lines fuel file line st = Ok (Some st', t) -> (forall l, l ∈ file_lines file -> l ∈ all) ->
  (forall st0, st = Some st0 -> traced all st0) -> traced all st'.
Proof.
  induction fuel as [|fuel IH]; [done|]. intros file line st st' t. cbn [read_lines].
  destruct (ReadBytes file) as [[data rest] atEOF] eqn:Hrb. destruct (file_lines_ReadBytes _ _ _ _ Hrb) as (l & -> & Hfl).
  set (d := TrimRight l). intros H Hall Hst. rewrite Hfl in Hall.
  assert (forall st1, (if atEOF then Ok (st1, None) else read_lines fuel rest (S line) st1) = Ok (Some st', t) ->
    (forall st0, st1 = Some st0 -> traced all st0) -> traced all st') as Hnext.
  { intros st1. destruct atEOF; [intros [= -> _] Hst1; by apply Hst1|]. intros Hr. eapply IH; [exact Hr|]. intros x Hx. apply Hall. set_solver. }
  destruct (decide (d = "")); [by eapply Hnext|]. apply rbind_Ok in H as ([] & _ & H). destruct st as [st|].
  - destruct (decodeLine d) as [[e c]|err] eqn:Hd.
    + apply rbind_Ok in H as (st1 & Hl & H). eapply Hnext; [exact H|]. intros st0 [= <-].
      eapply link_traced; [by apply Hst| |exact Hd|exact Hl]. apply Hall. set_solver.
    + destruct (negb atEOF && _); [done|]. destruct (json_valid d); [done|]. injection H as <- _. by apply Hst.
  - apply rbind_Ok in H as (st1 & Hl & H). eapply Hnext; [exact H|]. intros st0 [= <-].
    unfold read_header in Hl. apply rbind_Ok in Hl as (h & _ & Hl). apply rbind_Ok in Hl as ([] & _ & Hl).
    apply rbind_Ok in Hl as ([? minor] & _ & Hl). apply rbind_Ok in Hl as (h' & _ & Hl). injection Hl as <-.
    split; [cbn|set_solver]. destruct (bool_decide _); split; try done; by eexists || by intros [? [=]].
Qed.

Lemma Read_traced file s t e : Read file = Ok (s, t) -> e ∈ s_entries s ->
  if s_migrated s then built e else decoded_from (s_declared s) (file_lines file) e.
Proof.
  unfold Read. intros ([st t'] & Hr & H)%rbind_Ok. destruct st as [st|]; [|done].
  apply (read_lines_traced (file_lines file)) in Hr as [_ Hall]; [|done..]. apply rbind_Ok in H as (s1 & Hs1 & H). injection H as <- _.
  assert (s1 = rd_session st \/ exists p, s1 = set_prefix p (rd_session st)) as [->|[p ->]].
  { unfold read_prefix in Hs1. destruct (decide _); [injection Hs1 as <-; by left|]. inv_ok. right. by eexists. }
  all: apply Hall.
Qed.
End Reading.

Section Verifies.
Context {OR : OpenResponses} {IC : ItemContent} {ND : NameDecoding} {SH : SHA256} {EC : EntryCodec} {HJ : HeaderJSON}.
#[local] Existing Instance json_tools.
#[local] Existing Instance jcs_canonicaliser.
Context {LC : LineCodec} {LCL : LineCodecLaws}.
Implicit Types (s : Session) (e : Entry).

(** An entry read of a line of the file, whose canonical form gives it the id
    that is the hash the format says that form has. *)
Definition read_from (declared : string) (file : list string) e : Prop :=
  exists l e0 c v, l ∈ file /\ UnmarshalEntry (TrimRight l) = Ok e0 /\ Transform (TrimRight l) = Some c /\
    verifyLine c = Ok v /\ lv_id v = eid e /\ line_hashes c (eid e) (content (Base e)) /\
    e = set_Base (set_hashes (eid e) (content (Base e))) (gateRedacted e0 declared).

Lemma decoded_read declared file e : decoded_from declared file e -> read_from declared file e.
Proof.
  intros (l & e0 & oc & c & v & Hl & Hd & Hoc & Hv & ->).
  assert (Transform (TrimRight l) = Some c) as Ht by (destruct oc as [c'|]; [subst; by eapply decode_canonical|done]).
  destruct (verifyLine_hash _ _ Hv) as (ms & Hms & Hh). destruct (canonical_line_facts _ _ Ht) as (_ & _ & Hc).
  exists l, e0, c, v. unfold eid, UnmarshalEntry. rewrite Hd !Base_set_Base. cbn [ID content set_hashes]. split_and!; try done.
  by eapply canonical_line_says.
Qed.

(** C8: Whatever the bytes were, the session [Read] returns is a tree of entries in
    file order with every index agreeing, and each entry is named by the hash of
    its line: it is decoded from a line of the file that gives the id it has, and
    that id is what the format says of the type, parent, parents, timestamp and
    content hash of the line's canonical form; in a file of a format before 0.5,
    of the line the encoder gives for the entry as it was rewritten.  Its prefix
    is the path to the base its header names, which the file holds; its entries
    keep the rules of parents, of convergence references and of the base, and an
    append to it is held to the base rule as a next line of the file would be; and
    its leaf is where the format puts it. *)
Theorem Read_verifies file s t :
  Read file = Ok (s, t) ->
  wf s /\ s_leaf s = resolveLeaf s /\
  (forall e, e ∈ s_entries s -> if s_migrated s then built e else read_from (s_declared s) (file_lines file) e) /\
  s_prefix s = list_to_set (ids (path s (h_Base (s_header s)))) /\
  (h_Base (s_header s) <> "" -> has_entry s (h_Base (s_header s)) = true) /\
  exists rule, filed (h_ID (s_header s)) (h_Base (s_header s)) (s_entries s) rule /\
  (s_entries s <> [] -> forall id p, p = "" \/ p ∈ ids (s_entries s) ->
     is_ok (baseRule_line rule id p) = is_ok (checkParentRule s p)).
Proof.
  intros H. pose proof (fun e => Read_traced _ _ _ e H) as Htr.
  apply Read_kept in H as [Hk Hl]. destruct (based_agrees s (kp_wf _ Hk) (kept_based _ Hk)) as (rule & Hr & Hag).
  destruct (kp_filed _ Hk) as [rule' Hf]. split_and!; [apply Hk|done| |apply Hk|apply Hk|].
  - intros e He. specialize (Htr e He). destruct (s_migrated s); [done|by apply decoded_read].
  - exists rule'. split; [done|]. apply filed_lines in Hf. rewrite Hr in Hf. by injection Hf as <-.
Qed.
End Verifies.
