(* ===== verification/CodecRoundtrip.v ===== *)
(** * A session written, read back ([codec.go])

    With the canonicaliser and the I-JSON test as they are ([Jcs.v], [Ijson.v]):
    what [Write] writes of a session [Read] reads back as that session
    ([Read_Write]), and torn anywhere in a line being appended as the session
    without it ([Read_torn]). *)
From S2P Require Import Prelude Entry Header Tree Leaf TreeWf LeafLemmas LeafRefine Calls CallRules Runs Verify Omit Digest Settings Context Hash Session.
From S2P Require Import SessionProps Written WrittenSound Forks Json Ijson Jcs Marshal Codec CodecLines CodecProps.
Open Scope session_scope.

Section Roundtrip.
Context {OR : OpenResponses} {IC : ItemContent} {ND : NameDecoding} {SH : SHA256} {EC : EntryCodec} {HJ : HeaderJSON}.
#[local] Existing Instance json_tools.
#[local] Existing Instance jcs_canonicaliser.
Context {LC : LineCodec} {LCL : LineCodecLaws}.
Implicit Types (s : Session) (e : Entry) (h : Header).

(** ** What the encoders are asked for *)

(** What a label says of the leaf. *)
Definition mark_of e : option (option string * string) :=
  match e with ELabel l => Some (le_Label l, le_Target l) | _ => None end.

(** Two entries of one place in the tree: one id, one parent, the same references
    and, of labels, the same mark.  The rest of the entry may differ, as it does
    between an entry appended and the same entry read: decoding keeps the [ts]
    member as the line spells it, which an entry never written has not. *)
Record agrees e e' : Prop := {
  ag_id : eid e' = eid e;
  ag_parent : eparent e' = eparent e;
  ag_parents : Parents (Base e') = Parents (Base e);
  ag_mark : mark_of e' = mark_of e
}.

(** An entry's line, and the entry that decoding and verifying it give. *)
Definition entry_reads (format : string) e (c : string) e' : Prop :=
  exists line e0 oc v,
    MarshalEntry e = Ok line /\ Transform line = Some c /\ decodeLine c = Ok (e0, oc) /\
    (forall c', oc = Some c' -> c' = c) /\ verifyLine c = Ok v /\
    e' = set_Base (set_hashes (lv_id v) (lv_content v)) (gateRedacted e0 format).

(** The lines of a session's entries, and the entries they read as, each in the
    place of its own. *)
Definition entries_read (format : string) (es : list Entry) (cs : list string) (es' : list Entry) : Prop :=
  Forall3 (entry_reads format) es cs es' /\ Forall2 agrees es es'.

(** A header [Read] takes as it is written: one of a format that defines
    [redacted_from], under which no member of an entry is held back. *)
Definition header_line h (c : string) : Prop :=
  exists line,
    MarshalHeader h = Ok line /\ Transform line = Some c /\ UnmarshalHeader c = Ok h /\
    Validate h = Ok tt /\ migrate h = Ok h /\ definesRedactedFrom (h_Format h) = true.

(** ** Lines, written and read *)

Definition file_of (cs : list string) : string := foldr (fun c file => (c ++ String LF file)%string) "" cs.

Lemma file_of_app cs file : foldr (fun c file => (c ++ String LF file)%string) file cs = (file_of cs ++ file)%string.
Proof.
  unfold file_of. induction cs as [|c cs IH]; [done|]. cbn [foldr]. rewrite IH HashProps.str_app_assoc. by rewrite str_app_String.
Qed.

Lemma file_of_length cs : length cs <= String.length (file_of cs).
Proof. induction cs as [|c cs IH]; [done|]. cbn. rewrite Digest.str_length_app. cbn. unfold file_of in IH. lia. Qed.

Lemma write_line_Ok line data c : line = Ok data -> Transform data = Some c -> write_line line = Ok (c ++ String LF "")%string.
Proof. intros -> Hc. unfold write_line. cbn [rbind]. by rewrite Hc. Qed.

Lemma write_lines_Ok format es cs es' : Forall3 (entry_reads format) es cs es' ->
  write_lines (MarshalEntry <$> es) = Ok (file_of cs).
Proof.
  induction 1 as [|e c e' es cs es' (line & e0 & oc & v & Hm & Ht & _) _ IH]; [done|].
  cbn [write_lines fmap list_fmap]. rewrite (write_line_Ok _ _ _ Hm Ht) IH. cbn [rbind]. f_equal.
  unfold file_of. cbn [foldr]. by rewrite HashProps.str_app_assoc.
Qed.

(** A turn of the loop on a line that is written. *)
Lemma read_lines_line fuel l c rest line st :
  Transform l = Some c ->
  read_lines (S fuel) (c ++ String LF rest)%string line st =
  match st with
  | None => let! st := read_header c in read_lines fuel rest (S line) (Some st)
  | Some st =>
      match decodeLine c with
      | Ok (e, oc) => let! st := link st e c oc in read_lines fuel rest (S line) (Some st)
      | Err err => if negb false && bool_decide (rest <> "") then Err err else if json_valid c then Err err
                   else Ok (Some st, Some (mkTruncated (S line) c err))
      end
  end.
Proof.
  intros Ht. destruct (canonical_line_facts _ _ Ht) as ((Hne & Hlf & Hcr) & Hck & _).
  cbn [read_lines]. rewrite ReadBytes_line // TrimRight_line // decide_False // Hck. cbn [rbind].
  destruct st as [st|]; [|done]. by destruct (decodeLine c) as [[e oc]|].
Qed.

(** The next entry of a file links, and is added. *)
Lemma link_written s rule e c e' rule' :
  wf s -> entry_reads (s_declared s) e c e' -> filed (h_ID (s_header s)) (h_Base (s_header s)) (s_entries s) rule ->
  filed (h_ID (s_header s)) (h_Base (s_header s)) (s_entries s ++ [e']) rule' ->
  exists e0 oc, decodeLine c = Ok (e0, oc) /\
    link (mkReading s None rule) e0 c oc = Ok (mkReading (add s e') None rule').
Proof.
  intros Hw (line & e0 & oc & v & _ & Ht & Hd & Hoc & Hv & He) Hf Hf'. exists e0, oc. split; [done|].
  destruct (canonical_line_facts _ _ Ht) as (_ & _ & Htc).
  unfold link. cbn [rd_session rd_ids rd_rule].
  assert (match oc with Some c => Ok c | None => match Transform c with Some c => Ok c | None => Err ErrOther end end = Ok c) as ->.
  { destruct oc as [c'|]; [by rewrite (Hoc c')|by rewrite Htc]. }
  cbn [rbind]. rewrite Hv. cbn [rbind]. rewrite -He.
  apply filed_snoc_inv in Hf' as (rule0 & Hf0 & _ & Hn & Hp & Hr & Hc). rewrite (filed_det _ _ _ _ _ Hf0 Hf) in Hr.
  assert (has_entry s (eid e') = false) as ->.
  { apply not_true_is_false. by rewrite wf_has_entry. }
  assert (bool_decide (eparent e' <> "") && negb (has_entry s (eparent e')) = false) as ->.
  { destruct Hp as [->|Hp]; [done|]. apply wf_has_entry in Hp; [|done]. by rewrite Hp andb_false_r. }
  cbn [refuse_if rbind]. rewrite Hr. cbn [rbind]. unfold checkParents. change (Parent (Base e')) with (eparent e').
  rewrite (checkRefs_ext _ _ _ _ (fun id => bool_decide (id ∈ ids (s_entries s)))); [|intros id; by apply has_entry_ids].
  by rewrite Hc.
Qed.

(** The lines of entries filed one after the other. *)
Lemma read_entries format es cs es' : Forall3 (entry_reads format) es cs es' -> forall s rule rule' fuel tail line,
  wf s -> s_declared s = format ->
  filed (h_ID (s_header s)) (h_Base (s_header s)) (s_entries s) rule ->
  filed (h_ID (s_header s)) (h_Base (s_header s)) (s_entries s ++ es') rule' ->
  read_lines (length cs + fuel) (file_of cs ++ tail)%string line (Some (mkReading s None rule)) =
  read_lines fuel tail (length cs + line) (Some (mkReading (foldl add s es') None rule')) /\ wf (foldl add s es').
Proof.
  induction 1 as [|e c e' es cs es' He _ IH]; intros s rule rule' fuel tail line Hw Hd0 Hf Hf'.
  { rewrite app_nil_r in Hf'. by rewrite (filed_det _ _ _ _ _ Hf' Hf). }
  subst format.
  assert (s_entries s ++ e' :: es' = (s_entries s ++ [e']) ++ es') as Happ by by rewrite -app_assoc.
  rewrite Happ in Hf'. destruct (filed_app_inv _ _ _ _ _ Hf') as [rule1 Hf1].
  destruct (link_written s rule e c e' rule1 Hw He Hf Hf1) as (e0 & oc & Hd & Hl).
  destruct He as (l & _ & _ & _ & _ & Ht & _). cbn [length file_of foldr foldl Nat.add].
  change (foldr _ "" cs) with (file_of cs).
  assert (((c ++ String LF (file_of cs)) ++ tail)%string = (c ++ String LF (file_of cs ++ tail))%string) as ->.
  { by rewrite HashProps.str_app_assoc. }
  rewrite (read_lines_line _ _ _ _ _ _ Ht) Hd Hl. cbn [rbind].
  apply filed_snoc_inv in Hf1 as Hi. destruct Hi as (_ & _ & Hv & Hn & Hp & _ & _).
  destruct (IH (add s e') rule1 rule' fuel tail (S line)) as [Hr Hw'].
  - apply wf_add; [done|by apply ValidHash_goodID, named_valid|done..].
  - done.
  - by rewrite ids_add h_Base_add.
  - by rewrite ids_add h_Base_add.
  - split; [|done]. rewrite Hr. f_equal. lia.
Qed.

(** ** The session the lines are of *)

(** The entries they read as, beside those written: the same tree. *)
Lemma agrees_ids es es' : Forall2 agrees es es' -> ids es' = ids es.
Proof. induction 1 as [|e e' es es' He _ IH]; [done|]. cbn [ids fmap list_fmap]. rewrite (ag_id _ _ He). f_equal. exact IH. Qed.

Lemma agrees_children es es' : Forall2 agrees es es' -> child_index es' = child_index es.
Proof.
  unfold child_index. generalize (∅ : gmap string (list string)). intros m H. revert m.
  induction H as [|e e' es es' He _ IH]; intros m; [done|]. cbn [foldl]. by rewrite IH /add_child (ag_id _ _ He) (ag_parent _ _ He).
Qed.

Lemma agrees_index es es' id : Forall2 agrees es es' -> option_Forall2 agrees (index es !! id) (index es' !! id).
Proof.
  unfold index. assert (forall m m' : gmap string Entry, option_Forall2 agrees (m !! id) (m' !! id) -> Forall2 agrees es es' ->
    option_Forall2 agrees (foldl (fun m e => <[eid e := e]> m) m es !! id) (foldl (fun m e => <[eid e := e]> m) m' es' !! id)) as H.
  { intros m m' Hm H. revert m m' Hm. induction H as [|e e' es es' He _ IH]; intros m m' Hm; [done|]. cbn [foldl]. apply IH.
    rewrite (ag_id _ _ He). destruct (decide (eid e = id)) as [<-|Hne]; [rewrite !lookup_insert_eq; by constructor|by rewrite !lookup_insert_ne]. }
  apply H. rewrite !lookup_empty. constructor.
Qed.

Lemma agrees_filed session base es es' rule : Forall2 agrees es es' -> (forall e, e ∈ es' -> hash_named e) ->
  filed session base es rule -> filed session base es' rule.
Proof.
  intros Hag Hn Hf. revert es' Hag Hn. induction Hf as [|es rule e rule' Hf IH _ Hni Hp Hr Hc]; intros es' Hag Hn.
  { apply Forall2_nil_inv_l in Hag as ->. constructor. }
  apply Forall2_app_inv_l in Hag as (es1 & es2 & Hag & Hag2 & ->). apply Forall2_cons_inv_l in Hag2 as (e' & es3 & He & ->%Forall2_nil_inv_l & ->).
  econstructor; [apply IH; [done|]|..]; [intros x Hx; apply Hn; set_solver|apply Hn; set_solver|..];
    rewrite ?(agrees_ids _ _ Hag) ?(ag_id _ _ He) ?(ag_parent _ _ He) ?(ag_parents _ _ He); done.
Qed.

(** Sessions of one header and prefix whose entries agree. *)
Record alike s s' : Prop := {
  al_header : s_header s' = s_header s;
  al_entries : Forall2 agrees (s_entries s) (s_entries s');
  al_byID id : option_Forall2 agrees (s_byID s !! id) (s_byID s' !! id);
  al_prefix : s_prefix s' = s_prefix s
}.

Lemma alike_path s s' id : Forall2 agrees (s_entries s) (s_entries s') ->
  (forall id, option_Forall2 agrees (s_byID s !! id) (s_byID s' !! id)) -> ids (path s' id) = ids (path s id).
Proof.
  intros He Hb. unfold path. rewrite -(Forall2_length _ _ _ He).
  assert (forall fuel, option_Forall2 (Forall2 agrees) (walk s fuel id) (walk s' fuel id)) as H.
  { intros fuel. revert id. induction fuel as [|fuel IH]; intros id; cbn [walk]; [destruct (decide _); repeat constructor|].
    destruct (decide _); [repeat constructor|]. destruct (Hb id) as [e e' Hee|]; [|constructor]. rewrite (ag_parent _ _ Hee).
    destruct (IH (eparent e)); constructor. by constructor. }
  destruct (H (S (length (s_entries s)))) as [l l' Hl|]; [|done]. apply agrees_ids. by apply Forall2_reverse.
Qed.

Lemma agrees_label e e' : agrees e e' -> entry_is_leaf_label e' = entry_is_leaf_label e.
Proof. intros [_ _ _ Hm]. destruct e, e'; try done. cbn in *. unfold is_leaf_label. by injection Hm as -> _. Qed.

Lemma alike_mayRestOn s s' id : alike s s' -> mayRestOn s' id = mayRestOn s id.
Proof.
  intros [Hh _ Hb Hp]. unfold mayRestOn, hasBase. rewrite Hh Hp. destruct (Hb id) as [e e' Hee|]; [|done]. by rewrite (agrees_label _ _ Hee).
Qed.

Lemma alike_notOnLabel s s' id : alike s s' -> notOnLabel s' id = notOnLabel s id.
Proof.
  intros [Hh He Hb Hp]. unfold notOnLabel, hasBase. rewrite Hh Hp -(Forall2_length _ _ _ He).
  assert (forall fuel id, off_label s' fuel id = off_label s fuel id) as ->; [|done].
  induction fuel as [|fuel IH]; intros x; [done|]. cbn [off_label].
  destruct (decide _); [done|]. destruct (Hb x) as [e e' Hee|]; [|done]. rewrite (agrees_label _ _ Hee) (ag_parent _ _ Hee). by rewrite IH.
Qed.

(** A pass that cannot tell agreeing lines apart. *)
Lemma agrees_pass {B} (f g : B -> nat -> Entry -> B) es es' : Forall2 agrees es es' ->
  (forall b i e e', agrees e e' -> f b i e' = g b i e) -> forall i b, foldl_idx f i b es' = foldl_idx g i b es.
Proof. intros H Hfg. induction H as [|e e' es es' He _ IH]; intros i b; [done|]. cbn [foldl_idx]. by rewrite (Hfg _ _ _ _ He) IH. Qed.

Lemma alike_leaf s s' : alike s s' -> resolveLeaf s' = resolveLeaf s.
Proof.
  intros H. pose proof (al_entries _ _ H) as He. unfold resolveLeaf.
  assert (durableLeafAt s' = durableLeafAt s) as ->.
  { apply agrees_pass; [done|]. intros b i e e' [_ _ _ Hm]. destruct e, e'; try done. cbn in Hm |- *. injection Hm as Hl Ht.
    unfold is_leaf_label. by rewrite Hl Ht (alike_mayRestOn _ _ _ H). }
  assert (forall t a, under_pass s' t a = under_pass s t a) as Hu.
  { intros t a. apply agrees_pass; [done|]. intros b i e e' Hee. unfold under_step. by rewrite (ag_id _ _ Hee) (ag_parent _ _ Hee). }
  destruct (durableLeafAt s) as [m a]. rewrite Hu !(alike_notOnLabel _ _ _ H).
  destruct (s_entries s) as [|e es _] using rev_ind; [by apply Forall2_nil_inv_l in He as ->|].
  apply Forall2_app_inv_l in He as (es1 & es2 & He & He2 & ->). apply Forall2_cons_inv_l in He2 as (e' & es3 & Hee & ->%Forall2_nil_inv_l & ->).
  by rewrite !last_snoc (ag_id _ _ Hee) (alike_notOnLabel _ _ _ H).
Qed.

(** A line that verifies names its entry by its hash. *)
Lemma entry_reads_named format e c e' : entry_reads format e c e' -> hash_named e'.
Proof.
  intros (line & e0 & oc & v & _ & _ & _ & _ & Hv & ->). right.
  unfold verifyLine in Hv. destruct (canonicalMembers c) as [ms|] eqn:Hms; [|done]. exists c, ms. split; [done|].
  do 10 (apply rbind_Ok in Hv as (? & _ & Hv)). destruct (memberHashes ms) as [h k]. apply rbind_Ok in Hv as ([] & Hid & Hv).
  injection Hv as <-. apply refuse_if_Ok in Hid. apply bool_decide_eq_false, dec_stable in Hid. subst. unfold eid. by rewrite Base_set_Base.
Qed.

(** The session of a file whose lines were [s]'s and read as the entries [es]:
    the header, those entries with every index over them, and the tree of [s]. *)
Record same_lines s (es : list Entry) s' : Prop := {
  sl_header : s_header s' = s_header s;
  sl_entries : s_entries s' = es;
  sl_byID : s_byID s' = index es;
  sl_children : s_children s' = s_children s;
  sl_prefix : s_prefix s' = s_prefix s;
  sl_indexes : s_callIDs s' = set_index call_of es /\ s_spawnIDs s' = set_index spawn_of es /\
    s_copied s' = set_index copied_call_of es /\ s_results s' = set_index result_of es
}.

Lemma same_indexes s es s' : wf s -> same_lines s es s' -> es = s_entries s ->
  s_byID s' = s_byID s /\ s_callIDs s' = s_callIDs s /\ s_spawnIDs s' = s_spawnIDs s /\
  s_copied s' = s_copied s /\ s_results s' = s_results s.
Proof. intros [] [_ _ Hb _ _ (? & ? & ? & ?)] ->. split_and!; congruence. Qed.

Lemma foldl_add_fields es : forall s, definesRedactedFrom (s_declared s) = true ->
  let s' := foldl add s es in
  s_header s' = s_header s /\ s_entries s' = s_entries s ++ es /\ s_prefix s' = s_prefix s /\ s_declared s' = s_declared s.
Proof.
  induction es as [|e es IH]; intros s Hd; cbn [foldl]; [by rewrite app_nil_r|].
  assert (s_header (add s e) = s_header s) as Hh by (unfold add; cbn [s_header]; by rewrite Hd andb_false_r).
  destruct (IH (add s e)) as (H1 & H2 & H3 & H4); [done|]. rewrite H1 H2 H3 H4 Hh. split_and!; try done.
  cbn [s_entries add]. by rewrite -app_assoc.
Qed.

Lemma filed_add session h es rule : definesRedactedFrom (h_Format h) = true -> filed session (h_Base h) es rule -> wf (foldl add (New h) es).
Proof.
  intros Hd. induction 1 as [|es rule e rule' Hf IH Hn Hni Hp _ _]; [apply wf_New|].
  rewrite foldl_app. destruct (foldl_add_fields es (New h) Hd) as (_ & He & _). cbn [s_entries New app] in He. cbn [foldl].
  apply wf_add; rewrite ?He; [done|by apply ValidHash_goodID, named_valid|done..].
Qed.

Lemma read_header_line h c : header_line h c -> read_header c = Ok (mkReading (New h) None (newBaseRule (h_Base h))).
Proof.
  intros (line & _ & _ & Hu & Hv & Hm & Hd). unfold read_header. rewrite Hu. cbn [rbind]. rewrite Hv. cbn [rbind].
  unfold definesRedactedFrom in Hd. unfold Validate in Hv. destruct (ParseFormat (h_Format h)) as [[major minor]|]; [|done].
  cbn [rbind] in *. inv_ok. assert (bool_decide (minor < hashedMinor)%Z = false) as ->.
  { apply bool_decide_eq_false. unfold hashedMinor, FormatMajor, redactedFromMinor in *. bool_prop; subst; bool_prop; lia. }
  by rewrite Hm.
Qed.

(** Its lines, and [tail] after them. *)
Lemma read_kept s ch cs es tail :
  kept s -> header_line (s_header s) ch -> entries_read (h_Format (s_header s)) (s_entries s) cs es ->
  exists st fuel,
    read_lines (S (String.length (file_of (ch :: cs) ++ tail))) (file_of (ch :: cs) ++ tail)%string 0 None =
      read_lines (S fuel) tail (length cs + 1) (Some st) /\
    forall t, read_lines (S fuel) tail (length cs + 1) (Some st) = Ok (Some st, t) ->
    exists s', Read (file_of (ch :: cs) ++ tail)%string = Ok (s', t) /\ same_lines s es s' /\ s_leaf s' = resolveLeaf s.
Proof.
  intros [Hw [rule Hf] Hb Hp] Hh [Hes Hag].
  pose proof (file_of_length (ch :: cs)) as Hlen. cbn [length] in Hlen.
  pose proof (read_header_line _ _ Hh) as Hread. destruct Hh as (hl & _ & Ht & _ & _ & _ & Hd).
  set (s0 := foldl add (New (s_header s)) es).
  destruct (foldl_add_fields es (New (s_header s)) Hd) as (H1 & H2 & H3 & _). cbn [s_entries New app] in H2. fold s0 in H1, H2, H3.
  change (s_header (New (s_header s))) with (s_header s) in H1.
  set (n := String.length (file_of (ch :: cs) ++ tail)%string).
  assert (exists fuel, n = length cs + S fuel) as [fuel Hn].
  { exists (n - length cs - 1). unfold n. rewrite Digest.str_length_app. lia. }
  assert (filed (h_ID (s_header s)) (h_Base (s_header s)) es rule) as Hf'.
  { eapply agrees_filed; [done| |done]. clear -Hes. induction Hes as [|e0 c0 e0' es0 cs0 es0' He _ IH]; [set_solver|].
    intros x' [->|Hx]%elem_of_cons; [by eapply entry_reads_named|by apply IH]. }
  destruct (read_entries _ _ _ _ Hes (New (s_header s)) (newBaseRule (h_Base (s_header s))) rule (S fuel) tail 1)
    as [Hlines Hw0]; [apply wf_New|done|constructor|done|]. fold s0 in Hlines, Hw0.
  assert (read_lines (S n) (file_of (ch :: cs) ++ tail) 0 None =
    read_lines (S fuel) tail (length cs + 1) (Some (mkReading s0 None rule))) as Hall.
  { rewrite Hn -Hlines. cbn [file_of foldr]. rewrite HashProps.str_app_assoc str_app_String.
    rewrite (read_lines_line _ _ _ _ _ _ Ht) Hread. done. }
  exists (mkReading s0 None rule), fuel. split; [done|]. intros t Htail. unfold Read. fold n. rewrite Hall Htail. cbn [rbind rd_session].
  assert (Forall2 agrees (s_entries s) (s_entries s0)) as Hag0 by by rewrite H2.
  assert (forall id, option_Forall2 agrees (s_byID s !! id) (s_byID s0 !! id)) as Hby.
  { intros id. rewrite (wf_byID _ Hw) (wf_byID _ Hw0) H2. by apply agrees_index. }
  assert (exists s1, read_prefix s0 = Ok s1 /\ s1 = set_prefix (s_prefix s) s0) as (s1 & -> & ->).
  { unfold read_prefix. rewrite H1. destruct (decide _) as [Hb0|Hne].
    - exists s0. split; [done|]. assert (s_prefix s = s_prefix s0) as -> by by rewrite Hp Hb0 H3. clear. by destruct s0.
    - assert (has_entry s0 (h_Base (s_header s)) = true) as ->.
      { specialize (Hb Hne). unfold has_entry in *. by destruct (Hby (h_Base (s_header s))). }
      eexists. split; [done|]. f_equal. change (list_to_set (ids (path s0 (h_Base (s_header s)))) = s_prefix s). by rewrite Hp (alike_path s s0). }
  eexists. split; [done|]. split.
  - split; cbn [s_header s_entries s_byID s_children s_prefix s_callIDs s_spawnIDs s_copied s_results set_leaf set_prefix]; try done.
    + by rewrite (wf_byID _ Hw0) H2.
    + rewrite (wf_children _ Hw0) H2 (wf_children _ Hw). by apply agrees_children.
    + by rewrite (wf_callIDs _ Hw0) (wf_spawnIDs _ Hw0) (wf_copied _ Hw0) (wf_results _ Hw0) H2.
  - cbn [s_leaf set_leaf]. by apply alike_leaf.
Qed.

(** ** Reading back *)

Lemma Write_kept s ch cs es :
  s_migrated s && bool_decide (s_unresolved s <> []) = false ->
  header_line (s_header s) ch -> entries_read (h_Format (s_header s)) (s_entries s) cs es ->
  Write s = Ok (file_of (ch :: cs)).
Proof.
  intros Hm (hl & HM & HT & _) [Hes _]. unfold Write. rewrite Hm. cbn [refuse_if rbind write_lines].
  rewrite (write_line_Ok _ _ _ HM HT) (write_lines_Ok _ _ _ _ Hes). cbn [rbind file_of foldr]. by rewrite HashProps.str_app_assoc.
Qed.

Lemma substring_head x a : substring 0 1 (String x a) = String x "".
Proof. by destruct a. Qed.

Lemma read_end fuel line st : read_lines (S fuel) "" line st = Ok (st, None).
Proof. reflexivity. Qed.

(** C9: What [Write] writes of a session kept as a file holds it, [Read] reads back whole,
    given of each line apart that the decoder takes it (the header's for that very
    header, an entry's for an entry of the same id, parent, references and leaf mark,
    [entries_read]): the header, the entries the lines read as, in order and with
    every index over them, the children and prefix of the session written, and its
    leaf where the lines put it.  Where the lines read as the entries written, the
    session read is the one written. *)
Theorem Read_Write s ch cs es :
  kept s -> s_migrated s && bool_decide (s_unresolved s <> []) = false ->
  header_line (s_header s) ch -> entries_read (h_Format (s_header s)) (s_entries s) cs es ->
  exists file s', Write s = Ok file /\ Read file = Ok (s', None) /\ same_lines s es s' /\ s_leaf s' = resolveLeaf s /\
  (es = s_entries s -> s_byID s' = s_byID s /\ s_callIDs s' = s_callIDs s /\ s_spawnIDs s' = s_spawnIDs s /\
     s_copied s' = s_copied s /\ s_results s' = s_results s).
Proof.
  intros Hk Hm Hh Hes. exists (file_of (ch :: cs)).
  destruct (read_kept s ch cs es "" Hk Hh Hes) as (st & fuel & _ & H). rewrite str_app_nil in H.
  destruct (H None (read_end _ _ _)) as (s' & Hr & Hs & Hl). exists s'. split; [by eapply Write_kept|]. split_and!; [done..|].
  intros ->. by eapply same_indexes; [apply Hk|exact Hs|].
Qed.

(** C10: A crash in the middle of appending a line loses that line and no other:
    with the lines of a session in a file, each of which reads back, and any part of
    the next entry's line after them, [Read] returns the session of the lines
    before, and reports the part, unless it is empty, as a line cut short. *)
Theorem Read_torn s ch cs es file e line p q :
  kept s -> header_line (s_header s) ch -> entries_read (h_Format (s_header s)) (s_entries s) cs es ->
  s_migrated s && bool_decide (s_unresolved s <> []) = false ->
  Write s = Ok file -> write_line (MarshalEntry e) = Ok line -> substring 0 1 line = "{" ->
  line = (p ++ q)%string -> q <> "" -> q <> String LF "" ->
  exists s' t, Read (file ++ p)%string = Ok (s', t) /\ same_lines s es s' /\ s_leaf s' = resolveLeaf s /\
  (es = s_entries s -> s_byID s' = s_byID s /\ s_callIDs s' = s_callIDs s /\ s_spawnIDs s' = s_spawnIDs s /\
     s_copied s' = s_copied s /\ s_results s' = s_results s) /\
  if decide (p = "") then t = None else exists err, t = Some (mkTruncated (length cs + 2) p err).
Proof.
  intros Hk Hh Hes Hm Hw Hl Hbrace Hpq Hq Hqlf.
  rewrite (Write_kept _ _ _ _ Hm Hh Hes) in Hw. injection Hw as <-.
  destruct (read_kept s ch cs es p Hk Hh Hes) as (st & fuel & _ & H).
  pose proof (fun s' => same_indexes s es s' (kp_wf _ Hk)) as Hix.
  destruct (decide (p = "")) as [->|Hp].
  { destruct (H None (read_end _ _ _)) as (s' & Hr & Hs). destruct Hs as [Hs Hl']. exists s', None. split_and!; [done..|by apply Hix|done]. }
  unfold write_line in Hl. apply rbind_Ok in Hl as (data & _ & Hl). destruct (Transform data) as [c|] eqn:Ht; [|done].
  injection Hl as Hl. rewrite Hpq in Hl.
  assert (exists q', c = (p ++ q')%string /\ q' <> "") as (q' & -> & Hq').
  { clear -Hl Hq Hqlf. revert c Hl. induction p as [|x p IH]; intros c Hl.
    - exists c. split; [done|]. intros ->. done.
    - destruct c as [|y c].
      { change (String LF "" = String x (p ++ q)%string) in Hl. injection Hl as _ Hl. by destruct p, q. }
      rewrite !str_app_String in Hl. injection Hl as <- Hl. destruct (IH c Hl) as (q' & -> & ?). by exists q'. }
  destruct (canonical_line_facts _ _ Ht) as (Htext & _). destruct (line_text_app _ p q' Htext eq_refl) as [Hlf Hcr].
  assert (json_valid p = false) as Hbad.
  { apply (object_line_cut _ _ p q' Ht); [|done..]. rewrite Hpq in Hbrace. destruct p as [|x p]; [done|].
    rewrite !str_app_String !substring_head in Hbrace |- *. done. }
  destruct (decodeLine p) as [[e0 oc]|err] eqn:Hd; [by rewrite (decode_valid _ _ _ Hd) in Hbad|].
  destruct (H (Some (mkTruncated (length cs + 2) p err))) as (s' & Hr & Hs & Hleaf).
  { cbn [read_lines]. rewrite ReadBytes_last // TrimRight_text // decide_False // Hbad Hd.
    assert (match ijson_Check p with Ok _ => Ok tt | Err _ => Ok tt end = Ok tt) as -> by by destruct (ijson_Check p).
    cbn [rbind negb andb]. do 4 f_equal. lia. }
  exists s', (Some (mkTruncated (length cs + 2) p err)). split_and!; [done..|by apply Hix|by exists err].
Qed.
End Roundtrip.
