(* ===== verification/CodecScan.v ===== *)
(** * Scanning a file and reading it ([scan.go], [codec.go])

    [Scan] verifies a file as [Read] does, decoding no entry: of the lines a
    decoder takes, the two accept the same and say the same of them
    ([Scan_agrees]). *)
From S2P Require Import Prelude Entry Header Tree Leaf TreeWf LeafLemmas Calls CallRules Runs Verify Omit Digest Settings Context Hash Session.
From S2P Require Import SessionProps Written WrittenSound Forks Json Ijson Jcs JsonProps JsonTokens IjsonProps JcsRoundtrip Marshal Codec CodecLines CodecProps.
Open Scope session_scope.

Section Scan.
Context {OR : OpenResponses} {IC : ItemContent} {ND : NameDecoding} {SH : SHA256} {EC : EntryCodec} {HJ : HeaderJSON}.
#[local] Existing Instance json_tools.
#[local] Existing Instance jcs_canonicaliser.
Context {LC : LineCodec} {LCL : LineCodecLaws}.
Implicit Types (s : Session) (e : Entry) (h : Header).

(** ** What both tests pass is one document *)

(** The walk over the bytes reads nothing the scanner does not. *)
Definition walk_scans (fuel : nat) : Prop :=
  (forall depth l r, fastValue fuel depth l = Some r -> exists v, scan_value fuel depth l = Some (v, r)) /\
  (forall depth l keys r, fastMembers fuel depth l keys = Some r -> exists ms, scan_members fuel depth l = Some (ms, r)) /\
  (forall depth l r, fastElements fuel depth l = Some r -> exists es, scan_elements fuel depth l = Some (es, r)).

Lemma fastNumber_scans l r : fastNumber l = Some r -> exists n, scan_number l = Some (n, r).
Proof. unfold fastNumber. destruct (scan_number l) as [[n r']|]; [|done]. destruct (negb _ && _); [done|]. intros [= <-]. eauto. Qed.

Lemma value_walk_scans fuel depth l r : walk_scans fuel -> fastValue (S fuel) depth l = Some r ->
  exists v, scan_value (S fuel) depth l = Some (v, r).
Proof.
  intros (_ & IHm & IHe) H. destruct l as [|c l1]; [done|]. cbn [fastValue] in H. change maxDepth with 1000%Z in H.
  assert (forall d : Z, (1000 <=? d)%Z = false -> (maxNestingDepth <=? d)%Z = false) as Hdepth.
  { intros d. change maxNestingDepth with 10000%Z. rewrite !Z.leb_gt. lia. }
  destruct (decide (c = "{"%char)) as [->|Hobj]; [|destruct (decide (c = "["%char)) as [->|Harr]].
  - rewrite bool_decide_eq_true_2 // in H. cbn [scan_value]. rewrite bool_decide_eq_true_2 //.
    destruct (1000 <=? depth)%Z eqn:Hd; [done|]. rewrite Hdepth //.
    destruct (skipWS l1) as [|d r1]; [done|]. destruct (bool_decide (d = "}"%char)); [injection H as <-; eauto|].
    apply IHm in H as [ms ->]. eauto.
  - rewrite bool_decide_eq_false_2 // bool_decide_eq_true_2 // in H. cbn [scan_value]. rewrite bool_decide_eq_false_2 // bool_decide_eq_true_2 //.
    destruct (1000 <=? depth)%Z eqn:Hd; [done|]. rewrite Hdepth //.
    destruct (skipWS l1) as [|d r1]; [done|]. destruct (bool_decide (d = "]"%char)); [injection H as <-; eauto|].
    apply IHe in H as [es ->]. eauto.
  - rewrite scan_scalar //. cbn [scan_value]. rewrite (bool_decide_eq_false_2 _ Hobj) (bool_decide_eq_false_2 _ Harr) in H |- *.
    destruct (bool_decide (c = quote)).
    { destruct (fastString l1 false) as [[[b esc] r1]|] eqn:Hs; [|done]. injection H as <-. apply fastString_spec in Hs as (-> & _). eauto. }
    destruct (_ || _); [apply fastNumber_scans in H as [n ->]; eauto|].
    repeat case_bool_decide; [..|done]; rewrite H; eauto.
Qed.

Lemma walk_reads fuel : walk_scans fuel.
Proof.
  induction fuel as [|fuel IH]; [done|]. pose proof IH as (IHv & IHm & IHe). split_and!.
  - intros depth l r. by apply value_walk_scans.
  - intros depth l keys r H. destruct l as [|q l1]; [done|]. cbn [fastMembers] in H. cbn [scan_members].
    destruct (bool_decide (q = quote)); [|done]. destruct (fastString l1 false) as [[[key esc] l2]|] eqn:Hs; [|done].
    apply fastString_spec in Hs as (-> & _). destruct esc; [done|]. destruct (bool_decide (key ∈ keys)); [done|].
    destruct (skipWS l2) as [|colon l3]; [done|]. destruct (bool_decide (colon = ":"%char)); [|done].
    destruct (fastValue fuel depth (skipWS l3)) as [l4|] eqn:Hv; [|done]. apply IHv in Hv as [v ->].
    destruct (skipWS l4) as [|d l5]; [done|]. destruct (bool_decide (d = ","%char)); [apply IHm in H as [ms ->]; eauto|].
    destruct (bool_decide (d = "}"%char)); [|done]. injection H as <-. eauto.
  - intros depth l r H. cbn [fastElements] in H. cbn [scan_elements].
    destruct (fastValue fuel depth l) as [l1|] eqn:Hv; [|done]. apply IHv in Hv as [v ->].
    destruct (skipWS l1) as [|d l2]; [done|]. destruct (bool_decide (d = ","%char)); [apply IHe in H as [es ->]; eauto|].
    destruct (bool_decide (d = "]"%char)); [|done]. injection H as <-. eauto.
Qed.

(** A bracket closed after a document fails the I-JSON test, though not the
    canonicaliser. *)
Lemma close_after_document data v c r r' : scan_document data = Some (v, r) -> skipWS r = c :: r' ->
  c = "]"%char \/ c = "}"%char -> Check data <> Ok tt.
Proof.
  intros Hs Hr Hc. unfold Check, scan_document in *. destruct (checkFast data) eqn:Hf.
  { exfalso. apply andb_true_iff in Hf as [_ Hf]. destruct (fastValue _ _ _) as [r0|] eqn:Hw; [|done].
    apply (proj1 (walk_reads _)) in Hw as [v0 Hw]. rewrite Hw in Hs. injection Hs as -> ->. by rewrite Hr bool_decide_eq_false_2 in Hf. }
  unfold checkTokens. intros H. inv_ok.
  pose proof (scan_value_head _ _ _ _ _ Hs) as (c0 & l & Hc0 & Hvs). apply value_start_not in Hvs as (Hsp0 & Hn1 & Hn2 & _).
  destruct (proj1 (token_walk _) _ _ _ _ Hs (mkDecoder data TopValue []) TopValue [] []) as (n & Hn & Hrun); [|done..|].
  { rewrite Hc0. by apply reads_after_open. }
  pose proof (skipWS_length data). replace (S (length data)) with (n + S (length data - n)) in H by lia.
  rewrite Hrun in H. inv_ok. cbn [token_loop next_token d_in] in H. rewrite Hr in H. by destruct Hc as [-> | ->].
Qed.

Lemma tested_valid d c : ijson_Check d = Ok tt -> Transform d = Some c -> json_valid d = true.
Proof.
  cbn [ijson_Check json_tools Transform jcs_canonicaliser]. intros Hck (b & Ht & _)%fmap_Some. rewrite Transform_bytes_decoded in Ht.
  apply transformDecoded_write in Ht as (v & (r & Hd & Hm) & _). unfold Decode in Hd. unfold json_valid, json_Valid.
  destruct (scan_document (la d)) as [[x r']|] eqn:Hs; [|done]. injection Hd as _ ->.
  apply bool_decide_eq_true. unfold More in Hm. destruct (skipWS r) as [|c' r'] eqn:Hr; [done|].
  apply negb_false_iff, orb_true_iff in Hm. rewrite !bool_decide_eq_true in Hm. exfalso. by eapply close_after_document.
Qed.

(** ** Fuel *)

Lemma read_lines_enough f1 : forall f2 file line st, String.length file < f1 -> String.length file < f2 ->
  read_lines f1 file line st = read_lines f2 file line st.
Proof.
  induction f1 as [|f1 IH]; intros [|f2] file line st H1 H2; [lia..|]. cbn [read_lines].
  destruct (ReadBytes file) as [[data rest] atEOF] eqn:Hr.
  assert (forall st, (if atEOF then Ok (st, None) else read_lines f1 rest (S line) st) =
                     (if atEOF then Ok (st, None) else read_lines f2 rest (S line) st)) as Hnext.
  { intros st0. destruct atEOF; [done|]. apply ReadBytes_less in Hr. apply IH; lia. }
  destruct (decide _); [by rewrite Hnext|]. destruct (match ijson_Check _ with Ok _ => _ | Err _ => _ end); [|done]. cbn [rbind].
  destruct st as [st|].
  - destruct (decodeLine _) as [[e c]|]; [|done]. destruct (link _ _ _ _); [|done]. cbn [rbind]. apply Hnext.
  - destruct (read_header _); [|done]. cbn [rbind]. apply Hnext.
Qed.

(** ** One line *)

(** What [Read] holds and what [Scan] holds after the same lines. *)
Record in_step h (st : reading) (sc : scanning) : Prop := {
  is_wf : wf (rd_session st);
  is_ids : rd_ids st = None;
  is_rule : rd_rule st = sc_rule sc;
  is_seen id : id ∈ sc_seen sc <-> id ∈ ids (s_entries (rd_session st));
  is_ID : h_ID (s_header (rd_session st)) = h_ID h;
  is_Base : h_Base (s_header (rd_session st)) = h_Base h;
  is_declared : s_declared (rd_session st) = h_Format h
}.

Lemma gateRedacted_envelope e f : eparent (gateRedacted e f) = eparent e /\ Parents (Base (gateRedacted e f)) = Parents (Base e).
Proof.
  unfold gateRedacted, demoteRedacted. destruct (definesRedactedFrom f); [done|]. unfold eparent.
  destruct (isRedacted (Base e)); by rewrite !Base_set_Base.
Qed.

Lemma seen_has h st sc id : in_step h st sc -> bool_decide (id ∈ sc_seen sc) = has_entry (rd_session st) id.
Proof. intros [Hw _ _ Hs _ _ _]. rewrite has_entry_ids //. apply bool_decide_ext, Hs. Qed.

(** A line the decoder takes links exactly when [Scan] accepts it, and the two
    stay in step. *)
Lemma link_scanLine h st sc d e oc :
  in_step h st sc -> decodeLine d = Ok (e, oc) -> ijson_Check d = Ok tt ->
  match link st e d oc, scanLine d (h_ID h) (h_Format h) sc with
  | Ok st', Ok (r, sc') => in_step h st' sc' /\ is_ok (RawEntry_Decode r) = true /\
      ids (s_entries (rd_session st')) = ids (s_entries (rd_session st)) ++ (if re_Repeat r then [] else [re_ID r]) /\
      s_repeated (rd_session st') = s_repeated (rd_session st) ++ (if re_Repeat r then [re_ID r] else [])
  | Err _, Err _ => True
  | _, _ => False
  end.
Proof.
  intros Hst Hd Hck. pose proof Hst as [Hw Hids Hrule Hseen HID HB Hdecl]. unfold link, scanLine.
  rewrite Hids Hck. cbn [rbind].
  assert (match oc with Some c => Ok c | None => match Transform d with Some c => Ok c | None => Err ErrOther end end =
          match Transform d with Some c => Ok c | None => Err ErrOther end) as ->.
  { destruct oc as [c|]; [by rewrite (decode_canonical _ _ _ Hd)|done]. }
  destruct (Transform d) as [c|] eqn:Ht; [|done]. cbn [rbind]. destruct (verifyLine c) as [v|] eqn:Hv; [|done]. cbn [rbind].
  destruct (decode_envelope _ _ _ _ _ Hd Ht Hv) as [Hpar Hrefs].
  set (e' := set_Base _ _). destruct (gateRedacted_envelope e (s_declared (rd_session st))) as [Hg1 Hg2].
  assert (eid e' = lv_id v) as -> by (unfold eid, e'; by rewrite Base_set_Base).
  assert (eparent e' = lv_parent v) as -> by (unfold eparent, e'; rewrite Base_set_Base; cbn; by rewrite -Hpar -Hg1).
  assert (Parents (Base e') = Parents (Base e)) as Hps by (unfold e'; rewrite Base_set_Base; cbn; by rewrite Hg2).
  assert (eid e' = lv_id v) as Hid' by (unfold eid, e'; by rewrite Base_set_Base).
  assert (is_ok (RawEntry_Decode (mkRawEntry (lv_id v) (lv_parent v) (lv_typ v) d true (h_Format h))) = true) as Hdec
    by (unfold RawEntry_Decode, UnmarshalEntry; cbn [re_Line]; by rewrite Hd).
  assert (has_entry (rd_session st) (lv_id v) = bool_decide (lv_id v ∈ sc_seen sc)) as -> by (symmetry; by eapply seen_has).
  destruct (decide (lv_id v ∈ sc_seen sc)) as [Hin|Hin].
  { rewrite bool_decide_eq_true_2 //. cbn [rd_session re_Repeat re_ID]. split_and!; [|done|by rewrite app_nil_r|done].
    split; cbn [rd_session rd_ids rd_rule]; try done. by destruct Hw; split. }
  rewrite bool_decide_eq_false_2 //.
  assert (negb (has_entry (rd_session st) (lv_parent v)) = bool_decide (lv_parent v ∉ sc_seen sc)) as ->.
  { rewrite -(seen_has h st sc) //. by rewrite bool_decide_not. }
  destruct (refuse_if _ ErrNoEntry) as [[]|] eqn:Hp; [|done]. cbn [rbind]. rewrite Hrule.
  destruct (baseRule_line (sc_rule sc) _ _) as [rule|]; [|done]. cbn [rbind]. rewrite Hrefs. cbn [rbind].
  unfold checkParents. change (Parent (Base e')) with (eparent e'). rewrite Hps HID.
  assert (eparent e' = lv_parent v) as -> by (unfold eparent, e'; rewrite Base_set_Base; cbn; by rewrite -Hpar -Hg1).
  rewrite (checkRefs_ext _ _ _ (has_entry (rd_session st)) (fun id => bool_decide (id ∈ sc_seen sc))).
  2:{ intros id. symmetry. by eapply seen_has. }
  destruct (checkRefs _ _ _ _) as [[]|]; [|done]. cbn [rbind rd_session re_Repeat re_ID].
  split_and!; [|done|by rewrite ids_app /= Hid'|by rewrite app_nil_r].
  assert (eid e' ∉ ids (s_entries (rd_session st))) as Hfresh by (by rewrite Hid' -Hseen).
  split; cbn [rd_session rd_ids rd_rule sc_seen sc_rule]; try done.
  - apply wf_add; [done|by apply ValidHash_goodID, named_valid; right; eapply verified_sliced|done|].
    assert (eparent e' = lv_parent v) as -> by (unfold eparent, e'; rewrite Base_set_Base; cbn; by rewrite -Hpar -Hg1).
    apply refuse_if_Ok in Hp. destruct (decide (lv_parent v = "")) as [|Hne]; [by left|right].
    rewrite bool_decide_eq_true_2 //= in Hp. apply bool_decide_eq_false, dec_stable in Hp. by apply Hseen.
  - intros id. cbn [s_entries add]. rewrite elem_of_union elem_of_singleton ids_app elem_of_app /= list_elem_of_singleton Hid' Hseen. naive_solver.
  - by rewrite ids_add.
  - by rewrite h_Base_add.
Qed.

(** ** The lines of a file *)

(** The ends of the two: of the file, or of the same line cut short. *)
Definition same_end (fin : scan_end) (t : option TruncatedLine) : Prop :=
  match fin, t with
  | ScanDone, None => True
  | ScanTruncated a, Some b => tl_Line a = tl_Line b /\ tl_Data a = tl_Data b
  | _, _ => False
  end.

Definition decodes_all (es : list RawEntry) : Prop := Forall (fun r => is_ok (RawEntry_Decode r) = true) es.
Definition fresh_ids (es : list RawEntry) : list string := re_ID <$> filter (fun r => re_Repeat r = false) es.
Definition repeat_ids (es : list RawEntry) : list string := re_ID <$> filter (fun r => re_Repeat r = true) es.

(** What [Read] makes of lines, from what it held, against what [Scan] makes of
    them. *)
Definition agree h (st : reading) (read : result (option reading * option TruncatedLine)) (scan : list RawEntry * scan_end) : Prop :=
  match read with
  | Ok (Some st', t) =>
      decodes_all scan.1 /\
      ids (s_entries (rd_session st')) = ids (s_entries (rd_session st)) ++ fresh_ids scan.1 /\
      s_repeated (rd_session st') = s_repeated (rd_session st) ++ repeat_ids scan.1 /\
      h_Base (s_header (rd_session st')) = h_Base h /\ wf (rd_session st') /\
      (if decide (h_Base h <> "" /\ h_Base h ∉ ids (s_entries (rd_session st'))) then scan.2 = ScanError ErrNoEntry
       else same_end scan.2 t)
  | Ok (None, _) => False
  | Err _ => (exists err, scan.2 = ScanError err) \/ ~ decodes_all scan.1
  end.

Lemma agree_end h st sc fin t : in_step h st sc -> same_end fin t -> agree h st (Ok (Some st, t)) ([], scan_base h sc fin).
Proof.
  intros [Hw _ _ Hs _ HB _] Hfin. unfold agree. cbn [fst snd]. split; [constructor|]. rewrite !app_nil_r. split_and!; try done.
  unfold scan_base. destruct (decide (h_Base h <> "" /\ h_Base h ∉ sc_seen sc)) as [[? Hn]|Hn].
  - rewrite decide_True //. split; [done|]. by rewrite -Hs.
  - rewrite decide_False //. by rewrite -Hs.
Qed.

Lemma agree_line h st st' r read scan :
  is_ok (RawEntry_Decode r) = true ->
  ids (s_entries (rd_session st')) = ids (s_entries (rd_session st)) ++ (if re_Repeat r then [] else [re_ID r]) ->
  s_repeated (rd_session st') = s_repeated (rd_session st) ++ (if re_Repeat r then [re_ID r] else []) ->
  agree h st' read scan -> agree h st read (let (es, fin) := scan in (r :: es, fin)).
Proof.
  intros Hd Hi Hr H. destruct scan as [es fin]. unfold agree in *. cbn [fst snd] in *.
  destruct read as [[[st2|] t]|err]; [|done|].
  - destruct H as (H1 & H2 & H3 & H4 & H5 & H6). split_and!; try done; [by constructor|..].
    + rewrite H2 Hi -app_assoc. f_equal. unfold fresh_ids. rewrite filter_cons. by destruct (re_Repeat r).
    + rewrite H3 Hr -app_assoc. f_equal. unfold repeat_ids. rewrite filter_cons. by destruct (re_Repeat r).
  - destruct H as [H|H]; [by left|right]. intros [_ Hes]%Forall_cons. done.
Qed.

Lemma lines_agree h fuel : forall file line st sc, in_step h st sc -> String.length file < fuel ->
  agree h st (read_lines fuel file line (Some st)) (scan_lines fuel file line h sc).
Proof.
  induction fuel as [|fuel IH]; [lia|]. intros file line st sc Hst Hfuel. cbn [read_lines scan_lines].
  destruct (ReadBytes file) as [[data rest] atEOF] eqn:Hr. set (d := TrimRight data).
  assert (forall st sc, in_step h st sc ->
    agree h st (if atEOF then Ok (Some st, None) else read_lines fuel rest (S line) (Some st))
      (if atEOF then ([], scan_base h sc ScanDone) else scan_lines fuel rest (S line) h sc)) as Hnext.
  { intros st0 sc0 H0. destruct atEOF; [by apply agree_end|]. apply IH; [done|]. apply ReadBytes_less in Hr. lia. }
  destruct (decide (d = "")) as [Hd0|Hd0]; [by apply Hnext|].
  pose proof (ReadBytes_split _ _ _ _ Hr) as [_ Hend].
  assert (atEOF || bool_decide (rest = "") = negb (negb atEOF && bool_decide (rest <> ""))) as Hlast.
  { destruct atEOF; [done|]. by rewrite bool_decide_not negb_involutive. }
  destruct (decodeLine d) as [[e oc]|err] eqn:Hdec.
  - pose proof (decode_valid _ _ _ Hdec) as Hvalid. rewrite Hvalid andb_false_r.
    destruct (ijson_Check d) as [[]|cerr] eqn:Hck; cbn [rbind].
    2:{ unfold scanLine. rewrite Hck. cbn [rbind]. left. by eexists. }
    pose proof (link_scanLine h st sc d e oc Hst Hdec Hck) as Hl.
    destruct (link st e d oc) as [st'|lerr], (scanLine d (h_ID h) (h_Format h) sc) as [[r sc']|serr]; try done.
    + destruct Hl as (Hst' & Hrd & Hi & Hrep). cbn [rbind]. by eapply agree_line, Hnext.
    + left. by eexists.
  - assert (match ijson_Check d with Ok _ => Ok tt | Err err => if json_valid d then Err err else Ok tt end = Ok tt \/
            json_valid d = true /\ exists cerr, ijson_Check d = Err cerr /\
              match ijson_Check d with Ok _ => Ok tt | Err err => if json_valid d then Err err else Ok tt end = Err cerr) as [Hck|(Hv & cerr & Hce & Hck)].
    { destruct (ijson_Check d); [by left|]. destruct (json_valid d); [right|by left]. eauto. }
    2:{ rewrite Hck. cbn [rbind]. unfold scanLine. rewrite Hce. cbn [rbind]. rewrite Hv andb_false_r. left. by eexists. }
    rewrite Hck. cbn [rbind]. destruct (scanLine d _ _ sc) as [[r sc']|serr] eqn:Hs.
    + assert (json_valid d = true /\ re_Line r = d) as [Hv Hline].
      { unfold scanLine in Hs. apply rbind_Ok in Hs as ([] & Hc & Hs). destruct (Transform d) as [c|] eqn:Ht; [|done].
        split; [by eapply tested_valid|]. apply rbind_Ok in Hs as (v & _ & Hs). destruct (decide _); [by injection Hs as <- _|].
        by inv_ok. }
      assert (is_ok (RawEntry_Decode r) = false) as Hnd by (unfold RawEntry_Decode, UnmarshalEntry; by rewrite Hline Hdec).
      rewrite Hv. assert (forall scan : list RawEntry * scan_end, ~ decodes_all (let (es, fin) := scan in (r :: es, fin)).1) as Hno.
      { intros [es fin] H. cbn [fst] in H. apply Forall_cons in H as [H _]. by rewrite H in Hnd. }
      destruct (negb atEOF && bool_decide (rest <> "")); right; apply Hno.
    + rewrite Hlast. destruct (negb atEOF && bool_decide (rest <> "")); cbn [negb andb]; [left; by eexists|].
      destruct (json_valid d); cbn [negb]; [left; by eexists|]. by apply agree_end.
Qed.

(** ** The file *)

(** The checks of a header's line, and what follows it. *)
Lemma read_first f : forall file line, String.length file < f ->
  match scan_first f file line with
  | Err _ => read_lines f file line None = Ok (None, None)
  | Ok (data, rest, atEOF, n) =>
      read_lines f file line None =
      (match ijson_Check data with Err err => if json_valid data then Err err else Ok tt | Ok _ => Ok tt end ;!
       let! st := read_header data in
       if atEOF then Ok (Some st, None) else read_lines (S (String.length rest)) rest n (Some st))
  end.
Proof.
  induction f as [|f IH]; [lia|]. intros file line Hf. cbn [scan_first read_lines].
  destruct (ReadBytes file) as [[data rest] atEOF] eqn:Hr. destruct (decide (TrimRight data = "")) as [Hd|Hd].
  - destruct atEOF; [done|]. apply IH. apply ReadBytes_less in Hr. lia.
  - destruct (match ijson_Check _ with Ok _ => _ | Err _ => _ end) as [[]|]; [|done]. cbn [rbind].
    destruct (read_header _); [|done]. cbn [rbind]. destruct atEOF; [done|]. apply ReadBytes_less in Hr.
    symmetry. apply (read_lines_enough (S (String.length rest)) f rest (S line) (Some _)); lia.
Qed.

(** A header that validates migrates, keeping whose session it is and its base. *)
Lemma Validate_migrates h : Validate h = Ok tt -> exists h', migrate h = Ok h' /\ h_ID h' = h_ID h /\ h_Base h' = h_Base h.
Proof.
  unfold Validate, migrate. destruct (ParseFormat (h_Format h)) as [[major minor]|]; [|done]. cbn [rbind]. intros H. inv_ok.
  rewrite H0. cbn [refuse_if rbind]. destruct (decide _); [by eauto|]. unfold Raise.
  destruct (header_raiseRefused h Format); cbn [rbind]; eauto.
Qed.

(** A migrated file is read as one to its end. *)
Lemma link_migrated st e d c st' : link st e d c = Ok st' -> s_migrated (rd_session st') = s_migrated (rd_session st).
Proof.
  unfold link. intros ([[e' ids'] s'] & H & Hl)%rbind_Ok. assert (s_migrated s' = s_migrated (rd_session st)) as <-.
  { destruct (rd_ids st) as [ids|].
    - apply rbind_Ok in H as ([[e1 old] s1] & H & Hr). injection Hr as <- <- <-. unfold migration_rewrite in H.
      apply rbind_Ok in H as ([] & _ & H). apply rbind_Ok in H as (r & _ & H).
      destruct (rewrite_raw _) as [e2 r2]. apply rbind_Ok in H as ([] & _ & H).
      destruct (hashEntry None e2) as [e3 r3]. apply rbind_Ok in H as ([] & _ & H).
      destruct (rewrite_raw e3) as [e4 r4]. apply rbind_Ok in H as ([] & _ & H). injection H as _ _ <-. by destruct (_ || _).
    - apply rbind_Ok in H as (c' & _ & H). apply rbind_Ok in H as (v & _ & H). by injection H as _ _ <-. }
  destruct (has_entry s' (eid e')); [by injection Hl as <-|]. inv_ok. done.
Qed.

Lemma read_lines_migrated f : forall file line st st' t, read_lines f file line (Some st) = Ok (Some st', t) ->
  s_migrated (rd_session st') = s_migrated (rd_session st).
Proof.
  induction f as [|f IH]; [done|]. intros file line st st' t. cbn [read_lines].
  destruct (ReadBytes file) as [[data rest] atEOF].
  assert (forall st0, (if atEOF then Ok (Some st0, None) else read_lines f rest (S line) (Some st0)) = Ok (Some st', t) ->
    s_migrated (rd_session st') = s_migrated (rd_session st0)) as Hnext.
  { intros st0. destruct atEOF; [by intros [= ->]|]. apply IH. }
  destruct (decide _); [apply Hnext|]. intros ([] & _ & H)%rbind_Ok. destruct (decodeLine _) as [[e c]|err].
  - apply rbind_Ok in H as (st1 & Hl & H). apply Hnext in H. apply link_migrated in Hl. congruence.
  - destruct (negb atEOF && _); [done|]. destruct (json_valid _); [done|]. by injection H as <- _.
Qed.

(** C11: [Scan] verifies a file as [Read] reads it.  Of a file of hashed entries
    [Scan] takes the header of, [Read] returns a session exactly when the sequence
    ends without an error and every line of it decodes; the two then end the same
    way, at the same line when one is cut short, and meet the same entries in the
    same order and the same repeats.  [Read] takes no other file, but for one of a
    format before 0.5, which it migrates. *)
Theorem Scan_agrees file :
  match Scan file with
  | Ok (h, (es, fin)) =>
      match Read file with
      | Ok (s, t) => decodes_all es /\ same_end fin t /\ ids (s_entries s) = fresh_ids es /\ s_repeated s = repeat_ids es
      | Err _ => (exists err, fin = ScanError err) \/ ~ decodes_all es
      end
  | Err err => forall s t, Read file = Ok (s, t) -> err = ErrScanMigrated /\ s_migrated s = true
  end.
Proof.
  pose proof (read_first (S (String.length file)) file 0 (Nat.lt_succ_diag_r _)) as Hf.
  unfold Scan, Read. destruct (scan_first _ file 0) as [[[[data rest] atEOF] n]|err]; cbn [rbind]; rewrite Hf; [|done].
  destruct (match ijson_Check data with Ok _ => _ | Err _ => _ end) as [[]|]; [|done]. cbn [rbind]. unfold read_header.
  destruct (UnmarshalHeader data) as [h|]; [|done]. cbn [rbind]. destruct (Validate h) as [[]|] eqn:Hv; [|done]. cbn [rbind].
  destruct (Validate_migrates _ Hv) as (h' & Hm & HID & HB).
  destruct (ParseFormat (h_Format h)) as [[major minor]|]; [|done]. cbn [rbind]. rewrite Hm. cbn [rbind].
  destruct (bool_decide (minor < hashedMinor)%Z) eqn:Hold; cbn [refuse_if rbind].
  { intros s t ([[st'|] t'] & Hr & H)%rbind_Ok; [|done]. split; [done|].
    apply rbind_Ok in H as (s1 & Hs1 & H). injection H as <- _. cbn [s_migrated set_leaf].
    assert (s_migrated s1 = s_migrated (rd_session st')) as ->.
    { unfold read_prefix in Hs1. destruct (decide _); [by injection Hs1 as <-|]. by inv_ok. }
    destruct atEOF; [by injection Hr as <- _|]. by apply read_lines_migrated in Hr. }
  set (st := mkReading (set_migrated false (h_Format h) (New h')) None (newBaseRule (h_Base h'))).
  set (sc := mkScanning ∅ (newBaseRule (h_Base h))).
  assert (in_step h st sc) as Hst.
  { split; cbn; try done; [by destruct (wf_New h'); split|by rewrite HB|set_solver]. }
  set (scan := if atEOF then ([], scan_base h sc ScanDone) else scan_lines (S (String.length rest)) rest n h sc).
  assert (agree h st (if atEOF then Ok (Some st, None) else read_lines (S (String.length rest)) rest n (Some st)) scan) as Hag.
  { unfold scan. destruct atEOF; [by apply agree_end|]. apply lines_agree; [done|lia]. }
  destruct scan as [es fin]. destruct (if atEOF then _ else _) as [[[st'|] t]|err]; cbn [rbind]; [|done|exact Hag].
  destruct Hag as (Hes & Hids & Hrep & HB' & Hw & Hend). cbn [fst snd] in *. unfold read_prefix. rewrite HB'.
  destruct (decide (h_Base h = "")) as [Hb|Hb].
  - rewrite decide_False in Hend; [|tauto]. cbn [rbind]. done.
  - rewrite has_entry_ids //. destruct (decide (h_Base h ∈ ids (s_entries (rd_session st')))) as [Hin|Hin].
    + rewrite decide_False in Hend; [|tauto]. rewrite bool_decide_eq_true_2 //.
    + rewrite decide_True // in Hend. rewrite bool_decide_eq_false_2 //. cbn [negb refuse_if rbind]. left. by eexists.
Qed.
End Scan.
