(* ===== verification/GoStrings.v ===== *)
(** * The standard library's string functions the stores call ([strings]) *)
From S2P Require Import Prelude Header Strconv Utf8 Json.
Open Scope session_scope.

(** [strings.Split] at a separator of one byte. *)
Fixpoint Split (s : string) (sep : ascii) : list string :=
  match s with
  | EmptyString => [EmptyString]
  | String c s' =>
      if decide (c = sep) then EmptyString :: Split s' sep
      else match Split s' sep with
           | x :: l => String c x :: l
           | [] => [String c EmptyString]
           end
  end.

(** [strings.ToUpper] of an ASCII string. *)
Definition upper (c : ascii) : ascii :=
  let b := byte_of c in if ((97 <=? b) && (b <=? 122))%Z then ascii_of (b - 32) else c.
Fixpoint ToUpper (s : string) : string :=
  match s with EmptyString => EmptyString | String c s' => String (upper c) (ToUpper s') end.

(** [strings.EqualFold] where one of the strings is ASCII, as it is wherever the
    stores call it: of all other characters the long s and the Kelvin sign fold
    to a letter of ASCII. *)
Definition fold_rune (r : Z) : Z :=
  if ((65 <=? r) && (r <=? 90))%Z then (r + 32)%Z
  else if (r =? 383)%Z then 115%Z
  else if (r =? 8490)%Z then 107%Z
  else r.
Definition folded (s : string) : list Z := fold_rune <$> range_runes (la s).
Definition EqualFold (s t : string) : bool := bool_decide (folded s = folded t).

Definition last_byte (s : string) : option ascii := last (la s).

(** ** Properties *)

Lemma Split_nonempty s sep : Split s sep <> [].
Proof. destruct s as [|c s]; [done|]. cbn [Split]. destruct (decide _); [done|]. by destruct (Split s sep). Qed.

Lemma Join_Split s sep : String.concat (String sep EmptyString) (Split s sep) = s.
Proof.
  induction s as [|c s IH]; [done|]. cbn [Split]. pose proof (Split_nonempty s sep) as Hne. destruct (decide (c = sep)) as [->|].
  - destruct (Split s sep) as [|x l]; [done|]. cbn [String.concat]. rewrite -[in RHS]IH. done.
  - destruct (Split s sep) as [|x l]; [done|]. rewrite -[in RHS]IH. by destruct l.
Qed.

Lemma Split_inj s t sep : Split s sep = Split t sep -> s = t.
Proof. intros H. by rewrite -(Join_Split s sep) H Join_Split. Qed.
