(* ===== verification/Refs.v ===== *)
(** * Refs ([refs.go])

    Names and the targets they hold: the rules on names, and the table with its
    log that [MemoryStore] keeps, moved by compare-and-swap.  The sessions the
    store holds are an argument of the operations that look at them. *)
From S2P Require Import Prelude Entry Header Tree Verify Digest Strconv GoStrings.
Open Scope session_scope.

(** ** Names *)

Definition MaxRefName : nat := 200.

Definition refNameChar (c : ascii) : bool :=
  let b := byte_of c in
  ((97 <=? b) && (b <=? 122) || (65 <=? b) && (b <=? 90) || (48 <=? b) && (b <=? 57))%Z
  || bool_decide (c = "."%char) || bool_decide (c = "_"%char) || bool_decide (c = "-"%char).

(** [windowsReserved]: [strings.Cut] at the first dot leaves the whole segment
    where it has none. *)
Definition stem_of (seg : string) : string :=
  ToUpper (match Cut seg "." with Some (before, _) => before | None => seg end).
Definition windowsReserved (seg : string) : bool :=
  let stem := stem_of seg in
  bool_decide (stem ∈ ["CON"; "PRN"; "AUX"; "NUL"])
  || bool_decide (String.length stem = 4)
     && (HasPrefix stem "COM" || HasPrefix stem "LPT")
     && match last_byte stem with Some c => ((49 <=? byte_of c) && (byte_of c <=? 57))%Z | None => false end.

Definition valid_segment (seg : string) : result unit :=
  refuse_if (bool_decide (seg = "")) ErrRefName ;!
  refuse_if (bool_decide (seg = ".") || bool_decide (seg = "..")) ErrRefName ;!
  refuse_if (negb (str_forall refNameChar seg)) ErrRefName ;!
  refuse_if (bool_decide (last_byte seg = Some "."%char)) ErrRefName ;!
  refuse_if (windowsReserved seg) ErrRefName.

Definition ValidRefName (name : string) : result unit :=
  refuse_if (bool_decide (name = "")) ErrRefName ;!
  refuse_if (MaxRefName <? String.length name) ErrRefName ;!
  check_all valid_segment (Split name "/").

Definition ValidRefPrefix (prefix : string) : result unit :=
  refuse_if (MaxRefName <? String.length prefix) ErrRefName ;!
  refuse_if (negb (str_forall (fun c => bool_decide (c = "/"%char) || refNameChar c) prefix)) ErrRefName.

(** The first segments two names differ in differ only in case. *)
Fixpoint differs_in_case (segs osegs : list string) : bool :=
  match segs, osegs with
  | x :: segs, y :: osegs => if decide (x = y) then differs_in_case segs osegs else EqualFold x y
  | _, _ => false
  end.
Definition Join (segs : list string) : string := String.concat "/" segs.
Definition conflicts (name other : string) : result unit :=
  if decide (other = name) then Ok tt
  else
    let segs := Split name "/" in
    let osegs := Split other "/" in
    let n := Nat.min (length segs) (length osegs) in
    refuse_if (differs_in_case segs osegs) ErrRefName ;!
    refuse_if (bool_decide (length segs <> length osegs) && EqualFold (Join (take n segs)) (Join (take n osegs))) ErrRefName.

Definition RefConflict (name : string) (existing : list string) : result unit := check_all (conflicts name) existing.

(** ** Targets and updates *)

Record RefTarget := mkRefTarget { rt_Session : string; rt_Entry : string }.
#[export] Instance RefTarget_eq_dec : EqDecision RefTarget.
Proof. solve_decision. Defined.
Definition no_target : RefTarget := mkRefTarget "" "".
Definition RefTarget_IsZero (t : RefTarget) : bool := bool_decide (t = no_target).

Definition RefTarget_String (t : RefTarget) : string :=
  if decide (rt_Entry t = "") then rt_Session t else (rt_Session t ++ "@" ++ rt_Entry t)%string.

Record Ref := mkRef { ref_Name : string; ref_Target : RefTarget }.

Record RefUpdate := mkRefUpdate {
  ru_Name : string;
  ru_Old : RefTarget;
  ru_New : RefTarget;
  ru_Time : Time;
  ru_Reason : string
}.

(** An error of [UpdateRef]: a [RefMovedError], which carries the target the ref
    holds, or one of the sentinels. *)
Inductive updateError :=
  | RefMovedError (current : RefTarget)
  | UpdateError (err : error).

(** [m[k]] of a map of targets or slices: the zero value where there is none. *)
Definition lookup_target (k : string) (m : gmap string RefTarget) : RefTarget := default no_target (m !! k).

Section Refs.
Context {OR : OpenResponses} {SH : SHA256} {HJ : HeaderJSON}.
Implicit Types (sessions : gmap string Session) (name : string).

(** [HeaderIdent]: the first eight bytes of the digest, in hexadecimal. *)
Definition HeaderIdent (h : Header) : result string :=
  let! b := MarshalHeader (set_Format "" h) in Ok (substring 0 16 (sha256hex b)).

(** ** The table [MemoryStore] keeps *)

Record refState := mkRefState {
  rs_refs : gmap string RefTarget;
  rs_idents : gmap string string;
  rs_logs : gmap string (list RefUpdate)
}.
Definition no_refs : refState := mkRefState ∅ ∅ ∅.

(** [MemoryStore.ResolveRef]: the target, and the error beside it. *)
Definition ResolveRef sessions (rs : refState) name : RefTarget * option error :=
  match ValidRefName name with
  | Err err => (no_target, Some err)
  | Ok _ =>
      match rs_refs rs !! name with
      | None => (no_target, Some ErrNoRef)
      | Some t =>
          match sessions !! rt_Session t with
          | None => (t, Some ErrNoSession)
          | Some sess =>
              match HeaderIdent (s_header sess) with
              | Ok id => if decide (id = default "" (rs_idents rs !! name)) then (t, None) else (t, Some ErrNoSession)
              | Err _ => (t, Some ErrNoSession)
              end
          end
      end
  end.

(** What [UpdateRef] asks of a target it is to set. *)
Definition target_held sessions (next : RefTarget) : result unit :=
  if RefTarget_IsZero next then Ok tt
  else
    match sessions !! rt_Session next with
    | None => Err ErrNoSession
    | Some s => refuse_if (bool_decide (rt_Entry next <> "") && negb (has_entry s (rt_Entry next))) ErrNoEntry
    end.
Definition target_ident sessions (next : RefTarget) : result string :=
  if RefTarget_IsZero next then Ok ""
  else match sessions !! rt_Session next with
       | Some s => HeaderIdent (s_header s)
       | None => Err ErrOther
       end.

(** The assignments of an update that changes something. *)
Definition set_ref name (next : RefTarget) (ident : string) (u : RefUpdate) (rs : refState) : refState :=
  mkRefState
    (if RefTarget_IsZero next then delete name (rs_refs rs) else <[name := next]> (rs_refs rs))
    (if RefTarget_IsZero next then delete name (rs_idents rs) else <[name := ident]> (rs_idents rs))
    (<[name := default [] (rs_logs rs !! name) ++ [u]]> (rs_logs rs)).

(** [MemoryStore.UpdateRef], past the compare: the table, or the error. *)
Definition update_ref sessions (now : Time) (rs : refState) name (cur next : RefTarget) (reason : string) : result refState :=
  target_held sessions next ;!
  let! ident := target_ident sessions next in
  if decide (cur = next) then
    refuse_if (negb (RefTarget_IsZero next) && bool_decide (default "" (rs_idents rs !! name) <> "")
               && bool_decide (default "" (rs_idents rs !! name) <> ident)) ErrNoSession ;!
    Ok rs
  else
    (if RefTarget_IsZero cur then RefConflict name (map_to_list (rs_refs rs)).*1 else Ok tt) ;!
    Ok (set_ref name next ident (mkRefUpdate name cur next (UTC now) reason) rs).

Definition UpdateRef sessions (now : Time) (rs : refState) name (expected next : RefTarget) (reason : string)
    : refState * option updateError :=
  match ValidRefName name with
  | Err err => (rs, Some (UpdateError err))
  | Ok _ =>
      let cur := lookup_target name (rs_refs rs) in
      if decide (cur <> expected) then (rs, Some (RefMovedError cur))
      else match update_ref sessions now rs name cur next reason with
           | Ok rs => (rs, None)
           | Err err => (rs, Some (UpdateError err))
           end
  end.

(** [MemoryStore.ListRefs], in name order. *)
Definition ListRefs (rs : refState) (prefix : string) : result (list Ref) :=
  ValidRefPrefix prefix ;!
  Ok ((fun n => mkRef n (lookup_target n (rs_refs rs)))
      <$> sort_strings (filter (fun n => HasPrefix n prefix = true) (map_to_list (rs_refs rs)).*1)).

(** [MemoryStore.RefLog], newest first. *)
Definition RefLog (rs : refState) name : result (list RefUpdate) :=
  ValidRefName name ;! Ok (reverse (default [] (rs_logs rs !! name))).
End Refs.
