(* ===== verification/RefsProps.v ===== *)
(** * Refs: names, updates and their log

    Names that stand beside each other differ, wherever they differ, by more
    than case, and none lies under another ([refs_portable]); an update is a
    compare-and-swap of one name ([UpdateRef_cas]), and a name's log, read from
    its start, gives the target it holds ([ref_log_replays]). *)
From S2P Require Import Prelude Entry Header Tree Verify Digest Strconv Utf8 Json Utf8Props GoStrings Refs.
Open Scope session_scope.

(** ** Names *)

Definition ascii_name (s : string) : Prop := Forall (fun c => (byte_of c < 128)%Z) (la s).

Lemma la_cons c s : la (String c s) = c :: la s.
Proof. done. Qed.

Lemma str_forall_Forall f s : str_forall f s = true <-> Forall (fun c => f c = true) (la s).
Proof.
  induction s as [|c s IH]; [by split|]. cbn [str_forall]. by rewrite andb_true_iff IH la_cons Forall_cons.
Qed.

Lemma runes_ascii c l : (byte_of c < 128)%Z -> range_runes (c :: l) = byte_of c :: range_runes l.
Proof. intros Hc. unfold range_runes. cbn [runes]. apply Z.ltb_lt in Hc. by rewrite Hc. Qed.

Definition fold_byte (c : ascii) : Z := fold_rune (byte_of c).

Lemma folded_ascii s : ascii_name s -> folded s = fold_byte <$> la s.
Proof.
  unfold ascii_name, folded. generalize (la s) as l. clear s. induction 1 as [|c l Hc _ IH]; [done|].
  rewrite runes_ascii // !fmap_cons IH. done.
Qed.

Lemma checked_all {A} (f : A -> result unit) l : check_all f l = Ok tt <-> Forall (fun x => f x = Ok tt) l.
Proof.
  induction l as [|x l IH]; [by split|]. cbn [check_all]. rewrite Forall_cons -IH.
  destruct (f x) as [[]|e]; simpl; naive_solver.
Qed.

Definition slash : ascii := "/"%char.

Lemma valid_name_segments name : ValidRefName name = Ok tt ->
  Forall (fun seg => seg <> "" /\ ascii_name seg /\ slash ∉ la seg) (Split name "/").
Proof.
  unfold ValidRefName. intros H. inv_ok. apply checked_all in H. apply (Forall_impl _ _ _ H). intros seg Hs.
  unfold valid_segment in Hs. inv_ok. bool_prop. split; [done|].
  match goal with H : str_forall _ _ = true |- _ => rename H into Hf end. apply str_forall_Forall in Hf. split.
  - apply (Forall_impl _ _ _ Hf). intros c Hc. unfold refNameChar in Hc. repeat (apply orb_true_iff in Hc as [Hc|Hc]);
      rewrite ?andb_true_iff ?Z.leb_le in Hc; try lia; apply bool_decide_eq_true in Hc as ->; vm_compute; done.
  - rewrite Forall_forall in Hf. by intros Hc%Hf.
Qed.

Definition good_segs (segs : list string) : Prop := Forall (fun seg => ascii_name seg /\ slash ∉ la seg) segs.

Lemma fold_slash c : fold_rune (byte_of c) = 47%Z -> c = slash.
Proof.
  unfold fold_rune. intros H. apply byte_inj. change (byte_of slash) with 47%Z. pose proof (byte_of_range c).
  destruct ((65 <=? byte_of c) && (byte_of c <=? 90))%Z eqn:E1; [rewrite andb_true_iff !Z.leb_le in E1; lia|].
  destruct (_ =? 383)%Z eqn:E2; [lia|]. destruct (_ =? 8490)%Z eqn:E3; lia.
Qed.

Lemma ascii_Join segs : good_segs segs -> ascii_name (Join segs).
Proof.
  unfold ascii_name, Join. induction 1 as [|x segs [Hx _] Hs IH]; [constructor|]. destruct segs as [|y segs]; [done|].
  change (String.concat "/" (x :: y :: segs)) with (x ++ "/" ++ String.concat "/" (y :: segs))%string.
  assert (forall a b, la (a ++ b)%string = la a ++ la b) as Happ.
  { clear. intros a b. induction a as [|c a IH]; [done|]. rewrite !la_cons. cbn. by rewrite IH. }
  rewrite !Happ !Forall_app. split; [done|]. split; [repeat constructor|done].
Qed.

(** Folding the names of paths of one length folds their segments. *)
Lemma folded_Join segs segs' : good_segs segs -> good_segs segs' -> length segs = length segs' ->
  folded (Join segs) = folded (Join segs') <-> map folded segs = map folded segs'.
Proof.
  intros Hs Hs' Hlen.
  assert (forall a b, la (a ++ b)%string = la a ++ la b) as Happ.
  { clear. intros a b. induction a as [|c a IH]; [done|]. rewrite !la_cons. cbn. by rewrite IH. }
  rewrite !folded_ascii; [|by apply ascii_Join..].
  assert (forall l, good_segs l -> map folded l = map (fun s => fold_byte <$> la s) l) as Hmap.
  { induction 1 as [|x l [Hx _] _ IH]; [done|]. cbn [map]. by rewrite folded_ascii // IH. }
  rewrite !Hmap //. clear Hmap. unfold Join.
  assert (forall x, slash ∉ la x -> 47%Z ∉ fold_byte <$> la x) as Hns.
  { intros x Hx (c & Hc & Hin)%list_elem_of_fmap. symmetry in Hc. apply fold_slash in Hc as ->. done. }
  assert (forall (a a' r r' : list Z), 47%Z ∉ a -> 47%Z ∉ a' -> a ++ 47%Z :: r = a' ++ 47%Z :: r' -> a = a' /\ r = r') as Hcut.
  { clear. induction a as [|z a IH]; intros [|z' a'] r r' Ha Ha' E; simplify_eq/=; try set_solver.
    destruct (IH a' r r') as [-> ->]; [set_solver..|done|done]. }
  revert segs' Hs' Hlen. induction Hs as [|x segs [_ Hx] Hs IH]; intros [|x' segs'] Hs' Hlen; try done.
  apply Forall_cons in Hs' as [[_ Hx'] Hs']. injection Hlen as Hlen. destruct segs as [|y segs], segs' as [|y' segs']; try done.
  - cbn. split; [by intros ->|by intros [= ->]].
  - change (String.concat "/" (x :: y :: segs)) with (x ++ "/" ++ String.concat "/" (y :: segs))%string.
    change (String.concat "/" (x' :: y' :: segs')) with (x' ++ "/" ++ String.concat "/" (y' :: segs'))%string.
    rewrite !Happ !fmap_app. cbn [map]. specialize (IH (y' :: segs') Hs' Hlen). cbn [map] in IH. split.
    + intros E. apply Hcut in E as [-> E]; [|by apply Hns..]. f_equal. by apply IH.
    + intros [= -> E1 E2]. f_equal. f_equal. apply IH. by rewrite E1 E2.
Qed.

(** Two names beside each other: paths of them that are the same but for case
    are the same, and neither is under the other. *)
Definition portable (a b : string) : Prop :=
  forall p q, p `prefix_of` Split a "/" -> q `prefix_of` Split b "/" -> map folded p = map folded q ->
    p = q /\ (p = Split a "/" <-> p = Split b "/").

Lemma differs_false segs osegs : differs_in_case segs osegs = false ->
  forall n, n <= length segs -> n <= length osegs ->
  map folded (take n segs) = map folded (take n osegs) -> take n segs = take n osegs.
Proof.
  revert osegs. induction segs as [|x segs IH]; intros osegs Hd n Hn Hn' E; [by destruct n; [|simpl in Hn; lia]|].
  destruct osegs as [|y osegs]; [by destruct n|]. destruct n as [|n]; [done|]. cbn [take map] in *. injection E as E1 E2.
  cbn [differs_in_case] in Hd. destruct (decide (x = y)) as [->|].
  - f_equal. apply IH; [done|simpl in *; lia..|done].
  - unfold EqualFold in Hd. bool_prop. done.
Qed.

Lemma good_take n segs : good_segs segs -> good_segs (take n segs).
Proof. apply Forall_take. Qed.

Lemma conflicts_portable a b : a <> b -> good_segs (Split a "/") -> good_segs (Split b "/") ->
  conflicts a b = Ok tt -> portable a b.
Proof.
  intros Hne Ha Hb. unfold conflicts. rewrite decide_False; [|by intros ->]. intros H. inv_ok.
  intros p q [pa Hp] [qb Hq] E. set (sa := Split a "/") in *. set (sb := Split b "/") in *.
  assert (length p = length q) as Hlen by (by rewrite -(length_map folded p) E length_map).
  match goal with H : differs_in_case _ _ = false |- _ => rename H into Hd end.
  match goal with H : _ && _ = false |- _ => rename H into Hu end.
  assert (p = take (length p) sa /\ q = take (length p) sb) as [Etp Etq].
  { split; [by rewrite Hp take_app_length|by rewrite Hlen Hq take_app_length]. }
  assert (p = q) as <-.
  { rewrite Etp Etq. apply (differs_false sa sb Hd); [rewrite Hp length_app; lia|rewrite Hq length_app Hlen; lia|].
    by rewrite -Etp -Etq. }
  split; [done|].
  assert (length sa <> length sb -> Join (take (Nat.min (length sa) (length sb)) sa) = Join (take (Nat.min (length sa) (length sb)) sb) -> False) as Hno.
  { intros Hl Ej. rewrite bool_decide_eq_true_2 // in Hu. cbn in Hu. unfold EqualFold in Hu. rewrite Ej bool_decide_eq_true_2 // in Hu. }
  split; intros Ep.
  - rewrite Ep in Hq. destruct qb as [|y qb]; [by rewrite app_nil_r in Hq; rewrite Ep|]. exfalso. apply Hno.
    + rewrite Hq length_app /=. lia.
    + rewrite Hq length_app Nat.min_l; [|lia]. by rewrite take_ge // take_app_length.
  - rewrite Ep in Hp. destruct pa as [|y pa]; [by rewrite app_nil_r in Hp; rewrite Ep|]. exfalso. apply Hno.
    + rewrite Hp length_app /=. lia.
    + rewrite Hp length_app Nat.min_r; [|lia]. by rewrite (take_ge sb) // take_app_length.
Qed.

(** ** The table *)

Section Table.
Context {OR : OpenResponses} {SH : SHA256} {HJ : HeaderJSON}.
Implicit Types (rs : refState) (sessions : gmap string Session).

(** The tables the updates make, whatever the sessions at each. *)
Inductive updated : refState -> Prop :=
  | up_none : updated no_refs
  | up_step sessions now rs name expected next reason rs' err : updated rs ->
      UpdateRef sessions now rs name expected next reason = (rs', err) -> updated rs'.

(** One name's updates, from the target they start at to the one they end at. *)
Inductive replays (name : string) : RefTarget -> list RefUpdate -> RefTarget -> Prop :=
  | rp_nil t : replays name t [] t
  | rp_cons t us t' u : ru_Name u = name -> ru_Old u = t -> ru_New u <> t -> replays name (ru_New u) us t' ->
      replays name t (u :: us) t'.

Lemma replays_snoc name t us t' u : replays name t us t' -> ru_Name u = name -> ru_Old u = t' -> ru_New u <> t' ->
  replays name t (us ++ [u]) (ru_New u).
Proof.
  induction 1 as [|t us t' v Hn Ho Hc _ IH]; intros Hu Hold Hnew; cbn [app].
  - econstructor; [done..|constructor].
  - econstructor; auto.
Qed.

Record table_ok rs : Prop := {
  to_names name : is_Some (rs_refs rs !! name) -> ValidRefName name = Ok tt;
  to_apart a b : is_Some (rs_refs rs !! a) -> is_Some (rs_refs rs !! b) -> a <> b -> portable a b;
  to_idents name : is_Some (rs_idents rs !! name) <-> is_Some (rs_refs rs !! name);
  to_targets name t : rs_refs rs !! name = Some t -> t <> no_target;
  to_logs name : replays name no_target (default [] (rs_logs rs !! name)) (lookup_target name (rs_refs rs))
}.

Lemma portable_sym a b : portable a b -> portable b a.
Proof. intros H p q Hp Hq E. destruct (H q p Hq Hp ltac:(by symmetry)) as [-> Hiff]. done. Qed.

Lemma segs_good name : ValidRefName name = Ok tt -> good_segs (Split name "/").
Proof. intros H%valid_name_segments. apply (Forall_impl _ _ _ H). tauto. Qed.

Lemma no_conflict name rs : ValidRefName name = Ok tt -> (forall b, is_Some (rs_refs rs !! b) -> ValidRefName b = Ok tt) ->
  RefConflict name (map_to_list (rs_refs rs)).*1 = Ok tt ->
  forall b, is_Some (rs_refs rs !! b) -> b <> name -> portable name b.
Proof.
  intros Hv Hvs Hc b [t Hb] Hne. apply checked_all in Hc. rewrite Forall_forall in Hc.
  apply conflicts_portable; [done|by apply segs_good|apply segs_good, Hvs; by eexists|]. apply Hc.
  apply list_elem_of_fmap. exists (b, t). split; [done|]. by apply elem_of_map_to_list.
Qed.

Lemma IsZero_spec t : RefTarget_IsZero t = true <-> t = no_target.
Proof. apply bool_decide_eq_true. Qed.

(** An update that changes something keeps the table's invariant. *)
Lemma set_ref_ok rs name next ident u : table_ok rs -> ValidRefName name = Ok tt ->
  (lookup_target name (rs_refs rs) = no_target -> RefConflict name (map_to_list (rs_refs rs)).*1 = Ok tt) ->
  lookup_target name (rs_refs rs) <> next -> ru_Name u = name -> ru_Old u = lookup_target name (rs_refs rs) -> ru_New u = next ->
  table_ok (set_ref name next ident u rs).
Proof.
  intros [Hn Ha Hi Ht Hl] Hv Hc Hne Hu Ho Hnew.
  assert (forall k, is_Some (rs_refs (set_ref name next ident u rs) !! k) -> k = name \/ is_Some (rs_refs rs !! k)) as Hin.
  { intros k. unfold set_ref. cbn [rs_refs]. destruct (decide (k = name)) as [->|Hk]; [by left|]. right.
    destruct (RefTarget_IsZero next); [rewrite lookup_delete_ne in H|rewrite lookup_insert_ne in H]; done. }
  assert (forall b, is_Some (rs_refs rs !! b) -> b <> name -> portable name b) as Hname.
  { intros b Hb Hbn. destruct (rs_refs rs !! name) as [t|] eqn:E.
    - apply Ha; [by rewrite E|done|done].
    - apply (no_conflict name rs Hv Hn); [|done..]. apply Hc. unfold lookup_target. by rewrite E. }
  split.
  - intros k [->|Hk]%Hin; [done|by apply Hn].
  - intros a b [->|Hka]%Hin [->|Hkb]%Hin Hab; [done|by apply Hname|apply portable_sym, Hname; done|by apply Ha].
  - intros k. unfold set_ref. cbn [rs_refs rs_idents]. destruct (RefTarget_IsZero next).
    + rewrite !lookup_delete_is_Some. by rewrite Hi.
    + rewrite !lookup_insert_is_Some. by rewrite Hi.
  - intros k t. unfold set_ref. cbn [rs_refs]. destruct (RefTarget_IsZero next) eqn:Hz.
    + intros [_ Hk]%lookup_delete_Some. by apply Ht in Hk.
    + intros [[<- <-]|[_ Hk]]%lookup_insert_Some; [|by apply Ht in Hk]. intros Hno%IsZero_spec. congruence.
  - intros k. unfold set_ref, lookup_target. cbn [rs_refs rs_logs]. destruct (decide (k = name)) as [->|Hk].
    + rewrite lookup_insert_eq. cbn [default].
      assert (default no_target ((if RefTarget_IsZero next then delete name (rs_refs rs) else <[name := next]> (rs_refs rs)) !! name) = ru_New u) as ->.
      { rewrite Hnew. destruct (RefTarget_IsZero next) eqn:Hz; [rewrite lookup_delete_eq; symmetry; by apply IsZero_spec|by rewrite lookup_insert_eq]. }
      eapply replays_snoc; [apply Hl|done|done|]. rewrite Hnew. by intros ->.
    + rewrite lookup_insert_ne //. specialize (Hl k). unfold lookup_target in Hl.
      destruct (RefTarget_IsZero next); [by rewrite lookup_delete_ne|by rewrite lookup_insert_ne].
Qed.

Lemma UpdateRef_table sessions now rs name expected next reason rs' err : table_ok rs ->
  UpdateRef sessions now rs name expected next reason = (rs', err) -> table_ok rs'.
Proof.
  intros Hok. unfold UpdateRef. destruct (ValidRefName name) as [[]|] eqn:Hv; [|by intros [= <- <-]].
  destruct (decide _) as [|_]; [by intros [= <- <-]|]. destruct (update_ref _ _ _ _ _ _ _) as [rs1|] eqn:Hup; intros [= <- <-]; [|done].
  unfold update_ref in Hup. inv_ok. destruct (decide _) as [Heq|Hne]; inv_ok; [done|].
  apply set_ref_ok; try done. intros Hz. match goal with H : (if _ then _ else _) = Ok tt |- _ => rename H into Hc end.
  by rewrite Hz in Hc.
Qed.

Lemma updated_ok rs : updated rs -> table_ok rs.
Proof.
  induction 1 as [|sessions now rs name expected next reason rs' err _ IH Hup]; [|by eapply UpdateRef_table].
  split; cbn [no_refs rs_refs rs_idents rs_logs].
  - intros name [t Ht]. by rewrite lookup_empty in Ht.
  - intros a b [t Ht]. by rewrite lookup_empty in Ht.
  - intros name. rewrite !lookup_empty. by split; intros [t Ht].
  - intros name t. by rewrite lookup_empty.
  - intros name. unfold lookup_target. rewrite !lookup_empty. constructor.
Qed.

(** C19: Of any updates made on a table that began empty, at whatever sessions the
    store then held, each name's log, from no target, gives the target the name
    holds, every update going from what the last left to something else; and the
    names held are valid, the paths of any two being the same where they differ
    only in case and neither name a path of the other. *)
Theorem updated_table rs : updated rs ->
  (forall name, replays name no_target (default [] (rs_logs rs !! name)) (lookup_target name (rs_refs rs))) /\
  (forall a b, is_Some (rs_refs rs !! a) -> is_Some (rs_refs rs !! b) -> a <> b ->
     ValidRefName a = Ok tt /\ portable a b).
Proof.
  intros [Hn Ha _ _ Hl]%updated_ok. split; [done|]. intros a b Hra Hrb Hab. split; [by apply Hn|by apply Ha].
Qed.

(** What a name resolves to is the target it holds, whatever comes with it. *)
Lemma ResolveRef_target sessions rs name : ValidRefName name = Ok tt ->
  (ResolveRef sessions rs name).1 = lookup_target name (rs_refs rs).
Proof.
  intros Hv. unfold ResolveRef, lookup_target. rewrite Hv. destruct (rs_refs rs !! name) as [t|]; [|done].
  destruct (sessions !! rt_Session t) as [sess|]; [|done]. destruct (HeaderIdent _); [|done]. by destruct (decide _).
Qed.

(** A ref just set resolves. *)
Lemma set_ref_resolves sessions rs name next ident u : ValidRefName name = Ok tt -> target_ident sessions next = Ok ident ->
  next <> no_target -> ResolveRef sessions (set_ref name next ident u rs) name = (next, None).
Proof.
  intros Hv Hident Hnz. destruct (RefTarget_IsZero next) eqn:Hz; [by apply IsZero_spec in Hz|]. unfold ResolveRef, set_ref.
  rewrite Hv Hz. cbn [rs_refs rs_idents]. rewrite !lookup_insert_eq. unfold target_ident in Hident. rewrite Hz in Hident.
  destruct (sessions !! rt_Session next) as [sess|]; [|done]. rewrite Hident. cbn. by rewrite decide_True.
Qed.

(** An update that succeeds, taken apart. *)
Lemma UpdateRef_done sessions now rs name expected next reason rs' :
  UpdateRef sessions now rs name expected next reason = (rs', None) ->
  ValidRefName name = Ok tt /\ lookup_target name (rs_refs rs) = expected /\
  ((expected = next /\ rs' = rs) \/
   (expected <> next /\ exists ident, target_ident sessions next = Ok ident /\
      rs' = set_ref name next ident (mkRefUpdate name expected next (UTC now) reason) rs)).
Proof.
  unfold UpdateRef. destruct (ValidRefName name) as [[]|] eqn:Hv; [|done].
  destruct (decide (lookup_target name (rs_refs rs) <> expected)) as [|Heq]; [done|]. apply dec_stable in Heq.
  destruct (update_ref _ _ _ _ _ _ _) as [rs1|e] eqn:Hup; [|done]. intros [= <-]. split; [done|]. split; [done|].
  rewrite Heq in Hup. unfold update_ref in Hup. inv_ok. destruct (decide _) as [Heq'|Hne]; inv_ok; [by left|right].
  split; [done|]. by eexists.
Qed.

(** An update that fails changes nothing, and fails with the target the ref holds
    exactly when that is not the expected one. *)
Lemma UpdateRef_failed sessions now rs name expected next reason rs' e :
  UpdateRef sessions now rs name expected next reason = (rs', Some e) -> rs' = rs /\
  (forall cur, e = RefMovedError cur <->
     ValidRefName name = Ok tt /\ cur = lookup_target name (rs_refs rs) /\ cur <> expected).
Proof.
  unfold UpdateRef. destruct (ValidRefName name) as [[]|] eqn:Hv.
  2:{ intros [= <- <-]. split; [done|]. intros cur. split; [done|]. by intros (? & _). }
  destruct (decide (lookup_target name (rs_refs rs) <> expected)) as [Hne|Heq].
  { intros [= <- <-]. split; [done|]. intros cur. split; [by intros [= <-]|]. by intros (_ & -> & _). }
  apply dec_stable in Heq. destruct (update_ref _ _ _ _ _ _ _) as [rs1|err] eqn:Hup; intros [= <- <-].
  split; [done|]. intros cur. split; [done|]. by intros (_ & -> & Hne).
Qed.

(** C20: An update compares and swaps: it fails with the target the ref holds exactly
    when that is not the expected one, and changes nothing when it fails; when it
    does not, the ref held the expected target and now holds the next, which
    resolves, no other ref and no other log has changed, and its log has one
    update more unless the two are the same. *)
Theorem UpdateRef_cas sessions now rs name expected next reason rs' err :
  UpdateRef sessions now rs name expected next reason = (rs', err) ->
  match err with
  | Some e => rs' = rs /\
      (forall cur, e = RefMovedError cur <->
         ValidRefName name = Ok tt /\ cur = lookup_target name (rs_refs rs) /\ cur <> expected)
  | None =>
      lookup_target name (rs_refs rs) = expected /\ lookup_target name (rs_refs rs') = next /\
      (forall other, other <> name -> rs_refs rs' !! other = rs_refs rs !! other /\ rs_logs rs' !! other = rs_logs rs !! other) /\
      (expected <> next -> exists u, ru_Old u = expected /\ ru_New u = next /\
         rs_logs rs' !! name = Some (default [] (rs_logs rs !! name) ++ [u]) /\
         (next <> no_target -> ResolveRef sessions rs' name = (next, None))) /\
      (expected = next -> rs' = rs)
  end.
Proof.
  destruct err as [e|]; [apply UpdateRef_failed|]. intros (Hv & Heq & [[-> ->]|(Hne & ident & Hident & ->)])%UpdateRef_done; [by split_and!|].
  split; [done|]. unfold lookup_target, set_ref at 1 2. cbn [rs_refs rs_logs]. split.
  { destruct (RefTarget_IsZero next) eqn:Hz; [rewrite lookup_delete_eq; symmetry; by apply IsZero_spec|by rewrite lookup_insert_eq]. }
  split.
  { intros other Ho. rewrite lookup_insert_ne //. split; [|done].
    destruct (RefTarget_IsZero next); [by rewrite lookup_delete_ne|by rewrite lookup_insert_ne]. }
  split; [|by intros ?]. intros _. exists (mkRefUpdate name expected next (UTC now) reason).
  split; [done|]. split; [done|]. split; [by rewrite lookup_insert_eq|]. by apply set_ref_resolves.
Qed.
End Table.
