(* ===== verification/Blob.v ===== *)
(** * Sidecar media ([blob.go])

    Media types as a store keeps them, the blobs entries name, and a session's
    sidecar directory.  The directory is a function from a file's name to what
    [fs.ReadFile] gives, [fs.ErrNotExist] being [ErrNotExist]. *)
From S2P Require Import Prelude Entry Header Tree Digest Context Hash Session Strconv Json GoStrings.
Open Scope session_scope.

(** ** Media types *)

Definition DefaultMediaType : string := "application/octet-stream".
Definition MaxMediaTypeLen : nat := 1024.

(** [isToken]. *)
Definition tspecials : list ascii := la "()<>@,;:\/[]?=" ++ ["034"%char].
Definition token_char (c : ascii) : bool :=
  ((32 <? byte_of c) && (byte_of c <? 127))%Z && bool_decide (c ∉ tspecials).
Definition isToken (s : string) : bool := bool_decide (s <> "") && str_forall token_char s.

(** [a] and [b] of [a], the separator, [b], both tokens. *)
Definition tokens_at (s : string) (sep : ascii) : bool :=
  match Cut s sep with Some (a, b) => isToken a && isToken b | None => false end.

Definition BlobMediaType (t : string) : result string :=
  if bool_decide (t = "") || EqualFold t DefaultMediaType then Ok ""
  else
    refuse_if (MaxMediaTypeLen <? String.length t) ErrBadMediaType ;!
    match Split t ";" with
    | [] => Err ErrBadMediaType
    | typ :: params =>
        refuse_if (negb (tokens_at typ "/")) ErrBadMediaType ;!
        refuse_if (negb (forallb (fun p => tokens_at p "=") params)) ErrBadMediaType ;!
        Ok t
    end.

(** [CheckBlobTypes]: the types, by hash, of those that give one.  A range over
    a map meets its keys in any order, so which of two errors is returned is
    open; here the one of the key that comes first in the list. *)
Fixpoint check_types (types : list (string * string)) (out : gmap string string) : result (gmap string string) :=
  match types with
  | [] => Ok out
  | (h, t) :: types =>
      refuse_if (negb (ValidHash h)) ErrOther ;!
      let! mt := BlobMediaType t in
      check_types types (if decide (mt <> "") then <[h := mt]> out else out)
  end.
Definition CheckBlobTypes (types : gmap string string) : result (gmap string string) := check_types (map_to_list types) ∅.

(** ** The blobs entries name *)

(** [sidecarRefs]: a hash after ["sidecar:"]. *)
Definition match_sidecar (l : list ascii) : option string :=
  match strip_word (la "sidecar:") l with
  | None => None
  | Some r =>
      let h := take (7 + 64) r in
      if ValidHash (string_of_list_ascii h) then Some (string_of_list_ascii h) else None
  end.

(** [FindAll]: from left to right, none inside another; [skip] bytes of the last
    match are still to be passed over. *)
Fixpoint find_sidecar (skip : nat) (l : list ascii) : list string :=
  match l with
  | [] => []
  | _ :: l' =>
      match skip with
      | S skip => find_sidecar skip l'
      | O => match match_sidecar l with
             | Some h => h :: find_sidecar (8 + String.length h - 1) l'
             | None => find_sidecar 0 l'
             end
      end
  end.

(** Each once, where it first appears. *)
Fixpoint once (seen : gset string) (l : list string) : list string :=
  match l with
  | [] => []
  | x :: l => if decide (x ∈ seen) then once seen l else x :: once ({[x]} ∪ seen) l
  end.

Section Blobs.
Context {OR : OpenResponses} {SH : SHA256} {EC : EntryCodec}.

Definition SidecarBlobs (e : Entry) : result (list string) :=
  let! line := MarshalEntry e in Ok (once ∅ (find_sidecar 0 (la line))).

Fixpoint entries_blobs (es : list Entry) : result (list string) :=
  match es with
  | [] => Ok []
  | e :: es => let! bs := SidecarBlobs e in let! rest := entries_blobs es in Ok (bs ++ rest)
  end.
Definition SessionBlobs (s : Session) : result (list string) :=
  let! bs := entries_blobs (s_entries s) in Ok (once ∅ bs).

(** ** A session's sidecar directory *)

Definition media_dir : Type := option (string -> result string).

(** [strings.TrimPrefix(hash, HashPrefix)] of a hash. *)
Definition digest_of (hash : string) : string := substring (String.length HashPrefix) 64 hash.
Definition SidecarTypeName (hash : string) : string := (digest_of hash ++ ".type")%string.

Definition ReadSidecarBlob (media : media_dir) (hash : string) : result string :=
  refuse_if (negb (ValidHash hash)) ErrOther ;!
  match media with
  | None => Err ErrNotExist
  | Some ReadFile =>
      let! data := ReadFile (digest_of hash) in
      refuse_if (bool_decide (HashBytes data <> hash)) ErrBlobMismatch ;! Ok data
  end.

(** [strings.TrimSuffix] of one line feed. *)
Definition trim_newline (s : string) : string :=
  if decide (last_byte s = Some "010"%char) then substring 0 (String.length s - 1) s else s.

Definition ReadSidecarType (media : media_dir) (hash : string) : result string :=
  refuse_if (negb (ValidHash hash)) ErrOther ;!
  match media with
  | None => Ok ""
  | Some ReadFile =>
      match ReadFile (SidecarTypeName hash) with
      | Err err => if decide (err = ErrNotExist) then Ok "" else Err err
      | Ok data => BlobMediaType (trim_newline data)
      end
  end.
End Blobs.
