(* ===== verification/Store.v ===== *)
(** * Stores, and the one in memory ([store.go], [redactedstore.go],
    [import.go], [origin.go], [internal/origin])

    The store's state is every map [MemoryStore] guards with its locks; an
    operation runs under them, and is a function of the state.  A fork's origin is
    picked under one hold of the lock and used under a later one, so what the
    store holds at each is an argument of its own. *)
From S2P Require Import Prelude Entry Header Tree Leaf Calls CallRules Runs Verify Omit Digest Settings Context Hash Session Codec GoStrings Refs Blob.
Open Scope session_scope.

(** ** The caller's context ([readable.go]) *)

(** What an operation reads of its [context.Context]: [ctx.Err()], and the filter
    [ReadableIn] returns. *)
Record context := mkContext { ctx_Err : result unit; ReadableIn : string -> bool }.

(** ** Origins of forks ([internal/origin]) *)

Module Origin.
Record Candidates := mkCandidates {
  Chain : list string;
  Ends : bool;
  Owners : list string;
  OnPrefix : list string
}.

Section Pick.
Variable readable : string -> bool.

(** The sessions asked about, newest first; an answer is kept and not asked for
    again. *)
Definition ask (id : string) (asked : list string) : bool * list string :=
  (readable id, if decide (id ∈ asked) then asked else id :: asked).

(** Up the chain, to its end. *)
Fixpoint pick_chain (ends : bool) (chain asked : list string) : option string * list string :=
  match chain with
  | [] => (None, asked)
  | id :: chain =>
      let (ok, asked) := ask id asked in
      if negb ok then (None, asked)
      else if bool_decide (chain = []) && ends then (Some id, asked)
      else pick_chain ends chain asked
  end.
Fixpoint pick_first (ids asked : list string) : option string * list string :=
  match ids with
  | [] => (None, asked)
  | id :: ids => let (ok, asked) := ask id asked in if ok then (Some id, asked) else pick_first ids asked
  end.

(** [Candidates.Pick]: the origin, [""] for none, and whom it asked about. *)
Definition Pick (c : Candidates) : string * list string :=
  match pick_chain (Ends c) (Chain c) [] with
  | (Some id, asked) => (id, asked)
  | (None, asked) =>
      match pick_first (Owners c) asked with
      | (Some id, asked) => (id, asked)
      | (None, asked) => let (r, asked) := pick_first (OnPrefix c) asked in (default "" r, asked)
      end
  end.
End Pick.
End Origin.

(** ** Filters and summaries *)

Definition After (t u : Time) : bool := (t_nanos u <? t_nanos t)%Z.
Definition Before (t u : Time) : bool := (t_nanos t <? t_nanos u)%Z.

Record ListFilter := mkListFilter {
  lf_CWD : string;
  lf_ParentSession : string;
  lf_Harness : string;
  lf_Extra : gmap string RawMessage;
  lf_TopLevel : bool;
  lf_After : Time;
  lf_Before : Time;
  lf_Limit : Z;
  lf_WithNames : bool;
  lf_Current : bool
}.

Record Summary := mkSummary {
  su_Header : Header;
  su_Name : string;
  su_SupersededBy : string;
  su_Path : string;
  su_Size : Z;
  su_Modified : Time
}.

(** The decoders of the members a store reads. *)
Class StoreCodec := {
  (* json.Unmarshal into a RedactedFrom, into a bool *)
  UnmarshalRedactedFrom : RawMessage -> option RedactedFrom;
  UnmarshalBool : RawMessage -> option bool
}.

Section Store.
Context {OR : OpenResponses} {IC : ItemContent} {ND : NameDecoding} {CA : Canonicaliser} {SH : SHA256}
  {JT : JSONTools} {EC : EntryCodec} {HJ : HeaderJSON} {LC : LineCodec} {SC : StoreCodec}.
Implicit Types (s : Session) (e : Entry) (h : Header).

Definition sameCanonical (a b : RawMessage) : bool :=
  match Transform a, Transform b with Some ca, Some cb => bool_decide (ca = cb) | _, _ => false end.

Definition Matches (f : ListFilter) h : bool :=
  (bool_decide (lf_CWD f = "") || bool_decide (h_CWD h = lf_CWD f))
  && (bool_decide (lf_ParentSession f = "") || bool_decide (h_ParentSession h = lf_ParentSession f))
  && (bool_decide (lf_Harness f = "")
      || match h_Harness h with Some hn => bool_decide (hn_Name hn = lf_Harness f) | None => false end)
  && negb (lf_TopLevel f && bool_decide (h_SpawnedBy h <> ""))
  && forallb (fun kv => match h_Extra h !! kv.1 with Some got => sameCanonical kv.2 got | None => false end)
       (map_to_list (lf_Extra f))
  && (IsZero_time (lf_After f) || After (h_CreatedAt h) (lf_After f))
  && (IsZero_time (lf_Before f) || Before (h_CreatedAt h) (lf_Before f)).

Definition Keep (f : ListFilter) (sum : Summary) : bool :=
  Matches f (su_Header sum) && negb (lf_Current f && bool_decide (su_SupersededBy sum <> "")).

(** ** What a store refuses ([redactedstore.go], [import.go]) *)

Definition extraRedactedFrom h : option RedactedFrom :=
  match h_Extra h !! "redacted_from" with
  | None => None
  | Some raw =>
      if definesRedactedFrom (if decide (h_Format h = "") then Format else h_Format h)
      then UnmarshalRedactedFrom raw else None
  end.

Definition CheckCreate h (redactedOnly : bool) : result unit :=
  let r := match h_RedactedFrom h with Some r => Some r | None => extraRedactedFrom h end in
  match r with
  | Some r =>
      if negb (h_Redacted h) then Err ErrRedactedFrom
      else if decide (rf_Session r = "") then Err ErrRedactedFrom
      else if decide (h_ID h <> "" /\ rf_Session r = h_ID h) then Err ErrRedactedFrom
      else refuse_if (redactedOnly && negb (h_Redacted h)) ErrNotRedacted
  | None => refuse_if (redactedOnly && negb (h_Redacted h)) ErrNotRedacted
  end.

Definition HeadMove e (holds : string -> bool) : bool :=
  match e with
  | ELabel l =>
      bool_decide (le_Label l = Some LeafLabel) && holds (le_Target l)
      && (bool_decide (le_Target l = "") || ValidHash (le_Target l))
      && bool_decide (Unknown (le_Base l) = ∅) && bool_decide (Parents (le_Base l) = [])
      && bool_decide (LegacyID (le_Base l) = "") && bool_decide (length (Normalised (le_Base l)) = 0)
  | _ => false
  end.

(** The entries a head move's target may name: those given, and the session's. *)
Definition holds_id h (entries : list Entry) (s : option Session) (id : string) : bool :=
  if decide (id = "") then bool_decide (h_Base h = "")
  else bool_decide (id ∈ (eid <$> entries)) || match s with Some s => has_entry s id | None => false end.

Definition checkRedacted h (entries : list Entry) (s : option Session) : result unit :=
  refuse_if (negb (h_Redacted h)) ErrNotRedacted ;!
  check_all (fun e => refuse_if (negb (HeadMove e (holds_id h entries s)) && bool_decide (RedactedOf e = None)) ErrNotRedacted)
    entries.
Definition CheckRedacted h (entries : list Entry) : result unit := checkRedacted h entries None.
Definition CheckRedactedIn s (entries : list Entry) : result unit := checkRedacted (s_header s) entries (Some s).

(** [FileOrder]: the prefix, then the session's own entries. *)
Definition FileOrder s : list Entry :=
  if decide (h_Base (s_header s) = "") then s_entries s
  else filter (fun e => eid e ∈ s_prefix s) (s_entries s) ++ filter (fun e => eid e ∉ s_prefix s) (s_entries s).

Definition synthetic (l : LabelEntry) : bool :=
  match Unknown (le_Base l) !! "synthetic" with
  | None => false
  | Some raw => default false (UnmarshalBool raw)
  end.

(** [ReadForImport]. *)
Definition import_entry s e : result unit :=
  refuse_if (match e with ELabel l => synthetic l | _ => false end) ErrSyntheticMarker ;!
  let base := h_Base (s_header s) in
  if decide (base = "" \/ eid e ∈ s_prefix s) then Ok tt
  else refuse_if (bool_decide (eparent e <> base) && (bool_decide (eparent e = "") || bool_decide (eparent e ∈ s_prefix s)))
         ErrBaseRule.
Definition ReadForImport (r : RawMessage) : result Session :=
  let! (s, truncated) := Read r in
  refuse_if (bool_decide (is_Some truncated)) ErrOther ;!
  refuse_if (s_migrated s && bool_decide (s_unresolved s <> [])) ErrUnresolvedMigration ;!
  check_all (import_entry s) (s_entries s) ;!
  Ok s.

Definition CheckImportMedia h (origin : option Session) : result unit :=
  match origin with
  | None => Ok tt
  | Some o => refuse_if (bool_decide (h_Base h <> "")
                         && bool_decide (mediaForm (h_Media h) <> mediaForm (h_Media (s_header o)))) ErrMediaDiffers
  end.

(** ** The store in memory *)

Record memBlob := mkMemBlob { mb_data : string; mb_mediaType : string; mb_at : Time }.

(** [ms_gen] is [memoryGen], the counter the stores of a program share; the hub
    that wakes followers is left out. *)
Record MemoryStore := mkMemoryStore {
  ms_sessions : gmap string Session;
  ms_gens : gmap string nat;
  ms_gen : nat;
  ms_refs : refState;
  ms_redactedOnly : bool;
  ms_blobs : gmap string memBlob;
  ms_blobTypes : gmap string (gmap string string)
}.
Implicit Types (m : MemoryStore) (ctx : context).

Definition NewMemoryStore (redactedOnly : bool) (gen : nat) : MemoryStore :=
  mkMemoryStore ∅ ∅ gen no_refs redactedOnly ∅ ∅.

Definition set_sessions (ss : gmap string Session) m : MemoryStore :=
  mkMemoryStore ss (ms_gens m) (ms_gen m) (ms_refs m) (ms_redactedOnly m) (ms_blobs m) (ms_blobTypes m).
Definition set_refs (rs : refState) m : MemoryStore :=
  mkMemoryStore (ms_sessions m) (ms_gens m) (ms_gen m) rs (ms_redactedOnly m) (ms_blobs m) (ms_blobTypes m).
Definition set_blobs (bs : gmap string memBlob) m : MemoryStore :=
  mkMemoryStore (ms_sessions m) (ms_gens m) (ms_gen m) (ms_refs m) (ms_redactedOnly m) bs (ms_blobTypes m).
Definition set_blobTypes (ts : gmap string (gmap string string)) m : MemoryStore :=
  mkMemoryStore (ms_sessions m) (ms_gens m) (ms_gen m) (ms_refs m) (ms_redactedOnly m) (ms_blobs m) ts.

(** A write to the session the store shares, under its id. *)
Definition put_session (id : string) s m : MemoryStore := set_sessions (<[id := s]> (ms_sessions m)) m.

(** *** Blobs *)

Definition PutTypedBlob ctx (now : Time) (data mediaType : string) m : MemoryStore * result string :=
  match (ctx_Err ctx ;! BlobMediaType mediaType) with
  | Err err => (m, Err err)
  | Ok mt =>
      let hash := HashBytes data in
      let b := match ms_blobs m !! hash with Some b => b | None => mkMemBlob data "" (mkTime 0 0) end in
      let b := mkMemBlob (mb_data b) (if decide (mb_mediaType b = "") then mt else mb_mediaType b) now in
      (set_blobs (<[hash := b]> (ms_blobs m)) m, Ok hash)
  end.
Definition PutBlob ctx (now : Time) (data : string) m : MemoryStore * result string := PutTypedBlob ctx now data "" m.

Definition TypedBlob ctx (hash : string) m : result (string * string) :=
  ctx_Err ctx ;!
  match ms_blobs m !! hash with None => Err ErrNoBlob | Some b => Ok (mb_data b, mb_mediaType b) end.
Definition Blob ctx (hash : string) m : result string := let! (data, _) := TypedBlob ctx hash m in Ok data.

(** The blobs the sessions name. *)
Fixpoint named_blobs (ss : list (string * Session)) : result (list string) :=
  match ss with
  | [] => Ok []
  | (_, s) :: ss => let! bs := SessionBlobs s in let! rest := named_blobs ss in Ok (bs ++ rest)
  end.
(** [cutoff] is the time [grace] ago. *)
Definition SweepBlobs ctx (cutoff : Time) m : MemoryStore * result nat :=
  match ctx_Err ctx with
  | Err err => (m, Err err)
  | Ok _ =>
      if negb (existsb (fun kv => Before (mb_at kv.2) cutoff) (map_to_list (ms_blobs m))) then (m, Ok 0)
      else
        match named_blobs (map_to_list (ms_sessions m)) with
        | Err err => (m, Err err)
        | Ok named =>
            let swept (kv : string * memBlob) := Before (mb_at kv.2) cutoff = true /\ kv.1 ∉ named in
            (set_blobs (filter (fun kv => ~ swept kv) (ms_blobs m)) m, Ok (size (filter swept (ms_blobs m))))
        end
  end.

Definition SetSessionBlobTypes ctx (session : string) (types : gmap string string) m : MemoryStore * result unit :=
  match (ctx_Err ctx ;! CheckBlobTypes types) with
  | Err err => (m, Err err)
  | Ok set =>
      match ms_sessions m !! session with
      | None => (m, Err ErrNoSession)
      | Some _ =>
          let held := default ∅ (ms_blobTypes m !! session) in
          (set_blobTypes (<[session := held ∪ set]> (ms_blobTypes m)) m, Ok tt)
      end
  end.
Definition SessionBlobTypes ctx (session : string) m : result (gmap string string) :=
  ctx_Err ctx ;!
  match ms_sessions m !! session with
  | None => Err ErrNoSession
  | Some _ => Ok (default ∅ (ms_blobTypes m !! session))
  end.
Definition SessionBlob ctx (session hash : string) m : result (string * string) :=
  let! (data, mt) := TypedBlob ctx hash m in
  Ok (data, default mt (default ∅ (ms_blobTypes m !! session) !! hash)).

(** *** The origin of a fork *)

(** The walk up [parent_session], 64 sessions at most: the chain, and whether it
    ends. *)
Fixpoint origin_chain (fuel : nat) (named base : string) m : list string * bool :=
  match fuel with
  | O => ([], false)
  | S fuel =>
      if decide (named = "") then ([], false)
      else
        match ms_sessions m !! named with
        | None => ([], false)
        | Some s =>
            if negb (has_entry s base) then ([], false)
            else if negb (bool_decide (base ∈ s_prefix s)) || bool_decide (h_ParentSession (s_header s) = "") then ([named], true)
            else let (chain, ends) := origin_chain fuel (h_ParentSession (s_header s)) base m in (named :: chain, ends)
        end
  end.

(** The ids of the sessions holding [base], in order, its owners or not. *)
Definition holding (base : string) (owning : bool) m : list string :=
  sort_strings (filter (fun id => match ms_sessions m !! id with
                                  | Some s => has_entry s base && bool_decide (negb (bool_decide (base ∈ s_prefix s)) = owning)
                                  | None => false
                                  end = true) (map_to_list (ms_sessions m)).*1).

Definition candidates (named base : string) m : Origin.Candidates :=
  let (chain, ends) := origin_chain 64 named base m in
  Origin.mkCandidates chain ends (holding base true m) (holding base false m).
Definition pickOrigin ctx (named base : string) m : string := (Origin.Pick (ReadableIn ctx) (candidates named base m)).1.

Definition heldOrigin (id base : string) m : option Session :=
  match ms_sessions m !! id with Some s => if has_entry s base then Some s else None | None => None end.

(** [lockOrigin]: at each try, the store as it is when the pick is made and as it
    is once the lock is taken again; [last] is the store when the lock is taken
    after the tries.  The store the lock is held on at the end is returned with
    the origin. *)
Fixpoint lockOrigin ctx (named base : string) (tries : list (MemoryStore * MemoryStore)) (last : MemoryStore)
    : MemoryStore * option Session :=
  match tries with
  | [] => (last, None)
  | (picked, locked) :: tries =>
      let id := pickOrigin ctx named base picked in
      if decide (id = "") then (locked, None)
      else match heldOrigin id base locked with
           | Some o => (locked, Some o)
           | None => lockOrigin ctx named base tries last
           end
  end.
(** The lock as [Create] and [Import] take it for a header: on the origin of a
    fork, or at once. *)
Definition acquire ctx h tries last : MemoryStore * option Session :=
  if decide (h_Base h = "") then (last, None) else lockOrigin ctx (h_ParentSession h) (h_Base h) tries last.
Definition originTries : nat := 8.

(** *** Sessions *)

(** [m.sessions[id] = s; m.gens[id] = memoryGen.Add(1)]. *)
Definition add_session (id : string) s m : MemoryStore :=
  mkMemoryStore (<[id := s]> (ms_sessions m)) (<[id := S (ms_gen m)]> (ms_gens m)) (S (ms_gen m))
    (ms_refs m) (ms_redactedOnly m) (ms_blobs m) (ms_blobTypes m).

(** [Create], once the origin of a fork is found and the lock held: [payload],
    [fresh] and [now] are what the header is filled with. *)
Definition create_locked (payload fresh : string) (now : Time) h (origin : option Session) m : MemoryStore * result Session :=
  let made :=
    if decide (h_Base h = "") then Ok (New (fill payload fresh now h))
    else
      match origin with
      | None => Err ErrNoEntry
      | Some origin =>
          let! s := Fork payload fresh now origin (h_Base h) h in
          (if ms_redactedOnly m then CheckRedacted (s_header s) (s_entries s) else Ok tt) ;!
          Ok s
      end in
  match made with
  | Err err => (m, Err err)
  | Ok s =>
      let id := h_ID (s_header s) in
      match ms_sessions m !! id with
      | Some _ => (m, Err ErrSessionExists)
      | None => (add_session id s m, Ok s)
      end
  end.
Definition Create ctx (payload fresh : string) (now : Time) (tries : list (MemoryStore * MemoryStore)) (last : MemoryStore) h
    : MemoryStore * result Session :=
  match CheckCreate h (ms_redactedOnly last) with
  | Err err => (last, Err err)
  | Ok _ => let (m, origin) := acquire ctx h tries last in create_locked payload fresh now h origin m
  end.

Definition import_locked s (origin : option Session) m : MemoryStore * result Session :=
  let h := s_header s in
  match ms_sessions m !! h_ID h with
  | Some _ => (m, Err ErrSessionExists)
  | None =>
      match (if decide (h_Base h = "") then Ok tt else CheckImportMedia h origin) with
      | Err err => (m, Err err)
      | Ok _ => (add_session (h_ID h) s m, Ok s)
      end
  end.
Definition Import ctx (r : RawMessage) (tries : list (MemoryStore * MemoryStore)) (last : MemoryStore)
    : MemoryStore * result Session :=
  match (ctx_Err ctx ;! let! s := ReadForImport r in
         (if ms_redactedOnly last then CheckRedacted (s_header s) (s_entries s) else Ok tt) ;! Ok s) with
  | Err err => (last, Err err)
  | Ok s => let (m, origin) := acquire ctx (s_header s) tries last in import_locked s origin m
  end.

Definition Open (id : string) m : result Session :=
  match ms_sessions m !! id with Some s => Ok s | None => Err ErrNoSession end.

Definition MemoryStore_Read (id : string) m : result Session :=
  let! live := Open id m in
  let! buf := Write live in
  let! (s, _) := Read buf in
  Ok s.

(** [Append]: the store, the caller's entry as it is left, and the id. *)
Definition store_Append (now : Time) (sessionID : string) e m : MemoryStore * Entry * result string :=
  match (let! s := Open sessionID m in
         (if ms_redactedOnly m then CheckRedactedIn s [e] else Ok tt) ;! Ok s) with
  | Err err => (m, e, Err err)
  | Ok s =>
      let (e, pre) := Prepare s now e in
      match (let! pre := pre in if decide (res_Outcome pre = Held) then Ok s else raiseHeader s Format) with
      | Err err => (m, e, Err err)
      | Ok s =>
          let m := put_session sessionID s m in
          match (let! b := MarshalEntry e in UnmarshalEntry b) with
          | Err err => (m, e, Err err)
          | Ok own =>
              let '(s, _, r) := Commit s now own in
              (put_session sessionID s m, e, let! r := r in Ok (res_ID r))
          end
      end
  end.

Definition SetHead ctx (now : Time) (sessionID expected to : string) m : MemoryStore * result unit :=
  match (ctx_Err ctx ;! let! s := Open sessionID m in headLabel s expected to ;! raiseHeader s Format) with
  | Err err => (m, Err err)
  | Ok s =>
      let m := put_session sessionID s m in
      match commitHead s now expected to with
      | Err err => (m, Err err)
      | Ok (s, _) => (put_session sessionID s m, Ok tt)
      end
  end.

(** [List], the sessions met in the order [range] has them; [sort.Slice] leaves
    those made at one time in an order of its own, here that of [range]. *)
Definition summary_of s : Summary :=
  mkSummary (s_header s) (Name s) (SupersededBy s) "" 0 (mkTime 0 0).
Fixpoint insert_newest (x : Summary) (l : list Summary) : list Summary :=
  match l with
  | [] => [x]
  | y :: l' => if After (h_CreatedAt (su_Header x)) (h_CreatedAt (su_Header y)) then x :: l else y :: insert_newest x l'
  end.
Definition newest_first (l : list Summary) : list Summary := foldl (fun acc x => insert_newest x acc) [] l.
Definition store_List (range : list (string * Session)) (f : ListFilter) : list Summary :=
  let out := newest_first (filter (fun sum => Keep f sum = true) ((fun kv => summary_of kv.2) <$> range)) in
  if decide (0 < lf_Limit f < Z.of_nat (length out))%Z then take (Z.to_nat (lf_Limit f)) out else out.

Definition Delete (id : string) m : MemoryStore * result unit :=
  match ms_sessions m !! id with
  | None => (m, Err ErrNoSession)
  | Some _ => (mkMemoryStore (delete id (ms_sessions m)) (delete id (ms_gens m)) (ms_gen m) (ms_refs m)
                 (ms_redactedOnly m) (ms_blobs m) (delete id (ms_blobTypes m)), Ok tt)
  end.

(** *** Refs *)

Definition store_ResolveRef (name : string) m : RefTarget * option error := ResolveRef (ms_sessions m) (ms_refs m) name.
Definition store_UpdateRef (now : Time) (name : string) (expected next : RefTarget) (reason : string) m
    : MemoryStore * option updateError :=
  let (rs, err) := UpdateRef (ms_sessions m) now (ms_refs m) name expected next reason in (set_refs rs m, err).

(** ** The dispatches of a call in a fork's prefix ([origin.go]) *)

Definition MaxOriginDepth : nat := 64.

(** [OriginDispatches] from the session [s], [depth] forks up; [reader] is the
    store, [None] for nil.  The depth is bounded, so [S MaxOriginDepth] turns are
    enough fuel. *)
Fixpoint origin_dispatches (fuel : nat) (reader : option (string -> result Session)) (callEntry : string)
    (visited : gset string) (depth : nat) s : result (option (Session * list DispatchEntry)) :=
  match fuel with
  | O => Err ErrOther
  | S fuel =>
      let ds := Dispatches s callEntry in
      if decide (ds <> []) then Ok (Some (s, ds))
      else
        match reader with
        | None => Ok None
        | Some read =>
            if negb (bool_decide (callEntry ∈ s_prefix s)) then Ok None
            else
              let h := s_header s in
              if decide (h_ParentSession h = "") then Ok None
              else
                let visited := {[h_ID h]} ∪ visited in
                refuse_if (bool_decide (h_ParentSession h ∈ visited)) ErrOriginChain ;!
                refuse_if (MaxOriginDepth <=? depth) ErrOriginChain ;!
                match read (h_ParentSession h) with
                | Err err => if decide (err = ErrNoSession) then Ok None else Err err
                | Ok origin => origin_dispatches fuel reader callEntry visited (S depth) origin
                end
        end
  end.
Definition OriginDispatches (reader : option (string -> result Session)) s (callEntry : string)
    : result (option (Session * list DispatchEntry)) :=
  origin_dispatches (S MaxOriginDepth) reader callEntry ∅ 0 s.
End Store.
