(* ===== verification/StoreProps.v ===== *)
(** * The store in memory holds what its operations say

    Every session is filed under its own id, is a tree named by hashes, and has a
    generation no other has; every blob is filed under its hash; the refs obey
    their rules ([store_run_ok]).  The origin of a fork is a session the store
    holds while it makes the fork, and one is found unless eight deletions come
    in between ([lockOrigin_held], [lockOrigin_finds]). *)
From S2P Require Import Prelude Entry Header Tree Leaf TreeWf LeafLemmas Calls CallRules Runs Verify Omit Digest Settings Context Hash Session.
From S2P Require Import SessionProps Codec CodecProps GoStrings Refs RefsProps Blob Store.
Open Scope session_scope.

Section StoreProps.
Context {OR : OpenResponses} {IC : ItemContent} {ND : NameDecoding} {CA : Canonicaliser} {SH : SHA256}
  {JT : JSONTools} {EC : EntryCodec} {ECL : EntryCodecLaws} {HJ : HeaderJSON} {LC : LineCodec} {SC : StoreCodec}.
Implicit Types (s : Session) (e : Entry) (h : Header) (m : MemoryStore).

(** ** The session operations keep what the store relies on *)

(** A session grown from another: its header names the same session, and its
    entries begin with the other's. *)
Record grown s s' : Prop := {
  gr_sound : sound s';
  gr_id : h_ID (s_header s') = h_ID (s_header s);
  gr_base : h_Base (s_header s') = h_Base (s_header s);
  gr_redacted : h_Redacted (s_header s') = h_Redacted (s_header s);
  gr_prefix : s_prefix s' = s_prefix s;
  gr_entries : s_entries s `prefix_of` s_entries s'
}.

Lemma grown_refl s : sound s -> grown s s.
Proof. by split. Qed.

Lemma grown_trans s1 s2 s3 : grown s1 s2 -> grown s2 s3 -> grown s1 s3.
Proof. intros [] []. split; try done; [congruence..|]. by etrans. Qed.

Lemma grown_set_leaf s l : sound s -> grown s (set_leaf l s).
Proof. intros Hs. split; try done. by apply sound_set_leaf. Qed.

Lemma grown_moveLeafFor s e : sound s -> grown s (moveLeafFor s e).
Proof.
  intros Hs. unfold moveLeafFor.
  repeat case_match; try (by apply grown_refl); by apply grown_set_leaf.
Qed.

Lemma grown_add s e r : sound s -> accepted s e r -> res_Outcome r <> Held -> grown s (add s e).
Proof.
  intros Hs Ha Ho. split; try (unfold add; cbn [s_header]; by destruct (_ && _ && _)).
  - by eapply sound_add.
  - by eexists.
Qed.

Lemma grown_commit s e r : sound s -> accepted s e r -> res_Outcome r <> Held -> grown s (moveLeafFor (add s e) e).
Proof. intros Hs Ha Ho. pose proof (grown_add _ _ _ Hs Ha Ho) as Hg. eapply grown_trans; [done|]. apply grown_moveLeafFor, Hg. Qed.

Lemma Commit_grown s now e s' e' r : sound s -> Commit s now e = (s', e', r) -> grown s s'.
Proof.
  intros Hs. unfold Commit. destruct (validateEntry _); [|by intros [= <- <- <-]; apply grown_refl].
  destruct (prepare s now e) as [e1 [r1|]] eqn:Hp; [|by intros [= <- <- <-]; apply grown_refl].
  apply prepare_accepted in Hp; [|done]. destruct (decide _); intros [= <- <- <-]; [by apply grown_refl|by eapply grown_commit].
Qed.

Lemma grown_raised s f s' : sound s -> raiseHeader s f = Ok s' -> grown s s'.
Proof.
  intros Hs. unfold raiseHeader.
  destruct (ParseFormat (h_Format _)) as [[? ?]|], (ParseFormat f) as [[? ?]|]; try (by intros [= <-]; apply grown_refl).
  destruct (decide _); [by intros [= <-]; apply grown_refl|]. intros H. inv_ok. unfold Raise in *. inv_ok. destruct Hs.
  split; try done. split; [by apply wf_set_header|done..].
Qed.

Lemma grown_set_read s r : sound s -> grown s (set_read r s).
Proof. intros [H ? ?]. split; try done. split; [by apply wf_set_read|done..]. Qed.

Lemma Extend_grown s now e s' e' r : sound s -> Extend s now e = (s', e', r) -> grown s s'.
Proof.
  intros Hs. unfold Extend. destruct (validateEntry _); [|by intros [= <- <- <-]; apply grown_refl].
  destruct (prepare s now _) as [e1 [r1|]] eqn:Hp; [|by intros [= <- <- <-]; apply grown_refl].
  apply prepare_accepted in Hp; [|done]. destruct (decide _); intros [= <- <- <-]; [by apply grown_refl|].
  pose proof (grown_add _ _ _ Hs Hp ltac:(done)) as Hg. eapply grown_trans; [exact Hg|].
  set (st := extend _ _ _). pose proof (grown_set_read (add s e1) (Some st) (gr_sound _ _ Hg)) as Hr.
  eapply grown_trans; [exact Hr|]. apply grown_set_leaf, Hr.
Qed.

(** Sound or not, a session written to is the one it was. *)
Definition same_id s s' : Prop := h_ID (s_header s') = h_ID (s_header s).

Lemma id_add s e : same_id s (add s e).
Proof. unfold same_id, add. cbn [s_header]. by destruct (_ && _ && _). Qed.

Lemma id_moveLeafFor s e : same_id s (moveLeafFor s e).
Proof. unfold same_id, moveLeafFor. repeat case_match; done. Qed.

Lemma id_added s e : same_id s (moveLeafFor (add s e) e).
Proof. unfold same_id. by rewrite (id_moveLeafFor (add s e) e) id_add. Qed.

Lemma Commit_id s now e s' e' r : Commit s now e = (s', e', r) -> same_id s s'.
Proof.
  unfold Commit. destruct (validateEntry _); [|by intros [= <- <- <-]].
  destruct (prepare s now e) as [e1 [r1|]]; [|by intros [= <- <- <-]].
  destruct (decide _); intros [= <- <- <-]; [done|]. apply id_added.
Qed.

Lemma raised_id s f s' : raiseHeader s f = Ok s' -> same_id s s'.
Proof.
  unfold raiseHeader. destruct (ParseFormat (h_Format _)) as [[? ?]|], (ParseFormat f) as [[? ?]|]; try (by intros [= <-]).
  destruct (decide _); [by intros [= <-]|]. intros H. inv_ok. unfold Raise in *. by inv_ok.
Qed.

Lemma commitHead_id s now expected to s' e : commitHead s now expected to = Ok (s', e) -> same_id s s'.
Proof.
  unfold commitHead. intros H. apply rbind_Ok in H as (_ & _ & H). apply rbind_Ok in H as (label & _ & H).
  destruct (prepare _ _ _) as [e1 r]. apply rbind_Ok in H as (r1 & _ & [= <- <-]). apply id_added.
Qed.

(** What a caller does to the session the store shares with it. *)
Inductive session_write s : Session -> Prop :=
  | sw_Append now e s' e' r : Append s now e = (s', e', r) -> session_write s s'
  | sw_Commit now e s' e' r : Commit s now e = (s', e', r) -> session_write s s'
  | sw_Extend now e s' e' r : Extend s now e = (s', e', r) -> session_write s s'
  | sw_Branch id s' : Branch s id = Ok s' -> session_write s s'
  | sw_ResetLeaf : session_write s (ResetLeaf s)
  | sw_LeafMarkNeeded : session_write s (LeafMarkNeeded s).1
  | sw_LeafMarkBefore e : session_write s (LeafMarkBefore s e).1
  | sw_raiseHeader f s' : raiseHeader s f = Ok s' -> session_write s s'.

Lemma session_write_grown s s' : sound s -> session_write s s' -> grown s s'.
Proof.
  intros Hs [now e s1 e' r H|now e s1 e' r H|now e s1 e' r H|id s1 H| | |e|f s1 H].
  - unfold Append in H. destruct (checkNew _ _); [|injection H as <- <- <-; by apply grown_refl].
    destruct (Commit s now e) as [[s2 e2] r2] eqn:Hc. injection H as <- <- <-. by eapply Commit_grown.
  - by eapply Commit_grown.
  - by eapply Extend_grown.
  - unfold Branch in H. inv_ok. by apply grown_set_leaf.
  - by apply grown_set_leaf.
  - unfold LeafMarkNeeded. destruct (last _); [|by apply grown_refl]. destruct (mayRestOn _ _); [|by apply grown_refl]. by apply grown_set_read.
  - unfold LeafMarkBefore. repeat (destruct (decide _) || destruct (entry_is_leaf_label _) || destruct (meets_leaf _ _ _));
      try (by apply grown_refl). destruct (s_entries s); [by apply grown_refl|by apply grown_set_read].
  - by eapply grown_raised.
Qed.

Lemma session_write_id s s' : session_write s s' -> same_id s s'.
Proof.
  intros [now e s1 e' r H|now e s1 e' r H|now e s1 e' r H|id s1 H| | |e|f s1 H].
  - unfold Append in H. destruct (checkNew _ _); [|by injection H as <- <- <-].
    destruct (Commit s now e) as [[s2 e2] r2] eqn:Hc. injection H as <- <- <-. by eapply Commit_id.
  - by eapply Commit_id.
  - unfold Extend in H. destruct (validateEntry _); [|by injection H as <- <- <-].
    destruct (prepare s now _) as [e1 [r1|]]; [|by injection H as <- <- <-].
    destruct (decide _); injection H as <- <- <-; [done|]. apply id_add.
  - unfold Branch in H. by inv_ok.
  - done.
  - unfold LeafMarkNeeded. destruct (last _); [|done]. by destruct (mayRestOn _ _).
  - unfold LeafMarkBefore. repeat (destruct (decide _) || destruct (entry_is_leaf_label _) || destruct (meets_leaf _ _ _)); try done.
    by destruct (s_entries s).
  - by eapply raised_id.
Qed.

(** *** Forks *)

(** The session [Fork]'s loop makes of the path to [id]. *)
Record adopts origin s0 id s : Prop := {
  as_sound : sound s;
  as_entries : s_entries s = path origin id;
  as_id : h_ID (s_header s) = h_ID (s_header s0);
  as_base : h_Base (s_header s) = h_Base (s_header s0);
  as_redacted : h_Redacted (s_header s) = h_Redacted (s_header s0);
  as_prefix x : x ∈ s_prefix s <-> x ∈ ids (path origin id)
}.

Lemma adopt_one origin s0 s e : sound origin -> e ∈ s_entries origin -> adopts origin s0 (eparent e) s ->
  adopts origin s0 (eid e) (adopt s e).
Proof.
  intros Ho He [Hs Hes Hid Hb Hr Hp]. pose proof (so_wf _ Ho) as Hw. pose proof (path_step origin e Hw He) as Hstep.
  assert (sound (add s e)) as [Hwa Hha Hpa].
  { split.
    - apply wf_add; [apply Hs|by eapply tree_goodID; [apply Hw|]| |]; rewrite Hes.
      + by apply parent_path_fresh.
      + destruct (tree_parent _ _ (wf_tree _ Hw) He) as [|Hpar]; [by left|right].
        apply list_elem_of_fmap in Hpar as (x & -> & Hx). rewrite (path_step origin x) // ids_app. set_solver.
    - intros x. cbn [s_entries add]. rewrite elem_of_app list_elem_of_singleton. intros [Hx| ->]; [by apply (so_named _ Hs)|by apply (so_named _ Ho)].
    - intros x Hx. cbn [s_entries add]. rewrite ids_app. apply (so_prefix _ Hs) in Hx. set_solver. }
  split; unfold adopt; cbn [s_entries s_header s_prefix set_prefix].
  - split; [by apply wf_set_prefix|done|]. intros x. cbn [s_prefix s_entries set_prefix].
    rewrite elem_of_union elem_of_singleton. intros [->|Hx]; [|by apply Hpa]. cbn [add s_entries]. rewrite ids_app. set_solver.
  - by rewrite Hstep /= Hes.
  - rewrite -Hid. unfold add; cbn [s_header]. by destruct (_ && _ && _).
  - rewrite -Hb. unfold add; cbn [s_header]. by destruct (_ && _ && _).
  - rewrite -Hr. unfold add; cbn [s_header]. by destruct (_ && _ && _).
  - intros x. rewrite Hstep ids_app elem_of_app elem_of_union elem_of_singleton -Hp. set_solver.
Qed.

Lemma adopt_all origin s0 id : sound origin -> sound s0 -> s_entries s0 = [] -> s_prefix s0 = ∅ ->
  id = "" \/ id ∈ ids (s_entries origin) -> adopts origin s0 id (foldl adopt s0 (path origin id)).
Proof.
  intros Ho H0 He0 Hp0 Hid. pose proof (so_wf _ Ho) as Hw. assert (exists rev, chain origin id rev) as [rev Hch].
  { destruct Hid as [->|Hid]; [exists []; constructor|]. destruct (wf_chain _ _ Hw Hid) as (rev & ? & _). eauto. }
  clear Hid. induction Hch as [|e rev Hne He Hch IH].
  - rewrite path_nil. split; try done. intros x. cbn [foldl]. rewrite Hp0 path_nil. set_solver.
  - apply (wf_lookup origin) in He as [He _]; [|done]. rewrite (path_step origin e) // foldl_app. by apply adopt_one.
Qed.

(** A fork is its origin's path, under its own header. *)
Lemma Fork_sound payload fresh now origin at_ h s : sound origin -> Fork payload fresh now origin at_ h = Ok s ->
  sound s /\ s_entries s = path origin at_ /\ at_ ∈ ids (s_entries origin) /\ (forall x, x ∈ s_prefix s <-> x ∈ ids (path origin at_)) /\
  h_Base (s_header s) = at_ /\ h_Redacted (s_header s) = h_Redacted h /\ (h_ID h <> "" -> h_ID (s_header s) = h_ID h) /\
  (h_ID h = "" -> h_ID (s_header s) = fresh).
Proof.
  intros Ho. unfold Fork. intros H. inv_ok. assert (at_ ∈ ids (s_entries origin)) as Hat.
  { destruct (decide (at_ ∈ ids (s_entries origin))) as [|Hn]; [done|]. apply path_unknown in Hn; [|apply Ho].
    by match goal with H : bool_decide (path _ _ = []) = false |- _ => apply bool_decide_eq_false in H end. }
  set (s0 := New _) in *. destruct (adopt_all origin s0 at_ Ho) as [Hs Hes Hid Hb Hr Hp]; [apply sound_New|done|done|by right|].
  split; [by apply sound_set_leaf|]. cbn [s_entries s_header s_prefix set_leaf]. rewrite Hes Hid Hb Hr.
  split_and!; try done; cbn; intros ?; [by rewrite decide_False|by rewrite decide_True].
Qed.

(** ** The origin of a fork *)

Lemma lockOrigin_held ctx named base tries last m o :
  lockOrigin ctx named base tries last = (m, Some o) ->
  (exists id, ms_sessions m !! id = Some o) /\ has_entry o base = true.
Proof.
  induction tries as [|[picked locked] tries IH]; [done|]. cbn [lockOrigin]. destruct (decide _); [done|].
  destruct (heldOrigin _ base locked) as [o'|] eqn:Hh; [|done]. intros [= <- <-]. unfold heldOrigin in Hh.
  destruct (ms_sessions locked !! _) as [s|] eqn:Hs; [|done]. destruct (has_entry s base) eqn:Hb; [|done]. injection Hh as <-.
  split; [by eexists|done].
Qed.

(** ** The store *)

Record store_ok m : Prop := {
  ok_sessions id s : ms_sessions m !! id = Some s -> h_ID (s_header s) = id;
  ok_gens id : is_Some (ms_gens m !! id) <-> is_Some (ms_sessions m !! id);
  ok_gen id g : ms_gens m !! id = Some g -> g <= ms_gen m;
  ok_apart id id' g : ms_gens m !! id = Some g -> ms_gens m !! id' = Some g -> id = id';
  ok_refs : table_ok (ms_refs m);
  ok_blobs hash b : ms_blobs m !! hash = Some b ->
    hash = HashBytes (mb_data b) /\ BlobMediaType (mb_mediaType b) = Ok (mb_mediaType b);
  ok_types id types : ms_blobTypes m !! id = Some types -> is_Some (ms_sessions m !! id) /\
    forall hash t, types !! hash = Some t -> ValidHash hash = true /\ t <> "" /\ BlobMediaType t = Ok t
}.

Lemma BlobMediaType_kept t mt : BlobMediaType t = Ok mt -> BlobMediaType mt = Ok mt.
Proof.
  unfold BlobMediaType at 1. destruct (_ || _) eqn:Hd; [by intros [= <-]|]. intros H. inv_ok.
  destruct (Split t ";") as [|typ params] eqn:Hs; [done|]. inv_ok. unfold BlobMediaType. rewrite Hd Hs.
  match goal with H : (MaxMediaTypeLen <? _) = false |- _ => rewrite H end. cbn.
  match goal with H : negb (tokens_at _ _) = false |- _ => rewrite H end. cbn.
  match goal with H : negb (forallb _ _) = false |- _ => by rewrite H end.
Qed.

Lemma CheckBlobTypes_ok types set hash t : CheckBlobTypes types = Ok set -> set !! hash = Some t ->
  ValidHash hash = true /\ t <> "" /\ BlobMediaType t = Ok t.
Proof.
  unfold CheckBlobTypes.
  assert (forall l out set, (forall hash t, out !! hash = Some t -> ValidHash hash = true /\ t <> "" /\ BlobMediaType t = Ok t) ->
    check_types l out = Ok set -> forall hash t, set !! hash = Some t -> ValidHash hash = true /\ t <> "" /\ BlobMediaType t = Ok t) as Hall.
  { induction l as [|[h x] l IH]; intros out set' Hout; [by intros [= <-]|]. cbn [check_types]. intros Hc. inv_ok. eapply IH; [|exact Hc].
    intros k y. destruct (decide _) as [Hne|]; [|apply Hout]. intros [[<- <-]|[_ Hk]]%lookup_insert_Some; [|by apply Hout].
    bool_prop. split_and!; [done|done|by eapply BlobMediaType_kept]. }
  intros Hc. eapply Hall; [|exact Hc]. intros k x. by rewrite lookup_empty.
Qed.

(** Its sessions are sound. *)
Definition sessions_sound m : Prop := forall id s, ms_sessions m !! id = Some s -> sound s.

(** A store with other refs, blobs or sessions in place of some. *)
Lemma ok_set_refs m rs : store_ok m -> table_ok rs -> store_ok (set_refs rs m).
Proof. by intros [] ?. Qed.

Lemma ok_set_blobs m bs : store_ok m ->
  (forall hash b, bs !! hash = Some b -> hash = HashBytes (mb_data b) /\ BlobMediaType (mb_mediaType b) = Ok (mb_mediaType b)) ->
  store_ok (set_blobs bs m).
Proof. by intros [] ?. Qed.

Lemma ok_put_session m id s s' : store_ok m -> ms_sessions m !! id = Some s -> same_id s s' -> store_ok (put_session id s' m).
Proof.
  intros [Hs Hg Hgen Hap Hr Hb Ht] Hid Hgr.
  assert (forall k, is_Some (<[id := s']> (ms_sessions m) !! k) <-> is_Some (ms_sessions m !! k)) as Hdom.
  { intros k. rewrite lookup_insert_is_Some'. split; [intros [<-|?]; [by rewrite Hid|done]|by right]. }
  split; try done; unfold put_session; cbn [ms_sessions ms_gens ms_blobTypes set_sessions].
  - intros k x. intros [[<- <-]|[_ Hk]]%lookup_insert_Some; [|by apply Hs]. rewrite Hgr. by apply (Hs id).
  - intros k. by rewrite Hdom.
  - intros k types Hk. rewrite Hdom. by apply Ht.
Qed.

Lemma sound_put_session m id s : sessions_sound m -> sound s -> sessions_sound (put_session id s m).
Proof. intros Hm Hs k x. cbn. intros [[<- <-]|[_ Hk]]%lookup_insert_Some; [done|by eapply Hm]. Qed.

Lemma sound_add_session m id s : sessions_sound m -> sound s -> sessions_sound (add_session id s m).
Proof. intros Hm Hs k x. cbn. intros [[<- <-]|[_ Hk]]%lookup_insert_Some; [done|by eapply Hm]. Qed.

Lemma ok_add_session m s : store_ok m -> ms_sessions m !! h_ID (s_header s) = None -> store_ok (add_session (h_ID (s_header s)) s m).
Proof.
  intros [Hs Hg Hgen Hap Hr Hb Ht] Hnone. split; try done; unfold add_session; cbn [ms_sessions ms_gens ms_gen ms_blobTypes].
  - intros k x. intros [[<- <-]|[_ Hk]]%lookup_insert_Some; [done|by apply Hs].
  - intros k. rewrite !lookup_insert_is_Some'. by rewrite Hg.
  - intros k g. intros [[_ <-]|[_ Hk]]%lookup_insert_Some; [lia|]. apply Hgen in Hk. lia.
  - intros k k' g Hk Hk'. apply lookup_insert_Some in Hk as [[<- <-]|[Hne Hk]], Hk' as [[<- Hg']|[Hne' Hk']]; try done.
    + apply Hgen in Hk'. lia.
    + subst g. apply Hgen in Hk. lia.
    + by eapply Hap.
  - intros k types Hk. destruct (Ht k types Hk) as [Hx Hy]. split; [|done]. rewrite lookup_insert_is_Some'. by right.
Qed.

(** What [create_locked] adds. *)
Lemma create_locked_adds m payload fresh now h origin m' r : create_locked payload fresh now h origin m = (m', r) ->
  match r with
  | Ok s => ms_sessions m !! h_ID (s_header s) = None /\ m' = add_session (h_ID (s_header s)) s m /\
            ((forall o, origin = Some o -> sound o) -> sound s)
  | Err _ => m' = m
  end.
Proof.
  unfold create_locked. set (made := if decide (h_Base h = "") then _ else _).
  assert (forall s, made = Ok s -> (forall o, origin = Some o -> sound o) -> sound s) as Hmade.
  { unfold made. intros s. destruct (decide _); [intros [= <-] _; apply sound_New|]. destruct origin as [o|]; [|done]. intros H Ho. inv_ok.
    match goal with H : Fork _ _ _ _ _ _ = Ok _ |- _ => by eapply Fork_sound in H as [? _]; [|apply Ho] end. }
  destruct made as [s|e]; [|by intros [= <- <-]]. specialize (Hmade s eq_refl).
  destruct (ms_sessions m !! _) as [x|] eqn:Hn; intros [= <- <-]; [done|]. by split_and!.
Qed.

Lemma acquire_sound ctx h tries last m origin : acquire ctx h tries last = (m, origin) -> sessions_sound m ->
  forall o, origin = Some o -> sound o.
Proof.
  unfold acquire. destruct (decide _); [by intros [= <- <-]|]. intros H Hm o ->.
  apply lockOrigin_held in H as [[id Hid] _]. by apply Hm in Hid.
Qed.

(** *** The operations *)

Lemma put_blob_ok ctx now data mt m : store_ok m -> store_ok (PutTypedBlob ctx now data mt m).1.
Proof.
  intros Hm. unfold PutTypedBlob. destruct (rbind _ _) as [t|] eqn:Ht; [|done]. inv_ok. apply BlobMediaType_kept in Ht.
  apply ok_set_blobs; [done|]. intros k b. cbn [fst]. intros [[<- <-]|[_ Hk]]%lookup_insert_Some; [|by apply Hm].
  cbn [mb_data mb_mediaType]. destruct (ms_blobs m !! HashBytes data) as [b|] eqn:Hb; cbn [mb_data mb_mediaType].
  - destruct (ok_blobs m Hm _ _ Hb) as [? ?]. split; [done|]. by destruct (decide _).
  - by split.
Qed.

Lemma sweep_ok ctx cutoff m : store_ok m -> store_ok (SweepBlobs ctx cutoff m).1.
Proof.
  intros Hm. unfold SweepBlobs. destruct (ctx_Err ctx); [|done]. destruct (negb _); [done|]. destruct (named_blobs _); [|done].
  apply ok_set_blobs; [done|]. intros k b [Hk _]%map_lookup_filter_Some. by apply Hm.
Qed.

Lemma types_ok ctx session types m : store_ok m -> store_ok (SetSessionBlobTypes ctx session types m).1.
Proof.
  intros Hm. unfold SetSessionBlobTypes. destruct (rbind _ _) as [set|] eqn:Hset; [|done]. inv_ok.
  destruct (ms_sessions m !! session) as [s|] eqn:Hs; [|done]. destruct Hm as [H1 H2 H3 H4 H5 H6 H7]. split; try done.
  cbn [fst ms_blobTypes set_blobTypes ms_sessions]. intros k types' [[<- <-]|[_ Hk]]%lookup_insert_Some; [|by apply H7].
  split; [by rewrite Hs|]. intros hash t [Hh|[_ Hh]]%lookup_union_Some_raw; [|by eapply CheckBlobTypes_ok].
  destruct (ms_blobTypes m !! session) as [ts|] eqn:Hts; cbn in Hh; [|by rewrite lookup_empty in Hh].
  destruct (H7 _ _ Hts) as [_ Hall]. by apply Hall.
Qed.

Lemma delete_ok id m : store_ok m -> store_ok (Delete id m).1.
Proof.
  intros Hm. unfold Delete. destruct (ms_sessions m !! id) as [s|] eqn:Hs; [|done]. destruct Hm as [H1 H2 H3 H4 H5 H6 H7].
  split; try done; cbn [fst ms_sessions ms_gens ms_gen ms_blobTypes].
  - intros k x [_ Hk]%lookup_delete_Some. by apply H1.
  - intros k. rewrite !lookup_delete_is_Some. by rewrite H2.
  - intros k g [_ Hk]%lookup_delete_Some. by apply (H3 k).
  - intros k k' g [_ Hk]%lookup_delete_Some [_ Hk']%lookup_delete_Some. by eapply H4.
  - intros k types [Hne Hk]%lookup_delete_Some. rewrite lookup_delete_is_Some. destruct (H7 _ _ Hk) as [? ?]. by split_and!.
Qed.

Lemma ReadForImport_sound r s : ReadForImport r = Ok s -> sound s.
Proof. unfold ReadForImport. intros H. apply rbind_Ok in H as ([s' t] & Hr & H). inv_ok. by apply kept_sound; eapply Read_kept. Qed.

(** [Append] and [SetHead] write to the one session they name: the same
    session, and a sound one where it was. *)
Definition puts (fresh : Prop) id m m' : Prop :=
  m' = m \/ exists s s', ms_sessions m !! id = Some s /\ m' = put_session id s' m /\ same_id s s' /\
    (fresh -> sound s -> sound s').

Lemma Append_puts now id e m m' e' r : store_Append now id e m = (m', e', r) -> puts True id m m'.
Proof.
  unfold store_Append, Open. destruct (ms_sessions m !! id) as [s|] eqn:Hs; [|by intros [= <- <- <-]; left].
  cbn [rbind]. destruct (rbind _ _) as [s0|] eqn:Hr; [|by intros [= <- <- <-]; left].
  assert (s0 = s) as -> by (by inv_ok). destruct (Prepare s now e) as [e1 pre]. destruct (rbind pre _) as [s1|] eqn:Hraise; [|by intros [= <- <- <-]; left].
  assert (same_id s s1 /\ (sound s -> sound s1)) as [Hid1 Hs1].
  { destruct pre as [pre|]; [|done]. cbn [rbind] in Hraise. destruct (decide _); [by injection Hraise as <-|].
    split; [by eapply raised_id|]. intros Hso. by eapply grown_raised. }
  destruct (rbind (MarshalEntry e1) _) as [own|]; [|intros [= <- <- <-]; right; exists s, s1; by split_and!].
  destruct (Commit s1 now own) as [[s2 e2] r2] eqn:Hc. intros [= <- <- <-]. right. exists s, s2. split; [done|].
  split; [unfold put_session, set_sessions; cbn [ms_sessions]; by rewrite insert_insert_eq|].
  split; [unfold same_id; by rewrite (Commit_id _ _ _ _ _ _ Hc) Hid1|].
  intros _ Hso. eapply Commit_grown; [|exact Hc]. by apply Hs1.
Qed.

(** The label a head move records is not one the session holds already, which
    nothing checks ([commitHead_sound] says what becomes of one that is). *)
Definition label_new now id expected to m : Prop := forall s s1 s2 e,
  ms_sessions m !! id = Some s -> raiseHeader s Format = Ok s1 -> commitHead s1 now expected to = Ok (s2, e) ->
  eid e ∉ ids (s_entries s1).

Lemma SetHead_puts ctx now id expected to m m' r :
  SetHead ctx now id expected to m = (m', r) -> puts (label_new now id expected to m) id m m'.
Proof.
  unfold SetHead, Open. destruct (ctx_Err ctx) as [[]|]; [|by intros [= <- <-]; left]. cbn [rbind].
  destruct (ms_sessions m !! id) as [s|] eqn:Hs; [|by intros [= <- <-]; left]. cbn [rbind].
  destruct (headLabel s expected to) as [l|]; [|by intros [= <- <-]; left]. cbn [rbind].
  destruct (raiseHeader s Format) as [s1|] eqn:Hr; [|by intros [= <- <-]; left]. intros H. right.
  destruct (commitHead s1 now expected to) as [[s2 e]|] eqn:Hc; injection H as <- <-; exists s.
  - exists s2. split; [done|]. split; [unfold put_session, set_sessions; cbn [ms_sessions]; by rewrite insert_insert_eq|].
    split; [unfold same_id; by rewrite (commitHead_id _ _ _ _ _ _ Hc) (raised_id _ _ _ Hr)|].
    intros Hn Hso. eapply commitHead_keeps_sound; [|exact Hc|by eapply Hn]. by eapply grown_raised.
  - exists s1. split_and!; [done|done|by eapply raised_id|]. intros _ Hso. by eapply grown_raised.
Qed.

(** *** The store's runs *)

(** One operation on the store, or one write a caller makes to a session the
    store shares with it.  [Create] and [Import] take hold of the store they
    change once the origin of a fork is found. *)
Inductive store_step m : bool -> MemoryStore -> Prop :=
  | st_put ctx now data mt : store_step m true (PutTypedBlob ctx now data mt m).1
  | st_sweep ctx cutoff : store_step m true (SweepBlobs ctx cutoff m).1
  | st_types ctx id types : store_step m true (SetSessionBlobTypes ctx id types m).1
  | st_create ctx payload fresh now tries last h s m' : (acquire ctx h tries last).1 = m ->
      Create ctx payload fresh now tries last h = (m', Ok s) -> store_step m true m'
  | st_import ctx r tries last s m' : (acquire ctx (s_header s) tries last).1 = m ->
      Import ctx r tries last = (m', Ok s) -> store_step m true m'
  | st_append now id e m' e' r : store_Append now id e m = (m', e', r) -> store_step m true m'
  | st_sethead b ctx now id expected to m' r : (b = true -> label_new now id expected to m) ->
      SetHead ctx now id expected to m = (m', r) -> store_step m b m'
  | st_write id s s' : ms_sessions m !! id = Some s -> session_write s s' -> store_step m true (put_session id s' m)
  | st_delete id : store_step m true (Delete id m).1
  | st_ref now name expected next reason : store_step m true (store_UpdateRef now name expected next reason m).1.

(** The runs of a store: any steps at all, and [true] where each head move of
    the run is known to have recorded a new label. *)
Inductive store_run : bool -> MemoryStore -> Prop :=
  | run_new redactedOnly gen : store_run true (NewMemoryStore redactedOnly gen)
  | run_step b b' m m' : store_run b m -> store_step m b' m' -> store_run (b && b') m'.

Lemma new_ok redactedOnly gen : store_ok (NewMemoryStore redactedOnly gen).
Proof.
  split; cbn [NewMemoryStore ms_sessions ms_gens ms_gen ms_refs ms_blobs ms_blobTypes];
    try (intros *; rewrite lookup_empty; by intros).
  - intros id. rewrite !lookup_empty. done.
  - apply updated_ok. constructor.
Qed.

(** What [Create] and [Import] add: a session the store did not hold. *)
Lemma Create_adds ctx payload fresh now tries last h m s m' : (acquire ctx h tries last).1 = m ->
  Create ctx payload fresh now tries last h = (m', Ok s) ->
  ms_sessions m !! h_ID (s_header s) = None /\ m' = add_session (h_ID (s_header s)) s m /\ (sessions_sound m -> sound s).
Proof.
  intros Ha. unfold Create. destruct (CheckCreate _ _); [|done]. destruct (acquire _ _ _ _) as [m1 origin] eqn:Hq. cbn in Ha. subst m1.
  intros Hc. apply create_locked_adds in Hc as (Hn & Hm' & Hs). split_and!; [done..|]. intros Hm. apply Hs. by eapply acquire_sound.
Qed.

Lemma Import_adds ctx r tries last m s m' : (acquire ctx (s_header s) tries last).1 = m ->
  Import ctx r tries last = (m', Ok s) ->
  ms_sessions m !! h_ID (s_header s) = None /\ m' = add_session (h_ID (s_header s)) s m /\ sound s.
Proof.
  intros Ha. unfold Import. destruct (rbind _ _) as [s0|] eqn:Hs; [|done]. inv_ok.
  match goal with H : ReadForImport _ = Ok _ |- _ => apply ReadForImport_sound in H as Hso end.
  destruct (acquire ctx (s_header s0) tries last) as [m1 origin] eqn:Hq. unfold import_locked.
  destruct (ms_sessions m1 !! _) eqn:Hn; [done|]. destruct (if decide _ then _ else _); [|done]. intros [= <- <-].
  by rewrite Hq.
Qed.

Lemma puts_ok (fresh : Prop) id m m' : puts fresh id m m' -> store_ok m -> store_ok m'.
Proof. intros [->|(s & s' & Hs & -> & Hid & _)] Hm; [done|]. by eapply ok_put_session. Qed.

Lemma puts_sound (fresh : Prop) id m m' : puts fresh id m m' -> fresh -> sessions_sound m -> sessions_sound m'.
Proof. intros [->|(s & s' & Hs & -> & _ & Hso)] Hf Hm; [done|]. apply sound_put_session; [done|]. apply Hso; [done|by eapply Hm]. Qed.

Lemma step_ok m b m' : store_ok m -> store_step m b m' -> store_ok m'.
Proof.
  intros Hm [ctx now data mt|ctx cutoff|ctx id types|ctx payload fresh now tries last h s m1 Ha H|ctx r tries last s m1 Ha H
    |now id e m1 e' r H|b0 ctx now id expected to m1 r Hn H|id s s' Hs H|id|now name expected next reason].
  - by apply put_blob_ok.
  - by apply sweep_ok.
  - by apply types_ok.
  - eapply Create_adds in H as (Hn & -> & _); [|done]. by apply ok_add_session.
  - eapply Import_adds in H as (Hn & -> & _); [|done]. by apply ok_add_session.
  - apply Append_puts in H. by eapply puts_ok.
  - apply SetHead_puts in H. by eapply puts_ok.
  - eapply ok_put_session; [done..|]. by apply session_write_id.
  - by apply delete_ok.
  - unfold store_UpdateRef. destruct (UpdateRef _ _ _ _ _ _ _) as [rs err] eqn:Hu. apply ok_set_refs; [done|].
    eapply UpdateRef_table; [apply Hm|exact Hu].
Qed.

Lemma step_sound m b m' : sessions_sound m -> store_step m b m' -> b = true -> sessions_sound m'.
Proof.
  intros Hm [ctx now data mt|ctx cutoff|ctx id types|ctx payload fresh now tries last h s m1 Ha H|ctx r tries last s m1 Ha H
    |now id e m1 e' r H|b0 ctx now id expected to m1 r Hn H|id s s' Hs H|id|now name expected next reason] Hb.
  - unfold PutTypedBlob. by destruct (rbind _ _).
  - unfold SweepBlobs. destruct (ctx_Err ctx); [|done]. destruct (negb _); [done|]. by destruct (named_blobs _).
  - unfold SetSessionBlobTypes. destruct (rbind _ _); [|done]. by destruct (ms_sessions m !! id).
  - eapply Create_adds in H as (_ & -> & Hs); [|done]. apply sound_add_session; auto.
  - eapply Import_adds in H as (_ & -> & Hs); [|done]. by apply sound_add_session.
  - apply Append_puts in H. by eapply puts_sound.
  - apply SetHead_puts in H. eapply puts_sound; [exact H|by apply Hn|done].
  - apply sound_put_session; [done|]. eapply session_write_grown; [|done]. by eapply Hm.
  - unfold Delete. destruct (ms_sessions m !! id); [|done]. intros k x. cbn. intros [_ Hk]%lookup_delete_Some. by eapply Hm.
  - unfold store_UpdateRef. by destruct (UpdateRef _ _ _ _ _ _ _).
Qed.

(** C7: Whatever operations are made on a store in memory, and whatever callers
    write to the sessions it shares with them, every session it holds is filed
    under its own header's id and has a generation no other has; every blob is
    filed under the hash of its bytes, with a media type as [BlobMediaType] leaves
    one; and blob types are kept only of sessions it holds.  So long as no head
    move appended a label its session already held, which the code does not
    check, every session is also a tree with indexes that agree, each entry named
    by the hash of its line. *)
Theorem store_run_ok b m : store_run b m ->
  (forall id s, ms_sessions m !! id = Some s -> h_ID (s_header s) = id /\ (b = true -> sound s)) /\
  (forall id, is_Some (ms_sessions m !! id) <-> is_Some (ms_gens m !! id)) /\
  (forall id id' g, ms_gens m !! id = Some g -> ms_gens m !! id' = Some g -> id = id') /\
  (forall hash b, ms_blobs m !! hash = Some b ->
     hash = HashBytes (mb_data b) /\ BlobMediaType (mb_mediaType b) = Ok (mb_mediaType b)) /\
  (forall id types hash t, ms_blobTypes m !! id = Some types -> types !! hash = Some t ->
     is_Some (ms_sessions m !! id) /\ ValidHash hash = true /\ t <> "" /\ BlobMediaType t = Ok t).
Proof.
  intros Hr. assert (store_ok m /\ (b = true -> sessions_sound m)) as [[Hs Hg _ Hap _ Hb Ht] Hso].
  { induction Hr as [|b b' m m' _ [IH IHs] Hst]; [split; [apply new_ok|by intros _ id s; cbn; rewrite lookup_empty]|].
    split; [by eapply step_ok|]. intros [Hb Hb']%andb_true_iff. eapply step_sound; eauto. }
  split_and!; try done.
  - intros id s Hid. split; [by apply Hs|]. intros Hb'. by eapply Hso.
  - intros id types hash t Hty Hh. destruct (Ht id types Hty) as [? Hall]. split; [done|]. by apply Hall.
Qed.

(** ** The sweep *)

(** A session the store holds names the blob. *)
Definition names_blob hash m : Prop := exists id s bs, ms_sessions m !! id = Some s /\ SessionBlobs s = Ok bs /\ hash ∈ bs.

Lemma named_blobs_spec ss named : named_blobs ss = Ok named ->
  forall hash, hash ∈ named <-> exists id s bs, (id, s) ∈ ss /\ SessionBlobs s = Ok bs /\ hash ∈ bs.
Proof.
  revert named. induction ss as [|[id s] ss IH]; intros named; cbn [named_blobs].
  { intros [= <-] hash. split; [by intros ?%elem_of_nil|]. by intros (? & ? & ? & ?%elem_of_nil & _). }
  intros H hash. apply rbind_Ok in H as (bs & Hbs & H). apply rbind_Ok in H as (rest & Hrest & H). injection H as <-.
  rewrite elem_of_app (IH rest Hrest). split.
  - intros [Hin|(k & x & bs' & Hx & ? & ?)]; [exists id, s, bs; by split; [left|]|exists k, x, bs'; split; [by right|done]].
  - intros (k & x & bs' & Hx & Hbs' & Hin). apply elem_of_cons in Hx as [Hx|Hx]; [left; congruence|right; by exists k, x, bs'].
Qed.

(** A sweep removes just the blobs that were stored before the cutoff and
    that no session of the store names, and counts them; everything else, and on
    an error everything, is as it was. *)
Lemma SweepBlobs_keeps ctx cutoff m m' r : SweepBlobs ctx cutoff m = (m', r) ->
  match r with
  | Ok n =>
      m' = set_blobs (ms_blobs m') m /\ size (ms_blobs m') + n = size (ms_blobs m) /\
      (forall hash b, ms_blobs m' !! hash = Some b <->
         ms_blobs m !! hash = Some b /\ (Before (mb_at b) cutoff = false \/ names_blob hash m))
  | Err _ => m' = m
  end.
Proof.
  unfold SweepBlobs. destruct (ctx_Err ctx) as [[]|]; [|by intros [= <- <-]]. destruct (negb _) eqn:Hold.
  { intros [= <- <-]. split; [by destruct m|]. split; [lia|]. intros hash b. split; [|by intros [? _]]. intros Hb. split; [done|left].
    apply negb_true_iff in Hold. destruct (Before _ _) eqn:Hbe; [|done]. exfalso.
    rewrite -not_true_iff_false existsb_exists in Hold. apply Hold. exists (hash, b). split; [|done].
    by apply list_elem_of_In, elem_of_map_to_list. }
  destruct (named_blobs _) as [named|] eqn:Hn; [|by intros [= <- <-]]. intros [= <- <-]. cbn [ms_blobs set_blobs].
  assert (forall hash, hash ∈ named <-> names_blob hash m) as Hnamed.
  { intros hash. rewrite (named_blobs_spec _ _ Hn). unfold names_blob. by setoid_rewrite elem_of_map_to_list. }
  split; [done|]. split.
  - set (P := fun kv : string * memBlob => Before (mb_at kv.2) cutoff = true /\ kv.1 ∉ named). rewrite Nat.add_comm.
    rewrite -map_size_disj_union; [by rewrite map_filter_union_complement|apply map_disjoint_filter_complement].
  - intros hash b. rewrite map_lookup_filter_Some. cbn. rewrite -Hnamed. split.
    + intros [Hb Hno]. split; [done|]. destruct (Before (mb_at b) cutoff); [right|by left]. destruct (decide (hash ∈ named)); [done|]. by destruct Hno.
    + intros [Hb Hor]. split; [done|]. intros [Hbe Hnin]. destruct Hor; [congruence|done].
Qed.
End StoreProps.
