(* ===== verification/OriginProps.v ===== *)
(** * Origins of forks: whom a pick asks, what it finds, and the walk up the forks

    [Origin.Pick] follows the chain to its end, else takes the first admitted
    owner, else the first admitted holder ([Pick_order]); the origin a fork is
    made from is held by the store the fork is added to ([acquire_finds]);
    [OriginDispatches] finds the first session up the forks that holds a
    dispatch ([OriginDispatches_walk]). *)
From S2P Require Import Prelude Entry Header Tree Leaf Calls CallRules Runs Verify Omit Digest Settings Context Hash Session Codec GoStrings Refs Blob Store.
Open Scope session_scope.

(** ** Picks *)

Section Pick.
Variable readable : string -> bool.

(** The chain's end, where every session of the chain is admitted. *)
Definition admitted_end (c : Origin.Candidates) : option string :=
  if Origin.Ends c && forallb readable (Origin.Chain c) then last (Origin.Chain c) else None.
Definition first_admitted (l : list string) : option string := head (filter (fun id => readable id = true) l).
Definition pick_order (c : Origin.Candidates) : option string :=
  match admitted_end c with
  | Some id => Some id
  | None => first_admitted (Origin.Owners c ++ Origin.OnPrefix c)
  end.

(** Of [ids], those up to the first admitted. *)
Fixpoint up_to_admitted (ids : list string) : list string :=
  match ids with [] => [] | id :: ids => if readable id then [id] else id :: up_to_admitted ids end.
(** Of a chain, those up to the first refused. *)
Fixpoint up_to_refused (ids : list string) : list string :=
  match ids with [] => [] | id :: ids => if readable id then id :: up_to_refused ids else [id] end.

Lemma ask_asked id asked ok asked' : NoDup asked -> Origin.ask readable id asked = (ok, asked') ->
  ok = readable id /\ NoDup asked' /\ (forall x, x ∈ asked' <-> x = id \/ x ∈ asked).
Proof.
  intros Hd. unfold Origin.ask. intros [= <- <-]. split; [done|]. destruct (decide (id ∈ asked)); [split; [done|set_solver]|].
  split; [by constructor|set_solver].
Qed.

Lemma pick_chain_order ends chain : forall asked r asked', NoDup asked -> Origin.pick_chain readable ends chain asked = (r, asked') ->
  r = (if ends && forallb readable chain then last chain else None) /\ NoDup asked' /\
  (forall x, x ∈ asked' <-> x ∈ up_to_refused chain \/ x ∈ asked).
Proof.
  induction chain as [|id chain IH]; intros asked r asked' Hd; cbn [Origin.pick_chain forallb up_to_refused].
  { intros [= <- <-]. split; [by destruct (_ && _)|]. split; [done|set_solver]. }
  destruct (Origin.ask readable id asked) as [ok asked1] eqn:Ha. apply ask_asked in Ha as (-> & Hd1 & Hin); [|done].
  destruct (readable id) eqn:Hr; cbn [negb andb].
  2:{ intros [= <- <-]. split; [by rewrite andb_false_r|]. split; [done|]. intros x. rewrite Hin. set_solver. }
  destruct chain as [|y chain].
  - destruct ends; cbn; intros [= <- <-]; (split; [done|]; split; [done|]; intros x; rewrite Hin; set_solver).
  - cbn [andb bool_decide]. intros H. apply IH in H as (-> & Hd2 & Hin2); [|done]. split; [done|]. split; [done|].
    intros x. rewrite Hin2 Hin elem_of_cons. tauto.
Qed.

Lemma pick_first_order ids : forall asked r asked', NoDup asked -> Origin.pick_first readable ids asked = (r, asked') ->
  r = first_admitted ids /\ NoDup asked' /\ (forall x, x ∈ asked' <-> x ∈ up_to_admitted ids \/ x ∈ asked).
Proof.
  induction ids as [|id ids IH]; intros asked r asked' Hd; cbn [Origin.pick_first up_to_admitted].
  { intros [= <- <-]. split; [done|]. split; [done|set_solver]. }
  destruct (Origin.ask readable id asked) as [ok asked1] eqn:Ha. apply ask_asked in Ha as (-> & Hd1 & Hin); [|done].
  unfold first_admitted. destruct (readable id) eqn:Hr.
  - intros [= <- <-]. rewrite filter_cons_True //. split; [done|]. split; [done|]. intros x. rewrite Hin. set_solver.
  - intros H. apply IH in H as (-> & Hd2 & Hin2); [|done]. rewrite filter_cons_False ?Hr //. split; [done|]. split; [done|].
    intros x. rewrite Hin2 Hin elem_of_cons. tauto.
Qed.

Lemma first_admitted_app l l' : first_admitted (l ++ l') =
  match first_admitted l with Some id => Some id | None => first_admitted l' end.
Proof. unfold first_admitted. rewrite filter_app. by destruct (filter _ l). Qed.

(** A pick is the end of the chain, when the chain ends and the check admits
    every session of it; else the first the check admits of the owners and then
    of those that hold the base on their prefix; and none when it admits none.
    No session is asked about twice, and none is that comes after the first
    refused of the chain or the first admitted of the others. *)
Lemma Pick_order c id asked : Origin.Pick readable c = (id, asked) ->
  id = default "" (pick_order c) /\ NoDup asked /\
  (forall x, x ∈ asked <-> x ∈ up_to_refused (Origin.Chain c) \/
     (admitted_end c = None /\ x ∈ up_to_admitted (Origin.Owners c ++ Origin.OnPrefix c))).
Proof.
  unfold Origin.Pick, pick_order, admitted_end. rewrite first_admitted_app.
  destruct (Origin.pick_chain _ _ _ _) as [r1 asked1] eqn:H1. apply pick_chain_order in H1 as (-> & Hd1 & Hin1); [|constructor].
  destruct (if Origin.Ends c && _ then _ else _) as [x|].
  { intros [= <- <-]. split; [done|]. split; [done|]. intros y. rewrite Hin1. set_solver. }
  destruct (Origin.pick_first _ (Origin.Owners c) _) as [r2 asked2] eqn:H2. apply pick_first_order in H2 as (-> & Hd2 & Hin2); [|done].
  assert (up_to_admitted (Origin.Owners c ++ Origin.OnPrefix c) = up_to_admitted (Origin.Owners c) ++
    (if first_admitted (Origin.Owners c) then [] else up_to_admitted (Origin.OnPrefix c))) as ->.
  { unfold first_admitted. clear. induction (Origin.Owners c) as [|x l IH]; [done|]. cbn [app up_to_admitted].
    destruct (readable x) eqn:Hr; [by rewrite filter_cons_True|]. rewrite filter_cons_False ?Hr // IH. done. }
  destruct (first_admitted (Origin.Owners c)) as [x|].
  { intros [= <- <-]. split; [done|]. split; [done|]. intros y. rewrite Hin2 Hin1 app_nil_r. set_solver. }
  destruct (Origin.pick_first _ (Origin.OnPrefix c) _) as [r3 asked3] eqn:H3. apply pick_first_order in H3 as (-> & Hd3 & Hin3); [|done].
  intros [= <- <-]. split; [done|]. split; [done|]. intros y. rewrite Hin3 Hin2 Hin1 elem_of_app. set_solver.
Qed.
End Pick.

Section Found.
Context {OR : OpenResponses} {IC : ItemContent} {ND : NameDecoding} {CA : Canonicaliser} {SH : SHA256}
  {JT : JSONTools} {EC : EntryCodec} {HJ : HeaderJSON} {LC : LineCodec} {SC : StoreCodec}.
Implicit Types (s : Session) (m : MemoryStore).

(** ** The origin a store finds *)

(** A session the store holds under [id] that has the entry [base]. *)
Definition holds_base (base id : string) m : Prop := exists s, ms_sessions m !! id = Some s /\ has_entry s base = true.

Lemma origin_chain_holds fuel : forall named base m, Forall (fun id => id <> "" /\ holds_base base id m) (origin_chain fuel named base m).1.
Proof.
  induction fuel as [|fuel IH]; intros named base m; cbn [origin_chain]; [constructor|].
  destruct (decide (named = "")) as [|Hn]; [constructor|]. destruct (ms_sessions m !! named) as [s|] eqn:Hs; [|constructor].
  destruct (has_entry s base) eqn:Hb; [|constructor]. cbn [negb]. assert (holds_base base named m) as Hh by (by exists s).
  destruct (_ || _); [by repeat constructor|]. specialize (IH (h_ParentSession (s_header s)) base m).
  destruct (origin_chain _ _ _ _) as [chain ends]. by constructor.
Qed.

Lemma holding_spec base owning m id : id ∈ holding base owning m <->
  exists s, ms_sessions m !! id = Some s /\ has_entry s base = true /\ negb (bool_decide (base ∈ s_prefix s)) = owning.
Proof.
  unfold holding. rewrite sort_strings_perm list_elem_of_filter list_elem_of_fmap. split.
  - intros [H _]. destruct (ms_sessions m !! id) as [s|]; [|done]. apply andb_true_iff in H as [H1 H2%bool_decide_eq_true]. by exists s.
  - intros (s & Hs & Hb & Ho). rewrite Hs Hb bool_decide_eq_true_2 //. split; [done|]. exists (id, s). split; [done|]. by apply elem_of_map_to_list.
Qed.

Lemma holding_any base m id : holds_base base id m <-> exists owning, id ∈ holding base owning m.
Proof.
  split.
  - intros (s & Hs & Hb). eexists. apply holding_spec. by exists s.
  - intros [owning (s & Hs & Hb & _)%holding_spec]. by exists s.
Qed.

Lemma first_admitted_in readable l id : first_admitted readable l = Some id -> readable id = true /\ id ∈ l.
Proof. unfold first_admitted. intros H. apply head_Some_elem_of, list_elem_of_filter in H. done. Qed.

Lemma first_admitted_none readable l : first_admitted readable l = None -> forall id, id ∈ l -> readable id = false.
Proof.
  unfold first_admitted. intros H id Hin. destruct (readable id) eqn:Hr; [|done].
  assert (id ∈ filter (fun id => readable id = true) l) as Hf by (by apply list_elem_of_filter).
  destruct (filter _ l); [by apply elem_of_nil in Hf|done].
Qed.

Lemma last_admitted readable c id : admitted_end readable c = Some id -> readable id = true /\ id ∈ Origin.Chain c.
Proof.
  unfold admitted_end. destruct (Origin.Ends c && forallb readable (Origin.Chain c)) eqn:Ha; [|done]. intros H. apply last_Some_elem_of in H.
  apply andb_true_iff in Ha as [_ Ha]. rewrite forallb_forall in Ha. split; [|done]. by apply Ha, list_elem_of_In.
Qed.

Lemma Pick_eq readable c : (Origin.Pick readable c).1 = default "" (pick_order readable c).
Proof. destruct (Origin.Pick readable c) as [id asked] eqn:H. by apply Pick_order in H as (-> & _). Qed.

Lemma pickOrigin_some ctx named base m id : pickOrigin ctx named base m = id -> id <> "" ->
  ReadableIn ctx id = true /\ holds_base base id m.
Proof.
  unfold pickOrigin. rewrite Pick_eq. unfold pick_order. intros <-. destruct (admitted_end _ _) as [x|] eqn:He; cbn.
  - intros _. apply last_admitted in He as [Hr Hin]. split; [done|]. unfold candidates in Hin.
    pose proof (origin_chain_holds 64 named base m) as Hall. destruct (origin_chain _ _ _ _) as [chain ends]. cbn in *.
    rewrite Forall_forall in Hall. by apply Hall.
  - destruct (first_admitted _ _) as [x|] eqn:Hf; [|done]. cbn. intros _. apply first_admitted_in in Hf as [Hr Hin]. split; [done|].
    unfold candidates in Hin. destruct (origin_chain _ _ _ _). cbn in Hin. apply holding_any.
    apply elem_of_app in Hin as [?|?]; by eexists.
Qed.

Lemma pickOrigin_none ctx named base m : pickOrigin ctx named base m = "" ->
  forall id, id <> "" -> holds_base base id m -> ReadableIn ctx id = true -> 
  exists s, ms_sessions m !! "" = Some s /\ has_entry s base = true.
Proof.
  unfold pickOrigin. rewrite Pick_eq. unfold pick_order. intros Hp id Hid Hb Hr. destruct (admitted_end _ _) as [x|] eqn:He; cbn in Hp.
  - subst x. apply last_admitted in He as [_ Hin]. unfold candidates in Hin.
    pose proof (origin_chain_holds 64 named base m) as Hall. destruct (origin_chain _ _ _ _) as [chain ends]. cbn in *.
    rewrite Forall_forall in Hall. by apply Hall in Hin as [? _].
  - apply holding_any in Hb as [owning Hin].
    assert (id ∈ Origin.Owners (candidates named base m) ++ Origin.OnPrefix (candidates named base m)) as Hin'.
    { unfold candidates. destruct (origin_chain _ _ _ _). cbn. apply elem_of_app. destruct owning; [by left|by right]. }
    destruct (first_admitted _ _) as [x|] eqn:Hf.
    + cbn in Hp. subst x. apply first_admitted_in in Hf as [_ Hf]. unfold candidates in Hf. destruct (origin_chain _ _ _ _). cbn in Hf.
      apply elem_of_app in Hf as [Hf|Hf]; apply holding_spec in Hf as (s & ? & ? & _); by exists s.
    + by rewrite (first_admitted_none _ _ Hf _ Hin') in Hr.
Qed.

Lemma heldOrigin_spec id base m o : heldOrigin id base m = Some o <-> ms_sessions m !! id = Some o /\ has_entry o base = true.
Proof.
  unfold heldOrigin. destruct (ms_sessions m !! id) as [s|]; [|split; [done|by intros [? _]]].
  destruct (has_entry s base) eqn:Hb; (split; [|intros [[= ->] ?]; congruence]); [by intros [= ->]|done].
Qed.

(** The origin the store finds for a fork is held, with its base, by the very
    store the lock is taken on, and the caller's check admits it; and when it
    finds none, either at some try no session the check admits held the base, or
    at every try the session picked was gone when the lock was taken. *)
Lemma lockOrigin_finds ctx named base tries last m origin :
  Forall (fun t => ms_sessions t.1 !! "" = None) tries -> lockOrigin ctx named base tries last = (m, origin) ->
  match origin with
  | Some o => exists id, ms_sessions m !! id = Some o /\ has_entry o base = true /\ ReadableIn ctx id = true
  | None =>
      (exists picked, (picked, m) ∈ tries /\ forall id, holds_base base id picked -> ReadableIn ctx id = false) \/
      (m = last /\ Forall (fun t => exists id, holds_base base id t.1 /\ ReadableIn ctx id = true /\ ~ holds_base base id t.2) tries)
  end.
Proof.
  induction 1 as [|[picked locked] tries Hn _ IH]; cbn [lockOrigin]; [intros [= <- <-]; right; by split|].
  cbn in Hn. destruct (decide (pickOrigin ctx named base picked = "")) as [Hp|Hp].
  - intros [= <- <-]. left. exists picked. split; [by left|]. intros id Hb. destruct (ReadableIn ctx id) eqn:Hr; [|done].
    assert (id <> "") as Hid by (intros ->; destruct Hb as (s & Hs & _); congruence).
    by destruct (pickOrigin_none _ _ _ _ Hp id Hid Hb Hr) as (s & Hs & _); rewrite Hn in Hs.
  - destruct (pickOrigin_some ctx named base picked _ eq_refl Hp) as [Hr Hb].
    destruct (heldOrigin _ base locked) as [o|] eqn:Hh.
    + intros [= <- <-]. apply heldOrigin_spec in Hh as [Hs Ho]. by eexists.
    + intros Hl. specialize (IH Hl). destruct origin as [o|]; [done|]. destruct IH as [(p & Hin & Hall)|[-> Hall]].
      * left. exists p. split; [by right|done].
      * right. split; [done|]. constructor; [|done]. exists (pickOrigin ctx named base picked). cbn. split; [done|]. split; [done|].
        intros (s & Hs & Ho). assert (heldOrigin (pickOrigin ctx named base picked) base locked = Some s) by (by apply heldOrigin_spec).
        congruence.
Qed.

(** ** The walk up the forks *)

(** [n] steps of a walk up from a session, by [parent_session]: each session
    below the last holds no dispatch of the call and has it on its prefix, and
    none names one below it. *)
Inductive fork_line (read : string -> result Session) (callEntry : string) (s : Session) : nat -> list string -> Session -> Prop :=
  | fl_here : fork_line read callEntry s 0 [] s
  | fl_up n below s1 s2 : fork_line read callEntry s n below s1 ->
      Dispatches s1 callEntry = [] -> callEntry ∈ s_prefix s1 -> h_ParentSession (s_header s1) <> "" ->
      h_ParentSession (s_header s1) ∉ h_ID (s_header s1) :: below -> read (h_ParentSession (s_header s1)) = Ok s2 ->
      fork_line read callEntry s (S n) (h_ID (s_header s1) :: below) s2.

(** How a walk ends at the session it has come to. *)
Inductive walk_ends (read : string -> result Session) (callEntry : string) (n : nat) (below : list string) (s : Session) :
    result (option (Session * list DispatchEntry)) -> Prop :=
  | we_found : Dispatches s callEntry <> [] -> walk_ends read callEntry n below s (Ok (Some (s, Dispatches s callEntry)))
  | we_own : Dispatches s callEntry = [] -> callEntry ∉ s_prefix s -> walk_ends read callEntry n below s (Ok None)
  | we_root : Dispatches s callEntry = [] -> h_ParentSession (s_header s) = "" -> walk_ends read callEntry n below s (Ok None)
  | we_absent : Dispatches s callEntry = [] -> n < MaxOriginDepth -> read (h_ParentSession (s_header s)) = Err ErrNoSession ->
      walk_ends read callEntry n below s (Ok None)
  | we_cycle : Dispatches s callEntry = [] -> h_ParentSession (s_header s) ∈ h_ID (s_header s) :: below ->
      walk_ends read callEntry n below s (Err ErrOriginChain)
  | we_deep : Dispatches s callEntry = [] -> n = MaxOriginDepth -> walk_ends read callEntry n below s (Err ErrOriginChain)
  | we_err e : Dispatches s callEntry = [] -> n < MaxOriginDepth -> read (h_ParentSession (s_header s)) = Err e -> e <> ErrNoSession ->
      walk_ends read callEntry n below s (Err e).

Lemma origin_dispatches_walk read callEntry s0 fuel : forall n below s, n + fuel = S MaxOriginDepth -> n <= MaxOriginDepth ->
  fork_line read callEntry s0 n below s ->
  exists n' below' s', n' <= MaxOriginDepth /\ fork_line read callEntry s0 n' below' s' /\
    walk_ends read callEntry n' below' s' (origin_dispatches fuel (Some read) callEntry (list_to_set below) n s).
Proof.
  induction fuel as [|fuel IH]; intros n below s Hn Hle Hline; [lia|]. cbn [origin_dispatches].
  assert (forall r, walk_ends read callEntry n below s r -> exists n' below' s', n' <= MaxOriginDepth /\
    fork_line read callEntry s0 n' below' s' /\ walk_ends read callEntry n' below' s' r) as Hhere by (by intros; exists n, below, s).
  destruct (decide (Dispatches s callEntry <> [])) as [Hd|Hd]; [by apply Hhere; constructor|]. apply dec_stable in Hd.
  case_bool_decide as Hp; cbn [negb]; [|by apply Hhere; apply we_own].
  destruct (decide (h_ParentSession (s_header s) = "")) as [Hr|Hr]; [by apply Hhere; apply we_root|].
  unfold refuse_if. case_bool_decide as Hc; cbn [rbind].
  { apply Hhere, we_cycle; [done|]. set_solver. }
  destruct (MaxOriginDepth <=? n) eqn:Hdeep; cbn [rbind].
  { apply Nat.leb_le in Hdeep. apply Hhere, we_deep; [done|lia]. }
  apply Nat.leb_gt in Hdeep. destruct (read _) as [o|e] eqn:Hread.
  - destruct (IH (S n) (h_ID (s_header s) :: below) o) as (n' & below' & s' & Hn' & Hl' & Hw); [lia|lia|eapply fl_up; try done; set_solver|].
    exists n', below', s'. split; [done|]. split; [done|]. by rewrite list_to_set_cons in Hw.
  - destruct (decide (e = ErrNoSession)) as [->|He]; apply Hhere; [by apply we_absent|by apply we_err].
Qed.

(** C21: The walk up the forks for a call's dispatches always comes to an end,
    within [MaxOriginDepth] reads, and what it returns is how it ended: the
    dispatches of the first session on the line that holds any, none where the
    call is the session's own, no parent is named or the store does not hold it,
    and an error for a line that meets itself, for one that is too long and for a
    read that fails. *)
Theorem OriginDispatches_walk read s callEntry : exists n below s', n <= MaxOriginDepth /\
  fork_line read callEntry s n below s' /\ walk_ends read callEntry n below s' (OriginDispatches (Some read) s callEntry).
Proof. apply (origin_dispatches_walk read callEntry s (S MaxOriginDepth) 0 [] s); [done|unfold MaxOriginDepth; lia|constructor]. Qed.
End Found.
