(* ===== verification/SessionFor.v ===== *)
(** * [SessionFor]: callers that each create a session for one name ([refs.go])

    A call is a loop of operations on the store, each atomic: between two of them
    other calls and other writers run.  It is modelled as a machine: [sf_pc] is
    the operation it is to make next, and the [sf_*] functions what it does with
    the answer.  [sf_step] interleaves calls on one store, which is any
    implementation of [RefStore]. *)
From S2P Require Import Prelude Entry Header Tree Leaf Calls CallRules Runs Verify Omit Digest Settings Context Hash Session GoStrings Refs Blob Store.
Open Scope session_scope.

(** What tells sessions the stores return apart, where the code compares
    pointers: the id, and the generation the store made it in. *)
Notation handle := (string * nat)%type (only parsing).

(** ** The stores a call works on ([Store], [RefStore]) *)

(** [rs_Create] relates the store before and after and the answer: what the
    header is filled with is the store's. *)
Class RefStore (T : Type) := {
  rs_Open : string -> T -> result handle;
  rs_Create : Header -> T -> T -> result handle -> Prop;
  rs_Delete : string -> T -> T * result unit;
  rs_ResolveRef : string -> T -> RefTarget * option error;
  rs_UpdateRef : Time -> string -> RefTarget -> RefTarget -> string -> T -> T * option updateError
}.

(** ** One call *)

Inductive sf_pc :=
  | Resolving
  | Opening (cur : RefTarget)
  | Creating (expected : RefTarget)
  | Updating (expected : RefTarget)
  | Deferred (r : result handle)
  | Returned (r : result handle).

Record sf_call := mkCall { sf_own : option handle; sf_at : sf_pc }.

Definition sf_start : sf_call := mkCall None Resolving.
Definition goto (pc : sf_pc) (c : sf_call) : sf_call := mkCall (sf_own c) pc.

(** Past the [switch] with no session to open: create one, or use the one created
    at an earlier turn. *)
Definition sf_expecting (expected : RefTarget) (c : sf_call) : sf_call :=
  goto (if sf_own c then Updating expected else Creating expected) c.

Definition sf_resolved (answer : RefTarget * option error) (c : sf_call) : sf_call :=
  match answer with
  | (cur, None) => goto (Opening cur) c
  | (_, Some ErrNoRef) => sf_expecting no_target c
  | (cur, Some ErrNoSession) => sf_expecting cur c
  | (_, Some err) => goto (Deferred (Err err)) c
  end.

Definition sf_opened (answer : result handle) (c : sf_call) : sf_call :=
  match answer with
  | Ok s => goto (Deferred (Ok s)) c
  | Err ErrNoSession => goto Resolving c
  | Err err => goto (Deferred (Err err)) c
  end.

Definition sf_created (expected : RefTarget) (answer : result handle) (c : sf_call) : sf_call :=
  match answer with
  | Ok own => mkCall (Some own) (Updating expected)
  | Err err => goto (Deferred (Err err)) c
  end.

(** The target an update sets: the session created, and no entry. *)
Definition sf_target (own : handle) : RefTarget := mkRefTarget own.1 "".

Definition sf_updated (own : handle) (answer : option updateError) (c : sf_call) : sf_call :=
  match answer with
  | None => goto (Deferred (Ok own)) c
  | Some (RefMovedError _) => goto Resolving c
  | Some (UpdateError err) => goto (Deferred (Err err)) c
  end.

(** The deferred function: the session it is to delete, if any, and what becomes
    of the call's results when it has. *)
Definition sf_discards (r : result handle) (c : sf_call) : option handle :=
  match sf_own c with
  | None => None
  | Some own => if decide (r = Ok own) then None else Some own
  end.
Definition sf_discarded (r : result handle) (answer : result unit) (c : sf_call) : sf_call :=
  match answer with
  | Err derr => if decide (derr = ErrNoSession) then goto (Returned r) c
                else goto (Returned (Err (match r with Err err => err | Ok _ => derr end))) c
  | Ok _ => goto (Returned r) c
  end.

(** ** Calls on one store *)

Section Machine.
Context {T : Type} {RS : RefStore T}.
Variables (name : string) (h : Header).

(** The store, the calls, and the ids used for sessions so far, the name's target
    among them. *)
Record sf_state := mkState { sf_store : T; sf_calls : list sf_call; sf_used : gset string }.

(** The answer a call gets from the store, and the call after it. *)
Inductive sf_turn (t : T) (used : gset string) (c : sf_call) : T -> gset string -> sf_call -> Prop :=
  | turn_resolve : sf_at c = Resolving -> sf_turn t used c t used (sf_resolved (rs_ResolveRef name t) c)
  | turn_open cur : sf_at c = Opening cur -> sf_turn t used c t used (sf_opened (rs_Open (rt_Session cur) t) c)
  | turn_create expected t' r : sf_at c = Creating expected -> rs_Create h t t' r ->
      sf_turn t used c t' (match r with Ok own => {[own.1]} ∪ used | Err _ => used end) (sf_created expected r c)
  | turn_update expected own now : sf_at c = Updating expected -> sf_own c = Some own ->
      sf_turn t used c (rs_UpdateRef now name expected (sf_target own) "created" t).1 used
        (sf_updated own (rs_UpdateRef now name expected (sf_target own) "created" t).2 c)
  | turn_return r : sf_at c = Deferred r -> sf_discards r c = None -> sf_turn t used c t used (goto (Returned r) c)
  | turn_discard r own : sf_at c = Deferred r -> sf_discards r c = Some own ->
      sf_turn t used c (rs_Delete own.1 t).1 used (sf_discarded r (rs_Delete own.1 t).2 c).

(** A step, and whose it is: [None] for another writer's, who may do anything to
    the store. *)
Inductive sf_step : sf_state -> option nat -> sf_state -> Prop :=
  | step_call t used cs i c t' used' c' : cs !! i = Some c -> sf_turn t used c t' used' c' ->
      sf_step (mkState t cs used) (Some i) (mkState t' (<[i := c']> cs) used')
  | step_other t used cs t' : sf_step (mkState t cs used) None (mkState t' cs used).

(** A step that is a quiet one: a session created has an id not used before, and
    another writer deletes no session, moves the name nowhere, and uses no id of a
    session that was deleted. *)
Definition quiet (st : sf_state) (who : option nat) (st' : sf_state) : Prop :=
  let t := sf_store st in let t' := sf_store st' in
  match who with
  | Some i => forall own, (sf_own <$> sf_calls st' !! i) = Some (Some own) ->
      (sf_own <$> sf_calls st !! i) = Some (Some own) \/ own.1 ∉ sf_used st
  | None =>
      (forall id s, rs_Open id t = Ok s -> rs_Open id t' = Ok s) /\
      (forall id s, rs_Open id t' = Ok s -> rs_Open id t = Ok s \/ id ∉ sf_used st) /\
      rs_ResolveRef name t' = rs_ResolveRef name t
  end.

(** Whether the name resolves otherwise after the step. *)
Definition moves (st st' : sf_state) : bool :=
  bool_decide (rs_ResolveRef name (sf_store st') <> rs_ResolveRef name (sf_store st)).

(** [n] calls begun on a store, all steps quiet if [b]; the steps made, newest
    first, and whether each moved the name. *)
Inductive sf_run (t0 : T) (n : nat) (b : bool) : list (option nat * bool) -> sf_state -> Prop :=
  | run_start : sf_run t0 n b [] (mkState t0 (replicate n sf_start) {[rt_Session (rs_ResolveRef name t0).1]})
  | run_more trace st who st' : sf_run t0 n b trace st -> sf_step st who st' -> (b = true -> quiet st who st') ->
      sf_run t0 n b ((who, moves st st') :: trace) st'.
End Machine.
