(* ===== verification/SessionForProps.v ===== *)
(** * Calls of [SessionFor] agree, and each returns

    Over any store that keeps [RefStoreLaws], whose operations are atomic: where the
    other writers delete nothing and leave the name alone ([quiet]), calls begun for
    one name that return a session all return the one the name then resolves to, and
    what the others created is gone ([SessionFor_agree]); and whatever the others do
    a call takes four operations at most and three more for each time another moved
    the name, six where all is quiet ([SessionFor_returns]).  The
    store in memory keeps the laws. *)
From S2P Require Import Prelude Entry Header Tree Leaf Calls CallRules Runs Verify Omit Digest Settings Context Hash Session GoStrings Refs RefsProps Blob Store SessionFor.
Open Scope session_scope.

(** What the calls rely on. *)
Class RefStoreLaws (T : Type) `{RS : RefStore T} := {
  (* a name that resolves names a session the store opens *)
  resolve_opens name t tg : rs_ResolveRef name t = (tg, None) -> exists s, rs_Open (rt_Session tg) t = Ok s;
  resolve_none name t tg : rs_ResolveRef name t = (tg, Some ErrNoRef) -> tg = no_target;
  (* a session created was not there; all else is as it was *)
  create_named h t t' own : rs_Create h t t' (Ok own) -> own.1 <> "";
  create_opens h t t' own : rs_Create h t t' (Ok own) -> rs_Open own.1 t' = Ok own;
  create_other h t t' own id : rs_Create h t t' (Ok own) -> id <> own.1 -> rs_Open id t' = rs_Open id t;
  create_refs h t t' own name : rs_Create h t t' (Ok own) -> rt_Session (rs_ResolveRef name t).1 <> own.1 ->
    rs_ResolveRef name t' = rs_ResolveRef name t;
  create_fails h t t' e : rs_Create h t t' (Err e) -> t' = t;
  create_target h t t' r name : rs_Create h t t' r -> (rs_ResolveRef name t').1 = (rs_ResolveRef name t).1;
  (* a creation can be asked for, and its id, where it is not given, be any but those in use *)
  create_answers h t : exists t' r, rs_Create h t t' r;
  create_fresh h t (used : gset string) : h_ID h = "" ->
    exists t' r, rs_Create h t t' r /\ forall own, r = Ok own -> own.1 ∉ used;
  (* a session deleted is gone, and one that is not there was *)
  delete_gone id t t' r s : rs_Delete id t = (t', r) -> r = Ok tt \/ r = Err ErrNoSession -> rs_Open id t' <> Ok s;
  delete_other id id' t : id' <> id -> rs_Open id' (rs_Delete id t).1 = rs_Open id' t;
  delete_refs id t name : rt_Session (rs_ResolveRef name t).1 <> id -> rs_ResolveRef name (rs_Delete id t).1 = rs_ResolveRef name t;
  (* an update is a compare-and-swap *)
  update_opens now name expected next reason t id :
    rs_Open id (rs_UpdateRef now name expected next reason t).1 = rs_Open id t;
  update_sets now name expected next reason t t' : rs_UpdateRef now name expected next reason t = (t', None) ->
    expected <> next -> next <> no_target -> (rs_ResolveRef name t).1 = expected /\ rs_ResolveRef name t' = (next, None);
  update_fails now name expected next reason t t' e : rs_UpdateRef now name expected next reason t = (t', Some e) -> t' = t;
  update_moved now name expected next reason t t' cur :
    rs_UpdateRef now name expected next reason t = (t', Some (RefMovedError cur)) -> (rs_ResolveRef name t).1 <> expected
}.

Section Props.
Context {T : Type} {RS : RefStore T} {RL : RefStoreLaws T}.
Variables (name : string) (h : Header) (t0 : T).

(** The name's target when the calls begin. *)
Definition first_target : RefTarget := (rs_ResolveRef name t0).1.

(** The name resolves to the session [s], at [tg]. *)
Definition live (t : T) (tg : RefTarget) (s : handle) : Prop :=
  rs_ResolveRef name t = (tg, None) /\ rs_Open (rt_Session tg) t = Ok s.
Definition begins_live : Prop := (rs_ResolveRef name t0).2 = None.

(** What holds of one call: the session it has created is open while it may still
    return it, and what it is to return the name resolves to. *)
Record call_ok (t : T) (used : gset string) (c : sf_call) : Prop := {
  co_own own : sf_own c = Some own -> own.1 ∈ used /\ own.1 <> rt_Session first_target /\ own.1 <> "" /\ ~ begins_live;
  co_open own : sf_own c = Some own -> match sf_at c with Returned _ => True | _ => rs_Open own.1 t = Ok own end;
  co_at : match sf_at c with
    | Resolving => is_Some (sf_own c) -> exists tg s, live t tg s
    | Opening cur => exists s, live t cur s
    | Creating expected => sf_own c = None /\ expected = first_target /\ ~ begins_live
    | Updating expected => is_Some (sf_own c) /\ expected = first_target
    | Deferred (Ok s) => exists tg, live t tg s
    | Deferred (Err _) => True
    | Returned (Ok s) => (exists tg, live t tg s) /\
        forall own, sf_own c = Some own -> own = s \/ forall x, rs_Open own.1 t <> Ok x
    | Returned (Err _) => True
    end
}.

(** The name is as the calls found it, or resolves to what one of them created
    and has returned or is to. *)
Definition winner (cs : list sf_call) (tg : RefTarget) (s : handle) : Prop :=
  exists i c, cs !! i = Some c /\ sf_own c = Some s /\ tg = sf_target s /\ (sf_at c = Deferred (Ok s) \/ sf_at c = Returned (Ok s)).
Definition name_ok (t : T) (cs : list sf_call) : Prop :=
  rs_ResolveRef name t = rs_ResolveRef name t0 \/ (~ begins_live /\ exists tg s, live t tg s /\ winner cs tg s).

Record calls_ok (st : sf_state) : Prop := {
  ca_calls i c : sf_calls st !! i = Some c -> call_ok (sf_store st) (sf_used st) c;
  ca_apart i j c c' own own' : sf_calls st !! i = Some c -> sf_calls st !! j = Some c' ->
    sf_own c = Some own -> sf_own c' = Some own' -> own.1 = own'.1 -> i = j;
  ca_name : name_ok (sf_store st) (sf_calls st);
  ca_first : rt_Session first_target ∈ sf_used st
}.

Lemma live_same t tg s tg' s' : live t tg s -> live t tg' s' -> tg = tg' /\ s = s'.
Proof. intros [H1 H2] [H1' H2']. rewrite H1 in H1'. injection H1' as <-. rewrite H2 in H2'. by injection H2' as <-. Qed.

(** What a call begun with the name live, or dead, meets. *)
Lemma live_first t cs : name_ok t cs -> rs_ResolveRef name t = rs_ResolveRef name t0 -> ~ begins_live -> forall tg s, ~ live t tg s.
Proof. intros _ Heq Hn tg s [Hr _]. apply Hn. unfold begins_live. by rewrite -Heq Hr. Qed.

(** The name's target is one of the ids used, and no call but the winner made it. *)
Lemma live_used st tg s : calls_ok st -> live (sf_store st) tg s -> rt_Session tg ∈ sf_used st.
Proof.
  intros [Hc _ Hn Hf] [Hr Ho]. destruct Hn as [Heq|(_ & tg' & s' & Hl & (i & c & Hi & Hown & -> & _))].
  - assert (tg = first_target) as -> by (unfold first_target; by rewrite -Heq Hr). done.
  - destruct (live_same _ _ _ _ _ (conj Hr Ho) Hl) as [-> ->]. by destruct (co_own _ _ _ (Hc _ _ Hi) _ Hown).
Qed.

Lemma live_own st i c own tg s : calls_ok st -> sf_calls st !! i = Some c -> sf_own c = Some own -> live (sf_store st) tg s ->
  own.1 = rt_Session tg -> sf_at c = Deferred (Ok s) \/ sf_at c = Returned (Ok s).
Proof.
  intros [Hc Hap Hn Hf] Hi Hown [Hr Ho] Heq. destruct (co_own _ _ _ (Hc _ _ Hi) _ Hown) as (_ & Hne & _).
  destruct Hn as [Hsame|(_ & tg' & s' & Hl & (j & c' & Hj & Hown' & -> & Hat))].
  - exfalso. apply Hne. rewrite Heq. unfold first_target. by rewrite -Hsame Hr.
  - destruct (live_same _ _ _ _ _ (conj Hr Ho) Hl) as [-> ->]. assert (i = j) as -> by (by eapply Hap). by simplify_eq.
Qed.

(** *** What a step of one call leaves the others *)

(** The store changed, and what held of a call still does. *)
Lemma call_ok_frame t used t' used' c : used ⊆ used' -> (forall tg s, live t tg s -> live t' tg s) ->
  (forall own, sf_own c = Some own -> (forall r, sf_at c <> Returned r) -> rs_Open own.1 t = Ok own -> rs_Open own.1 t' = Ok own) ->
  (forall own x, sf_own c = Some own -> rs_Open own.1 t' = Ok x -> exists y, rs_Open own.1 t = Ok y) ->
  call_ok t used c -> call_ok t' used' c.
Proof.
  intros Hu Hl Ho Hg [H1 H2 H3]. split.
  - intros own Hown. destruct (H1 own Hown) as (? & ? & ? & ?). split_and!; [set_solver|done..].
  - intros own Hown. specialize (H2 own Hown). specialize (Ho own Hown). destruct (sf_at c); try done; by apply Ho.
  - destruct (sf_at c) as [|cur|exp|exp|[s|]|[s|]]; try done.
    + intros (tg & s & H)%H3. eauto.
    + destruct H3 as [s H]. eauto.
    + destruct H3 as [tg H]. eauto.
    + destruct H3 as [[tg H] Hgone]. split; [by eauto|]. intros own Hown. destruct (Hgone own Hown) as [|Hno]; [by left|right].
      intros x Hx. destruct (Hg own x Hown Hx) as [y Hy]. by eapply Hno.
Qed.

(** The calls after one of them took a turn. *)
Lemma calls_turn t cs used i c t' used' c' : calls_ok (mkState t cs used) -> cs !! i = Some c ->
  used ⊆ used' -> (forall tg s, live t tg s -> live t' tg s) ->
  (forall j d own, j <> i -> cs !! j = Some d -> sf_own d = Some own -> rs_Open own.1 t' = rs_Open own.1 t) ->
  call_ok t' used' c' ->
  (forall own, sf_own c' = Some own -> sf_own c = Some own \/ own.1 ∉ used) ->
  (forall s, sf_at c = Deferred (Ok s) \/ sf_at c = Returned (Ok s) -> sf_own c = Some s -> sf_own c' = Some s /\ sf_at c' = Returned (Ok s)) ->
  (rs_ResolveRef name t' = rs_ResolveRef name t \/ name_ok t' (<[i := c']> cs)) ->
  calls_ok (mkState t' (<[i := c']> cs) used').
Proof.
  intros [Hc Hap Hn Hf] Hi Hu Hl Ho Hok Hown Hwin Hname. cbn [sf_calls sf_store sf_used] in *.
  assert (i < length cs) as Hlt by (by eapply lookup_lt_Some). split; cbn [sf_calls sf_store sf_used].
  - intros j d [(<- & <- & _)|[Hne Hj]]%list_lookup_insert_Some; [done|]. eapply call_ok_frame; [done..| | |by apply Hc in Hj].
    + intros own Hd _ Hopen. by rewrite (Ho j d own).
    + intros own x Hd Hx. exists x. by rewrite -(Ho j d own).
  - intros j k d d' own own' Hj Hk Hd Hd' Heq.
    apply list_lookup_insert_Some in Hj as [(<- & <- & _)|[Hne Hj]], Hk as [(<- & <- & _)|[Hne' Hk]]; [done| | |by eapply Hap].
    + destruct (Hown _ Hd) as [Hd0|Hnew]; [by eapply Hap|]. destruct (co_own _ _ _ (Hc _ _ Hk) _ Hd') as (Hin & _). by rewrite Heq in Hnew.
    + destruct (Hown _ Hd') as [Hd0|Hnew]; [by eapply Hap|]. destruct (co_own _ _ _ (Hc _ _ Hj) _ Hd) as (Hin & _). by rewrite -Heq in Hnew.
  - destruct Hname as [Heq|]; [|done]. destruct Hn as [Hsame|(Hb & tg & s & Hlive & (j & d & Hj & Hd & Htg & Hat))]; [left; congruence|right].
    split; [done|]. exists tg, s. split; [by apply Hl|]. destruct (decide (j = i)) as [->|Hne].
    + simplify_eq. destruct (Hwin _ Hat Hd) as [? ?]. exists i, c'. rewrite list_lookup_insert_eq //. by auto.
    + exists j, d. rewrite list_lookup_insert_ne //.
  - set_solver.
Qed.

(** A turn that leaves the store alone. *)
Lemma calls_quiet t cs used i c c' : calls_ok (mkState t cs used) -> cs !! i = Some c -> call_ok t used c' ->
  sf_own c' = sf_own c ->
  (forall s, sf_at c = Deferred (Ok s) \/ sf_at c = Returned (Ok s) -> sf_own c = Some s -> sf_at c' = Returned (Ok s)) ->
  calls_ok (mkState t (<[i := c']> cs) used).
Proof.
  intros Hok Hi Hc' Hown Hwin. eapply calls_turn; try done.
  - intros own H. left. by rewrite -Hown.
  - intros s Hat H. split; [by rewrite Hown|by apply Hwin].
  - by left.
Qed.

(** *** The turns *)

Lemma resolved_dead t cs used cur e : calls_ok (mkState t cs used) -> rs_ResolveRef name t = (cur, Some e) ->
  cur = first_target /\ ~ begins_live /\ forall tg s, ~ live t tg s.
Proof.
  intros [_ _ Hn _] Hr. assert (forall tg s, ~ live t tg s) as Hdead by (intros tg s [Hl _]; by rewrite Hr in Hl).
  destruct Hn as [Hsame|(_ & tg & s & Hl & _)]; [|by apply Hdead in Hl]. cbn in Hsame. unfold first_target, begins_live. by rewrite -Hsame Hr.
Qed.

Lemma own_resolved answer c : sf_own (sf_resolved answer c) = sf_own c.
Proof. by destruct answer as [cur [[]|]]. Qed.

Lemma turn_resolve_ok t cs used i c : calls_ok (mkState t cs used) -> cs !! i = Some c -> sf_at c = Resolving ->
  calls_ok (mkState t (<[i := sf_resolved (rs_ResolveRef name t) c]> cs) used).
Proof.
  intros Hok Hi Hat. pose proof (ca_calls _ Hok _ _ Hi) as [H1 H2 H3]. cbn in H1, H2, H3. rewrite Hat in H3.
  assert (forall cur e, rs_ResolveRef name t = (cur, Some e) -> sf_own c = None /\ cur = first_target /\ ~ begins_live) as Hdead.
  { intros cur e Hr. destruct (resolved_dead _ _ _ _ _ Hok Hr) as (? & ? & Hd). split; [|done].
    destruct (sf_own c); [|done]. destruct H3 as (tg & s & Hl); [done|]. by apply Hd in Hl. }
  apply (calls_quiet t cs used i c); [done|done| | |intros s [?|?]; congruence].
  - split; [| |].
    + rewrite own_resolved. apply H1.
    + rewrite own_resolved. intros own Hown. specialize (H2 own Hown). rewrite Hat in H2. by destruct (sf_at (sf_resolved _ _)).
    + destruct (rs_ResolveRef name t) as [cur [e|]] eqn:Hr.
      * destruct (Hdead cur e eq_refl) as (Hown & -> & Hb). unfold sf_resolved, sf_expecting. rewrite Hown.
        destruct e; cbn; try done. apply resolve_none in Hr. by rewrite Hr.
      * cbn. destruct (resolve_opens _ _ _ Hr) as [s Hs]. by exists s.
  - apply own_resolved.
Qed.

Lemma turn_open_ok t cs used i c cur : calls_ok (mkState t cs used) -> cs !! i = Some c -> sf_at c = Opening cur ->
  calls_ok (mkState t (<[i := sf_opened (rs_Open (rt_Session cur) t) c]> cs) used).
Proof.
  intros Hok Hi Hat. pose proof (ca_calls _ Hok _ _ Hi) as [H1 H2 H3]. cbn in H1, H2, H3. rewrite Hat in H3. destruct H3 as [s [Hr Hs]].
  rewrite Hs. cbn [sf_opened]. apply (calls_quiet t cs used i c); [done|done| |done|intros x [?|?]; congruence].
  split; cbn; [done| |by exists cur]. intros own Hown. specialize (H2 own Hown). by rewrite Hat in H2.
Qed.

Lemma turn_return_ok t cs used i c r : calls_ok (mkState t cs used) -> cs !! i = Some c -> sf_at c = Deferred r ->
  sf_discards r c = None -> calls_ok (mkState t (<[i := goto (Returned r) c]> cs) used).
Proof.
  intros Hok Hi Hat Hd. pose proof (ca_calls _ Hok _ _ Hi) as [H1 H2 H3]. cbn in H1, H2, H3. rewrite Hat in H3.
  apply (calls_quiet t cs used i c); [done|done| |done|intros s [?|?]; [cbn; congruence|congruence]].
  split; cbn; [done|done|]. destruct r as [s|]; [|done]. split; [done|]. intros own Hown. left.
  unfold sf_discards in Hd. rewrite Hown in Hd. destruct (decide _); naive_solver.
Qed.

(** A session's deletion leaves the name as it is, unless it is what the name
    resolves to. *)
Lemma turn_discard_ok t cs used i c r own : calls_ok (mkState t cs used) -> cs !! i = Some c -> sf_at c = Deferred r ->
  sf_discards r c = Some own ->
  calls_ok (mkState (rs_Delete own.1 t).1 (<[i := sf_discarded r (rs_Delete own.1 t).2 c]> cs) used).
Proof.
  intros Hok Hi Hat Hd. pose proof (ca_calls _ Hok _ _ Hi) as [H1 H2 H3]. cbn in H1, H2, H3. rewrite Hat in H3.
  assert (sf_own c = Some own /\ r <> Ok own) as [Hown Hne].
  { unfold sf_discards in Hd. destruct (sf_own c); [|done]. destruct (decide _); naive_solver. }
  assert (forall tg s, live t tg s -> own.1 <> rt_Session tg) as Hnot.
  { intros tg s Hl He. destruct (live_own _ _ _ _ _ _ Hok Hi Hown Hl He) as [Hx|Hx]; rewrite Hat in Hx; [|done]. injection Hx as ->.
    destruct Hl as [_ Hl]. rewrite -He in Hl. specialize (H2 _ Hown). rewrite Hat Hl in H2. by injection H2 as ->. }
  assert (own.1 <> rt_Session (rs_ResolveRef name t).1) as Hname.
  { destruct (ca_name _ Hok) as [Hsame|(_ & tg & s & Hl & _)]; cbn in *.
    - rewrite Hsame. by apply H1.
    - destruct Hl as [Hr Ho]. rewrite Hr. by apply (Hnot _ s). }
  assert (rs_ResolveRef name (rs_Delete own.1 t).1 = rs_ResolveRef name t) as Hr by (by apply delete_refs).
  assert (forall tg s, live t tg s -> live (rs_Delete own.1 t).1 tg s) as Hl.
  { intros tg s Hl. pose proof (Hnot _ _ Hl). destruct Hl as [Ha Hb]. split; [by rewrite Hr|]. by rewrite delete_other. }
  set (c' := sf_discarded _ _ _).
  assert (sf_own c' = Some own /\ exists r', sf_at c' = Returned r' /\ (r' = r \/ exists e, r' = Err e) /\
    (forall s, r' = Ok s -> (rs_Delete own.1 t).2 = Ok tt \/ (rs_Delete own.1 t).2 = Err ErrNoSession)) as [Hown' (r' & Hat' & Hr' & Hgone)].
  { unfold c', sf_discarded, goto. destruct ((rs_Delete own.1 t).2) as [[]|derr]; [by split; [|exists r; split_and!; [|left|left]]|].
    destruct (decide (derr = ErrNoSession)) as [->|]; [by split; [|exists r; split_and!; [|left|right]]|].
    split; [done|]. eexists. split; [done|]. split; [by right; eexists|done]. }
  eapply calls_turn; [exact Hok|exact Hi|done|exact Hl| | | | |by left].
  - intros j d o Hj Hjd Ho. apply delete_other. intros Heq. apply Hj. symmetry. by eapply (ca_apart _ Hok).
  - split.
    + intros o. rewrite Hown'. intros [= <-]. by apply H1.
    + intros o _. by rewrite Hat'.
    + rewrite Hat'. destruct r' as [s|]; [|done]. destruct Hr' as [<-|[e He]]; [|done]. split.
      * destruct H3 as [tg H3]. by exists tg; apply Hl.
      * intros o. rewrite Hown'. intros [= <-]. right. intros x. eapply delete_gone; [by apply surjective_pairing|by eapply Hgone].
  - intros o. rewrite Hown' Hown. by left.
  - intros s Hx Ho. rewrite Hat in Hx. destruct Hx as [Hx|Hx]; [|done]. injection Hx as ->. by simplify_eq.
Qed.

Lemma turn_create_ok t cs used i c expected t' r : calls_ok (mkState t cs used) -> cs !! i = Some c -> sf_at c = Creating expected ->
  rs_Create h t t' r -> (forall own, r = Ok own -> own.1 ∉ used) ->
  calls_ok (mkState t' (<[i := sf_created expected r c]> cs) (match r with Ok own => {[own.1]} ∪ used | Err _ => used end)).
Proof.
  intros Hok Hi Hat Hcr Hfresh. pose proof (ca_calls _ Hok _ _ Hi) as [H1 H2 H3]. cbn in H1, H2, H3. rewrite Hat in H3.
  destruct H3 as (Hown & -> & Hb). destruct r as [own|e].
  2:{ apply create_fails in Hcr as ->. apply (calls_quiet t cs used i c); [done|done| |done|intros x [?|?]; congruence].
      split; cbn; [done| |done]. intros o Ho. specialize (H2 o Ho). by rewrite Hat in H2. }
  specialize (Hfresh own eq_refl). cbn [sf_created].
  assert (forall tg s, live t tg s -> live t' tg s) as Hl.
  { intros tg s Hl. pose proof (live_used _ _ _ Hok Hl) as Hu. cbn in Hu. destruct Hl as [Hr Ho]. split.
    - rewrite -Hr. eapply create_refs; [done|]. rewrite Hr. cbn. intros Heq. by rewrite Heq in Hu.
    - rewrite -Ho. eapply create_other; [done|]. intros Heq. by rewrite Heq in Hu. }
  assert (rs_ResolveRef name t' = rs_ResolveRef name t) as Hr.
  { eapply create_refs; [done|]. intros Heq. apply Hfresh. rewrite -Heq. destruct (ca_name _ Hok) as [Hsame|(_ & tg & s & Hlive & _)]; cbn in *.
    - rewrite Hsame. apply (ca_first _ Hok).
    - pose proof (live_used _ _ _ Hok Hlive). destruct Hlive as [-> _]. done. }
  eapply calls_turn; [exact Hok|exact Hi|set_solver|exact Hl| | | | |by left].
  - intros j d o Hj Hjd Ho. eapply create_other; [done|]. intros Heq. apply Hfresh. rewrite -Heq.
    by destruct (co_own _ _ _ (ca_calls _ Hok _ _ Hjd) _ Ho).
  - split; cbn.
    + intros o [= <-]. split; [set_solver|]. split; [|split; [by eapply create_named|done]]. intros Heq. apply Hfresh. rewrite Heq. apply (ca_first _ Hok).
    + intros o [= <-]. by eapply create_opens.
    + done.
  - intros o [= <-]. by right.
  - intros s [Hx|Hx]; congruence.
Qed.

Lemma turn_update_ok t cs used i c expected own now : calls_ok (mkState t cs used) -> cs !! i = Some c -> sf_at c = Updating expected ->
  sf_own c = Some own ->
  calls_ok (mkState (rs_UpdateRef now name expected (sf_target own) "created" t).1
    (<[i := sf_updated own (rs_UpdateRef now name expected (sf_target own) "created" t).2 c]> cs) used).
Proof.
  intros Hok Hi Hat Hown. pose proof (ca_calls _ Hok _ _ Hi) as [H1 H2 H3]. cbn in H1, H2, H3. rewrite Hat in H3.
  destruct H3 as (_ & ->). destruct (H1 _ Hown) as (Hu & Hne & Hz & Hb). specialize (H2 _ Hown). rewrite Hat in H2.
  destruct (rs_UpdateRef _ _ _ _ _ _) as [t' [err|]] eqn:Hup; cbn [fst snd].
  - pose proof (update_fails _ _ _ _ _ _ _ _ Hup) as ->.
    assert (sf_own (sf_updated own (Some err) c) = sf_own c) as Ho by (by destruct err).
    apply (calls_quiet t cs used i c); [done|done| |done|intros x [?|?]; congruence]. split; [by rewrite Ho| |].
    + intros o. rewrite Ho. intros Ho'. simplify_eq. by destruct err.
    + destruct err as [cur|err]; cbn; [|done]. intros _. apply update_moved in Hup. destruct (ca_name _ Hok) as [Hsame|(_ & tg & s & Hl & _)]; cbn in *.
      * by rewrite Hsame in Hup.
      * by exists tg, s.
  - apply update_sets in Hup as Hset; [|intros Heq; apply Hne; by rewrite Heq|intros [= Heq]; by apply Hz]. destruct Hset as [Hr Hr'].
    assert (rs_Open own.1 t' = Ok own) as Ho.
    { rewrite -H2. pose proof (update_opens now name first_target (sf_target own) "created" t own.1) as Hop. by rewrite Hup in Hop. }
    assert (live t' (sf_target own) own) as Hlive by done.
    assert (forall tg s, ~ live t tg s) as Hdead.
    { intros tg s [Hl Hs]. destruct (ca_name _ Hok) as [Hsame|(_ & tg' & s' & Hl' & Hw)]; cbn in *.
      - apply Hb. unfold begins_live. by rewrite -Hsame Hl.
      - destruct (live_same _ _ _ _ _ (conj Hl Hs) Hl') as [-> ->]. destruct Hw as (j & d & Hj & Hd & -> & _).
        rewrite Hl in Hr. cbn in Hr. destruct (co_own _ _ _ (ca_calls _ Hok _ _ Hj) _ Hd) as (_ & Hn & _). apply Hn. by rewrite -Hr. }
    eapply calls_turn; [exact Hok|exact Hi|done|by intros tg s Hl; apply Hdead in Hl| | | | |right].
    + intros j d o Hj Hjd Hd. pose proof (update_opens now name first_target (sf_target own) "created" t o.1) as Hop. by rewrite Hup in Hop.
    + split; cbn; [done| |by eexists]. intros o Hx. by simplify_eq.
    + intros o. cbn. by left.
    + intros s [Hx|Hx]; congruence.
    + right. split; [done|]. exists (sf_target own), own. split; [done|]. exists i. eexists. rewrite list_lookup_insert_eq; [|by eapply lookup_lt_Some].
      split; [done|]. cbn. by auto.
Qed.

Lemma step_other_ok t cs used t' : calls_ok (mkState t cs used) ->
  (forall id s, rs_Open id t = Ok s -> rs_Open id t' = Ok s) ->
  (forall id s, rs_Open id t' = Ok s -> rs_Open id t = Ok s \/ id ∉ used) ->
  rs_ResolveRef name t' = rs_ResolveRef name t -> calls_ok (mkState t' cs used).
Proof.
  intros [Hc Hap Hn Hf] Ho Hback Hr. cbn in *. assert (forall tg s, live t tg s -> live t' tg s) as Hl.
  { intros tg s [Ha Hb]. split; [by rewrite Hr|by apply Ho]. }
  split; cbn; [|done| |done].
  - intros i c Hi. pose proof (Hc _ _ Hi) as Hci. eapply call_ok_frame; [done|exact Hl| | |exact Hci].
    + intros own _ _. apply Ho.
    + intros own x Hown Hx. destruct (Hback _ _ Hx) as [|Hn']; [by exists x|]. by destruct (co_own _ _ _ Hci _ Hown) as [? _].
  - destruct Hn as [Hsame|(Hb & tg & s & Hlive & Hw)]; [left; congruence|right]. split; [done|]. exists tg, s. split; [by apply Hl|done].
Qed.

Lemma step_calls_ok st who st' : calls_ok st -> sf_step name h st who st' -> quiet name st who st' -> calls_ok st'.
Proof.
  intros Hok Hs. revert Hok. destruct Hs as [t used cs i c t' used' c' Hi Ht|t used cs t'];
    intros Hok Hq; [|destruct Hq as (? & ? & ?); by eapply step_other_ok].
  assert (forall own, sf_own c' = Some own -> sf_own c = Some own \/ own.1 ∉ used) as Hfresh.
  { intros own Ho. cbn in Hq. specialize (Hq own). rewrite list_lookup_insert_eq in Hq; [|by eapply lookup_lt_Some].
    rewrite Hi in Hq. cbn in Hq. destruct Hq as [[=]|]; [by rewrite Ho|by left|by right]. }
  clear Hq. destruct Ht as [Hat|cur Hat|expected t' r Hat Hcr|expected own now Hat Hown|r Hat Hd|r own Hat Hd].
  - by apply turn_resolve_ok.
  - by apply turn_open_ok.
  - eapply turn_create_ok; [done..|]. intros own ->. destruct (Hfresh own eq_refl) as [Ho|]; [|done].
    pose proof (co_at _ _ _ (ca_calls _ Hok _ _ Hi)) as H3. rewrite Hat in H3. destruct H3 as (Hnone & _). by rewrite Hnone in Ho.
  - by apply turn_update_ok.
  - by apply turn_return_ok.
  - by apply turn_discard_ok.
Qed.

Lemma run_calls_ok n trace st : sf_run name h t0 n true trace st -> calls_ok st.
Proof.
  induction 1 as [|trace st who st' _ IH Hs Hq]; [|by eapply step_calls_ok; [..|apply Hq]]. split; cbn; [| |by left|set_solver].
  - intros i c Hi. apply lookup_replicate in Hi as [-> _]. by split; cbn; [| |intros []].
  - intros i j c c' own own' Hi _ Ho. apply lookup_replicate in Hi as [-> _]. done.
Qed.

(** ** Agreement *)

(** C17: Calls of [SessionFor] begun for one name, however their operations
    interleave with each other and with writers who delete nothing and leave the
    name alone, where each session created has an id of its own (quiet steps),
    agree: what any of them returns, where it returns a session, is the one the
    name resolves to, so all of those return the same; and the session a call
    created and did not return is gone. *)
Theorem SessionFor_agree n trace st i c s : sf_run name h t0 n true trace st ->
  sf_calls st !! i = Some c -> sf_at c = Returned (Ok s) ->
  (exists tg, rs_ResolveRef name (sf_store st) = (tg, None) /\ rs_Open (rt_Session tg) (sf_store st) = Ok s) /\
  (forall j c' s', sf_calls st !! j = Some c' -> sf_at c' = Returned (Ok s') -> s' = s) /\
  (forall own, sf_own c = Some own -> own = s \/ forall x, rs_Open own.1 (sf_store st) <> Ok x).
Proof.
  intros Hok%run_calls_ok Hi Hat. pose proof (co_at _ _ _ (ca_calls _ Hok _ _ Hi)) as H. rewrite Hat in H. destruct H as [[tg Hl] Hg].
  split; [by exists tg|]. split; [|done]. intros j c' s' Hj Hat'. pose proof (co_at _ _ _ (ca_calls _ Hok _ _ Hj)) as H'. rewrite Hat' in H'.
  destruct H' as [[tg' Hl'] _]. by destruct (live_same _ _ _ _ _ Hl Hl').
Qed.

(** ** Return *)

(** The operations a call has yet to make, at most. *)
Definition sf_left (c : sf_call) : nat :=
  match sf_at c with
  | Resolving => if sf_own c then 3 else 6
  | Creating _ => 5
  | Updating _ => 4
  | Opening _ => 2
  | Deferred _ => 1
  | Returned _ => 0
  end.

Lemma turn_left t cs used i c t' used' c' : calls_ok (mkState t cs used) -> cs !! i = Some c ->
  sf_turn name h t used c t' used' c' -> sf_left c' < sf_left c.
Proof.
  intros Hok Hi Ht. pose proof (co_at _ _ _ (ca_calls _ Hok _ _ Hi)) as H3. cbn in H3. unfold sf_left.
  destruct Ht as [Hat|cur Hat|expected t' r Hat Hcr|expected own now Hat Hown|r Hat Hd|r own Hat Hd]; rewrite Hat in H3; rewrite Hat.
  - rewrite own_resolved. destruct (rs_ResolveRef name t) as [cur [e|]] eqn:Hr; [|destruct (sf_own c); cbn; lia].
    destruct (sf_own c) eqn:Hown; [|destruct e; cbn; unfold sf_expecting; rewrite ?Hown; cbn; lia].
    destruct H3 as (tg & s & Hl & _); [done|]. by rewrite Hr in Hl.
  - destruct H3 as [s [_ Hs]]. rewrite Hs. cbn. lia.
  - destruct r; cbn; lia.
  - destruct ((rs_UpdateRef _ _ _ _ _ _).2) as [[]|]; cbn; rewrite ?Hown; lia.
  - cbn. lia.
  - unfold sf_discarded. destruct ((rs_Delete _ _).2); [cbn; lia|]. destruct (decide _); cbn; lia.
Qed.

(** The turns call [i] has taken, and the times another call or writer moved the name. *)
Definition turns (i : nat) (trace : list (option nat * bool)) : nat := length (filter (fun l => l.1 = Some i) trace).
Definition moved_by_others (i : nat) (trace : list (option nat * bool)) : nat :=
  length (filter (fun l => l.1 <> Some i /\ l.2 = true) trace).

Lemma run_length n b trace st : sf_run name h t0 n b trace st -> length (sf_calls st) = n.
Proof.
  induction 1 as [|trace st who st' _ IH Hs _]; cbn; [apply length_replicate|]. destruct Hs; cbn in *; [by rewrite length_insert|done].
Qed.

Lemma run_left n trace st : sf_run name h t0 n true trace st ->
  forall i c, sf_calls st !! i = Some c -> turns i trace + sf_left c <= 6.
Proof.
  induction 1 as [|trace st who st' Hr IH Hs Hq]; cbn [sf_calls].
  { intros i c Hi. apply lookup_replicate in Hi as [-> _]. done. }
  apply run_calls_ok in Hr. clear Hq. set (m := moves _ _ _). clearbody m. revert Hr IH.
  destruct Hs as [t used cs i c t' used' c' Hi Ht|t used cs t']; cbn [sf_calls]; intros Hr IH.
  - intros j d Hj. apply list_lookup_insert_Some in Hj as [(<- & <- & _)|[Hne Hj]].
    + unfold turns. rewrite filter_cons_True //. cbn [length]. pose proof (turn_left _ _ _ _ _ _ _ _ Hr Hi Ht). specialize (IH _ _ Hi). unfold turns in IH. lia.
    + unfold turns. rewrite filter_cons_False; [by apply IH|]. cbn. congruence.
  - intros j d Hj. unfold turns. rewrite filter_cons_False; [|done]. by apply IH.
Qed.

(** *** Whatever the others do *)

(** What a call knows of the name is as the name is. *)
Definition informed (t : T) (c : sf_call) : Prop :=
  match sf_at c with
  | Opening cur => rs_ResolveRef name t = (cur, None)
  | Creating expected | Updating expected => (rs_ResolveRef name t).1 = expected
  | _ => True
  end.

(** The turns it has yet to take if the name is moved no more, and is as the call
    knows it or is not. *)
Definition turns_informed (c : sf_call) : nat :=
  match sf_at c with
  | Resolving => if sf_own c then 3 else 4
  | Creating _ => 3
  | Opening _ | Updating _ => 2
  | Deferred _ => 1
  | Returned _ => 0
  end.
Definition turns_misled (c : sf_call) : nat :=
  match sf_at c with
  | Resolving => if sf_own c then 3 else 4
  | Creating _ | Opening _ => 5
  | Updating _ => 4
  | Deferred _ => 1
  | Returned _ => 0
  end.

(** A call has a session of its own to update the name with, and none to create it anew. *)
Definition stocked (c : sf_call) : Prop :=
  match sf_at c with Updating _ => is_Some (sf_own c) | Creating _ => sf_own c = None | _ => True end.

Lemma turn_stocked t used c t' used' c' : sf_turn name h t used c t' used' c' -> stocked c -> stocked c'.
Proof.
  intros Ht. destruct Ht as [Hat|cur Hat|expected t' r Hat Hcr|expected own now Hat Hown|r Hat Hd|r own Hat Hd]; intros Hs.
  - destruct (rs_ResolveRef name t) as [cur [[]|]]; cbn; unfold sf_expecting, stocked; cbn; destruct (sf_own c) eqn:E; cbn; rewrite ?E; done.
  - destruct (rs_Open _ t) as [|[]]; done.
  - destruct r; [by eexists|done].
  - by destruct ((rs_UpdateRef _ _ _ _ _ _).2) as [[]|].
  - done.
  - unfold sf_discarded. destruct ((rs_Delete _ _).2); [done|]. by destruct (decide _).
Qed.

(** A turn of a call that is informed leaves it informed, and is one fewer. *)
Lemma turn_informed t used c t' used' c' : sf_turn name h t used c t' used' c' -> stocked c -> informed t c ->
  informed t' c' /\ turns_informed c' < turns_informed c.
Proof.
  intros Ht. destruct Ht as [Hat|cur Hat|expected t' r Hat Hcr|expected own now Hat Hown|r Hat Hd|r own Hat Hd];
    unfold stocked, informed, turns_informed; rewrite Hat; intros Hst Hin.
  - rewrite own_resolved. destruct (rs_ResolveRef name t) as [cur [e|]] eqn:Hr; cbn; [|destruct (sf_own c); cbn; (split; [done|lia])].
    destruct e; cbn; unfold sf_expecting, goto; cbn; try (destruct (sf_own c) eqn:E; cbn; (split; [done|lia])).
    apply resolve_none in Hr as ->. destruct (sf_own c) eqn:E; cbn; (split; [done|lia]).
  - apply resolve_opens in Hin as [s ->]. cbn. split; [done|lia].
  - destruct r; cbn; (split; [|lia]); [|done]. rewrite -Hin. by eapply create_target.
  - destruct (rs_UpdateRef _ _ _ _ _ _) as [t' [[cur|e]|]] eqn:Hup; cbn; [|split; [done|lia]..]. by apply update_moved in Hup.
  - cbn. split; [done|lia].
  - unfold sf_discarded. destruct ((rs_Delete _ _).2); [cbn; split; [done|lia]|]. destruct (decide _); cbn; (split; [done|lia]).
Qed.

(** Misled or not, a turn is one fewer. *)
Lemma turn_misled t used c t' used' c' : sf_turn name h t used c t' used' c' -> stocked c ->
  informed t' c' /\ turns_informed c' < turns_misled c \/ turns_misled c' < turns_misled c.
Proof.
  intros Ht. destruct Ht as [Hat|cur Hat|expected t' r Hat Hcr|expected own now Hat Hown|r Hat Hd|r own Hat Hd];
    unfold stocked, turns_misled; intros Hst.
  - left. assert (informed t c) as Hin by (unfold informed; by rewrite Hat).
    destruct (turn_informed t used c t used _ (turn_resolve _ _ _ _ _ Hat)) as [H1 H2]; [by unfold stocked; rewrite Hat|done|].
    split; [done|]. unfold turns_informed in H2 at 2. by rewrite Hat in H2 |- *.
  - right. rewrite Hat. destruct (rs_Open _ t) as [|[]]; cbn; try lia. destruct (sf_own c); lia.
  - right. rewrite Hat. destruct r; cbn; lia.
  - right. rewrite Hat. destruct ((rs_UpdateRef _ _ _ _ _ _).2) as [[]|]; cbn; rewrite ?Hown; lia.
  - right. rewrite Hat. cbn. lia.
  - right. rewrite Hat. unfold sf_discarded. destruct ((rs_Delete _ _).2); [cbn; lia|]. destruct (decide _); cbn; lia.
Qed.

Lemma informed_misled c : turns_informed c <= turns_misled c /\ turns_misled c <= turns_informed c + 3.
Proof. unfold turns_informed, turns_misled. destruct (sf_at c); destruct (sf_own c); lia. Qed.

Lemma informed_moves t t' c : rs_ResolveRef name t' = rs_ResolveRef name t -> informed t c -> informed t' c.
Proof. unfold informed. by intros ->. Qed.

(** The turns taken and those to come, in any run. *)
Lemma run_turns n b trace st : sf_run name h t0 n b trace st ->
  forall i c, sf_calls st !! i = Some c -> stocked c /\
    (informed (sf_store st) c /\ turns i trace + turns_informed c <= 4 + 3 * moved_by_others i trace \/
     turns i trace + turns_misled c <= 4 + 3 * moved_by_others i trace).
Proof.
  induction 1 as [|trace st who st' _ IH Hs _]; cbn [sf_calls].
  { intros i c Hi. apply lookup_replicate in Hi as [-> _]. split; [done|]. left. split; [done|]. cbn. lia. }
  assert (forall i c, sf_calls st !! i = Some c -> who <> Some i -> stocked c /\
    (informed (sf_store st') c /\ turns i ((who, moves name st st') :: trace) + turns_informed c <= 4 + 3 * moved_by_others i ((who, moves name st st') :: trace) \/
     turns i ((who, moves name st st') :: trace) + turns_misled c <= 4 + 3 * moved_by_others i ((who, moves name st st') :: trace))) as Hother.
  { intros i c Hi Hne. destruct (IH i c Hi) as [Hst Hb]. split; [done|]. unfold turns, moved_by_others in *. rewrite filter_cons_False //.
    unfold moves. case_bool_decide as Hm; [rewrite (filter_cons_True _ (_, true)) //; cbn [length]|rewrite (filter_cons_False _ (_, false)); [|cbn; naive_solver]].
    - right. pose proof (informed_misled c). destruct Hb as [[_ Hb]|Hb]; lia.
    - destruct Hb as [[Hin Hb]|Hb]; [left|by right]. split; [|done]. apply (informed_moves (sf_store st)); done. }
  revert IH Hother. destruct Hs as [t used cs i c t' used' c' Hi Ht|t used cs t']; intros IH Hother; cbn [sf_calls] in *; [|by intros; apply Hother].
  intros j d Hj. apply list_lookup_insert_Some in Hj as [(<- & <- & _)|[Hne Hj]]; [|apply Hother; [done|congruence]].
  clear Hother. destruct (IH _ _ Hi) as [Hst Hb]. split; [by eapply turn_stocked|]. unfold turns, moved_by_others in *.
  rewrite filter_cons_True // (filter_cons_False (fun l => l.1 <> Some i /\ l.2 = true)); [|cbn; naive_solver]. cbn [length sf_store] in *.
  destruct Hb as [[Hin Hb]|Hb].
  - left. destruct (turn_informed _ _ _ _ _ _ Ht Hst Hin) as [? ?]. split; [done|lia].
  - destruct (turn_misled _ _ _ _ _ _ Ht Hst) as [[? ?]|?]; [left; split; [done|lia]|right; lia].
Qed.

(** C18: Every call of [SessionFor] returns, as far as the others let it: whatever
    the other calls and writers do to the store, a call that has not returned has a
    turn to take, and takes at most four turns and three more for each time one of
    the others moved what the name resolves to; so one whose turns keep coming
    returns, unless the name is moved under it for ever.  Where all steps are quiet
    ([quiet]: the others delete no session and leave the name alone, and no id is
    used twice, which the store can always do for a header that names none), none
    takes more than six. *)
Theorem SessionFor_returns n b trace st i : sf_run name h t0 n b trace st -> i < n ->
  exists c, sf_calls st !! i = Some c /\
    turns i trace <= 4 + 3 * moved_by_others i trace /\ (b = true -> turns i trace <= 6) /\
    ((exists r, sf_at c = Returned r) \/
     turns i trace < 4 + 3 * moved_by_others i trace /\ (b = true -> turns i trace < 6) /\
     exists st', sf_step name h st (Some i) st' /\ (b = true -> h_ID h = "" -> quiet name st (Some i) st')).
Proof.
  intros Hr Hi. destruct (lookup_lt_is_Some_2 (sf_calls st) i) as [c Hc]; [by rewrite (run_length _ _ _ _ Hr)|].
  exists c. split; [done|]. destruct (run_turns _ _ _ _ Hr _ _ Hc) as [Hst Hleft].
  assert (b = true -> turns i trace + sf_left c <= 6) as Hsix by (intros ->; by eapply run_left).
  assert (turns i trace + turns_informed c <= 4 + 3 * moved_by_others i trace) as Hle.
  { pose proof (informed_misled c). destruct Hleft as [[_ ?]|?]; lia. }
  split; [lia|]. split; [intros Hb; specialize (Hsix Hb); lia|]. clear Hleft.
  assert ((exists r, sf_at c = Returned r) \/ 1 <= turns_informed c /\ 1 <= sf_left c) as [[r Hat]|[Hq Hl]].
  { unfold turns_informed, sf_left. destruct (sf_at c) eqn:Hat; [right|right|right|right|right|by left; eexists]; destruct (sf_own c); lia. }
  { left. by exists r. }
  right. split; [lia|]. split; [intros Hb; specialize (Hsix Hb); lia|]. clear Hsix Hle Hr. destruct st as [t cs used]. cbn [sf_calls] in *.
  assert (forall t' used' c', sf_turn name h t used c t' used' c' -> (h_ID h = "" -> forall own, sf_own c' = Some own -> sf_own c = Some own \/ own.1 ∉ used) ->
    exists st', sf_step name h (mkState t cs used) (Some i) st' /\ (b = true -> h_ID h = "" -> quiet name (mkState t cs used) (Some i) st')) as Hstep.
  { intros t' used' c' Ht Hf. eexists. split; [by eapply step_call|]. intros _ Hh own. cbn. rewrite list_lookup_insert_eq; [|by eapply lookup_lt_Some].
    rewrite Hc. cbn. intros [= Ho]. destruct (Hf Hh own Ho) as [->|]; [by left|by right]. }
  unfold stocked, sf_left in *. destruct (sf_at c) as [|cur|expected|expected|r|r] eqn:Hat; [..|lia].
  - eapply Hstep; [by apply turn_resolve|]. rewrite own_resolved. by left.
  - eapply Hstep; [by eapply turn_open|]. intros _ own. destruct (rs_Open _ t) as [|[]]; by left.
  - destruct (decide (h_ID h = "")) as [Hh|Hh].
    + destruct (create_fresh h t used Hh) as (t' & r & Hcr & Hf). eapply Hstep; [by eapply turn_create|]. intros _ own.
      destruct r as [own'|]; cbn; [|by left]. intros [= <-]. right. by apply Hf.
    + destruct (create_answers h t) as (t' & r & Hcr). eapply Hstep; [by eapply turn_create|done].
  - destruct Hst as [own Hown]. eapply Hstep; [by eapply (turn_update _ _ _ _ _ _ own (mkTime 0 0))|]. intros _ o.
    destruct ((rs_UpdateRef _ _ _ _ _ _).2) as [[]|]; by left.
  - destruct (sf_discards r c) as [own|] eqn:Hd; (eapply Hstep; [first [by eapply turn_discard|by eapply turn_return]|]); [|by left].
    intros _ o. unfold sf_discarded. destruct ((rs_Delete _ _).2); [by left|]. destruct (decide _); by left.
Qed.
End Props.
