(* ===== verification/MemoryRefs.v ===== *)
(** * The store in memory as a store of refs

    [MemoryStore] implements [RefStore], each operation under its lock, and keeps
    the laws the calls of [SessionFor] rely on. *)
From S2P Require Import Prelude Entry Header Tree Leaf Calls CallRules Runs Verify Omit Digest Settings Context Hash Session Codec GoStrings Refs RefsProps Blob Store SessionFor SessionForProps.
Open Scope session_scope.

Section Memory.
Context {OR : OpenResponses} {IC : ItemContent} {ND : NameDecoding} {CA : Canonicaliser} {SH : SHA256}
  {JT : JSONTools} {EC : EntryCodec} {HJ : HeaderJSON} {LC : LineCodec} {SC : StoreCodec}.
Implicit Types (s : Session) (m : MemoryStore).

(** The session the store shares under [id]. *)
Definition memory_handle (id : string) m : string * nat := (id, default 0 (ms_gens m !! id)).

Definition memory_Open (id : string) m : result (string * nat) := let! _ := Open id m in Ok (memory_handle id m).

(** [Create], at the store the lock is taken on, and with the id, not empty, that
    the header is filled with. *)
Definition memory_Create (h : Header) m m' (r : result (string * nat)) : Prop :=
  exists ctx payload fresh now tries last made, fresh <> "" /\
    (match CheckCreate h (ms_redactedOnly last) with Ok _ => (acquire ctx h tries last).1 | Err _ => last end) = m /\
    Create ctx payload fresh now tries last h = (m', made) /\
    r = (let! s := made in Ok (memory_handle (h_ID (s_header s)) m')).

#[export] Instance memory_RefStore : RefStore MemoryStore := {
  rs_Open := memory_Open;
  rs_Create := memory_Create;
  rs_Delete := Delete;
  rs_ResolveRef := store_ResolveRef;
  rs_UpdateRef := store_UpdateRef
}.

(** ** What a creation adds *)

Lemma id_of_add s e : h_ID (s_header (add s e)) = h_ID (s_header s).
Proof. unfold add; cbn [s_header]. by destruct (_ && _ && _). Qed.

Lemma header_adopted l : forall s, h_ID (s_header (foldl adopt s l)) = h_ID (s_header s).
Proof. induction l as [|e l IH]; intros s; [done|]. cbn [foldl]. rewrite IH. apply id_of_add. Qed.

Lemma Fork_id payload fresh now origin at_ h s : Fork payload fresh now origin at_ h = Ok s ->
  h_ID (s_header s) = if decide (h_ID h = "") then fresh else h_ID h.
Proof. unfold Fork. intros H. inv_ok. cbn [s_header set_leaf]. by rewrite header_adopted. Qed.

Lemma create_locked_named payload fresh now h origin m m' r : create_locked payload fresh now h origin m = (m', r) ->
  match r with
  | Ok s => h_ID (s_header s) = (if decide (h_ID h = "") then fresh else h_ID h) /\
      ms_sessions m !! h_ID (s_header s) = None /\ m' = add_session (h_ID (s_header s)) s m
  | Err _ => m' = m
  end.
Proof.
  unfold create_locked. set (made := if decide (h_Base h = "") then _ else _).
  assert (forall s, made = Ok s -> h_ID (s_header s) = if decide (h_ID h = "") then fresh else h_ID h) as Hid.
  { unfold made. intros s. destruct (decide _); [by intros [= <-]|]. destruct origin as [o|]; [|done]. intros H. inv_ok. by eapply Fork_id. }
  destruct made as [s|]; [|by intros [= <- <-]]. specialize (Hid s eq_refl).
  destruct (ms_sessions m !! _) eqn:Hn; by intros [= <- <-].
Qed.

Lemma memory_Create_adds h m m' r : memory_Create h m m' r ->
  match r with
  | Ok own => exists s, own = (h_ID (s_header s), S (ms_gen m)) /\ h_ID (s_header s) <> "" /\
      ms_sessions m !! own.1 = None /\ m' = add_session own.1 s m
  | Err _ => m' = m
  end.
Proof.
  intros (ctx & payload & fresh & now & tries & last & made & Hf & Hm & Hc & ->). unfold Create in Hc.
  destruct (CheckCreate _ _); [|by simplify_eq]. destruct (acquire _ _ _ _) as [m1 origin]. cbn in Hm. subst m1.
  apply create_locked_named in Hc. destruct made as [s|]; [|done]. destruct Hc as (Hid & Hn & ->). cbn. exists s.
  unfold memory_handle. cbn [ms_gens add_session]. rewrite lookup_insert_eq. split_and!; try done.
  rewrite Hid. by destruct (decide (h_ID h = "")).
Qed.

Lemma memory_Create_answers h m (used : gset string) : h_ID h = "" ->
  exists m' r, memory_Create h m m' r /\ forall own, r = Ok own -> own.1 ∉ used.
Proof.
  intros Hh. set (id := fresh ({[""]} ∪ used)). pose proof (is_fresh ({[""]} ∪ used)) as Hid. fold id in Hid.
  set (ctx := mkContext (Ok tt) (fun _ => true)).
  destruct (Create ctx "" id (mkTime 0 0) [] m h) as [m' made] eqn:Hc. exists m'. eexists. split.
  - exists ctx, "", id, (mkTime 0 0), [], m, made. split; [set_solver|]. split; [|by split].
    destruct (CheckCreate _ _); [|done]. unfold acquire. by destruct (decide _).
  - intros own. destruct made as [s|]; [|done]. cbn. intros [= <-]. cbn. unfold Create in Hc.
    destruct (CheckCreate _ _); [|done]. destruct (acquire _ _ _ _) as [m1 origin]. apply create_locked_named in Hc as (-> & _).
    rewrite decide_True //. set_solver.
Qed.

(** ** Refs, seen through the store *)

Lemma ResolveRef_sessions ss ss' rs name : ss !! rt_Session (ResolveRef ss rs name).1 = ss' !! rt_Session (ResolveRef ss rs name).1 ->
  ResolveRef ss' rs name = ResolveRef ss rs name.
Proof.
  destruct (ValidRefName name) as [[]|] eqn:Hv; [|unfold ResolveRef; by rewrite Hv]. rewrite ResolveRef_target //.
  unfold ResolveRef, lookup_target. rewrite Hv. destruct (rs_refs rs !! name) as [t|]; [|done]. cbn. by intros ->.
Qed.

Lemma ResolveRef_opens ss rs name tg : ResolveRef ss rs name = (tg, None) -> exists s, ss !! rt_Session tg = Some s.
Proof.
  unfold ResolveRef. destruct (ValidRefName name); [|done]. destruct (rs_refs rs !! name) as [t|]; [|done].
  destruct (ss !! rt_Session t) as [s|] eqn:Hs; [|done]. destruct (HeaderIdent _); [|done]. destruct (decide _); [|done].
  intros [= <-]. by exists s.
Qed.

Lemma memory_Open_spec id m own : memory_Open id m = Ok own <-> is_Some (ms_sessions m !! id) /\ own = memory_handle id m.
Proof.
  unfold memory_Open, Open. destruct (ms_sessions m !! id) as [s|]; cbn.
  - split; [by intros [= <-]|by intros [_ ->]].
  - split; [done|by intros [[]]].
Qed.

#[export] Instance memory_RefStoreLaws : RefStoreLaws MemoryStore.
Proof.
  split; cbn [rs_Open rs_Create rs_Delete rs_ResolveRef rs_UpdateRef memory_RefStore].
  - intros name m tg [s Hs]%ResolveRef_opens. exists (memory_handle (rt_Session tg) m). by apply memory_Open_spec.
  - intros name m tg. unfold store_ResolveRef, ResolveRef. destruct (ValidRefName name) as [[]|] eqn:Hv; [|intros [= <- _]; done].
    destruct (rs_refs _ !! name); [|by intros [= <-]]. repeat case_match; done.
  - by intros h m m' own (s & -> & ? & _)%memory_Create_adds.
  - intros h m m' own (s & -> & _ & _ & ->)%memory_Create_adds. apply memory_Open_spec. unfold memory_handle. cbn. by rewrite !lookup_insert_eq.
  - intros h m m' own id (s & -> & _ & _ & ->)%memory_Create_adds Hne. unfold memory_Open, Open, memory_handle. cbn. by rewrite !lookup_insert_ne.
  - intros h m m' own name (s & -> & _ & _ & ->)%memory_Create_adds Hne. apply ResolveRef_sessions. cbn. by rewrite lookup_insert_ne.
  - by intros h m m' e ->%memory_Create_adds.
  - intros h m m' r name Hc%memory_Create_adds. assert (ms_refs m' = ms_refs m) as Hr.
    { destruct r as [own|]; [by destruct Hc as (s & _ & _ & _ & ->)|by rewrite Hc]. }
    unfold store_ResolveRef. rewrite Hr. destruct (ValidRefName name) as [[]|] eqn:Hv; [by rewrite !ResolveRef_target|].
    unfold ResolveRef. by rewrite Hv.
  - intros h m. set (ctx := mkContext (Ok tt) (fun _ => true)).
    destruct (Create ctx "" "a" (mkTime 0 0) [] m h) as [m' made] eqn:Hc. exists m'. eexists. exists ctx, "", "a", (mkTime 0 0), [], m, made.
    split; [done|]. split; [|by split]. destruct (CheckCreate _ _); [|done]. unfold acquire. by destruct (decide _).
  - apply memory_Create_answers.
  - intros id m m' r s. unfold Delete, memory_Open, Open. destruct (ms_sessions m !! id) as [x|] eqn:Hs; intros [= <- <-] _; cbn.
    + by rewrite lookup_delete_eq.
    + by rewrite Hs.
  - intros id id' m Hne. unfold Delete. destruct (ms_sessions m !! id); [|done]. unfold memory_Open, Open, memory_handle. cbn. by rewrite !lookup_delete_ne.
  - intros id m name Hne. unfold Delete. destruct (ms_sessions m !! id); [|done]. apply ResolveRef_sessions. cbn. by rewrite lookup_delete_ne.
  - intros now name expected next reason m id. unfold store_UpdateRef. by destruct (UpdateRef _ _ _ _ _ _ _).
  - intros now name expected next reason m m'. unfold store_UpdateRef. destruct (UpdateRef _ _ _ _ _ _ _) as [rs err] eqn:Hu. intros [= <- ->] Hne Hz.
    apply UpdateRef_done in Hu as (Hv & Hc & [[? _]|(_ & ident & Hi & ->)]); [done|].
    split; [by rewrite /store_ResolveRef ResolveRef_target|]. by apply set_ref_resolves.
  - intros now name expected next reason m m' e. unfold store_UpdateRef. destruct (UpdateRef _ _ _ _ _ _ _) as [rs err] eqn:Hu. intros [= <- ->].
    apply UpdateRef_failed in Hu as [-> _]. by destruct m.
  - intros now name expected next reason m m' cur. unfold store_UpdateRef. destruct (UpdateRef _ _ _ _ _ _ _) as [rs err] eqn:Hu. intros [= <- ->].
    apply UpdateRef_failed in Hu as [_ Hu]. destruct (proj1 (Hu cur) eq_refl) as (Hv & -> & Hne). by rewrite /store_ResolveRef ResolveRef_target.
Defined.
End Memory.
