(* ===== verification/Wake.v ===== *)
(** * Waiting for a change ([internal/wake])

    The hub a store rings when a session changes, and the interval a follower
    polls at.  Every method of the hub holds its mutex from end to end, so each
    is one step; [hub_step] interleaves the calls of any number of followers and
    writers.  Entries and channels are by reference in the source: a follower
    holds its entry in the functions [Watch] gave it whatever becomes of the map,
    and so here an entry and a channel are names.

    However calls interleave, the hub never closes a channel twice and keeps an
    entry for just the sessions someone follows ([Hub_never_panics]); the channel
    a follower took is closed exactly when its session changes afterwards
    ([Hub_wakes]).  The poll interval doubles from its least to its most
    ([Poll_backs_off]). *)
From S2P Require Import Prelude.
Open Scope session_scope.
Local Open Scope Z_scope.

(** ** The hub *)

Record entry := mkHubEntry { en_ch : nat; en_refs : Z }.

(** The map, the entries made, the channels closed, and how many entries and
    channels there have been. *)
Record Hub := mkHub {
  hub_m : gmap string nat;
  hub_entries : gmap nat entry;
  hub_closed : gset nat;
  hub_made : nat;
  hub_chans : nat
}.

Definition no_hub : Hub := mkHub ∅ ∅ ∅ 0 0.

Definition set_entry (a : nat) (e : entry) (h : Hub) : Hub :=
  mkHub (hub_m h) (<[a := e]> (hub_entries h)) (hub_closed h) (hub_made h) (hub_chans h).

(** The entry of an id, made when there is none. *)
Definition entry_for (id : string) (h : Hub) : nat * Hub :=
  match hub_m h !! id with
  | Some a => (a, h)
  | None =>
      (hub_made h, mkHub (<[id := hub_made h]> (hub_m h)) (<[hub_made h := mkHubEntry (hub_chans h) 0]> (hub_entries h))
                     (hub_closed h) (S (hub_made h)) (S (hub_chans h)))
  end.

(** The entry at an address, which is one that was made. *)
Definition entry_at (a : nat) (h : Hub) : entry := default (mkHubEntry 0 0) (hub_entries h !! a).

(** [Watch]: the entry its two functions hold. *)
Definition Watch (id : string) (h : Hub) : nat * Hub :=
  let (a, h) := entry_for id h in
  let e := entry_at a h in (a, set_entry a (mkHubEntry (en_ch e) (en_refs e + 1)) h).

(** The function that gives the channel to wait on. *)
Definition Chan (a : nat) (h : Hub) : nat := en_ch (entry_at a h).

(** What [done] does the first time. *)
Definition release (id : string) (a : nat) (h : Hub) : Hub :=
  let e := entry_at a h in
  let h := set_entry a (mkHubEntry (en_ch e) (en_refs e - 1)) h in
  if bool_decide (en_refs e - 1 = 0) && bool_decide (hub_m h !! id = Some a)
  then mkHub (delete id (hub_m h)) (hub_entries h) (hub_closed h) (hub_made h) (hub_chans h) else h.

(** [Notify]: closing a channel that is closed panics. *)
Definition Notify (id : string) (h : Hub) : result Hub :=
  match hub_m h !! id with
  | None => Ok h
  | Some a =>
      let e := entry_at a h in
      refuse_if (bool_decide (en_ch e ∈ hub_closed h)) ErrOther ;!
      Ok (mkHub (hub_m h) (<[a := mkHubEntry (hub_chans h) (en_refs e)]> (hub_entries h))
            ({[en_ch e]} ∪ hub_closed h) (hub_made h) (S (hub_chans h)))
  end.

(** ** Followers and writers *)

(** A registration: its id and entry, whether [done] was called, which [sync.Once]
    remembers, and the channel taken last. *)
Record watcher := mkWatcher { w_id : string; w_entry : nat; w_done : bool; w_chan : option nat }.

Record system := mkSystem { sys_hub : Hub; sys_watchers : list watcher }.

Inductive call :=
  | CWatch (id : string)
  | CChan (i : nat)
  | CDone (i : nat)
  | CNotify (id : string).

Definition hub_step (c : call) (s : system) : result system :=
  let h := sys_hub s in
  match c with
  | CWatch id =>
      let (a, h) := Watch id h in Ok (mkSystem h (sys_watchers s ++ [mkWatcher id a false None]))
  | CChan i =>
      match sys_watchers s !! i with
      | Some w => Ok (mkSystem h (<[i := mkWatcher (w_id w) (w_entry w) (w_done w) (Some (Chan (w_entry w) h))]> (sys_watchers s)))
      | None => Ok s
      end
  | CDone i =>
      match sys_watchers s !! i with
      | Some w =>
          if w_done w then Ok s
          else Ok (mkSystem (release (w_id w) (w_entry w) h)
                     (<[i := mkWatcher (w_id w) (w_entry w) true (w_chan w)]> (sys_watchers s)))
      | None => Ok s
      end
  | CNotify id => let! h := Notify id h in Ok (mkSystem h (sys_watchers s))
  end.

Fixpoint hub_run (cs : list call) (s : system) : result system :=
  match cs with
  | [] => Ok s
  | c :: cs => let! s := hub_step c s in hub_run cs s
  end.

Definition hub_start : system := mkSystem no_hub [].

(** ** [Poll] *)

(** A [time.Duration], 64 bits wide. *)
Definition wrap64 (z : Z) : Z := (z + 2 ^ 63) mod 2 ^ 64 - 2 ^ 63.

Record Poll := mkPoll { poll_Min : Z; poll_Max : Z; poll_cur : Z }.

Definition Poll_Next (p : Poll) : Z * Poll :=
  let d := if poll_cur p <? poll_Min p then poll_Min p else poll_cur p in
  let cur := wrap64 (d * 2) in
  (d, mkPoll (poll_Min p) (poll_Max p) (if poll_Max p <? cur then poll_Max p else cur)).

Definition Poll_Reset (p : Poll) : Poll := mkPoll (poll_Min p) (poll_Max p) 0.

(** So many waits in a row. *)
Fixpoint waits (n : nat) (p : Poll) : list Z :=
  match n with
  | O => []
  | S n => let (d, p) := Poll_Next p in d :: waits n p
  end.

(** ** What a follower of the hub is owed *)

(** ** The invariant *)

Definition registered (a : nat) (w : watcher) : Prop := w_done w = false /\ w_entry w = a.
#[global] Instance registered_dec a w : Decision (registered a w).
Proof. unfold registered. apply _. Defined.
Definition registrations (a : nat) (ws : list watcher) : Z := Z.of_nat (length (filter (registered a) ws)).

(** A channel of an entry: still the one the entry has, or closed. *)
Definition pending (a c : nat) (h : Hub) : Prop :=
  c ∈ hub_closed h \/ exists e, hub_entries h !! a = Some e /\ en_ch e = c.

Record hub_ok (s : system) : Prop := {
  ok_refs a e : hub_entries (sys_hub s) !! a = Some e -> en_refs e = registrations a (sys_watchers s);
  ok_live w : w ∈ sys_watchers s -> w_done w = false -> hub_m (sys_hub s) !! w_id w = Some (w_entry w);
  ok_followed id a : hub_m (sys_hub s) !! id = Some a -> exists w, w ∈ sys_watchers s /\ registered a w /\ w_id w = id;
  ok_inj id id' a : hub_m (sys_hub s) !! id = Some a -> hub_m (sys_hub s) !! id' = Some a -> id = id';
  ok_made a : is_Some (hub_entries (sys_hub s) !! a) <-> (a < hub_made (sys_hub s))%nat;
  ok_entry w : w ∈ sys_watchers s -> (w_entry w < hub_made (sys_hub s))%nat;
  ok_current a e : hub_entries (sys_hub s) !! a = Some e -> (en_ch e < hub_chans (sys_hub s))%nat /\ en_ch e ∉ hub_closed (sys_hub s);
  ok_own a b e e' : hub_entries (sys_hub s) !! a = Some e -> hub_entries (sys_hub s) !! b = Some e' -> en_ch e = en_ch e' -> a = b;
  ok_closed c : c ∈ hub_closed (sys_hub s) -> (c < hub_chans (sys_hub s))%nat;
  ok_taken w c : w ∈ sys_watchers s -> w_chan w = Some c -> pending (w_entry w) c (sys_hub s)
}.

Lemma registrations_app a ws w : registrations a (ws ++ [w]) = registrations a ws + (if decide (registered a w) then 1 else 0).
Proof.
  unfold registrations. rewrite filter_app length_app.
  rewrite filter_cons filter_nil. case_decide; cbn [length]; lia.
Qed.

Lemma registrations_insert a ws i w w' : ws !! i = Some w ->
  registrations a (<[i := w']> ws) =
    registrations a ws - (if decide (registered a w) then 1 else 0) + (if decide (registered a w') then 1 else 0).
Proof.
  intros Hi. unfold registrations. rewrite -{2}(take_drop_middle ws i w Hi) insert_take_drop; [|by eapply lookup_lt_Some].
  rewrite !filter_app !length_app !filter_cons. repeat case_decide; cbn [length]; lia.
Qed.

Lemma registrations_pos a ws w : w ∈ ws -> registered a w -> 0 < registrations a ws.
Proof.
  intros Hw Hr. unfold registrations. assert (w ∈ filter (registered a) ws) as H by (by apply list_elem_of_filter).
  destruct (filter _ _); [by apply elem_of_nil in H|cbn [length]; lia].
Qed.

Lemma registrations_found a ws : 0 < registrations a ws -> exists w, w ∈ ws /\ registered a w.
Proof.
  unfold registrations. destruct (filter (registered a) ws) as [|w l] eqn:H; [cbn; lia|]. intros _. exists w.
  assert (w ∈ filter (registered a) ws) as Hw by (rewrite H; apply list_elem_of_here). by apply list_elem_of_filter in Hw as [? ?].
Qed.

Lemma elem_of_set (ws : list watcher) i w' w : w ∈ <[i := w']> ws -> w = w' \/ w ∈ ws.
Proof. intros (j & Hj)%list_elem_of_lookup. apply list_lookup_insert_Some in Hj as [(_ & -> & _)|(_ & Hj)]; [by left|right]. by eapply list_elem_of_lookup_2. Qed.

Lemma hub_ok_start : hub_ok hub_start.
Proof.
  constructor; cbn; try (intros *; rewrite ?lookup_empty; try done; set_solver).
  intros a. rewrite lookup_empty. split; [by intros [? ?]|lia].
Qed.

(** ** The steps keep it *)

Lemma entry_at_Some a e h : hub_entries h !! a = Some e -> entry_at a h = e.
Proof. unfold entry_at. by intros ->. Qed.

(** A watcher of an entry that is there already. *)
Lemma watch_old s id a e : hub_ok s -> hub_m (sys_hub s) !! id = Some a -> hub_entries (sys_hub s) !! a = Some e ->
  hub_ok (mkSystem (set_entry a (mkHubEntry (en_ch e) (en_refs e + 1)) (sys_hub s)) (sys_watchers s ++ [mkWatcher id a false None])).
Proof.
  intros H Hm Ha.
  constructor; unfold set_entry; cbn [sys_hub sys_watchers hub_m hub_entries hub_closed hub_made hub_chans].
  - intros b e' Hb. rewrite registrations_app. unfold registered. cbn [w_done w_entry].
    destruct (decide (a = b)) as [<-|Hab].
    + rewrite lookup_insert_eq in Hb. injection Hb as <-. cbn [en_refs]. rewrite (ok_refs _ H a e Ha). rewrite decide_True //.
    + rewrite lookup_insert_ne // in Hb. rewrite (ok_refs _ H b e' Hb). rewrite decide_False; [lia|naive_solver].
  - intros w [Hw|Hw%list_elem_of_singleton]%elem_of_app Hd; [by apply (ok_live _ H)|by subst w].
  - intros id' b Hb. destruct (ok_followed _ H id' b Hb) as (w & Hw & Hr). exists w. by rewrite elem_of_app; auto.
  - apply (ok_inj _ H).
  - intros b. rewrite -(ok_made _ H b). cbn. destruct (decide (a = b)) as [<-|]; [|by rewrite lookup_insert_ne].
    rewrite lookup_insert_eq Ha. split; by intros _.
  - intros w [Hw|Hw%list_elem_of_singleton]%elem_of_app; [by apply (ok_entry _ H)|subst w]. apply (ok_made _ H). by rewrite Ha.
  - intros b e' Hb. apply lookup_insert_Some in Hb as [[<- <-]|[_ Hb]]; [apply (ok_current _ H a e Ha)|by eapply (ok_current _ H)].
  - intros b b' e1 e2 H1 H2 Hc. assert (forall b e1, <[a:=mkHubEntry (en_ch e) (en_refs e + 1)]> (hub_entries (sys_hub s)) !! b = Some e1 ->
      exists e0, hub_entries (sys_hub s) !! b = Some e0 /\ en_ch e0 = en_ch e1) as Hch.
    { intros b0 e0 [[<- <-]|[_ ?]]%lookup_insert_Some; [by exists e|by exists e0]. }
    destruct (Hch _ _ H1) as (e1' & H1' & E1), (Hch _ _ H2) as (e2' & H2' & E2). apply (ok_own _ H _ _ _ _ H1' H2'). congruence.
  - apply (ok_closed _ H).
  - intros w c [Hw|Hw%list_elem_of_singleton]%elem_of_app Hc; [|by subst w]. destruct (ok_taken _ H w c Hw Hc) as [Hp|(e' & He' & Hch)]; [by left|right].
    destruct (decide (a = w_entry w)) as [Hae|]; [|exists e'; by rewrite lookup_insert_ne]. rewrite -Hae. rewrite -Hae Ha in He'. injection He' as <-.
    rewrite lookup_insert_eq. by eexists.
Qed.

(** The first watcher of a session. *)
Lemma watch_new s id : hub_ok s -> hub_m (sys_hub s) !! id = None ->
  hub_ok (mkSystem (mkHub (<[id := hub_made (sys_hub s)]> (hub_m (sys_hub s)))
                      (<[hub_made (sys_hub s) := mkHubEntry (hub_chans (sys_hub s)) 1]> (hub_entries (sys_hub s)))
                      (hub_closed (sys_hub s)) (S (hub_made (sys_hub s))) (S (hub_chans (sys_hub s))))
            (sys_watchers s ++ [mkWatcher id (hub_made (sys_hub s)) false None])).
Proof.
  intros H Hm. assert (hub_entries (sys_hub s) !! hub_made (sys_hub s) = None) as Hn.
  { apply eq_None_not_Some. rewrite (ok_made _ H). lia. }
  assert (forall id' a, hub_m (sys_hub s) !! id' = Some a -> (a < hub_made (sys_hub s))%nat) as Hlt.
  { intros id' a Ha. destruct (ok_followed _ H _ _ Ha) as (w & Hw & [_ <-] & _). by apply (ok_entry _ H). }
  assert (registrations (hub_made (sys_hub s)) (sys_watchers s) = 0) as Hzero.
  { destruct (Z.lt_ge_cases 0 (registrations (hub_made (sys_hub s)) (sys_watchers s))) as [Hp|]; [|unfold registrations in *; lia].
    apply registrations_found in Hp as (w & Hw & [_ He]). apply (ok_entry _ H) in Hw. lia. }
  constructor; cbn [sys_hub sys_watchers hub_m hub_entries hub_closed hub_made hub_chans].
  - intros b e' Hb. rewrite registrations_app. unfold registered. cbn [w_done w_entry].
    apply lookup_insert_Some in Hb as [[<- <-]|[Hne Hb]]; [rewrite Hzero decide_True //|].
    rewrite (ok_refs _ H b e' Hb). rewrite decide_False; [lia|naive_solver].
  - intros w [Hw|Hw%list_elem_of_singleton]%elem_of_app Hd; [|subst w; apply lookup_insert_eq]. pose proof (ok_live _ H w Hw Hd) as Hl.
    rewrite lookup_insert_ne; [done|]. intros E. congruence.
  - intros id' b [[<- <-]|[_ Hb]]%lookup_insert_Some.
    + eexists. split; [apply elem_of_app; right; apply list_elem_of_here|]. done.
    + destruct (ok_followed _ H id' b Hb) as (w & Hw & Hr). exists w. by rewrite elem_of_app; auto.
  - intros id1 id2 b [[<- <-]|[_ H1]]%lookup_insert_Some [[<- E]|[_ H2]]%lookup_insert_Some; [done| | |by eapply (ok_inj _ H)].
    + apply Hlt in H2. lia.
    + subst b. apply Hlt in H1. lia.
  - intros b. destruct (decide (hub_made (sys_hub s) = b)) as [<-|Hne].
    + rewrite lookup_insert_eq. split; [lia|done].
    + rewrite lookup_insert_ne // (ok_made _ H b). lia.
  - intros w [Hw|Hw%list_elem_of_singleton]%elem_of_app; [pose proof (ok_entry _ H w Hw); lia|subst w; cbn [w_entry]; lia].
  - intros b e' [[<- <-]|[_ Hb]]%lookup_insert_Some; cbn [en_ch].
    + split; [lia|]. intros Hc%(ok_closed _ H). lia.
    + destruct (ok_current _ H b e' Hb). split; [lia|done].
  - intros b b' e1 e2 [[<- <-]|[_ H1]]%lookup_insert_Some [[<- <-]|[_ H2]]%lookup_insert_Some; cbn [en_ch]; intros Hc; [done| | |by eapply (ok_own _ H)].
    + apply (ok_current _ H) in H2 as [? _]. lia.
    + apply (ok_current _ H) in H1 as [? _]. lia.
  - intros c Hc%(ok_closed _ H). lia.
  - intros w c [Hw|Hw%list_elem_of_singleton]%elem_of_app Hc; [|by subst w]. destruct (ok_taken _ H w c Hw Hc) as [Hp|(e' & He' & Hch)]; [by left|right].
    exists e'. split; [|done]. cbn [hub_entries]. rewrite lookup_insert_ne; [done|]. intros E. rewrite E in Hn. congruence.
Qed.

Lemma watch_ok s id : hub_ok s -> exists s', hub_step (CWatch id) s = Ok s' /\ hub_ok s'.
Proof.
  intros H. cbn [hub_step]. unfold Watch, entry_for. destruct (hub_m (sys_hub s) !! id) as [a|] eqn:Hm.
  - destruct (ok_followed _ H _ _ Hm) as (w & Hw & [_ <-] & _). pose proof (ok_entry _ H w Hw) as Hlt. apply (ok_made _ H) in Hlt as [e He].
    rewrite (entry_at_Some _ _ _ He). eexists. split; [done|]. by apply watch_old.
  - eexists. split; [done|]. unfold set_entry, entry_at. cbn [hub_m hub_entries hub_closed hub_made hub_chans].
    rewrite lookup_insert_eq. cbn [default en_ch en_refs]. rewrite insert_insert_eq. by apply watch_new.
Qed.

Lemma chan_ok s i : hub_ok s -> exists s', hub_step (CChan i) s = Ok s' /\ hub_ok s'.
Proof.
  intros H. cbn [hub_step]. destruct (sys_watchers s !! i) as [w|] eqn:Hi; [|by exists s]. eexists. split; [done|].
  pose proof (list_elem_of_lookup_2 _ _ _ Hi) as Hw. pose proof (ok_entry _ H w Hw) as Hlt. apply (ok_made _ H) in Hlt as [e He].
  constructor; cbn [sys_hub sys_watchers]; try apply H.
  - intros a e' Ha. rewrite (ok_refs _ H a e' Ha) (registrations_insert a _ i w _ Hi). unfold registered. cbn [w_done w_entry]. repeat case_decide; naive_solver lia.
  - intros w' [->|Hw']%elem_of_set; [by apply (ok_live _ H w Hw)|by apply (ok_live _ H)].
  - intros id a Ha. destruct (ok_followed _ H id a Ha) as (w' & Hw' & Hr & Hid). apply list_elem_of_lookup in Hw' as [j Hj].
    destruct (decide (i = j)) as [<-|Hne].
    + rewrite Hi in Hj. injection Hj as <-. eexists. split; [apply list_elem_of_lookup; exists i; apply list_lookup_insert_eq; by eapply lookup_lt_Some|done].
    + exists w'. split; [|done]. apply list_elem_of_lookup. exists j. by rewrite list_lookup_insert_ne.
  - intros w' [->|Hw']%elem_of_set; [by apply (ok_entry _ H w Hw)|by apply (ok_entry _ H)].
  - intros w' c [->|Hw']%elem_of_set; [|by apply (ok_taken _ H)]. cbn [w_chan w_entry]. intros [= <-]. right. exists e.
    unfold Chan. by rewrite (entry_at_Some _ _ _ He).
Qed.

Lemma notify_ok s id : hub_ok s -> exists s', hub_step (CNotify id) s = Ok s' /\ hub_ok s'.
Proof.
  intros H. cbn [hub_step]. unfold Notify. destruct (hub_m (sys_hub s) !! id) as [a|] eqn:Hm; [|by exists (mkSystem (sys_hub s) (sys_watchers s)); destruct s].
  destruct (ok_followed _ H _ _ Hm) as (w & Hw & [_ <-] & _). pose proof (ok_entry _ H w Hw) as Hlt. apply (ok_made _ H) in Hlt as [e He].
  rewrite (entry_at_Some _ _ _ He). destruct (ok_current _ H _ _ He) as [Hch Hcl]. rewrite bool_decide_eq_false_2 //. cbn [refuse_if rbind].
  eexists. split; [done|]. constructor; cbn [sys_hub sys_watchers hub_m hub_entries hub_closed hub_made hub_chans]; try apply H.
  - intros b e' [[<- <-]|[_ Hb]]%lookup_insert_Some; [by apply (ok_refs _ H _ _ He)|by apply (ok_refs _ H)].
  - intros b. rewrite -(ok_made _ H b). destruct (decide (w_entry w = b)) as [<-|]; [|by rewrite lookup_insert_ne].
    rewrite lookup_insert_eq He. split; by intros _.
  - intros b e' [[<- <-]|[Hne Hb]]%lookup_insert_Some; cbn [en_ch].
    + split; [lia|]. rewrite elem_of_union elem_of_singleton. intros [?|Hc%(ok_closed _ H)]; lia.
    + destruct (ok_current _ H b e' Hb) as [? ?]. split; [lia|]. rewrite elem_of_union elem_of_singleton.
      intros [E|?]; [|done]. apply Hne. symmetry. by apply (ok_own _ H _ _ _ _ Hb He).
  - intros b b' e1 e2 [[<- <-]|[_ H1]]%lookup_insert_Some [[<- <-]|[_ H2]]%lookup_insert_Some; cbn [en_ch]; intros Hc; [done| | |by eapply (ok_own _ H)].
    + apply (ok_current _ H) in H2 as [? _]. lia.
    + apply (ok_current _ H) in H1 as [? _]. lia.
  - intros c [->%elem_of_singleton|Hc%(ok_closed _ H)]%elem_of_union; lia.
  - intros w' c Hw' Hc. unfold pending. cbn [hub_closed hub_entries]. destruct (ok_taken _ H w' c Hw' Hc) as [Hp|(e' & He' & <-)]; [left; set_solver|].
    destruct (decide (w_entry w = w_entry w')) as [E|]; [|right; exists e'; by rewrite lookup_insert_ne].
    left. rewrite -E He in He'. injection He' as <-. set_solver.
Qed.

(** The entry after [done], still in the map or not. *)
Lemma done_ok s i : hub_ok s -> exists s', hub_step (CDone i) s = Ok s' /\ hub_ok s'.
Proof.
  intros H. cbn [hub_step]. destruct (sys_watchers s !! i) as [w|] eqn:Hi; [|by exists s]. destruct (w_done w) eqn:Hd; [by exists s|].
  eexists. split; [done|]. pose proof (list_elem_of_lookup_2 _ _ _ Hi) as Hw. pose proof (ok_live _ H w Hw Hd) as Hm.
  pose proof (ok_entry _ H w Hw) as Hlt. apply (ok_made _ H) in Hlt as [e He].
  set (w' := mkWatcher (w_id w) (w_entry w) true (w_chan w)). set (e' := mkHubEntry (en_ch e) (en_refs e - 1)).
  assert (forall a, registrations a (<[i := w']> (sys_watchers s)) = registrations a (sys_watchers s) - (if decide (registered a w) then 1 else 0)) as Hreg.
  { intros a. rewrite (registrations_insert a _ i w w' Hi). destruct (decide (registered a w')) as [[? _]|]; [done|lia]. }
  assert (en_refs e - 1 = registrations (w_entry w) (<[i := w']> (sys_watchers s))) as Hrefs.
  { rewrite Hreg (ok_refs _ H _ _ He) decide_True //. }
  assert (release (w_id w) (w_entry w) (sys_hub s) = mkHub (if decide (en_refs e - 1 = 0) then delete (w_id w) (hub_m (sys_hub s)) else hub_m (sys_hub s))
    (<[w_entry w := e']> (hub_entries (sys_hub s))) (hub_closed (sys_hub s)) (hub_made (sys_hub s)) (hub_chans (sys_hub s))) as ->.
  { unfold release. rewrite (entry_at_Some _ _ _ He). unfold set_entry. cbn [hub_m]. rewrite (bool_decide_eq_true_2 (_ = Some _)) //. rewrite andb_true_r.
    case_bool_decide; case_decide; done. }
  assert (forall id a, (if decide (en_refs e - 1 = 0) then delete (w_id w) (hub_m (sys_hub s)) else hub_m (sys_hub s)) !! id = Some a ->
    hub_m (sys_hub s) !! id = Some a /\ (a = w_entry w -> en_refs e - 1 <> 0)) as Hback.
  { intros id a. case_decide as Hz; [|done]. intros [Hne Ha]%lookup_delete_Some. split; [done|]. intros ->. by destruct Hne; eapply (ok_inj _ H). }
  constructor; cbn [sys_hub sys_watchers hub_m hub_entries hub_closed hub_made hub_chans].
  - intros a e1 [[<- <-]|[Hne Ha]]%lookup_insert_Some; [done|]. rewrite Hreg (ok_refs _ H a e1 Ha) decide_False; [lia|by intros [_ ?]].
  - intros w1 Hw1 Hd1. assert (registered (w_entry w1) w1) as Hr1 by done.
    assert (0 < registrations (w_entry w1) (<[i := w']> (sys_watchers s))) as Hpos by (by apply (registrations_pos _ _ w1)).
    apply elem_of_set in Hw1 as [->|Hw1]; [done|]. pose proof (ok_live _ H w1 Hw1 Hd1) as Hm1. case_decide as Hz; [|done].
    rewrite lookup_delete_ne; [done|]. intros E. rewrite -E Hm in Hm1. injection Hm1 as Hm1. rewrite -Hm1 in Hpos. lia.
  - intros id a [Ha Hz]%Hback. destruct (ok_followed _ H id a Ha) as (w1 & Hw1 & [Hd1 He1] & Hid). apply list_elem_of_lookup in Hw1 as [j Hj].
    destruct (decide (i = j)) as [<-|Hne].
    + rewrite Hi in Hj. injection Hj as <-. assert (0 < registrations a (<[i := w']> (sys_watchers s))) as Hpos.
      { rewrite -He1 -Hrefs. specialize (Hz (eq_sym He1)). unfold registrations in Hrefs. lia. }
      apply registrations_found in Hpos as (w2 & Hw2 & Hr2). exists w2. split; [done|]. split; [done|].
      apply elem_of_set in Hw2 as [->|Hw2]; [by destruct Hr2|]. destruct Hr2 as [Hd2 He2]. pose proof (ok_live _ H w2 Hw2 Hd2) as Hm2.
      rewrite He2 in Hm2. by apply (ok_inj _ H _ _ a).
    + exists w1. split; [|done]. apply list_elem_of_lookup. exists j. by rewrite list_lookup_insert_ne.
  - intros id id' a [Ha _]%Hback [Ha' _]%Hback. by eapply (ok_inj _ H).
  - intros b. rewrite -(ok_made _ H b). destruct (decide (w_entry w = b)) as [<-|]; [|by rewrite lookup_insert_ne].
    rewrite lookup_insert_eq He. split; by intros _.
  - intros w1 [->|Hw1]%elem_of_set; [by apply (ok_entry _ H w Hw)|by apply (ok_entry _ H)].
  - intros b e1 [[<- <-]|[_ Hb]]%lookup_insert_Some; [apply (ok_current _ H _ _ He)|by eapply (ok_current _ H)].
  - assert (forall b e1, <[w_entry w := e']> (hub_entries (sys_hub s)) !! b = Some e1 ->
      exists e0, hub_entries (sys_hub s) !! b = Some e0 /\ en_ch e0 = en_ch e1) as Hch.
    { intros b0 e0 [[<- <-]|[_ ?]]%lookup_insert_Some; [by exists e|by exists e0]. }
    intros b b' e1 e2 H1 H2 Hc. destruct (Hch _ _ H1) as (e1' & H1' & E1), (Hch _ _ H2) as (e2' & H2' & E2). apply (ok_own _ H _ _ _ _ H1' H2'). congruence.
  - apply (ok_closed _ H).
  - intros w1 c Hw1 Hc. assert (pending (w_entry w1) c (sys_hub s)) as Hp.
    { apply elem_of_set in Hw1 as [->|Hw1]; [by apply (ok_taken _ H w c Hw)|by apply (ok_taken _ H)]. }
    destruct Hp as [Hp|(e1 & He1 & Hch)]; [by left|right]. cbn [hub_entries]. destruct (decide (w_entry w = w_entry w1)) as [E|]; [|exists e1; by rewrite lookup_insert_ne].
    rewrite -E He in He1. injection He1 as <-. rewrite E lookup_insert_eq. by exists e'.
Qed.

Lemma hub_step_ok s c : hub_ok s -> exists s', hub_step c s = Ok s' /\ hub_ok s'.
Proof. destruct c; [apply watch_ok|apply chan_ok|apply done_ok|apply notify_ok]. Qed.

Lemma hub_run_ok cs : forall s, hub_ok s -> exists s', hub_run cs s = Ok s' /\ hub_ok s'.
Proof.
  induction cs as [|c cs IH]; intros s H; [by exists s|]. destruct (hub_step_ok s c H) as (s1 & H1 & Hok). cbn [hub_run]. rewrite H1. by apply IH.
Qed.

(** C15: however calls of the hub interleave, none panics by closing a channel that
    is closed, and the hub has an entry for a session exactly while someone
    follows it. *)
Theorem Hub_never_panics cs : exists s, hub_run cs hub_start = Ok s /\
  forall id, is_Some (hub_m (sys_hub s) !! id) <-> exists w, w ∈ sys_watchers s /\ w_done w = false /\ w_id w = id.
Proof.
  destruct (hub_run_ok cs _ hub_ok_start) as (s & Hs & H). exists s. split; [done|]. intros id. split.
  - intros [a Ha]. destruct (ok_followed _ H id a Ha) as (w & Hw & [Hd _] & Hid). by exists w.
  - intros (w & Hw & Hd & <-). rewrite (ok_live _ H w Hw Hd). by eexists.
Qed.

(** ** A channel and the changes after it *)

(** The watcher a registration has become. *)
Definition still (i : nat) (w : watcher) (s : system) : Prop :=
  exists w', sys_watchers s !! i = Some w' /\ w_id w' = w_id w /\ w_entry w' = w_entry w /\ w_done w' = w_done w.

Lemma step_still c i w s s' : hub_step c s = Ok s' -> c <> CDone i -> still i w s -> still i w s'.
Proof.
  intros H Hc (w1 & Hw1 & Hs). destruct c as [id|j|j|id]; cbn [hub_step] in H.
  - destruct (Watch id _) as [a h]. injection H as <-. exists w1. split; [|done]. by apply lookup_app_l_Some.
  - destruct (sys_watchers s !! j) as [w2|] eqn:Hj; injection H as <-; [|by exists w1]. destruct (decide (j = i)) as [->|].
    + eexists. cbn [sys_watchers]. rewrite list_lookup_insert_eq; [|by eapply lookup_lt_Some]. split; [done|]. rewrite Hw1 in Hj. by injection Hj as <-.
    + exists w1. cbn [sys_watchers]. by rewrite list_lookup_insert_ne.
  - destruct (decide (j = i)) as [->|]; [done|]. destruct (sys_watchers s !! j) as [w2|]; [destruct (w_done w2)|]; injection H as <-; exists w1; try done.
    cbn [sys_watchers]. by rewrite list_lookup_insert_ne.
  - apply rbind_Ok in H as (h & _ & H). injection H as <-. by exists w1.
Qed.

Lemma pending_keep a ch h h' : hub_closed h' = hub_closed h ->
  (forall e, hub_entries h !! a = Some e -> exists e', hub_entries h' !! a = Some e' /\ en_ch e' = en_ch e) -> pending a ch h -> pending a ch h'.
Proof.
  intros Hc He [Hp|(e & Ha & <-)]; [left; by rewrite Hc|right]. by apply He.
Qed.

Lemma set_entry_keep b e2 h a e : en_ch e2 = en_ch (entry_at b h) -> hub_entries h !! a = Some e ->
  exists e', hub_entries (set_entry b e2 h) !! a = Some e' /\ en_ch e' = en_ch e.
Proof.
  intros H2 Ha. cbn [set_entry hub_entries]. destruct (decide (b = a)) as [->|]; [|exists e; by rewrite lookup_insert_ne].
  rewrite lookup_insert_eq. rewrite (entry_at_Some _ _ _ Ha) in H2. by exists e2.
Qed.

(** What a step does to a channel of an entry that is in the map. *)
Lemma step_pending c s s' a id ch : hub_ok s -> hub_step c s = Ok s' -> hub_m (sys_hub s) !! id = Some a -> pending a ch (sys_hub s) ->
  pending a ch (sys_hub s') /\ (ch ∈ hub_closed (sys_hub s') <-> ch ∈ hub_closed (sys_hub s) \/ c = CNotify id).
Proof.
  intros H Hc Hm Hp. assert (exists e, hub_entries (sys_hub s) !! a = Some e) as (e & He).
  { destruct (ok_followed _ H _ _ Hm) as (w & Hw & [_ <-] & _). by apply (ok_made _ H), (ok_entry _ H). }
  assert (forall h', hub_closed h' = hub_closed (sys_hub s) -> ch ∈ hub_closed h' <-> ch ∈ hub_closed (sys_hub s) \/ False) as Hsame by (intros h' ->; tauto).
  destruct c as [id'|j|j|id']; cbn [hub_step] in Hc.
  - destruct (Watch id' (sys_hub s)) as [b h] eqn:Hw. injection Hc as <-. cbn [sys_hub]. unfold Watch, entry_for in Hw.
    destruct (hub_m (sys_hub s) !! id') as [b'|] eqn:Hm'; injection Hw as <- <-; (split; [|rewrite Hsame //; naive_solver]).
    + apply (pending_keep a ch (sys_hub s)); [done| |done]. intros e0 He0. by apply set_entry_keep.
    + apply (pending_keep a ch (sys_hub s)); [done| |done]. intros e0 He0. apply set_entry_keep; [done|]. cbn [hub_entries].
      rewrite lookup_insert_ne; [done|]. intros E. assert (is_Some (hub_entries (sys_hub s) !! hub_made (sys_hub s))) as Hlt%(ok_made _ H) by (by rewrite E He). lia.
  - assert (sys_hub s' = sys_hub s) as -> by (by destruct (sys_watchers s !! j); injection Hc as <-). split; [done|]. rewrite Hsame //. naive_solver.
  - assert (sys_hub s' = sys_hub s \/ exists i b, sys_hub s' = release i b (sys_hub s)) as [->|(i & b & ->)].
    { destruct (sys_watchers s !! j) as [w|]; [destruct (w_done w)|]; injection Hc as <-; [by left| |by left]. right. by do 2 eexists. }
    + split; [done|]. rewrite Hsame //. naive_solver.
    + unfold release. set (h1 := set_entry b _ _). assert (pending a ch h1) as Hp1.
      { apply (pending_keep a ch (sys_hub s)); [done| |done]. intros e0 He0. by apply set_entry_keep. }
      destruct (_ && _); (split; [|rewrite Hsame //; naive_solver]); [|done]. apply (pending_keep a ch h1); [done| |done]. intros e0 He0. by exists e0.
  - apply rbind_Ok in Hc as (h & Hh & Hc). injection Hc as <-. cbn [sys_hub]. unfold Notify in Hh.
    destruct (hub_m (sys_hub s) !! id') as [b|] eqn:Hm'.
    2: { injection Hh as <-. split; [done|]. split; [by left|]. intros [?|[= ->]]; [done|congruence]. }
    apply rbind_Ok in Hh as ([] & Hcl & Hh). apply refuse_if_Ok, bool_decide_eq_false in Hcl. injection Hh as <-.
    cbn [hub_closed]. split.
    + unfold pending. cbn [hub_closed hub_entries]. destruct Hp as [Hp|(e1 & He1 & <-)]; [left; set_solver|].
      destruct (decide (b = a)) as [->|]; [left; rewrite (entry_at_Some _ _ _ He1); set_solver|right; exists e1; by rewrite lookup_insert_ne].
    + rewrite elem_of_union elem_of_singleton. destruct (decide (id' = id)) as [->|Hne].
      * rewrite Hm in Hm'. injection Hm' as <-. split; [by right|]. intros _. destruct Hp as [Hp|(e1 & He1 & <-)]; [by right|left].
        by rewrite (entry_at_Some _ _ _ He1).
      * split; [|intros [?|[= ?]]; [by right|done]]. intros [E|?]; [|by left]. exfalso. destruct Hp as [Hp|(e1 & He1 & Hch)]; [by rewrite -E in Hcl|].
        assert (exists e2, hub_entries (sys_hub s) !! b = Some e2) as (e2 & He2).
        { destruct (ok_followed _ H _ _ Hm') as (w & Hw & [_ <-] & _). by apply (ok_made _ H), (ok_entry _ H). }
        rewrite (entry_at_Some _ _ _ He2) in E. rewrite E in Hch. pose proof (ok_own _ H _ _ _ _ He1 He2 Hch) as <-.
        apply Hne. by apply (ok_inj _ H _ _ a).
Qed.

(** C14: a follower that took a channel, and is not done, has it closed by just the
    calls of [Notify] for its session that come afterwards: a change between the
    taking and the wait is never missed, and no other wakes it. *)
Theorem Hub_wakes cs s i w ch cs' s' :
  hub_run cs hub_start = Ok s -> sys_watchers s !! i = Some w -> w_done w = false -> w_chan w = Some ch ->
  hub_run cs' s = Ok s' -> CDone i ∉ cs' ->
  ch ∈ hub_closed (sys_hub s') <-> ch ∈ hub_closed (sys_hub s) \/ CNotify (w_id w) ∈ cs'.
Proof.
  intros Hs Hi Hd Hch. destruct (hub_run_ok cs _ hub_ok_start) as (s0 & Hs0 & H). rewrite Hs in Hs0. injection Hs0 as <-.
  assert (pending (w_entry w) ch (sys_hub s)) as Hp by (apply (ok_taken _ H w); [by eapply list_elem_of_lookup_2|done]).
  assert (still i w s) as Hw by (by exists w). clear Hs Hi Hch. revert s H Hp Hw. induction cs' as [|c cs' IH]; intros s H Hp Hw Hr Hnd.
  { injection Hr as <-. split; [by left|]. by intros [?|?%elem_of_nil]. }
  cbn [hub_run] in Hr. apply rbind_Ok in Hr as (s1 & Hc & Hr). apply not_elem_of_cons in Hnd as [Hne Hnd].
  pose proof Hw as (w' & Hw' & Hid & Hen & Hdn). assert (hub_m (sys_hub s) !! w_id w = Some (w_entry w)) as Hm.
  { rewrite -Hid -Hen. apply (ok_live _ H); [by eapply list_elem_of_lookup_2|by rewrite Hdn]. }
  destruct (step_pending _ _ _ _ _ _ H Hc Hm Hp) as [Hp1 Hcl]. destruct (hub_step_ok s c H) as (s2 & Hs2 & H1). rewrite Hc in Hs2. injection Hs2 as <-.
  rewrite (IH s1 H1 Hp1 (step_still _ _ _ _ _ Hc (not_eq_sym Hne) Hw) Hr Hnd) Hcl elem_of_cons. naive_solver.
Qed.

(** ** The interval *)

Lemma wrap64_id z : - 2 ^ 63 <= z < 2 ^ 63 -> wrap64 z = z.
Proof. intros H. unfold wrap64. rewrite Z.mod_small; lia. Qed.

Lemma waits_from n : forall p k, 0 < poll_Min p <= poll_Max p -> poll_Max p < 2 ^ 62 -> poll_Min p <= poll_cur p <= poll_Max p -> (k < n)%nat ->
  waits n p !! k = Some (Z.min (poll_Max p) (poll_cur p * 2 ^ Z.of_nat k)).
Proof.
  induction n as [|n IH]; intros p k Hm Hx Hc Hk; [lia|]. cbn [waits]. unfold Poll_Next. decide_bool (poll_cur p <? poll_Min p) false.
  rewrite wrap64_id; [|lia]. destruct k as [|k]; [cbn [lookup list_lookup]; f_equal; lia|]. cbn [lookup list_lookup].
  rewrite IH; cbn [poll_Min poll_Max poll_cur]; [|lia|lia|destruct (_ <? _) eqn:?; lia|lia]. f_equal.
  rewrite Nat2Z.inj_succ Z.pow_succ_r; [|lia]. assert (1 <= 2 ^ Z.of_nat k) by (apply Z.pow_le_mono_r with (b := 0); lia).
  destruct (Z.ltb_spec (poll_Max p) (poll_cur p * 2)); nia.
Qed.

(** C16: after a change the waits are the least interval, then twice it each time, up
    to the most and no further; they do not overflow. *)
Theorem Poll_backs_off p n k : 0 < poll_Min p <= poll_Max p -> poll_Max p < 2 ^ 62 -> (k < n)%nat ->
  waits n (Poll_Reset p) !! k = Some (Z.min (poll_Max p) (poll_Min p * 2 ^ Z.of_nat k)).
Proof.
  intros Hm Hx Hk. rewrite -(waits_from n (mkPoll (poll_Min p) (poll_Max p) (poll_Min p)) k) //; [|cbn; lia].
  destruct n as [|n]; [lia|]. cbn [waits]. unfold Poll_Next, Poll_Reset. cbn [poll_Min poll_Max poll_cur].
  decide_bool (0 <? poll_Min p) true. decide_bool (poll_Min p <? poll_Min p) false. done.
Qed.
