(* ===== verification/Follow.v ===== *)
(** * Following a session ([follow.go])

    [MemoryStore.Follow]: the iterator a caller ranges over, to the end the range
    or its context puts to it.  What the caller and the store do while it runs is
    in the arguments: whether each change is taken and the range goes on, whether
    the context is done where it is asked, what ends each wait ([script]), and what
    each look at the store finds ([look]), which is as many moments of the session
    as the source reads it at, since between two of them it may be appended to.
    Where a list of answers ends so does the run, so that a theorem about every run
    is one about every beginning of a follow that never ends. *)
From S2P Require Import Prelude Entry Header Tree Leaf Calls CallRules Runs Verify Omit Digest Settings Context Hash Session.
From S2P Require Import GoStrings Refs Blob Strconv Codec Store Wake.
Open Scope session_scope.
#[local] Notation al := string_of_list_ascii.
#[local] Notation la := list_ascii_of_string.

(** ** Cursors *)

(** [strconv.ParseUint(s, 10, 64)]. *)
Definition ParseUint (l : list ascii) : option Z :=
  if bool_decide (l <> []) && forallb is_digit l && bool_decide (digits_val l < 2 ^ 64)%Z then Some (digits_val l) else None.

(** [strconv.Atoi]: a sign may come first. *)
Definition Atoi (l : list ascii) : option Z :=
  let '(neg, ds) := match l with
                    | "-"%char :: ds => (true, ds)
                    | "+"%char :: ds => (false, ds)
                    | ds => (false, ds)
                    end in
  if bool_decide (ds <> []) && forallb is_digit ds then
    let z := if neg then (- digits_val ds)%Z else digits_val ds in
    if bool_decide (- 2 ^ 63 <= z < 2 ^ 63)%Z then Some z else None
  else None.

Definition memoryCursor (gen n : nat) : string := al (Itoa (Z.of_nat gen) ++ ":"%char :: Itoa (Z.of_nat n)).

(** The place a cursor names in the log of a session's generation, which has so
    many lines. *)
Definition cursor_place (gen lines : nat) (from : string) : option nat :=
  match Cut from ":"%char with
  | Some (g, c) =>
      match ParseUint (la g), Atoi (la c) with
      | Some gn, Some nn =>
          if bool_decide (gn = Z.of_nat gen) && bool_decide (0 <= nn < Z.of_nat lines)%Z then Some (Z.to_nat nn) else None
      | _, _ => None
      end
  | None => None
  end.

(** ** Changes *)

Inductive ChangeKind := Snapshot | Appended | Head | Reset.
#[global] Instance ChangeKind_eq_dec : EqDecision ChangeKind.
Proof. solve_decision. Defined.

Definition ChangeKind_String (k : ChangeKind) : string :=
  match k with Snapshot => "snapshot" | Appended => "appended" | Head => "head" | Reset => "reset" end.

Section Follow.
Context {OR : OpenResponses} {IC : ItemContent} {ND : NameDecoding} {CA : Canonicaliser} {SH : SHA256} {JT : JSONTools}.
Context {EC : EntryCodec} {HJ : HeaderJSON} {LC : LineCodec}.
Implicit Types (s live sess : Session) (e : Entry) (m : MemoryStore).

(** The session is as it was when the change was yielded: a caller that keeps it
    sees what later changes make of it. *)
Record Change := mkChange {
  chg_Kind : ChangeKind;
  chg_Session : Session;
  chg_ID : string;
  chg_Entry : option Entry;
  chg_Leaf : string;
  chg_Cursor : string
}.

(** A whole session, read. *)
Definition whole (kind : ChangeKind) sess (cursor : string) : Change := mkChange kind sess "" None "" cursor.

(** ** The session a follow begins with *)

(** [bytes.TrimRight(b, "\n")], [bytes.Split(b, "\n")], [bytes.Join(lines, "\n")]. *)
Fixpoint TrimLF (s : string) : string :=
  match s with
  | EmptyString => EmptyString
  | String c s => match TrimLF s with
                  | EmptyString => if decide (c = LF) then EmptyString else String c EmptyString
                  | t => String c t
                  end
  end.
Fixpoint SplitLF (s : string) : list string :=
  match s with
  | EmptyString => [EmptyString]
  | String c s =>
      if decide (c = LF) then EmptyString :: SplitLF s
      else match SplitLF s with
           | l :: ls => String c l :: ls
           | [] => [String c EmptyString]
           end
  end.
Fixpoint JoinLF (ls : list string) : string :=
  match ls with
  | [] => EmptyString
  | [l] => l
  | l :: ls => (l ++ String LF (JoinLF ls))%string
  end.

Definition memoryStart live (gen : nat) (from : string) : result (Session * nat * bool * ChangeKind) :=
  let! buf := Write live in
  let lines := SplitLF (TrimLF buf) in
  let '(take_, resumed, kind) :=
    if decide (from = "") then (length lines, false, Snapshot)
    else match cursor_place gen (length lines) from with
         | Some nn => (S nn, true, Snapshot)
         | None => (length lines, false, Reset)
         end in
  let! (sess, _) := Read (JoinLF (take take_ lines)) in
  Ok (sess, take_ - 1, resumed, kind).

(** ** The run *)

Record script := mkScript { sc_yield : list bool; sc_done : list bool; sc_wait : list bool }.

(** What is yielded, and no value when the function has returned. *)
Definition F (A : Type) := script -> script * list (result Change) * option A.
Definition fret {A} (a : A) : F A := fun sc => (sc, [], Some a).
Definition fbind {A B} (p : F A) (k : A -> F B) : F B := fun sc =>
  let '(sc, out, r) := p sc in
  match r with
  | Some a => let '(sc, out', r) := k a sc in (sc, out ++ out', r)
  | None => (sc, out, None)
  end.
Definition return_ {A} : F A := fun sc => (sc, [], None).
(** Not taken, and the function returns. *)
Definition yield (c : Change) : F unit := fun sc =>
  match sc_yield sc with
  | true :: ys => (mkScript ys (sc_done sc) (sc_wait sc), [Ok c], Some tt)
  | _ => (sc, [Ok c], None)
  end.
(** An error yielded is the last thing that is. *)
Definition fail {A} (err : error) : F A := fun sc => (sc, [Err err], None).
Definition done : F bool := fun sc =>
  match sc_done sc with
  | d :: ds => (mkScript (sc_yield sc) ds (sc_wait sc), [], Some d)
  | [] => (sc, [], Some true)
  end.
(** [wake.Wait] of the channel the hub gave and the poll's interval. *)
Definition wait (d : Z) : F bool := fun sc =>
  match sc_wait sc with
  | w :: ws => (mkScript (sc_yield sc) (sc_done sc) ws, [], Some w)
  | [] => (sc, [], Some false)
  end.
Notation "'let*' x ':=' p 'in' k" := (fbind p (fun x => k)) (at level 200, x pattern, p at level 100, k at level 200).
Notation "p ;* k" := (fbind p (fun _ => k)) (at level 199, k at level 200, right associativity).

(** What is found at a turn: the store, under its lock; the session where its
    entries are listed, where its header is looked at, and where it is read again
    if that is to be. *)
Record look := mkLook { lk_store : MemoryStore; lk_entries : Session; lk_header : Session; lk_again : Session }.

Definition memoryPoll : Poll := mkPoll 100000000 1000000000 0.

(** The entries past the place, one by one. *)
Fixpoint follow_entries (now : Time) (gen : nat) (es : list Entry) sess (n : nat) (poll : Poll) : F (Session * nat * Poll) :=
  match es with
  | [] => fret (sess, n, poll)
  | e :: es =>
      let* d := done in
      if (d : bool) then return_
      else
        match (let! b := MarshalEntry e in UnmarshalEntry b) with
        | Err err => fail err
        | Ok own =>
            let before := s_leaf sess in
            let '(sess, own, r) := Extend sess now own in
            match r with
            | Err err => fail err
            | Ok r =>
                let cursor := memoryCursor gen (S n) in
                yield (mkChange Appended sess (res_ID r) (Some own) "" cursor) ;*
                (if decide (s_leaf sess <> res_ID r /\ s_leaf sess <> before)
                 then yield (mkChange Head sess "" None (s_leaf sess) cursor) else fret tt) ;*
                follow_entries now gen es sess (S n) (Poll_Reset poll)
            end
        end
  end.

(** A turn at each look.  The session followed is the one the store made in the
    generation: a pointer to it is its id and that. *)
Fixpoint follow_loop (now : Time) (id : string) (gen : nat) (looks : list look) sess (n : nat) (poll : Poll) : F unit :=
  match looks with
  | [] => return_
  | lk :: looks =>
      if decide (is_Some (ms_sessions (lk_store lk) !! id) /\ ms_gens (lk_store lk) !! id = Some gen) then
        if decide (h_Format (s_header (lk_header lk)) <> s_declared sess) then
          match memoryStart (lk_again lk) gen "" with
          | Err err => fail err
          | Ok (sess, n, _, _) =>
              yield (whole Reset sess (memoryCursor gen n)) ;*
              follow_loop now id gen looks sess n (Poll_Reset poll)
          end
        else
          let* (sess, n, poll) := follow_entries now gen (drop n (s_entries (lk_entries lk))) sess n poll in
          let (d, poll) := Poll_Next poll in
          let* woken := wait d in
          if (woken : bool) then follow_loop now id gen looks sess n poll else return_
      else fail ErrNoSession
  end.

(** [Follow], the session as it is when the follow reads it first. *)
Definition follow (now : Time) (id from : string) m live (looks : list look) : F unit :=
  match ms_sessions m !! id with
  | None => fail ErrNoSession
  | Some _ =>
      let gen := default 0 (ms_gens m !! id) in
      match memoryStart live gen from with
      | Err err => fail err
      | Ok (sess, n, resumed, kind) =>
          (if (resumed : bool) then fret tt else yield (whole kind sess (memoryCursor gen n))) ;*
          follow_loop now id gen looks sess n memoryPoll
      end
  end.

Definition Follow (now : Time) (id from : string) m live (looks : list look) (sc : script) : list (result Change) :=
  (follow now id from m live looks sc).1.2.

End Follow.
