(* ===== verification/FollowProps.v ===== *)
(** * What a follower of a session in memory is told

    A cursor leads back to the place it was given for, and one of another session
    or of none to the whole ([memoryStart_resumes]); and the changes a follow
    yields are every entry of the log in order, each once, with the session as a
    reader of the log to there would have it ([Follow_in_order]). *)
From S2P Require Import Prelude Entry Header Tree Leaf TreeWf LeafLemmas LeafRefine Calls CallRules Runs Verify Omit Digest Settings Context Hash Session.
From S2P Require Import SessionProps Written WrittenSound Forks GoStrings Refs Blob Strconv StrconvProps NumberProps Json Ijson Jcs Marshal Codec CodecLines CodecProps CodecRoundtrip Store Wake Follow.
Open Scope session_scope.

Section FollowProps.
Context {OR : OpenResponses} {IC : ItemContent} {ND : NameDecoding} {SH : SHA256} {EC : EntryCodec} {HJ : HeaderJSON}.
#[local] Existing Instance json_tools.
#[local] Existing Instance jcs_canonicaliser.
Context {EL : EntryCodecLaws} {LC : LineCodec} {LCL : LineCodecLaws}.
Implicit Types (s live sess : Session) (e : Entry).

(** ** Lines, joined and split *)

Definition line_ok (c : string) : Prop := c <> "" /\ LF ∉ la c.

Lemma line_ok_cons x c : line_ok (String x c) <-> x <> LF /\ LF ∉ la c.
Proof. unfold line_ok. rewrite la_String not_elem_of_cons. naive_solver. Qed.

Lemma TrimLF_app c t : TrimLF t <> "" -> TrimLF (c ++ t) = (c ++ TrimLF t)%string.
Proof.
  intros Ht. induction c as [|x c IH]; [done|]. rewrite !str_app_String. cbn [TrimLF]. rewrite IH. by destruct (c ++ TrimLF t)%string eqn:E; [destruct c, (TrimLF t)|].
Qed.

Lemma TrimLF_line c : line_ok c -> TrimLF (c ++ String LF "") = c.
Proof.
  intros [Hne Hc]. induction c as [|x c IH]; [done|]. clear Hne. rewrite la_String in Hc. apply not_elem_of_cons in Hc as [Hx Hc].
  rewrite str_app_String. cbn [TrimLF]. destruct c as [|y c].
  - cbn. rewrite decide_False; [done|naive_solver].
  - rewrite IH //.
Qed.

Lemma TrimLF_file cs : Forall line_ok cs -> TrimLF (file_of cs) = JoinLF cs.
Proof.
  induction 1 as [|c cs Hc Hcs IH]; [done|]. cbn [file_of foldr]. change (foldr _ "" cs) with (file_of cs).
  destruct cs as [|d cs]; [by apply TrimLF_line|]. cbn [JoinLF].
  assert (TrimLF (String LF (file_of (d :: cs))) = String LF (JoinLF (d :: cs))) as Ht.
  { cbn [TrimLF]. rewrite IH. apply Forall_cons in Hcs as [[Hd _] _]. by destruct d, cs. }
  rewrite TrimLF_app Ht //.
Qed.

Lemma SplitLF_app c t : LF ∉ la c -> SplitLF (c ++ String LF t) = c :: SplitLF t.
Proof.
  induction c as [|x c IH]; [done|]. rewrite la_String not_elem_of_cons. intros [Hx Hc]. rewrite str_app_String. cbn [SplitLF].
  rewrite decide_False; [|naive_solver]. by rewrite IH.
Qed.

Lemma SplitLF_line c : LF ∉ la c -> SplitLF c = [c].
Proof.
  induction c as [|x c IH]; [done|]. rewrite la_String not_elem_of_cons. intros [Hx Hc]. cbn [SplitLF].
  rewrite decide_False; [|naive_solver]. by rewrite IH.
Qed.

Lemma SplitLF_join cs : Forall line_ok cs -> cs <> [] -> SplitLF (JoinLF cs) = cs.
Proof.
  induction 1 as [|c cs [_ Hc] Hcs IH]; [done|]. intros _. destruct cs as [|d cs]; [by apply SplitLF_line|].
  cbn [JoinLF]. rewrite SplitLF_app // IH //.
Qed.

Lemma join_file cs : cs <> [] -> (JoinLF cs ++ String LF "")%string = file_of cs.
Proof.
  induction cs as [|c cs IH]; [done|]. intros _. cbn [file_of foldr]. change (foldr _ "" cs) with (file_of cs).
  destruct cs as [|d cs]; [done|]. cbn [JoinLF]. by rewrite HashProps.str_app_assoc str_app_String IH.
Qed.

(** ** The line feed at the end of a file *)

(** A text that does not end a line. *)
Fixpoint unended (x : string) : Prop :=
  match x with
  | EmptyString => False
  | String c EmptyString => c <> LF
  | String _ x => unended x
  end.

Lemma unended_join cs : Forall line_ok cs -> cs <> [] -> unended (JoinLF cs).
Proof.
  assert (forall c, line_ok c -> unended c) as Hline.
  { intros c [Hne Hc]. induction c as [|x c IH]; [done|]. rewrite la_String in Hc. apply not_elem_of_cons in Hc as [Hx Hc].
    destruct c; [by intros ->|]. by apply IH. }
  assert (forall c t, unended t -> unended (c ++ t)%string) as Happ.
  { intros c t Ht. induction c as [|x c IH]; [done|]. rewrite str_app_String. cbn [unended]. by destruct (c ++ t)%string. }
  induction 1 as [|c cs Hc Hcs IH]; [done|]. intros _. destruct cs as [|d cs]; [by apply Hline|]. cbn [JoinLF]. apply Happ.
  specialize (IH ltac:(done)). change (match JoinLF (d :: cs) with EmptyString => LF <> LF | _ => unended (JoinLF (d :: cs)) end). by destruct (JoinLF (d :: cs)).
Qed.

Lemma ReadBytes_unended x : unended x ->
  (exists data rest, ReadBytes x = (data, rest, false) /\ unended rest /\ String.length rest < String.length x /\
     ReadBytes (x ++ String LF "") = (data, (rest ++ String LF "")%string, false)) \/
  (ReadBytes x = (x, "", true) /\ ReadBytes (x ++ String LF "") = ((x ++ String LF "")%string, "", false)).
Proof.
  induction x as [|c x IH]; [done|]. cbn [unended]. rewrite str_app_String. cbn [ReadBytes]. destruct (decide (c = LF)) as [->|Hc].
  - intros Hx. left. destruct x as [|d x]; [done|]. exists (String LF ""), (String d x). split_and!; try done. cbn. lia.
  - destruct x as [|d x]; [by right|]. intros Hx. destruct (IH Hx) as [(data & rest & -> & Hr & Hl & ->)|[-> ->]].
    + left. exists (String c data), rest. split_and!; try done. cbn [String.length] in *. lia.
    + by right.
Qed.

Lemma TrimRight_LF x : TrimRight (x ++ String LF "")%string = TrimRight x.
Proof. induction x as [|c x IH]; [done|]. rewrite str_app_String. cbn [TrimRight]. by rewrite IH. Qed.

Lemma unended_nonempty x : unended x -> x <> "".
Proof. by intros H ->. Qed.

(** A turn of the loop, the rest of it given. *)
Definition turn (loop : string -> nat -> option reading -> result (option reading * option TruncatedLine)) (file : string) (line : nat)
    (st : option reading) : result (option reading * option TruncatedLine) :=
  let '(data, rest, atEOF) := ReadBytes file in
  let data := TrimRight data in
  let next st := if atEOF then Ok (st, None) else loop rest (S line) st in
  if decide (data = "") then next st
  else
    match ijson_Check data with Err err => if json_valid data then Err err else Ok tt | Ok _ => Ok tt end ;!
    match st with
    | None => let! st := read_header data in next (Some st)
    | Some st =>
        match decodeLine data with
        | Err err =>
            if negb atEOF && bool_decide (rest <> "") then Err err
            else if json_valid data then Err err
            else Ok (Some st, Some (mkTruncated (S line) data err))
        | Ok (e, c) => let! st := link st e data c in next (Some st)
        end
    end.

Lemma read_lines_turn fuel file line st : read_lines (S fuel) file line st = turn (read_lines fuel) file line st.
Proof. done. Qed.

Lemma turn_LF loop loop' x line st : unended x -> (forall line st, loop' "" line st = Ok (st, None)) ->
  (forall rest line st, unended rest -> String.length rest < String.length x -> loop' (rest ++ String LF "")%string line st = loop rest line st) ->
  turn loop' (x ++ String LF "") line st = turn loop x line st.
Proof.
  intros Hx Hend Hrec. unfold turn. destruct (ReadBytes_unended x Hx) as [(data & rest & -> & Hr & Hlr & ->)|[-> ->]].
  - rewrite (bool_decide_eq_true_2 (rest <> "")); [|by apply unended_nonempty].
    rewrite (bool_decide_eq_true_2 ((rest ++ String LF "")%string <> "")); [|by destruct rest].
    destruct (decide _); [by apply Hrec|]. destruct (match ijson_Check _ with Ok _ => _ | Err _ => _ end) as [[]|]; [cbn [rbind]|done].
    destruct st as [st|].
    + destruct (decodeLine _) as [[e c]|]; [|done]. destruct (link _ _ _ _); [|done]. by apply Hrec.
    + destruct (read_header _); [|done]. by apply Hrec.
  - rewrite TrimRight_LF. rewrite !(bool_decide_eq_false_2 ("" <> "")); [|by intros []..]. cbn [negb andb]. destruct (decide _); [apply Hend|].
    destruct (match ijson_Check _ with Ok _ => _ | Err _ => _ end) as [[]|]; [cbn [rbind]|done]. destruct st as [st|].
    + destruct (decodeLine _) as [[e c]|]; [|done]. destruct (link _ _ _ _); [|done]. apply Hend.
    + destruct (read_header _); [|done]. apply Hend.
Qed.

Lemma read_lines_LF fuel : forall x line st, String.length x < fuel -> unended x ->
  read_lines (S fuel) (x ++ String LF "") line st = read_lines fuel x line st.
Proof.
  induction fuel as [|fuel IH]; intros x line st Hl Hx; [lia|]. rewrite !(read_lines_turn _ _ line).
  apply turn_LF; [done|done|]. intros rest line' st' Hr Hlr. apply IH; [lia|done].
Qed.

Lemma Read_LF x : unended x -> Read (x ++ String LF "") = Read x.
Proof.
  intros Hx. unfold Read. rewrite Digest.str_length_app. cbn [String.length]. rewrite Nat.add_1_r read_lines_LF //. lia.
Qed.

Lemma Read_join cs : Forall line_ok cs -> cs <> [] -> Read (JoinLF cs) = Read (file_of cs).
Proof. intros Hcs Hne. rewrite -(join_file cs Hne) Read_LF //. by apply unended_join. Qed.

(** ** Cursors *)

Lemma Cut_al sep l r : sep ∉ l -> Cut (string_of_list_ascii (l ++ sep :: r)) sep = Some (string_of_list_ascii l, string_of_list_ascii r).
Proof.
  induction l as [|c l IH]; cbn [app string_of_list_ascii Cut]; [by rewrite decide_True|]. rewrite not_elem_of_cons. intros [Hc Hl].
  rewrite decide_False; [|naive_solver]. by rewrite IH.
Qed.

Lemma Itoa_digits z : (0 <= z)%Z -> Itoa z <> [] /\ forallb is_digit (Itoa z) = true /\ digits_val (Itoa z) = z.
Proof.
  intros Hz. unfold Itoa. decide_bool (z <? 0)%Z false. destruct (digits_of_spec z Hz) as (Hv & Hd & Hne & _). done.
Qed.

Lemma ParseUint_Itoa z : (0 <= z < 2 ^ 64)%Z -> ParseUint (Itoa z) = Some z.
Proof.
  intros Hz. destruct (Itoa_digits z) as (Hne & Hd & Hv); [lia|]. unfold ParseUint. rewrite Hv Hd bool_decide_eq_true_2 // bool_decide_eq_true_2 //. lia.
Qed.

Lemma Atoi_Itoa z : (0 <= z < 2 ^ 63)%Z -> Atoi (Itoa z) = Some z.
Proof.
  intros Hz. destruct (Itoa_digits z) as (Hne & Hd & Hv); [lia|]. unfold Atoi. destruct (Itoa z) as [|c l] eqn:E; [done|].
  cbn [forallb] in Hd. pose proof Hd as [Hc _]%andb_true_iff.
  assert (match c with "-"%char => (true, l) | "+"%char => (false, l) | _ => (false, c :: l) end = (false, c :: l)) as ->.
  { unfold is_digit in Hc. rewrite andb_true_iff !Z.leb_le in Hc. destruct c as [[] [] [] [] [] [] [] []]; try done; by vm_compute in Hc; destruct Hc. }
  rewrite Hv bool_decide_eq_true_2 // [forallb _ _]Hd. cbn [andb]. rewrite bool_decide_eq_true_2 //. lia.
Qed.

Lemma cursor_place_spec gen lines gen' n : (Z.of_nat gen' < 2 ^ 64)%Z -> (Z.of_nat n < 2 ^ 63)%Z ->
  cursor_place gen lines (memoryCursor gen' n) = if decide (gen' = gen /\ n < lines) then Some n else None.
Proof.
  intros Hg Hn. unfold cursor_place, memoryCursor. rewrite Cut_al.
  2: { intros Hin. destruct (Itoa_digits (Z.of_nat gen')) as (_ & Hd & _); [lia|]. rewrite forallb_forall in Hd.
       apply list_elem_of_In, Hd in Hin. by vm_compute in Hin. }
  rewrite !list_ascii_of_string_of_list_ascii ParseUint_Itoa; [|lia]. rewrite Atoi_Itoa; [|lia].
  destruct (decide (gen' = gen /\ n < lines)) as [[-> Hl]|Hne].
  - rewrite !bool_decide_eq_true_2 //; [|lia]. cbn [andb]. by rewrite Nat2Z.id.
  - case_bool_decide as H1; [|done]. rewrite bool_decide_eq_false_2 //. lia.
Qed.

Lemma memoryCursor_nonempty gen n : memoryCursor gen n <> "".
Proof. unfold memoryCursor. by destruct (Itoa (Z.of_nat gen)). Qed.

(** ** A session cut short *)

(** The log to a place: its first entries, with its base among them. *)
Definition reaches s (n : nat) : Prop :=
  h_Base (s_header s) = "" \/ h_Base (s_header s) ∈ ids (take n (s_entries s)).

Lemma Forall3_take {A B C} (P : A -> B -> C -> Prop) l k k' n : Forall3 P l k k' -> Forall3 P (take n l) (take n k) (take n k').
Proof. intros H. revert n. induction H; intros [|n]; cbn [take]; constructor; auto. Qed.

Lemma kept_take s n : kept s -> definesRedactedFrom (h_Format (s_header s)) = true ->
  reaches s n -> exists s', kept s' /\ s_header s' = s_header s /\ s_entries s' = take n (s_entries s).
Proof.
  intros Hk Hd Hr. destruct Hk as [Hw [rule Hf] Hb Hp]. rewrite -(take_drop n (s_entries s)) in Hf. apply filed_app_inv in Hf as [rule' Hf].
  set (s0 := foldl add (New (s_header s)) (take n (s_entries s))).
  destruct (foldl_add_fields (take n (s_entries s)) (New (s_header s)) Hd) as (H1 & H2 & _). fold s0 in H1, H2. cbn [s_entries New app] in H2.
  assert (wf s0) as Hw0 by (by eapply filed_add).
  exists (set_prefix (list_to_set (ids (path s0 (h_Base (s_header s))))) s0).
  assert (forall p id, path (set_prefix p s0) id = path s0 id) as Hpath by (intros p id; by apply path_ext).
  split; [|done]. split; cbn [s_header s_entries s_prefix set_prefix]; rewrite ?H1 ?H2.
  - by apply wf_set_prefix.
  - by eexists.
  - intros Hne. destruct Hr as [|Hr]; [done|]. change (has_entry s0 (h_Base (s_header s)) = true). apply wf_has_entry; [done|]. by rewrite H2.
  - by rewrite Hpath.
Qed.

(** ** Where a follow starts *)

(** A session a store can write as lines that read back, as the entries [es]. *)
Record lined s (es : list Entry) : Prop := {
  ln_kept : kept s;
  ln_whole : s_migrated s && bool_decide (s_unresolved s <> []) = false;
  ln_lines : exists ch cs, header_line (s_header s) ch /\ entries_read (h_Format (s_header s)) (s_entries s) cs es
}.

Lemma line_ok_of l c : Transform l = Some c -> line_ok c.
Proof. intros Ht. destruct (canonical_line_facts _ _ Ht) as ((? & ? & _) & _). done. Qed.

(** A session read of a log to a place: its header, the entries the lines read as,
    and the leaf where [Read] puts it. *)
Definition reads live es (n : nat) sess : Prop :=
  s_header sess = s_header live /\ s_entries sess = take n es /\ s_leaf sess = resolveLeaf sess /\ kept sess.

(** What [memoryStart] reads: the session to the place it takes. *)
Lemma memoryStart_take live es gen from n resumed kind : lined live es ->
  (forall lines, (lines = S (length (s_entries live)))%nat ->
    (if decide (from = "") then (lines, false, Snapshot)
     else match cursor_place gen lines from with Some nn => (S nn, true, Snapshot) | None => (lines, false, Reset) end) = (S n, resumed, kind)) ->
  n <= length (s_entries live) -> reaches live n ->
  exists sess, memoryStart live gen from = Ok (sess, n, resumed, kind) /\ reads live es n sess.
Proof.
  intros [Hk Hm (ch & cs & Hh & Hes)] Htake Hn Hr. unfold memoryStart. rewrite (Write_kept live ch cs es Hm Hh Hes). cbn [rbind].
  destruct Hes as [Hes Hag]. pose proof (Forall3_length_lm _ _ _ _ Hes) as Hlen. assert (Forall line_ok (ch :: cs)) as Hok.
  { constructor; [destruct Hh as (l & _ & Ht & _); by eapply line_ok_of|]. clear -Hes LCL.
    induction Hes as [|????? ? (l & _ & _ & _ & _ & Ht & _) _ IH]; constructor; [by eapply line_ok_of|done]. }
  rewrite TrimLF_file // SplitLF_join // Htake; [|by cbn [length]; rewrite Hlen]. cbn [take].
  rewrite Read_join //; [|by apply Forall_cons in Hok as [? ?]; constructor; [|apply Forall_take]].
  pose proof Hh as (_ & _ & _ & _ & _ & _ & Hdef). destruct (kept_take live n Hk Hdef Hr) as (s' & Hk' & Hh' & He').
  destruct (read_kept s' ch (take n cs) (take n es) "" Hk') as (st & fuel & _ & H);
    [by rewrite Hh'|rewrite Hh' He'; split; [by apply Forall3_take|by apply Forall2_take]|].
  rewrite str_app_nil in H. destruct (H None (read_end _ _ _)) as (sess & Hread & Hs & Hl). rewrite Hread. cbn [rbind].
  exists sess. rewrite Nat.sub_succ Nat.sub_0_r. split; [done|]. apply Read_kept in Hread as [Hkr Hlr].
  unfold reads. by rewrite (sl_header _ _ _ Hs) (sl_entries _ _ _ Hs) Hh'.
Qed.

Lemma reaches_all s : kept s -> reaches s (length (s_entries s)).
Proof.
  intros Hk. unfold reaches. rewrite firstn_all. destruct (decide (h_Base (s_header s) = "")) as [|Hne]; [by left|right].
  apply wf_has_entry; [apply Hk|by apply (kp_base _ Hk)].
Qed.

Lemma memoryStart_whole live es gen from : lined live es ->
  from = "" \/ cursor_place gen (S (length (s_entries live))) from = None ->
  exists sess, memoryStart live gen from = Ok (sess, length (s_entries live), false, if decide (from = "") then Snapshot else Reset) /\
    reads live es (length (s_entries live)) sess.
Proof.
  intros Hl Hf. destruct (memoryStart_take live es gen from (length (s_entries live)) false (if decide (from = "") then Snapshot else Reset))
    as (sess & Hs & H); [done| |done|by eapply reaches_all, Hl|by exists sess].
  intros lines ->. destruct (decide (from = "")) as [|Hne]; [done|]. destruct Hf as [|Hf]; [done|]. by rewrite Hf.
Qed.

Lemma memoryStart_part live es gen from n : lined live es -> from <> "" -> cursor_place gen (S (length (s_entries live))) from = Some n -> reaches live n ->
  n <= length (s_entries live) /\ exists sess, memoryStart live gen from = Ok (sess, n, true, Snapshot) /\ reads live es n sess.
Proof.
  intros Hl Hne Hp Hr. assert (n <= length (s_entries live)) as Hn.
  { unfold cursor_place in Hp. destruct (Cut from ":") as [[g c]|]; [|done]. destruct (ParseUint _) as [gn|]; [|done].
    destruct (Atoi _) as [nn|]; [|done]. destruct (_ && _) eqn:Hb; [|done]. injection Hp as <-. bool_prop. lia. }
  split; [done|]. destruct (memoryStart_take live es gen from n true Snapshot) as (sess & Hs & H); [done| |done|done|by exists sess].
  intros lines ->. rewrite decide_False // Hp //.
Qed.

(** C13: of a session whose lines read back, as the entries [es], the cursor a follow
    gave for a place resumes it there, with the session as it was read to there; no cursor begins with the whole session; and a cursor of
    another generation of the session, or past its end, is answered with the whole
    session again, as a [Reset]. *)
Theorem memoryStart_resumes live es gen : lined live es -> (Z.of_nat gen < 2 ^ 64)%Z ->
  (exists sess, memoryStart live gen "" = Ok (sess, length (s_entries live), false, Snapshot) /\ reads live es (length (s_entries live)) sess) /\
  (forall n, (Z.of_nat n < 2 ^ 63)%Z -> n <= length (s_entries live) -> reaches live n ->
     exists sess, memoryStart live gen (memoryCursor gen n) = Ok (sess, n, true, Snapshot) /\ reads live es n sess) /\
  (forall gen' n, (Z.of_nat gen' < 2 ^ 64)%Z -> (Z.of_nat n < 2 ^ 63)%Z -> gen' <> gen \/ length (s_entries live) < n ->
     exists sess, memoryStart live gen (memoryCursor gen' n) = Ok (sess, length (s_entries live), false, Reset) /\
       reads live es (length (s_entries live)) sess).
Proof.
  intros Hl Hg. split_and!.
  - apply (memoryStart_whole live es gen ""); [done|by left].
  - intros n Hn Hle Hr. eapply memoryStart_part; [done|apply memoryCursor_nonempty| |done].
    rewrite cursor_place_spec // decide_True //. lia.
  - intros gen' n Hg' Hn Hne. destruct (memoryStart_whole live es gen (memoryCursor gen' n) Hl) as (sess & Hs & H).
    { right. rewrite cursor_place_spec // decide_False //. intros [-> ?]. destruct Hne as [|]; [done|lia]. }
    exists sess. by rewrite Hs decide_False; [|apply memoryCursor_nonempty].
Qed.

(** ** One entry more *)

(** The follower's session: the entries of a log to a place, by their ids, and the
    leaf a reader of those lines would have, where no label names an entry before
    it comes. *)
Record held (L : list string) (n : nat) sess : Prop := {
  hd_ids : ids (s_entries sess) = take n L;
  hd_place : n <= length L;
  hd_sound : sound sess;
  hd_leaf : settled (s_entries sess) -> s_leaf sess = resolveLeaf sess /\ read_inv sess
}.

Lemma gateRedacted_id e format : eid (gateRedacted e format) = eid e.
Proof.
  unfold gateRedacted. destruct (definesRedactedFrom format); [done|]. unfold demoteRedacted, eid.
  by destruct (isRedacted (Base e)); rewrite !Base_set_Base.
Qed.

Lemma prepare_id s now e e' r : prepare s now e = (e', Ok r) -> eid e <> "" -> eid e' = eid e.
Proof.
  unfold prepare. destruct (prepareEntry s now e) as [e1 [r1|]] eqn:Hp; [|done]. intros [= <- <-] Hne. revert Hp. unfold prepareEntry.
  rewrite mbind_Ok. intros (e1' & res & Hres & H). injection Hres as <- _.
  apply mbind_Ok in H as (? & ? & [-> _]%lift_Ok & H).
  apply mbind_Ok in H as (e2 & [] & He2 & H). injection He2 as <-.
  apply mbind_Ok in H as (? & p & Hp & H). injection Hp as <- <-.
  apply mbind_Ok in H as (? & [] & [-> _]%lift_Ok & H).
  apply mbind_Ok in H as (e3 & [] & He3 & H). injection He3 as <-.
  apply mbind_Ok in H as (e4 & [] & He4 & H). injection He4 as <-.
  apply mbind_Ok in H as (? & b & Hb & H). injection Hb as <- Hb.
  apply mbind_Ok in H as (? & [] & [-> _]%lift_Ok & H).
  apply mbind_Ok in H as (e5 & [] & _ & H). apply mbind_Ok in H as (e6 & [] & _ & H).
  apply mbind_Ok in H as (e7 & line & _ & H). apply mbind_Ok in H as (e8 & [] & _ & H).
  apply mbind_Ok in H as (? & id & Hid & H). injection Hid as <- <-.
  apply mbind_Ok in H as (? & [] & [-> Href]%lift_Ok & H).
  apply mbind_Ok in H as (e9 & [] & Hraw & H). apply rewrite_raw_Ok in Hraw.
  apply mbind_Ok in H as (? & e10 & He10 & H). injection He10 as <- <-.
  assert (ID b = eid e) as Hb'.
  { rewrite -Hb !Base_set_Base. unfold order_parents, fill_timestamp, fill_parent, eid. by repeat destruct (decide _). }
  assert (e1 = e9) as ->.
  { destruct (has_entry s _); [by injection H|]. by apply mbind_Ok in H as (? & [] & [-> _]%lift_Ok & H); injection H. }
  apply refuse_if_Ok in Href. rewrite Hb' in Href. unfold eid at 1. rewrite Hraw.
  rewrite (bool_decide_eq_true_2 (eid e <> "")) // in Href. cbn [andb] in Href. apply bool_decide_eq_false, dec_stable in Href. done.
Qed.

Lemma Extend_held L n sess now own e s' own' r :
  held L n sess -> NoDup (take (S n) L) -> L !! n = Some (eid e) -> eid own = eid e -> eid e <> "" ->
  Extend sess now own = (s', own', Ok r) ->
  held L (S n) s' /\ res_ID r = eid e /\ eid own' = eid e /\ last (s_entries s') = Some own'.
Proof.
  intros [Hids Hn Hs Hleaf] Hnd HL Hown Hne HE. pose proof HE as Hext. unfold Extend in HE. destruct (validateEntry (Some own)); [|done].
  destruct (prepare sess now _) as [e1 [r1|]] eqn:Hp; [|done].
  pose proof (prepare_id _ _ _ _ _ Hp ltac:(by rewrite gateRedacted_id Hown)) as Hid. rewrite gateRedacted_id Hown in Hid.
  apply prepare_accepted in Hp; [|done]. pose proof (ac_id _ _ _ Hp) as Hrid.
  assert (res_Outcome r1 <> Held) as Ho.
  { intros Ho. apply (ac_held _ _ _ Hp), wf_has_entry in Ho; [|apply Hs]. rewrite Hid Hids in Ho.
    rewrite (take_S_r _ _ _ HL) in Hnd. apply NoDup_app in Hnd as (_ & Hd & _). apply (Hd _ Ho), list_elem_of_here. }
  rewrite decide_False // in HE. injection HE as Hs' He Hr. subst own' r. split; [|by rewrite Hrid Hid -Hs'; cbn; rewrite last_snoc].
  assert (s_entries s' = s_entries sess ++ [e1]) as He' by (by rewrite -Hs').
  assert (settled (s_entries s') -> s_leaf s' = resolveLeaf s' /\ sound s' /\ read_inv s') as Hset.
  { intros Hset. rewrite He' in Hset. pose proof (settled_app_inv _ _ Hset) as [_ Hri]%Hleaf. eapply Extend_reads; try done. by apply settled_unnamed. }
  split.
  - by rewrite He' ids_app Hids (take_S_r _ _ _ HL) -Hid.
  - by apply lookup_lt_Some in HL.
  - rewrite -Hs'. apply sound_set_leaf. pose proof (sound_add _ _ _ Hs Hp Ho) as Ha. destruct Ha. split; [by apply wf_set_read|done..].
  - intros Hs2. destruct (Hset Hs2) as (? & _ & ?). done.
Qed.

(** ** What is yielded *)

(** The change that tells of the entry at a place. *)
Record appended (L : list string) (gen n : nat) (c : Change) : Prop := {
  ap_kind : chg_Kind c = Appended;
  ap_id : L !! n = Some (chg_ID c);
  ap_entry : exists e, chg_Entry c = Some e /\ eid e = chg_ID c /\ last (s_entries (chg_Session c)) = Some e;
  ap_cursor : chg_Cursor c = memoryCursor gen (S n);
  ap_session : held L (S n) (chg_Session c)
}.

(** The change that tells that the leaf moved elsewhere than to the entry before. *)
Record moved (L : list string) (gen n : nat) (c : Change) : Prop := {
  mv_kind : chg_Kind c = Head;
  mv_leaf : chg_Leaf c = s_leaf (chg_Session c);
  mv_else : L !! (n - 1) <> Some (chg_Leaf c);
  mv_cursor : chg_Cursor c = memoryCursor gen n;
  mv_session : held L n (chg_Session c)
}.

(** The change that begins again, at a place. *)
Record begun (L : list string) (gen n : nat) (kind : ChangeKind) (c : Change) : Prop := {
  bg_kind : chg_Kind c = kind;
  bg_cursor : chg_Cursor c = memoryCursor gen n;
  bg_session : held L n (chg_Session c)
}.

(** Changes that lead from one place in the log to another. *)
Inductive told (L : list string) (gen : nat) : nat -> list (result Change) -> nat -> Prop :=
  | told_nothing n : told L gen n [] n
  | told_appended n c out n' : appended L gen n c -> told L gen (S n) out n' -> told L gen n (Ok c :: out) n'
  | told_moved n c out n' : moved L gen n c -> told L gen n out n' -> told L gen n (Ok c :: out) n'
  | told_reset n m c out n' : begun L gen m Reset c -> told L gen m out n' -> told L gen n (Ok c :: out) n'.

(** To the end of the follow: a stop, or the one error it fails with. *)
Definition halted (L : list string) (gen : nat) (stop : nat -> list (result Change) -> Prop) (fault : nat -> error -> Prop)
    (n : nat) (out : list (result Change)) : Prop :=
  exists out' n', told L gen n out' n' /\
    ((out = out' /\ stop n' out') \/ exists err, out = out' ++ [Err err] /\ fault n' err).

Lemma told_app L gen n out n' out' n'' : told L gen n out n' -> told L gen n' out' n'' -> told L gen n (out ++ out') n''.
Proof.
  induction 1; intros H'; cbn [app]; [done|by apply told_appended; auto|by apply told_moved; auto|by eapply told_reset; eauto].
Qed.

Lemma halted_app L gen (stop stop' : nat -> list (result Change) -> Prop) (fault fault' : nat -> error -> Prop) n out n' out' :
  told L gen n out n' -> halted L gen stop fault n' out' ->
  (forall m o, stop m o -> stop' m (out ++ o)) -> (forall m err, fault m err -> fault' m err) ->
  halted L gen stop' fault' n (out ++ out').
Proof.
  intros H (o & m & Ho & He) Hs Hf. exists (out ++ o), m. split; [by eapply told_app|].
  destruct He as [[-> ?]|(err & -> & ?)]; [left; auto|right]. exists err. rewrite app_assoc. auto.
Qed.

Lemma told_halted L gen (stop : nat -> list (result Change) -> Prop) fault n out n' : told L gen n out n' -> stop n' out -> halted L gen stop fault n out.
Proof. intros H Hs. exists out, n'. by split; [|left]. Qed.

Lemma halted_err L gen stop (fault : nat -> error -> Prop) n err : fault n err -> halted L gen stop fault n [Err err].
Proof. intros H. exists [], n. split; [constructor|]. right. by exists err. Qed.

(** A caller that takes so many changes, under a context that is done at none of as
    many askings and ends none of as many waits. *)
Definition patient (k : nat) (sc : script) : Prop :=
  (exists ys, sc_yield sc = replicate k true ++ ys) /\
  (exists ds, sc_done sc = replicate k false ++ ds) /\
  (exists ws, sc_wait sc = replicate k true ++ ws).

Lemma patient_le k k' sc : patient k' sc -> k <= k' -> patient k sc.
Proof.
  intros ((ys & Hy) & (ds & Hd) & (ws & Hw)) Hk. replace k' with (k + (k' - k)) in * by lia.
  rewrite !replicate_add -!app_assoc in Hy Hd Hw. split_and!; eauto.
Qed.

(** Running a sequence: what the first part yields, then what the rest does. *)
Lemma fbind_run {A B} (p : F A) (k : A -> F B) sc sc' out r : fbind p k sc = (sc', out, r) ->
  exists sc1 out1 r1, p sc = (sc1, out1, r1) /\
    match r1 with
    | Some a => exists out2, k a sc1 = (sc', out2, r) /\ out = out1 ++ out2
    | None => out = out1 /\ r = None
    end.
Proof.
  unfold fbind. destruct (p sc) as [[sc1 out1] [a|]]; [destruct (k a sc1) as [[sc2 out2] r2] eqn:Hk|];
    intros [= <- <- <-]; do 3 eexists; (split; [done|]); [|done]. by exists out2.
Qed.

Lemma yield_run c sc sc' out r : yield c sc = (sc', out, r) ->
  out = [Ok c] /\ (r = None -> ~ patient 1 sc) /\ (forall k, patient (S k) sc -> patient k sc').
Proof.
  unfold yield. destruct (sc_yield sc) as [|[] ys] eqn:E; intros [= <- <- <-]; (split; [done|split]); try done.
  1, 4: intros _ ((? & H) & _); by rewrite E in H.
  1, 3: intros k ((? & H) & _); by rewrite E in H.
  intros k ((ys' & H) & (ds & Hd) & (ws & Hw)). rewrite E in H. injection H as ->.
  apply (patient_le k k); [|done]. split_and!; [by exists ys'| |]; cbn [sc_done sc_wait]; rewrite ?Hd ?Hw replicate_S_end -app_assoc; eauto.
Qed.

Lemma done_run sc sc' out r : done sc = (sc', out, r) ->
  out = [] /\ exists d, r = Some d /\ (d = true -> ~ patient 1 sc) /\ (forall k, patient (S k) sc -> patient k sc').
Proof.
  unfold done. destruct (sc_done sc) as [|d ds] eqn:E; intros [= <- <- <-]; (split; [done|eexists; split; [done|split]]).
  1, 2: try intros k; intros (_ & (? & H) & _); by rewrite E in H.
  - intros -> (_ & (? & H) & _). by rewrite E in H.
  - intros k ((ys & Hy) & (ds' & H) & (ws & Hw)). rewrite E in H. injection H as -> ->.
    split_and!; cbn [sc_yield sc_done sc_wait]; [rewrite Hy replicate_S_end -app_assoc|by exists ds'|rewrite Hw replicate_S_end -app_assoc]; eauto.
Qed.

Lemma wait_run d sc sc' out r : wait d sc = (sc', out, r) ->
  out = [] /\ exists w, r = Some w /\ (w = false -> ~ patient 1 sc) /\ (forall k, patient (S k) sc -> patient k sc').
Proof.
  unfold wait. destruct (sc_wait sc) as [|w ws] eqn:E; intros [= <- <- <-]; (split; [done|eexists; split; [done|split]]).
  1, 2: try intros k; intros (_ & _ & ? & H); by rewrite E in H.
  - intros -> (_ & _ & ? & H). by rewrite E in H.
  - intros k ((ys & Hy) & (ds & Hd) & (ws' & H)). rewrite E in H. injection H as -> ->.
    split_and!; cbn [sc_yield sc_done sc_wait]; [rewrite Hy replicate_S_end -app_assoc|rewrite Hd replicate_S_end -app_assoc|by exists ws']; eauto.
Qed.

(** ** The loops *)

(** What is asked of the line encoder: an entry keeps its id. *)
Definition keeps_id e : Prop := forall b own, MarshalEntry e = Ok b -> UnmarshalEntry b = Ok own -> eid own = eid e.

(** The entry is refused: the encoders do not take it, or the follower's session of
    the entries before it does not. *)
Definition refused (L : list string) (now : Time) (n : nat) e (err : error) : Prop :=
  exists sess, held L n sess /\
    match (let! b := MarshalEntry e in UnmarshalEntry b) with
    | Err err' => err = err'
    | Ok own => (Extend sess now own).2 = Err err
    end.

Lemma follow_entries_told (L : list string) now gen es : Forall keeps_id es -> NoDup L -> "" ∉ L -> forall sess n poll sc sc' out r,
  held L n sess -> (forall i e, es !! i = Some e -> L !! (n + i) = Some (eid e)) ->
  follow_entries now gen es sess n poll sc = (sc', out, r) ->
  match r with
  | Some (sess', n', _) => told L gen n out n' /\ held L n' sess' /\ n' = n + length es /\
      forall k, patient (3 * length es + k) sc -> patient k sc'
  | None => halted L gen (fun _ _ => ~ patient (3 * length es) sc)
      (fun n' err => exists i e, n' = n + i /\ es !! i = Some e /\ refused L now n' e err) n out
  end.
Proof.
  intros Hkeep Hnd Hne. induction Hkeep as [|e es Hkeep _ IH]; intros sess n poll sc sc' out r Hh Hes H.
  { injection H as <- <- <-. split_and!; [constructor|done|by rewrite Nat.add_0_r|done]. }
  cbn [follow_entries] in H. apply fbind_run in H as (sc1 & out1 & r1 & Hd & H). apply done_run in Hd as (-> & d & -> & Hds & Hdk).
  destruct H as (out2 & H & ->). cbn [app].
  destruct d; [injection H as _ <- <-; eapply told_halted; [constructor|]; intros Hp; apply (Hds eq_refl); eapply patient_le; [exact Hp|cbn [length]; lia]|].
  assert (forall err, match (let! b := MarshalEntry e in UnmarshalEntry b) with
                      | Err err' => err = err' | Ok own => (Extend sess now own).2 = Err err end ->
    halted L gen (fun _ _ => ~ patient (3 * length (e :: es)) sc)
      (fun n' err => exists i e0, n' = n + i /\ (e :: es) !! i = Some e0 /\ refused L now n' e0 err) n [Err err]) as Hrefuse.
  { intros err Herr. apply halted_err. exists 0, e. split_and!; [lia|done|by exists sess]. }
  destruct (let! b := MarshalEntry e in UnmarshalEntry b) as [own|err] eqn:Hown; [|injection H as _ <- <-; by apply Hrefuse].
  apply rbind_Ok in Hown as (b & Hb & Hown). pose proof (Hkeep _ _ Hb Hown) as Hid.
  destruct (Extend sess now own) as [[s' own'] [r1|err]] eqn:HE; [|injection H as _ <- <-; by apply Hrefuse].
  pose proof (Hes 0 e eq_refl) as HL. rewrite Nat.add_0_r in HL.
  assert (eid e <> "") as Hnn by (intros E; apply Hne; rewrite -E; by eapply list_elem_of_lookup_2).
  assert (NoDup (take (S n) L)) as Hnd' by (rewrite -(take_drop (S n) L) in Hnd; by apply NoDup_app in Hnd as [? _]).
  destruct (Extend_held L n sess now own e s' own' r1 Hh Hnd' HL Hid Hnn HE) as (Hh' & Hrid & Hoid & Hlast).
  set (cursor := memoryCursor gen (S n)) in *.
  assert (forall out n', told L gen (S n) out n' -> told L gen n (Ok (mkChange Appended s' (res_ID r1) (Some own') "" cursor) :: out) n') as Happ.
  { intros o n' Ho. apply told_appended; [|done]. split; try done; cbn; [by rewrite Hrid|]. exists own'. by rewrite Hrid. }
  assert (forall i e0, es !! i = Some e0 -> L !! (S n + i) = Some (eid e0)) as Hes'.
  { intros i e0 Hi. rewrite -(Hes (S i) e0 Hi). f_equal. lia. }
  specialize (fun sc => IH s' (S n) (Poll_Reset poll) sc). clear Hes Hrefuse.
  apply fbind_run in H as (sc2 & o2 & r2 & Hy & H). apply yield_run in Hy as (-> & Hys & Hyk).
  destruct r2 as [[]|]; [|destruct H as [-> ->]; eapply told_halted; [apply Happ, told_nothing|]; intros Hp;
    apply (Hys eq_refl), Hdk; eapply patient_le; [exact Hp|cbn [length]; lia]].
  destruct H as (o3 & H & ->). apply fbind_run in H as (sc3 & o4 & r4 & Hm & H).
  assert (told L gen (S n) o4 (S n) /\ (r4 = None -> ~ patient 1 sc2) /\ (forall k, patient (S k) sc2 -> patient k sc3)) as (Ho4 & Hms & Hmk).
  { destruct (decide _) as [[Hl1 Hl2]|].
    - apply yield_run in Hm as (-> & ? & ?). split; [|done].
      apply told_moved; [|constructor]. split; try done. cbn. rewrite Nat.sub_0_r HL. congruence.
    - injection Hm as <- <- <-. split_and!; [constructor|done|]. intros k Hk. eapply patient_le; [exact Hk|lia]. }
  destruct r4 as [[]|]; [|destruct H as [-> ->]; eapply told_halted; [apply Happ, Ho4|]; intros Hp;
    apply (Hms eq_refl), Hyk, Hdk; eapply patient_le; [exact Hp|cbn [length]; lia]].
  destruct H as (o5 & H & ->). apply IH in H; [|done..].
  assert (forall k, patient (3 * length (e :: es) + k) sc -> patient (3 * length es + k) sc3) as Hk.
  { intros k Hp. apply Hmk, Hyk, Hdk. eapply patient_le; [done|cbn [length]; lia]. }
  destruct r as [[[? ?] ?]|].
  - destruct H as (G & ? & -> & Hpk). split_and!; [apply Happ; by eapply told_app|done|cbn [length]; lia|]. intros k Hp. by apply Hpk, Hk.
  - apply (halted_app L gen _ _ _ _ n ([_] ++ o4) (S n) o5 (Happ _ _ Ho4) H).
    + intros _ _ Hs Hp. apply Hs. rewrite -(Nat.add_0_r (3 * length es)). apply Hk. by rewrite Nat.add_0_r.
    + intros m err (i & e0 & -> & Hi & Hr). exists (S i), e0. split_and!; [lia|done|done].
Qed.

(** A moment of the session whose log comes to be another's. *)
Definition moment (final s : Session) : Prop := (exists es, lined s es) /\ ids (s_entries s) `prefix_of` ids (s_entries final).

(** A look at the store, at moments of the session. *)
Definition sees final (lk : look) : Prop :=
  moment final (lk_entries lk) /\ Forall keeps_id (s_entries (lk_entries lk)) /\ moment final (lk_again lk).

Lemma reads_held final live es n sess : moment final live -> lined live es -> n <= length (s_entries live) -> reads live es n sess -> s_read sess = None ->
  held (ids (s_entries final)) n sess.
Proof.
  intros [_ [t Ht]] [_ _ (? & ? & _ & _ & Hag)] Hn (_ & He & Hl & Hk) Hr. rewrite Ht. assert (length (ids (s_entries live)) = length (s_entries live)) as Hlen by apply length_fmap.
  split.
  - rewrite He take_app_le; [|lia]. rewrite -(agrees_ids _ _ Hag). apply fmap_take.
  - rewrite length_app. lia.
  - by apply kept_sound.
  - intros _. split; [done|]. intros st. by rewrite Hr.
Qed.

Lemma link_read st e data c st' : link st e data c = Ok st' -> s_read (rd_session st') = s_read (rd_session st).
Proof.
  unfold link. intros ([[e' ids'] s'] & H & Hl)%rbind_Ok. assert (s_read s' = s_read (rd_session st)) as <-.
  { destruct (rd_ids st) as [ids|].
    - apply rbind_Ok in H as ([[e1 old] s1] & H & Hr). injection Hr as <- <- <-. unfold migration_rewrite in H.
      apply rbind_Ok in H as ([] & _ & H). apply rbind_Ok in H as (r & _ & H).
      destruct (rewrite_raw _) as [e2 r2]. apply rbind_Ok in H as ([] & _ & H).
      destruct (hashEntry None e2) as [e3 r3]. apply rbind_Ok in H as ([] & _ & H).
      destruct (rewrite_raw e3) as [e4 r4]. apply rbind_Ok in H as ([] & _ & H). injection H as <- <- <-. by destruct (rm_Opaque r || _).
    - apply rbind_Ok in H as (? & _ & H). apply rbind_Ok in H as (v & _ & H). by injection H as <- <- <-. }
  destruct (has_entry s' _); [by injection Hl as <-|]. apply rbind_Ok in Hl as ([] & _ & Hl). apply rbind_Ok in Hl as (rule & _ & Hl).
  apply rbind_Ok in Hl as ([] & _ & Hl). by injection Hl as <-.
Qed.

Lemma read_lines_read fuel : forall file line st st' t, read_lines fuel file line st = Ok (Some st', t) ->
  (forall st0, st = Some st0 -> s_read (rd_session st0) = None) -> s_read (rd_session st') = None.
Proof.
  induction fuel as [|fuel IH]; [done|]. intros file line st st' t. rewrite read_lines_turn. unfold turn.
  destruct (ReadBytes file) as [[data rest] atEOF]. set (d := TrimRight data). cbv zeta.
  assert (forall st1, (if atEOF then Ok (st1, None) else read_lines fuel rest (S line) st1) = Ok (Some st', t) ->
    (forall st0, st1 = Some st0 -> s_read (rd_session st0) = None) -> s_read (rd_session st') = None) as Hnext.
  { intros st1. destruct atEOF; [|by apply IH]. intros [= -> _] Hst. by apply Hst. }
  destruct (decide (d = "")); [by apply Hnext|]. intros H Hst. apply rbind_Ok in H as ([] & _ & H).
  destruct st as [st|].
  - destruct (decodeLine d) as [[e c]|err].
    + apply rbind_Ok in H as (st1 & Hl & H). eapply Hnext; [exact H|]. intros st0 [= <-]. rewrite (link_read _ _ _ _ _ Hl). by apply Hst.
    + destruct (negb atEOF && _); [done|]. destruct (json_valid d); [done|]. injection H as <- _. by apply Hst.
  - apply rbind_Ok in H as (st1 & Hl & H). eapply Hnext; [exact H|]. intros st0 [= <-]. unfold read_header in Hl.
    apply rbind_Ok in Hl as (h & _ & Hl). apply rbind_Ok in Hl as ([] & _ & Hl). apply rbind_Ok in Hl as ([? minor] & _ & Hl).
    apply rbind_Ok in Hl as (h' & _ & Hl). by injection Hl as <-.
Qed.

Lemma Read_read file s t : Read file = Ok (s, t) -> s_read s = None.
Proof.
  unfold Read. intros ([st t'] & Hr & H)%rbind_Ok. destruct st as [st|]; [|done]. apply read_lines_read in Hr; [|done].
  apply rbind_Ok in H as (s1 & Hs1 & H). injection H as <- _. cbn. unfold read_prefix in Hs1.
  destruct (decide _); [by injection Hs1 as <-|]. apply rbind_Ok in Hs1 as ([] & _ & Hs1). by injection Hs1 as <-.
Qed.

Lemma memoryStart_read live gen from sess n resumed kind : memoryStart live gen from = Ok (sess, n, resumed, kind) -> s_read sess = None.
Proof.
  unfold memoryStart. intros (buf & _ & H)%rbind_Ok. set (lines := SplitLF _) in H.
  destruct (if decide (from = "") then _ else _) as [[take_ rs] k]. apply rbind_Ok in H as ([s1 t] & Hr & H). injection H as <- _ _ _. by eapply Read_read.
Qed.

(** The session is not in the store at the look, or is another of its id. *)
Definition gone (id : string) (gen : nat) (lk : look) : Prop :=
  ~ (is_Some (ms_sessions (lk_store lk) !! id) /\ ms_gens (lk_store lk) !! id = Some gen).

(** Every entry there is at the last look is told of: one by one, or with the
    session read again, where its format is another. *)
Definition caught_up (L : list string) (gen : nat) (looks : list look) (n n' : nat) (out : list (result Change)) : Prop :=
  match last looks with
  | None => n' = n /\ out = []
  | Some lk =>
      length (s_entries (lk_entries lk)) <= n' \/
      exists o c, out = o ++ [Ok c] /\ begun L gen n' Reset c /\ n' = length (s_entries (lk_again lk))
  end.

(** More than a follow of the looks asks of its caller. *)
Definition budget (L : list string) (looks : list look) : nat := length looks * (3 * length L + 1).

(** How a follow at the place ends: a patient caller is told of everything, and an
    error is of a session gone or an entry refused. *)
Definition follows final now id gen (looks : list look) (sc : script) (n : nat) (out : list (result Change)) : Prop :=
  let L := ids (s_entries final) in
  halted L gen (fun n' out' => patient (budget L looks) sc -> caught_up L gen looks n n' out')
    (fun n' err => (err = ErrNoSession /\ Exists (gone id gen) looks) \/
       exists lk e, lk ∈ looks /\ s_entries (lk_entries lk) !! n' = Some e /\ refused L now n' e err) n out.

Lemma caught_up_cons L gen lk looks n n1 n' out1 out :
  (looks = [] -> n' = n1 /\ out = [] -> length (s_entries (lk_entries lk)) <= n' \/
     exists o c, out1 = o ++ [Ok c] /\ begun L gen n' Reset c /\ n' = length (s_entries (lk_again lk))) ->
  caught_up L gen looks n1 n' out -> caught_up L gen (lk :: looks) n n' (out1 ++ out).
Proof.
  unfold caught_up. intros Hlk. destruct looks as [|l looks].
  - intros Hn. destruct (Hlk eq_refl Hn) as [|(o & c & -> & H)]; [by left|right]. destruct Hn as [_ ->]. exists o, c. by rewrite app_nil_r.
  - change (last (lk :: l :: looks)) with (last (l :: looks)). destruct (last (l :: looks)) eqn:E; [|by apply last_None in E].
    intros [|(o & c & -> & H)]; [by left|right]. exists (out1 ++ o), c. by rewrite app_assoc.
Qed.

Lemma follow_loop_told final now id gen looks : kept final -> Forall (sees final) looks -> forall sess n poll sc sc' out r,
  held (ids (s_entries final)) n sess -> follow_loop now id gen looks sess n poll sc = (sc', out, r) ->
  follows final now id gen looks sc n out.
Proof.
  intros Hfin. set (L := ids (s_entries final)).
  assert (NoDup L) as Hnd by (apply tree_NoDup, (wf_tree _ (kp_wf _ Hfin))).
  assert ("" ∉ L) as Hne.
  { intros (e & He & Hin)%list_elem_of_fmap. apply (so_hashed _ (kept_sound _ Hfin)) in Hin. by rewrite -He in Hin. }
  induction 1 as [|lk looks (Hlk & Hkeep & Hag) Hlooks IH]; intros sess n poll sc sc' out r Hh H.
  { injection H as _ <- _. by eapply told_halted; [constructor|]. }
  assert (length (s_entries (lk_entries lk)) <= length L) as HlenL.
  { destruct Hlk as [_ [t Ht]]. unfold L. rewrite Ht length_app. unfold ids. rewrite length_fmap. lia. }
  assert (forall m err, (err = ErrNoSession /\ Exists (gone id gen) looks) \/
      (exists lk0 e, lk0 ∈ looks /\ s_entries (lk_entries lk0) !! m = Some e /\ refused L now m e err) ->
    (err = ErrNoSession /\ Exists (gone id gen) (lk :: looks)) \/
      (exists lk0 e, lk0 ∈ lk :: looks /\ s_entries (lk_entries lk0) !! m = Some e /\ refused L now m e err)) as Hfault.
  { intros m err [[-> HE]|(lk0 & e & Hin & HE)]; [left; split; [done|by apply Exists_cons_tl]|right]. exists lk0, e. split; [by apply elem_of_cons; right|done]. }
  cbn [follow_loop] in H. destruct (decide _) as [|Hgone]; [|injection H as _ <- _; apply halted_err; left; split; [done|by apply Exists_cons_hd]].
  destruct (decide _) as [Hfmt|_].
  - destruct Hag as [[es Hln] Hpre]. destruct (memoryStart_whole (lk_again lk) es gen "" Hln (or_introl eq_refl)) as (s1 & Hs1 & Hreads).
    pose proof (memoryStart_read _ _ _ _ _ _ _ Hs1) as Hread. rewrite Hs1 in H.
    assert (held L (length (s_entries (lk_again lk))) s1) as Hh1 by (eapply reads_held; [split; [by eexists|]|..]; done).
    set (m := length (s_entries (lk_again lk))) in *. apply fbind_run in H as (sc1 & o1 & r1 & Hy & H). apply yield_run in Hy as (-> & Hys & Hyk).
    assert (begun L gen m Reset (whole Reset s1 (memoryCursor gen m))) as Hb by done.
    assert (told L gen n [Ok (whole Reset s1 (memoryCursor gen m))] m) as Ht by (by eapply told_reset; [|constructor]).
    destruct r1 as [[]|].
    + destruct H as (o2 & H & ->). apply IH in H; [|done].
      refine (halted_app _ _ _ _ _ _ _ _ _ _ Ht H _ Hfault). intros n' o Hs Hp. eapply caught_up_cons; [|apply Hs].
      * intros _ [-> _]. right. by exists [], (whole Reset s1 (memoryCursor gen m)).
      * apply Hyk. eapply patient_le; [done|]. unfold budget. cbn [length]. lia.
    + destruct H as [-> _]. eapply told_halted; [done|]. intros Hp. destruct (Hys eq_refl). eapply patient_le; [done|]. unfold budget. cbn [length]. lia.
  - apply fbind_run in H as (sc1 & out1 & r1 & He & H). eapply (follow_entries_told L) in He; [|by apply Forall_drop|done..|].
    2: { intros i e Hi. rewrite lookup_drop in Hi. destruct Hlk as [_ [t Ht]]. unfold L. rewrite Ht. apply lookup_app_l_Some.
         unfold ids. by rewrite list_lookup_fmap Hi. }
    rewrite length_drop in He. set (len := length (s_entries (lk_entries lk))) in *.
    destruct r1 as [[[sess1 n1] poll1]|].
    + destruct He as (Ht & Hh1 & -> & Hpk). destruct H as (out2 & H & ->).
      destruct (Poll_Next poll1) as [d poll2]. apply fbind_run in H as (sc2 & o3 & r3 & Hw & H).
      apply wait_run in Hw as (-> & w & -> & Hws & Hwk). destruct H as (o4 & H & ->). cbn [app].
      assert (forall k, patient (budget L (lk :: looks)) sc -> k <= S (budget L looks) -> patient k sc1) as Hk.
      { intros k Hp Hle. apply Hpk. eapply patient_le; [done|]. unfold budget in *. cbn [length]. lia. }
      destruct w.
      * apply IH in H; [|done]. refine (halted_app _ _ _ _ _ _ _ _ _ _ Ht H _ Hfault). intros n' o Hs Hp.
        eapply caught_up_cons; [|apply Hs; apply Hwk; by apply Hk].
        intros _ [-> _]. left. lia.
      * injection H as _ <- _. rewrite app_nil_r. eapply told_halted; [done|]. intros Hp. destruct (Hws eq_refl). apply Hk; [done|lia].
    + destruct H as [-> _]. rewrite -(app_nil_l out1). refine (halted_app _ _ _ _ _ _ _ _ _ _ (told_nothing _ _ _) He _ _).
      * intros n' o Hs Hp. destruct Hs. eapply patient_le; [done|]. unfold budget. cbn [length]. fold L. nia.
      * intros m err (i & e & -> & Hi & Hr). right. exists lk, e. split; [by apply elem_of_cons; left|]. split; [by rewrite lookup_drop in Hi|done].
Qed.

(** C12: a follower of a session in memory is told of every entry of its log in order,
    each once, whatever the store and the caller do meanwhile, where the lines of
    the session read back at each moment it is read ([moment], [lined]) and keep
    their ids ([keeps_id]).  The follow begins with the session read to a place, or
    takes up the cursor's place without a change, and from there each change is the
    next entry appended, a leaf moved elsewhere, or a fresh beginning ([told]), with a
    sound session of the log to there, its leaf a reader's where no leaf label names
    a later entry ([held]).  A caller that goes on taking changes, under a context
    that does not end, is told of every entry there is at the last look ([follows],
    [caught_up]); the one error a follow can end with is that the session is gone,
    or that the encoders or [Extend] refuse the entry at the place reached. *)
Theorem Follow_in_order final now id from m live looks sc : kept final -> moment final live -> Forall (sees final) looks ->
  let gen := default 0 (ms_gens m !! id) in
  let L := ids (s_entries final) in
  (forall n, cursor_place gen (S (length (s_entries live))) from = Some n -> reaches live n) ->
  let out := Follow now id from m live looks sc in
  (ms_sessions m !! id = None /\ out = [Err ErrNoSession]) \/
  (exists n, from <> "" /\ cursor_place gen (S (length (s_entries live))) from = Some n /\ follows final now id gen looks sc n out) \/
  (exists c out' sc', out = Ok c :: out' /\ begun L gen (length (s_entries live)) (if decide (from = "") then Snapshot else Reset) c /\
     (forall k, patient (S k) sc -> patient k sc') /\
     (follows final now id gen looks sc' (length (s_entries live)) out' \/ out' = [] /\ ~ patient 1 sc)).
Proof.
  intros Hfin Hlive Hlooks gen L Hreach out. unfold out, Follow. destruct (follow _ _ _ _ _ _ sc) as [[sc' o] r] eqn:H. cbn [fst snd].
  unfold follow in H. destruct (ms_sessions m !! id) as [x|]; [|injection H as _ <- _; by left]. fold gen in H. right.
  pose proof Hlive as [[es Hln] _].
  assert (from = "" \/ cursor_place gen (S (length (s_entries live))) from = None \/
    exists n, from <> "" /\ cursor_place gen (S (length (s_entries live))) from = Some n) as [Hf|[Hf|(n & Hf & Hp)]].
  { destruct (decide (from = "")); [by left|]. destruct (cursor_place _ _ _) as [p|]; [right; right; by exists p|auto]. }
  1, 2: right; destruct (memoryStart_whole live es gen from Hln) as (sess & Hs & Hreads); [by auto|];
    pose proof (memoryStart_read _ _ _ _ _ _ _ Hs) as Hread; rewrite Hs in H;
    apply fbind_run in H as (sc1 & out1 & r1 & Hy & H); apply yield_run in Hy as (-> & Hys & Hyk);
    assert (held L (length (s_entries live)) sess) as Hh by (by eapply reads_held);
    destruct r1 as [[]|]; [destruct H as (o2 & H & ->); apply follow_loop_told with (final := final) in H; [|done..]|destruct H as [-> _]];
    (do 3 eexists; split; [reflexivity|split; [by split|split; [exact Hyk|]]]); [by left|right; by split; [|apply Hys]].
  left. destruct (memoryStart_part live es gen from n Hln Hf Hp (Hreach n Hp)) as (Hn & sess & Hs & Hreads).
  pose proof (memoryStart_read _ _ _ _ _ _ _ Hs) as Hread. rewrite Hs in H. apply fbind_run in H as (sc1 & out1 & r1 & Hy & H).
  injection Hy as <- <- <-. destruct H as (o2 & H & ->). exists n. split; [done|]. split; [done|]. cbn [app].
  eapply follow_loop_told; [done|exact Hlooks| |exact H]. by eapply reads_held.
Qed.

End FollowProps.
