(* ===== verification/Instances.v ===== *)
(** * The parameters, instantiated

    Small concrete functions for what the library takes from outside this
    repository, so that the examples evaluate the definitions on inputs: items
    that are their case, a text and a list of parts; a line encoder that writes
    an entry as a flat compact object, with a decoder that reads one back; a
    canonicaliser that sorts an object's members; and a digest of the right
    form.  None of them is code of this repository; the theorems hold of any. *)
From stdpp Require Import pretty.
From S2P Require Import Prelude Entry Header Tree Calls Digest Runs Settings Context Hash Session.
From S2P Require Import SessionProps.
Open Scope session_scope.

(** ** Items and their content *)

Record ToyItem := mkToyItem {
  ti_case : ItemCase;
  ti_text : string;
  ti_parts : list (bool * string)
}.

(** A JSON string, of a text with nothing in it to escape. *)
Definition jstr (s : string) : string := Quote s.

Definition toy_case_text (c : ItemCase) : string :=
  match c with
  | FunctionCall id args => "call " ++ id ++ " " ++ args
  | FunctionCallOutput id => "output " ++ id
  | ItemReference => "reference"
  | ReasoningItem => "reasoning"
  | Message => "message"
  | OtherItem => "other"
  end%string.

Definition toy_item_text (i : ToyItem) : string :=
  (toy_case_text (ti_case i) ++ " " ++ ti_text i ++ String.concat "|" (snd <$> ti_parts i))%string.

#[export] Instance toy_OR : OpenResponses := {|
  Item := ToyItem;
  itemCase := ti_case;
  marshalItem i := Some (toy_item_text i);
  Tool := string;
  toolCase t := FunctionTool t;
  ReasoningConfig := unit;
  ReasoningConfig_zero := tt;
  TextConfig := unit;
  TextConfig_zero := tt;
  Usage := unit;
  IncompleteDetails := unit;
  ErrorPayload := unit
|}.

#[export] Instance toy_IC : ItemContent.
Proof.
  refine {|
    Content := bool * string;
    isInputImage := fst;
    InputText t := (false, t);
    contentOf := ti_parts;
    with_parts it ps := mkToyItem (ti_case it) (ti_text it) ps;
    with_text it t := mkToyItem (ti_case it) t (ti_parts it)
  |}; done.
Defined.

#[export] Instance toy_ND : NameDecoding := {| nameMember s := s |}.
#[export] Instance toy_TE : TriggerEncoding := {| canonicalTrigger t := Some (tr_Kind t ++ "/" ++ tr_Ref t)%string |}.

(** ** A digest of the right form *)

Definition hex_digit (n : N) : ascii :=
  ascii_of_N (if decide (n < 10)%N then 48 + n else 87 + n)%N.

Fixpoint hex_of (digits : nat) (n : N) : string :=
  match digits with
  | O => ""
  | S d => String (hex_digit (N.land n 15)) (hex_of d (N.shiftr n 4))
  end.

(** A polynomial in the bytes, to 24 bits. *)
Fixpoint toy_digest (acc : N) (s : string) : N :=
  match s with
  | EmptyString => acc
  | String c s => toy_digest (N.land (N.shiftl acc 5 + acc + N_of_ascii c) 16777215) s
  end.

Lemma hex_of_form d n : String.length (hex_of d n) = d /\ str_forall hex_char (hex_of d n) = true.
Proof.
  revert n. induction d as [|d IH]; intros n; [done|]. cbn [hex_of String.length str_forall].
  destruct (IH (N.shiftr n 4)) as [-> ->]. split; [done|]. rewrite andb_true_r.
  change 15%N with (N.ones 4). rewrite N.land_ones. change (2 ^ 4)%N with 16%N.
  pose proof (N.mod_upper_bound n 16). remember (n mod 16)%N as m eqn:Hm. clear Hm.
  assert (m = 0 \/ m = 1 \/ m = 2 \/ m = 3 \/ m = 4 \/ m = 5 \/ m = 6 \/ m = 7 \/ m = 8 \/ m = 9 \/ m = 10
          \/ m = 11 \/ m = 12 \/ m = 13 \/ m = 14 \/ m = 15)%N as Hc by lia.
  by repeat destruct Hc as [->|Hc]; [..|subst].
Qed.

#[export] Instance toy_SH : SHA256 := {|
  sha256hex s := hex_of 64 (toy_digest 7 s);
  sha256hex_form s := hex_of_form 64 (toy_digest 7 s)
|}.

(** ** JSON: flat compact objects *)

(** Every object whose keys need no escape is decoded as [canonicalMembers]
    takes it apart. *)
Definition toy_slicing : JSONTools := {|
  ijson_Check _ := Ok tt;
  UnmarshalMembers _ := None;
  UnmarshalList _ := None;
  UnmarshalString _ := None;
  MarshalMembers _ := Err ErrOther
|}.

Definition toy_members (line : string) : option (list canonicalMember) := @canonicalMembers toy_slicing line.

Definition toy_object (ms : list (string * string)) : string :=
  ("{" ++ String.concat "," ((fun kv => jstr kv.1 ++ ":" ++ kv.2) <$> ms) ++ "}")%string.

Fixpoint insert_member (x : string * string) (l : list (string * string)) : list (string * string) :=
  match l with
  | [] => [x]
  | y :: l' => if str_ltb x.1 y.1 then x :: y :: l' else y :: insert_member x l'
  end.
Definition sort_members (l : list (string * string)) : list (string * string) :=
  foldl (fun acc x => insert_member x acc) [] l.

#[export] Instance toy_CA : Canonicaliser := {|
  Transform d := match toy_members d with
                 | Some ms => Some (toy_object (sort_members ((fun m => (cm_key m, cm_val m)) <$> ms)))
                 | None => Some d
                 end
|}.

#[export] Instance toy_JT : JSONTools := {|
  ijson_Check _ := Ok tt;
  UnmarshalMembers line := (fun ms => list_to_map ((fun m => (cm_key m, cm_val m)) <$> ms)) <$> toy_members line;
  UnmarshalList p := if decide (p = "[]") then Some [] else Some [p];
  UnmarshalString s := Some (substring 1 (String.length s - 2) s);
  MarshalMembers m := Ok (toy_object (map_to_list m))
|}.

(** ** Lines *)

Definition toy_body (e : Entry) : list (string * string) :=
  match e with
  | EItem v => [("item", jstr (match ie_Item v with Some i => toy_item_text i | None => "" end));
                ("queued_from", jstr (ie_QueuedFrom v)); ("response", jstr (ie_ResponseID v))]
  | EConfig c => [("instructions", jstr (default "" (ce_Instructions c))); ("model", jstr (ce_Model c))]
  | ECompaction c => [("first_kept", jstr (co_FirstKept c))]
  | ELabel l => [("label", jstr (default "" (le_Label l))); ("target", jstr (le_Target l))]
  | ERun r => [("phase", jstr (run_Phase r)); ("reason", jstr (run_Reason r)); ("run_id", jstr (run_RunID r));
               ("source", jstr (run_Source r))]
  | EDispatch d => [("call_id", jstr (di_CallID d)); ("target", jstr (di_Target d))]
  | EDecision d => [("call_id", jstr (dc_CallID d)); ("target", jstr (dc_Target d)); ("verdict", jstr (dc_Verdict d))]
  | EQueued q => [("item", jstr (match qu_Item q with Some i => toy_item_text i | None => "" end));
                  ("mode", jstr (qu_Mode q))]
  | EInfo i => [("name", jstr (inf_Name i))]
  | _ => []
  end.

Definition toy_line (e : Entry) : string :=
  let b := Base e in
  toy_object ([("id", jstr (ID b)); ("parent", if decide (Parent b = "") then "null" else jstr (Parent b));
               ("ts", pretty (t_nanos (Timestamp b))); ("type", jstr (EntryType e))] ++ toy_body e).

#[export] Instance toy_EC : EntryCodec := {|
  MarshalEntry e := Ok (toy_line e);
  normaliseEntry e := (e, Ok None);
  rewriteEnvelope u := (un_Type u, Ok (un_Raw u));
  splitMembers line := (fun ms => list_to_map ((fun m => (cm_key m, cm_val m)) <$> ms)) <$> toy_members line
|}.

#[export] Instance toy_ECL : EntryCodecLaws.
Proof. split. by intros e _. Defined.
