(* ===== verification/Examples.v ===== *)
(** * The properties on concrete sessions

    Sessions grown by the library's operations over the parameters of
    [Instances.v], and each property that has hypotheses applied where they
    hold. *)
From S2P Require Import Prelude Entry Header Tree Leaf TreeWf LeafLemmas LeafRefine Calls CallRules CallSound.
From S2P Require Import Runs RunsProps Verify Omit OmitProps Digest Settings SettingsProps Context.
From S2P Require Import ContextProps Compaction Hash HashProps Session SessionProps WrittenSound Forks.
From S2P Require Import Instances.
Open Scope session_scope.

(** ** Sessions *)

Definition now : Time := mkTime 1000 0.
Definition header (id : string) : Header :=
  mkHeader Format id now "openresponses/1" None [] "" "" "" "" "" false None ∅.

Definition message (t : string) : ToyItem := mkToyItem Message t [].
Definition under (parent : string) : EntryBase :=
  mkEntryBase "" parent [] (mkTime 0 0) "" [] [] false None false ∅ "" "".
Definition item_under (parent : string) (i : ToyItem) : Entry :=
  EItem (mkItemEntry (under parent) (Some i) "" None None "" false "" None None None None).
Definition item : ToyItem -> Entry := item_under "".
Definition output_item (i : ToyItem) (response : string) : Entry :=
  EItem (mkItemEntry zero_base (Some i) response None None "" false "" None None None None).
Definition response (id : string) : ResponseEntry :=
  mkResponseEntry zero_base id "m" "completed" None None None "" 0 1.
Definition call : ToyItem := mkToyItem (FunctionCall "c1" "{}") "" [].
Definition run_start (id : string) : Entry :=
  ERun (mkRunEntry zero_base id RunStart SourceInput "" "" None []).
Definition config (model : string) : Entry :=
  EConfig (mkConfigEntry zero_base model None None None [] None [] [] ∅ false None).

(** Appending at the leaf. *)
Definition after s e : Session := (Append s now e).1.1.

Definition empty_session : Session := New (header "s1").

(** A run that takes in a message and makes one call, still open. *)
Definition run_entries : list Entry :=
  [config "m"; run_start "r1"; item (message "hello"); output_item call "resp"; EResponse (response "resp")].
Definition run_session : Session := foldl after empty_session run_entries.

(** The same with the run ended for a reason it did not have. *)
Definition ended_session : Session :=
  after run_session (ERun (NewRunEnd "r1" ReasonDone "" [])).

Definition nth_id s (n : nat) : string := default "" (eid <$> s_entries s !! n).
Definition config_id : string := Eval vm_compute in nth_id run_session 0.
Definition message_id : string := Eval vm_compute in nth_id run_session 2.

(** The head moved back to the first message. *)
Definition ok_or {A} (d : A) (r : result A) : A := match r with Ok a => a | Err _ => d end.
Definition head_back : Session * Entry :=
  ok_or (empty_session, config "") (commitHead run_session now (s_leaf run_session) message_id).

(** A branch appended away from the leaf, which stays. *)
Definition branched : Session :=
  after run_session (item_under config_id (message "aside")).

Definition isSome {A} (o : option A) : bool := if o then true else false.

Lemma after_written s e : written s -> written (after s e).
Proof.
  intros Hs. unfold after. destruct (Append s now e) as [[s' e'] r] eqn:H. by eapply w_Append.
Qed.

Lemma foldl_written es s : written s -> written (foldl after s es).
Proof. revert s. induction es as [|e es IH]; intros s Hs; [done|]. by apply IH, after_written. Qed.

Lemma run_session_written : written run_session.
Proof. apply foldl_written, w_New. Qed.

Lemma ended_session_written : written ended_session.
Proof. apply after_written, run_session_written. Qed.

Lemma written_sound s : written s -> sound s.
Proof. intros Hs. by apply cl_sound, written_clean. Qed.

Lemma written_wf s : written s -> wf s.
Proof. intros Hs. by apply so_wf, written_sound. Qed.

(** A session that kept no leaf state. *)
Lemma no_read s : s_read s = None -> read_inv s.
Proof. intros H st Hst. by rewrite H in Hst. Qed.

(** The session has every entry it was given, at the leaf. *)
Example run_session_grown : length (s_entries run_session) = 5 /\ s_leaf run_session = nth_id run_session 4.
Proof. vm_compute. by split. Qed.

(** ** What a written session's records say *)

(** The end of the run does not have the reason its segment has, and that is
    what the records report. *)
Lemma written_verifies_witness :
  VerifyRecords ended_session (s_leaf ended_session) = Err ErrReasonMismatch /\
  (ErrReasonMismatch ∈ [ErrSpawnLink; ErrCalleeLink; ErrBadFromLink; ErrDrainMismatch; ErrReasonMismatch;
                        ErrSourceMismatch; ErrRecordMissing] \/
   ErrReasonMismatch = ErrBadCopiedFrom /\ exists v cf, EItem v ∈ path ended_session (s_leaf ended_session) /\
     ie_CopiedFrom v = Some cf /\ cf_Session cf = h_ID (s_header ended_session) /\
     eid (EItem v) ∈ s_prefix ended_session).
Proof.
  assert (VerifyRecords ended_session (s_leaf ended_session) = Err ErrReasonMismatch) as H by (vm_compute; reflexivity).
  assert (length (path ended_session (s_leaf ended_session)) = 6) as Hlen by (vm_compute; reflexivity).
  split; [exact H|]. apply (written_verifies ended_session (s_leaf ended_session) _ ended_session_written); [|exact H].
  intros E. rewrite E in Hlen. discriminate Hlen.
Defined.

(** A fork made under the ID of the session an item was copied from. *)
Definition copying_session : Session :=
  after run_session (EItem (mkItemEntry zero_base (Some (message "theirs")) "" None None "" false ""
    (Some (mkCopiedFrom "child" "e1")) None None None)).
Definition fork_as_child : result Session :=
  Fork "openresponses/1" "s2" now copying_session (s_leaf copying_session) (header "child").

Example Fork_copied_from_itself :
  is_ok fork_as_child = true /\
  VerifyRecords (ok_or empty_session fork_as_child) (s_leaf copying_session) = Err ErrBadCopiedFrom.
Proof. vm_compute. by split. Qed.

Definition first_entry s : Entry := default (config "") (head (s_entries s)).

Lemma written_tree_witness :
  exists e, e ∈ s_entries run_session /\ eid e ∈ Children run_session "" /\ built e /\
  Children run_session "" = [eid e].
Proof.
  assert (first_entry run_session ∈ s_entries run_session) as Hin.
  { apply list_elem_of_lookup. exists 0. vm_compute. reflexivity. }
  assert (eparent (first_entry run_session) = "") as Hp by (vm_compute; reflexivity).
  assert (Children run_session "" = [eid (first_entry run_session)]) as Hc by (vm_compute; reflexivity).
  revert Hin Hp Hc. generalize (first_entry run_session). intros e Hin Hp Hc. exists e.
  destruct (written_tree run_session e run_session_written Hin) as (Hv & _ & _ & _ & Hch & _).
  rewrite Hp in Hch. exact (conj Hin (conj Hch (conj Hv Hc))).
Defined.

(** A fork at the message. *)
Lemma Fork_spec_witness :
  exists s, Fork "openresponses/1" "s2" now run_session message_id (header "s2") = Ok s /\
  length (s_entries s) = 3 /\ s_leaf s = message_id /\ checkParentRule s message_id = Ok tt.
Proof.
  assert (is_ok (Fork "openresponses/1" "s2" now run_session message_id (header "s2")) = true) as Hok
    by (vm_compute; reflexivity).
  assert (length (path run_session message_id) = 3) as Hlen by (vm_compute; reflexivity).
  destruct (Fork _ _ _ _ _ _) as [s|] eqn:H; [|discriminate Hok]. exists s.
  destruct (Fork_spec "openresponses/1" "s2" now run_session message_id (header "s2") s run_session_written H)
    as (He & _ & Hl & _ & Hp).
  rewrite He. exact (conj eq_refl (conj Hlen (conj Hl (proj2 (Hp message_id) eq_refl)))).
Defined.


(** ** Appends *)

Lemma run_session_sound : sound run_session.
Proof. apply written_sound, run_session_written. Qed.

Lemma run_session_wf : wf run_session.
Proof. apply written_wf, run_session_written. Qed.

Definition outcome_of (r : result Result) : option Outcome :=
  match r with Ok r => Some (res_Outcome r) | Err _ => None end.

(** A message at the leaf continues it. *)
Lemma Commit_spec_witness :
  exists s' e' id, Commit run_session now (item (message "more")) = (s', e', Ok (mkResult id Continued)) /\
  s_entries s' = s_entries run_session ++ [e'] /\ sound s' /\ s_leaf s' = id.
Proof.
  pose proof (Commit_spec run_session now (item (message "more")) run_session_sound) as H.
  assert (outcome_of (Commit run_session now (item (message "more"))).2 = Some Continued) as Ho
    by (vm_compute; reflexivity).
  destruct (Commit run_session now (item (message "more"))) as [[s' e'] [[id o]|err]]; simpl in Ho; [|discriminate Ho].
  injection Ho as ->. destruct H as (_ & _ & _ & _ & _ & He & _ & Hs & Hl & _).
  exact (ex_intro _ s' (ex_intro _ e' (ex_intro _ id (conj eq_refl (conj He (conj Hs Hl)))))).
Defined.

(** No leaf label of the entries names the id, as a check. *)
Definition unnamedb (es : list Entry) (id : string) : bool :=
  forallb (fun e => match e with ELabel l => negb (is_leaf_label l) || bool_decide (le_Target l <> id) | _ => true end) es.

Lemma unnamedb_unnamed es id : unnamedb es id = true -> unnamed es id.
Proof.
  unfold unnamedb. rewrite forallb_forall. intros H l Hin Hl. apply list_elem_of_In, H in Hin. cbn in Hin. rewrite Hl in Hin.
  by apply bool_decide_eq_true in Hin.
Qed.

(** Following a file: one more line of it. *)
Lemma Extend_is_Read_witness :
  exists s' e' r, Extend run_session now (item_under config_id (message "aside")) = (s', e', Ok r) /\
  s_leaf s' = eid e' /\ s_leaf s' = resolveLeaf s'.
Proof.
  assert (is_ok (Extend run_session now (item_under config_id (message "aside"))).2 = true /\
          outcome_of (Extend run_session now (item_under config_id (message "aside"))).2 = Some Branched /\
          unnamedb (s_entries run_session) (eid (Extend run_session now (item_under config_id (message "aside"))).1.2) = true /\
          s_leaf (Extend run_session now (item_under config_id (message "aside"))).1.1
            = eid (Extend run_session now (item_under config_id (message "aside"))).1.2)
    as (Hok & Ho & Hset & Hl) by (vm_compute; repeat split).
  destruct (Extend run_session now (item_under config_id (message "aside"))) as [[s' e'] r] eqn:H.
  cbn [fst snd] in Hok, Ho, Hset, Hl. destruct r as [r|]; [|discriminate Hok].
  destruct (Extend_is_Read run_session now (item_under config_id (message "aside")) s' e' r) as (_ & Hr & _).
  - exact run_session_sound.
  - apply no_read. vm_compute. reflexivity.
  - exact H.
  - intros E. unfold outcome_of in Ho. rewrite E in Ho. discriminate Ho.
  - apply unnamedb_unnamed. exact Hset.
  - exact (ex_intro _ s' (ex_intro _ e' (ex_intro _ r (conj eq_refl (conj Hl Hr))))).
Defined.

(** ** The leaf *)

Lemma resolveLeaf_spec_witness :
  exists e, last (s_entries run_session) = Some e /\ resolveLeaf run_session = notOnLabel run_session (eid e) /\
  resolveLeaf run_session = s_leaf run_session.
Proof.
  assert (durableLeafAt run_session = ("", (-1)%Z)) as Hd by (vm_compute; reflexivity).
  assert (resolveLeaf run_session = s_leaf run_session) as Hl by (vm_compute; reflexivity).
  assert (isSome (last (s_entries run_session)) = true) as Hs by (vm_compute; reflexivity).
  pose proof (resolveLeaf_spec run_session "" (-1) run_session_wf Hd) as H.
  destruct (last (s_entries run_session)) as [e|]; [|discriminate Hs].
  exact (ex_intro _ e (conj eq_refl (conj H Hl))).
Defined.

Lemma run_session_entries : s_entries run_session <> [].
Proof.
  assert (length (s_entries run_session) = 5) as Hlen by (vm_compute; reflexivity).
  intros E. rewrite E in Hlen. discriminate Hlen.
Qed.

Lemma run_session_no_base : hasBase run_session = false.
Proof. vm_compute. reflexivity. Qed.

Lemma resolveLeaf_mayRest_witness : mayRestOn run_session (resolveLeaf run_session) = true.
Proof.
  apply (resolveLeaf_mayRest run_session run_session_wf run_session_entries).
  intros H. rewrite run_session_no_base in H. discriminate H.
Defined.

Lemma run_session_read : read_inv run_session.
Proof. apply no_read. vm_compute. reflexivity. Qed.

Lemma run_session_rests : mayRestOn run_session (s_leaf run_session) = true.
Proof. vm_compute. reflexivity. Qed.

(** A branch away from the head, which the lines alone would read as the head. *)
Lemma branched_written : written branched.
Proof. apply after_written, run_session_written. Qed.

Lemma LeafMarkNeeded_exact_witness :
  exists label, (LeafMarkNeeded branched).2 = Some label /\ resolveLeaf branched <> s_leaf branched.
Proof.
  assert (s_entries branched <> []) as Hne.
  { assert (length (s_entries branched) = 6) as Hlen by (vm_compute; reflexivity).
    intros E. rewrite E in Hlen. discriminate Hlen. }
  assert (mayRestOn branched (s_leaf branched) = true) as Hr by (vm_compute; reflexivity).
  assert (read_inv branched) as Hi by (apply no_read; vm_compute; reflexivity).
  pose proof (LeafMarkNeeded_exact branched (written_wf _ branched_written) Hi Hne Hr) as H.
  assert (isSome (LeafMarkNeeded branched).2 = true) as Hsome by (vm_compute; reflexivity).
  destruct (LeafMarkNeeded branched).2 as [label|]; [|discriminate Hsome].
  exact (ex_intro _ label (conj eq_refl (proj1 H))).
Defined.

(** The label that goes ahead of that branch. *)
Definition aside : Entry := item_under config_id (message "aside").
Definition prepared : Entry := (Prepare run_session now aside).1.

(** What [LeafMarkBefore_crash_safe] asks of the entry, as a check. *)
Definition off_head s e : bool :=
  bool_decide (s_leaf s <> "") && bool_decide (eid e <> "") && bool_decide (eid e <> rootMark)
  && bool_decide (eid e ∉ ids (s_entries s)) && bool_decide (eparent e ∈ ids (s_entries s))
  && match e with ELabel _ => false | _ => true end
  && bool_decide (s_leaf s ∉ ids (path s (eparent e))) && unnamedb (s_entries s) (eid e).

Lemma off_head_spec s e :
  off_head s e = true ->
  s_leaf s <> "" /\ goodID (eid e) /\ eid e ∉ ids (s_entries s) /\
  (eparent e = "" \/ eparent e ∈ ids (s_entries s)) /\ entry_is_leaf_label e = false /\
  (forall l, e = ELabel l -> le_Label l <> None) /\ ~ on_path s (s_leaf s) (eparent e) /\
  unnamed (s_entries s) (eid e).
Proof.
  unfold off_head. rewrite !andb_true_iff !bool_decide_eq_true.
  intros (((((((Hl & Hi) & Hm) & Hn) & Hp) & Hk) & Ho) & Hs). split_and!; try done.
  - by right.
  - by destruct e.
  - intros l E. rewrite E in Hk. discriminate Hk.
  - unfold on_path. naive_solver.
  - by apply unnamedb_unnamed.
Qed.

(** A leaf label that names the entry before it is there: [Extend] leaves the
    leaf under the mark in force, where [Read] would place it on the entry. *)
Definition named_ahead : Session :=
  foldl after run_session [ELabel (NewLabelEntry message_id LeafLabel); ELabel (NewLabelEntry (eid prepared) LeafLabel)].
Definition extended_ahead : Session := (Extend named_ahead now aside).1.1.

Example Extend_named_ahead :
  eid <$> last (s_entries extended_ahead) = Some (eid prepared) /\
  s_leaf extended_ahead <> eid prepared /\ resolveLeaf extended_ahead = eid prepared.
Proof. vm_compute. split; [reflexivity|]. split; [discriminate|reflexivity]. Qed.


(** The head moved from the leaf back to the message. *)
Lemma headLabel_cas_witness :
  exists label, headLabel run_session (s_leaf run_session) message_id = Ok label /\
  mayRestOn run_session message_id = true.
Proof.
  assert (is_ok (headLabel run_session (s_leaf run_session) message_id) = true) as Hok by (vm_compute; reflexivity).
  pose proof (headLabel_cas run_session (s_leaf run_session) message_id run_session_wf) as H.
  destruct (headLabel run_session (s_leaf run_session) message_id) as [label|]; [|discriminate Hok].
  exact (ex_intro _ label (conj eq_refl (proj1 (proj2 H)))).
Defined.

Definition swap s (to : string) : Session * Entry :=
  ok_or (s, config "") (commitHead s now (s_leaf s) to).

(** A second swap to the same place in the same instant makes the label the
    session already holds, and appends it again. *)
Example commitHead_repeats :
  NoDup (ids (s_entries (swap run_session message_id).1)) /\
  ~ NoDup (ids (s_entries (swap (swap run_session message_id).1 message_id).1)).
Proof.
  assert (bool_decide (NoDup (ids (s_entries (swap run_session message_id).1))) = true /\
          bool_decide (NoDup (ids (s_entries (swap (swap run_session message_id).1 message_id).1))) = false) as [H H']
    by (vm_compute; split; reflexivity).
  apply bool_decide_eq_true in H. apply bool_decide_eq_false in H'. exact (conj H H').
Qed.

Lemma commitHead_sound_witness :
  exists s' e, commitHead run_session now (s_leaf run_session) message_id = Ok (s', e) /\
  s_entries s' = s_entries run_session ++ [e] /\ sound s'.
Proof.
  assert (is_ok (commitHead run_session now (s_leaf run_session) message_id) = true /\
          bool_decide (eid (swap run_session message_id).2 ∉ ids (s_entries run_session)) = true) as [Hok Hn]
    by (vm_compute; split; reflexivity).
  unfold swap in Hn.
  destruct (commitHead run_session now (s_leaf run_session) message_id) as [[s' e]|] eqn:H; [|discriminate Hok].
  destruct (commitHead_sound run_session now (s_leaf run_session) message_id s' e run_session_sound H) as (_ & He & Hiff).
  apply bool_decide_eq_true in Hn. exact (ex_intro _ s' (ex_intro _ e (conj eq_refl (conj He (proj2 Hiff Hn))))).
Defined.

(** ** Calls and runs *)

Definition call_id : string := Eval vm_compute in nth_id run_session 3.

Lemma targetCall_replay_witness :
  exists c, targetCall run_session (s_leaf run_session) "c1" call_id = Ok c /\ c_CallID c = "c1".
Proof.
  pose proof (targetCall_replay run_session (s_leaf run_session) "c1" call_id run_session_wf) as H.
  assert (is_ok (targetCall run_session (s_leaf run_session) "c1" call_id) = true) as Hok by (vm_compute; reflexivity).
  rewrite H in Hok |- *. clear H. destruct (find _ _) as [c|]; [|discriminate Hok].
  destruct (decide (c_CallID c = "c1")) as [Hc|]; [|discriminate Hok]. exact (ex_intro _ c (conj eq_refl Hc)).
Defined.
