(* ===== verification/ExamplesContext.v ===== *)
(** * The properties of runs, contexts, deltas and hashes on concrete inputs *)
From S2P Require Import Prelude Entry Header Tree TreeWf Calls Runs RunsProps Verify Omit OmitProps Digest.
From S2P Require Import Settings SettingsProps Context ContextProps Compaction Hash HashProps Session.
From S2P Require Import SessionProps Forks Instances Examples.
Open Scope session_scope.

(** ** Runs *)

Definition run_of (o : result (option Run)) : option Run := match o with Ok r => r | Err _ => None end.

(** The open run has a call in flight, so it can only have been aborted. *)
Lemma EndRun_verifies_witness :
  exists run en, EndRun run_session ReasonAborted "" = Ok en /\
  Run_Verify (mkRun (r_Start run) (Some en) (r_Segment run ++ [ERun en])
                (Some (path run_session (s_leaf run_session) ++ [ERun en]))) = Ok tt.
Proof.
  assert (isSome (run_of (OpenRun run_session (s_leaf run_session))) = true) as Hrun by (vm_compute; reflexivity).
  assert (is_ok (EndRun run_session ReasonAborted "") = true) as Hend by (vm_compute; reflexivity).
  assert ((fun r => ComputeReason (r_Path r) (r_Segment r)) <$> run_of (OpenRun run_session (s_leaf run_session))
          = Some ReasonAborted) as Hreason by (vm_compute; reflexivity).
  assert (bool_decide ("" ∉ ids (path run_session (s_leaf run_session))) = true) as Hid by (vm_compute; reflexivity).
  destruct (OpenRun run_session (s_leaf run_session)) as [[run|]|] eqn:Ho; try discriminate Hrun.
  destruct (EndRun run_session ReasonAborted "") as [en|] eqn:He; [|discriminate Hend].
  assert (eid (ERun en) = "") as Hen.
  { unfold EndRun in He. rewrite Ho in He. simpl in He. injection He as <-. reflexivity. }
  apply bool_decide_eq_true in Hid. rewrite -Hen in Hid. injection Hreason as Hreason.
  destruct (EndRun_verifies run_session run ReasonAborted "" en en Ho He eq_refl eq_refl eq_refl eq_refl Hid)
    as (closed & _ & Hv).
  - rewrite Hreason. apply elem_of_cons. left. reflexivity.
  - exact (ex_intro _ run (ex_intro _ en (conj eq_refl Hv))).
Defined.

(** ** Compaction and context *)

Definition ctx_of (r : result Ctx) : Ctx := ok_or (mkCtx Settings_zero [] [] [] [] None) r.

Definition summary : ToyItem := message "summary".

(** The entry built is not named yet. *)
Lemma built_unnamed ctx n it comp : compactionFrom ctx n it = Ok comp -> eid (ECompaction comp) = "".
Proof. unfold compactionFrom. destruct (_ !! n) as [[]|]; try done; by intros [= <-]. Qed.
Lemma compaction_unnamed n comp : CompactFrom run_session n (Some summary) = Ok comp -> eid (ECompaction comp) = "".
Proof. unfold CompactFrom. intros ([it ctx] & _ & H)%rbind_Ok. apply rbind_Ok in H as (_ & _ & H). by eapply built_unnamed. Qed.
Lemma keeping_unnamed n comp : CompactKeeping run_session n (Some summary) = Ok comp -> eid (ECompaction comp) = "".
Proof. unfold CompactKeeping. intros ([it ctx] & _ & H)%rbind_Ok. apply rbind_Ok in H as (_ & _ & H). by eapply built_unnamed. Qed.

(** Keeping the last two items, the message and the call. *)
Lemma CompactFrom_keeps_witness :
  exists ctx ctx' comp, ContextAt run_session (s_leaf run_session) = Ok ctx /\
  CompactFrom run_session 1 (Some summary) = Ok comp /\
  BuildContext (path run_session (s_leaf run_session) ++ [ECompaction comp]) = Ok ctx' /\
  Items ctx' = Some summary :: drop 1 (Items ctx).
Proof.
  assert (is_ok (ContextAt run_session (s_leaf run_session)) = true /\
          om_Images (st_Omit (cx_Settings (ctx_of (ContextAt run_session (s_leaf run_session))))) = None /\
          is_ok (CompactFrom run_session 1 (Some summary)) = true) as (Hok & Hz & Hc) by (vm_compute; repeat split).
  destruct (ContextAt run_session (s_leaf run_session)) as [ctx|] eqn:Hctx; [|discriminate Hok].
  destruct (CompactFrom run_session 1 (Some summary)) as [comp|] eqn:Hcomp; [|discriminate Hc].
  assert (eid (ECompaction comp) = "") as Hid by (by apply compaction_unnamed in Hcomp).
  assert (eid (ECompaction comp) ∉ ids (path run_session (s_leaf run_session))) as Hnew.
  { rewrite Hid. exact (path_named _ _ run_session_wf). }
  assert (forall im, om_Images (st_Omit (cx_Settings ctx)) = Some im -> oi_Before im <> eid (ECompaction comp)) as Him.
  { intros im Him. cbn in Hz. rewrite Him in Hz. discriminate Hz. }
  destruct (CompactFrom_keeps run_session ctx 1 summary comp comp run_session_wf Hctx Hcomp
              eq_refl eq_refl eq_refl eq_refl Hnew Him) as (ctx' & Hb & Hi & _).
  exact (ex_intro _ ctx (ex_intro _ ctx' (ex_intro _ comp (conj eq_refl (conj eq_refl (conj Hb Hi)))))).
Defined.

Lemma CompactKeeping_keeps_witness :
  exists ctx ctx' comp last_items, ContextAt run_session (s_leaf run_session) = Ok ctx /\
  CompactKeeping run_session 1 (Some summary) = Ok comp /\
  BuildContext (path run_session (s_leaf run_session) ++ [ECompaction comp]) = Ok ctx' /\
  Items ctx' = Some summary :: last_items /\ length last_items = 1.
Proof.
  assert (is_ok (ContextAt run_session (s_leaf run_session)) = true /\
          om_Images (st_Omit (cx_Settings (ctx_of (ContextAt run_session (s_leaf run_session))))) = None /\
          is_ok (CompactKeeping run_session 1 (Some summary)) = true) as (Hok & Hz & Hc) by (vm_compute; repeat split).
  destruct (ContextAt run_session (s_leaf run_session)) as [ctx|] eqn:Hctx; [|discriminate Hok].
  destruct (CompactKeeping run_session 1 (Some summary)) as [comp|] eqn:Hcomp; [|discriminate Hc].
  assert (eid (ECompaction comp) = "") as Hid by (by apply keeping_unnamed in Hcomp).
  assert (eid (ECompaction comp) ∉ ids (path run_session (s_leaf run_session))) as Hnew.
  { rewrite Hid. exact (path_named _ _ run_session_wf). }
  assert (forall im, om_Images (st_Omit (cx_Settings ctx)) = Some im -> oi_Before im <> eid (ECompaction comp)) as Him.
  { intros im Him. cbn in Hz. rewrite Him in Hz. discriminate Hz. }
  destruct (CompactKeeping_keeps run_session ctx 1 summary comp comp run_session_wf Hctx Hcomp
              eq_refl eq_refl eq_refl eq_refl Hnew Him) as (ctx' & dropped & last_items & Hb & _ & Hl & Hi).
  exact (ex_intro _ ctx (ex_intro _ ctx' (ex_intro _ comp (ex_intro _ last_items
    (conj eq_refl (conj eq_refl (conj Hb (conj Hi Hl)))))))).
Defined.

Definition ex_path : list Entry := [config "m"; item (message "hello"); output_item call "resp"].

Lemma BuildContext_accounts_witness :
  exists c c0, BuildContext ex_path = Ok c /\ selected ex_path = Ok c0 /\ cx_Entries c = cx_Entries c0 /\
  length (Items c) = 2.
Proof.
  assert (is_ok (BuildContext ex_path) = true /\ length (Items (ctx_of (BuildContext ex_path))) = 2) as [Hok Hlen]
    by (vm_compute; split; reflexivity).
  destruct (BuildContext ex_path) as [c|] eqn:Hc; [|discriminate Hok].
  destruct (BuildContext_accounts ex_path c Hc) as (c0 & H0 & _ & He & _).
  exact (ex_intro _ c (ex_intro _ c0 (conj eq_refl (conj H0 (conj He Hlen))))).
Defined.

(** A message with three images, of which one is kept. *)
Definition pictures : ToyItem :=
  mkToyItem Message "" [(true, "a"); (false, "and"); (true, "b"); (true, "c")].

Definition shown : list (option Item * Entry) := [(Some pictures, item pictures)].

Lemma replaceImages_keeps_witness :
  image_total shown = 3 /\ image_total (replaceImages [] (Some (mkOmitImages 1 "" "gone")) shown).1 = 1.
Proof.
  split; [vm_compute; reflexivity|].
  rewrite (replaceImages_keeps [] (mkOmitImages 1 "" "gone") shown eq_refl).
  - vm_compute. reflexivity.
  - vm_compute. discriminate.
Defined.

(** The call is the response's own output; the message ended its request. *)
Lemma requestContextAt_output_witness :
  length (OutputEntries ([config "m"; item (message "hello")] ++ [output_item call "resp"; run_start "r1"])
            (response "resp")) = 1 /\
  requestContextAt ([config "m"; item (message "hello")] ++ [output_item call "resp"; run_start "r1"])
    (response "resp") true =
  buildContext ([config "m"; item (message "hello")] ++ [run_start "r1"]) true.
Proof.
  destruct (requestContextAt_output [config "m"; item (message "hello")] [output_item call "resp"; run_start "r1"]
              (response "resp") true) as [Ho Hr].
  - discriminate.
  - intros before v after E _. destruct before as [|x before]; [discriminate E|]. injection E as _ E.
    destruct before as [|y before]; [|injection E as _ E; destruct before; discriminate E].
    injection E as <- _. discriminate.
  - repeat constructor.
  - rewrite Ho. exact (conj eq_refl Hr).
Defined.

(** ** Deltas *)

Definition omitted_part (id : string) : OmittedPart := mkOmittedPart id "size" 10 "product" 0 "".

Lemma OmittedDelta_resolves_witness :
  exists d, OmittedDelta_of length [omitted_part "a"; omitted_part "b"] [("e1", [omitted_part "c"])]
              [omitted_part "a"; omitted_part "b"; omitted_part "d"] = Some d /\
  resolveOmitted [omitted_part "a"; omitted_part "b"] d [("e1", [omitted_part "c"])] =
  ([omitted_part "a"; omitted_part "b"; omitted_part "d"], false).
Proof.
  pose proof (OmittedDelta_resolves length [omitted_part "a"; omitted_part "b"] [("e1", [omitted_part "c"])]
                [omitted_part "a"; omitted_part "b"; omitted_part "d"]) as H.
  destruct (OmittedDelta_of _ _ _ _) as [d|] eqn:E; [|vm_compute in E; discriminate E].
  refine (ex_intro _ d (conj eq_refl (H _ _))).
  - split; [by apply (bool_decide_unpack _); vm_compute|]. repeat constructor; discriminate.
  - split; by apply (bool_decide_unpack _); vm_compute.
Defined.

Definition part (id text : string) : InstructionPart := mkInstructionPart id text "product" None "" 0 false.

Definition instructed : Settings :=
  mkSettings "m" "old" tt tt [part "a" "old"] [] Omit_zero [] ∅ [] [].

Lemma InstructionsDelta_applies_witness :
  exists c, InstructionsDelta instructed [part "a" "old"; part "b" "new"] = Some c /\
  Forall2 agrees (st_InstructionsParts (Apply instructed c)) [part "a" "old"; part "b" "new"].
Proof.
  assert (isSome (InstructionsDelta instructed [part "a" "old"; part "b" "new"]) = true) as Hs
    by (vm_compute; reflexivity).
  pose proof (InstructionsDelta_applies instructed [part "a" "old"; part "b" "new"]) as H.
  destruct (InstructionsDelta instructed [part "a" "old"; part "b" "new"]) as [c|]; [|discriminate Hs].
  refine (ex_intro _ c (conj eq_refl (proj1 (H _ _ _ _)))).
  - repeat constructor; discriminate.
  - by apply (bool_decide_unpack _); vm_compute.
  - intros node id ps p Hn. by apply elem_of_nil in Hn.
  - intros q p [Hq|(node & id & ps & Hn & _)] Hp; [|by apply elem_of_nil in Hn].
    apply list_elem_of_singleton in Hq as ->. apply elem_of_cons in Hp as [->|Hp]; [by intros _|].
    apply list_elem_of_singleton in Hp as ->. intros E. vm_compute in E. discriminate E.
Defined.

Definition omitting (ids : list string) (groups : list OmitOutputGroup) : Omit :=
  mkOmit "" ids (Some (mkOmitOutputs "gone" ids groups true)) None false.

Lemma OmitDelta_merges_witness :
  exists d, OmitDelta (omitting ["a"] []) (omitting ["a"; "b"] [mkOmitOutputGroup "short" ["c"]]) = Some (Some d) /\
  in_force (merged (omitting ["a"] []) d) (omitting ["a"; "b"] [mkOmitOutputGroup "short" ["c"]]).
Proof.
  destruct (OmitDelta (omitting ["a"] []) (omitting ["a"; "b"] [mkOmitOutputGroup "short" ["c"]])) as [[d|]|] eqn:E;
    [|vm_compute in E; discriminate E..].
  refine (ex_intro _ d (conj eq_refl (OmitDelta_merges _ _ _ _ E))).
  intros o Ho. injection Ho as <-. vm_compute. reflexivity.
Defined.

(** ** Hashes *)

Definition line (parent : string) : list canonicalMember :=
  [member "item" (jstr "hello"); member "parent" parent; member "ts" "1000"; member "type" (jstr "item")].

(** Every character is one a string literal holds as it is. *)
Definition plainb (s : string) : bool :=
  forallb (fun c => bool_decide (c <> "034"%char) && bool_decide (c <> "\"%char)) (la s).

Lemma plainb_spec s : plainb s = true -> strbody (la s) /\ backslash ∉ la s.
Proof.
  unfold plainb. generalize (la s). clear s. intros l. induction l as [|c l IH]; simpl; [intros _; split; [constructor|set_solver]|].
  rewrite !andb_true_iff !bool_decide_eq_true. intros [[Hq Hb] Hl]. destruct (IH Hl) as [H1 H2].
  split; [by constructor|]. set_solver.
Qed.

Lemma member_plain k v : plainb k = true -> value (la v) -> well_formed (member k v).
Proof. intros Hk Hv. destruct (plainb_spec k Hk). by apply member_wf. Qed.

Lemma jstr_value s : plainb s = true -> value (la (jstr s)).
Proof. intros Hs. destruct (plainb_spec s Hs) as [Hb _]. unfold jstr, Quote, dquote. rewrite !la_app. by apply (va_string (la s)). Qed.

Lemma line_wf parent : plainb parent = true -> Forall well_formed (line (jstr parent)).
Proof.
  intros Hp. repeat constructor; apply member_plain; try reflexivity; try (by apply jstr_value).
  apply va_scalar; [done|by intros [|]|]. intros x Hx [->|[-> | ->]]; revert Hx; set_solver.
Qed.

Lemma canonicalMembers_print_witness :
  canonicalMembers (print (line (jstr "p"))) = Some (line (jstr "p")).
Proof. exact (proj1 (canonicalMembers_print _ _ (line_wf "p" eq_refl) (line_wf "q" eq_refl))). Defined.

Lemma memberHashes_commit_witness :
  body_members (line (jstr "p")) = body_members (line (jstr "p")) /\
    envelope_members (line (jstr "p")) (memberHashes (line (jstr "p"))).2 =
    envelope_members (line (jstr "p")) (memberHashes (line (jstr "p"))).2 \/
  exists x y, x <> y /\ sha256hex x = sha256hex y.
Proof.
  apply (memberHashes_commit (line (jstr "p")) (line (jstr "p")) _ _ (memberHashes (line (jstr "p"))).1
           (line_wf "p" eq_refl) (line_wf "p" eq_refl)); reflexivity.
Defined.

Lemma migrate_never_redefines_witness :
  exists h', migrate (set_Format "agentsession/0.10" (header "s1")) = Ok h' /\ minor_of (h_Format h') = FormatMinor.
Proof.
  destruct (migrate_never_redefines (set_Format "agentsession/0.10" (header "s1")))
    as (h' & Hm & _ & _ & Hv); [vm_compute; reflexivity|].
  assert (negb (definesRedactedFrom (h_Format (set_Format "agentsession/0.10" (header "s1"))))
          && holds_redacted_from (set_Format "agentsession/0.10" (header "s1")) = false) as Hno by (vm_compute; reflexivity).
  rewrite Hno in Hv. exact (ex_intro _ h' (conj Hm Hv)).
Defined.
