(* ===== verification/ExamplesJson.v ===== *)
(** * Canonical JSON and the I-JSON test on documents

    Each property of the two that has hypotheses, applied to a document they
    hold of. *)
From S2P Require Import Prelude Entry Calls Digest Hash Strconv StrconvProps Utf8 Json Jcs Ijson NumberProps JcsProps JsonTokens IjsonProps.
From S2P Require Import JsonProps JsonPrint JcsRoundtrip Marshal HashCanonical Jsonx JsonxProps Instances.
From S2P Require Import Normalise NormaliseText NormaliseWalk NormaliseProps NormaliseRecord.
Open Scope session_scope.
Local Open Scope Z_scope.

Definition q : ascii := quote.
(** An object whose members are out of order, with white space and an escape. *)
Definition doc : list ascii :=
  la "{ " ++ q :: la "b" ++ q :: la " : 10, " ++ q :: la "a" ++ q :: la ":[ null]}".
Definition doc' : list ascii :=
  la "{" ++ q :: la "a" ++ q :: la ":[null]," ++ q :: la "b" ++ q :: la ":1e1}".
Definition form : list ascii :=
  la "{" ++ q :: la "a" ++ q :: la ":[null]," ++ q :: la "b" ++ q :: la ":10}".

Lemma transformFast_agrees_witness : transformDecoded doc = Some form.
Proof.
  assert (transformFast doc = Some form) as H by (vm_compute; reflexivity).
  exact (transformFast_agrees doc form H).
Defined.

Lemma Transform_idempotent_witness : Transform_bytes form = Some form.
Proof.
  assert (Transform_bytes doc = Some form) as H by (vm_compute; reflexivity).
  exact (Transform_idempotent doc form H).
Defined.

Lemma canonical_is_IJSON_witness : Check form = Ok tt.
Proof.
  assert (Transform_bytes doc' = Some form) as H by (vm_compute; reflexivity).
  exact (canonical_is_IJSON doc' form H).
Defined.

(** 0.1, which no double holds exactly. *)
Lemma FormatNumber_roundtrip_witness :
  exists p f', FormatNumber (Finite false 7205759403792794 (-56)) = Some (number_text p) /\ number_ok p /\
    ParseFloat (number_text p) = Some f' /\ same_double (Finite false 7205759403792794 (-56)) f'.
Proof.
  assert (finite_double (Finite false 7205759403792794 (-56))) as H.
  { split; [done|]. right. unfold canonical. split; [done|]. split; [done|]. by left. }
  exact (FormatNumber_roundtrip _ H).
Defined.

Definition spelling : json :=
  JObject [(la "b", JNumber (la "10")); (la "a", JArray [JNull])].
Definition spelling' : json :=
  JObject [(la "a", JArray [JNull]); (la "b", JNumber (la "1e1"))].

Lemma Transform_same_witness : same_data spelling spelling'.
Proof.
  assert (Decode doc = Some (spelling, [])) as H1 by (vm_compute; reflexivity).
  assert (Decode doc' = Some (spelling', [])) as H2 by (vm_compute; reflexivity).
  assert (Transform_bytes doc = Some form) as H3 by (vm_compute; reflexivity).
  assert (Transform_bytes doc' = Some form) as H4 by (vm_compute; reflexivity).
  exact (proj1 (Transform_same doc doc' spelling spelling' form
    (ex_intro _ [] (conj H1 eq_refl)) (ex_intro _ [] (conj H2 eq_refl)) H3) H4).
Defined.

Lemma short_of (l : list ascii) : (length l <=? 1000)%nat = true -> short l.
Proof. intros H. apply Nat.leb_le in H. unfold short. lia. Qed.

Lemma checkFast_agrees_witness : checkTokens doc = Ok tt.
Proof.
  assert (checkFast doc = true) as H by (vm_compute; reflexivity).
  exact (checkFast_agrees doc (short_of doc eq_refl) H).
Defined.

(** A name repeated under an escape. *)
Definition repeated : list ascii :=
  la "{" ++ q :: la "a" ++ q :: la ":1," ++ q :: la "\u0061" ++ q :: la ":2}".
Definition repeated_value : raw :=
  RObject [(la "a", RNumber (mkParts [] (la "1") [] [])); (la "\u0061", RNumber (mkParts [] (la "2") [] []))].

Lemma Check_document_witness :
  Check repeated <> Ok tt /\ (Check repeated = Ok tt <-> Valid repeated = true /\ IJSON repeated_value).
Proof.
  assert (scan_document repeated = Some (repeated_value, [])) as H by (vm_compute; reflexivity).
  split; [vm_compute; discriminate|].
  exact (Check_document repeated repeated_value (short_of repeated eq_refl) (ex_intro _ [] (conj H eq_refl))).
Defined.

Lemma checkFast_disagrees_witness :
  Check (number_text (long_fraction (Z.to_nat (10 ^ 6 + 1)))) = Ok tt /\
  checkTokens (number_text (long_fraction (Z.to_nat (10 ^ 6 + 1)))) = Err ErrNotIJSON.
Proof.
  assert (10 ^ 6 < Z.of_nat (Z.to_nat (10 ^ 6 + 1))) as H by lia.
  exact (checkFast_disagrees (Z.to_nat (10 ^ 6 + 1)) H).
Defined.

(** ** Where the two paths part from their documentation *)

(** [Transform] takes a closing bracket after the document for the end of it. *)
Example Transform_trailing : Transform_bytes (la "{}}") = Some (la "{}").
Proof. vm_compute. reflexivity. Qed.

(** [Check] passes what is no document: nothing at all, a document cut between
    tokens, and two of them. *)
Example Check_no_document :
  Check [] = Ok tt /\ Check (la "[1,") = Ok tt /\ Check (la "1 2") = Ok tt /\ json_Valid (la "[1,") = false.
Proof. vm_compute. auto. Qed.

(** ** The hashes of a line *)

(** An entry's line in canonical form. *)
Definition entry_line : string := string_of_list_ascii
  ("{"%char :: q :: la "item" ++ q :: ":"%char :: q :: la "a<b" ++ q :: ","%char :: q :: la "parent" ++ q :: la ":null," ++
   q :: la "ts" ++ q :: ":"%char :: q :: la "t" ++ q :: ","%char :: q :: la "type" ++ q :: ":"%char :: q :: la "item" ++ [q; "}"%char]).

Lemma canonical_line_hashes_witness :
  exists h, @EntryHashes jcs_canonicaliser toy_SH json_tools entry_line = Ok h /\
    @entryHashesCanonical jcs_canonicaliser toy_SH json_tools entry_line = Ok h.
Proof.
  assert (@Transform jcs_canonicaliser entry_line = Some entry_line) as Ht by (vm_compute; reflexivity).
  destruct (@EntryHashes jcs_canonicaliser toy_SH json_tools entry_line) as [h|e] eqn:E; [|vm_compute in E; discriminate E].
  refine (ex_intro _ h (conj eq_refl _)). rewrite <- E. exact (@canonical_line_hashes toy_SH entry_line Ht).
Defined.

(** ** A struct of one field *)

Definition flag_json (b : bool) : list ascii := object_text [(la "ok", print_raw (RBool b))].
Definition member_of {A} (k : list ascii) (ms : list (list ascii * A)) : option A :=
  snd <$> find (fun kv => bool_decide (kv.1 = k)) ms.

#[local] Instance flag_StructJSON : StructJSON bool := {|
  MarshalStruct b := Some (flag_json b);
  UnmarshalStruct data := match UnmarshalMap data with
                          | Some all => (fun t => bool_decide (t = la "true")) <$> member_of (la "ok") all
                          | None => None
                          end;
  StructKeys := [la "ok"]
|}.

Lemma member_of_set {A} k k' (v : A) ms : k <> k' -> member_of k (set_member k' v ms) = member_of k ms.
Proof.
  intros Hne. unfold member_of. induction ms as [|[k2 v2] ms IH]; cbn [set_member find fst].
  - by rewrite bool_decide_eq_false_2.
  - destruct (bool_decide (k' = k2)) eqn:E; cbn [find fst].
    + apply bool_decide_eq_true in E as <-. by rewrite !bool_decide_eq_false_2.
    + by destruct (bool_decide (k2 = k)).
Qed.

Lemma member_of_sets {A} k (ms ms' : list (list ascii * A)) : Forall (fun kv => kv.1 <> k) ms' ->
  member_of k (set_members (ms ++ ms')) = member_of k (set_members ms).
Proof.
  intros Hms. unfold set_members. rewrite foldl_app. generalize (foldl (fun m kv => set_member kv.1 kv.2 m) [] ms). clear ms.
  induction Hms as [|kv ms' Hk _ IH]; intros ms; [done|]. cbn [foldl]. rewrite IH member_of_set //.
Qed.

#[local] Instance flag_StructLaws : StructLaws bool.
Proof.
  refine {| takes_field k := k = la "ok" |}.
  - intros k Hk. by apply list_elem_of_singleton in Hk.
  - intros v b [= <-]. exists [(la "ok", print_raw (RBool v))]. split; [done|]. split; [|split].
    + constructor; [|constructor]. split; [by repeat constructor|apply print_spelled; constructor].
    + apply NoDup_singleton.
    + constructor; [|constructor]. vm_compute. by left.
  - intros ms ms' Hms Hms' Ho. unfold UnmarshalStruct, flag_StructJSON. rewrite !UnmarshalMap_object //; [|by apply Forall_app].
    rewrite map_app member_of_sets //. by apply Forall_map.
Defined.

Lemma unknown_kept_witness :
  exists data unknown', MarshalWithUnknown true [(la "z", la "[ 1]"); (la "x<", la "{}")] = Some data /\
    UnmarshalWithUnknown data [la "ok"] = Some (true, unknown') /\ unknown' ≡ₚ [(la "z", la "[ 1]"); (la "x<", la "{}")].
Proof.
  assert (value_spelled 1 (la "[ 1]")) as H1.
  { split; [done|]. split; [done|]. exists (RArray [RNumber (mkParts [] (la "1") [] [])]). intros r Hr g Hg.
    do 4 (destruct g as [|g]; [simpl in Hg; lia|]). reflexivity. }
  assert (value_spelled 1 (la "{}")) as H2 by exact (print_spelled 1 (RObject []) ltac:(by repeat constructor)).
  assert (UnmarshalStruct (flag_json true) = Some true) as Hu by (vm_compute; reflexivity).
  assert (unknown_ok [(la "z", la "[ 1]"); (la "x<", la "{}")]) as Hok.
  { split.
    - by apply (bool_decide_unpack _); vm_compute.
    - repeat constructor.
    - rewrite Forall_cons Forall_singleton. by split.
    - repeat (constructor; [intros E; vm_compute in E; discriminate E|]). constructor. }
  exact (unknown_kept true true (flag_json true) _ eq_refl Hu Hok).
Defined.

(** ** Normalisation *)

(** A document with a whole number no double holds and a lone surrogate. *)
Definition provider : list ascii :=
  la "{" ++ q :: la "id" ++ q :: la ":9007199254740993, " ++ q :: la "s" ++ q :: la ":" ++ q :: la "\ud800" ++ q :: la "}".
Definition provider_value : raw :=
  RObject [(la "id", RNumber (mkParts [] (la "9007199254740993") [] [])); (la "s", RString (la "\ud800"))].
Definition normal : list ascii :=
  la "{" ++ q :: la "id" ++ q :: la ":9007199254740992, " ++ q :: la "s" ++ q :: la ":" ++ q :: replacement ++ q :: la "}".
Definition recorded : list Normalisation :=
  [mkNormalisation "/id" "9007199254740993" ""; mkNormalisation "/s" (string_of_list_ascii (q :: la "\ud800" ++ [q])) ""].

Lemma document_provider : document provider provider_value.
Proof. exists []. split; [vm_compute; reflexivity|done]. Qed.

Lemma NormaliseJSON_canonical_witness : Check normal = Ok tt /\ Transform_bytes normal = Transform_bytes provider.
Proof.
  assert (Valid provider = true) as Hv by (vm_compute; reflexivity).
  assert (all_numbers plain_number provider_value) as Hn by (constructor; constructor; [constructor; right; vm_compute; reflexivity|by repeat constructor]).
  assert (NormaliseJSON provider = Ok (normal, recorded)) as H by (vm_compute; reflexivity).
  destruct (NormaliseJSON_canonical provider provider_value normal recorded document_provider H) as [Hc Ht]. split; [exact Hc|exact (Ht Hv Hn)].
Defined.

Lemma paired_plain (b : list ascii) : forallb (fun c => negb (bool_decide (c = quote)) && negb (bool_decide (c = backslash))) b = true -> paired b.
Proof. induction b as [|c b IH]; [constructor|]. cbn [forallb]. intros H. bool_prop. constructor; auto. Qed.

Lemma repairable_provider : repairable provider_value.
Proof.
  set (n := mkParts [] (la "9007199254740993") [] []). assert (finite_number (number_text n)) as Hn.
  { assert (match SetString (la "9007199254740993") with
            | Some r => match (Float64 r).1 with Finite _ _ _ => true | _ => false end
            | None => false
            end = true) as H by (vm_compute; reflexivity).
    change (number_text n) with (la "9007199254740993"). unfold finite_number.
    destruct (SetString _) as [r|] eqn:Hs; [|done]. destruct (Float64 r).1 as [neg m e| |] eqn:Hf; [|done..]. by exists r, neg, m, e. }
  apply finite_number_literal in Hn as [Hexp Hfin]; [|].
  2: { constructor; [by left|right|by left|by left]. split; [done|]. exists "9"%char, (la "007199254740993"). done. }
  constructor; [by apply (bool_decide_unpack (NoDup _)); vm_compute|].
  constructor; [|constructor; [|constructor]]; cbn [fst snd]; (split; [split; [vm_compute; reflexivity|by apply paired_plain]|]).
  - by constructor.
  - constructor.
Qed.

Lemma NormaliseJSON_succeeds_witness : exists out n, NormaliseJSON provider = Ok (out, n).
Proof. exact (proj1 (NormaliseJSON_succeeds provider provider_value document_provider) repairable_provider). Defined.

Lemma NormaliseJSON_again_witness : NormaliseJSON normal = Ok (normal, []).
Proof.
  assert (NormaliseJSON provider = Ok (normal, recorded)) as H by (vm_compute; reflexivity).
  exact (NormaliseJSON_again provider normal recorded H).
Defined.

Lemma NormaliseJSON_recorded_witness : checkNormalisations recorded = Ok tt /\
  checkNormalisations (prefixed (la "/item") <$> recorded) = Ok tt /\ Sorted.Sorted pointer_before recorded.
Proof.
  assert (NormaliseJSON provider = Ok (normal, recorded)) as H by (vm_compute; reflexivity).
  destruct (NormaliseJSON_recorded provider provider_value normal recorded document_provider H (short_of normal eq_refl)) as (H1 & H2 & H3).
  split; [apply H3; left; reflexivity|]. split; [apply H2; [split|]; reflexivity|exact H1].
Defined.

(** A lone surrogate by itself: its change points to the whole document, which is no
    pointer a writer may record without the member's before it. *)
Definition surrogate : list ascii := q :: la "\ud800" ++ [q].
Definition surrogate_changes : list Normalisation := [mkNormalisation "" (string_of_list_ascii surrogate) ""].
Example scalar_change_refused :
  NormaliseJSON surrogate = Ok (q :: replacement ++ [q], surrogate_changes) /\
  checkNormalisations surrogate_changes = Err ErrBadNormalisation /\
  checkNormalisations (prefixed (la "/item") <$> surrogate_changes) = Ok tt.
Proof. vm_compute. auto. Qed.

(** A literal too small for [math/big] to read, whose nearest double is zero: it is
    refused, and its canonical form is zero. *)
Example tiny_refused : let lit := la "1e-2000000" in
  NormaliseJSON lit = Err ErrNotIJSON /\ ParseFloat lit = Some (Finite false 0 emin) /\ Transform_bytes lit = Some (la "0").
Proof. vm_compute. auto. Qed.
