(* ===== verification/ExamplesCodec.v ===== *)
(** * A session file on concrete bytes

    A header and info entries written as JSON, with the canonicaliser and the
    I-JSON test as they are, and each property of reading, writing and scanning a
    file applied to one. *)
From S2P Require Import Prelude Entry Header Tree Leaf TreeWf LeafLemmas Calls CallRules Runs Verify Omit Digest Settings Context Hash Session.
From S2P Require Import SessionProps Json Ijson Jcs Marshal HashCanonical Times Codec CodecLines CodecProps CodecRoundtrip CodecScan Instances.
From S2P Require Import Refs Store Wake Follow FollowProps.
Open Scope session_scope.

#[local] Existing Instance json_tools | 0.
#[local] Existing Instance jcs_canonicaliser | 0.

(** ** Lines *)

Definition js (s : string) : string := Quote s.
Definition jobject (ms : list (string * string)) : string :=
  ("{" ++ String.concat "," ((fun kv => js kv.1 ++ ":" ++ kv.2) <$> ms) ++ "}")%string.
Definition jparent (p : string) : string := if decide (p = "") then "null" else js p.

Definition info_line e : string :=
  jobject [("id", js (eid e)); ("type", js "info"); ("parent", jparent (eparent e)); ("ts", js (CanonicalTime (Timestamp (Base e))));
           ("name", js (match e with EInfo i => inf_Name i | _ => "" end))].

#[local] Instance info_EC : EntryCodec := {|
  MarshalEntry e := Ok (info_line e);
  normaliseEntry e := (e, Ok None);
  rewriteEnvelope u := (un_Type u, Ok (un_Raw u));
  splitMembers _ := None
|}.

#[local] Instance info_ECL : EntryCodecLaws.
Proof. by split. Qed.

Definition member_text (k : string) (c : RawMessage) : option string :=
  match canonicalMembers c with
  | Some ms => match line_str (member_of k ms) with Ok s => Some s | Err _ => None end
  | None => None
  end.

Definition start : Time := mkTime (63844847999 * nano) 0.

#[local] Instance named_HJ : HeaderJSON := {|
  MarshalHeader h := Ok (jobject [("id", js (h_ID h)); ("format", js (h_Format h)); ("base", js (h_Base h))]);
  UnmarshalHeader c :=
    match member_text "id" c, member_text "format" c, member_text "base" c with
    | Some id, Some f, Some b => Ok (mkHeader f id start "openresponses/1" None [] "" "" "" b "" false None ∅)
    | _, _, _ => Err ErrOther
    end
|}.

(** A decoder of lines that verify and have a name; it keeps the [ts] member as the
    line has it, as the source's does. *)
Definition info_base (p : string) (refs : list EntryRef) (ts : Time) (raw : string) : EntryBase :=
  mkEntryBase "" p refs ts "" [] [] false None false ∅ "" raw.
Definition no_LC : LineCodec := {|
  decodeLine _ := Err ErrOther;
  UnmarshalRefs p := if decide (p = "[]") then Some [] else None;
  UnmarshalNormalised _ := Some [];
  remapRefs e _ := Ok (mkRemapped _ e false [])
|}.
Definition decode_info (d : RawMessage) : result (Entry * option RawMessage) :=
  refuse_if (negb (json_valid d)) ErrOther ;!
  match Transform d with
  | None => Err ErrOther
  | Some c =>
      let! v := @verifyLine _ _ json_tools no_LC c in
      let! refs := @line_refs _ no_LC (lv_parents v) in
      match member_text "name" c, member_text "ts" c with
      | Some name, Some ts =>
          match ParseCanonicalTime ts with
          | Some t => Ok (set_Base (set_ID (lv_id v)) (EInfo (mkInfoEntry (info_base (lv_parent v) refs t ts) name)), Some c)
          | None => Err ErrOther
          end
      | _, _ => Err ErrOther
      end
  end.
#[local] Instance info_LC : LineCodec := {|
  decodeLine := decode_info;
  UnmarshalRefs := @UnmarshalRefs _ no_LC;
  UnmarshalNormalised := @UnmarshalNormalised _ no_LC;
  remapRefs := @remapRefs _ no_LC
|}.

#[local] Instance info_LCL : LineCodecLaws.
Proof.
  assert (forall d e oc, decode_info d = Ok (e, oc) -> json_valid d = true /\ exists c v refs, Transform d = Some c /\ oc = Some c /\
    verifyLine c = Ok v /\ line_refs (lv_parents v) = Ok refs /\ eparent e = lv_parent v /\ Parents (Base e) = refs) as H.
  { intros d e oc H. unfold decode_info in H. apply rbind_Ok in H as ([] & Hv & H). destruct (Transform d) as [c|]; [|done].
    apply rbind_Ok in H as (v & Hver & H). apply rbind_Ok in H as (refs & Hrefs & H).
    destruct (member_text "name" c); [|done]. destruct (member_text "ts" c); [|done]. destruct (ParseCanonicalTime _); [|done].
    injection H as <- <-. split; [by destruct (json_valid d)|]. by exists c, v, refs. }
  split; intros d e; [intros oc (? & _)%H; done|intros c (_ & c' & ? & ? & -> & [= <-] & _)%H; done|].
  intros oc c v (_ & c' & v' & refs & -> & _ & Hv & Hr & Hp & <-)%H [= <-] Hv'. rewrite Hv in Hv'. injection Hv' as <-. done.
Defined.

(** ** A file *)

Definition head : Header := mkHeader Format "s1" start "openresponses/1" None [] "" "" "" "" "" false None ∅.
Definition info (p name : string) : Entry := EInfo (mkInfoEntry (info_base p [] start "") name).
(** An entry appended, named by its line's hashes. *)
Definition hashed_info (p name : string) : Entry :=
  let e := info p name in
  match Transform (info_line (set_Base (set_ID "x") e)) ≫= canonicalMembers with
  | Some ms => set_Base (set_hashes (memberHashes ms).1 (memberHashes ms).2) e
  | None => e
  end.
Definition first : Entry := Eval vm_compute in hashed_info "" "one".
Definition second : Entry := Eval vm_compute in hashed_info (eid first) "two".

Definition canonical (d : string) : string := default "" (Transform d).
Definition head_line : string := Eval vm_compute in canonical (jobject [("id", js "s1"); ("format", js Format); ("base", js "")]).
Definition line1 : string := Eval vm_compute in canonical (info_line first).
Definition line2 : string := Eval vm_compute in canonical (info_line second).
Definition lines : list string := [head_line; line1; line2].

(** The entries as they are read. *)
Definition with_ts (raw : string) (b : EntryBase) : EntryBase :=
  mkEntryBase (ID b) (Parent b) (Parents b) (Timestamp b) (LegacyID b) (Normalised b) (redacted b)
    (isRedacted b) (redactedRaw b) (gated b) (Unknown b) (content b) raw.
Definition as_read (e : Entry) : Entry := set_Base (with_ts (CanonicalTime (Timestamp (Base e)))) e.
Definition read1 : Entry := Eval vm_compute in as_read first.
Definition read2 : Entry := Eval vm_compute in as_read second.

Definition on_disk : Session := Eval vm_compute in match Read (file_of lines) with Ok (s, _) => s | Err _ => New head end.

Lemma on_disk_read : Read (file_of lines) = Ok (on_disk, None).
Proof. vm_compute. reflexivity. Qed.
Lemma on_disk_kept : kept on_disk.
Proof. exact (proj1 (Read_kept _ _ _ on_disk_read)). Qed.

Lemma Read_verifies_witness : s_entries on_disk = [read1; read2] /\ s_leaf on_disk = resolveLeaf on_disk.
Proof. split; [reflexivity|]. destruct (Read_verifies _ _ _ on_disk_read) as (_ & H & _). exact H. Defined.

(** The same entries in memory, as appending them left them: no [ts] was read. *)
Definition in_hand : Session := Eval vm_compute in foldl add (New head) [first; second].
Lemma read_differs : read1 <> first.
Proof. by vm_compute. Qed.

Lemma same1 : agrees first read1.
Proof. by split; vm_compute. Qed.
Lemma same2 : agrees second read2.
Proof. by split; vm_compute. Qed.
Lemma back1 : agrees read1 first.
Proof. by split; vm_compute. Qed.
Lemma back2 : agrees read2 second.
Proof. by split; vm_compute. Qed.

Lemma in_hand_kept : kept in_hand.
Proof.
  assert (exists rule, filed (h_ID head) (h_Base head) [first; second] rule) as [rule Hf].
  { destruct on_disk_kept as [_ [rule Hf] _ _]. exists rule. apply (agrees_filed _ _ [read1; read2]); [|intros e He|exact Hf].
    - constructor; [exact back1|]. constructor; [exact back2|constructor].
    - right. apply elem_of_cons in He as [-> | ->%list_elem_of_singleton]; [exists line1|exists line2]; (eexists; split; [vm_compute; reflexivity|vm_compute; reflexivity]). }
  change in_hand with (foldl add (New head) [first; second]). split.
  - apply (filed_add "s1" head [first; second] rule); [reflexivity|exact Hf].
  - exists rule. exact Hf.
  - done.
  - reflexivity.
Qed.

Definition encoded_head : string := jobject [("id", js "s1"); ("format", js Format); ("base", js "")].
Lemma head_reads : header_line head head_line.
Proof. exists encoded_head. do 5 (split; [vm_compute; reflexivity|]). vm_compute. reflexivity. Qed.

(** What a line decodes to and what verifying it gives. *)
Definition decoded (c : string) : Entry := match decode_info c with Ok (e, _) => e | Err _ => first end.
Definition enveloped (c : string) : lineEnvelope :=
  match verifyLine c with Ok v => v | Err _ => mkLineEnvelope "" "" "" "" None end.
Lemma entry_reads_info e c e' : Transform (info_line e) = Some c -> decode_info c = Ok (decoded c, Some c) ->
  verifyLine c = Ok (enveloped c) ->
  set_Base (set_hashes (lv_id (enveloped c)) (lv_content (enveloped c))) (gateRedacted (decoded c) Format) = e' -> entry_reads Format e c e'.
Proof. intros Ht Hd Hv He. exists (info_line e), (decoded c), (Some c), (enveloped c). split_and!; try done. by intros c' [= <-]. Qed.

Lemma line1_reads : entry_reads Format first line1 read1.
Proof. apply entry_reads_info; vm_compute; reflexivity. Qed.
Lemma line2_reads : entry_reads Format second line2 read2.
Proof. apply entry_reads_info; vm_compute; reflexivity. Qed.
Lemma lines_read : entries_read Format [first; second] [line1; line2] [read1; read2].
Proof.
  split; [|constructor; [exact same1|]; constructor; [exact same2|constructor]].
  constructor; [exact line1_reads|]. constructor; [exact line2_reads|constructor].
Qed.

Lemma Read_Write_witness : exists file s', Write in_hand = Ok file /\ Read file = Ok (s', None) /\ s_entries s' = [read1; read2].
Proof.
  destruct (Read_Write in_hand head_line [line1; line2] [read1; read2] in_hand_kept eq_refl head_reads lines_read)
    as (file & s' & Hw & Hr & Hs & _).
  exists file, s'. split; [exact Hw|]. split; [exact Hr|]. exact (sl_entries _ _ _ Hs).
Defined.

(** *** A third line, torn *)

Definition third : Entry := Eval vm_compute in hashed_info (eid first) "three".
Definition line3 : string := Eval vm_compute in (canonical (info_line third) ++ String LF "")%string.
Definition torn : string := Eval vm_compute in substring 0 40 line3.
Definition lost : string := Eval vm_compute in substring 40 (String.length line3 - 40) line3.

Lemma line3_written : write_line (MarshalEntry third) = Ok line3.
Proof. vm_compute. reflexivity. Qed.
Lemma line3_torn : line3 = (torn ++ lost)%string.
Proof. vm_compute. reflexivity. Qed.
Lemma in_hand_written : Write in_hand = Ok (file_of lines).
Proof. vm_compute. reflexivity. Qed.

Lemma Read_torn_witness : exists s' err, Read (file_of lines ++ torn)%string = Ok (s', Some (mkTruncated 4 torn err)) /\
  s_entries s' = [read1; read2].
Proof.
  destruct (Read_torn in_hand head_line [line1; line2] [read1; read2] (file_of lines) third line3 torn lost in_hand_kept head_reads lines_read eq_refl
    in_hand_written line3_written eq_refl line3_torn) as (s' & t & Hr & Hs & _ & _ & Ht); [discriminate|discriminate|].
  destruct Ht as [err Ht]. exists s', err. rewrite Ht in Hr. split; [exact Hr|]. exact (sl_entries _ _ _ Hs).
Defined.

(** The two readers on the file with its last line torn. *)
Definition torn_file : string := Eval vm_compute in (file_of lines ++ torn)%string.

Lemma Scan_agrees_witness : exists h es t, Scan torn_file = Ok (h, (es, ScanTruncated t)) /\ fresh_ids es = [eid first; eid second].
Proof.
  pose proof (Scan_agrees torn_file) as H.
  assert (exists h es t s t', Scan torn_file = Ok (h, (es, ScanTruncated t)) /\ Read torn_file = Ok (s, t') /\
    ids (s_entries s) = [eid first; eid second]) as (h & es & t & s & t' & Hs & Hr & Hi).
  { do 5 eexists. split; [vm_compute; reflexivity|]. split; vm_compute; reflexivity. }
  rewrite Hs Hr in H. destruct H as (_ & _ & H & _). exists h, es, t. split; [exact Hs|]. rewrite <- H. exact Hi.
Defined.

(** Two documents on a line pass the I-JSON test, and are no JSON: a last line of
    them is reported as one cut short, which it is not. *)
Definition doubled : string := (line1 ++ "{}")%string.
Example doubled_truncated :
  ijson_Check doubled = Ok tt /\ json_valid doubled = false /\
  match Read (file_of [head_line] ++ doubled)%string with Ok (s, Some t) => s_entries s = [] /\ tl_Data t = doubled | _ => False end.
Proof. vm_compute. auto. Qed.

(** ** Following it *)

Definition early : Session := Eval vm_compute in match Read (file_of [head_line; line1]) with Ok (s, _) => s | Err _ => New head end.
Lemma early_read : Read (file_of [head_line; line1]) = Ok (early, None).
Proof. vm_compute. reflexivity. Qed.

Lemma early_kept : kept early.
Proof. exact (proj1 (Read_kept _ _ _ early_read)). Qed.
Lemma read1_reads : entry_reads Format read1 line1 read1.
Proof. apply entry_reads_info; vm_compute; reflexivity. Qed.
Lemma early_lined : lined early [read1].
Proof.
  split; [exact early_kept|reflexivity|]. exists head_line, [line1]. split; [exact head_reads|].
  split; (constructor; [|constructor]); [exact read1_reads|by split].
Qed.
Lemma in_hand_lined : lined in_hand [read1; read2].
Proof. split; [exact in_hand_kept|reflexivity|]. exists head_line, [line1; line2]. split; [exact head_reads|exact lines_read]. Qed.

Lemma early_moment : moment in_hand early.
Proof. split; [eexists; exact early_lined|]. exists [eid second]. reflexivity. Qed.
Lemma in_hand_moment : moment in_hand in_hand.
Proof. split; [eexists; exact in_hand_lined|]. exists []. reflexivity. Qed.

Lemma memoryStart_resumes_witness : exists sess, memoryStart in_hand 7 (memoryCursor 7 1) = Ok (sess, 1, true, Snapshot) /\ s_entries sess = [read1].
Proof.
  destruct (memoryStart_resumes in_hand [read1; read2] 7 in_hand_lined ltac:(lia)) as (_ & H & _).
  destruct (H 1 ltac:(lia) ltac:(cbn; lia) (or_introl eq_refl)) as (sess & Hs & Hr). exists sess. split; [exact Hs|]. exact (proj1 (proj2 Hr)).
Defined.

(** A second entry is appended between the first read and the first look. *)
Definition in_memory : MemoryStore := mkMemoryStore {["s1" := early]} {["s1" := 7]} 7 no_refs false ∅ ∅.
Definition later : list look := [mkLook in_memory in_hand in_hand in_hand].
Definition taken : script := mkScript (replicate 8 true) (replicate 8 false) (replicate 8 true).

Lemma keeps_decoded e own : UnmarshalEntry (info_line e) = Ok own -> eid own = eid e -> keeps_id e.
Proof. intros Hu He b own' [= <-] Ho. rewrite Hu in Ho. by injection Ho as <-. Qed.
Definition own1 : Entry := Eval vm_compute in decoded (info_line first).
Definition own2 : Entry := Eval vm_compute in decoded (info_line second).
Lemma first_keeps : keeps_id first.
Proof. apply (keeps_decoded first own1); vm_compute; reflexivity. Qed.
Lemma second_keeps : keeps_id second.
Proof. apply (keeps_decoded second own2); vm_compute; reflexivity. Qed.
Lemma later_seen : Forall (sees in_hand) later.
Proof.
  constructor; [|constructor]. split; [exact in_hand_moment|]. split; [|exact in_hand_moment].
  constructor; [exact first_keeps|]. constructor; [exact second_keeps|constructor].
Qed.

Definition followed : list (result Change) := Follow start "s1" "" in_memory early later taken.
Lemma followed_kinds : ((fun c => match c with Ok c => Some (chg_Kind c, chg_ID c, chg_Cursor c) | Err _ => None end) <$> followed) =
  [Some (Snapshot, "", "7:1"); Some (Appended, eid second, "7:2")].
Proof. vm_compute. reflexivity. Qed.

Lemma taken_patient k : k <= 8 -> patient k taken.
Proof. intros Hk. apply (patient_le k 8); [|exact Hk]. split_and!; by exists []. Qed.

Lemma Follow_in_order_witness : exists c out' n',
  followed = Ok c :: out' /\ told (ids (s_entries in_hand)) 7 1 out' n' /\ 2 <= n'.
Proof.
  destruct (Follow_in_order in_hand start "s1" "" in_memory early later taken in_hand_kept early_moment later_seen
    (fun n H => ltac:(discriminate H))) as [[H _]|[(n & H & _)|(c & out' & sc' & H1 & _ & Hsc & H3)]]; [discriminate H|destruct (H eq_refl)|].
  exists c, out'. destruct H3 as [H3|[_ H3]]; [|exfalso; apply H3, taken_patient; lia].
  unfold follows, halted in H3. destruct H3 as (o & n' & Ht & He).
  destruct He as [[-> Hc]|(err & -> & _)].
  - exists n'. split; [exact H1|]. split; [exact Ht|]. destruct Hc as [Hc|(o' & c' & _ & _ & ->)]; [apply Hsc, taken_patient; cbn; lia|exact Hc|cbn; lia].
  - assert (followed = Ok c :: o ++ [Err err]) as H' by exact H1. pose proof followed_kinds as K. rewrite H' fmap_cons fmap_app in K.
    injection K as _ K. by destruct o as [|? [|? ?]].
Defined.

(** ** Waiting for it *)

Definition calls : list call := [CWatch "s1"; CWatch "s2"; CChan 0].
Definition waiting : system := Eval vm_compute in match hub_run calls hub_start with Ok s => s | Err _ => hub_start end.
Definition woken : system := Eval vm_compute in match hub_run [CNotify "s2"; CNotify "s1"] waiting with Ok s => s | Err _ => hub_start end.

Lemma Hub_wakes_witness : (0 ∈ hub_closed (sys_hub woken)) /\ (0 ∉ hub_closed (sys_hub waiting)).
Proof.
  split; [|by vm_compute].
  apply (Hub_wakes calls waiting 0 (mkWatcher "s1" 0 false (Some 0)) 0 [CNotify "s2"; CNotify "s1"] woken);
    [vm_compute; reflexivity|reflexivity|reflexivity|reflexivity|vm_compute; reflexivity| |].
  { intros H. repeat (apply elem_of_cons in H as [H|H]; [discriminate H|]). by apply elem_of_nil in H. }
  right. apply list_elem_of_further, list_elem_of_here.
Defined.

Lemma Poll_backs_off_witness : waits 6 (Poll_Reset memoryPoll) !! 5 = Some 1000000000%Z.
Proof. exact (Poll_backs_off memoryPoll 6 5 ltac:(cbn; lia) ltac:(cbn; lia) ltac:(lia)). Defined.
