(* ===== verification/ExamplesStore.v ===== *)
(** * The stores' properties on concrete stores

    The parameters of the stores instantiated, and each property of the refs, of
    the store in memory and of the calls of [SessionFor] applied where its
    hypotheses hold. *)
From S2P Require Import Prelude Entry Header Tree Leaf TreeWf LeafLemmas Calls CallRules Runs Verify Omit Digest Settings Context Hash Session.
From S2P Require Import SessionProps Codec GoStrings Refs RefsProps Blob Store StoreProps OriginProps SessionFor SessionForProps MemoryRefs Instances.
Open Scope session_scope.

(** ** The parameters *)

#[export] Instance toy_HJ : HeaderJSON := {| MarshalHeader h := Ok (h_ID h); UnmarshalHeader _ := Err ErrOther |}.

Definition now : Time := mkTime 1000 0.
Definition header (id : string) : Header := mkHeader Format id now "openresponses/1" None [] "" "" "" "" "" false None ∅.

(** Every line is one name. *)
#[export] Instance toy_LC : LineCodec := {|
  decodeLine _ := Ok (EInfo (mkInfoEntry zero_base "n"), None);
  UnmarshalRefs _ := None;
  UnmarshalNormalised _ := None;
  remapRefs e _ := Ok (mkRemapped _ e false [])
|}.
#[export] Instance toy_SC : StoreCodec := {|
  UnmarshalRedactedFrom _ := None;
  UnmarshalBool raw := if decide (raw = "true") then Some true else if decide (raw = "false") then Some false else None
|}.

Definition here : context := mkContext (Ok tt) (fun _ => true).

(** ** Refs *)

Definition sessions : gmap string Session := {["s1" := New (header "s1")]}.
Definition to_s1 : RefTarget := mkRefTarget "s1" "".
Definition one_ref : refState := Eval vm_compute in (UpdateRef sessions now no_refs "talk" no_target to_s1 "created").1.

Lemma one_ref_made : UpdateRef sessions now no_refs "talk" no_target to_s1 "created" = (one_ref, None).
Proof. vm_compute. reflexivity. Qed.

Lemma updated_table_witness : replays "talk" no_target (default [] (rs_logs one_ref !! "talk")) to_s1.
Proof.
  destruct (updated_table one_ref) as [H _]; [|exact (H "talk")].
  eapply up_step; [apply up_none|apply one_ref_made].
Defined.

Lemma UpdateRef_cas_witness : ResolveRef sessions one_ref "talk" = (to_s1, None).
Proof.
  destruct (UpdateRef_cas _ _ _ _ _ _ _ _ _ one_ref_made) as (_ & _ & _ & Hu & _).
  destruct Hu as (u & _ & _ & _ & H); [discriminate|]. apply H. discriminate.
Defined.

(** Two names that differ only in case, and one under another. *)
Example RefConflict_case :
  RefConflict "Talk" ["talk"] = Err ErrRefName /\ RefConflict "talk/a" ["talk"] = Err ErrRefName /\ RefConflict "talk2" ["talk"] = Ok tt.
Proof. vm_compute. auto. Qed.

(** The default type written with a long s is no ASCII token, and is taken for no
    type at all. *)
Definition folded_type : string := ("application/octet-" ++ String "197" (String "191" "tream"))%string.
Example BlobMediaType_folds : BlobMediaType folded_type = Ok "" /\ isToken folded_type = false.
Proof. vm_compute. auto. Qed.

(** ** The store in memory *)

Definition empty_store : MemoryStore := NewMemoryStore false 0.
Definition store1 : MemoryStore := (Create here "p" "x" now [] empty_store (header "s1")).1.

Lemma store_run_ok_witness :
  h_ID (s_header (New (header "s1"))) = "s1" /\ sound (New (header "s1")).
Proof.
  destruct (store_run_ok true store1) as [H _].
  - eapply (run_step true true); [apply (run_new false 0)|].
    eapply (st_create _ here "p" "x" now [] empty_store (header "s1")); reflexivity.
  - destruct (H "s1" (New (header "s1")) eq_refl) as [Hid Hs]. exact (conj Hid (Hs eq_refl)).
Defined.

Definition with_blob := PutTypedBlob here now "data" "text/plain" store1.
Definition swept := SweepBlobs here (mkTime 2000 0) with_blob.1.
Definition store_swept : MemoryStore := Eval vm_compute in swept.1.
Lemma swept_one : SweepBlobs here (mkTime 2000 0) with_blob.1 = (store_swept, Ok 1).
Proof. vm_compute. reflexivity. Qed.
Lemma SweepBlobs_keeps_witness : size (ms_blobs store_swept) + 1 = size (ms_blobs with_blob.1).
Proof. destruct (SweepBlobs_keeps _ _ _ _ _ swept_one) as (_ & H & _). exact H. Defined.

(** A session with one entry, and a fork at it. *)
Definition appended := store_Append now "s1" (EInfo (mkInfoEntry zero_base "n")) store1.
Definition store2 : MemoryStore := Eval vm_compute in appended.1.1.
Definition base_id : string := Eval vm_compute in match appended.2 with Ok id => id | Err _ => "" end.
Definition session2 : Session := Eval vm_compute in default (New (header "")) (ms_sessions store2 !! "s1").

Lemma no_unnamed : Forall (fun t => ms_sessions t.1 !! "" = None) [(store2, store2)].
Proof. apply Forall_singleton. vm_compute. reflexivity. Qed.
Lemma origin_found : lockOrigin here "" base_id [(store2, store2)] store2 = (store2, Some session2).
Proof. vm_compute. reflexivity. Qed.

Lemma lockOrigin_finds_witness : has_entry session2 base_id = true.
Proof. destruct (lockOrigin_finds _ _ _ _ _ _ _ no_unnamed origin_found) as (id & _ & Hb & _). exact Hb. Defined.

(** The session deleted each time before the lock is taken again: eight tries,
    and the store, which holds the base again, is told it does not. *)
Definition deleted : MemoryStore := (Delete "s1" store2).1.
Example lockOrigin_gives_up :
  (lockOrigin here "" base_id (replicate originTries (store2, deleted)) store2).2 = None /\
  holding base_id true store2 = ["s1"].
Proof. vm_compute. auto. Qed.

(** ** [SessionFor] *)

Definition new_header : Header := header "".

Lemma create_here m fresh m' r : fresh <> "" -> CheckCreate new_header (ms_redactedOnly m) = Ok tt ->
  Create here "p" fresh now [] m new_header = (m', r) ->
  memory_Create new_header m m' (let! s := r in Ok (memory_handle (h_ID (s_header s)) m')).
Proof. intros Hf Hc H. exists here, "p", fresh, now, [], m, r. rewrite Hc. done. Qed.

(** A turn of one call, the state after it given. *)
Lemma run_call name h t0 n trace t cs used i c t' used' c' st' m : sf_run name h t0 n true trace (mkState t cs used) ->
  cs !! i = Some c -> sf_turn name h t used c t' used' c' -> st' = mkState t' (<[i := c']> cs) used' ->
  bool_decide (store_ResolveRef name t' <> store_ResolveRef name t) = m ->
  (forall own, sf_own c' = Some own -> sf_own c = Some own \/ own.1 ∉ used) ->
  sf_run (T := MemoryStore) name h t0 n true ((Some i, m) :: trace) st'.
Proof.
  intros Hr Hi Ht -> <- Hq. refine (run_more name h t0 n true trace (mkState t cs used) (Some i) (mkState t' (<[i := c']> cs) used') Hr _ _); [by eapply step_call|]. intros _ own. cbn.
  rewrite list_lookup_insert_eq; [|by eapply lookup_lt_Some]. rewrite Hi. cbn. intros [= Ho]. destruct (Hq own Ho) as [->|]; [by left|by right].
Qed.

(** Two calls on a store with no ref, both past the resolve before either has
    created its session: the first sets the ref, the second finds it moved, opens
    the first's session and deletes its own. *)
Definition own1 : string * nat := ("n1", 1).
Definition own2 : string * nat := ("n2", 2).
Definition race1 : MemoryStore := (Create here "p" "n1" now [] empty_store new_header).1.
Definition race2 : MemoryStore := (Create here "p" "n2" now [] race1 new_header).1.
Definition race3 : MemoryStore := (store_UpdateRef now "talk" no_target (sf_target own1) "created" race2).1.
Definition race4 : MemoryStore := (Delete "n2" race3).1.
Definition used0 : gset string := {[""]}.
Definition used2 : gset string := {["n2"]} ∪ ({["n1"]} ∪ used0).

(** The steps of the two calls, none of which moves the name but the update. *)
Definition still (l : list nat) : list (option nat * bool) := (fun i => (Some i, false)) <$> l.
Ltac own_kept := let own := fresh in intros own; cbn; by left.

Lemma race_begun : sf_run "talk" new_header empty_store 2 true (still [1; 0])
  (mkState empty_store [mkCall None (Creating no_target); mkCall None (Creating no_target)] used0).
Proof.
  eapply run_call; [eapply run_call; [apply run_start|reflexivity|by apply turn_resolve|reflexivity|reflexivity|own_kept]
    |reflexivity|by apply turn_resolve|reflexivity|reflexivity|own_kept].
Qed.

Lemma race_created : sf_run "talk" new_header empty_store 2 true (still [1; 0; 1; 0])
  (mkState race2 [mkCall (Some own1) (Updating no_target); mkCall (Some own2) (Updating no_target)] used2).
Proof.
  eapply (run_call _ _ _ _ _ _ _ _ 1 _ race2); [eapply (run_call _ _ _ _ _ _ _ _ 0 _ race1); [apply race_begun|reflexivity| |reflexivity| |]|reflexivity| |reflexivity| |].
  - apply (turn_create _ _ _ _ _ no_target race1 (Ok own1)); [done|].
    apply (create_here empty_store "n1" race1 (Create here "p" "n1" now [] empty_store new_header).2); done.
  - vm_compute. reflexivity.
  - intros own [= <-]. right. by vm_compute.
  - apply (turn_create _ _ _ _ _ no_target race2 (Ok own2)); [done|].
    apply (create_here race1 "n2" race2 (Create here "p" "n2" now [] race1 new_header).2); done.
  - vm_compute. reflexivity.
  - intros own [= <-]. right. by vm_compute.
Qed.

Lemma race_set : rs_UpdateRef now "talk" no_target (sf_target own1) "created" race2 = (race3, None).
Proof. vm_compute. reflexivity. Qed.
Lemma race_moved : rs_UpdateRef now "talk" no_target (sf_target own2) "created" race3 = (race3, Some (RefMovedError (sf_target own1))).
Proof. vm_compute. reflexivity. Qed.
Lemma race_resolves : rs_ResolveRef "talk" race3 = (sf_target own1, None).
Proof. vm_compute. reflexivity. Qed.
Lemma race_opens : rs_Open "n1" race3 = Ok own1.
Proof. vm_compute. reflexivity. Qed.
Lemma race_deletes : rs_Delete "n2" race3 = (race4, Ok tt).
Proof. vm_compute. reflexivity. Qed.

Definition race : list (option nat * bool) := still [1; 1; 1; 0; 1] ++ (Some 0, true) :: still [1; 0; 1; 0].

Lemma race_settled : sf_run "talk" new_header empty_store 2 true (still [0; 1] ++ (Some 0, true) :: still [1; 0; 1; 0])
  (mkState race3 [mkCall (Some own1) (Returned (Ok own1)); mkCall (Some own2) Resolving] used2).
Proof.
  pose proof (turn_update (T := MemoryStore) "talk" new_header race2 used2 (mkCall (Some own1) (Updating no_target)) no_target own1 now eq_refl eq_refl) as T1.
  rewrite race_set in T1.
  pose proof (turn_update (T := MemoryStore) "talk" new_header race3 used2 (mkCall (Some own2) (Updating no_target)) no_target own2 now eq_refl eq_refl) as T2.
  rewrite race_moved in T2.
  eapply (run_call _ _ _ _ _ _ _ _ 0); [eapply (run_call _ _ _ _ _ _ _ _ 1); [eapply (run_call _ _ _ _ _ _ _ _ 0);
    [apply race_created|reflexivity|exact T1|reflexivity|vm_compute; reflexivity|own_kept]|reflexivity|exact T2|reflexivity|vm_compute; reflexivity|own_kept]|reflexivity
    |by apply (turn_return _ _ _ _ _ (Ok own1))|reflexivity|vm_compute; reflexivity|own_kept].
Qed.

Lemma race_run : sf_run "talk" new_header empty_store 2 true race
  (mkState race4 [mkCall (Some own1) (Returned (Ok own1)); mkCall (Some own2) (Returned (Ok own1))] used2).
Proof.
  pose proof (turn_resolve (T := MemoryStore) "talk" new_header race3 used2 (mkCall (Some own2) Resolving) eq_refl) as T1.
  rewrite race_resolves in T1.
  pose proof (turn_open (T := MemoryStore) "talk" new_header race3 used2 (mkCall (Some own2) (Opening (sf_target own1))) (sf_target own1) eq_refl) as T2.
  rewrite race_opens in T2.
  pose proof (turn_discard (T := MemoryStore) "talk" new_header race3 used2 (mkCall (Some own2) (Deferred (Ok own1))) (Ok own1) own2 eq_refl eq_refl) as T3.
  rewrite race_deletes in T3.
  eapply (run_call _ _ _ _ _ _ _ _ 1); [eapply (run_call _ _ _ _ _ _ _ _ 1); [eapply (run_call _ _ _ _ _ _ _ _ 1);
    [apply race_settled|reflexivity|exact T1|reflexivity|vm_compute; reflexivity|own_kept]|reflexivity|exact T2|reflexivity|vm_compute; reflexivity|own_kept]
    |reflexivity|exact T3|reflexivity|vm_compute; reflexivity|own_kept].
Qed.

Lemma SessionFor_agree_witness : rs_Open own2.1 race4 <> Ok own2.
Proof.
  destruct (SessionFor_agree _ _ _ _ _ _ 1 _ own1 race_run eq_refl eq_refl) as (_ & _ & H).
  destruct (H own2 eq_refl) as [H'|H']; [discriminate H'|apply H'].
Defined.

(** The second call took six turns, the update of the first among the steps between. *)
Lemma SessionFor_returns_witness : turns 1 race <= 4 + 3 * moved_by_others 1 race /\ turns 1 race = 6 /\ moved_by_others 1 race = 1.
Proof.
  destruct (SessionFor_returns "talk" new_header empty_store 2 true race _ 1 race_run ltac:(lia)) as (c & _ & H & _).
  split; [exact H|]. split; reflexivity.
Defined.
